(* ===== verification/_CoqProject ===== *)
-Q . S2P
Prelude.v
GoStrings.v
GoPath.v
GoRegexp.v
GoLanguage.v
Sha256.v
GoJson.v
GoTime.v
GoReflect.v
GoRecord.v
Effects.v
PolicyScan.v
PolicyJail.v
PolicySecrets.v
PolicyCommands.v
PolicyGrants.v
Policy.v
WorkqueueTypes.v
Admission.v
Fairness.v
WorkqueueRows.v
WorkqueueStore.v
WorkqueueInv.v
WorkqueueOps.v
WorkqueueEnqueue.v
WorkqueueSystem.v
Workqueue.v
WorkqueueExamples.v
WorkqueueIntegrity.v
TaskTypes.v
TaskRecord.v
TaskRules.v
TaskRoundtrip.v
TaskRows.v
TaskStore.v
TaskFacts.v
TaskSteps.v
TaskInv.v
TaskCreate.v
TaskOps.v
TaskSystem.v
TaskHistory.v
Tasks.v
TaskExamples.v
DevCapability.v
DevResolver.v
DevAttempt.v
DevProvision.v
DevObjective.v
DevOps.v
DevInv.v
DevPreserve.v
DevSteps.v
DevPlan.v
DevFinish.v
DevHistory.v
DevRecord.v
DevRoundtrip.v
DevBootstrap.v
Development.v
DevelopmentExamples.v
DevRequest.v
DevTables.v
DevStore.v
DevQueue.v
DevLedger.v
DevLedgerExamples.v
GoUrl.v
OAuthTypes.v
OAuthStore.v
OAuthProvider.v
OAuthFacts.v
OAuthInv.v
OAuthSystem.v
OAuthSafety.v
OAuthSingle.v
OAuthThrottle.v
OAuthTokens.v
OAuthExamples.v
