(* ===== verification/Prelude.v ===== *)
(** * Aeontra: a verification library for the core logic of the control plane

    Aeontra ([src/README.md]) gives AI clients scoped software-development
    operations. The library models the Go packages that decide what may happen:

    - [src/internal/policy] with [src/internal/config]: which paths may be read and
      written, which commands may run, and what a human approved;
    - [src/internal/workqueue]: the durable job queue with leases and fences, its
      admission control and its fair scheduler, and the tasks on top of it, which fan
      out into workers, collect receipts and integrate the work of earlier tasks;
    - [src/internal/development]: development objectives, that is, steps that are
      executed in attested environments under an authority policy, provisioned when
      a capability is missing, and accepted on evidence;
    - [src/internal/oauth]: the authorization server that guards the MCP endpoint:
      client registration, the owner's login, codes, access and refresh tokens, and the
      files that several processes share.

    They interact through values: the queue and the objectives use the redactor of
    the policy package to keep secrets out of stored text (class [Redactor] of
    [PolicyScan]), an objective's provisioning attempt is bound to a job and fence of
    the queue, and a stored objective is replaced only by a revision that passes
    [ValidateTransition]. The queue database also holds the requests and objectives
    themselves, as canonical JSON under a digest; pruning one consults the requests
    that name it and the jobs that serve it. A task is a row of its own with a row and
    a job per worker: leasing, completing and cancelling a worker are operations on its
    job, and the state of the task is derived from the jobs whenever it is read.

    ** Files, in order of dependency

    Language and libraries (no source of their own):
    [Prelude] results and machine integers, shared notations, tactics and hints;
    [GoStrings] package strings on byte strings; [GoPath] path/filepath on Unix over
    file systems with symbolic links; [GoRegexp] the regular expressions the code
    compiles, as an executable matcher; [GoLanguage] the strings a pattern accepts, as
    a language; [Sha256] an executable SHA-256; [GoJson] the
    writer and reader of encoding/json on text; [GoTime] the calendar and the RFC 3339
    text of package time; [GoReflect] how it maps Go types to
    JSON (field names, omitempty, pointers, slices, integer widths), as codecs;
    [GoRecord] structs as codecs, which values survive writing and reading, and that
    decoded strings are UTF-8; [GoUrl] net/url, base64 and the forms of
    net/http; [Effects] stateful computations whose driver calls may fail.

    Policy: [PolicyScan] scan.go; [PolicyJail] jail.go; [PolicySecrets] secrets.go;
    [PolicyCommands] commands.go; [PolicyGrants] grants.go; [Policy] policy.go and
    config.go, composed from the others.

    Queue: [WorkqueueTypes] types.go; [Admission] admission.go; [Fairness]
    fairness.go; [WorkqueueRows] the rows of the jobs table and every UPDATE on
    them; [WorkqueueStore] the operations of store.go and cleanup.go as
    transactions; [WorkqueueInv] the invariant; [WorkqueueOps], [WorkqueueEnqueue]
    what each operation does; [WorkqueueSystem] the reachable stores; [Workqueue]
    the theorems; [WorkqueueExamples] concrete runs; [WorkqueueIntegrity] the check
    of jobs and dependencies when a database is opened.

    Tasks: [TaskTypes] the types of task.go, task_objective.go and task_integration.go;
    [TaskRecord] their JSON; [TaskRules] validation, digests, receipts, pins and the
    state of a task; [TaskRoundtrip] that stored records are read back; [TaskRows]
    [taskByID], the reading of a task; [TaskStore] the operations as transactions;
    [TaskFacts] what a valid stored task is; [TaskSteps] the steps of the database and
    the invariant; [TaskInv], [TaskCreate] every step keeps it; [TaskOps] each operation
    makes such steps; [TaskSystem] the calls and the reachable stores; [TaskHistory]
    what later states keep; [Tasks] the theorems; [TaskExamples] a run.

    Objectives: [DevCapability] capability.go, catalog.go, environment_record.go;
    [DevResolver] resolver.go; [DevAttempt] attempt.go; [DevProvision] provision.go;
    [DevObjective] the types, acceptance.go, anchor.go and the snapshot check of
    record.go; [DevOps] the operations of objective.go and provision_objective.go
    and the check of transition.go; [DevInv] the snapshot check as a declarative
    predicate; [DevPreserve], [DevSteps], [DevPlan], [DevFinish] every operation
    keeps it; [DevHistory] what accepted revisions preserve, receipts and
    command digests; [DevRecord] the stored form of record.go; [DevRoundtrip] that
    it is read back; [DevBootstrap] bootstrap_record.go and go_command.go;
    [Development] the theorems; [DevelopmentExamples] a run.

    Development tables of the queue database: [DevRequest] the record of
    development_request.go; [DevTables] the tables and operations of
    development_request.go and development_objective.go; [DevStore] what each
    operation does to the tables; [DevQueue] histories and the invariant; [DevLedger]
    the theorems; [DevLedgerExamples] a run.

    OAuth: [OAuthTypes] the types, limits and file formats of store.go and
    access_store.go; [OAuthStore] the methods of the token store (store.go,
    access_store.go, console_store.go, access_lock_linux.go); [OAuthProvider] the
    provider, its endpoints and the console's client (provider.go, authorize.go,
    token.go, register.go, resource.go, endpoints.go, console_client.go) as programs
    over those methods; [OAuthFacts] how the methods run and what the files give back;
    [OAuthInv] every method keeps the invariant; [OAuthSystem]
    processes that share files, and their interleavings; [OAuthSafety] who gets in;
    [OAuthSingle] codes and refresh tokens are used once;
    [OAuthThrottle] guessing is bounded; [OAuthTokens] exchanges, rotations,
    restarts and the login that works; [OAuthExamples] a deployment.

    ** How the code is modelled

    A Go function that returns an error is a function to [result]; a struct is a
    record with the source's field names behind a prefix; a method that returns a
    changed copy is a functional update. Queue operations run in the monad of
    [Effects]: every call of the database driver consumes a fault of a list that the
    theorems quantify over, a transaction commits or leaves the database alone, and
    the clock and the random identifiers are arguments. Policy checks take the file
    system at the time of each call, so a theorem may let it change between two
    calls. A request to the authorization server is a program whose steps are the methods of the
    token store, each atomic because it holds the store's mutex; a deployment
    interleaves the steps of any requests of any processes, with every fault of the
    file system, restarts and readings of the clock. Integers keep their width: counters wrap at 64 bits, durations and
    times are signed nanoseconds. Digests are computed, never assumed to be
    injective: where a theorem needs that, it ends in equality or an explicit pair
    of texts with the same SHA-256 sum.

    Bounds and fuel: symbolic links are followed at most 255 times, as in
    path/filepath; the loop that looks for an existing parent gets one unit of fuel
    per byte of the path; dependency propagation gets two rounds more than there are
    jobs, which [Workqueue.propagate_terminates] shows is enough; the scheduler makes
    the passes that its source loop makes; the JSON reader gets two units of fuel per
    byte, which [GoJson.parse_write] shows is enough for every text the writer
    produces.

    ** What the theorems show

    Policy: a path the jail returns is inside a root, and the jail refuses exactly
    the paths that are not; secret names cannot be hidden by separators or case;
    accepted commands are bare allowlisted programs without shell syntax or the
    destructive arguments the gate looks for (of git it looks at the first argument
    only); grants are approved, unexpired, for one path, and used once as long as
    identifiers do not repeat; the mode decides every side effect.

    Queue: every reachable store is consistent under every pattern of driver
    faults; jobs follow the legal transitions; leases are exclusive and fenced (only
    a queued job or one whose lease has expired is handed out, and live leases are left
    alone) and stale holders are refused; failing operations change nothing, with four named
    exceptions; without faults no job is stuck and a waiting job is leased;
    scheduling is first-in first-out per workspace and fair between workspaces;
    admission is exact; the integrity check passes exactly when the stored dependencies
    are within its bound.

    Tasks: every stored task reads back as a valid task in every reachable store, under
    every pattern of driver faults and however queue and task operations interleave; a
    task keeps its identity, contracts, workers and jobs, its bindings and receipts are
    written once, and a finished task stays finished; no two workers share
    a job; the source workers that a pending integration pinned stay succeeded and
    uncleaned, with the pinned job, worktree, workspace, runtime, lease and fence; a worktree is marked cleaned
    only with the evidence the contracts ask for; creation stores the whole task within
    the job bounds or nothing, and repeating it returns the stored task; recorded
    receipts are read back; failing operations change nothing, with named exceptions.

    Objectives: resolution takes the least sufficient authority and finds an
    environment whenever one will do; attestations survive transport and catalogs do
    not depend on order; operations keep objectives valid, as long as planned attempts
    get unused identifiers, and produce exactly the revisions that the transition check accepts; accepted revisions never rewrite
    history; accepted objectives carry evidence for every step; an open objective
    can always be cancelled. The stored form of a valid objective is read back exactly,
    and whatever text is accepted as a record is a valid objective.

    Tables: every reachable state of the tables reads back, keeps its bounds and
    unique keys and passes its integrity scans; requests move only to their next
    revision and disappear only when finished and old; the stored versions of an
    objective are accepted revisions of one another until a sweep that was allowed to
    remove it; a reported save is durable and repeatable.

    OAuth, over every interleaving, restart and fault: a request is accepted as a
    client only after the owner's passphrase was given for that client, with a token
    the server drew; codes and refresh tokens are redeemed at most as often as they
    were issued, also when processes share the refresh file; codes go only to https
    addresses, or to http ones on this machine; the limits of the store hold. The token endpoint checks
    client, address, resource and PKCE verifier; a rotation happens whole or not at
    all; a restart brings back exactly the unexpired refresh grants; wrong guesses are
    throttled when logins do not overlap; and, in a process
    without store files, the flow of a right login succeeds.

    ** Assumptions and what is not modelled

    [strings.ToLower] is exact on ASCII and on the letters that fold to ASCII; other
    letters are left alone, which shows only where [programAllowed] compares a program
    with an entry of the allowlist and both have such letters. For tasks the clock does not run backwards and stays within
    64-bit nanoseconds, and random identifiers have their 16 bytes. The fault model lets a driver call fail or succeed, not
    return wrong rows. Not modelled: opening, migrating and backing up the database
    and its writer lock (files and PRAGMAs); the HTML of the login page, HTTP headers and
    transport around the authorization server, and its file lock on systems other than
    Linux (there it is no lock); its files are keyed by cleaned path, so that two names of one
    file are only excluded by [validateDistinctStorePaths], and their times are in UTC; the estimate and runner-effect tables and the
    metrics of the queue; [SortTaskWorkers], which nothing calls; two read-only queries of the development tables that filter
    on a JSON path ([ProjectDevelopmentRequests], [DevelopmentProvisionOwner]); and
    the packages outside the four above: Edge client and server, MCP
    protocol and tools, console and sites, model turns, journals and result
    stores, sandbox execution, updates and command-line programs, which wrap
    operating-system, network or HTTP effects or keep stores of their own. *)

From stdpp Require Export base gmap strings list sorting fin_maps sets.
From Stdlib Require Export ZArith Lia Ascii.

#[export] Set Default Goal Selector "!".
#[export] Set Warnings "-clear-no-such-hyp,-level-tolerance".

(** Go strings are byte sequences; the literals below are ASCII. *)
Declare Scope go_scope.
Delimit Scope go_scope with go.
Open Scope Z_scope.
Open Scope go_scope.

(** ** Errors

    A Go call [(T, error)] is a value of [result T].  The error values of the
    repository are [errors.New] constants, identified by their message. *)
Definition error := string.

Inductive result (A : Type) : Type :=
| Ok (a : A)
| Err (e : error).
Arguments Ok {A} a.
Arguments Err {A} e.

Definition rbind {A B} (m : result A) (f : A -> result B) : result B :=
  match m with Ok a => f a | Err e => Err e end.

Definition is_ok {A} (m : result A) : bool :=
  match m with Ok _ => true | Err _ => false end.

(** [if cond { return err }] *)
Definition reject_if (cond : bool) (e : error) : result unit :=
  if cond then Err e else Ok tt.

Lemma reject_if_ok b e : reject_if b e = Ok tt <-> b = false.
Proof. by destruct b. Qed.

Notation "'let?' x ':=' m 'in' k" := (rbind m (fun x => k))
  (at level 10, x pattern, m at level 100, k at level 200) : go_scope.
Notation "'check' m 'in' k" := (rbind m (fun _ => k))
  (at level 10, m at level 100, k at level 200) : go_scope.

Lemma check_ok (m : result unit) {A} (k : result A) a : rbind m (fun _ => k) = Ok a <-> m = Ok tt /\ k = Ok a.
Proof. destruct m as [[]|]; simpl; naive_solver. Qed.

Lemma is_ok_true (m : result unit) : is_ok m = true <-> m = Ok tt.
Proof. destruct m as [[]|]; simpl; naive_solver. Qed.

#[export] Instance result_eq_dec {A} `{EqDecision A} : EqDecision (result A).
Proof. solve_decision. Defined.

(** ** Booleans and decisions *)
Notation "x =? y" := (bool_decide (x = y)) (at level 70) : go_scope.
Notation "x <>? y" := (negb (bool_decide (x = y))) (at level 70) : go_scope.

(** ** Machine integers *)
Definition two63 : Z := 9223372036854775808.
Definition two64 : Z := 18446744073709551616.

(** Two's-complement wrap-around of a 64-bit signed result. *)
Definition wrap64 (z : Z) : Z := (z + two63) mod two64 - two63.
(** Wrap-around of a 64-bit unsigned result. *)
Definition wrapU64 (z : Z) : Z := z mod two64.

Definition in_int64 (z : Z) : Prop := -two63 <= z < two63.
Definition in_uint64 (z : Z) : Prop := 0 <= z < two64.

Lemma wrap64_id z : in_int64 z -> wrap64 z = z.
Proof. unfold in_int64, wrap64, two63, two64. intros H. rewrite Z.mod_small; lia. Qed.

Lemma wrapU64_id z : in_uint64 z -> wrapU64 z = z.
Proof. unfold in_uint64, wrapU64. intros H. apply Z.mod_small; lia. Qed.

(** ** Time

    [time.Time] is the number of nanoseconds since the Unix epoch; Go's zero
    [Time] is 1 January of year 1.  A [time.Duration] is a signed 64-bit count
    of nanoseconds, and [Sub] saturates. *)
Definition time := Z.
Definition duration := Z.

Definition Nanosecond : duration := 1.
Definition Microsecond : duration := 1000.
Definition Millisecond : duration := 1000000.
Definition Second : duration := 1000000000.
Definition Minute : duration := 60 * Second.
Definition Hour : duration := 60 * Minute.

Definition zero_time : time := -62135596800 * Second.
Definition IsZero (t : time) : bool := t =? zero_time.
Definition After (t u : time) : bool := u <? t.
Definition Before (t u : time) : bool := t <? u.
Definition TimeSub (t u : time) : duration :=
  Z.max (- two63) (Z.min (two63 - 1) (t - u)).
Definition TimeAdd (t : time) (d : duration) : time := t + d.

(** ** Generic list lemmas *)
Lemma fold_left_inv {A B} (P : A -> Prop) (f : A -> B -> A) l a :
  P a -> (forall a b, P a -> b ∈ l -> P (f a b)) -> P (fold_left f l a).
Proof.
  revert a. induction l as [|b l IH]; simpl; intros a Ha Hf; [done|].
  apply IH; [apply Hf; [done|left]|].
  intros; apply Hf; [done|by right].
Qed.

Lemma Forall_permutation {A} (P : A -> Prop) l l' :
  l ≡ₚ l' -> Forall P l -> Forall P l'.
Proof. intros H. by rewrite H. Qed.

Lemma StronglySorted_lookup {A} (R : relation A) l i j x y :
  StronglySorted R l -> l !! i = Some x -> l !! j = Some y -> (i < j)%nat -> R x y.
Proof.
  intros Hs. revert i j. induction Hs as [|z l Hs IH Hall]; intros i j Hi Hj Hij; [done|].
  destruct i as [|i], j as [|j]; try lia; simpl in *.
  - simplify_eq. rewrite Forall_forall in Hall. apply Hall. by eapply list_elem_of_lookup_2.
  - apply (IH i j); [done|done|lia].
Qed.

Lemma StronglySorted_head {A} (R : relation A) x l y :
  Reflexive R -> StronglySorted R (x :: l) -> y ∈ x :: l -> R x y.
Proof.
  intros Hr Hs Hy. apply StronglySorted_inv in Hs as [_ Hall].
  apply elem_of_cons in Hy as [->|Hy]; [done|]. rewrite Forall_forall in Hall. auto.
Qed.

Lemma NoDup_sublist_of {A} (l k : list A) : l `sublist_of` k -> NoDup k -> NoDup l.
Proof.
  induction 1 as [|x l k Hs IH|x l k Hs IH]; intros Hk; [done|..]; apply NoDup_cons in Hk as [Hx Hk]; [|auto].
  apply NoDup_cons. split; [|auto]. intros Hin. apply Hx.
  clear -Hs Hin. induction Hs; set_solver.
Qed.

Lemma sublist_of_fmap {A B} (f : A -> B) (l k : list A) : l `sublist_of` k -> (f <$> l) `sublist_of` (f <$> k).
Proof. induction 1; cbn; by constructor. Qed.

(** ** Tactics *)

(** Invert the control flow of an error-returning function: every [let?],
    [check] and [if] in the hypothesis is split and dead branches closed. *)
Ltac res_inv H :=
  match type of H with
  | Ok _ = Ok _ => try (injection H as H); subst
  | Err _ = Err _ => try (injection H as H); subst
  | Ok _ = Err _ => discriminate H
  | Err _ = Ok _ => discriminate H
  | rbind (reject_if ?b ?e) _ = _ =>
      let E := fresh "Hg" in destruct b eqn:E; cbn [rbind reject_if] in H; res_inv H
  | rbind ?m _ = _ =>
      let E := fresh "Hr" in destruct m eqn:E; cbn [rbind] in H; res_inv H
  | reject_if ?b ?e = _ =>
      let E := fresh "Hg" in destruct b eqn:E; cbn [reject_if] in H; res_inv H
  | (if ?b then _ else _) = _ =>
      let E := fresh "Hb" in destruct b eqn:E; res_inv H
  | (match ?o with Some _ => _ | None => _ end) = _ =>
      let E := fresh "Ho" in destruct o eqn:E; res_inv H
  | (match ?p with pair _ _ => _ end) = _ =>
      let E := fresh "Hp" in destruct p eqn:E; res_inv H
  | _ => idtac
  end.

(** Turn boolean guards into propositions. *)
Ltac breflect_step :=
  match goal with
  | H : _ || _ = false |- _ => apply orb_false_iff in H as [? ?]
  | H : _ && _ = true |- _ => apply andb_true_iff in H as [? ?]
  | H : negb _ = false |- _ => apply negb_false_iff in H
  | H : negb _ = true |- _ => apply negb_true_iff in H
  | H : bool_decide _ = true |- _ => apply bool_decide_eq_true in H
  | H : bool_decide _ = false |- _ => apply bool_decide_eq_false in H
  | H : (_ <? _) = true |- _ => apply Z.ltb_lt in H
  | H : (_ <? _) = false |- _ => apply Z.ltb_ge in H
  | H : (_ <=? _) = true |- _ => apply Z.leb_le in H
  | H : (_ <=? _) = false |- _ => apply Z.leb_gt in H
  end.
Ltac breflect := repeat breflect_step.

Create HintDb aeontra.
#[export] Hint Resolve wrap64_id wrapU64_id : aeontra.
