(* ===== verification/GoStrings.v ===== *)
(** * The parts of Go's [strings], [sort] and [encoding/hex] packages the
    repository uses, on byte strings.

    A Go [string] is a sequence of bytes, here [String.string]; [len] is the
    byte length.  [ToLower] is exact on every rune whose lower-case image is
    ASCII (ASCII letters, U+0130 and U+212A); other runes, and bytes that are no
    rune, are returned as they are.  The callers compare the result with ASCII
    constants, where the difference cannot be seen, with one exception:
    [programAllowed] compares two lowered names, so that a program and an entry of
    the allowlist outside ASCII that differ only in case are unequal here. *)

From S2P Require Import Prelude.

(** ** Bytewise lexicographic order ([<] on Go strings) *)
Definition str_lt (a b : string) : bool := String.ltb a b.
Definition str_le (a b : string) : Prop := String.leb a b = true.

#[export] Instance str_le_dec a b : Decision (str_le a b).
Proof. unfold str_le. apply _. Defined.

Lemma ascii_compare_N a b : Ascii.compare a b = N.compare (N_of_ascii a) (N_of_ascii b).
Proof. reflexivity. Qed.

Lemma string_compare_refl s : String.compare s s = Eq.
Proof.
  induction s as [|c s IH]; simpl; [done|].
  rewrite ascii_compare_N, N.compare_refl. done.
Qed.

Lemma str_le_cons a s b t :
  str_le (String a s) (String b t) <->
  (N_of_ascii a < N_of_ascii b)%N \/ (a = b /\ str_le s t).
Proof.
  unfold str_le, String.leb. simpl. rewrite ascii_compare_N.
  destruct (N.compare_spec (N_of_ascii a) (N_of_ascii b)) as [E|E|E].
  - apply (f_equal ascii_of_N) in E. rewrite !ascii_N_embedding in E. subst.
    split; [by right|]. intros [?|[_ ?]]; [lia|done].
  - split; [by left|done].
  - split; [done|]. intros [?|[-> _]]; lia.
Qed.

#[export] Instance str_le_total : Total str_le.
Proof. intros a b. apply String.leb_total. Qed.

#[export] Instance str_le_antisym : AntiSymm (=) str_le.
Proof. intros a b. apply String.leb_antisym. Qed.

#[export] Instance str_le_preorder : PreOrder str_le.
Proof.
  split.
  - intros a. unfold str_le, String.leb. by rewrite string_compare_refl.
  - intros a. induction a as [|x a IH]; intros [|y b] [|z c]; try done.
    rewrite !str_le_cons. intros [?|[-> ?]] [?|[-> ?]]; [left; lia|by left|by left|].
    right. split; [done|]. by eapply IH.
Qed.

Lemma str_lt_spec a b : str_lt a b = true <-> str_le a b /\ a <> b.
Proof.
  unfold str_lt, str_le, String.ltb, String.leb.
  destruct (String.compare a b) eqn:E; split; try done.
  - apply String.compare_eq_iff in E. intros [_ ?]. done.
  - intros _. split; [done|]. intros ->. rewrite string_compare_refl in E. done.
  - by intros [? _].
Qed.

Lemma str_lt_irrefl a : str_lt a a = false.
Proof. unfold str_lt, String.ltb. by rewrite string_compare_refl. Qed.

Lemma str_lt_ge a b : str_lt a b = false <-> str_le b a.
Proof.
  unfold str_lt, str_le, String.ltb, String.leb.
  rewrite (String.compare_antisym b a). by destruct (String.compare a b).
Qed.

(** ** [sort.Strings] *)
Definition sort_strings (l : list string) : list string := merge_sort str_le l.

Lemma sort_strings_perm l : sort_strings l ≡ₚ l.
Proof. apply merge_sort_Permutation. Qed.

Lemma sort_strings_sorted l : StronglySorted str_le (sort_strings l).
Proof. apply StronglySorted_merge_sort; apply _. Qed.

(** Two sorted permutations of the same strings are the same list: the result
    of [sort.Strings] does not depend on the algorithm. *)
Lemma sorted_perm_unique (l1 l2 : list string) :
  StronglySorted str_le l1 -> StronglySorted str_le l2 -> l1 ≡ₚ l2 -> l1 = l2.
Proof. intros. by apply (StronglySorted_unique str_le). Qed.

Lemma sort_strings_unique (l1 l2 : list string) :
  l1 ≡ₚ l2 -> sort_strings l1 = sort_strings l2.
Proof.
  intros H. apply sorted_perm_unique; [apply sort_strings_sorted..|].
  by rewrite !sort_strings_perm.
Qed.

(** ** Bytes and characters *)
Definition byte_val (c : ascii) : Z := Z.of_N (N_of_ascii c).
Definition chr (z : Z) : ascii := ascii_of_N (Z.to_N z).
Definition Len (s : string) : Z := Z.of_nat (String.length s).

Lemma length_string_app s t :
  (String.length (s +:+ t) = String.length s + String.length t)%nat.
Proof. induction s as [|c s IH]; simpl; [done|]. by rewrite IH. Qed.

Lemma string_app_cons c s t : String c s +:+ t = String c (s +:+ t).
Proof. reflexivity. Qed.

Lemma string_app_assoc s t u : s +:+ (t +:+ u) = (s +:+ t) +:+ u.
Proof. induction s as [|c s IH]; [done|]. by rewrite !string_app_cons, IH. Qed.

Lemma string_app_nil_r s : s +:+ "" = s.
Proof. induction s as [|c s IH]; [done|]. by rewrite !string_app_cons, IH. Qed.

(** ** [strings] functions *)
Fixpoint HasPrefix (s prefix : string) : bool :=
  match prefix, s with
  | EmptyString, _ => true
  | String p ps, String c cs => if ascii_dec p c then HasPrefix cs ps else false
  | String _ _, EmptyString => false
  end.

Fixpoint str_rev_onto (s acc : string) : string :=
  match s with
  | EmptyString => acc
  | String c cs => str_rev_onto cs (String c acc)
  end.
Definition str_rev (s : string) : string := str_rev_onto s "".

Definition HasSuffix (s suffix : string) : bool := HasPrefix (str_rev s) (str_rev suffix).

Fixpoint drop_bytes (n : nat) (s : string) : string :=
  match n, s with
  | O, _ => s
  | S n', String _ cs => drop_bytes n' cs
  | S _, EmptyString => ""
  end.

Fixpoint take_bytes (n : nat) (s : string) : string :=
  match n, s with
  | S n', String c cs => String c (take_bytes n' cs)
  | _, _ => ""
  end.

Definition TrimSuffix (s suffix : string) : string :=
  if HasSuffix s suffix then take_bytes (String.length s - String.length suffix) s else s.

Definition TrimPrefix (s prefix : string) : string :=
  if HasPrefix s prefix then drop_bytes (String.length prefix) s else s.

(** [strings.Contains] *)
Fixpoint Contains (s sub : string) : bool :=
  HasPrefix s sub ||
  match s with
  | EmptyString => false
  | String _ cs => Contains cs sub
  end.

(** [strings.ContainsAny] and [strings.ContainsRune] for ASCII characters. *)
Fixpoint ContainsByte (s : string) (c : ascii) : bool :=
  match s with
  | EmptyString => false
  | String d ds => (if ascii_dec c d then true else false) || ContainsByte ds c
  end.

Fixpoint ContainsAny (s chars : string) : bool :=
  match s with
  | EmptyString => false
  | String d ds => ContainsByte chars d || ContainsAny ds chars
  end.

(** [strings.Split] with a one-byte separator. *)
Fixpoint Split (s : string) (sep : ascii) : list string :=
  match s with
  | EmptyString => [""]
  | String c cs =>
      if ascii_dec c sep then "" :: Split cs sep
      else match Split cs sep with
           | [] => [String c ""]
           | w :: ws => String c w :: ws
           end
  end.

(** [strings.Join] *)
Fixpoint Join (l : list string) (sep : string) : string :=
  match l with
  | [] => ""
  | [w] => w
  | w :: ws => w +:+ sep +:+ Join ws sep
  end.

(** [strings.ReplaceAll] of one byte by another. *)
Fixpoint ReplaceByte (s : string) (old new : ascii) : string :=
  match s with
  | EmptyString => ""
  | String c cs => String (if ascii_dec c old then new else c) (ReplaceByte cs old new)
  end.

Definition lower_byte (c : ascii) : ascii :=
  let v := byte_val c in
  if (65 <=? v) && (v <=? 90) then chr (v + 32) else c.

(** [strings.ToLower]: ASCII letters bytewise; the two non-ASCII runes whose
    lower case is ASCII are U+212A (bytes E2 84 AA, lower case [k]) and U+0130
    (bytes C4 B0, lower case [i]). *)
Fixpoint ToLower (s : string) : string :=
  match s with
  | EmptyString => ""
  | String a s1 =>
      match s1 with
      | String b s2 =>
          if (byte_val a =? 196) && (byte_val b =? 176) then String (chr 105) (ToLower s2)
          else match s2 with
               | String c s3 =>
                   if (byte_val a =? 226) && (byte_val b =? 132) && (byte_val c =? 170)
                   then String (chr 107) (ToLower s3)
                   else String (lower_byte a) (ToLower s1)
               | EmptyString => String (lower_byte a) (ToLower s1)
               end
      | EmptyString => String (lower_byte a) (ToLower s1)
      end
  end.

(** Length in bytes of the white-space rune at the head of [s] (0 if none):
    the runes of [unicode.IsSpace] in their UTF-8 encodings. *)
Definition space_width (s : string) : nat :=
  match s with
  | EmptyString => 0%nat
  | String a s1 =>
      let x := byte_val a in
      if ((9 <=? x) && (x <=? 13)) || (x =? 32) then 1%nat
      else match s1 with
           | EmptyString => 0%nat
           | String b s2 =>
               let y := byte_val b in
               if (x =? 194) && ((y =? 133) || (y =? 160)) then 2%nat
               else match s2 with
                    | EmptyString => 0%nat
                    | String c _ =>
                        let z := byte_val c in
                        if ((x =? 225) && (y =? 154) && (z =? 128))
                           || ((x =? 226) && (y =? 128)
                               && (((128 <=? z) && (z <=? 138)) || (z =? 168) || (z =? 169) || (z =? 175)))
                           || ((x =? 226) && (y =? 129) && (z =? 159))
                           || ((x =? 227) && (y =? 128) && (z =? 128))
                        then 3%nat else 0%nat
                    end
           end
  end.

Fixpoint trim_left (fuel : nat) (s : string) : string :=
  match fuel with
  | O => s
  | S f => match space_width s with
           | O => s
           | n => trim_left f (drop_bytes n s)
           end
  end.

(** Every suffix start of [s] that begins with white space up to the end. *)
Fixpoint trim_right (s : string) : string :=
  match s with
  | EmptyString => ""
  | String c cs =>
      if bool_decide (trim_left (String.length s) s = "") then "" else String c (trim_right cs)
  end.

(** [strings.TrimSpace] *)
Definition TrimSpace (s : string) : string := trim_right (trim_left (String.length s) s).

(** ** [hex.EncodeToString] *)
Definition hex_digit (n : Z) : ascii := if n <? 10 then chr (48 + n) else chr (87 + n).
Fixpoint EncodeToString (s : string) : string :=
  match s with
  | EmptyString => ""
  | String c cs =>
      String (hex_digit (byte_val c / 16)) (String (hex_digit (byte_val c mod 16)) (EncodeToString cs))
  end.

Lemma EncodeToString_length s :
  String.length (EncodeToString s) = (2 * String.length s)%nat.
Proof. induction s as [|c s IH]; simpl; [done|]. rewrite IH. lia. Qed.

Example TrimSpace_ex : TrimSpace "  a b  " = "a b".
Proof. reflexivity. Qed.
Example Split_ex : Split "a/b//c" "/" = ["a"; "b"; ""; "c"].
Proof. reflexivity. Qed.
Example ToLower_ex : ToLower "AbC-9" = "abc-9".
Proof. reflexivity. Qed.
Example HasSuffix_ex : HasSuffix "git.exe" ".exe" = true.
Proof. reflexivity. Qed.

(** ** [sort.Search]: binary search for the least index in [0, n) at which [f]
    holds (n if none), for a predicate that stays true once true. *)
Fixpoint search_loop (fuel : nat) (f : nat -> bool) (i j : nat) : nat :=
  match fuel with
  | O => i
  | S fuel' =>
      if Nat.ltb i j then
        let h := ((i + j) / 2)%nat in
        if f h then search_loop fuel' f i h else search_loop fuel' f (S h) j
      else i
  end.
Definition sort_Search (n : nat) (f : nat -> bool) : nat := search_loop n f 0 n.

Lemma search_loop_spec fuel f i j :
  (j - i <= fuel)%nat -> (i <= j)%nat ->
  (forall a b, (a <= b)%nat -> f a = true -> f b = true) ->
  let r := search_loop fuel f i j in
  (i <= r <= j)%nat /\ (forall a, (i <= a < r)%nat -> f a = false) /\
  (forall a, (r <= a < j)%nat -> f a = true).
Proof.
  revert i j. induction fuel as [|fuel IH]; intros i j Hf Hij Hmono; cbn [search_loop].
  { assert (i = j) as -> by lia. repeat split; intros; lia. }
  destruct (Nat.ltb_spec i j) as [Hlt|]; [|repeat split; intros; lia].
  assert (Hh : (i <= (i + j) / 2 < j)%nat).
  { split; [apply Nat.div_le_lower_bound; lia|apply Nat.Div0.div_lt_upper_bound; lia]. }
  set (h := ((i + j) / 2)%nat) in *. destruct (f h) eqn:Eh.
  - destruct (IH i h ltac:(lia) ltac:(lia) Hmono) as (H1 & H2 & H3).
    split; [lia|]. split; [done|]. intros a Ha. destruct (decide (a < h)%nat); [apply H3; lia|].
    by apply (Hmono h); [lia|].
  - destruct (IH (S h) j ltac:(lia) ltac:(lia) Hmono) as (H1 & H2 & H3).
    split; [lia|]. split; [|done]. intros a Ha. destruct (decide (a <= h)%nat) as [Hle|].
    + destruct (f a) eqn:Ea; [|done]. by rewrite (Hmono a h Hle Ea) in Eh.
    + apply H2; lia.
Qed.

(** [sort.SearchStrings] *)
Definition SearchStrings (l : list string) (x : string) : nat :=
  sort_Search (length l) (fun i => match l !! i with Some w => bool_decide (str_le x w) | None => true end).

(** On a sorted list the search finds the element exactly when it is there. *)
Lemma SearchStrings_found l x i :
  StronglySorted str_le l -> NoDup l ->
  (l !! i = Some x <-> (SearchStrings l x = i /\ l !! i = Some x)).
Proof.
  intros Hs Hnd. split; [|by intros [_ ?]]. intros Hi. split; [|done].
  unfold SearchStrings, sort_Search.
  set (f := fun i => match l !! i with Some w => bool_decide (str_le x w) | None => true end).
  assert (Hmono : forall a b, (a <= b)%nat -> f a = true -> f b = true).
  { intros a b Hab. unfold f. destruct (l !! b) as [wb|] eqn:Eb; [|done].
    destruct (l !! a) as [wa|] eqn:Ea.
    - rewrite !bool_decide_eq_true. intros Hx. destruct (decide (a = b)) as [->|Hne]; [congruence|].
      trans wa; [done|]. eapply (StronglySorted_lookup str_le l a b); [done|done|done|lia].
    - apply lookup_ge_None in Ea. apply lookup_lt_Some in Eb. lia. }
  pose proof (lookup_lt_Some _ _ _ Hi) as Hlt.
  destruct (search_loop_spec (length l) f 0 (length l) ltac:(lia) ltac:(lia) Hmono) as (H1 & H2 & H3).
  set (r := search_loop (length l) f 0 (length l)) in *.
  assert (Hfi : f i = true) by (unfold f; rewrite Hi; by apply bool_decide_eq_true).
  assert (r <= i)%nat. { destruct (decide (r <= i)%nat); [done|]. rewrite H2 in Hfi by lia. done. }
  destruct (decide (r = i)) as [|Hne]; [done|]. exfalso.
  destruct (lookup_lt_is_Some_2 l r ltac:(lia)) as [w Hw].
  assert (Hfr : f r = true) by (apply H3; lia). unfold f in Hfr. rewrite Hw in Hfr.
  apply bool_decide_eq_true in Hfr.
  assert (str_le w x) by (eapply (StronglySorted_lookup str_le l r i); [done|done|done|lia]).
  assert (w = x) as -> by (by apply (anti_symm str_le)).
  apply Hne. eapply NoDup_lookup; done.
Qed.
