(* ===== verification/GoPath.v ===== *)
(** * [path/filepath] on Unix and a file system with symbolic links

    The lexical functions work on strings as Go does, through the list of path
    elements.  [EvalSymlinks] walks a file system given as a map from absolute
    element lists to nodes. *)

From S2P Require Import Prelude GoStrings.

Definition slash : ascii := "/".
Definition slash_s : string := String slash "".

(** The elements of a path that are neither empty nor ["."]. *)
Definition elements_of (s : string) : list string :=
  filter (fun x => x <> "" /\ x <> ".") (Split s slash).

(** The stack machine of [Clean]: [acc] is the output, innermost element first. *)
Fixpoint clean_stack (rooted : bool) (acc : list string) (elems : list string) : list string :=
  match elems with
  | [] => rev acc
  | x :: xs =>
      if x =? ".." then
        match acc with
        | y :: ys => if y =? ".." then clean_stack rooted (".." :: acc) xs else clean_stack rooted ys xs
        | [] => if rooted then clean_stack rooted [] xs else clean_stack rooted [".."] xs
        end
      else clean_stack rooted (x :: acc) xs
  end.

Definition IsAbs (s : string) : bool := HasPrefix s slash_s.

Definition Clean (s : string) : string :=
  if s =? "" then "."
  else
    let out := clean_stack (IsAbs s) [] (elements_of s) in
    if IsAbs s then slash_s +:+ Join out slash_s
    else match out with [] => "." | _ => Join out slash_s end.

(** [filepath.Join] of two elements. *)
Definition PathJoin (a b : string) : string :=
  if a =? "" then (if b =? "" then "" else Clean b) else Clean (a +:+ slash_s +:+ b).

(** The text up to and including the last separator, and the text after it. *)
Fixpoint split_last (s : string) : string * string :=
  match s with
  | EmptyString => ("", "")
  | String c cs =>
      let '(d, f) := split_last cs in
      if d =? "" then (if ascii_dec c slash then (String c "", f) else ("", String c f))
      else (String c d, f)
  end.

Definition PathDir (s : string) : string := Clean (fst (split_last s)).

Fixpoint strip_slashes (r : string) : string :=
  match r with
  | String c cs => if ascii_dec c slash then strip_slashes cs else r
  | EmptyString => ""
  end.

Definition PathBase (s : string) : string :=
  if s =? "" then "."
  else
    let s := str_rev (strip_slashes (str_rev s)) in
    let b := snd (split_last s) in
    if b =? "" then slash_s else b.

(** [filepath.Ext] of a path without separators: from the last dot. *)
Fixpoint Ext (s : string) : string :=
  match s with
  | EmptyString => ""
  | String c cs =>
      let e := Ext cs in
      if e =? "" then (if ascii_dec c "."%char then String c cs else "") else e
  end.

(** [filepath.Rel] of absolute paths: the common leading elements are dropped,
    and every remaining element of the base is a [".."]. *)
Fixpoint drop_common (base targ : list string) : list string * list string :=
  match base, targ with
  | b :: bs, t :: ts => if b =? t then drop_common bs ts else (base, targ)
  | _, _ => (base, targ)
  end.

Definition Rel (basepath targpath : string) : result string :=
  let base := Clean basepath in
  let targ := Clean targpath in
  if targ =? base then Ok "."
  else
    let base := if base =? "." then "" else base in
    if IsAbs base <>? IsAbs targ then Err "Rel: can't make targpath relative to basepath"
    else
      let '(b, t) := drop_common (elements_of base) (elements_of targ) in
      if bool_decide (head b = Some "..") then Err "Rel: can't make targpath relative to basepath"
      else Ok (Join (((fun _ => "..") <$> b) ++ t) slash_s).

(** ** The file system *)
Inductive node := NDir | NFile | NLink (target : string).
#[export] Instance node_eq_dec : EqDecision node.
Proof. solve_decision. Defined.

(** Absolute element lists to nodes; the root directory is implicit. *)
Definition FS := gmap (list string) node.

(** [EvalSymlinks]: [dest] is what is resolved so far, [todo] the elements still
    to walk, and at most [links] links are followed. *)
Fixpoint walk (fs : FS) (links : nat) : list string -> list string -> result (list string) :=
  fix go (dest todo : list string) {struct todo} : result (list string) :=
    match todo with
    | [] => Ok dest
    | x :: rest =>
        if (x =? "") || (x =? ".") then go dest rest
        else if x =? ".." then go (removelast dest) rest
        else
          let dest' := dest ++ [x] in
          match fs !! dest' with
          | None => Err "lstat: no such file or directory"
          | Some NDir => go dest' rest
          | Some NFile => match rest with [] => Ok dest' | _ => Err "not a directory" end
          | Some (NLink target) =>
              match links with
              | O => Err "EvalSymlinks: too many links"
              | S links' =>
                  walk fs links' (if IsAbs target then [] else dest) (Split target slash ++ rest)
              end
          end
    end.

Definition path_of (l : list string) : string := slash_s +:+ Join l slash_s.

(** On an absolute path. *)
Definition EvalSymlinks (fs : FS) (path : string) : result string :=
  let? dest := walk fs 255 [] (Split path slash) in Ok (path_of dest).

Example clean1 : Clean "/a/./b//../c/" = "/a/c". Proof. reflexivity. Qed.
Example clean2 : Clean "../a/../../b" = "../../b". Proof. reflexivity. Qed.
Example clean3 : Clean "/.." = "/". Proof. reflexivity. Qed.
Example dir1 : (PathDir "/a/b", PathBase "/a/b", PathDir "/a", PathBase "/") = ("/a", "b", "/", "/").
Proof. reflexivity. Qed.
Example rel1 : Rel "/repo" "/repo-evil/f" = Ok "../repo-evil/f". Proof. reflexivity. Qed.
Example rel2 : Rel "/" "/etc" = Ok "etc". Proof. reflexivity. Qed.
Example ext1 : (Ext "a.tar.gz", Ext "noext", Ext ".env") = (".gz", "", ".env"). Proof. reflexivity. Qed.

(** ** Elements *)
Definition no_slash (x : string) : Prop := ContainsByte x slash = false.
(** A proper element of a cleaned absolute path. *)
Definition element (x : string) : Prop := no_slash x /\ x <> "" /\ x <> "." /\ x <> "..".
#[export] Instance element_dec x : Decision (element x).
Proof. unfold element, no_slash. apply _. Defined.

Lemma Split_no_slash x : no_slash x -> Split x slash = [x].
Proof.
  induction x as [|c x IH]; [done|]. unfold no_slash. cbn [ContainsByte Split].
  destruct (ascii_dec slash c) as [->|Hne]; [done|]. intros Hx.
  destruct (ascii_dec c slash) as [->|_]; [done|]. by rewrite IH.
Qed.

Lemma Split_app x s : no_slash x -> Split (x +:+ String slash s) slash = x :: Split s slash.
Proof.
  induction x as [|c x IH]; intros Hx; [done|]. unfold no_slash in Hx. cbn [ContainsByte] in Hx.
  rewrite string_app_cons. cbn [Split].
  destruct (ascii_dec slash c) as [->|Hne]; [done|]. destruct (ascii_dec c slash) as [->|_]; [done|].
  by rewrite IH.
Qed.

Lemma Split_elems s : Forall no_slash (Split s slash).
Proof.
  induction s as [|c s IH]; cbn [Split]; [by repeat constructor|].
  destruct (ascii_dec c slash) as [|Hne]; [by constructor|].
  destruct (Split s slash) as [|w ws]; [|apply Forall_cons in IH as [Hw Hws]]; constructor; try done;
    unfold no_slash in *; cbn [ContainsByte]; destruct (ascii_dec slash c) as [E|]; try done; by destruct Hne.
Qed.

Lemma Join_cons x y l : Join (x :: y :: l) slash_s = x +:+ String slash (Join (y :: l) slash_s).
Proof. reflexivity. Qed.

Lemma Split_Join l : Forall no_slash l -> l <> [] -> Split (Join l slash_s) slash = l.
Proof.
  induction l as [|x l IH]; intros Hl Hne; [done|]. apply Forall_cons in Hl as [Hx Hl].
  destruct l as [|y l]; [by apply Split_no_slash|]. rewrite Join_cons, Split_app by done. by rewrite IH.
Qed.

Lemma filter_elements l : Forall element l -> filter (fun x => x <> "" /\ x <> ".") l = l.
Proof.
  induction 1 as [|x l (_ & H1 & H2 & _) _ IH]; [done|]. rewrite filter_cons, decide_True by done. by rewrite IH.
Qed.

Lemma element_no_slash l : Forall element l -> Forall no_slash l.
Proof. intros Hl. eapply Forall_impl; [exact Hl|]. by intros x [? _]. Qed.

Lemma elements_of_path l : Forall element l -> elements_of (path_of l) = l.
Proof.
  intros Hl. unfold elements_of, path_of. change (slash_s +:+ Join l slash_s) with ("" +:+ String slash (Join l slash_s)).
  rewrite Split_app by done. rewrite filter_cons, decide_False by (by intros [? _]).
  destruct (decide (l = [])) as [->|Hne]; [done|].
  rewrite Split_Join by (auto using element_no_slash). by apply filter_elements.
Qed.

Lemma path_of_inj l k : Forall element l -> Forall element k -> path_of l = path_of k -> l = k.
Proof. intros Hl Hk E. by rewrite <- (elements_of_path l), <- (elements_of_path k), E. Qed.

Lemma HasPrefix_app p s : HasPrefix (p +:+ s) p = true.
Proof.
  induction p as [|c p IH]; [by destruct s|]. rewrite string_app_cons. cbn. by destruct (ascii_dec c c).
Qed.

Lemma IsAbs_path_of l : IsAbs (path_of l) = true.
Proof. apply HasPrefix_app. Qed.

Lemma path_of_nonempty l : path_of l <> "".
Proof. done. Qed.

(** ** [Clean] on absolute paths *)
Lemma clean_stack_elements acc l :
  Forall element acc -> Forall no_slash l -> Forall (fun x => x <> "" /\ x <> ".") l ->
  Forall element (clean_stack true acc l).
Proof.
  revert acc. induction l as [|x l IH]; intros acc Ha Hns Hl; cbn [clean_stack]; [by apply Forall_rev|].
  apply Forall_cons in Hns as [Hx Hns]. apply Forall_cons in Hl as [[H1 H2] Hl].
  case_bool_decide as Edd.
  - destruct acc as [|y acc]; [by apply IH|]. apply Forall_cons in Ha as [(_ & _ & _ & Hy) Ha].
    rewrite bool_decide_false by done. by apply IH.
  - apply IH; [|done|done]. constructor; [|done]. done.
Qed.

Lemma elements_of_shape s :
  Forall no_slash (elements_of s) /\ Forall (fun x => x <> "" /\ x <> ".") (elements_of s).
Proof.
  unfold elements_of. split.
  - pose proof (Split_elems s) as Hs. rewrite Forall_forall in *. intros x [_ Hx]%list_elem_of_filter. auto.
  - rewrite Forall_forall. by intros x [Hx _]%list_elem_of_filter.
Qed.

(** A cleaned absolute path is the path of its proper elements. *)
Lemma Clean_abs s : IsAbs s = true ->
  exists l, Clean s = path_of l /\ Forall element l /\ l = clean_stack true [] (elements_of s).
Proof.
  intros Ha. exists (clean_stack true [] (elements_of s)). unfold Clean. rewrite Ha.
  assert (s <> "") by (by intros ->). rewrite bool_decide_false by done. split; [done|]. split; [|done].
  destruct (elements_of_shape s). by apply clean_stack_elements.
Qed.

Lemma clean_stack_id acc l : Forall element l -> clean_stack true acc l = rev acc ++ l.
Proof.
  revert acc. induction l as [|x l IH]; intros acc Hl; cbn [clean_stack]; [by rewrite app_nil_r|].
  apply Forall_cons in Hl as [(_ & _ & _ & Hx) Hl]. rewrite bool_decide_false by done.
  rewrite IH by done. cbn [rev]. by rewrite <- app_assoc.
Qed.

Lemma Clean_path_of l : Forall element l -> Clean (path_of l) = path_of l.
Proof.
  intros Hl. destruct (Clean_abs (path_of l)) as (k & Hk & _ & ->); [apply IsAbs_path_of|]. rewrite Hk. f_equal.
  rewrite elements_of_path by done. by apply clean_stack_id.
Qed.

(** ** [Rel] decides the prefix order *)
Lemma drop_common_spec b t b' t' : drop_common b t = (b', t') ->
  exists c, b = c ++ b' /\ t = c ++ t' /\ (b' = [] \/ t' = [] \/ head b' <> head t').
Proof.
  revert t b' t'. induction b as [|x b IH]; intros t b' t' E; [destruct t; injection E as <- <-; exists []; auto|].
  destruct t as [|y t]; [injection E as <- <-; exists []; auto|]. cbn [drop_common] in E.
  case_bool_decide as Exy; [|injection E as <- <-; exists []; cbn; split_and!; [done..|]; right; right; congruence].
  subst y. apply IH in E as (c & -> & -> & H). by exists (x :: c).
Qed.


(** ** Paths built from elements *)
Lemma Split_app_gen a s : Split (a +:+ String slash s) slash = Split a slash ++ Split s slash.
Proof.
  induction a as [|c a IH]; [done|]. rewrite string_app_cons. cbn [Split].
  destruct (ascii_dec c slash) as [|Hne]; [by rewrite IH|]. rewrite IH.
  destruct (Split a slash) eqn:Ea; [|done]. exfalso. clear -Ea. destruct a as [|d a]; [done|]. cbn in Ea.
  destruct (ascii_dec d slash); [done|]. by destruct (Split a slash).
Qed.

Lemma elements_of_app a s : elements_of (a +:+ String slash s) = elements_of a ++ elements_of s.
Proof. unfold elements_of. by rewrite Split_app_gen, filter_app. Qed.

Lemma elements_of_Join l : Forall element l -> elements_of (Join l slash_s) = l.
Proof.
  intros Hl. unfold elements_of. destruct (decide (l = [])) as [->|Hne]; [done|].
  rewrite Split_Join by (auto using element_no_slash). by apply filter_elements.
Qed.

Lemma clean_stack_id_rel acc l : Forall element l -> clean_stack false acc l = rev acc ++ l.
Proof.
  revert acc. induction l as [|x l IH]; intros acc Hl; cbn [clean_stack]; [by rewrite app_nil_r|].
  apply Forall_cons in Hl as [(_ & _ & _ & Hx) Hl]. rewrite bool_decide_false by done.
  rewrite IH by done. cbn [rev]. by rewrite <- app_assoc.
Qed.

Lemma PathJoin_path_of d l : Forall element d -> Forall element l ->
  PathJoin (path_of d) (Join l slash_s) = path_of (d ++ l).
Proof.
  intros Hd Hl. unfold PathJoin. rewrite bool_decide_false by done.
  change (path_of d +:+ slash_s +:+ Join l slash_s) with (path_of d +:+ String slash (Join l slash_s)).
  set (s := path_of d +:+ String slash (Join l slash_s)).
  destruct (Clean_abs s) as (k & -> & _ & ->); [apply (HasPrefix_app slash_s)|]. f_equal. unfold s.
  rewrite elements_of_app, elements_of_path, elements_of_Join by done.
  rewrite clean_stack_id; [done|]. by apply Forall_app.
Qed.

Lemma PathJoin_element x l : element x -> Forall element l ->
  PathJoin x (Join l slash_s) = Join (x :: l) slash_s.
Proof.
  intros Hx Hl. destruct (id Hx) as (Hns & H1 & _). unfold PathJoin. rewrite bool_decide_false by done.
  change (x +:+ slash_s +:+ Join l slash_s) with (x +:+ String slash (Join l slash_s)).
  unfold Clean. assert (x +:+ String slash (Join l slash_s) <> "") by (by destruct x).
  rewrite bool_decide_false by done.
  assert (IsAbs (x +:+ String slash (Join l slash_s)) = false) as ->.
  { destruct x as [|c x]; [done|]. unfold no_slash in Hns. cbn [ContainsByte] in Hns.
    unfold IsAbs, slash_s. rewrite string_app_cons. cbn [HasPrefix]. by destruct (ascii_dec slash c). }
  rewrite elements_of_app, elements_of_Join by done.
  assert (elements_of x = [x]) as -> by (apply (elements_of_Join [x]); by constructor).
  rewrite clean_stack_id_rel by (by constructor). done.
Qed.

Lemma split_last_no_slash x : no_slash x -> split_last x = ("", x).
Proof.
  induction x as [|c x IH]; [done|]. unfold no_slash. cbn [ContainsByte split_last].
  destruct (ascii_dec slash c) as [->|Hne]; [done|]. intros Hx. rewrite IH by done.
  rewrite bool_decide_true by done. by destruct (ascii_dec c slash) as [->|_].
Qed.

Lemma split_last_app a x : no_slash x -> split_last (a +:+ String slash x) = (a +:+ slash_s, x).
Proof.
  intros Hx. induction a as [|c a IH].
  - change ("" +:+ String slash x) with (String slash x). cbn [split_last].
    rewrite split_last_no_slash by done. reflexivity.
  - rewrite string_app_cons. cbn [split_last]. rewrite IH. rewrite bool_decide_false by (by destruct a). done.
Qed.

Lemma Join_snoc l x : l <> [] -> Join (l ++ [x]) slash_s = Join l slash_s +:+ String slash x.
Proof.
  induction l as [|y l IH]; [done|]. intros _. destruct l as [|z l]; [done|].
  change ((y :: z :: l) ++ [x]) with (y :: z :: (l ++ [x])). rewrite !Join_cons.
  change (z :: (l ++ [x])) with ((z :: l) ++ [x]). rewrite IH by done.
  by rewrite <- string_app_assoc.
Qed.

Lemma path_of_snoc l x : exists a,
  path_of (l ++ [x]) = a +:+ String slash x /\ Clean (a +:+ slash_s) = Clean (path_of l).
Proof.
  destruct l as [|y l].
  - exists "". split; reflexivity.
  - exists (path_of (y :: l)). unfold path_of. rewrite Join_snoc by done. split; [by rewrite <- string_app_assoc|].
    set (s := slash_s +:+ Join (y :: l) slash_s).
    destruct (Clean_abs (s +:+ slash_s)) as (k1 & -> & _ & ->); [apply (HasPrefix_app slash_s)|].
    destruct (Clean_abs s) as (k2 & -> & _ & ->); [apply (HasPrefix_app slash_s)|].
    unfold slash_s at 1. rewrite elements_of_app. change (elements_of "") with (@nil string). by rewrite app_nil_r.
Qed.

Lemma PathDir_snoc l x : Forall element l -> no_slash x -> PathDir (path_of (l ++ [x])) = path_of l.
Proof.
  intros Hl Hx. unfold PathDir. destruct (path_of_snoc l x) as (a & -> & E).
  rewrite split_last_app by done. cbn [fst]. rewrite E. by apply Clean_path_of.
Qed.

Lemma str_rev_onto_app a b acc : str_rev_onto (a +:+ b) acc = str_rev_onto b (str_rev_onto a acc).
Proof. revert acc. induction a as [|c a IH]; intros acc; [done|]. rewrite string_app_cons. cbn. apply IH. Qed.

Lemma str_rev_onto_twice s acc acc' :
  str_rev_onto (str_rev_onto s acc) acc' = str_rev_onto acc (s +:+ acc').
Proof. revert acc. induction s as [|c s IH]; intros acc; [done|]. rewrite string_app_cons. cbn. by rewrite IH. Qed.

Lemma str_rev_involutive s : str_rev (str_rev s) = s.
Proof. unfold str_rev. rewrite str_rev_onto_twice. apply string_app_nil_r. Qed.

Lemma strip_slashes_rev x acc : no_slash x -> x <> "" ->
  strip_slashes (str_rev_onto x acc) = str_rev_onto x acc.
Proof.
  revert acc. induction x as [|c x IH]; intros acc Hx Hne; [done|]. unfold no_slash in Hx. cbn [ContainsByte] in Hx.
  destruct (ascii_dec slash c) as [->|Hc]; [done|]. cbn [str_rev_onto].
  destruct x as [|d x]; [|by apply IH]. cbn. by destruct (ascii_dec c slash) as [->|_].
Qed.

Lemma PathBase_snoc l x : element x -> PathBase (path_of (l ++ [x])) = x.
Proof.
  intros (Hx & H1 & _). unfold PathBase. rewrite bool_decide_false by done.
  destruct (path_of_snoc l x) as (a & -> & _).
  assert (strip_slashes (str_rev (a +:+ String slash x)) = str_rev (a +:+ String slash x)) as ->.
  { unfold str_rev. rewrite str_rev_onto_app. cbn [str_rev_onto]. by apply strip_slashes_rev. }
  rewrite str_rev_involutive, split_last_app by done. cbn [snd]. by rewrite bool_decide_false.
Qed.

(** ** What [EvalSymlinks] returns *)
(** Every element of [l] is there and is a directory. *)
Definition all_dirs (fs : FS) (l : list string) : Prop :=
  forall k, k `prefix_of` l -> k <> [] -> fs !! k = Some NDir.

(** Every element of [l] is there, no element is a link, and only the last may be
    a file. *)
Definition link_free (fs : FS) (l : list string) : Prop :=
  all_dirs fs l \/ exists d x, l = d ++ [x] /\ all_dirs fs d /\ fs !! l = Some NFile.

Lemma all_dirs_nil fs : all_dirs fs [].
Proof. intros k Hk Hne. by apply prefix_nil_inv in Hk. Qed.

Lemma all_dirs_prefix fs l k : k `prefix_of` l -> all_dirs fs l -> all_dirs fs k.
Proof. intros Hk Hl k' Hk'. apply Hl. by etrans. Qed.

Lemma all_dirs_removelast fs l : all_dirs fs l -> all_dirs fs (removelast l).
Proof.
  apply all_dirs_prefix. destruct (decide (l = [])) as [->|Hne]; [done|].
  rewrite (app_removelast_last "" Hne) at 2. by apply prefix_app_r.
Qed.

Lemma all_dirs_snoc fs l x : all_dirs fs l -> fs !! (l ++ [x]) = Some NDir -> all_dirs fs (l ++ [x]).
Proof.
  intros Hl Hx k [t E] Hne. destruct (decide (t = [])) as [->|Ht].
  - rewrite app_nil_r in E. by rewrite <- E.
  - apply Hl; [|done]. rewrite (app_removelast_last "" Ht), app_assoc in E.
    apply app_inj_tail in E as [-> _]. by exists (removelast t).
Qed.

Lemma Forall_removelast {A} (P : A -> Prop) l : Forall P l -> Forall P (removelast l).
Proof.
  intros Hl. destruct l as [|x l]; [done|].
  rewrite (app_removelast_last x (l := x :: l)) in Hl by done. by apply Forall_app in Hl as [? _].
Qed.

Lemma walk_spec fs links dest todo d :
  Forall element dest -> Forall no_slash todo -> all_dirs fs dest ->
  walk fs links dest todo = Ok d -> Forall element d /\ link_free fs d.
Proof.
  revert dest todo. induction links as [|links IHl]; intros dest todo; revert dest;
    induction todo as [|x rest IH]; intros dest Hd Ht Hf; cbn [walk]; try (intros [= <-]; split; [done|by left]).
  all: apply Forall_cons in Ht as [Hx Ht].
  all: destruct ((x =? "") || (x =? ".")) eqn:E1; [by apply IH|].
  all: apply orb_false_iff in E1 as [E1%bool_decide_eq_false E2%bool_decide_eq_false].
  all: case_bool_decide as E3;
    [apply IH; [by apply Forall_removelast|done|by apply all_dirs_removelast]|].
  all: assert (Hd' : Forall element (dest ++ [x])) by (apply Forall_app; split; [done|by constructor]).
  all: destruct (fs !! (dest ++ [x])) as [[| |target]|] eqn:El; [| | |discriminate].
  all: try (apply IH; [done|done|by apply all_dirs_snoc]).
  all: try (destruct rest; [|discriminate]; intros [= <-]; split; [done|right; by exists dest, x]).
  - discriminate.
  - apply IHl; [by destruct (IsAbs target)| |by destruct (IsAbs target); [apply all_dirs_nil|]].
    apply Forall_app. split; [apply Split_elems|done].
Qed.

Lemma EvalSymlinks_spec fs p q : EvalSymlinks fs p = Ok q ->
  exists d, q = path_of d /\ Forall element d /\ link_free fs d.
Proof.
  unfold EvalSymlinks. destruct (walk fs 255 [] (Split p slash)) as [d|] eqn:E; cbn; [|done].
  intros [= <-]. exists d. split; [done|].
  exact (walk_spec fs 255 [] _ d ltac:(constructor) (Split_elems p) (all_dirs_nil fs) E).
Qed.

Lemma walk_dirs fs links dest l rest :
  all_dirs fs (dest ++ l) -> Forall element l -> walk fs links dest (l ++ rest) = walk fs links (dest ++ l) rest.
Proof.
  revert dest. induction l as [|x l IH]; intros dest Hd Hl; [by rewrite app_nil_r|].
  apply Forall_cons in Hl as [(_ & E1 & E2 & E3) Hl].
  assert (Hx : fs !! (dest ++ [x]) = Some NDir).
  { apply Hd; [|by destruct dest]. exists l. by rewrite <- app_assoc. }
  replace (dest ++ x :: l) with ((dest ++ [x]) ++ l) in * by (by rewrite <- app_assoc).
  destruct links; cbn [walk app];
    rewrite (bool_decide_false _ E1), (bool_decide_false _ E2), (bool_decide_false _ E3), Hx; cbn [orb];
    exact (IH (dest ++ [x]) Hd Hl).
Qed.

Lemma walk_link_free fs links l : Forall element l -> link_free fs l -> walk fs links [] ("" :: l) = Ok l.
Proof.
  intros Hl Hf. assert (walk fs links [] ("" :: l) = walk fs links [] l) as -> by (by destruct links).
  destruct Hf as [Hd|(d & x & -> & Hd & Hx)].
  - rewrite <- (app_nil_r l) at 1. rewrite walk_dirs by done. by destruct links.
  - apply Forall_app in Hl as [Hd' [(_ & E1 & E2 & E3) _]%Forall_cons]. rewrite walk_dirs by done.
    destruct links; cbn [app walk];
      by rewrite (bool_decide_false _ E1), (bool_decide_false _ E2), (bool_decide_false _ E3), Hx.
Qed.

Lemma Split_path_of l : Forall element l -> l <> [] -> Split (path_of l) slash = "" :: l.
Proof.
  intros Hl Hne. unfold path_of. change (slash_s +:+ Join l slash_s) with ("" +:+ String slash (Join l slash_s)).
  rewrite Split_app, Split_Join by (done || by apply element_no_slash). done.
Qed.

(** A resolved path resolves to itself. *)
Lemma EvalSymlinks_link_free fs l : Forall element l -> link_free fs l ->
  EvalSymlinks fs (path_of l) = Ok (path_of l).
Proof.
  intros Hl Hf. destruct (decide (l = [])) as [->|Hne]; [reflexivity|]. unfold EvalSymlinks.
  rewrite Split_path_of, walk_link_free by assumption. reflexivity.
Qed.
