(* ===== verification/GoRegexp.v ===== *)
(** * Go's [regexp] package, as far as the repository uses it

    A text is decoded into runes the way Go's engine reads it (UTF-8, an
    invalid byte is U+FFFD of width one); each rune keeps its bytes, so that
    replaced text is put together from the original bytes.  Matching is
    leftmost-first: alternatives and repetitions are tried in Perl order, which
    is the order Go's engine gives the same result as.  The expressions of the
    repository are written with the combinators below. *)

From S2P Require Import Prelude GoStrings.

(** ** Runes *)
Record glyph := Glyph { rune : Z; bytes : string }.

Definition cont (c : ascii) : bool := (128 <=? byte_val c) && (byte_val c <=? 191).
Definition RuneError : Z := 65533.

(** [utf8.DecodeRuneInString] of a non-empty text: the first rune and the
    bytes after it. *)
Definition decode_rune (a : ascii) (s1 : string) : glyph * string :=
  let x := byte_val a in
  let bad := (Glyph RuneError (String a ""), s1) in
  if x <? 128 then (Glyph x (String a ""), s1)
  else match s1 with
  | EmptyString => bad
  | String b s2 =>
      let y := byte_val b in
      if (194 <=? x) && (x <=? 223) && cont b then
        (Glyph ((x - 192) * 64 + (y - 128)) (String a (String b "")), s2)
      else match s2 with
      | EmptyString => bad
      | String c s3 =>
          let z := byte_val c in
          let lo := if x =? 224 then 160 else 128 in
          let hi := if x =? 237 then 159 else 191 in
          if (224 <=? x) && (x <=? 239) && (lo <=? y) && (y <=? hi) && cont c then
            (Glyph ((x - 224) * 4096 + (y - 128) * 64 + (z - 128))
                   (String a (String b (String c ""))), s3)
          else match s3 with
          | EmptyString => bad
          | String d s4 =>
              let lo := if x =? 240 then 144 else 128 in
              let hi := if x =? 244 then 143 else 191 in
              if (240 <=? x) && (x <=? 244) && (lo <=? y) && (y <=? hi) && cont c && cont d then
                (Glyph ((x - 240) * 262144 + (y - 128) * 4096 + (z - 128) * 64 + (byte_val d - 128))
                       (String a (String b (String c (String d "")))), s4)
              else bad
          end
      end
  end.

Fixpoint runes_fuel (fuel : nat) (s : string) : list glyph :=
  match fuel, s with
  | S f, String a s1 => let '(g, rest) := decode_rune a s1 in g :: runes_fuel f rest
  | _, _ => []
  end.
Definition runes_of (s : string) : list glyph := runes_fuel (String.length s) s.

Fixpoint raw (gs : list glyph) : string :=
  match gs with
  | [] => ""
  | g :: gs' => bytes g +:+ raw gs'
  end.

Lemma raw_app gs hs : raw (gs ++ hs) = raw gs +:+ raw hs.
Proof. induction gs as [|g gs IH]; simpl; [done|]. by rewrite IH, string_app_assoc. Qed.

Lemma decode_rune_raw a s1 :
  bytes (decode_rune a s1).1 +:+ (decode_rune a s1).2 = String a s1 /\
  (String.length (decode_rune a s1).2 <= String.length s1)%nat.
Proof.
  unfold decode_rune. repeat (case_match; simpl); split; reflexivity || lia.
Qed.

Lemma raw_runes_fuel fuel s :
  (String.length s <= fuel)%nat -> raw (runes_fuel fuel s) = s.
Proof.
  revert s. induction fuel as [|f IH]; intros [|a s1] Hle; simpl in *; try done; [lia|].
  destruct (decode_rune_raw a s1) as [Hraw Hlen].
  destruct (decode_rune a s1) as [g rest]; simpl in *. rewrite IH by lia. done.
Qed.

(** Decoding loses nothing: the bytes of the runes are the text. *)
Lemma raw_runes_of s : raw (runes_of s) = s.
Proof. by apply raw_runes_fuel. Qed.

(** ** Expressions *)
Inductive regexp :=
| Empty
| Class (p : Z -> bool)              (** one rune of a class *)
| Seq (r1 r2 : regexp)
| Alt (r1 r2 : regexp)
| Star (greedy : bool) (r : regexp)
| Group (n : nat) (r : regexp)
| Bot                                (** [^], start of text *)
| Eot                                (** [$], end of text *)
| WordBoundary.                      (** [\b], ASCII *)

(** A position: the rune before it, its index in runes, and what follows. *)
Record position := Position { prev : option Z; idx : nat; rest : list glyph }.

Definition captures := list (nat * (nat * nat)).

Definition is_word (z : Z) : bool :=
  ((48 <=? z) && (z <=? 57)) || ((65 <=? z) && (z <=? 90)) || ((97 <=? z) && (z <=? 122)) || (z =? 95).
Definition word_at (o : option Z) : bool := match o with Some z => is_word z | None => false end.
Definition next_rune (s : position) : option Z :=
  match rest s with [] => None | g :: _ => Some (rune g) end.

Definition advance (s : position) : option position :=
  match rest s with
  | [] => None
  | g :: gs => Some (Position (Some (rune g)) (S (idx s)) gs)
  end.

Section Matcher.
Context {R : Type}.

Definition or_else (a : option R) (b : unit -> option R) : option R :=
  match a with Some _ => a | None => b tt end.

(** A repetition goes on only while it consumes input, so [length (rest s)]
    rounds are enough. *)
Fixpoint star_loop (body : (position -> captures -> option R) -> position -> captures -> option R)
    (greedy : bool) (k : position -> captures -> option R) (fuel : nat) (s : position) (c : captures)
    : option R :=
  match fuel with
  | O => k s c
  | S f =>
      let again := fun _ : unit =>
        body (fun s' c' => if Nat.ltb (idx s) (idx s') then star_loop body greedy k f s' c' else None) s c in
      if greedy then or_else (again tt) (fun _ => k s c) else or_else (k s c) again
  end.

(** Backtracking with a continuation. *)
Fixpoint mt (r : regexp) (k : position -> captures -> option R) (s : position) (c : captures)
    : option R :=
  match r with
  | Empty => k s c
  | Class p =>
      match advance s with
      | Some s' => if (match prev s' with Some z => p z | None => false end) then k s' c else None
      | None => None
      end
  | Seq r1 r2 => mt r1 (mt r2 k) s c
  | Alt r1 r2 => or_else (mt r1 k s c) (fun _ => mt r2 k s c)
  | Star greedy r' => star_loop (mt r') greedy k (length (rest s)) s c
  | Group n r' => mt r' (fun s' c' => k s' ((n, (idx s, idx s')) :: c')) s c
  | Bot => match prev s with None => k s c | Some _ => None end
  | Eot => match rest s with [] => k s c | _ :: _ => None end
  | WordBoundary => if xorb (word_at (prev s)) (word_at (next_rune s)) then k s c else None
  end.

End Matcher.

Definition match_here (r : regexp) (s : position) : option (position * captures) :=
  mt r (fun s' c => Some (s', c)) s [].

(** Leftmost match from a position on. *)
Fixpoint find_from (r : regexp) (p : option Z) (i : nat) (gs : list glyph)
    : option (list glyph * position * captures) :=
  match match_here r (Position p i gs) with
  | Some (e, c) => Some ([], e, c)
  | None =>
      match gs with
      | [] => None
      | g :: gs' =>
          match find_from r (Some (rune g)) (S i) gs' with
          | Some (skipped, e, c) => Some (g :: skipped, e, c)
          | None => None
          end
      end
  end.

(** [re.MatchString] *)
Definition MatchString (r : regexp) (s : string) : bool :=
  match find_from r None 0 (runes_of s) with Some _ => true | None => false end.

(** [re.FindStringSubmatchIndex], in runes: the bounds of a group, [None] when
    there is no match or the group took no part in it. *)
Definition FindSubmatch (r : regexp) (gs : list glyph) (group : nat) : option (nat * nat) :=
  match find_from r None 0 gs with
  | Some (_, _, c) =>
      match list_find (fun e => e.1 = group) c with
      | Some (_, (_, b)) => Some b
      | None => None
      end
  | None => None
  end.

(** [re.ReplaceAllStringFunc], for expressions that never match the empty
    text.  [f] gives the replacement and whether it changed anything. *)
Fixpoint replace_loop (fuel : nat) (r : regexp) (f : list glyph -> string * bool)
    (p : option Z) (i : nat) (gs : list glyph) : string * bool :=
  match fuel with
  | O => (raw gs, false)
  | S fuel' =>
      match find_from r p i gs with
      | None => (raw gs, false)
      | Some (skipped, e, _) =>
          let matched := take (length gs - length skipped - length (rest e)) (drop (length skipped) gs) in
          let '(repl, changed) := f matched in
          let '(tail, changed') := replace_loop fuel' r f (prev e) (idx e) (rest e) in
          (raw skipped +:+ (repl +:+ tail), changed || changed')
      end
  end.

Definition ReplaceAllFunc (r : regexp) (f : list glyph -> string * bool) (s : string) : string * bool :=
  let gs := runes_of s in replace_loop (S (length gs)) r f None 0 gs.

(** ** Combinators for the repository's expressions *)
Definition code (c : string) : Z := match c with String a _ => byte_val a | EmptyString => -1 end.
Definition one_of (chars : string) (z : Z) : bool :=
  existsb (fun c => z =? byte_val c) (String.list_ascii_of_string chars).
Definition rng (a b : string) (z : Z) : bool := (code a <=? z) && (z <=? code b).
Definition cunion (p q : Z -> bool) (z : Z) : bool := p z || q z.
Definition cnot (p : Z -> bool) (z : Z) : bool := negb (p z).
Notation "p '⊎' q" := (cunion p q) (at level 50, left associativity) : go_scope.

Definition digit := rng "0" "9".
Definition lower := rng "a" "z".
Definition upper := rng "A" "Z".
Definition hexlow := digit ⊎ rng "a" "f".
Definition alnum := digit ⊎ lower ⊎ upper.
(** [\s] of RE2: tab, newline, form feed, carriage return, space. *)
Definition space (z : Z) : bool := (z =? 9) || (z =? 10) || (z =? 12) || (z =? 13) || (z =? 32).
Definition any_rune (z : Z) : bool := true.

(** Case folding of [(?i)] for classes of ASCII characters. *)
Definition fold_orbit (z : Z) : list Z :=
  if (65 <=? z) && (z <=? 90) then z :: (z + 32) :: (if z =? 75 then [8490] else if z =? 83 then [383] else [])
  else if (97 <=? z) && (z <=? 122) then z :: (z - 32) :: (if z =? 107 then [8490] else if z =? 115 then [383] else [])
  else if z =? 8490 then [8490; 75; 107]
  else if z =? 383 then [383; 83; 115]
  else [z].
Definition cfold (p : Z -> bool) (z : Z) : bool := existsb p (fold_orbit z).

Fixpoint lit (s : string) : regexp :=
  match s with
  | EmptyString => Empty
  | String c cs => Seq (Class (fun z => z =? byte_val c)) (lit cs)
  end.
(** A literal under [(?i)]. *)
Fixpoint ilit (s : string) : regexp :=
  match s with
  | EmptyString => Empty
  | String c cs => Seq (Class (cfold (fun z => z =? byte_val c))) (ilit cs)
  end.

Definition opt (r : regexp) : regexp := Alt r Empty.
Definition star (r : regexp) : regexp := Star true r.
Definition plus (r : regexp) : regexp := Seq r (star r).

(** [r{n}] *)
Fixpoint times (n : nat) (r : regexp) : regexp :=
  match n with O => Empty | S n' => Seq r (times n' r) end.
(** [r{0,n}], greedy *)
Fixpoint upto (n : nat) (r : regexp) : regexp :=
  match n with O => Empty | S n' => opt (Seq r (upto n' r)) end.
(** [r{m,n}] *)
Definition between (m n : nat) (r : regexp) : regexp := Seq (times m r) (upto (n - m) r).
(** [r{m,}] *)
Definition at_least (m : nat) (r : regexp) : regexp := Seq (times m r) (star r).

(** [^r$] *)
Definition whole (r : regexp) : regexp := Seq Bot (Seq r Eot).
Fixpoint alts (l : list regexp) : regexp :=
  match l with
  | [] => Class (fun _ => false)
  | [r] => r
  | r :: rs => Alt r (alts rs)
  end.
Fixpoint seqs (l : list regexp) : regexp :=
  match l with [] => Empty | r :: rs => Seq r (seqs rs) end.

Example re_ex1 : MatchString (whole (Seq (lit "wj_") (times 4 (Class hexlow)))) "wj_0af9" = true.
Proof. vm_compute. reflexivity. Qed.
Example re_ex2 : MatchString (whole (Seq (lit "wj_") (times 4 (Class hexlow)))) "wj_0af" = false.
Proof. vm_compute. reflexivity. Qed.

(** ** Facts about the matcher *)

Definition ascii_glyph (a : ascii) : glyph := Glyph (byte_val a) (String a "").
Definition str_glyphs (s : string) : list glyph := ascii_glyph <$> String.list_ascii_of_string s.
Definition str_forall (p : ascii -> bool) (s : string) : bool :=
  forallb p (String.list_ascii_of_string s).
Definition is_ascii (a : ascii) : bool := byte_val a <? 128.

Lemma str_forall_app p s t : str_forall p (s +:+ t) = str_forall p s && str_forall p t.
Proof.
  unfold str_forall. induction s as [|c s IH]; [done|]. rewrite string_app_cons. simpl.
  rewrite IH. apply andb_assoc.
Qed.

Lemma str_glyphs_app s t : str_glyphs (s +:+ t) = str_glyphs s ++ str_glyphs t.
Proof.
  unfold str_glyphs. induction s as [|c s IH]; [done|]. rewrite string_app_cons.
  cbn. f_equal. exact IH.
Qed.

Lemma runes_fuel_ascii fuel s :
  (String.length s <= fuel)%nat -> str_forall is_ascii s = true ->
  runes_fuel fuel s = str_glyphs s.
Proof.
  unfold str_forall, is_ascii. revert s.
  induction fuel as [|f IH]; intros [|a s] Hl Ha; simpl in *; try done; [lia|].
  apply andb_true_iff in Ha as [Ha Hs]. unfold decode_rune. rewrite Ha. simpl.
  rewrite IH by (done || lia). done.
Qed.

Lemma runes_of_ascii s : str_forall is_ascii s = true -> runes_of s = str_glyphs s.
Proof. intros. by apply runes_fuel_ascii. Qed.

Section MatcherFacts.
Context {R : Type}.
Implicit Types (k : position -> captures -> option R).

Lemma mt_lit s k pv i tl c :
  exists pv', mt (lit s) k (Position pv i (str_glyphs s ++ tl)) c =
              k (Position pv' (i + String.length s)%nat tl) c.
Proof.
  revert pv i. induction s as [|a s IH]; intros pv i; simpl.
  { exists pv. by rewrite Nat.add_0_r. }
  rewrite bool_decide_true by done.
  destruct (IH (Some (byte_val a)) (S i)) as [pv' Hm]. exists pv'.
  rewrite Nat.add_succ_r. exact Hm.
Qed.

Lemma mt_times_class p s k pv i tl c :
  str_forall (fun a => p (byte_val a)) s = true ->
  exists pv', mt (times (String.length s) (Class p)) k (Position pv i (str_glyphs s ++ tl)) c =
              k (Position pv' (i + String.length s)%nat tl) c.
Proof.
  unfold str_forall. revert pv i. induction s as [|a s IH]; intros pv i Hs; simpl in *.
  { exists pv. by rewrite Nat.add_0_r. }
  apply andb_true_iff in Hs as [Ha Hs]. rewrite Ha.
  destruct (IH (Some (byte_val a)) (S i) Hs) as [pv' Hm]. exists pv'.
  rewrite Nat.add_succ_r. exact Hm.
Qed.

End MatcherFacts.

(** A literal prefix followed by exactly [n] characters of a class. *)
Lemma match_prefix_class prefix p n body :
  String.length body = n ->
  str_forall is_ascii prefix = true -> str_forall is_ascii body = true ->
  str_forall (fun a => p (byte_val a)) body = true ->
  MatchString (whole (Seq (lit prefix) (times n (Class p)))) (prefix +:+ body) = true.
Proof.
  intros <- Hp Hb Hc. unfold MatchString.
  rewrite runes_of_ascii by (rewrite str_forall_app, Hp, Hb; done).
  rewrite str_glyphs_app.
  assert (Hm : exists e, match_here (whole (Seq (lit prefix) (times (String.length body) (Class p))))
            (Position None 0 (str_glyphs prefix ++ str_glyphs body)) = Some e).
  { unfold match_here, whole. cbn [mt prev].
    destruct (mt_lit prefix (mt (times (String.length body) (Class p))
       (mt Eot (fun s' c => Some (s', c)))) None 0 (str_glyphs body) []) as [pv1 H1].
    setoid_rewrite H1.
    rewrite <- (app_nil_r (str_glyphs body)).
    destruct (mt_times_class p body (mt Eot (fun s' c => Some (s', c))) pv1
      (0 + String.length prefix) [] [] Hc) as [pv2 H2].
    setoid_rewrite H2. simpl. eauto. }
  destruct Hm as [[e c] Hm].
  destruct (str_glyphs prefix ++ str_glyphs body); cbn [find_from]; by rewrite Hm.
Qed.

(** Turn membership in a character class into arithmetic on the rune. *)
Ltac class_unfold :=
  unfold hexlow, alnum, space, cunion, cnot, lower, upper, digit, rng, one_of in *;
  cbn [existsb String.list_ascii_of_string] in *;
  repeat match goal with
  | |- context [code ?s] => let v := eval vm_compute in (code s) in progress change (code s) with v
  | |- context [byte_val (Ascii ?a ?b ?c ?d ?e ?f ?g ?h)] =>
      let v := eval vm_compute in (byte_val (Ascii a b c d e f g h)) in
      change (byte_val (Ascii a b c d e f g h)) with v
  end;
  rewrite ?orb_true_iff, ?andb_true_iff, ?Z.leb_le, ?bool_decide_eq_true.

(** The hexadecimal digits of a byte string are lower-case hex characters. *)
Lemma hex_digit_hexlow n : 0 <= n < 16 -> hexlow (byte_val (hex_digit n)) = true.
Proof.
  intros H. assert (n ∈ seqZ 0 16) as Hin by (apply elem_of_seqZ; lia).
  revert n H Hin. 
  assert (Forall (fun n => hexlow (byte_val (hex_digit n)) = true) (seqZ 0 16)) as HF.
  { repeat constructor. }
  rewrite Forall_forall in HF. auto.
Qed.

Lemma hexlow_ascii a : hexlow (byte_val a) = true -> is_ascii a = true.
Proof.
  unfold hexlow, cunion, digit, rng, is_ascii.
  change (code "9") with 57. change (code "f") with 102.
  rewrite orb_true_iff, !andb_true_iff, !Z.leb_le, Z.ltb_lt. lia.
Qed.

Lemma byte_val_range a : 0 <= byte_val a < 256.
Proof.
  unfold byte_val. pose proof (N_ascii_bounded a). lia.
Qed.

Lemma EncodeToString_hexlow s :
  str_forall (fun a => hexlow (byte_val a)) (EncodeToString s) = true.
Proof.
  unfold str_forall. induction s as [|c s IH]; [done|].
  cbn [EncodeToString String.list_ascii_of_string forallb]. pose proof (byte_val_range c).
  rewrite !hex_digit_hexlow, IH; [done| |]; Z.to_euclidean_division_equations; lia.
Qed.

Lemma str_forall_impl (p q : ascii -> bool) s :
  (forall a, p a = true -> q a = true) -> str_forall p s = true -> str_forall q s = true.
Proof.
  intros H. unfold str_forall. rewrite !forallb_forall. auto.
Qed.

(** [prefix + hex(body)] matches [^prefix[a-f0-9]{2n}$] for an [n]-byte body. *)
Lemma match_hex_id prefix n body :
  str_forall is_ascii prefix = true -> (2 * String.length body)%nat = n ->
  MatchString (whole (Seq (lit prefix) (times n (Class hexlow)))) (prefix +:+ EncodeToString body) = true.
Proof.
  intros Hp Hn. pose proof (EncodeToString_hexlow body) as Hh.
  apply match_prefix_class; [by rewrite EncodeToString_length|done| |done].
  eapply str_forall_impl; [apply hexlow_ascii|done].
Qed.

(** Every class of an expression is contained in [P]. *)
Fixpoint classes_in (P : Z -> Prop) (r : regexp) : Prop :=
  match r with
  | Class p => forall z, p z = true -> P z
  | Seq r1 r2 | Alt r1 r2 => classes_in P r1 /\ classes_in P r2
  | Star _ r | Group _ r => classes_in P r
  | _ => True
  end.

Lemma classes_in_True r : classes_in (fun _ => True) r.
Proof. induction r; simpl; auto. Qed.

(** A match only moves forward, and what it consumes is made of runes of the
    expression's classes. *)
Definition consumes (P : Z -> Prop) (s s' : position) : Prop :=
  exists gs, rest s = gs ++ rest s' /\ Forall (fun g => P (rune g)) gs.

Lemma consumes_refl P s : consumes P s s.
Proof. by exists []. Qed.

Lemma consumes_trans P s1 s2 s3 : consumes P s1 s2 -> consumes P s2 s3 -> consumes P s1 s3.
Proof.
  intros (gs & E & H) (hs & E' & H'). exists (gs ++ hs). rewrite E, E', app_assoc.
  split; [done|]. by apply Forall_app.
Qed.
#[local] Hint Resolve consumes_refl consumes_trans : core.

Lemma star_loop_consumes {R} P body greedy (k : position -> captures -> option R) fuel s c x :
  (forall k' s c x, body k' s c = Some x ->
     exists s' c', consumes P s s' /\ k' s' c' = Some x) ->
  star_loop body greedy k fuel s c = Some x ->
  exists s' c', consumes P s s' /\ k s' c' = Some x.
Proof.
  intros Hbody. revert s c. induction fuel as [|f IH]; intros s c H; simpl in H; [eauto|].
  assert (Hagain : forall y, body (fun s' c' => if Nat.ltb (idx s) (idx s')
      then star_loop body greedy k f s' c' else None) s c = Some y ->
      y = x -> exists s' c', consumes P s s' /\ k s' c' = Some x).
  { intros y Hy ->. apply Hbody in Hy as (s1 & c1 & Hs1 & Hy).
    destruct (Nat.ltb (idx s) (idx s1)); [|done]. apply IH in Hy as (s2 & c2 & Hs2 & Hy).
    exists s2, c2. eauto. }
  unfold or_else in H. destruct greedy; case_match; simplify_eq; eauto.
Qed.

Lemma mt_consumes {R} P r (k : position -> captures -> option R) s c x :
  classes_in P r -> mt r k s c = Some x ->
  exists s' c', consumes P s s' /\ k s' c' = Some x.
Proof.
  revert k s c x. induction r as [| p | r1 IH1 r2 IH2 | r1 IH1 r2 IH2 | g r IH | n r IH | | |];
    intros k s c x HP H; cbn [mt] in H; cbn [classes_in] in HP.
  - eauto.
  - unfold advance in H. destruct (rest s) as [|gl gs] eqn:Er; [done|]. cbn in H.
    destruct (p (rune gl)) eqn:Ep; [|done]. eexists _, _. split; [|exact H].
    exists [gl]. rewrite Er. simpl. auto.
  - destruct HP as [HP1 HP2].
    apply IH1 in H as (s1 & c1 & Hs1 & H); [|done]. apply IH2 in H as (s2 & c2 & Hs2 & H); eauto.
  - destruct HP as [HP1 HP2].
    unfold or_else in H. destruct (mt r1 k s c) eqn:E1; simplify_eq; eauto.
  - eapply star_loop_consumes; [|exact H]. eauto.
  - apply IH in H as (s1 & c1 & Hs1 & H); eauto.
  - destruct (prev s); [done|eauto].
  - destruct (rest s) eqn:E; [|done]. eauto.
  - destruct (xorb _ _); [eauto|done].
Qed.

Lemma find_from_split r p i gs skipped e c :
  find_from r p i gs = Some (skipped, e, c) ->
  exists matched, gs = skipped ++ matched ++ rest e.
Proof.
  revert p i skipped. induction gs as [|g gs IH]; intros p i skipped H; cbn [find_from] in H.
  all: destruct (match_here r (Position p i _)) as [[e' c']|] eqn:Em.
  1, 3: injection H as <- <- <-; unfold match_here in Em;
    apply (mt_consumes (fun _ => True)) in Em as (s' & c'' & (m & Hm & _) & Hk);
    [|apply classes_in_True]; injection Hk as -> ->; exists m; simpl in *; done.
  - done.
  - destruct (find_from r (Some (rune g)) (S i) gs) as [[[sk e''] c'']|] eqn:Ef; [|done].
    injection H as <- <- <-. apply IH in Ef as [m ->]. by exists m.
Qed.

(** If a replacement reports no change it is the matched text, and then so is
    the whole result. *)
Lemma ReplaceAllFunc_unchanged r f s out :
  (forall m t, f m = (t, false) -> t = raw m) ->
  ReplaceAllFunc r f s = (out, false) -> out = s.
Proof.
  intros Hf. unfold ReplaceAllFunc. rewrite <- (raw_runes_of s) at 3.
  generalize (runes_of s) as gs. intros gs.
  generalize (S (length gs)) as fuel, (None : option Z) as p, 0%nat as i.
  intros fuel. revert gs out. induction fuel as [|n IH]; intros gs out p i H; simpl in H.
  { by injection H as <-. }
  destruct (find_from r p i gs) as [[[sk e] c]|] eqn:Ef; [|by injection H as <-].
  apply find_from_split in Ef as [m ->].
  rewrite !length_app, drop_app_length, take_app_length' in H by lia.
  destruct (f m) as [repl changed] eqn:Em.
  destruct (replace_loop n r f (prev e) (idx e) (rest e)) as [tl changed'] eqn:Er.
  injection H as <- Hc. apply orb_false_iff in Hc as [-> ->].
  apply Hf in Em as ->. apply IH in Er as ->. by rewrite !raw_app.
Qed.

(** An anchored expression [^r$] accepts only texts made of its classes. *)
Lemma find_from_whole_prev r z i gs : find_from (whole r) (Some z) i gs = None.
Proof.
  revert z i. induction gs as [|g gs IH]; intros z i; cbn [find_from]; unfold match_here, whole;
    cbn [mt prev]; [done|]. change (Seq Bot (Seq r Eot)) with (whole r). by rewrite IH.
Qed.

Lemma match_whole_classes P r s :
  classes_in P r -> MatchString (whole r) s = true -> Forall (fun g => P (rune g)) (runes_of s).
Proof.
  intros HP. unfold MatchString. intros H.
  assert (exists x, match_here (whole r) (Position None 0 (runes_of s)) = Some x) as [[e c] Hm].
  { destruct (runes_of s) as [|g gs]; cbn [find_from] in H;
      destruct (match_here _ _) as [[e c]|]; eauto; [done|].
    by rewrite find_from_whole_prev in H. }
  unfold match_here, whole in Hm. cbn [mt prev] in Hm.
  apply (mt_consumes P) in Hm as (s' & c' & (gs & E & Hgs) & Hk); [|done].
  destruct (rest s') eqn:Er; [|done]. simpl in E. by rewrite E, app_nil_r.
Qed.

(** An ASCII byte of a text is a rune of it. *)
Lemma runes_fuel_contains fuel s a :
  (String.length s <= fuel)%nat -> is_ascii a = true -> ContainsByte s a = true ->
  exists g, g ∈ runes_fuel fuel s /\ rune g = byte_val a.
Proof.
  intros Hl Ha. revert s Hl. induction fuel as [|f IH]; intros [|b s] Hl Hc; simpl in *; try done; [lia|].
  unfold is_ascii in Ha. apply Z.ltb_lt in Ha.
  destruct (decode_rune b s) as [g rest0] eqn:Ed.
  assert (Hd : (rune g = byte_val a) \/ (ContainsByte rest0 a = true /\ (String.length rest0 <= f)%nat)).
  { clear IH. unfold decode_rune, cont in Ed. destruct (ascii_dec a b) as [->|Hne].
    - left. rewrite (proj2 (Z.ltb_lt _ _)) in Ed by lia. by injection Ed as <- _.
    - right. simpl in Hc. repeat case_match; simplify_eq; simpl in *;
        repeat match goal with
        | H : context [ascii_dec a ?x] |- _ => destruct (ascii_dec a x); [subst; exfalso; lia|]
        end; simpl in *; (split; [done|lia]). }
  destruct Hd as [Hd|[Hd Hd']].
  - exists g. split; [left|done].
  - destruct (IH _ Hd' Hd) as (g' & Hin & E). exists g'. split; [by right|done].
Qed.

Lemma runes_of_contains s a :
  is_ascii a = true -> ContainsByte s a = true -> exists g, g ∈ runes_of s /\ rune g = byte_val a.
Proof. intros. by apply runes_fuel_contains. Qed.

(** A byte outside the classes of [^r$] does not occur in a matching text. *)
Lemma match_whole_no_byte P r s a :
  classes_in P r -> is_ascii a = true -> ~ P (byte_val a) ->
  MatchString (whole r) s = true -> ContainsByte s a = false.
Proof.
  intros HP Ha Hna Hm. apply (match_whole_classes P) in Hm; [|done].
  destruct (ContainsByte s a) eqn:Hc; [|done]. exfalso.
  apply runes_of_contains in Hc as (g & Hin & E); [|done].
  rewrite Forall_forall in Hm. apply Hna. rewrite <- E. by apply Hm.
Qed.

(** ** Texts of ASCII runes *)
Definition each_byte (P : Z -> Prop) (s : string) : Prop :=
  Forall (fun c => P (byte_val c)) (String.list_ascii_of_string s).

Lemma decode_rune_small a s g t : decode_rune a s = (g, t) -> rune g < 128 -> rune g = byte_val a /\ t = s.
Proof.
  pose proof (byte_val_range a) as Ha. unfold decode_rune, cont. intros E Hg.
  destruct (Z.ltb_spec (byte_val a) 128) as [Hlt|Hge]; [by injection E as <- <-|]. exfalso.
  destruct s as [|b s]; [injection E as <- <-; done|].
  destruct ((194 <=? byte_val a) && _ && _) eqn:E1.
  { injection E as <- <-. cbn in Hg. breflect. lia. }
  destruct s as [|c s]; [injection E as <- <-; done|].
  destruct ((224 <=? byte_val a) && _ && _ && _ && _) eqn:E2.
  { injection E as <- <-. cbn in Hg. breflect. destruct (bool_decide (byte_val a = 224)) eqn:E3; breflect; lia. }
  destruct s as [|d s]; [injection E as <- <-; done|].
  destruct ((240 <=? byte_val a) && _ && _ && _ && _ && _) eqn:E3; [|injection E as <- <-; done].
  injection E as <- <-. cbn in Hg. breflect. destruct (bool_decide (byte_val a = 240)) eqn:E4; breflect; lia.
Qed.

Lemma runes_fuel_small P fuel s : (String.length s <= fuel)%nat -> (forall z, P z -> z < 128) ->
  Forall (fun g => P (rune g)) (runes_fuel fuel s) -> each_byte P s.
Proof.
  intros Hl HP. revert s Hl. induction fuel as [|fuel IH]; intros [|a s] Hl Hf; [constructor|cbn in Hl; lia|constructor|].
  cbn [runes_fuel] in Hf. destruct (decode_rune a s) as [g t] eqn:Ed. apply Forall_cons in Hf as [Hg Hf].
  apply decode_rune_small in Ed as [E ->]; [|by apply HP]. constructor; [by rewrite <- E|]. apply IH; [cbn in Hl; lia|done].
Qed.

(** A text that an anchored expression over ASCII classes accepts is made of bytes
    of the classes. *)
Lemma match_whole_bytes P r s : (forall z, P z -> z < 128) -> classes_in P r ->
  MatchString (whole r) s = true -> each_byte P s.
Proof.
  intros HP Hc Hm. apply (runes_fuel_small P (String.length s)); [done|done|]. by apply (match_whole_classes P r).
Qed.

Lemma classes_in_upto P n r : classes_in P r -> classes_in P (upto n r).
Proof. intros H. induction n as [|n IH]; cbn; auto. Qed.
Lemma classes_in_times P n r : classes_in P r -> classes_in P (times n r).
Proof. intros H. induction n as [|n IH]; cbn; auto. Qed.

Lemma each_byte_cons P c s : each_byte P (String c s) <-> P (byte_val c) /\ each_byte P s.
Proof. unfold each_byte. cbn. by rewrite Forall_cons. Qed.

Lemma each_byte_impl (P Q : Z -> Prop) s : (forall z, P z -> Q z) -> each_byte P s -> each_byte Q s.
Proof. intros H Hs. eapply Forall_impl; [exact Hs|]. cbn. auto. Qed.

(** Visible ASCII: [TrimSpace] and, without capitals, [ToLower] do nothing. *)
Definition visible (z : Z) : Prop := 32 < z < 128.
Definition visible_lower (z : Z) : Prop := 32 < z < 128 /\ ~ (65 <= z <= 90).

Lemma space_width_visible c s : visible (byte_val c) -> space_width (String c s) = O.
Proof.
  unfold visible. intros H. cbn [space_width]. destruct (((9 <=? byte_val c) && (byte_val c <=? 13)) || _) eqn:E.
  { rewrite orb_true_iff, andb_true_iff, !Z.leb_le, bool_decide_eq_true in E. lia. }
  destruct s as [|d s]; [done|]. rewrite !(bool_decide_false (byte_val c = _)) by lia. cbn [andb orb]. by destruct s.
Qed.

Lemma trim_left_visible fuel s : each_byte visible s -> trim_left fuel s = s.
Proof.
  destruct fuel as [|fuel]; [done|]. destruct s as [|c s]; [done|]. rewrite each_byte_cons. intros [Hc _].
  cbn [trim_left]. by rewrite space_width_visible.
Qed.

Lemma TrimSpace_visible s : each_byte visible s -> TrimSpace s = s.
Proof.
  intros H. unfold TrimSpace. rewrite trim_left_visible by done.
  induction s as [|c s IH]; [done|]. cbn [trim_right]. rewrite trim_left_visible by done.
  rewrite bool_decide_false by done. apply each_byte_cons in H as [_ H]. by rewrite IH.
Qed.

Lemma ToLower_visible s : each_byte visible_lower s -> ToLower s = s.
Proof.
  induction s as [|c s IH]; [done|]. rewrite each_byte_cons. intros [[Hc Hl] Hs]. specialize (IH Hs).
  assert (lower_byte c = c) as Elow.
  { unfold lower_byte. destruct ((65 <=? byte_val c) && (byte_val c <=? 90)) eqn:E; [|done]. breflect. lia. }
  cbn [ToLower]. destruct s as [|d s]; [by rewrite Elow|].
  rewrite !(bool_decide_false (byte_val c = _)) by lia. cbn [andb]. rewrite Elow.
  by destruct s; rewrite IH.
Qed.
