(* ===== verification/GoLanguage.v ===== *)
(** * The language of an anchored pattern

    The identifiers of the program are matched by anchored patterns of classes,
    sequences, alternatives and bounded repetitions. For these the backtracking
    matcher accepts exactly the language of the pattern, which gives the length of
    what it accepts and inclusions between patterns. *)

From S2P Require Import Prelude GoStrings GoRegexp.

(** Patterns without unbounded repetitions and assertions. *)
Fixpoint simple (r : regexp) : bool :=
  match r with
  | Empty | Class _ => true
  | Seq r1 r2 | Alt r1 r2 => simple r1 && simple r2
  | Group _ r => simple r
  | _ => false
  end.

Fixpoint lang (r : regexp) (gs : list glyph) : Prop :=
  match r with
  | Empty => gs = []
  | Class p => exists g, gs = [g] /\ p (rune g) = true
  | Seq r1 r2 => exists a b, gs = a ++ b /\ lang r1 a /\ lang r2 b
  | Alt r1 r2 => lang r1 gs \/ lang r2 gs
  | Group _ r => lang r gs
  | _ => False
  end.

Lemma mt_sound {R} r (k : position -> captures -> option R) s c x : simple r = true -> mt r k s c = Some x ->
  exists gs s' c', rest s = gs ++ rest s' /\ lang r gs /\ k s' c' = Some x.
Proof.
  revert k s c x. induction r as [| p | r1 IH1 r2 IH2 | r1 IH1 r2 IH2 | g r IH | n r IH | | |];
    intros k s c x Hs H; cbn [mt] in H; cbn [simple] in Hs; try done.
  - exists [], s, c. done.
  - unfold advance in H. destruct (rest s) as [|gl gs] eqn:Er; [done|]. cbn in H.
    destruct (p (rune gl)) eqn:Ep; [|done]. exists [gl], (Position (Some (rune gl)) (S (idx s)) gs), c. cbn. split_and!; [done|by eauto|done].
  - apply andb_true_iff in Hs as [Hs1 Hs2]. apply IH1 in H as (a & s1 & c1 & E1 & L1 & H); [|done].
    apply IH2 in H as (b & s2 & c2 & E2 & L2 & H); [|done]. exists (a ++ b), s2, c2. split_and!; [by rewrite E1, E2, app_assoc| |done].
    cbn. eauto.
  - apply andb_true_iff in Hs as [Hs1 Hs2]. unfold or_else in H. cbn [lang]. destruct (mt r1 k s c) eqn:E1.
    + injection H as ->. apply IH1 in E1 as (a & s1 & c1 & ? & ? & ?); [|done]. exists a, s1, c1. auto.
    + apply IH2 in H as (a & s1 & c1 & ? & ? & ?); [|done]. exists a, s1, c1. auto.
  - apply IH in H as (a & s1 & c1 & ? & ? & ?); [|done]. eexists a, s1, _. eauto.
Qed.

Lemma mt_complete {R} r (k : position -> captures -> option R) s c gs tl : lang r gs -> rest s = gs ++ tl ->
  (forall s' c', rest s' = tl -> is_Some (k s' c')) -> is_Some (mt r k s c).
Proof.
  revert k s c gs tl. induction r as [| p | r1 IH1 r2 IH2 | r1 IH1 r2 IH2 | g r IH | n r IH | | |];
    intros k s c gs tl Hl Hs Hk; cbn [mt]; cbn [lang] in Hl; try done.
  - subst gs. by apply Hk.
  - destruct Hl as (g & -> & Hp). unfold advance. rewrite Hs. cbn. rewrite Hp. by apply Hk.
  - destruct Hl as (a & b & -> & H1 & H2). rewrite <- app_assoc in Hs. eapply IH1; [exact H1|exact Hs|]. intros s' c' Hs'.
    eapply IH2; [exact H2|exact Hs'|done].
  - unfold or_else. destruct Hl as [Hl|Hl].
    + destruct (IH1 k s c gs tl Hl Hs Hk) as [x ->]. eauto.
    + destruct (mt r1 k s c); [eauto|]. by eapply IH2.
  - eapply IH; [exact Hl|exact Hs|]. intros s' c' Hs'. by apply Hk.
Qed.

Lemma match_whole_lang r s : simple r = true -> MatchString (whole r) s = true <-> lang r (runes_of s).
Proof.
  intros Hr. unfold MatchString. split.
  - intros H. assert (exists x, match_here (whole r) (Position None 0 (runes_of s)) = Some x) as [x Hm].
    { destruct (runes_of s) as [|g gs]; cbn [find_from] in H; destruct (match_here _ _) as [[e c]|]; eauto; [done|].
      by rewrite find_from_whole_prev in H. }
    unfold match_here, whole in Hm. cbn [mt prev] in Hm. apply mt_sound in Hm as (gs & s' & c' & E & Hl & Hk); [|done].
    cbn in E, Hk. destruct (rest s'); [|done]. by rewrite E, app_nil_r.
  - intros Hl. assert (is_Some (match_here (whole r) (Position None 0 (runes_of s)))) as [[e c] Hm].
    { unfold match_here, whole. cbn [mt prev]. eapply (mt_complete r _ _ _ (runes_of s) []); [exact Hl|by rewrite app_nil_r|].
      intros s' c' ->. eauto. }
    destruct (runes_of s); cbn [find_from]; by rewrite Hm.
Qed.

(** ** Lengths *)
Fixpoint re_widths (r : regexp) : nat * nat :=
  match r with
  | Class _ => (1, 1)
  | Seq r1 r2 => ((re_widths r1).1 + (re_widths r2).1, (re_widths r1).2 + (re_widths r2).2)
  | Alt r1 r2 => (Nat.min (re_widths r1).1 (re_widths r2).1, Nat.max (re_widths r1).2 (re_widths r2).2)
  | Group _ r => re_widths r
  | _ => (0, 0)
  end%nat.

Lemma lang_widths r gs : lang r gs -> ((re_widths r).1 <= length gs <= (re_widths r).2)%nat.
Proof.
  revert gs. induction r as [| p | r1 IH1 r2 IH2 | r1 IH1 r2 IH2 | g r IH | n r IH | | |]; intros gs Hl; cbn [lang re_widths] in *; try done.
  - by subst.
  - destruct Hl as (g & -> & _). cbn. lia.
  - destruct Hl as (a & b & -> & H1 & H2). rewrite length_app. specialize (IH1 _ H1). specialize (IH2 _ H2). cbn. lia.
  - cbn. destruct Hl as [Hl|Hl]; [specialize (IH1 _ Hl)|specialize (IH2 _ Hl)]; lia.
  - by apply IH.
Qed.

Lemma each_byte_ascii s : each_byte (fun z => z < 128) s -> str_forall is_ascii s = true.
Proof.
  unfold each_byte, str_forall. intros H. apply forallb_forall. intros c Hc. rewrite Forall_forall in H. apply Z.ltb_lt, H.
  by apply list_elem_of_In.
Qed.

Lemma length_str_glyphs s : length (str_glyphs s) = String.length s.
Proof. unfold str_glyphs. rewrite length_fmap. induction s as [|c s IH]; cbn; [done|]. by rewrite IH. Qed.

(** What an anchored pattern over ASCII classes accepts, byte by byte. *)
Lemma match_ascii_lang r s : simple r = true -> classes_in (fun z => z < 128) r ->
  MatchString (whole r) s = true -> lang r (str_glyphs s) /\ str_forall is_ascii s = true.
Proof.
  intros Hr Hc Hm. pose proof (match_whole_bytes _ r s (fun z H => H) Hc Hm) as Hb. apply each_byte_ascii in Hb. split; [|done].
  rewrite <- runes_of_ascii by done. by apply match_whole_lang.
Qed.

Lemma match_length r s : simple r = true -> classes_in (fun z => z < 128) r ->
  MatchString (whole r) s = true -> ((re_widths r).1 <= String.length s <= (re_widths r).2)%nat.
Proof.
  intros Hr Hc Hm. destruct (match_ascii_lang r s Hr Hc Hm) as [Hl _]. apply lang_widths in Hl. by rewrite length_str_glyphs in Hl.
Qed.

(** Classes below 128, decided on the bounds of their ranges. *)
Definition ascii_class (p : Z -> bool) : Prop := forall z, p z = true -> z < 128.
Lemma ascii_rng a b : code b < 128 -> ascii_class (rng a b).
Proof. intros H z. unfold rng. lia. Qed.
Lemma ascii_union p q : ascii_class p -> ascii_class q -> ascii_class (p ⊎ q).
Proof. intros Hp Hq z [?|?]%orb_true_iff; auto. Qed.
Lemma ascii_one_of s : forallb (fun c => byte_val c <? 128) (String.list_ascii_of_string s) = true -> ascii_class (one_of s).
Proof.
  intros H z Hz. unfold one_of in Hz. apply existsb_exists in Hz as (c & Hc & ->%bool_decide_eq_true).
  rewrite forallb_forall in H. specialize (H c Hc). lia.
Qed.
Lemma ascii_letter c : c < 128 -> ascii_class (fun z => z =? c).
Proof. by intros H z ->%bool_decide_eq_true. Qed.

Ltac ascii_class :=
  lazymatch goal with
  | |- ascii_class (rng _ _) => apply ascii_rng; vm_compute; reflexivity
  | |- ascii_class (cunion _ _) => apply ascii_union; ascii_class
  | |- ascii_class (one_of _) => apply ascii_one_of; vm_compute; reflexivity
  | |- ascii_class (fun z => z =? _) => apply ascii_letter; vm_compute; reflexivity
  | |- ascii_class ?p => unfold p; ascii_class
  end.
Ltac ascii_classes :=
  cbn [classes_in seqs star plus opt lit];
  repeat lazymatch goal with
         | |- classes_in _ (upto _ _) => apply classes_in_upto
         | |- classes_in _ (times _ _) => apply classes_in_times
         | |- classes_in _ (Alt _ _) => split
         | |- classes_in _ (Seq _ _) => split
         | |- classes_in _ (Class ?p) => change (ascii_class p); ascii_class
         | |- forall z, (z =? ?c) = true -> _ => change (ascii_class (fun z => z =? c)); ascii_class
         | |- forall z, ?p z = true -> _ => change (ascii_class p); ascii_class
         | |- _ /\ _ => split
         | |- True => exact I
         end.
(** The length of what [^r$] accepts, from a hypothesis [H : MatchString _ s = true]. *)
Ltac pattern_length H :=
  refine (match_length _ _ _ _ H); [vm_compute; reflexivity|ascii_classes].

(** ** Repetitions of a class *)
Lemma lang_times_class p n gs : lang (times n (Class p)) gs <-> length gs = n /\ Forall (fun g => p (rune g) = true) gs.
Proof.
  revert gs. induction n as [|n IH]; intros gs; cbn [times lang].
  - split; [intros ->; by split|]. intros [H _]. by destruct gs.
  - split.
    + intros (a & b & -> & (g & -> & Hp) & Hb). apply IH in Hb as [<- Hb]. split; [done|]. by constructor.
    + intros [Hl Hf]. destruct gs as [|g gs]; [done|]. apply Forall_cons in Hf as [Hp Hf]. exists [g], gs. split_and!; [done|by eauto|].
      apply IH. split; [|done]. by injection Hl.
Qed.

Lemma lang_upto_class p n gs : lang (upto n (Class p)) gs <-> (length gs <= n)%nat /\ Forall (fun g => p (rune g) = true) gs.
Proof.
  revert gs. induction n as [|n IH]; intros gs; cbn [upto lang].
  - split; [intros ->; by split|]. intros [H _]. destruct gs; [done|]. cbn in H. lia.
  - unfold opt. cbn [lang]. split.
    + intros [(a & b & -> & (g & -> & Hp) & Hb)| ->]; [|split; [cbn; lia|done]]. apply IH in Hb as [Hl Hb]. split; [cbn; lia|]. by constructor.
    + intros [Hl Hf]. destruct gs as [|g gs]; [by right|left]. apply Forall_cons in Hf as [Hp Hf]. exists [g], gs. split_and!; [done|by eauto|].
      apply IH. split; [cbn in Hl; lia|done].
Qed.

Lemma simple_times n r : simple r = true -> simple (times n r) = true.
Proof. intros H. induction n as [|n IH]; cbn; [done|]. by rewrite H, IH. Qed.
Lemma simple_upto n r : simple r = true -> simple (upto n r) = true.
Proof. intros H. induction n as [|n IH]; cbn; [done|]. by rewrite H, IH. Qed.
