(* ===== verification/Sha256.v ===== *)
(** * [crypto/sha256] and the digest strings of the repository

    SHA-256 (FIPS 180-4) on byte strings, executable, and the printed form
    [sha256:] followed by 64 lower-case hex digits that the records carry. *)

From S2P Require Import Prelude GoStrings GoRegexp.

Definition u32 (z : Z) : Z := Z.land z 4294967295.
Definition add32 (a b : Z) : Z := u32 (a + b).
Definition rotr (n x : Z) : Z := Z.lor (Z.shiftr x n) (u32 (Z.shiftl x (32 - n))).

(** The constants of the standard: the first 32 bits of the fractional parts of
    the cube roots of the first 64 primes and of the square roots of the first 8. *)
Definition is_prime (n : nat) : bool := forallb (fun d => negb (n mod d =? 0)%nat) (seq 2 (n - 2)).
Definition primes : list nat := List.filter is_prime (seq 2 310).
(** The largest [r] below [2 ^ bits] with [r ^ k <= n], bit by bit. *)
Fixpoint root (k : Z) (bits : nat) (r n : Z) : Z :=
  match bits with
  | O => r
  | S bits =>
      let c := r + Z.shiftl 1 (Z.of_nat bits) in
      root k bits (if Z.pow c k <=? n then c else r) n
  end.
Definition root_fraction (k : Z) (p : nat) : Z := u32 (root k 40 0 (Z.of_nat p * Z.pow 2 (32 * k))).
Definition K256 : list Z := Eval vm_compute in root_fraction 3 <$> primes.
Definition H256 : list Z := Eval vm_compute in root_fraction 2 <$> take 8 primes.

Definition bytes_of (s : string) : list Z := byte_val <$> String.list_ascii_of_string s.
Definition string_of_bytes (l : list Z) : string := String.string_of_list_ascii (chr <$> l).

(** [n] big-endian bytes of [z]. *)
Fixpoint be_bytes (n : nat) (z : Z) : list Z :=
  match n with O => [] | S n => be_bytes n (Z.shiftr z 8) ++ [Z.land z 255] end.

Definition pad (msg : list Z) : list Z :=
  let len := length msg in
  let zeros := ((119 - len mod 64) mod 64)%nat in
  msg ++ 128 :: repeat 0 zeros ++ be_bytes 8 (8 * Z.of_nat len).

Fixpoint words_of (l : list Z) : list Z :=
  match l with
  | a :: b :: c :: d :: rest => ((a * 256 + b) * 256 + c) * 256 + d :: words_of rest
  | _ => []
  end.

(** The message schedule, latest word first. *)
Fixpoint schedule (n : nat) (w : list Z) : list Z :=
  match n with
  | O => w
  | S n =>
      let at_ i := nth i w 0 in
      let s0 := Z.lxor (Z.lxor (rotr 7 (at_ 14%nat)) (rotr 18 (at_ 14%nat))) (Z.shiftr (at_ 14%nat) 3) in
      let s1 := Z.lxor (Z.lxor (rotr 17 (at_ 1%nat)) (rotr 19 (at_ 1%nat))) (Z.shiftr (at_ 1%nat) 10) in
      schedule n (add32 (add32 (at_ 15%nat) s0) (add32 (at_ 6%nat) s1) :: w)
  end.

Definition round (st : list Z) (kw : Z * Z) : list Z :=
  match st with
  | [a; b; c; d; e; f; g; h] =>
      let s1 := Z.lxor (Z.lxor (rotr 6 e) (rotr 11 e)) (rotr 25 e) in
      let ch := Z.lxor (Z.land e f) (Z.land (Z.lxor e 4294967295) g) in
      let t1 := add32 (add32 h s1) (add32 ch (add32 kw.1 kw.2)) in
      let s0 := Z.lxor (Z.lxor (rotr 2 a) (rotr 13 a)) (rotr 22 a) in
      let maj := Z.lxor (Z.lxor (Z.land a b) (Z.land a c)) (Z.land b c) in
      [add32 t1 (add32 s0 maj); a; b; c; add32 d t1; e; f; g]
  | _ => st
  end.

Definition block (h : list Z) (chunk : list Z) : list Z :=
  let w := rev (schedule 48 (rev (words_of chunk))) in
  zip_with add32 h (fold_left round (zip K256 w) h).

Fixpoint blocks (n : nat) (h : list Z) (l : list Z) : list Z :=
  match n with
  | O => h
  | S n => blocks n (block h (take 64 l)) (drop 64 l)
  end.

(** [sha256.Sum256] *)
Definition Sum256 (s : string) : string :=
  let p := pad (bytes_of s) in
  string_of_bytes (concat (be_bytes 4 <$> blocks (length p / 64) H256 p)).

(** ["sha256:" + hex.EncodeToString(hash.Sum(nil))] *)
Definition digest_string (s : string) : string := "sha256:" +:+ EncodeToString (Sum256 s).

(** Known answers of FIPS 180-4. *)
Example sha256_empty :
  digest_string "" = "sha256:e3b0c44298fc1c149afbf4c8996fb92427ae41e4649b934ca495991b7852b855".
Proof. vm_compute. reflexivity. Qed.
Example sha256_abc :
  digest_string "abc" = "sha256:ba7816bf8f01cfea414140de5dae2223b00361a396177a9cb410ff61f20015ad".
Proof. vm_compute. reflexivity. Qed.
Example sha256_two_blocks :
  digest_string "abcdbcdecdefdefgefghfghighijhijkijkljklmklmnlmnomnopnopq" =
  "sha256:248d6a61d20638b8e5c026930c3e6039a33ce45964ff2167f6ecedd419db06c1".
Proof. vm_compute. reflexivity. Qed.

(** [^sha256:[a-f0-9]{64}$] *)
Definition sourceDigestPattern : regexp := whole (Seq (lit "sha256:") (times 64 (Class hexlow))).
Definition digestPattern : regexp := sourceDigestPattern.

(** ** Every digest string matches the pattern *)
Lemma length_round st kw : length (round st kw) = length st.
Proof. destruct st as [|a [|b [|c [|d [|e [|f [|g [|h [|i st]]]]]]]]]; reflexivity. Qed.

Lemma length_rounds kws st : length (fold_left round kws st) = length st.
Proof. revert st. induction kws as [|kw kws IH]; intros st; [done|]. cbn [fold_left]. by rewrite IH, length_round. Qed.

Lemma length_block h chunk : length (block h chunk) = length h.
Proof. unfold block. rewrite length_zip_with, length_rounds. lia. Qed.

Lemma length_blocks n h l : length (blocks n h l) = length h.
Proof. revert h l. induction n as [|n IH]; intros h l; [done|]. cbn [blocks]. by rewrite IH, length_block. Qed.

Lemma length_be_bytes n z : length (be_bytes n z) = n.
Proof. revert z. induction n as [|n IH]; intros z; [done|]. cbn [be_bytes]. rewrite length_app, IH. cbn. lia. Qed.

Lemma length_string_of_bytes l : String.length (string_of_bytes l) = length l.
Proof. unfold string_of_bytes. induction l as [|b l IH]; cbn; [done|]. by f_equal. Qed.

Lemma length_concat_words l : length (concat (be_bytes 4 <$> l)) = (4 * length l)%nat.
Proof.
  induction l as [|w l IH]; [done|]. cbn [fmap list_fmap concat]. rewrite length_app, IH, length_be_bytes. cbn. lia.
Qed.

Lemma length_Sum256 s : String.length (Sum256 s) = 32%nat.
Proof.
  unfold Sum256. rewrite length_string_of_bytes, length_concat_words, length_blocks. reflexivity.
Qed.

Lemma digest_string_matches s : MatchString sourceDigestPattern (digest_string s) = true.
Proof. apply match_hex_id; [done|]. by rewrite length_Sum256. Qed.

(** Hex printing is injective, so equal digests are equal hashes. *)
Lemma hex_digit_inj a b : 0 <= a < 16 -> 0 <= b < 16 -> hex_digit a = hex_digit b -> a = b.
Proof.
  intros Ha Hb. assert (HF : Forall (fun x => Forall (fun y => hex_digit x = hex_digit y -> x = y) (seqZ 0 16)) (seqZ 0 16)).
  { repeat (constructor; [repeat (constructor; [vm_compute; congruence|]); constructor|]). constructor. }
  rewrite Forall_forall in HF. specialize (HF a ltac:(apply elem_of_seqZ; lia)). rewrite Forall_forall in HF.
  apply HF. apply elem_of_seqZ. lia.
Qed.

Lemma byte_val_inj a b : byte_val a = byte_val b -> a = b.
Proof.
  unfold byte_val. intros H%N2Z.inj. by rewrite <- (ascii_N_embedding a), <- (ascii_N_embedding b), H.
Qed.

Lemma EncodeToString_inj s t : EncodeToString s = EncodeToString t -> s = t.
Proof.
  revert t. induction s as [|a s IH]; intros [|b t]; try done. cbn [EncodeToString]. intros [= H1 H2 H3].
  pose proof (byte_val_range a). pose proof (byte_val_range b).
  apply hex_digit_inj in H1; [|Z.to_euclidean_division_equations; lia..].
  apply hex_digit_inj in H2; [|Z.to_euclidean_division_equations; lia..].
  f_equal; [|by apply IH]. apply byte_val_inj. Z.to_euclidean_division_equations. lia.
Qed.

Lemma string_app_inj p a b : p +:+ a = p +:+ b -> a = b.
Proof. induction p as [|c p IH]; [done|]. rewrite !string_app_cons. intros [= H]. by apply IH. Qed.

(** Equal digest strings are equal hashes. *)
Lemma digest_string_inj s t : digest_string s = digest_string t -> Sum256 s = Sum256 t.
Proof. unfold digest_string. intros E. apply EncodeToString_inj. exact (string_app_inj _ _ _ E). Qed.
