(* ===== verification/GoJson.v ===== *)
(** * The text form of JSON: [encoding/json]

    JSON values as [json.Marshal] writes them, and the scanner and parser of
    [json.Decoder]. How values of Go types are encoded and decoded is [GoReflect].
    The scanner's nesting limit of 10000 is left out: a deeper text is refused by
    every decoder of the development, whose types do not nest that deep. The main
    lemma, [parse_write], is that what is written is read back. *)

From stdpp Require Import pretty.
From S2P Require Import Prelude GoStrings GoRegexp.

#[local] Set Warnings "-register-all".

Inductive json :=
| JNull
| JBool (b : bool)
| JNum (literal : string)
| JStr (s : string)
| JArr (l : list json)
| JObj (members : list (string * json)).

(** ** Writing *)
Definition quote_byte : ascii := chr 34.
Definition escape_byte : ascii := chr 92.
Definition u00 (v : Z) : string :=
  String escape_byte ("u00" +:+ String (hex_digit (v / 16)) (String (hex_digit (v mod 16)) "")).

(** One rune of [appendString] with HTML escaping, as [json.Marshal] uses it. *)
Definition write_glyph (g : glyph) : string :=
  let r := rune g in
  if (r =? 34) || (r =? 92) then String escape_byte (bytes g)
  else if r =? 8 then String escape_byte "b"
  else if r =? 12 then String escape_byte "f"
  else if r =? 10 then String escape_byte "n"
  else if r =? 13 then String escape_byte "r"
  else if r =? 9 then String escape_byte "t"
  else if (r <? 32) || (r =? 60) || (r =? 62) || (r =? 38) then u00 r
  else if (r =? RuneError) && bool_decide (String.length (bytes g) = 1%nat) then String escape_byte "ufffd"
  else if r =? 8232 then String escape_byte "u2028"
  else if r =? 8233 then String escape_byte "u2029"
  else bytes g.

Definition write_string (s : string) : string :=
  String quote_byte (foldr (fun g acc => write_glyph g +:+ acc) (String quote_byte "") (runes_of s)).

Fixpoint write (j : json) : string :=
  match j with
  | JNull => "null"
  | JBool b => if b then "true" else "false"
  | JNum literal => literal
  | JStr s => write_string s
  | JArr l => "[" +:+ Join (write <$> l) "," +:+ "]"
  | JObj members => "{" +:+ Join ((fun m => write_string m.1 +:+ ":" +:+ write m.2) <$> members) "," +:+ "}"
  end.

(** A writer with white space: [nl d] before an element or a closing bracket at depth
    [d], [gap] after a colon. [json.Marshal] leaves both empty; [json.MarshalIndent]
    with two spaces gives [MarshalIndent] below. Empty arrays and objects stay compact. *)
Section Layout.
Context (nl : nat -> string) (gap : string).

Fixpoint write_in (d : nat) (j : json) : string :=
  match j with
  | JArr [] => "[]"
  | JArr l => "[" +:+ nl (S d) +:+ Join (write_in (S d) <$> l) ("," +:+ nl (S d)) +:+ nl d +:+ "]"
  | JObj [] => "{}"
  | JObj members =>
      "{" +:+ nl (S d) +:+ Join ((fun m => write_string m.1 +:+ ":" +:+ gap +:+ write_in (S d) m.2) <$> members) ("," +:+ nl (S d))
      +:+ nl d +:+ "}"
  | _ => write j
  end.
End Layout.

Fixpoint indent (d : nat) : string := match d with O => "" | S d => "  " +:+ indent d end.
Definition newline_indent (d : nat) : string := String (chr 10) (indent d).
Definition write_indented : json -> string := write_in newline_indent " " 0.

(** ** Scanning *)
Definition is_ws (c : ascii) : bool :=
  let v := byte_val c in (v =? 32) || (v =? 9) || (v =? 10) || (v =? 13).
Fixpoint skip_ws (s : string) : string :=
  match s with
  | String c s1 => if is_ws c then skip_ws s1 else s
  | EmptyString => s
  end.

Definition is_digit (c : ascii) : bool := (48 <=? byte_val c) && (byte_val c <=? 57).
Definition hex_val (c : ascii) : option Z :=
  let v := byte_val c in
  if (48 <=? v) && (v <=? 57) then Some (v - 48)
  else if (97 <=? v) && (v <=? 102) then Some (v - 87)
  else if (65 <=? v) && (v <=? 70) then Some (v - 55)
  else None.

(** [getu4] without the [\u] *)
Definition hex4 (s : string) : option (Z * string) :=
  match s with
  | String a (String b (String c (String d rest))) =>
      match hex_val a, hex_val b, hex_val c, hex_val d with
      | Some a, Some b, Some c, Some d => Some (((a * 16 + b) * 16 + c) * 16 + d, rest)
      | _, _, _, _ => None
      end
  | _ => None
  end.

(** [utf8.AppendRune] *)
Definition encode_rune (r : Z) : string :=
  let r := if (r <? 0) || (1114111 <? r) || ((55296 <=? r) && (r <=? 57343)) then RuneError else r in
  if r <? 128 then String (chr r) ""
  else if r <? 2048 then String (chr (192 + r / 64)) (String (chr (128 + r mod 64)) "")
  else if r <? 65536 then
    String (chr (224 + r / 4096)) (String (chr (128 + r / 64 mod 64)) (String (chr (128 + r mod 64)) ""))
  else
    String (chr (240 + r / 262144)) (String (chr (128 + r / 4096 mod 64))
      (String (chr (128 + r / 64 mod 64)) (String (chr (128 + r mod 64)) ""))).

(** The character that a one-letter escape stands for. *)
Definition simple_escape (c : ascii) : option string :=
  let v := byte_val c in
  if (v =? 34) || (v =? 92) || (v =? 47) then Some (String c "")
  else if v =? 98 then Some (String (chr 8) "")
  else if v =? 102 then Some (String (chr 12) "")
  else if v =? 110 then Some (String (chr 10) "")
  else if v =? 114 then Some (String (chr 13) "")
  else if v =? 116 then Some (String (chr 9) "")
  else None.

Definition surrogate (r : Z) : bool := (55296 <=? r) && (r <=? 57343).
(** [utf16.DecodeRune] *)
Definition decode_pair (r1 r2 : Z) : option Z :=
  if (55296 <=? r1) && (r1 <? 56320) && (56320 <=? r2) && (r2 <? 57344)
  then Some ((r1 - 55296) * 1024 + (r2 - 56320) + 65536) else None.

(** After [\u] and its code unit [r]: the text it stands for and what is left; a
    second half of a surrogate pair is consumed with the first. *)
Definition unicode_escape (r : Z) (s : string) : string * string :=
  if surrogate r then
    match s with
    | String a (String b s2) =>
        if (byte_val a =? 92) && (byte_val b =? 117) then
          match hex4 s2 with
          | Some (r2, s3) => match decode_pair r r2 with Some p => (encode_rune p, s3) | None => (encode_rune RuneError, s) end
          | None => (encode_rune RuneError, s)
          end
        else (encode_rune RuneError, s)
    | _ => (encode_rune RuneError, s)
    end
  else (encode_rune r, s).

(** The contents of a string after its opening quote, and the text after the
    closing one. *)
Fixpoint scan_string (fuel : nat) (s : string) : option (string * string) :=
  match fuel, s with
  | S fuel, String c s1 =>
      let v := byte_val c in
      if v =? 34 then Some ("", s1)
      else if v =? 92 then
        match s1 with
        | String e s2 =>
            match simple_escape e with
            | Some t => p ← scan_string fuel s2; Some (t +:+ p.1, p.2)
            | None =>
                if byte_val e =? 117 then
                  u ← hex4 s2;
                  let '(t, s3) := unicode_escape u.1 u.2 in
                  p ← scan_string fuel s3; Some (t +:+ p.1, p.2)
                else None
            end
        | EmptyString => None
        end
      else if v <? 32 then None
      else
        let '(g, s2) := decode_rune c s1 in
        p ← scan_string fuel s2; Some (encode_rune (rune g) +:+ p.1, p.2)
  | _, _ => None
  end.

(** Digits at the head of a text. *)
Fixpoint scan_digits (s : string) : string * string :=
  match s with
  | String c s1 => if is_digit c then let '(d, rest) := scan_digits s1 in (String c d, rest) else ("", s)
  | EmptyString => ("", s)
  end.

Definition scan_integer (s : string) : option (string * string) :=
  match s with
  | String c s1 =>
      if byte_val c =? 48 then Some (String c "", s1)
      else if is_digit c then Some (scan_digits s)
      else None
  | EmptyString => None
  end.
Definition scan_fraction (s : string) : option (string * string) :=
  match s with
  | String c s1 =>
      if byte_val c =? 46 then let '(d, rest) := scan_digits s1 in if d =? "" then None else Some (String c d, rest)
      else Some ("", s)
  | EmptyString => Some ("", s)
  end.
Definition scan_exponent (s : string) : option (string * string) :=
  match s with
  | String c s1 =>
      if (byte_val c =? 101) || (byte_val c =? 69) then
        let '(sign, s2) := match s1 with
                           | String e s2 => if (byte_val e =? 43) || (byte_val e =? 45) then (String e "", s2) else ("", s1)
                           | EmptyString => ("", s1)
                           end in
        let '(d, rest) := scan_digits s2 in
        if d =? "" then None else Some (String c (sign +:+ d), rest)
      else Some ("", s)
  | EmptyString => Some ("", s)
  end.
Definition scan_number (s : string) : option (string * string) :=
  let '(sign, s1) := match s with
                     | String c s1 => if byte_val c =? 45 then (String c "", s1) else ("", s)
                     | EmptyString => ("", s)
                     end in
  i ← scan_integer s1;
  f ← scan_fraction i.2;
  e ← scan_exponent f.2;
  Some (sign +:+ i.1 +:+ f.1 +:+ e.1, e.2).

(** ** Parsing *)
Definition expect (c : ascii) (s : string) : option string :=
  match skip_ws s with String d s1 => if ascii_dec c d then Some s1 else None | EmptyString => None end.
Definition literal_at (word s : string) : option string :=
  if HasPrefix s word then Some (drop_bytes (String.length word) s) else None.
Definition peek (s : string) : Z := match skip_ws s with String c _ => byte_val c | EmptyString => -1 end.

Fixpoint read_value (fuel : nat) (s : string) : option (json * string) :=
  match fuel with
  | O => None
  | S fuel =>
      let s := skip_ws s in
      let c := peek s in
      if c =? 34 then
        s1 ← expect (chr 34) s; p ← scan_string fuel s1; Some (JStr p.1, p.2)
      else if c =? 91 then
        s1 ← expect (chr 91) s;
        if peek s1 =? 93 then s2 ← expect (chr 93) s1; Some (JArr [], s2)
        else p ← read_elements fuel s1; Some (JArr p.1, p.2)
      else if c =? 123 then
        s1 ← expect (chr 123) s;
        if peek s1 =? 125 then s2 ← expect (chr 125) s1; Some (JObj [], s2)
        else p ← read_members fuel s1; Some (JObj p.1, p.2)
      else if c =? 110 then s1 ← literal_at "null" s; Some (JNull, s1)
      else if c =? 116 then s1 ← literal_at "true" s; Some (JBool true, s1)
      else if c =? 102 then s1 ← literal_at "false" s; Some (JBool false, s1)
      else p ← scan_number s; Some (JNum p.1, p.2)
  end
with read_elements (fuel : nat) (s : string) : option (list json * string) :=
  match fuel with
  | O => None
  | S fuel =>
      v ← read_value fuel s;
      if peek v.2 =? 44 then
        s1 ← expect (chr 44) v.2; p ← read_elements fuel s1; Some (v.1 :: p.1, p.2)
      else s1 ← expect (chr 93) v.2; Some ([v.1], s1)
  end
with read_members (fuel : nat) (s : string) : option (list (string * json) * string) :=
  match fuel with
  | O => None
  | S fuel =>
      s1 ← expect (chr 34) s;
      k ← scan_string fuel s1;
      s2 ← expect (chr 58) k.2;
      v ← read_value fuel s2;
      if peek v.2 =? 44 then
        s3 ← expect (chr 44) v.2; p ← read_members fuel s3; Some ((k.1, v.1) :: p.1, p.2)
      else s3 ← expect (chr 125) v.2; Some ([(k.1, v.1)], s3)
  end.

(** [Decode] of a whole text: one value, then nothing but white space, which is
    what a second [Decode] that returns [io.EOF] shows. *)
Definition parse_json (s : string) : option json :=
  p ← read_value (2 * String.length s + 2) s;
  if skip_ws p.2 =? "" then Some p.1 else None.

Example parse_ex : parse_json (write (JObj [("a", JArr [JNum "1"; JStr "x<y"; JNull]); ("b", JObj [])])) =
  Some (JObj [("a", JArr [JNum "1"; JStr "x<y"; JNull]); ("b", JObj [])]).
Proof. vm_compute. reflexivity. Qed.
Example parse_ex2 : parse_json " [ -1.5e+3 , true ] " = Some (JArr [JNum "-1.5e+3"; JBool true]).
Proof. vm_compute. reflexivity. Qed.
Example parse_ex3 : (parse_json "[1,]", parse_json "01", parse_json "{} x") = (None, None, None).
Proof. vm_compute. reflexivity. Qed.

(** ** Valid UTF-8 *)
Ltac byte_cases :=
  repeat match goal with
  | |- context [bool_decide (?x = ?y)] => rewrite (bool_decide_false (x = y)) by lia
  | |- context [Z.ltb ?x ?y] => destruct (Z.ltb_spec x y); [lia|]
  end.

(** [utf8.ValidString]: no byte decodes to an error. *)
Definition invalid_glyph (g : glyph) : bool := (rune g =? RuneError) && bool_decide (String.length (bytes g) = 1%nat).
Definition ValidString (s : string) : bool := forallb (fun g => negb (invalid_glyph g)) (runes_of s).
Definition text (s : string) : Prop := ValidString s = true.

#[local] Ltac Zify.zify_post_hook ::= Z.to_euclidean_division_equations.

Lemma chr_byte_val c : chr (byte_val c) = c.
Proof. unfold chr, byte_val. by rewrite N2Z.id, ascii_N_embedding. Qed.

Lemma chr_eq z c : z = byte_val c -> chr z = c.
Proof. intros ->. apply chr_byte_val. Qed.

(** A glyph that is not an error is its own encoding, and decodes again whatever
    follows it. *)
Lemma decode_rune_again a s1 g rest : decode_rune a s1 = (g, rest) -> invalid_glyph g = false ->
  encode_rune (rune g) = bytes g /\
  exists b s2, bytes g = String b s2 /\ forall t, decode_rune b (s2 +:+ t) = (g, t).
Proof.
  unfold decode_rune, invalid_glyph. intros H Hg. pose proof (byte_val_range a) as Ha.
  destruct (byte_val a <? 128) eqn:E1.
  { injection H as <- <-. cbn [rune bytes]. split.
    - unfold encode_rune. replace ((_ <? 0) || _ || _) with false by (symmetry; lia). rewrite E1. by rewrite chr_byte_val.
    - exists a, "". split; [done|]. intros t. by rewrite E1. }
  destruct s1 as [|b s2]; [injection H as <- <-; cbn in Hg; done|]. pose proof (byte_val_range b) as Hb.
  destruct ((194 <=? byte_val a) && (byte_val a <=? 223) && cont b) eqn:E2.
  { injection H as <- <-. cbn [rune bytes]. unfold cont in E2. split.
    - unfold encode_rune. replace ((_ <? 0) || _ || _) with false by (symmetry; lia).
      rewrite (proj2 (Z.ltb_ge _ _)), (proj2 (Z.ltb_lt _ _)) by lia. do 2 f_equal; [apply chr_eq; lia|f_equal; apply chr_eq; lia].
    - exists a, (String b ""). split; [done|]. intros t. rewrite E1, string_app_cons. cbv iota. unfold cont. rewrite E2. done. }
  destruct s2 as [|c s3]; [injection H as <- <-; cbn in Hg; done|]. pose proof (byte_val_range c) as Hc.
  set (lo3 := if byte_val a =? 224 then 160 else 128) in *. set (hi3 := if byte_val a =? 237 then 159 else 191) in *. cbv zeta in H.
  destruct ((224 <=? byte_val a) && (byte_val a <=? 239) && (lo3 <=? byte_val b) && (byte_val b <=? hi3) && cont c) eqn:E3.
  { assert (Hlo : 128 <= lo3 /\ (byte_val a = 224 -> lo3 = 160) /\ hi3 <= 191 /\ (byte_val a = 237 -> hi3 = 159)).
    { unfold lo3, hi3. repeat case_bool_decide; lia. }
    injection H as <- <-. cbn [rune bytes]. pose proof E3 as E3'. unfold cont in E3'. split.
    - unfold encode_rune. replace ((_ <? 0) || _ || _) with false by (symmetry; lia).
      rewrite (proj2 (Z.ltb_ge _ 128)), (proj2 (Z.ltb_ge _ 2048)), (proj2 (Z.ltb_lt _ _)) by lia.
      f_equal; [apply chr_eq; lia|f_equal; [apply chr_eq; lia|f_equal; apply chr_eq; lia]].
    - exists a, (String b (String c "")). split; [done|]. intros t. rewrite E1, !string_app_cons. cbv iota zeta. rewrite E2.
      fold lo3 hi3. rewrite E3. done. }
  destruct s3 as [|d s4]; [injection H as <- <-; cbn in Hg; done|]. pose proof (byte_val_range d) as Hd.
  set (lo4 := if byte_val a =? 240 then 144 else 128) in *. set (hi4 := if byte_val a =? 244 then 143 else 191) in *. cbv zeta in H.
  destruct ((240 <=? byte_val a) && (byte_val a <=? 244) && (lo4 <=? byte_val b) && (byte_val b <=? hi4) && cont c && cont d) eqn:E4;
    [|injection H as <- <-; cbn in Hg; done].
  assert (Hlo : 128 <= lo4 /\ (byte_val a = 240 -> lo4 = 144) /\ hi4 <= 191 /\ (byte_val a = 244 -> hi4 = 143)).
  { unfold lo4, hi4. repeat case_bool_decide; lia. }
  injection H as <- <-. cbn [rune bytes]. pose proof E4 as E4'. unfold cont in E4'. split.
  - unfold encode_rune. replace ((_ <? 0) || _ || _) with false by (symmetry; lia).
    rewrite (proj2 (Z.ltb_ge _ 128)), (proj2 (Z.ltb_ge _ 2048)), (proj2 (Z.ltb_ge _ 65536)) by lia.
    f_equal; [apply chr_eq; lia|f_equal; [apply chr_eq; lia|f_equal; [apply chr_eq; lia|f_equal; apply chr_eq; lia]]].
  - exists a, (String b (String c (String d ""))). split; [done|]. intros t. rewrite E1, !string_app_cons. cbv iota zeta. rewrite E2.
    fold lo3 hi3. rewrite E3. fold lo4 hi4. rewrite E4. done.
Qed.

Definition good_glyph (g : glyph) : Prop :=
  encode_rune (rune g) = bytes g /\ exists b s2, bytes g = String b s2 /\ forall t, decode_rune b (s2 +:+ t) = (g, t).

Lemma hex_val_digit n : 0 <= n < 16 -> hex_val (hex_digit n) = Some n.
Proof.
  intros H. assert (Hall : Forall (fun i => hex_val (hex_digit (Z.of_nat i)) = Some (Z.of_nat i)) (seq 0 16)) by (repeat constructor).
  rewrite Forall_forall in Hall. specialize (Hall (Z.to_nat n)). rewrite Z2Nat.id in Hall by lia. apply Hall, elem_of_seq. lia.
Qed.

(** One written glyph is scanned as its bytes. *)
Definition scans_as (w out : string) : Prop := forall fuel t, scan_string (S fuel) (w +:+ t) = (p ← scan_string fuel t; Some (out +:+ p.1, p.2)).

Lemma scans_simple e out : simple_escape e = Some out -> scans_as (String escape_byte (String e "")) out.
Proof. intros He fuel t. rewrite !string_app_cons. cbn [scan_string]. change (byte_val escape_byte) with 92. cbn. by rewrite He. Qed.

Lemma scans_unicode a b c d r : hex_val a = Some (r / 4096) -> hex_val b = Some (r / 256 mod 16) -> hex_val c = Some (r / 16 mod 16) ->
  hex_val d = Some (r mod 16) -> surrogate r = false ->
  scans_as (String escape_byte (String "u" (String a (String b (String c (String d "")))))) (encode_rune r).
Proof.
  intros Ha Hb Hc Hd Hs fuel t. rewrite !string_app_cons. cbn [scan_string]. change (byte_val escape_byte) with 92.
  cbn -[hex4 unicode_escape]. change (simple_escape "u") with (@None string). cbv iota. change (byte_val "u") with 117.
  cbn -[hex4 unicode_escape]. unfold hex4. rewrite Ha, Hb, Hc, Hd. cbn -[unicode_escape].
  assert (H1 : r / 4096 * 16 + r / 256 mod 16 = r / 256) by lia. assert (H2 : r / 256 * 16 + r / 16 mod 16 = r / 16) by lia.
  rewrite H1, H2. replace (r / 16 * 16 + r mod 16) with r by lia.
  unfold unicode_escape. by rewrite Hs.
Qed.

Lemma small_rune g b s2 : good_glyph g -> bytes g = String b s2 -> byte_val b < 128 -> s2 = "" /\ byte_val b = rune g.
Proof.
  intros (_ & b' & s2' & E & Hd) E' Hb. rewrite E in E'. injection E' as -> ->. specialize (Hd ""). unfold decode_rune in Hd.
  rewrite (proj2 (Z.ltb_lt _ _)) in Hd by done. rewrite string_app_nil_r in Hd. injection Hd as Hg ->. by rewrite <- Hg.
Qed.

Lemma ascii_glyph_bytes g : good_glyph g -> 0 <= rune g < 128 -> bytes g = String (chr (rune g)) "".
Proof.
  intros [He _] Hr. rewrite <- He. unfold encode_rune. replace ((_ <? 0) || _ || _) with false by (symmetry; lia).
  by rewrite (proj2 (Z.ltb_lt _ _)) by lia.
Qed.

Lemma scan_glyph g : good_glyph g -> 0 <= rune g -> invalid_glyph g = false -> scans_as (write_glyph g) (bytes g).
Proof.
  intros Hg Hr0 Hi. unfold write_glyph. set (r := rune g) in *.
  assert (Hc : forall z, 0 <= z < 128 -> r = z -> bytes g = String (chr z) "") by (intros z Hz E; rewrite <- E; apply ascii_glyph_bytes; [done|unfold r in *; lia]).
  destruct ((r =? 34) || (r =? 92)) eqn:E1.
  { apply orb_true_iff in E1 as [E%bool_decide_eq_true|E%bool_decide_eq_true];
      [rewrite (Hc 34) by (done || lia)|rewrite (Hc 92) by (done || lia)]; by apply scans_simple. }
  destruct (bool_decide_reflect (r = 8)) as [E|]; [rewrite (Hc 8) by (done || lia); by apply scans_simple|].
  destruct (bool_decide_reflect (r = 12)) as [E|]; [rewrite (Hc 12) by (done || lia); by apply scans_simple|].
  destruct (bool_decide_reflect (r = 10)) as [E|]; [rewrite (Hc 10) by (done || lia); by apply scans_simple|].
  destruct (bool_decide_reflect (r = 13)) as [E|]; [rewrite (Hc 13) by (done || lia); by apply scans_simple|].
  destruct (bool_decide_reflect (r = 9)) as [E|]; [rewrite (Hc 9) by (done || lia); by apply scans_simple|].
  destruct ((r <? 32) || (r =? 60) || (r =? 62) || (r =? 38)) eqn:E2.
  { assert (r < 63) by (clear -E2; repeat (apply orb_true_iff in E2 as [E2|E2]); rewrite ?bool_decide_eq_true in E2; lia). destruct Hg as [<- _]. fold r. unfold u00. apply scans_unicode;
      [rewrite (Z.div_small r 4096) by lia; reflexivity|rewrite (Z.div_small r 256) by lia; reflexivity| | |unfold surrogate; lia].
    - rewrite hex_val_digit by lia. f_equal. lia.
    - apply hex_val_digit. lia. }
  unfold invalid_glyph in Hi. fold r in Hi. rewrite Hi.
  destruct (bool_decide_reflect (r = 8232)) as [E|]; [destruct Hg as [<- _]; fold r; rewrite E; by apply scans_unicode|].
  destruct (bool_decide_reflect (r = 8233)) as [E|]; [destruct Hg as [<- _]; fold r; rewrite E; by apply scans_unicode|].
  pose proof Hg as (He & b & s2 & Eb & Hd). intros fuel t. rewrite Eb, string_app_cons. cbn [scan_string].
  assert (Hb : byte_val b <> 34 /\ byte_val b <> 92 /\ 32 <= byte_val b).
  { pose proof (byte_val_range b). destruct (decide (byte_val b < 128)) as [Hlt|]; [|lia].
    destruct (small_rune g b s2 Hg Eb Hlt) as [_ Er]. fold r in Er. rewrite !orb_false_iff, ?bool_decide_eq_false in *. lia. }
  byte_cases. rewrite Hd. cbv iota. rewrite He, Eb. done.
Qed.

(** Written text is scanned back. *)
Lemma decode_rune_nonneg a s1 : 0 <= rune (decode_rune a s1).1.
Proof.
  pose proof (byte_val_range a). unfold decode_rune, cont. repeat (case_match; cbn [fst rune]; try (unfold RuneError; lia)).
Qed.

Lemma scan_runes fuel s rest : forallb (fun g => negb (invalid_glyph g)) (runes_fuel fuel s) = true -> (String.length s <= fuel)%nat ->
  forall n, (length (runes_fuel fuel s) < n)%nat ->
  scan_string n (foldr (fun g acc => write_glyph g +:+ acc) "" (runes_fuel fuel s) +:+ String quote_byte rest) = Some (s, rest).
Proof.
  revert s. induction fuel as [|fuel IH]; intros [|a s] Hv Hl n Hn; cbn [runes_fuel foldr] in *; try (cbn in Hl; lia).
  1,2: destruct n; [lia|done].
  pose proof (decode_rune_raw a s) as [Hraw Hlen]. pose proof (decode_rune_nonneg a s) as Hr0. destruct (decode_rune a s) as [g rs] eqn:Ed.
  cbn [fst snd] in *. cbn [foldr forallb length] in *. apply andb_true_iff in Hv as [Hg%negb_true_iff Hv]. cbn in Hl.
  destruct n as [|n]; [lia|]. rewrite <- string_app_assoc, scan_glyph; [|by eapply decode_rune_again|done|done].
  rewrite IH by (done || lia). cbn. by rewrite Hraw.
Qed.

(** ** What is written is read back *)
(** Bytes that are written as they are. *)
Definition plain_byte (v : Z) : Prop := 32 <= v < 127 /\ v <> 34 /\ v <> 92 /\ v <> 60 /\ v <> 62 /\ v <> 38.
Definition plain (s : string) : Prop := each_byte plain_byte s.

(** Decimal literals without leading zeros. *)
Definition decimal (s : string) : Prop :=
  str_forall is_digit s = true /\ s <> "" /\ (s = "0" \/ forall c s1, s = String c s1 -> byte_val c <> 48).

(** Values whose strings satisfy [P] and whose numbers are such literals; the plain
    ones, and those whose strings are valid UTF-8. *)
Fixpoint json_in (P : string -> Prop) (j : json) : Prop :=
  match j with
  | JNull | JBool _ => True
  | JNum literal => decimal literal
  | JStr s => P s
  | JArr l => foldr (fun x acc => json_in P x /\ acc) True l
  | JObj members => foldr (fun m acc => (P m.1 /\ json_in P m.2) /\ acc) True members
  end.
Abbreviation plain_json := (json_in plain).
Abbreviation text_json := (json_in text).

(** What may follow a value. *)
Definition delimiter (c : ascii) : Prop := byte_val c = 44 \/ byte_val c = 93 \/ byte_val c = 125 \/ is_ws c = true.
Definition delimited (s : string) : Prop := match s with EmptyString => True | String c _ => delimiter c end.

Lemma plain_cons c s : plain (String c s) <-> plain_byte (byte_val c) /\ plain s.
Proof. unfold plain, each_byte. cbn. by rewrite Forall_cons. Qed.

Lemma plain_app s t : plain s -> plain t -> plain (s +:+ t).
Proof.
  intros Hs Ht. induction s as [|c s IH]; [done|]. apply plain_cons in Hs as [Hc Hs]. rewrite string_app_cons. apply plain_cons.
  split; [done|]. by apply IH.
Qed.

Lemma plain_ascii s : plain s -> str_forall is_ascii s = true.
Proof.
  induction s as [|c s IH]; [done|]. rewrite plain_cons. intros [Hc Hs]. unfold str_forall in *. cbn.
  rewrite IH by done. unfold is_ascii, plain_byte in *. rewrite andb_true_r. lia.
Qed.

Lemma write_plain s : plain s -> write_string s = String quote_byte (s +:+ String quote_byte "").
Proof.
  intros Hs. unfold write_string. rewrite runes_of_ascii by (by apply plain_ascii). f_equal. unfold str_glyphs.
  induction s as [|c s IH]; [done|]. apply plain_cons in Hs as [Hc Hs]. cbn [String.list_ascii_of_string fmap list_fmap foldr].
  rewrite IH by done. unfold write_glyph, plain_byte, RuneError in *. cbn [rune bytes ascii_glyph]. byte_cases. done.
Qed.

(** What is written for a string: a quote, its runes, a quote. *)
Definition write_body (s : string) : string := foldr (fun g acc => write_glyph g +:+ acc) "" (runes_of s).

Lemma write_string_body s : write_string s = String quote_byte (write_body s +:+ String quote_byte "").
Proof.
  unfold write_string, write_body. f_equal. induction (runes_of s) as [|g l IH]; [done|]. cbn [foldr]. by rewrite IH, string_app_assoc.
Qed.

Lemma runes_written fuel s : (length (runes_fuel fuel s) <= String.length (foldr (fun g acc => write_glyph g +:+ acc) "" (runes_fuel fuel s)))%nat.
Proof.
  revert s. induction fuel as [|fuel IH]; intros [|a s]; [apply Nat.le_0_l..|]. cbn [runes_fuel].
  pose proof (decode_rune_raw a s) as [Hraw Hlen]. destruct (decode_rune a s) as [g rest]. cbn [fst snd foldr length] in *.
  rewrite length_string_app. specialize (IH rest).
  assert (1 <= String.length (write_glyph g))%nat; [|lia]. unfold write_glyph, u00. repeat case_match; cbn [String.length]; try lia.
  destruct (bytes g); cbn; [|lia]. change (rest = String a s) in Hraw. rewrite Hraw in Hlen. cbn in Hlen. lia.
Qed.

Lemma scan_text fuel s rest : text s -> (String.length (write_body s) < fuel)%nat ->
  scan_string fuel (write_body s +:+ String quote_byte rest) = Some (s, rest).
Proof. intros Hs Hf. pose proof (runes_written (String.length s) s). apply scan_runes; [exact Hs|lia|]. unfold write_body, runes_of in Hf. lia. Qed.

Lemma plain_text s : plain s -> text s.
Proof.
  intros Hs. unfold text, ValidString. rewrite runes_of_ascii by (by apply plain_ascii). unfold str_glyphs.
  induction s as [|c s IH]; [done|]. apply plain_cons in Hs as [Hc Hs]. cbn [String.list_ascii_of_string fmap list_fmap forallb].
  rewrite andb_true_iff. split; [|by apply IH]. unfold invalid_glyph, RuneError, plain_byte in *. cbn [rune bytes ascii_glyph].
  rewrite (bool_decide_false (byte_val c = 65533)) by lia. done.
Qed.

(** Numbers. *)
Lemma ws_byte c : is_ws c = true -> byte_val c = 32 \/ byte_val c = 9 \/ byte_val c = 10 \/ byte_val c = 13.
Proof. unfold is_ws. intros H. repeat (apply orb_true_iff in H as [H|H]); rewrite bool_decide_eq_true in H; lia. Qed.

Lemma delimiter_byte c : delimiter c -> is_digit c = false /\ byte_val c <> 46 /\ byte_val c <> 101 /\ byte_val c <> 69.
Proof. unfold delimiter, is_digit. intros [H|[H|[H|H%ws_byte]]]; lia. Qed.

Lemma scan_digits_app d rest : str_forall is_digit d = true -> delimited rest -> scan_digits (d +:+ rest) = (d, rest).
Proof.
  intros Hd Hr. induction d as [|c d IH].
  - destruct rest as [|c rest]; [done|]. change ("" +:+ String c rest) with (String c rest). cbn [scan_digits].
    by rewrite (proj1 (delimiter_byte c Hr)).
  - unfold str_forall in *. cbn in Hd. apply andb_true_iff in Hd as [Hc Hd]. rewrite string_app_cons. cbn [scan_digits].
    by rewrite Hc, IH.
Qed.

Lemma scan_decimal d rest : decimal d -> delimited rest -> scan_number (d +:+ rest) = Some (d, rest).
Proof.
  intros (Hd & Hne & H0) Hr. destruct d as [|c d]; [done|].
  assert (Hc : is_digit c = true) by (unfold str_forall in Hd; cbn in Hd; by apply andb_true_iff in Hd as [? _]).
  unfold scan_number. rewrite string_app_cons. rewrite (bool_decide_false (byte_val c = 45)) by (unfold is_digit in Hc; lia).
  assert (Hint : scan_integer (String c (d +:+ rest)) = Some (String c d, rest)).
  { cbn [scan_integer]. destruct (bool_decide_reflect (byte_val c = 48)) as [E|E].
    - destruct H0 as [H0|H0]; [|by destruct (H0 c d)]. inversion H0. by subst.
    - rewrite Hc. f_equal. rewrite <- string_app_cons. by apply scan_digits_app. }
  rewrite Hint. cbn [mbind option_bind fst snd]. destruct rest as [|e rest]; [cbn; by rewrite string_app_nil_r|].
  apply delimiter_byte in Hr as (_ & He & Hr). unfold scan_fraction, scan_exponent. rewrite (bool_decide_false (byte_val e = 46)) by done. cbn [mbind option_bind fst snd].
  rewrite (bool_decide_false (byte_val e = 101)), (bool_decide_false (byte_val e = 69)) by lia. cbn. by rewrite string_app_nil_r.
Qed.

(** The first byte of a written value. *)
Definition first_byte (s : string) : Z := match s with String c _ => byte_val c | EmptyString => -1 end.

Definition starts (z : Z) : Prop := z = 34 \/ z = 91 \/ z = 123 \/ z = 110 \/ z = 116 \/ z = 102 \/ 48 <= z <= 57.

Lemma skip_ws_first s : starts (first_byte s) -> skip_ws s = s.
Proof.
  destruct s as [|c s]; [done|]. unfold starts. cbn [first_byte skip_ws]. intros H. unfold is_ws. by rewrite !bool_decide_false by lia.
Qed.

Lemma peek_delim c s : byte_val c = 44 \/ byte_val c = 93 \/ byte_val c = 125 \/ byte_val c = 58 ->
  skip_ws (String c s) = String c s /\ peek (String c s) = byte_val c.
Proof.
  intros H. assert (E : skip_ws (String c s) = String c s) by (cbn [skip_ws]; unfold is_ws; by rewrite !bool_decide_false by lia).
  split; [done|]. unfold peek. by rewrite E.
Qed.

Lemma peek_first s : starts (first_byte s) -> peek s = first_byte s.
Proof. intros H. unfold peek. by rewrite (skip_ws_first s H). Qed.

Lemma expect_first c s : starts (byte_val c) \/ byte_val c = 44 \/ byte_val c = 93 \/ byte_val c = 125 \/ byte_val c = 58 ->
  expect c (String c s) = Some s.
Proof.
  intros H. unfold expect. assert (E : skip_ws (String c s) = String c s).
  { destruct H as [H|H]; [by apply skip_ws_first|]. by apply peek_delim. }
  rewrite E. by destruct (ascii_dec c c).
Qed.

(** The value of a decimal literal, and that it is read back. *)
Fixpoint digits_value (acc : Z) (s : string) : Z :=
  match s with EmptyString => acc | String c s1 => digits_value (acc * 10 + (byte_val c - 48)) s1 end.

Lemma pretty_char x : (x < 10)%N -> byte_val (pretty_N_char x) = 48 + Z.of_N x.
Proof.
  intros Hx. assert (H : x = 0%N \/ x = 1%N \/ x = 2%N \/ x = 3%N \/ x = 4%N \/ x = 5%N \/ x = 6%N \/ x = 7%N \/ x = 8%N \/ x = 9%N) by lia.
  repeat destruct H as [->|H]; try (vm_compute; reflexivity). subst. vm_compute. reflexivity.
Qed.

Lemma pretty_go_spec x s : (0 < x)%N -> exists c d, pretty_N_go x s = String c (d +:+ s) /\ is_digit c = true /\
  byte_val c <> 48 /\ str_forall is_digit d = true /\ digits_value (byte_val c - 48) d = Z.of_N x.
Proof.
  revert s. induction x as [x IH] using (well_founded_induction N.lt_wf_0). intros s Hx. rewrite pretty_N_go_step by done.
  pose proof (N.mod_lt x 10 ltac:(done)) as Hm. pose proof (pretty_char _ Hm) as Hb.
  destruct (decide (x < 10)%N) as [Hlt|Hge].
  - rewrite N.div_small by done. rewrite pretty_N_go_0. exists (pretty_N_char (x mod 10)), "".
    rewrite N.mod_small in Hb |- * by done. unfold is_digit. rewrite Hb. split; [done|]. split; [lia|]. split; [lia|].
    split; [done|]. cbn [digits_value]. lia.
  - destruct (IH (x / 10)%N) with (s := String (pretty_N_char (x mod 10)) s) as (c & d & -> & H1 & H2 & H3 & H4).
    { apply N.div_lt; lia. }
    { apply N.div_str_pos. lia. }
    exists c, (d +:+ String (pretty_N_char (x mod 10)) ""). split_and!; try done.
    + f_equal. by rewrite <- string_app_assoc.
    + rewrite str_forall_app, H3. unfold str_forall. cbn. unfold is_digit. rewrite Hb, andb_true_r. clear -Hm.
      generalize dependent (x mod 10)%N. lia.
    + assert (Happ : forall acc d e, digits_value acc (d +:+ e) = digits_value (digits_value acc d) e).
      { intros acc d'. revert acc. induction d' as [|e d' IHd]; intros acc e'; [done|]. rewrite string_app_cons. cbn. apply IHd. }
      rewrite Happ, H4. cbn [digits_value]. rewrite Hb. pose proof (N.div_mod' x 10). lia.
Qed.

Lemma FormatUint_decimal n : decimal (pretty n) /\ digits_value 0 (pretty n) = Z.of_N n.
Proof.
  unfold pretty, pretty_N. destruct (decide (n = 0%N)) as [->|Hn].
  - split; [|done]. split_and!; [done|done|by left].
  - destruct (pretty_go_spec n "" ltac:(lia)) as (c & d & -> & H1 & H2 & H3 & H4). rewrite string_app_nil_r. split.
    + unfold decimal. split_and!; [unfold str_forall in *; cbn; by rewrite H1, H3|done|]. right. by intros ? ? [= <- <-].
    + cbn [digits_value]. by rewrite Z.mul_0_l, Z.add_0_l.
Qed.

(** *** The parser on written text *)
Ltac eval_heads :=
  cbv zeta;
  repeat match goal with
  | |- context [first_byte (String ?c ?s)] => change (first_byte (String c s)) with (byte_val c)
  | |- context [byte_val ?c] => let v := eval vm_compute in (byte_val c) in
      match v with Z0 => idtac | Zpos _ => idtac end; change (byte_val c) with v
  | |- context [bool_decide (?x = ?y)] => let b := eval vm_compute in (bool_decide (x = y)) in
      match b with true => idtac | false => idtac end; change (bool_decide (x = y)) with b
  end; cbv beta iota.

Ltac head_known := solve [unfold starts; eval_heads; lia].

Lemma read_value_first fuel s : starts (first_byte s) -> read_value (S fuel) s =
  (let c := first_byte s in
   if c =? 34 then s1 ← expect (chr 34) s; p ← scan_string fuel s1; Some (JStr p.1, p.2)
   else if c =? 91 then
     s1 ← expect (chr 91) s;
     if peek s1 =? 93 then s2 ← expect (chr 93) s1; Some (JArr [], s2)
     else p ← read_elements fuel s1; Some (JArr p.1, p.2)
   else if c =? 123 then
     s1 ← expect (chr 123) s;
     if peek s1 =? 125 then s2 ← expect (chr 125) s1; Some (JObj [], s2)
     else p ← read_members fuel s1; Some (JObj p.1, p.2)
   else if c =? 110 then s1 ← literal_at "null" s; Some (JNull, s1)
   else if c =? 116 then s1 ← literal_at "true" s; Some (JBool true, s1)
   else if c =? 102 then s1 ← literal_at "false" s; Some (JBool false, s1)
   else p ← scan_number s; Some (JNum p.1, p.2)).
Proof. intros H. cbn [read_value]. by rewrite (skip_ws_first _ H), (peek_first _ H). Qed.

Lemma expect_quote s : expect (chr 34) (String quote_byte s) = Some s.
Proof. apply (expect_first quote_byte). left. head_known. Qed.

Lemma parse_string fuel s rest : text s -> (String.length (write_string s) <= fuel)%nat ->
  read_value (S fuel) (write_string s +:+ rest) = Some (JStr s, rest).
Proof.
  intros Hs Hf. rewrite write_string_body in *. cbn [String.length] in Hf. rewrite length_string_app in Hf. cbn [String.length] in Hf.
  rewrite string_app_cons, read_value_first by head_known. eval_heads. rewrite expect_quote. cbn [mbind option_bind].
  rewrite <- string_app_assoc, string_app_cons, scan_text by (done || lia). done.
Qed.

Lemma decimal_first d rest : decimal d -> 48 <= first_byte (d +:+ rest) <= 57.
Proof.
  intros (Hd & Hne & _). destruct d as [|c d]; [done|]. unfold str_forall in Hd. cbn in Hd.
  apply andb_true_iff in Hd as [Hc _]. unfold is_digit in Hc. rewrite string_app_cons. cbn [first_byte]. lia.
Qed.

Lemma parse_decimal fuel d rest : decimal d -> delimited rest -> read_value (S fuel) (d +:+ rest) = Some (JNum d, rest).
Proof.
  intros Hd Hr. pose proof (decimal_first d rest Hd) as Hf. rewrite read_value_first by (unfold starts; lia).
  rewrite scan_decimal by done. cbv zeta. by rewrite !bool_decide_false by lia.
Qed.

Lemma literal_at_app w rest : literal_at w (w +:+ rest) = Some rest.
Proof.
  unfold literal_at. assert (H : HasPrefix (w +:+ rest) w = true /\ drop_bytes (String.length w) (w +:+ rest) = rest).
  { induction w as [|c w [IH1 IH2]]; [by destruct rest|]. rewrite string_app_cons. cbn. by destruct (ascii_dec c c). }
  by destruct H as [-> ->].
Qed.

Lemma parse_literal fuel j rest : j = JNull \/ j = JBool true \/ j = JBool false ->
  read_value (S fuel) (write j +:+ rest) = Some (j, rest).
Proof.
  intros [->|[->| ->]]; cbn [write]; rewrite read_value_first by (unfold starts; vm_compute; tauto); rewrite literal_at_app; reflexivity.
Qed.

Lemma Join_map_cons {A} (f : A -> string) x l sep :
  Join (f <$> x :: l) sep = f x +:+ match l with [] => "" | _ => sep +:+ Join (f <$> l) sep end.
Proof. destruct l; [|done]. cbn. by rewrite string_app_nil_r. Qed.

Lemma first_app s t : s <> "" -> first_byte (s +:+ t) = first_byte s.
Proof. by destruct s. Qed.

Lemma in_elements P l : json_in P (JArr l) <-> Forall (json_in P) l.
Proof. cbn. induction l as [|x l IH]; cbn; [by split|]. by rewrite IH, Forall_cons. Qed.
Lemma in_members P l : json_in P (JObj l) <-> Forall (fun m => P m.1 /\ json_in P m.2) l.
Proof. cbn. induction l as [|x l IH]; cbn; [by split|]. by rewrite IH, Forall_cons. Qed.

(** White space before a token changes nothing. *)
Definition blank (s : string) : Prop := str_forall is_ws s = true.

Lemma skip_blank w s : blank w -> skip_ws (w +:+ s) = skip_ws s.
Proof.
  unfold blank, str_forall. induction w as [|c w IH]; [done|]. cbn. intros [Hc Hw]%andb_true_iff. rewrite string_app_cons. cbn [skip_ws].
  rewrite Hc. by apply IH.
Qed.
Lemma peek_blank w s : blank w -> peek (w +:+ s) = peek s.
Proof. intros H. unfold peek. by rewrite skip_blank. Qed.
Lemma expect_blank c w s : blank w -> expect c (w +:+ s) = expect c s.
Proof. intros H. unfold expect. by rewrite skip_blank. Qed.
Lemma value_blank fuel w s : blank w -> read_value fuel (w +:+ s) = read_value fuel s.
Proof. intros H. destruct fuel; [done|]. cbn [read_value]. by rewrite skip_blank. Qed.
Lemma elements_blank fuel w s : blank w -> read_elements fuel (w +:+ s) = read_elements fuel s.
Proof. intros H. destruct fuel; [done|]. cbn [read_elements]. by rewrite value_blank. Qed.
Lemma members_blank fuel w s : blank w -> read_members fuel (w +:+ s) = read_members fuel s.
Proof. intros H. destruct fuel; [done|]. cbn [read_members]. by rewrite expect_blank. Qed.

Lemma peek_byte c s : byte_val c = 44 \/ byte_val c = 93 \/ byte_val c = 125 \/ byte_val c = 58 ->
  peek (String c s) = byte_val c.
Proof. intros H. by apply peek_delim. Qed.

Ltac delim := solve [right; eval_heads; lia | eval_heads; lia | unfold delimited, delimiter; eval_heads; lia].

Section Written.
Context (nl : nat -> string) (gap : string) (nl_blank : forall d, blank (nl d)) (gap_blank : blank gap).
#[local] Abbreviation written := (write_in nl gap).

(** One member of an object, as written. *)
Definition written_member (d : nat) (m : string * json) : string := write_string m.1 +:+ ":" +:+ gap +:+ written d m.2.

Lemma write_first d j rest : text_json j -> starts (first_byte (written d j +:+ rest)).
Proof.
  unfold starts. destruct j as [|[]|n|s|[|x l]|[|x l]]; cbn [json_in write_in write]; intros H; try (rewrite <- ?string_app_assoc; eval_heads; cbn; tauto).
  - pose proof (decimal_first n rest H). tauto.
Qed.

Lemma write_nonempty d j : text_json j -> written d j <> "" /\ (1 <= String.length (written d j))%nat.
Proof.
  intros H. pose proof (write_first d j "" H) as Hf. rewrite string_app_nil_r in Hf. unfold starts in Hf.
  destruct (written d j); cbn in *; [lia|]. split; [done|lia].
Qed.

Lemma blank_delimited w s : blank w -> delimited s -> delimited (w +:+ s).
Proof.
  intros Hw Hs. destruct w as [|c w]; [done|]. unfold blank, str_forall in Hw. cbn in Hw. apply andb_true_iff in Hw as [Hc _].
  rewrite string_app_cons. right. right. right. exact Hc.
Qed.

Definition parses_value (fuel : nat) : Prop := forall d j rest, text_json j -> (2 * String.length (written d j) <= fuel)%nat ->
  delimited rest -> read_value fuel (written d j +:+ rest) = Some (j, rest).
Definition parses_elements (fuel : nat) : Prop := forall d l w rest, l <> [] -> Forall text_json l -> blank w ->
  (2 * String.length (Join (written d <$> l) ("," +:+ nl d)) + 1 <= fuel)%nat ->
  read_elements fuel (Join (written d <$> l) ("," +:+ nl d) +:+ w +:+ String (chr 93) rest) = Some (l, rest).
Definition parses_members (fuel : nat) : Prop := forall d l w rest, l <> [] -> Forall (fun m => text m.1 /\ text_json m.2) l -> blank w ->
  (2 * String.length (Join (written_member d <$> l) ("," +:+ nl d)) + 1 <= fuel)%nat ->
  read_members fuel (Join (written_member d <$> l) ("," +:+ nl d) +:+ w +:+ String (chr 125) rest) = Some (l, rest).

Lemma elements_step fuel : parses_value fuel -> parses_elements fuel -> parses_elements (S fuel).
Proof.
  intros Hv He d l w rest Hne Hl Hw Hf. destruct l as [|x l]; [done|]. apply Forall_cons in Hl as [Hx Hl].
  rewrite Join_map_cons in *. rewrite length_string_app in Hf. pose proof (write_nonempty d x Hx) as [_ Hlen].
  cbn [read_elements]. rewrite <- string_app_assoc. destruct l as [|y l].
  - change ("" +:+ ?t) with t. rewrite Hv by (done || lia || (apply blank_delimited; [done|delim])). cbn [mbind option_bind fst snd].
    rewrite peek_blank, peek_byte by (done || delim). eval_heads. rewrite expect_blank, expect_first by (done || delim). done.
  - rewrite !length_string_app in Hf. change ("," +:+ nl d) with (String (chr 44) (nl d)) in *. cbn [String.length] in Hf.
    rewrite <- (string_app_assoc (String (chr 44) (nl d))), string_app_cons.
    rewrite Hv by (done || lia || delim). cbn [mbind option_bind fst snd].
    rewrite peek_byte by delim. eval_heads. rewrite expect_first by delim. cbn [mbind option_bind].
    rewrite elements_blank by done. change (String (chr 44) (nl d)) with ("," +:+ nl d) in *. rewrite He by (done || lia). done.
Qed.

Lemma members_step fuel : parses_value fuel -> parses_members fuel -> parses_members (S fuel).
Proof.
  intros Hv He d l w rest Hne Hl Hw Hf. destruct l as [|[k x] l]; [done|]. apply Forall_cons in Hl as [[Hk Hx] Hl]. cbn [fst snd] in *.
  rewrite Join_map_cons in *. rewrite length_string_app in Hf. pose proof (write_nonempty d x Hx) as [_ Hlen].
  unfold written_member at 1 in Hf. unfold written_member at 1. cbn [fst snd] in *. rewrite write_string_body in *.
  rewrite !length_string_app in Hf. cbn [String.length] in Hf. rewrite length_string_app in Hf. cbn [String.length] in Hf.
  cbn [read_members]. rewrite <- !string_app_assoc, !string_app_cons. rewrite expect_quote. cbn [mbind option_bind].
  rewrite <- !string_app_assoc, !string_app_cons. rewrite scan_text by (done || lia). cbn [mbind option_bind fst snd].
  change ("" +:+ ?t) with t. rewrite (expect_first (chr 58)) by delim. cbn [mbind option_bind]. change ("" +:+ ?t) with t.
  rewrite <- ?string_app_assoc. rewrite value_blank by done. destruct l as [|y l].
  - change ("" +:+ ?t) with t. rewrite Hv by (done || lia || (apply blank_delimited; [done|delim])). cbn [mbind option_bind fst snd].
    rewrite peek_blank, peek_byte by (done || delim). eval_heads. rewrite expect_blank, expect_first by (done || delim). done.
  - rewrite !length_string_app in Hf. change ("," +:+ nl d) with (String (chr 44) (nl d)) in *. cbn [String.length] in Hf.
    change ("" +:+ ?t) with t. rewrite string_app_cons, <- string_app_assoc.
    rewrite Hv by (done || lia || delim). cbn [mbind option_bind fst snd].
    rewrite peek_byte by delim. eval_heads. rewrite expect_first by delim. cbn [mbind option_bind].
    rewrite members_blank by done. change (String (chr 44) (nl d)) with ("," +:+ nl d) in *. rewrite He by (done || lia). done.
Qed.

Lemma Join_first {A} (f : A -> string) x l sep : f x <> "" -> first_byte (Join (f <$> x :: l) sep) = first_byte (f x).
Proof. intros H. rewrite Join_map_cons. by apply first_app. Qed.

Lemma value_step fuel : parses_elements fuel -> parses_members fuel -> parses_value (S fuel).
Proof.
  intros He Hm d j rest Hj Hf Hr. destruct j as [|b|n|s|[|x l]|[|x l]].
  - apply parse_literal. by left.
  - apply parse_literal. destruct b; auto.
  - by apply parse_decimal.
  - cbn [write_in write] in *. apply parse_string; [done|lia].
  - reflexivity.
  - apply in_elements in Hj. cbn [write_in] in *. rewrite <- !string_app_assoc. change ("[" +:+ ?t) with (String (chr 91) t) in *.
    change ("]" +:+ rest) with (String (chr 93) rest). rewrite read_value_first by head_known. eval_heads.
    rewrite expect_first by (left; head_known). cbn [mbind option_bind]. rewrite peek_blank, elements_blank by done.
    cbn [String.length] in Hf. rewrite !length_string_app in Hf. cbn [String.length] in Hf.
    assert (Hx : text_json x) by (by inversion Hj). pose proof (write_nonempty (S d) x Hx) as [Hne _].
    assert (Hs : starts (first_byte (Join (written (S d) <$> x :: l) ("," +:+ nl (S d)) +:+ nl d +:+ String (chr 93) rest))).
    { rewrite first_app; [rewrite Join_first by done|]; [rewrite <- (string_app_nil_r (written (S d) x)); by apply write_first|].
      rewrite Join_map_cons. by destruct (written (S d) x). }
    rewrite (peek_first _ Hs). rewrite (bool_decide_false (first_byte _ = 93)) by (unfold starts in Hs; lia).
    rewrite He by (done || lia). done.
  - reflexivity.
  - apply in_members in Hj. cbn [write_in] in *. change (fun m : string * json => write_string m.1 +:+ _) with (written_member (S d)) in *.
    rewrite <- !string_app_assoc. change ("{" +:+ ?t) with (String (chr 123) t) in *.
    change ("}" +:+ rest) with (String (chr 125) rest). rewrite read_value_first by head_known. eval_heads.
    rewrite expect_first by (left; head_known). cbn [mbind option_bind]. rewrite peek_blank, members_blank by done.
    cbn [String.length] in Hf. rewrite !length_string_app in Hf. cbn [String.length] in Hf.
    assert (Hs : starts (first_byte (Join (written_member (S d) <$> x :: l) ("," +:+ nl (S d)) +:+ nl d +:+ String (chr 125) rest))).
    { rewrite Join_map_cons. left. reflexivity. }
    rewrite (peek_first _ Hs). rewrite (bool_decide_false (first_byte _ = 125)) by (unfold starts in Hs; lia).
    rewrite Hm by (done || lia). done.
Qed.

Lemma parse_written fuel : parses_value fuel /\ parses_elements fuel /\ parses_members fuel.
Proof.
  induction fuel as [|fuel (Hv & He & Hm)].
  - split; [|split; intros ? ? ? ? ? ? ?; lia]. intros d j rest Hj Hf. pose proof (write_nonempty d j Hj). lia.
  - auto using value_step, elements_step, members_step.
Qed.

Lemma parse_write_in j : text_json j -> parse_json (written 0 j) = Some j.
Proof.
  intros H. unfold parse_json. rewrite <- (string_app_nil_r (written 0 j)) at 2.
  destruct (parse_written (2 * String.length (written 0 j) + 2)) as (Hv & _). rewrite Hv by (done || lia). done.
Qed.
End Written.

(** Induction on values, through arrays and objects. *)
Lemma json_induction (P : json -> Prop) :
  P JNull -> (forall b, P (JBool b)) -> (forall d, P (JNum d)) -> (forall s, P (JStr s)) ->
  (forall l, Forall P l -> P (JArr l)) -> (forall l, Forall (fun m => P m.2) l -> P (JObj l)) -> forall j, P j.
Proof.
  intros H1 H2 H3 H4 H5 H6. fix IH 1. intros [|b|d|s|l|l]; [exact H1|apply H2|apply H3|apply H4| |].
  - apply H5. induction l as [|x l IHl]; constructor; [apply IH|exact IHl].
  - apply H6. induction l as [|x l IHl]; constructor; [apply IH|exact IHl].
Qed.

(** The compact text is the one without white space. *)
Lemma write_compact j : forall d, write_in (fun _ => "") "" d j = write j.
Proof.
  induction j as [|b|n|s|l IH|l IH] using json_induction; intros d; [done..| |].
  - destruct l as [|x l]; [done|]. cbn [write_in write]. change ("" +:+ ?t) with t. do 2 f_equal. f_equal.
    apply (map_ext_Forall (A:=json)). eapply Forall_impl; [exact IH|]. intros y Hy. apply Hy.
  - destruct l as [|x l]; [done|]. cbn [write_in write]. change ("" +:+ ?t) with t. do 2 f_equal. f_equal.
    apply (map_ext_Forall (A:=string * json)). eapply Forall_impl; [exact IH|]. intros y Hy. cbn beta. by rewrite Hy.
Qed.

Lemma parse_write_text j : text_json j -> parse_json (write j) = Some j.
Proof. intros H. rewrite <- (write_compact j 0). by apply parse_write_in. Qed.

Lemma json_in_mono (P Q : string -> Prop) : (forall s, P s -> Q s) -> forall j, json_in P j -> json_in Q j.
Proof.
  intros HPQ. induction j as [|b|n|s|l IH|l IH] using json_induction; [done..|apply HPQ| |].
  - rewrite !in_elements. intros H. induction IH as [|x l Hx _ IHl]; [constructor|]. apply Forall_cons in H as [? ?].
    constructor; auto.
  - rewrite !in_members. intros H. induction IH as [|x l Hx _ IHl]; [constructor|]. apply Forall_cons in H as [[? ?] ?].
    constructor; auto.
Qed.

Lemma parse_write j : plain_json j -> parse_json (write j) = Some j.
Proof. intros H. by apply parse_write_text, (json_in_mono _ _ plain_text). Qed.

Lemma newline_blank d : blank (newline_indent d).
Proof. unfold blank, str_forall. cbn. induction d as [|d IH]; [done|]. cbn. exact IH. Qed.

Lemma parse_indented j : text_json j -> parse_json (write_indented j) = Some j.
Proof. apply parse_write_in; [apply newline_blank|reflexivity]. Qed.
