(* ===== verification/GoTime.v ===== *)
(** * Times as text: RFC 3339 in [time.Time]'s JSON form

    A [time] counts nanoseconds from the Unix epoch. [time.Time.MarshalJSON] writes a
    UTC time in the layout [RFC3339Nano] and refuses years outside 0..9999;
    [UnmarshalJSON] reads RFC 3339 with an optional fraction and zone. The calendar is
    the proleptic Gregorian one. [ParseTime_FormatTime] is the round trip. *)

From S2P Require Import Prelude GoStrings GoRegexp GoJson.

(** ** The calendar *)
Definition days_per_era : Z := 146097.  (* 400 years *)
Definition day_nanos : Z := 24 * Hour.

Definition leap (y : Z) : bool := (y mod 4 =? 0) && ((y mod 100 <>? 0) || (y mod 400 =? 0)).
Definition daysIn (m y : Z) : Z :=
  if (m =? 4) || (m =? 6) || (m =? 9) || (m =? 11) then 30
  else if m =? 2 then (if leap y then 29 else 28) else 31.

(** Days of an era, which starts on a first of March: year of the era, month and day. *)
Definition era_civil (doe : Z) : Z * Z * Z :=
  let yoe := (doe - doe / 1460 + doe / 36524 - doe / 146096) / 365 in
  let doy := doe - (365 * yoe + yoe / 4 - yoe / 100) in
  let mp := (5 * doy + 2) / 153 in
  let m := if mp <? 10 then mp + 3 else mp - 9 in
  (yoe + (if m <=? 2 then 1 else 0), m, doy - (153 * mp + 2) / 5 + 1).
Definition era_days (yoe m d : Z) : Z :=
  365 * yoe + yoe / 4 - yoe / 100 + (153 * (if 2 <? m then m - 3 else m + 9) + 2) / 5 + d - 1.

(** The date of a day counted from 1970-01-01, and back. *)
Definition civil (day : Z) : Z * Z * Z :=
  let z := day + 719468 in
  let '(y, m, d) := era_civil (z mod days_per_era) in
  (y + 400 * (z / days_per_era), m, d).
Definition days_of (y m d : Z) : Z :=
  let y := y - (if m <=? 2 then 1 else 0) in
  era_days (y mod 400) m d + days_per_era * (y / 400) - 719468.

(** ** Writing *)
Definition digit_of (z : Z) : ascii := chr (48 + z).
Fixpoint fixed (w : nat) (z : Z) : string :=
  match w with
  | O => ""
  | S w' => String (digit_of (z / 10 ^ Z.of_nat w' mod 10)) (fixed w' z)
  end.
(** The digits after the point, without trailing zeros. *)
Fixpoint fraction (w : nat) (z : Z) : string :=
  match w with
  | O => ""
  | S w' => if z =? 0 then "" else String (digit_of (z / 10 ^ Z.of_nat w')) (fraction w' (z mod 10 ^ Z.of_nat w'))
  end.

Definition year_of (t : time) : Z := let '(y, _, _) := civil (t / day_nanos) in y.
Definition FormatTime (t : time) : string :=
  let '(y, m, d) := civil (t / day_nanos) in
  let ns := t mod day_nanos in
  let sec := ns / Second in
  let frac := ns mod Second in
  fixed 4 y +:+ "-" +:+ fixed 2 m +:+ "-" +:+ fixed 2 d +:+ "T" +:+
  fixed 2 (sec / 3600) +:+ ":" +:+ fixed 2 (sec / 60 mod 60) +:+ ":" +:+ fixed 2 (sec mod 60) +:+
  (if frac =? 0 then "" else "." +:+ fraction 9 frac) +:+ "Z".

(** ** Reading *)
Fixpoint read_digits (w : nat) (acc : Z) (s : string) : option (Z * string) :=
  match w with
  | O => Some (acc, s)
  | S w => match s with
           | String c s => if is_digit c then read_digits w (acc * 10 + (byte_val c - 48)) s else None
           | EmptyString => None
           end
  end.
Definition literal (c : ascii) (s : string) : option string :=
  match s with String d s1 => if ascii_dec c d then Some s1 else None | EmptyString => None end.
Definition parseUint (w : nat) (min max : Z) (s : string) : option (Z * string) :=
  p ← read_digits w 0 s; if (min <=? p.1) && (p.1 <=? max) then Some p else None.

(** [parseNanoseconds]: digits beyond the ninth are dropped. *)
Fixpoint nanos (w : nat) (digits : string) : Z :=
  match w, digits with
  | S w, String c s => (byte_val c - 48) * 10 ^ Z.of_nat w + nanos w s
  | _, _ => 0
  end.
Definition parse_fraction (s : string) : Z * string :=
  match s with
  | String p (String c _ as s1) =>
      if (byte_val p =? 46) && is_digit c then let '(digits, rest) := scan_digits s1 in (nanos 9 digits, rest) else (0, s)
  | _ => (0, s)
  end.
(** Seconds east of UTC. *)
Definition parse_zone (s : string) : option Z :=
  if s =? "Z" then Some 0
  else match s with
       | String sign s =>
           h ← parseUint 2 0 23 s; s1 ← literal ":" h.2; m ← parseUint 2 0 59 s1;
           if negb (m.2 =? "") then None
           else if byte_val sign =? 43 then Some ((h.1 * 60 + m.1) * 60)
           else if byte_val sign =? 45 then Some (- ((h.1 * 60 + m.1) * 60))
           else None
       | EmptyString => None
       end.

Definition ParseTime (s : string) : option time :=
  y ← parseUint 4 0 9999 s; s ← literal "-" y.2;
  m ← parseUint 2 1 12 s; s ← literal "-" m.2;
  d ← parseUint 2 1 (daysIn m.1 y.1) s; s ← literal "T" d.2;
  h ← parseUint 2 0 23 s; s ← literal ":" h.2;
  mi ← parseUint 2 0 59 s; s ← literal ":" mi.2;
  sec ← parseUint 2 0 59 s;
  let '(ns, rest) := parse_fraction sec.2 in
  zone ← parse_zone rest;
  Some (days_of y.1 m.1 d.1 * day_nanos + ((h.1 * 60 + mi.1) * 60 + sec.1 - zone) * Second + ns).

Example time_texts : ParseTime "2024-02-29T23:59:60Z" = None /\ ParseTime "2023-02-29T00:00:00Z" = None /\
  ParseTime "2024-02-29T01:30:00.5+01:30" = Some 1709164800500000000 /\ FormatTime 1709164800500000000 = "2024-02-29T00:00:00.5Z" /\
  FormatTime zero_time = "0001-01-01T00:00:00Z".
Proof. by vm_compute. Qed.

(** ** The calendar is a bijection *)
Definition era_checked (doe : Z) : bool :=
  let '(y, m, d) := era_civil doe in
  let y' := y - (if m <=? 2 then 1 else 0) in
  (1 <=? m) && (m <=? 12) && (1 <=? d) && (d <=? daysIn m y) && (0 <=? y') && (y' <? 400) && (era_days y' m d =? doe).

Fixpoint all_from (p : Z -> bool) (n : nat) (z : Z) : bool :=
  match n with O => true | S n => if p z then all_from p n (z + 1) else false end.
Lemma all_from_spec p n z i : all_from p n z = true -> z <= i < z + Z.of_nat n -> p i = true.
Proof.
  revert z. induction n as [|n IH]; intros z; cbn [all_from]; [lia|]. destruct (p z) eqn:E; [|done]. intros H Hi.
  destruct (decide (i = z)) as [->|]; [done|]. apply (IH (z + 1)); [done|lia].
Qed.
Lemma era_all : all_from era_checked (Z.to_nat days_per_era) 0 = true.
Proof. vm_cast_no_check (eq_refl true). Qed.

Lemma mod_period y k n : (n | 400) -> (y + 400 * k) mod n = y mod n.
Proof. intros [c ->]. replace (y + c * n * k) with (y + (c * k) * n) by lia. apply Z_mod_plus_full. Qed.
Lemma leap_period y k : leap (y + 400 * k) = leap y.
Proof. unfold leap. rewrite !mod_period; [done|by exists 1|by exists 4|by exists 100]. 
Qed.

Lemma civil_spec day y m d : civil day = (y, m, d) -> 1 <= m <= 12 /\ 1 <= d <= daysIn m y /\ days_of y m d = day.
Proof.
  unfold civil. set (z := day + 719468). pose proof (Z.mod_pos_bound z days_per_era ltac:(unfold days_per_era; lia)) as Hz.
  pose proof (Z.div_mod z days_per_era ltac:(unfold days_per_era; lia)) as Hdm.
  assert (Hc : era_checked (z mod days_per_era) = true).
  { apply (all_from_spec _ _ _ _ era_all). unfold days_per_era in *. lia. }
  unfold era_checked in Hc. destruct (era_civil (z mod days_per_era)) as [[y0 m0] d0]. intros [= <- <- <-]. breflect.
  split; [lia|]. split.
  - unfold daysIn in *. rewrite Z.add_comm, Z.mul_comm in *. replace (z / days_per_era * 400 + y0) with (y0 + 400 * (z / days_per_era)) by lia.
    rewrite leap_period. lia.
  - unfold days_of. set (b := if m0 <=? 2 then 1 else 0) in *.
    replace (y0 + 400 * (z / days_per_era) - b) with ((y0 - b) + (z / days_per_era) * 400) by lia.
    rewrite Z_mod_plus_full, Z.div_add, Z.mod_small, Z.div_small by lia. unfold z in *. lia.
Qed.

(** ** Digits *)
Lemma byte_val_chr z : 0 <= z < 256 -> byte_val (chr z) = z.
Proof. intros H. unfold byte_val, chr. rewrite N_ascii_embedding; lia. Qed.
Lemma digit_byte z : 0 <= z <= 9 -> byte_val (digit_of z) = 48 + z /\ is_digit (digit_of z) = true.
Proof. intros H. unfold digit_of, is_digit. rewrite byte_val_chr by lia. lia. Qed.

Lemma digit_range z w : 0 <= z / 10 ^ Z.of_nat w mod 10 <= 9.
Proof. pose proof (Z.mod_pos_bound (z / 10 ^ Z.of_nat w) 10). lia. Qed.

Lemma pow_S w : 10 ^ Z.of_nat (S w) = 10 * 10 ^ Z.of_nat w.
Proof. rewrite Nat2Z.inj_succ, Z.pow_succ_r by lia. done. Qed.

Lemma read_fixed w acc z rest : read_digits w acc (fixed w z +:+ rest) = Some (acc * 10 ^ Z.of_nat w + z mod 10 ^ Z.of_nat w, rest).
Proof.
  revert acc. induction w as [|w IH]; intros acc; cbn [fixed read_digits]; [change (10 ^ Z.of_nat 0) with 1; rewrite Z.mod_1_r; f_equal; f_equal; lia|].
  rewrite string_app_cons. destruct (digit_byte _ (digit_range z w)) as [-> ->]. rewrite IH, pow_S. f_equal. f_equal.
  rewrite (Z.mul_comm 10), Z.rem_mul_r by lia. lia.
Qed.

Lemma parse_fixed w min max z rest : 0 <= z < 10 ^ Z.of_nat w -> min <= z <= max -> parseUint w min max (fixed w z +:+ rest) = Some (z, rest).
Proof.
  intros Hz Hr. unfold parseUint. rewrite read_fixed. cbn [mbind option_bind fst]. rewrite Z.mul_0_l, Z.add_0_l, Z.mod_small by done.
  by rewrite (proj2 (Z.leb_le _ _)), (proj2 (Z.leb_le _ _)) by lia.
Qed.

Lemma fraction_digits w z : 0 <= z < 10 ^ Z.of_nat w ->
  str_forall is_digit (fraction w z) = true /\ nanos w (fraction w z) = z.
Proof.
  revert z. induction w as [|w IH]; intros z Hz; cbn [fraction]; [change (10 ^ Z.of_nat 0) with 1 in Hz; split; [done|cbn; lia]|].
  rewrite pow_S in Hz. set (p := 10 ^ Z.of_nat w) in *. assert (Hp : 0 < p) by (apply Z.pow_pos_nonneg; lia).
  destruct (bool_decide_reflect (z = 0)) as [->|Hne]; [done|].
  destruct (digit_byte (z / p)) as [Hb Hd]; [split; [apply Z.div_pos; lia|apply Z.lt_succ_r, Z.div_lt_upper_bound; lia]|].
  destruct (IH (z mod p)) as [H1 H2]; [by apply Z.mod_pos_bound|]. split.
  - unfold str_forall in *. cbn. by rewrite Hd, H1.
  - cbn [nanos]. rewrite Hb, H2. fold p. pose proof (Z.div_mod z p). lia.
Qed.

Lemma scan_fraction_digits w z c rest : 0 <= z < 10 ^ Z.of_nat w -> is_digit c = false ->
  scan_digits (fraction w z +:+ String c rest) = (fraction w z, String c rest).
Proof.
  intros Hz Hc. destruct (fraction_digits w z Hz) as [Hd _]. induction (fraction w z) as [|x s IH].
  - change ("" +:+ String c rest) with (String c rest). cbn [scan_digits]. by rewrite Hc.
  - unfold str_forall in Hd. cbn in Hd. apply andb_true_iff in Hd as [Hx Hd]. rewrite string_app_cons. cbn [scan_digits].
    by rewrite Hx, IH.
Qed.

Lemma parse_written_fraction frac : 0 <= frac < Second ->
  parse_fraction ((if frac =? 0 then "" else "." +:+ fraction 9 frac) +:+ "Z") = (frac, "Z").
Proof.
  intros H. destruct (bool_decide_reflect (frac = 0)) as [->|Hne]; [done|].
  assert (Hz : 0 <= frac < 10 ^ Z.of_nat 9) by (unfold Second in H; lia).
  pose proof (scan_fraction_digits 9 frac "Z" "" Hz eq_refl) as Hs. destruct (fraction_digits 9 frac Hz) as [Hd Hn].
  destruct (fraction 9 frac) as [|c s] eqn:E; [cbn in Hn; lia|]. change ("." +:+ String c s) with (String "." (String c s)).
  rewrite !string_app_cons in *. unfold parse_fraction. unfold str_forall in Hd. cbn in Hd. apply andb_true_iff in Hd as [Hc _].
  rewrite Hc. cbn [andb]. change (byte_val "." =? 46) with true. cbv iota. rewrite Hs. by rewrite Hn.
Qed.

(** ** The round trip *)
Lemma literal_eq c s : literal c (String c "" +:+ s) = Some s.
Proof. rewrite string_app_cons. unfold literal. by destruct (ascii_dec c c). Qed.

Lemma ParseTime_FormatTime t : 0 <= year_of t <= 9999 -> ParseTime (FormatTime t) = Some t.
Proof.
  unfold year_of, FormatTime. destruct (civil (t / day_nanos)) as [[y m] d] eqn:E. intros Hy.
  apply civil_spec in E as (Hm & Hd & Hdays). set (ns := t mod day_nanos).
  assert (Hns : 0 <= ns < day_nanos) by (apply Z.mod_pos_bound; done).
  assert (Hsec : 0 <= ns / Second < 86400).
  { split; [apply Z.div_pos; [lia|done]|]. apply Z.div_lt_upper_bound; [done|]. exact (proj2 Hns). }
  assert (Hfrac : 0 <= ns mod Second < Second) by (by apply Z.mod_pos_bound).
  pose proof (Z.div_mod ns Second ltac:(done)) as Hns'. pose proof (Z.div_mod t day_nanos ltac:(done)) as Ht.
  fold ns in Ht. set (sec := ns / Second) in *. set (frac := ns mod Second) in *.
  assert (Hd31 : d <= 31) by (unfold daysIn in Hd; destruct (_ || _); [lia|]; destruct (_ =? _); [destruct (leap y); lia|lia]).
  pose proof (Z.mod_pos_bound sec 60 ltac:(lia)). pose proof (Z.mod_pos_bound (sec / 60) 60 ltac:(lia)).
  assert (0 <= sec / 3600 < 24) by (split; [apply Z.div_pos; lia|apply Z.div_lt_upper_bound; lia]).
  assert (Hs : (sec / 3600 * 60 + sec / 60 mod 60) * 60 + sec mod 60 = sec).
  { pose proof (Z.div_mod sec 60 ltac:(lia)). pose proof (Z.div_mod (sec / 60) 60 ltac:(lia)) as H3.
    rewrite Z.div_div in H3 by lia. change (60 * 60) with 3600 in H3. lia. }
  unfold ParseTime.
  rewrite parse_fixed by (change (10 ^ Z.of_nat 4) with 10000; lia). cbn [mbind option_bind fst snd]. rewrite literal_eq. cbn [mbind option_bind].
  rewrite parse_fixed by (change (10 ^ Z.of_nat 2) with 100; lia). cbn [mbind option_bind fst snd]. rewrite literal_eq. cbn [mbind option_bind].
  do 4 (rewrite parse_fixed by (change (10 ^ Z.of_nat 2) with 100; lia); cbn [mbind option_bind fst snd]; rewrite ?literal_eq; cbn [mbind option_bind]).
  rewrite parse_written_fraction by done. change (parse_zone "Z") with (Some 0). cbn [mbind option_bind].
  rewrite Hdays, Hs. f_equal. lia.
Qed.

(** ** Which times have a text *)
Lemma era_days_bounds y m d : 0 <= y < 400 -> 1 <= m <= 12 -> 1 <= d <= 31 -> 0 <= era_days y m d < 146200.
Proof.
  intros Hy Hm Hd. unfold era_days. set (k := if 2 <? m then m - 3 else m + 9).
  assert (0 <= k <= 11) by (unfold k; destruct (Z.ltb_spec 2 m); lia).
  Z.to_euclidean_division_equations. lia.
Qed.

Definition dated (t : time) : Prop := 0 <= year_of t <= 9999.

Lemma int64_dated t : in_int64 t -> dated t.
Proof.
  intros Ht. unfold dated, year_of. destruct (civil (t / day_nanos)) as [[y m] d] eqn:E.
  apply civil_spec in E as (Hm & Hd & Hdays).
  assert (Hd31 : d <= 31) by (unfold daysIn in Hd; destruct (_ || _); [lia|]; destruct (_ =? _); [destruct (leap y); lia|lia]).
  assert (Hday : -106752 <= t / day_nanos <= 106752).
  { unfold in_int64, two63, day_nanos, Hour in *. change (24 * (60 * Minute)) with 86400000000000 in *.
    Z.to_euclidean_division_equations. lia. }
  unfold days_of in Hdays. set (b := if m <=? 2 then 1 else 0) in *. assert (0 <= b <= 1) by (unfold b; destruct (m <=? 2); lia).
  pose proof (era_days_bounds ((y - b) mod 400) m d (Z.mod_pos_bound _ 400 ltac:(lia)) Hm ltac:(lia)) as He.
  unfold days_per_era in Hdays. pose proof (Z.div_mod (y - b) 400 ltac:(lia)). pose proof (Z.mod_pos_bound (y - b) 400 ltac:(lia)). lia.
Qed.

Lemma digits_plain s : str_forall is_digit s = true -> plain s.
Proof.
  induction s as [|c s IH]; [intros _; constructor|]. unfold str_forall. cbn. intros [Hc Hs]%andb_true_iff. apply plain_cons.
  split; [|by apply IH]. unfold is_digit in Hc. unfold plain_byte. lia.
Qed.

Lemma fixed_plain w z : plain (fixed w z).
Proof.
  apply digits_plain. induction w as [|w IH]; [done|]. cbn [fixed].
  destruct (digit_byte _ (digit_range z w)) as [_ Hd]. change (is_digit (digit_of (z / 10 ^ Z.of_nat w mod 10)) && str_forall is_digit (fixed w z) = true).
  by rewrite Hd, IH.
Qed.

Lemma FormatTime_plain t : plain (FormatTime t).
Proof.
  unfold FormatTime. destruct (civil (t / day_nanos)) as [[y m] d].
  assert (Hfrac : 0 <= t mod day_nanos mod Second < Second) by (by apply Z.mod_pos_bound).
  assert (Hsep : Forall plain ["-"; "T"; ":"; "."; "Z"; ""]) by (apply (bool_decide_unpack _); vm_compute; exact I).
  rewrite Forall_forall in Hsep.
  repeat first [apply plain_app | apply fixed_plain | apply Hsep; set_solver].
  destruct (_ =? 0); [apply Hsep; set_solver|]. apply plain_app; [apply Hsep; set_solver|]. apply digits_plain, fraction_digits.
  exact Hfrac.
Qed.
