(* ===== verification/GoReflect.v ===== *)
(** * Typed JSON: how [encoding/json] encodes and decodes values of Go types

    A description of the Go types the records use ([gtype]: strings, integers of
    a width, booleans, times, pointers, slices, structs with their JSON tags, and
    structs whose [UnmarshalJSON] wants every member), their values ([gval]),
    [json.Marshal] as [encode] and [json.Decoder.Decode] as [decode], with
    [DisallowUnknownFields] or without. Decoding is into an existing value, as in
    Go: fields are matched by name, exactly or else up to case, [null] leaves a
    string, an integer or a struct alone and clears a pointer or a slice, a repeated
    member decodes into what the earlier one left, and an array decodes into the
    elements the slice had, those beyond its length included. A mismatch of types, a
    number out of range and, where they are disallowed, an unknown member are errors
    of the whole decoding. A time is read from the characters of its string: one
    written with escapes is not told apart.

    A [codec] ties a Rocq type to its Go type; [unmarshal_marshal] is the round trip
    for every type described. *)

From stdpp Require Import pretty.
From S2P Require Import Prelude GoStrings GoRegexp GoJson GoTime.

#[local] Set Warnings "-register-all".

(** ** Types and values *)
Inductive gtype :=
| TString
| TInt (min max : Z)
| TPtr (t : gtype)
| TSlice (t : gtype)
| TStruct (fields : list (string * bool * gtype))  (* name, omitempty, type *)
| TBool
| TTime
| TExplicit (fields : list (string * bool * gtype)).  (* every member must be there *)

Inductive gval :=
| VString (s : string)
| VInt (z : Z)
| VPtr (target : option gval)
| VSlice (made : bool) (elems spare : list gval)  (* [made]: not nil; [spare]: beyond the length *)
| VStruct (fields : list gval)
| VBool (b : bool)
| VTime (t : time).

Fixpoint zero (t : gtype) : gval :=
  match t with
  | TString => VString ""
  | TInt _ _ => VInt 0
  | TPtr _ => VPtr None
  | TSlice _ => VSlice false [] []
  | TStruct fields | TExplicit fields => VStruct ((fun f => zero f.2) <$> fields)
  | TBool => VBool false
  | TTime => VTime zero_time
  end.

(** [isEmptyValue] *)
Definition is_empty (v : gval) : bool :=
  match v with
  | VString s => s =? ""
  | VInt z => z =? 0
  | VPtr o => match o with None => true | Some _ => false end
  | VSlice _ elems _ => bool_decide (length elems = 0%nat)
  | VStruct _ | VTime _ => false
  | VBool b => negb b
  end.

(** ** Encoding *)
Definition FormatInt (z : Z) : string :=
  if z <? 0 then "-" +:+ pretty (Z.to_N (- z)) else pretty (Z.to_N z).

Definition encode_fields (enc : gtype -> gval -> json) :=
  fix go (fields : list (string * bool * gtype)) (vs : list gval) : list (string * json) :=
    match fields, vs with
    | (name, omitempty, t) :: fields, v :: vs =>
        if omitempty && is_empty v then go fields vs else (name, enc t v) :: go fields vs
    | _, _ => []
    end.

Fixpoint encode (t : gtype) (v : gval) : json :=
  match t, v with
  | TString, VString s => JStr s
  | TInt _ _, VInt z => JNum (FormatInt z)
  | TPtr t, VPtr (Some v) => encode t v
  | TSlice t, VSlice true elems _ => JArr (encode t <$> elems)
  | (TStruct fields | TExplicit fields), VStruct vs => JObj (encode_fields encode fields vs)
  | TBool, VBool b => JBool b
  | TTime, VTime t => JStr (FormatTime t)
  | _, _ => JNull
  end.

(** ** Decoding *)
(** [strconv.ParseInt] or [ParseUint] of a JSON number, and the check of the width. *)
Definition parse_int (min max : Z) (literal : string) : option Z :=
  let '(negative, digits) :=
    match literal with
    | String c s => if byte_val c =? 45 then (true, s) else (false, literal)
    | EmptyString => (false, literal)
    end in
  if (negative && (0 <=? min)) || (digits =? "") || negb (str_forall is_digit digits) then None
  else
    let v := if negative then - digits_value 0 digits else digits_value 0 digits in
    if (min <=? v) && (v <=? max) then Some v else None.

(** [foldName], up to the runes whose fold is not ASCII, which no field name has. *)
Definition fold_glyph (g : glyph) : string :=
  let r := rune g in
  if (97 <=? r) && (r <=? 122) then String (chr (r - 32)) ""
  else if r =? 383 then "S"
  else if r =? 8490 then "K"
  else bytes g.
Definition fold_name (s : string) : string := foldr (fun g acc => fold_glyph g +:+ acc) "" (runes_of s).

(** The field a member goes to: by its exact name, else by its folded name. *)
Definition find_field (names : list string) (key : string) : option nat :=
  match list_find (eq key) names with
  | Some (i, _) => Some i
  | None => fst <$> list_find (fun n => fold_name key = fold_name n) names
  end.

(** [indirect]: a pointer is allocated where it is nil, and [null] clears it. *)
Definition through_pointer (dec : gtype -> gval -> option gval) (j : json) (t : gtype) (cur : gval) : option gval :=
  match t with
  | TPtr t =>
      match j with
      | JNull => Some (VPtr None)
      | _ => v ← dec t (match cur with VPtr (Some v) => v | _ => zero t end); Some (VPtr (Some v))
      end
  | _ => dec t cur
  end.

Definition decode_elements (dec : json -> gtype -> gval -> option gval) (t : gtype) :=
  fix go (l : list json) (old : list gval) : option (list gval) :=
    match l with
    | [] => Some []
    | x :: l =>
        v ← through_pointer (dec x) x t (default (zero t) (head old));
        vs ← go l (tail old);
        Some (v :: vs)
    end.

Definition decode_members (strict : bool) (dec : json -> gtype -> gval -> option gval) (fields : list (string * bool * gtype)) :=
  fix go (members : list (string * json)) (cur : list gval) : option (list gval) :=
    match members with
    | [] => Some cur
    | (key, x) :: members =>
        match find_field ((fun f => f.1.1) <$> fields) key with
        | None => if strict then None else go members cur
        | Some i =>
            f ← fields !! i;
            c ← cur !! i;
            v ← through_pointer (dec x) x f.2 c;
            go members (<[i := v]> cur)
        end
    end.

(** The struct of pointers that [UnmarshalJSON] of an explicit struct decodes into,
    and its fields, none of which may be nil. *)
Definition wire (fields : list (string * bool * gtype)) : list (string * bool * gtype) :=
  (fun f => (f.1.1, false, TPtr f.2)) <$> fields.
Definition deref (v : gval) : option gval := match v with VPtr o => o | _ => None end.

(** [strict]: [DisallowUnknownFields]. *)
Fixpoint decode (strict : bool) (j : json) (t : gtype) (cur : gval) : option gval :=
  match j, t with
  | JNull, (TSlice _ | TPtr _) => Some (zero t)
  | JNull, TExplicit _ => None
  | JNull, _ => Some cur
  | JBool b, TBool => Some (VBool b)
  | JStr s, TTime => VTime <$> ParseTime s
  | JNum literal, TInt min max => z ← parse_int min max literal; Some (VInt z)
  | JStr s, TString => Some (VString s)
  | JArr [], TSlice _ => Some (VSlice true [] [])
  | JArr l, TSlice t =>
      let old := match cur with VSlice _ elems spare => elems ++ spare | _ => [] end in
      vs ← decode_elements (decode strict) t l old;
      Some (VSlice true vs (drop (length vs) old))
  | JObj members, TStruct fields =>
      let old := match cur with VStruct vs => vs | _ => [] end in
      vs ← decode_members strict (decode strict) fields members old;
      Some (VStruct vs)
  | JObj members, TExplicit fields =>
      vs ← decode_members true (decode true) (wire fields) members ((fun _ => VPtr None) <$> fields);
      VStruct <$> mapM deref vs
  | _, _ => None
  end.

(** A Rocq type as the image of a Go type. *)
Record codec (A : Type) := {
  c_type : gtype;
  c_to : A -> gval;
  c_of : gval -> option A;
  c_law : forall x, c_of (c_to x) = Some x }.
Arguments c_type {A} c.
Arguments c_to {A} c x.
Arguments c_of {A} c v.
Arguments c_law {A} c x.

(** [MarshalJSON] of a time refuses years that RFC 3339 cannot write. *)
Fixpoint encodable (v : gval) : bool :=
  match v with
  | VTime t => (0 <=? year_of t) && (year_of t <=? 9999)
  | VPtr (Some v) => encodable v
  | VSlice _ elems _ => forallb encodable elems
  | VStruct fields => forallb encodable fields
  | _ => true
  end.

(** [json.Marshal], and [Decode] into a zero value followed by a second [Decode] that
    must find the end of the text. *)
Definition Marshal {A} (c : codec A) (x : A) : string := write (encode (c_type c) (c_to c x)).
Definition Unmarshal {A} (c : codec A) (body : string) : option A :=
  j ← parse_json body;
  v ← decode true j (c_type c) (zero (c_type c));
  c_of c v.
(** [json.MarshalIndent(x, "", "  ")] *)
Definition MarshalIndent {A} (c : codec A) (x : A) : string := write_indented (encode (c_type c) (c_to c x)).
Definition MarshalErr {A} (c : codec A) (x : A) : option string :=
  if encodable (c_to c x) then Some (Marshal c x) else None.
(** [json.Unmarshal] into a zero value: members it does not know are skipped. *)
Definition UnmarshalLoose {A} (c : codec A) (body : string) : option A :=
  j ← parse_json body;
  v ← decode false j (c_type c) (zero (c_type c));
  c_of c v.

(** Case-insensitive names, repeated members and the elements an earlier array left. *)
Definition demo_fields : gtype := TStruct [("steps", false, TSlice (TStruct [("id", false, TString); ("n", true, TInt 0 255)]))].

Example decode_ex : decode true
  (JObj [("steps", JArr [JObj [("id", JStr "a"); ("n", JNum "7")]; JObj [("id", JStr "b")]]);
         ("STEPS", JArr [JObj [("ID", JStr "c")]]); ("Steps", JArr [JNull; JObj []])]) demo_fields (zero demo_fields) =
  Some (VStruct [VSlice true [VStruct [VString "c"; VInt 7]; VStruct [VString "b"; VInt 0]] []]).
Proof. vm_compute. reflexivity. Qed.
Example decode_ex2 :
  (decode true (JObj [("other", JNull)]) demo_fields (zero demo_fields), parse_int 0 255 "256", parse_int 0 255 "-0",
   parse_int (-5) 5 "-5", parse_int 0 9 "1e0") = (None, None, None, Some (-5), None).
Proof. vm_compute. reflexivity. Qed.
Definition demo_explicit : gtype := TExplicit [("n", false, TInt 0 9); ("on", false, TBool)].
Example decode_ex3 :
  (decode false (JObj [("other", JNull)]) demo_fields (zero demo_fields),
   decode false (JObj [("on", JBool true); ("N", JNum "3")]) demo_explicit (zero demo_explicit),
   decode false (JObj [("on", JBool true)]) demo_explicit (zero demo_explicit),
   decode false (JObj [("on", JBool true); ("n", JNum "3"); ("m", JNull)]) demo_explicit (zero demo_explicit),
   decode false (JObj [("on", JBool true); ("n", JNum "3"); ("n", JNull)]) demo_explicit (zero demo_explicit)) =
  (Some (zero demo_fields), Some (VStruct [VInt 3; VBool true]), None, None, None).
Proof. vm_compute. reflexivity. Qed.

(** ** The round trip *)
Definition scalar (t : gtype) : bool := match t with TString | TInt _ _ | TBool => true | _ => false end.
(** Types whose fields have distinct plain names and whose pointers are to structs. *)
Fixpoint type_ok (t : gtype) : bool :=
  match t with
  | TString | TInt _ _ | TBool | TTime => true
  | TPtr t => match t with TStruct _ => type_ok t | _ => false end
  | TSlice t => type_ok t
  | TStruct fields =>
      bool_decide (NoDup ((fun f => f.1.1) <$> fields)) &&
      forallb (fun f => bool_decide (plain f.1.1)) fields &&
      forallb (fun f => type_ok f.2) fields
  | TExplicit fields =>
      bool_decide (NoDup ((fun f => f.1.1) <$> fields)) &&
      forallb (fun f => bool_decide (plain f.1.1)) fields &&
      forallb (fun f => scalar f.2 && negb f.1.2) fields
  end.

(** Values of a type, as a writer builds them: strings that satisfy [P], integers of the
    width and not negative, no spare elements, and a nil slice where an empty one is left
    out. *)
Definition fields_ok (ok : gtype -> gval -> Prop) :=
  fix go (fields : list (string * bool * gtype)) (vs : list gval) : Prop :=
    match fields, vs with
    | [], [] => True
    | (_, omitempty, t) :: fields, v :: vs =>
        ok t v /\ (omitempty && is_empty v = true -> v = zero t) /\ go fields vs
    | _, _ => False
    end.

Fixpoint val_in (P : string -> Prop) (t : gtype) (v : gval) : Prop :=
  match t, v with
  | TString, VString s => P s
  | TInt min max, VInt z => 0 <= z /\ min <= z <= max
  | TPtr _, VPtr None => True
  | TPtr t, VPtr (Some v) => val_in P t v
  | TSlice t, VSlice made elems spare => spare = [] /\ (made = false -> elems = []) /\ Forall (val_in P t) elems
  | (TStruct fields | TExplicit fields), VStruct vs => fields_ok (val_in P) fields vs
  | TBool, VBool _ => True
  | TTime, VTime t => dated t
  | _, _ => False
  end.
Abbreviation val_ok := (val_in plain).

(** Induction on types, through the fields of structs. *)
Lemma gtype_induction (P : gtype -> Prop) :
  P TString -> (forall min max, P (TInt min max)) -> (forall t, P t -> P (TPtr t)) -> (forall t, P t -> P (TSlice t)) ->
  (forall fields, Forall (fun f => P f.2) fields -> P (TStruct fields)) -> P TBool -> P TTime ->
  (forall fields, Forall (fun f => P f.2) fields -> P (TExplicit fields)) -> forall t, P t.
Proof.
  intros H1 H2 H3 H4 H5 H6 H7 H8. fix IH 1.
  intros [|min max|t|t|fields| | |fields]; [exact H1|apply H2|apply H3, IH|apply H4, IH| |exact H6|exact H7|].
  - apply H5. induction fields as [|f fields IHf]; constructor; [apply IH|exact IHf].
  - apply H8. induction fields as [|f fields IHf]; constructor; [apply IH|exact IHf].
Qed.

Lemma FormatInt_decimal z : 0 <= z -> decimal (FormatInt z) /\ digits_value 0 (FormatInt z) = z.
Proof.
  intros H. unfold FormatInt. rewrite (proj2 (Z.ltb_ge z 0)) by done. destruct (FormatUint_decimal (Z.to_N z)) as [H1 H2].
  split; [done|]. rewrite H2. lia.
Qed.

Lemma parse_int_format min max z : 0 <= z -> min <= z <= max -> parse_int min max (FormatInt z) = Some z.
Proof.
  intros H0 H. destruct (FormatInt_decimal z H0) as [(Hd & Hne & _) Hv]. unfold parse_int.
  destruct (FormatInt z) as [|c s] eqn:E; [done|].
  assert (Hc : is_digit c = true) by (unfold str_forall in Hd; cbn in Hd; by apply andb_true_iff in Hd as [? _]).
  rewrite (bool_decide_false (byte_val c = 45)) by (unfold is_digit in Hc; lia).
  rewrite (bool_decide_false (String c s = "")) by done. rewrite Hd, Hv. cbn [andb orb negb].
  by rewrite (proj2 (Z.leb_le _ _)), (proj2 (Z.leb_le _ _)) by lia.
Qed.

Lemma type_ok_struct fields : type_ok (TStruct fields) = true ->
  NoDup ((fun f => f.1.1) <$> fields) /\ Forall (fun f => plain f.1.1) fields /\ Forall (fun f => type_ok f.2 = true) fields.
Proof.
  cbn [type_ok]. intros [[Hnd Hp]%andb_true_iff Ht]%andb_true_iff. rewrite bool_decide_eq_true in Hnd.
  rewrite forallb_forall in Hp, Ht. split_and!; [done|..]; apply Forall_forall; intros f Hf%list_elem_of_In; [|by apply Ht].
  by apply Hp, bool_decide_eq_true in Hf.
Qed.

Lemma type_ok_explicit fields : type_ok (TExplicit fields) = true ->
  type_ok (TStruct fields) = true /\ Forall (fun f => scalar f.2 = true /\ f.1.2 = false) fields.
Proof.
  cbn [type_ok]. intros [Hn Hs]%andb_true_iff. rewrite Hn. cbn [andb]. rewrite forallb_forall in Hs. split.
  - apply forallb_forall. intros f Hf. specialize (Hs f Hf). apply andb_true_iff in Hs as [Hs _]. by destruct f as [? []].
  - apply Forall_forall. intros f Hf%list_elem_of_In%Hs. apply andb_true_iff in Hf as [? ?%negb_true_iff]. done.
Qed.

(** What is written has the strings of the value and the names of the fields. *)
Lemma encode_fields_in (P : string -> Prop) fields vs : (forall s, plain s -> P s) ->
  Forall (fun f => forall v, type_ok f.2 = true -> val_in P f.2 v -> json_in P (encode f.2 v)) fields ->
  type_ok (TStruct fields) = true -> fields_ok (val_in P) fields vs -> json_in P (JObj (encode_fields encode fields vs)).
Proof.
  intros HP IH Ht Hv. apply in_members. apply type_ok_struct in Ht as (_ & Hp & Ht). revert vs Hv.
  induction IH as [|[[name omit] t] fields IHt IHf IHl]; intros [|v vs] Hv; try done. cbn [encode_fields].
  destruct Hv as (Hv & _ & Hvs). apply Forall_cons in Hp as [Hn Hp], Ht as [Ht Hts].
  specialize (IHl Hp Hts vs Hvs). destruct (omit && is_empty v); [done|]. constructor; [|done]. split; [by apply HP|by apply IHt].
Qed.

Lemma encode_in (P : string -> Prop) t v : (forall s, plain s -> P s) -> type_ok t = true -> val_in P t v -> json_in P (encode t v).
Proof.
  intros HP. revert v. induction t as [|min max|t IH|t IH|fields IH| | |fields IH] using gtype_induction; intros v Ht Hv.
  - by destruct v.
  - destruct v; try done. by apply FormatInt_decimal, Hv.
  - destruct v as [| |[v|]| | | |]; try done. cbn in Ht. apply IH; [by destruct t|done].
  - destruct v as [| | |[] elems spare| | |]; try done. cbn [encode]. destruct Hv as (_ & _ & Hv). apply in_elements.
    apply Forall_fmap. eapply Forall_impl; [exact Hv|]. intros x Hx. by apply IH.
  - destruct v as [| | | |vs| |]; try done. by apply encode_fields_in.
  - by destruct v.
  - destruct v; try done. apply HP, FormatTime_plain.
  - destruct v as [| | | |vs| |]; try done. apply encode_fields_in; [done|done|by apply type_ok_explicit|done].
Qed.
Lemma encode_plain t v : type_ok t = true -> val_ok t v -> plain_json (encode t v).
Proof. by apply encode_in. Qed.

Definition reads_back_as (strict : bool) (t : gtype) (v : gval) : Prop :=
  through_pointer (decode strict (encode t v)) (encode t v) t (zero t) = Some v.
Definition reads_back (t : gtype) : Prop := forall P strict v, type_ok t = true -> val_in P t v -> reads_back_as strict t v.

Lemma find_field_exact names i name : NoDup names -> names !! i = Some name -> find_field names name = Some i.
Proof.
  intros Hnd Hi. unfold find_field.
  assert (list_find (eq name) names = Some (i, name)) as ->; [|done].
  apply list_find_Some. split_and!; [done|done|]. intros j y Hj Hlt ->. pose proof (NoDup_lookup _ _ _ _ Hnd Hi Hj). lia.
Qed.

Lemma decode_elements_written strict t elems : Forall (reads_back_as strict t) elems ->
  decode_elements (decode strict) t (encode t <$> elems) [] = Some elems.
Proof.
  induction elems as [|v elems IHe]; [done|]. intros [Hv Hvs]%Forall_cons. rewrite fmap_cons.
  cbn [decode_elements head tail default]. rewrite Hv. cbn [mbind option_bind]. by rewrite IHe.
Qed.

(** Members are decoded in the order of the fields: those of [pre] are done, those of
    [post] are still zero. *)
Lemma decode_members_written strict pre post prev vs : length prev = length pre ->
  NoDup ((fun f => f.1.1) <$> pre ++ post) ->
  Forall2 (fun f v => reads_back_as strict f.2 v /\ (f.1.2 && is_empty v = true -> v = zero f.2)) post vs ->
  decode_members strict (decode strict) (pre ++ post) (encode_fields encode post vs) (prev ++ ((fun f => zero f.2) <$> post)) = Some (prev ++ vs).
Proof.
  intros Hlen Hnd Hb. revert pre prev Hlen Hnd. induction Hb as [|[[name omit] t] v post vs [Hback Hz] Hb IH]; intros pre prev Hlen Hnd; [done|].
  cbn [encode_fields fst snd] in *.
  assert (Hnext : forall x, x = v -> decode_members strict (decode strict) (pre ++ (name, omit, t) :: post) (encode_fields encode post vs)
    (prev ++ x :: ((fun f => zero f.2) <$> post)) = Some (prev ++ v :: vs)).
  { intros x ->. specialize (IH (pre ++ [(name, omit, t)]) (prev ++ [v])). rewrite <- !app_assoc in IH. cbn [app] in IH.
    apply IH; try done. rewrite !length_app, Hlen. done. }
  rewrite fmap_cons. cbn [snd]. destruct (omit && is_empty v) eqn:E; [apply Hnext; by rewrite Hz|].
  cbn [decode_members]. rewrite (find_field_exact _ (length pre) name);
    [|done|by rewrite fmap_app, lookup_app_r, length_fmap, Nat.sub_diag by (by rewrite length_fmap)].
  cbv iota. rewrite (list_lookup_middle pre) by done. cbn [mbind option_bind].
  rewrite (list_lookup_middle prev) by done. cbn [mbind option_bind snd].
  rewrite Hback. cbn [mbind option_bind]. rewrite <- Hlen, insert_app_r_alt, Nat.sub_diag by done.
  by apply Hnext.
Qed.

Lemma fields_written P strict fields vs : Forall (fun f => reads_back f.2) fields -> Forall (fun f => type_ok f.2 = true) fields ->
  fields_ok (val_in P) fields vs ->
  Forall2 (fun f v => reads_back_as strict f.2 v /\ (f.1.2 && is_empty v = true -> v = zero f.2)) fields vs.
Proof.
  intros Hb. revert vs. induction Hb as [|[[name omit] t] fields Ht Hb IH]; intros [|v vs] Hty Hv; try done.
  destruct Hv as (Hv & Hz & Hvs). apply Forall_cons in Hty as [Hty1 Hty]. constructor; [split; [by apply (Ht P)|done]|by apply IH].
Qed.

Lemma written_not_null P fields v : val_in P (TStruct fields) v -> exists members, encode (TStruct fields) v = JObj members.
Proof. destruct v; try done. intros _. by eexists. Qed.

(** An explicit struct: what was written reads back through the pointers. *)
Lemma scalar_wire P strict t v : scalar t = true -> val_in P t v -> reads_back_as strict t v -> reads_back_as strict (TPtr t) (VPtr (Some v)).
Proof.
  unfold reads_back_as. intros Hs Hv Hb.
  assert (Hj : encode t v <> JNull) by (destruct t, v; done).
  assert (Hd : decode strict (encode t v) t (zero t) = Some v) by (by destruct t).
  cbn [through_pointer encode zero]. destruct (encode t v); try done; by rewrite Hd.
Qed.

Lemma wire_written P fields vs : Forall (fun f => scalar f.2 = true /\ f.1.2 = false) fields ->
  fields_ok (val_in P) fields vs ->
  encode_fields encode fields vs = encode_fields encode (wire fields) (VPtr ∘ Some <$> vs).
Proof.
  intros Hs. revert vs. induction Hs as [|[[name omit] t] fields [Ht Ho] Hs IH]; intros [|v vs] Hv; try done.
  destruct Hv as (Hv & _ & Hvs). cbn in Ho. subst omit. cbn [wire fmap list_fmap encode_fields fst snd andb]. f_equal. by apply IH.
Qed.

Lemma wire_reads_back P fields vs : Forall (fun f => scalar f.2 = true /\ f.1.2 = false) fields -> fields_ok (val_in P) fields vs ->
  Forall2 (fun f v => reads_back_as true f.2 v /\ (f.1.2 && is_empty v = true -> v = zero f.2)) fields vs ->
  Forall2 (fun f v => reads_back_as true f.2 v /\ (f.1.2 && is_empty v = true -> v = zero f.2)) (wire fields) (VPtr ∘ Some <$> vs).
Proof.
  intros Hs Hv Hw. revert Hs Hv. induction Hw as [|[[name omit] t] v fields vs [Hr _] Hw IH]; intros Hs Hv; [constructor|].
  apply Forall_cons in Hs as [[Hs1 _] Hs]. cbn in Hv. destruct Hv as (Hv & _ & Hvs).
  constructor; [split; [by apply (scalar_wire P)|done]|by apply IH].
Qed.

Lemma decode_explicit P strict fields vs : Forall (fun f => reads_back f.2) fields -> type_ok (TExplicit fields) = true ->
  fields_ok (val_in P) fields vs -> decode strict (encode (TExplicit fields) (VStruct vs)) (TExplicit fields) (zero (TExplicit fields)) = Some (VStruct vs).
Proof.
  intros Hb [Ht Hs]%type_ok_explicit Hv. apply type_ok_struct in Ht as (Hnd & _ & Ht). cbn [encode decode].
  rewrite (wire_written P) by done.
  pose proof (decode_members_written true [] (wire fields) [] (VPtr ∘ Some <$> vs) eq_refl) as E. cbn [app] in E.
  replace ((fun _ => VPtr None) <$> fields) with ((fun f : string * bool * gtype => zero f.2) <$> wire fields)
    by (unfold wire; by rewrite <- list_fmap_compose).
  rewrite E.
  - cbn [mbind option_bind]. assert (mapM deref (VPtr ∘ Some <$> vs) = Some vs) as ->; [|done].
    clear. induction vs as [|v vs IH]; [done|]. cbn [fmap list_fmap mapM compose deref mbind option_bind] in *. by rewrite IH.
  - unfold wire. rewrite <- list_fmap_compose. exact Hnd.
  - apply (wire_reads_back P); [done|done|by apply (fields_written P)].
Qed.

Lemma decode_encode t : reads_back t.
Proof.
  unfold reads_back, reads_back_as. induction t as [|min max|t IH|t IH|fields IH| | |fields IH] using gtype_induction; intros P strict v Ht Hv.
  - by destruct v.
  - destruct v as [|z| | | | |]; try done. cbn. by rewrite parse_int_format by apply Hv.
  - destruct v as [| |[v|]| | | |]; try done. cbn in Ht. destruct t as [| | | |fields| | |]; try done. cbn [val_in] in Hv.
    specialize (IH P strict v Ht Hv). cbn [through_pointer encode] in *. destruct (written_not_null P fields v Hv) as [m E].
    cbn [encode] in E. change (zero (TPtr _)) with (VPtr None). cbv iota. rewrite E in *. by rewrite IH.
  - destruct v as [| | |made elems spare| | |]; try done. destruct Hv as (-> & Hmade & Hv). destruct made; [|by rewrite Hmade].
    cbn [through_pointer encode].
    assert (E : decode_elements (decode strict) t (encode t <$> elems) [] = Some elems).
    { apply decode_elements_written. eapply Forall_impl; [exact Hv|]. intros x Hx. by apply (IH P). }
    destruct elems as [|x elems]; [done|].
    rewrite fmap_cons in *. cbn [decode zero app]. rewrite E. cbn [mbind option_bind]. by rewrite drop_nil.
  - destruct v as [| | | |vs| |]; try done. cbn [through_pointer encode decode zero].
    apply type_ok_struct in Ht as (Hnd & _ & Ht).
    pose proof (decode_members_written strict [] fields [] vs eq_refl Hnd) as E. cbn [app] in E. rewrite E; [done|].
    by apply (fields_written P).
  - by destruct v.
  - destruct v as [| | | | | |t]; try done. cbn [through_pointer encode decode zero]. by rewrite ParseTime_FormatTime.
  - destruct v as [| | | |vs| |]; try done. cbn [through_pointer]. by apply (decode_explicit P).
Qed.

(** What [Marshal] writes, [Unmarshal] reads back; what [MarshalIndent] writes too, with
    any valid UTF-8 in the strings. *)
Lemma decode_written {A} (c : codec A) P strict x : (match c_type c with TPtr _ => False | _ => True end) ->
  type_ok (c_type c) = true -> val_in P (c_type c) (c_to c x) ->
  (v ← decode strict (encode (c_type c) (c_to c x)) (c_type c) (zero (c_type c)); c_of c v) = Some x.
Proof.
  intros Hp Ht Hv. pose proof (decode_encode (c_type c) P strict (c_to c x) Ht Hv) as E. unfold reads_back_as in E.
  destruct (c_type c); try done; cbn [through_pointer] in E; rewrite E; cbn [mbind option_bind]; apply c_law.
Qed.
Lemma unmarshal_marshal {A} (c : codec A) x : (match c_type c with TPtr _ => False | _ => True end) ->
  type_ok (c_type c) = true -> val_ok (c_type c) (c_to c x) -> Unmarshal c (Marshal c x) = Some x.
Proof.
  intros Hp Ht Hv. unfold Unmarshal, Marshal. rewrite parse_write by (by apply encode_plain). cbn [mbind option_bind].
  by apply (decode_written c plain).
Qed.
Lemma unmarshal_loose_marshal {A} (c : codec A) x : (match c_type c with TPtr _ => False | _ => True end) ->
  type_ok (c_type c) = true -> val_ok (c_type c) (c_to c x) -> UnmarshalLoose c (Marshal c x) = Some x.
Proof.
  intros Hp Ht Hv. unfold UnmarshalLoose, Marshal. rewrite parse_write by (by apply encode_plain). cbn [mbind option_bind].
  by apply (decode_written c plain).
Qed.
Lemma unmarshal_indented {A} (c : codec A) x : (match c_type c with TPtr _ => False | _ => True end) ->
  type_ok (c_type c) = true -> val_in text (c_type c) (c_to c x) -> UnmarshalLoose c (MarshalIndent c x) = Some x.
Proof.
  intros Hp Ht Hv. unfold UnmarshalLoose, MarshalIndent.
  rewrite parse_indented by (apply encode_in; [apply plain_text|done|done]). cbn [mbind option_bind].
  by apply (decode_written c text).
Qed.

(** ** The codecs of the basic types *)
Definition c_string : codec string :=
  {| c_type := TString; c_to := VString; c_of v := match v with VString s => Some s | _ => None end; c_law x := eq_refl |}.
Definition c_int (min max : Z) : codec Z :=
  {| c_type := TInt min max; c_to := VInt; c_of v := match v with VInt z => Some z | _ => None end; c_law x := eq_refl |}.
Definition c_uint64 : codec Z := c_int 0 (2 ^ 64 - 1).
Definition c_int64 : codec Z := c_int (- 2 ^ 63) (2 ^ 63 - 1).
Definition c_uint8 : codec Z := c_int 0 255.

Definition ptr_to {A} (c : codec A) (o : option A) : gval := VPtr (c_to c <$> o).
Definition ptr_of {A} (c : codec A) (v : gval) : option (option A) :=
  match v with
  | VPtr None => Some None
  | VPtr (Some v) => Some <$> c_of c v
  | _ => None
  end.
Lemma ptr_law {A} (c : codec A) o : ptr_of c (ptr_to c o) = Some o.
Proof. destruct o as [x|]; cbn; [|done]. by rewrite c_law. Qed.
Definition c_ptr {A} (c : codec A) : codec (option A) :=
  {| c_type := TPtr (c_type c); c_to := ptr_to c; c_of := ptr_of c; c_law := ptr_law c |}.

(** A slice: [None] is the nil slice. *)
Abbreviation goslice A := (option (list A)) (only parsing).
Definition range {A} (s : goslice A) : list A := default [] s.
(** [append([]A(nil), l...)] *)
Definition append_nil {A} (l : list A) : goslice A := match l with [] => None | _ => Some l end.

Lemma mapM_law {A} (c : codec A) l : mapM (c_of c) (c_to c <$> l) = Some l.
Proof. induction l as [|x l IH]; [done|]. rewrite fmap_cons. cbn [mapM]. by rewrite c_law, IH. Qed.

Definition slice_to {A} (c : codec A) (s : goslice A) : gval :=
  VSlice (match s with Some _ => true | None => false end) (c_to c <$> range s) [].
Definition slice_of {A} (c : codec A) (v : gval) : option (goslice A) :=
  match v with
  | VSlice true elems _ => Some <$> mapM (c_of c) elems
  | VSlice false _ _ => Some None
  | _ => None
  end.
Lemma slice_law {A} (c : codec A) s : slice_of c (slice_to c s) = Some s.
Proof. destruct s as [l|]; cbn; [|done]. by rewrite mapM_law. Qed.
Definition c_slice {A} (c : codec A) : codec (goslice A) :=
  {| c_type := TSlice (c_type c); c_to := slice_to c; c_of := slice_of c; c_law := slice_law c |}.

(** A slice that the program only ranges over and copies: nil and empty are not told
    apart, and it is written as its copy [append([]A(nil), l...)]. *)
Definition list_of {A} (c : codec A) (v : gval) : option (list A) := range <$> slice_of c v.
Lemma list_law {A} (c : codec A) l : list_of c (slice_to c (append_nil l)) = Some l.
Proof. unfold list_of. rewrite slice_law. by destruct l. Qed.
Definition c_list {A} (c : codec A) : codec (list A) :=
  {| c_type := TSlice (c_type c); c_to l := slice_to c (append_nil l); c_of := list_of c; c_law := list_law c |}.

Lemma range_append_nil {A} (l : list A) : range (append_nil l) = l.
Proof. by destruct l. Qed.

Definition c_bool : codec bool :=
  {| c_type := TBool; c_to := VBool; c_of v := match v with VBool b => Some b | _ => None end; c_law x := eq_refl |}.
Definition c_time : codec time :=
  {| c_type := TTime; c_to := VTime; c_of v := match v with VTime t => Some t | _ => None end; c_law x := eq_refl |}.

(** *** Well-formed values of the basic types *)
Lemma c_slice_ok {A} {P} (c : codec A) s : (forall x, x ∈ range s -> val_in P (c_type c) (c_to c x)) -> val_in P (c_type (c_slice c)) (c_to (c_slice c) s).
Proof.
  intros H. cbn. split_and!; [done|by destruct s|]. apply Forall_fmap, Forall_forall. intros x Hx. by apply H.
Qed.
Lemma c_list_ok {A} {P} (c : codec A) l : (forall x, x ∈ l -> val_in P (c_type c) (c_to c x)) -> val_in P (c_type (c_list c)) (c_to (c_list c) l).
Proof. intros H. apply c_slice_ok. by rewrite range_append_nil. Qed.
Lemma c_ptr_ok {A} {P} (c : codec A) o : (forall x, o = Some x -> val_in P (c_type c) (c_to c x)) -> val_in P (c_type (c_ptr c)) (c_to (c_ptr c) o).
Proof. intros H. destruct o as [x|]; [by apply H|done]. Qed.

(** ** What is decoded fits its type *)
Definition fields_fit (fit : gtype -> gval -> Prop) :=
  fix go (fields : list (string * bool * gtype)) (vs : list gval) : Prop :=
    match fields, vs with
    | [], [] => True
    | (_, _, t) :: fields, v :: vs => fit t v /\ go fields vs
    | _, _ => False
    end.

Fixpoint well_typed (t : gtype) (v : gval) : Prop :=
  match t, v with
  | TString, VString _ => True
  | TInt min max, VInt z => min <= z <= max
  | TPtr _, VPtr None => True
  | TPtr t, VPtr (Some v) => well_typed t v
  | TSlice t, VSlice _ elems spare => Forall (well_typed t) (elems ++ spare)
  | (TStruct fields | TExplicit fields), VStruct vs => fields_fit well_typed fields vs
  | TBool, VBool _ | TTime, VTime _ => True
  | _, _ => False
  end.

(** Every integer type has a zero. *)
Fixpoint has_zero (t : gtype) : bool :=
  match t with
  | TString | TBool | TTime => true
  | TInt min max => (min <=? 0) && (0 <=? max)
  | TPtr t | TSlice t => has_zero t
  | TStruct fields | TExplicit fields => forallb (fun f => has_zero f.2) fields
  end.

Lemma fields_fit_Forall2 fields vs : fields_fit well_typed fields vs <-> Forall2 (fun f v => well_typed f.2 v) fields vs.
Proof.
  revert vs. induction fields as [|[[name om] t] fields IH]; intros [|v vs]; cbn [fields_fit].
  - split; [constructor|done].
  - split; [done|inversion 1].
  - split; [done|inversion 1].
  - by rewrite IH, Forall2_cons.
Qed.

Lemma has_zero_fields fields : forallb (fun f : string * bool * gtype => has_zero f.2) fields = true -> Forall (fun f => has_zero f.2 = true) fields.
Proof. intros H. apply Forall_forall. rewrite forallb_forall in H. intros f Hf. by apply H, list_elem_of_In. Qed.

Lemma zeros_fit fields : Forall (fun f => has_zero f.2 = true -> well_typed f.2 (zero f.2)) fields -> Forall (fun f => has_zero f.2 = true) fields ->
  fields_fit well_typed fields ((fun f => zero f.2) <$> fields).
Proof.
  intros IH Hz. apply fields_fit_Forall2, Forall2_fmap_r, Forall_Forall2_diag, Forall_forall. rewrite Forall_forall in IH, Hz. eauto.
Qed.

Lemma zero_fits t : has_zero t = true -> well_typed t (zero t).
Proof.
  induction t as [|min max|t IH|t IH|fields IH| | |fields IH] using gtype_induction; intros H; cbn [has_zero] in H; try done.
  - cbn. breflect. lia.
  - constructor.
  - apply zeros_fit; [done|by apply has_zero_fields].
  - apply zeros_fit; [done|by apply has_zero_fields].
Qed.

Lemma parse_int_range min max d z : parse_int min max d = Some z -> min <= z <= max.
Proof.
  unfold parse_int. destruct (match d with EmptyString => _ | String _ _ => _ end) as [neg digits].
  destruct (_ || _); [done|]. destruct (_ && _) eqn:E; [|done]. intros [= <-]. breflect. done.
Qed.

Definition decodes_in_range (j : json) : Prop := forall strict t cur v, has_zero t = true -> well_typed t cur -> decode strict j t cur = Some v -> well_typed t v.

Lemma through_pointer_fits strict j t cur v : decodes_in_range j -> has_zero t = true -> well_typed t cur ->
  through_pointer (decode strict j) j t cur = Some v -> well_typed t v.
Proof.
  intros Hj Hz Hc. destruct t as [|min max|t|t|fields| | |fields]; try by apply Hj. cbn [through_pointer].
  intros H. assert (Hne : j = JNull \/ j <> JNull) by (destruct j; solve [by left | by right]).
  destruct Hne as [->|Hne]; [injection H as <-; done|].
  assert (H' : (v ← decode strict j t (match cur with VPtr (Some v) => v | _ => zero t end); Some (VPtr (Some v))) = Some v)
    by (by destruct j).
  apply bind_Some in H' as (w & Hw & [= <-]). cbn [well_typed]. eapply Hj; [done| |exact Hw].
  destruct cur as [| |[c|]| | | |]; try by apply zero_fits. done.
Qed.

Lemma elements_fit strict t l old vs : Forall decodes_in_range l -> has_zero t = true -> Forall (well_typed t) old ->
  decode_elements (decode strict) t l old = Some vs -> Forall (well_typed t) vs.
Proof.
  intros Hl Hz. revert old vs. induction Hl as [|x l Hx Hl IH]; intros old vs Hold; cbn [decode_elements]; [by intros [= <-]|].
  intros (v & Hv & (ws & Hws & [= <-])%bind_Some)%bind_Some. constructor.
  - eapply through_pointer_fits; [done|done| |exact Hv]. destruct Hold; [by apply zero_fits|done].
  - eapply IH; [|exact Hws]. by destruct Hold.
Qed.

Lemma members_fit strict fields l cur vs : Forall (fun m => decodes_in_range m.2) l -> Forall (fun f => has_zero f.2 = true) fields ->
  Forall2 (fun f v => well_typed f.2 v) fields cur -> decode_members strict (decode strict) fields l cur = Some vs ->
  Forall2 (fun f v => well_typed f.2 v) fields vs.
Proof.
  intros Hl Hz. revert cur vs. induction Hl as [|[key x] l Hx Hl IH]; intros cur vs Hcur; cbn [decode_members]; [by intros [= <-]|].
  destruct (find_field _ key) as [i|]; [|destruct strict; [done|by apply IH]].
  intros (f & Hf & (c & Hc & (v & Hv & Hrest)%bind_Some)%bind_Some)%bind_Some.
  apply (IH (<[i := v]> cur)); [|exact Hrest]. rewrite Forall_forall in Hz.
  assert (Hfit : well_typed f.2 v).
  { eapply through_pointer_fits; [done|apply Hz; by eapply list_elem_of_lookup_2| |exact Hv].
    by eapply (Forall2_lookup_lr _ _ _ _ _ _ Hcur). }
  rewrite <- (list_insert_id fields i f) by done. by apply Forall2_insert.
Qed.

Lemma deref_fits fields vs ws : Forall2 (fun f v => well_typed f.2 v) (wire fields) vs -> mapM deref vs = Some ws ->
  Forall2 (fun f v => well_typed f.2 v) fields ws.
Proof.
  intros Hf Hm%mapM_Some. revert vs Hf Hm. induction ws as [|w ws IH] in fields |- *; intros vs Hf Hm; inversion Hm as [|v ? vs' ? Hd Hm']; subst.
  - apply Forall2_nil_inv_r in Hf. destruct fields; [constructor|done].
  - destruct fields as [|f fields]; [inversion Hf|]. apply Forall2_cons in Hf as [Hf1 Hf]. constructor; [|by eapply IH].
    destruct v as [| |[]| | | |]; try done. by injection Hd as <-.
Qed.

Lemma explicit_fits fields l vs ws : Forall (fun m => decodes_in_range m.2) l -> Forall (fun f => has_zero f.2 = true) fields ->
  decode_members true (decode true) (wire fields) l ((fun _ => VPtr None) <$> fields) = Some vs -> mapM deref vs = Some ws ->
  fields_fit well_typed fields ws.
Proof.
  intros Hl Hz Hd Hm. apply fields_fit_Forall2. eapply deref_fits; [|exact Hm]. eapply members_fit; [exact Hl| | |exact Hd].
  - unfold wire. by apply Forall_fmap.
  - unfold wire. apply Forall2_fmap, Forall_Forall2_diag, Forall_forall. done.
Qed.

Lemma decode_fits j : decodes_in_range j.
Proof.
  induction j as [|b|d|s|l IH|l IH] using json_induction; intros strict t cur v Hz Hc Hd.
  - destruct t; try done; injection Hd as <-; try done. constructor.
  - destruct t; try done. by injection Hd as <-.
  - destruct t; try done. cbn [decode] in Hd. apply bind_Some in Hd as (z & Hp & [= <-]). by apply parse_int_range in Hp.
  - destruct t; try done; [by injection Hd as <-|]. cbn [decode] in Hd. apply fmap_Some in Hd as (x & _ & ->). done.
  - destruct t as [| | |t| | | |]; try by destruct l. destruct cur as [| | |made elems spare| | |]; try done. cbn [well_typed] in Hc.
    destruct l as [|x l]; [injection Hd as <-; constructor|]. cbn [decode] in Hd. apply bind_Some in Hd as (vs & Hvs & [= <-]).
    cbn [well_typed]. apply Forall_app. split; [by eapply elements_fit|by apply Forall_drop].
  - destruct t as [| | | |fields| | |fields]; try done; destruct cur as [| | | |vs0| |]; try done; cbn [decode] in Hd;
      apply bind_Some in Hd as (vs & Hvs & Hd); cbn [well_typed has_zero] in *; apply has_zero_fields in Hz.
    + injection Hd as <-. apply fields_fit_Forall2. eapply members_fit; [exact IH|done|by apply fields_fit_Forall2|exact Hvs].
    + apply fmap_Some in Hd as (ws & Hws & ->). by eapply explicit_fits.
Qed.

(** The values of a slice. *)
Lemma slice_of_elem {A} (c : codec A) v s x : slice_of c v = Some s -> well_typed (TSlice (c_type c)) v -> x ∈ range s ->
  exists w, c_of c w = Some x /\ well_typed (c_type c) w.
Proof.
  destruct v as [| | |[] elems spare| | |]; try done; cbn [slice_of well_typed]; [|intros [= <-] _ []%elem_of_nil].
  intros (l & Hl & E)%fmap_Some Hf Hx. subst s. apply Forall_app in Hf as [Hf _]. apply mapM_Some in Hl.
  apply list_elem_of_lookup in Hx as [i Hi]. destruct (Forall2_lookup_r _ _ _ _ _ Hl Hi) as (w & Hw & Ew). exists w.
  split; [done|]. rewrite Forall_forall in Hf. by eapply Hf, list_elem_of_lookup_2.
Qed.

Lemma unmarshal_fits {A} (c : codec A) body x : has_zero (c_type c) = true -> Unmarshal c body = Some x ->
  exists v, c_of c v = Some x /\ well_typed (c_type c) v.
Proof.
  intros Hz (j & _ & (v & Hv & Hx)%bind_Some)%bind_Some. exists v. split; [done|].
  eapply decode_fits; [done|by apply zero_fits|exact Hv].
Qed.

(** ** How long a written value is *)
Fixpoint json_len (j : json) : nat :=
  match j with
  | JNull => 4
  | JBool _ => 5
  | JNum literal => String.length literal
  | JStr s => String.length s + 2
  | JArr l => 2 + foldr (fun x n => S (json_len x) + n) 0 l
  | JObj members => 2 + foldr (fun m n => String.length m.1 + 4 + json_len m.2 + n) 0 members
  end%nat.

Lemma length_Join l : (String.length (Join l ",") <= foldr (fun x n => S (String.length x) + n) 0 l)%nat.
Proof.
  induction l as [|x l IH]; [done|]. cbn [Join foldr]. destruct l as [|y l]; [cbn; lia|].
  rewrite !length_string_app. cbn [String.length] in *. lia.
Qed.

Lemma write_length j : plain_json j -> (String.length (write j) <= json_len j)%nat.
Proof.
  induction j as [|b|d|s|l IH|l IH] using json_induction; intros Hp.
  - done.
  - destruct b; cbn; lia.
  - done.
  - cbn [write json_len]. rewrite write_plain by done. cbn [String.length]. rewrite length_string_app. cbn. lia.
  - cbn [write json_len]. rewrite !length_string_app. pose proof (length_Join (write <$> l)) as Hj. cbn [String.length] in *.
    assert (Hle : (foldr (fun x n => S (String.length x) + n) 0 (write <$> l) <= foldr (fun x n => S (json_len x) + n) 0 l)%nat); [|lia].
    clear Hj. cbn [json_in] in Hp. induction IH as [|x l Hx IH IHl]; [done|]. destruct Hp as [Hpx Hp]. cbn [fmap list_fmap foldr].
    specialize (Hx Hpx). specialize (IHl Hp). cbn [fmap] in IHl. lia.
  - cbn [write json_len]. rewrite !length_string_app.
    pose proof (length_Join ((fun m => write_string m.1 +:+ ":" +:+ write m.2) <$> l)) as Hj. cbn [String.length] in *.
    assert (Hle : (foldr (fun x n => S (String.length x) + n) 0 ((fun m => write_string m.1 +:+ ":" +:+ write m.2) <$> l) <=
      foldr (fun m n => String.length m.1 + 4 + json_len m.2 + n) 0 l)%nat); [|lia].
    clear Hj. cbn [json_in] in Hp. induction IH as [|[k x] l Hx IH IHl]; [done|]. destruct Hp as [[Hk Hpx] Hp]. cbn [fmap list_fmap foldr fst snd] in *.
    specialize (Hx Hpx). specialize (IHl Hp). rewrite !length_string_app, write_plain by done. cbn [String.length]. rewrite length_string_app.
    cbn [String.length]. lia.
Qed.
