(* ===== verification/GoRecord.v ===== *)
(** * Records: the fields of written structs

    How the codec of a record is put together from its fields, which strings are
    written without escapes ([plain]) because of the pattern they match, and the
    tactics that check a record field by field.  Last, that the strings of a decoded
    value are UTF-8, whatever bytes the text had. *)

From S2P Require Import Prelude GoStrings GoRegexp GoJson GoTime GoReflect.

(** A field that is always written, and one that is left out when empty. *)
Definition req {A} (name : string) (c : codec A) : string * bool * gtype := (name, false, c_type c).
Definition omit {A} (name : string) (c : codec A) : string * bool * gtype := (name, true, c_type c).

(** ** Plain strings *)
Lemma plain_empty : plain "".
Proof. constructor. Qed.

Create HintDb plain discriminated.
#[export] Hint Constants Opaque : plain.
#[export] Hint Resolve plain_empty : plain.

Ltac plain_const := apply (bool_decide_unpack _); vm_compute; exact I.

(** Classes of plain bytes. *)
Definition plain_in (p : Z -> bool) : Prop := forall z, p z = true -> plain_byte z.

Lemma plain_rng a b : forallb (fun z => bool_decide (plain_byte z)) (seqZ (code a) (code b - code a + 1)) = true -> plain_in (rng a b).
Proof.
  intros H z Hz. unfold rng in Hz. rewrite forallb_forall in H. specialize (H z). apply bool_decide_eq_true in H; [done|].
  apply list_elem_of_In, elem_of_seqZ. lia.
Qed.
Lemma plain_union p q : plain_in p -> plain_in q -> plain_in (p ⊎ q).
Proof. intros Hp Hq z [?|?]%orb_true_iff; auto. Qed.
Lemma plain_one_of s : plain s -> plain_in (one_of s).
Proof.
  intros H z Hz. unfold one_of in Hz. apply existsb_exists in Hz as (c & Hc & ->%bool_decide_eq_true).
  unfold plain, each_byte in H. rewrite Forall_forall in H. by apply H, list_elem_of_In.
Qed.
Lemma plain_letter c : plain_byte c -> plain_in (fun z => z =? c).
Proof. intros H z ->%bool_decide_eq_true. done. Qed.

Ltac plain_class :=
  lazymatch goal with
  | |- plain_in (rng _ _) => apply plain_rng; vm_compute; reflexivity
  | |- plain_in (cunion _ _) => apply plain_union; plain_class
  | |- plain_in (one_of _) => apply plain_one_of; plain_const
  | |- plain_in (fun z => z =? _) => apply plain_letter; plain_const
  | |- plain_in ?p => unfold p; plain_class
  end.
Ltac plain_pattern :=
  apply match_whole_bytes; [unfold plain_byte; lia|];
  cbn [classes_in seqs star plus opt lit];
  repeat lazymatch goal with
         | |- classes_in _ (upto _ _) => apply classes_in_upto
         | |- classes_in _ (times _ _) => apply classes_in_times
         | |- classes_in _ (Alt _ _) => split
         | |- classes_in _ (Seq _ _) => split
         | |- forall z, (z =? ?c) = true -> _ => apply (plain_letter c); plain_const
         | |- forall z, ?p z = true -> _ => change (plain_in p); plain_class
         | |- classes_in _ (Class ?p) => change (plain_in p); plain_class
         | |- _ /\ _ => split
         | |- True => exact I
         end.

Lemma plain_hex_id p n s : plain p -> MatchString (whole (Seq (lit p) (times n (Class hexlow)))) s = true -> plain s.
Proof.
  intros Hp. apply match_whole_bytes; [unfold plain_byte; lia|]. cbn [classes_in]. split.
  - clear s. induction p as [|c p IH]; [done|]. apply plain_cons in Hp as [Hc Hp]. cbn [lit classes_in]. split; [|by apply IH].
    intros z ->%bool_decide_eq_true. done.
  - apply classes_in_times. cbn [classes_in]. change (plain_in hexlow). plain_class.
Qed.

Lemma plain_optional s (p : string -> bool) : (s <>? "") && negb (p s) = false -> (p s = true -> plain s) -> plain s.
Proof.
  intros H Hp. destruct (bool_decide_reflect (s = "")) as [->|_]; [exact plain_empty|]. cbn in H. apply Hp. by apply negb_false_iff.
Qed.

(** ** Fields of records *)
Section fields.
  Context {A : Type} (c : codec A).

Lemma field_req name x fields vs : val_ok (c_type c) (c_to c x) -> fields_ok val_ok fields vs ->
  fields_ok val_ok (req name c :: fields) (c_to c x :: vs).
Proof. intros. cbn. by split_and!. Qed.

Definition omits (x : A) : Prop := is_empty (c_to c x) = true -> c_to c x = zero (c_type c).

Lemma field_omit name x fields vs : val_ok (c_type c) (c_to c x) -> omits x -> fields_ok val_ok fields vs ->
  fields_ok val_ok (omit name c :: fields) (c_to c x :: vs).
Proof. intros. cbn. by split_and!. Qed.
End fields.

Lemma omits_string s : omits c_string s.
Proof. intros ->%bool_decide_eq_true. done. Qed.
Lemma omits_int min max z : omits (c_int min max) z.
Proof. intros ->%bool_decide_eq_true. done. Qed.
Lemma omits_uint64 z : omits c_uint64 z.
Proof. apply omits_int. Qed.
Lemma omits_int64 z : omits c_int64 z.
Proof. apply omits_int. Qed.
Lemma omits_ptr {A} (c : codec A) o : omits (c_ptr c) o.
Proof. by destruct o. Qed.
Lemma omits_slice {A} (c : codec A) l : omits (c_slice c) (append_nil l).
Proof. by destruct l. Qed.
Lemma omits_list {A} (c : codec A) l : omits (c_list c) l.
Proof. by destruct l. Qed.
Create HintDb fields.
#[export] Hint Resolve omits_string omits_uint64 omits_int64 omits_ptr omits_slice omits_list : fields.

Lemma string_ok s : plain s -> val_ok (c_type c_string) (c_to c_string s).
Proof. done. Qed.

Lemma struct_ok fields vs : fields_ok val_ok fields vs -> val_ok (TStruct fields) (VStruct vs).
Proof. done. Qed.

(** The fields of a record, and the strings among them that are plain. *)
Ltac each_field :=
  apply struct_ok;
  repeat lazymatch goal with
         | |- fields_ok _ (req _ _ :: _) _ => apply field_req
         | |- fields_ok _ (omit _ _ :: _) _ => apply field_omit; [|by auto with fields|]
         | |- fields_ok _ [] _ => exact I
         end;
  try (apply string_ok; solve [eauto 2 with plain nocore]).

(** Integers at their Go types. *)
Lemma uint64_ok z : in_uint64 z -> val_ok (c_type c_uint64) (c_to c_uint64 z).
Proof. unfold in_uint64, two64. cbn. lia. Qed.
Lemma int64_ok z : in_int64 z -> 0 <= z -> val_ok (c_type c_int64) (c_to c_int64 z).
Proof. unfold in_int64, two63. cbn. lia. Qed.

(** * Decoded strings *)
#[local] Ltac Zify.zify_post_hook ::= Z.to_euclidean_division_equations.

(** ** Encoded runes *)
(** What [AppendRune] writes is decoded as one rune, whatever follows. *)
Lemma encode_rune_valid (r : Z) : exists (b : ascii) (s : string) (g : glyph), encode_rune r = String b s /\ invalid_glyph g = false /\ forall t, decode_rune b (s +:+ t) = (g, t).
Proof.
  unfold encode_rune. set (q := if (r <? 0) || (1114111 <? r) || ((55296 <=? r) && (r <=? 57343)) then RuneError else r).
  assert (Hq : 0 <= q <= 1114111 /\ ~ (55296 <= q <= 57343)).
  { unfold q, RuneError. destruct ((r <? 0) || (1114111 <? r) || ((55296 <=? r) && (r <=? 57343))) eqn:Er; lia. }
  clearbody q. cbv zeta. destruct (Z.ltb_spec q 128) as [H1|H1]; [|destruct (Z.ltb_spec q 2048) as [H2|H2]; [|destruct (Z.ltb_spec q 65536) as [H3|H3]]].
  - exists (chr q), "", (Glyph q (String (chr q) "")). split_and!; [done| |].
    + unfold invalid_glyph, RuneError. cbn [rune bytes]. by rewrite bool_decide_false by lia.
    + intros t. unfold decode_rune. rewrite byte_val_chr by lia. by rewrite (proj2 (Z.ltb_lt _ _)) by lia.
  - set (a := chr (192 + q / 64)). set (b := chr (128 + q mod 64)). exists a, (String b ""), (Glyph q (String a (String b ""))).
    assert (Ha : byte_val a = 192 + q / 64) by (apply byte_val_chr; lia). assert (Hb : byte_val b = 128 + q mod 64) by (apply byte_val_chr; lia).
    split_and!; [done| |].
    + unfold invalid_glyph. cbn [rune bytes]. by rewrite andb_false_r.
    + intros t. rewrite string_app_cons. unfold decode_rune, cont. rewrite Ha, Hb.
      replace (192 + q / 64 <? 128) with false by (symmetry; lia).
      replace ((194 <=? 192 + q / 64) && _ && _) with true by (symmetry; lia).
      do 2 f_equal. lia.
  - set (a := chr (224 + q / 4096)). set (b := chr (128 + q / 64 mod 64)). set (c := chr (128 + q mod 64)).
    exists a, (String b (String c "")), (Glyph q (String a (String b (String c "")))).
    assert (Ha : byte_val a = 224 + q / 4096) by (apply byte_val_chr; lia). assert (Hb : byte_val b = 128 + q / 64 mod 64) by (apply byte_val_chr; lia).
    assert (Hc : byte_val c = 128 + q mod 64) by (apply byte_val_chr; lia).
    split_and!; [done| |].
    + unfold invalid_glyph. cbn [rune bytes]. by rewrite andb_false_r.
    + intros t. rewrite !string_app_cons. unfold decode_rune, cont. cbv zeta. rewrite Ha, Hb, Hc.
      replace (224 + q / 4096 <? 128) with false by (symmetry; lia).
      replace ((194 <=? 224 + q / 4096) && _ && _) with false by (symmetry; lia). cbv iota.
      assert (E : (224 <=? 224 + q / 4096) && (224 + q / 4096 <=? 239) && ((if 224 + q / 4096 =? 224 then 160 else 128) <=? 128 + q / 64 mod 64) &&
        (128 + q / 64 mod 64 <=? (if 224 + q / 4096 =? 237 then 159 else 191)) && ((128 <=? 128 + q mod 64) && (128 + q mod 64 <=? 191)) = true).
      { repeat case_bool_decide; lia. }
      rewrite E. do 2 f_equal. lia.
  - set (a := chr (240 + q / 262144)). set (b := chr (128 + q / 4096 mod 64)). set (c := chr (128 + q / 64 mod 64)). set (d := chr (128 + q mod 64)).
    exists a, (String b (String c (String d ""))), (Glyph q (String a (String b (String c (String d ""))))).
    assert (Ha : byte_val a = 240 + q / 262144) by (apply byte_val_chr; lia). assert (Hb : byte_val b = 128 + q / 4096 mod 64) by (apply byte_val_chr; lia).
    assert (Hc : byte_val c = 128 + q / 64 mod 64) by (apply byte_val_chr; lia). assert (Hd : byte_val d = 128 + q mod 64) by (apply byte_val_chr; lia).
    split_and!; [done| |].
    + unfold invalid_glyph. cbn [rune bytes]. by rewrite andb_false_r.
    + intros t. rewrite !string_app_cons. unfold decode_rune, cont. cbv zeta. rewrite Ha, Hb, Hc, Hd.
      replace (240 + q / 262144 <? 128) with false by (symmetry; lia).
      replace ((194 <=? 240 + q / 262144) && _ && _) with false by (symmetry; lia). cbv iota.
      replace ((224 <=? 240 + q / 262144) && (240 + q / 262144 <=? 239)) with false by (symmetry; lia). cbn [andb].
      assert (E : (240 <=? 240 + q / 262144) && (240 + q / 262144 <=? 244) && ((if 240 + q / 262144 =? 240 then 144 else 128) <=? 128 + q / 4096 mod 64) &&
        (128 + q / 4096 mod 64 <=? (if 240 + q / 262144 =? 244 then 143 else 191)) && ((128 <=? 128 + q / 64 mod 64) && (128 + q / 64 mod 64 <=? 191)) &&
        ((128 <=? 128 + q mod 64) && (128 + q mod 64 <=? 191)) = true).
      { repeat case_bool_decide; lia. }
      rewrite E. do 2 f_equal. lia.
Qed.

(** Runes do not depend on the fuel once it is enough. *)
Lemma runes_fuel_enough n m s : (String.length s <= n)%nat -> (String.length s <= m)%nat -> runes_fuel n s = runes_fuel m s.
Proof.
  revert m s. induction n as [|n IH]; intros m s Hn Hm; [destruct s; [by destruct m|cbn in Hn; lia]|].
  destruct s as [|a s]; [by destruct m|]. destruct m as [|m]; [cbn in Hm; lia|]. cbn [runes_fuel].
  pose proof (decode_rune_raw a s) as [_ Hlen]. destruct (decode_rune a s) as [g rest]. cbn in *. f_equal. apply IH; lia.
Qed.

Lemma text_encoded r s : text s -> text (encode_rune r +:+ s).
Proof.
  destruct (encode_rune_valid r) as (b & u & g & -> & Hg & Hd). unfold text, ValidString, runes_of. intros Hs.
  rewrite string_app_cons. cbn [String.length runes_fuel]. rewrite Hd. cbn [forallb]. rewrite Hg. cbn [negb andb].
  rewrite (runes_fuel_enough _ (String.length s)); [done| |done]. rewrite length_string_app. lia.
Qed.

Lemma text_empty : text "".
Proof. done. Qed.

Lemma text_byte c s : byte_val c < 128 -> text s -> text (String c s).
Proof.
  intros Hc. assert (E : String c s = encode_rune (byte_val c) +:+ s).
  { unfold encode_rune. pose proof (byte_val_range c). replace ((byte_val c <? 0) || _ || _) with false by (symmetry; lia).
    rewrite (proj2 (Z.ltb_lt _ _)) by lia. by rewrite chr_byte_val. }
  rewrite E. apply text_encoded.
Qed.

Lemma text_app s t : text s -> text t -> text (s +:+ t).
Proof.
  intros Hs Ht. remember (String.length s) as n eqn:Hn. assert (Hle : (String.length s <= n)%nat) by lia. clear Hn.
  revert s Hs Hle. induction n as [|n IH]; intros [|a s] Hs Hle; try done; [cbn in Hle; lia|].
  unfold text, ValidString, runes_of in Hs. cbn [String.length runes_fuel] in Hs.
  pose proof (decode_rune_raw a s) as [Hraw Hlen]. destruct (decode_rune a s) as [g rest] eqn:Ed. cbn [fst snd forallb] in *.
  apply andb_true_iff in Hs as [Hg%negb_true_iff Hs]. destruct (decode_rune_again _ _ _ _ Ed Hg) as (_ & b & s2 & Eb & Hd).
  rewrite <- Hraw, <- string_app_assoc, Eb, string_app_cons. unfold text, ValidString, runes_of. cbn [String.length runes_fuel].
  rewrite Hd. cbn [forallb]. rewrite Hg. cbn [negb andb].
  rewrite (runes_fuel_enough _ (String.length (rest +:+ t))); [|rewrite !length_string_app; lia|done].
  apply (IH rest); [|cbn in Hle; lia]. unfold text, ValidString, runes_of.
  by rewrite (runes_fuel_enough _ (String.length s)) by lia.
Qed.

Lemma simple_escape_ascii c t : simple_escape c = Some t -> exists b, t = String b "" /\ byte_val b < 128.
Proof.
  unfold simple_escape. intros H. destruct ((byte_val c =? 34) || (byte_val c =? 92) || (byte_val c =? 47)) eqn:Ec.
  - injection H as <-. exists c. split; [done|]. rewrite !orb_true_iff, !bool_decide_eq_true in Ec. lia.
  - repeat case_match; simplify_eq; eexists; (split; [reflexivity|vm_compute; reflexivity]).
Qed.

(** ** Strings of a text *)
Lemma unicode_escape_text r s t : text t -> text ((unicode_escape r s).1 +:+ t).
Proof. intros Ht. unfold unicode_escape. repeat case_match; by apply text_encoded. Qed.

Lemma scanned_text fuel s p : scan_string fuel s = Some p -> text p.1.
Proof.
  revert s p. induction fuel as [|fuel IH]; intros s p H; [done|]. destruct s as [|c s1]; [done|]. cbn [scan_string] in H.
  destruct (byte_val c =? 34); [by injection H as <-|]. destruct (byte_val c =? 92).
  - destruct s1 as [|e s2]; [done|]. destruct (simple_escape e) as [t|] eqn:Ee.
    + apply bind_Some in H as (q & Hq & [= <-]). apply simple_escape_ascii in Ee as (b & -> & Hb). cbn [fst]. rewrite string_app_cons.
      apply text_byte; [done|]. by apply IH in Hq.
    + destruct (byte_val e =? 117); [|done]. apply bind_Some in H as (u & _ & H).
      pose proof (unicode_escape_text u.1 u.2) as Ht. destruct (unicode_escape u.1 u.2) as [t s3].
      apply bind_Some in H as (q & Hq & [= <-]). apply Ht. by eapply IH.
  - destruct (byte_val c <? 32); [done|]. destruct (decode_rune c s1) as [g s2]. apply bind_Some in H as (q & Hq & [= <-]).
    apply text_encoded. by eapply IH.
Qed.

(** The strings of a JSON value. *)
Fixpoint strings_in (P : string -> Prop) (j : json) : Prop :=
  match j with
  | JStr s => P s
  | JArr l => foldr (fun x acc => strings_in P x /\ acc) True l
  | JObj members => foldr (fun m acc => strings_in P m.2 /\ acc) True members
  | _ => True
  end.

Lemma read_text fuel :
  (forall s p, read_value fuel s = Some p -> strings_in text p.1) /\
  (forall s p, read_elements fuel s = Some p -> strings_in text (JArr p.1)) /\
  (forall s p, read_members fuel s = Some p -> strings_in text (JObj p.1)).
Proof.
  induction fuel as [|fuel (IHv & IHe & IHm)]; [done|]. split_and!; intros s p H.
  - cbn [read_value] in H. repeat (case_match; [|]); simplify_option_eq; try done.
    + by eapply scanned_text.
    + by eapply IHe.
    + by eapply IHm.
  - cbn [read_elements] in H. apply bind_Some in H as (v & Hv & H). apply IHv in Hv. case_match.
    + apply bind_Some in H as (s1 & _ & (q & Hq & [= <-])%bind_Some). apply IHe in Hq. by split.
    + apply bind_Some in H as (s1 & _ & [= <-]). by split.
  - cbn [read_members] in H. apply bind_Some in H as (s1 & _ & (k & _ & (s2 & _ & (v & Hv & H)%bind_Some)%bind_Some)%bind_Some).
    apply IHv in Hv. case_match.
    + apply bind_Some in H as (s3 & _ & (q & Hq & [= <-])%bind_Some). apply IHm in Hq. by split.
    + apply bind_Some in H as (s3 & _ & [= <-]). by split.
Qed.

(** ** Strings of a decoded value *)
Fixpoint texts (v : gval) : Prop :=
  match v with
  | VString s => text s
  | VPtr (Some v) => texts v
  | VSlice _ elems spare => foldr (fun x acc => texts x /\ acc) True elems /\ foldr (fun x acc => texts x /\ acc) True spare
  | VStruct fields => foldr (fun x acc => texts x /\ acc) True fields
  | _ => True
  end.

Lemma texts_all l : foldr (fun x acc => texts x /\ acc) True l <-> Forall texts l.
Proof. induction l as [|x l IH]; cbn; [by split|]. by rewrite IH, Forall_cons. Qed.
Lemma strings_elements P l : strings_in P (JArr l) <-> Forall (strings_in P) l.
Proof. cbn. induction l as [|x l IH]; cbn; [by split|]. by rewrite IH, Forall_cons. Qed.
Lemma strings_members P l : strings_in P (JObj l) <-> Forall (fun m => strings_in P m.2) l.
Proof. cbn. induction l as [|x l IH]; cbn; [by split|]. by rewrite IH, Forall_cons. Qed.

Lemma zero_texts t : texts (zero t).
Proof.
  induction t as [|min max|t IH|t IH|fields IH| | |fields IH] using gtype_induction; cbn [zero texts]; try done.
  - apply texts_all, Forall_fmap. exact IH.
  - apply texts_all, Forall_fmap. exact IH.
Qed.

Definition decodes_texts (j : json) : Prop :=
  strings_in text j -> forall strict t cur v, texts cur -> decode strict j t cur = Some v -> texts v.

Lemma pointer_texts strict j t cur v : decodes_texts j -> strings_in text j -> texts cur ->
  through_pointer (decode strict j) j t cur = Some v -> texts v.
Proof.
  intros Hj Hs Hc. destruct t as [|min max|t|t|fields| | |fields]; try by apply Hj. cbn [through_pointer].
  intros H. assert (Hne : j = JNull \/ j <> JNull) by (destruct j; solve [by left | by right]).
  destruct Hne as [->|Hne]; [injection H as <-; done|].
  assert (H' : (v ← decode strict j t (match cur with VPtr (Some v) => v | _ => zero t end); Some (VPtr (Some v))) = Some v)
    by (by destruct j).
  apply bind_Some in H' as (w & Hw & [= <-]). cbn [texts]. eapply Hj; [done| |exact Hw].
  destruct cur as [| |[c|]| | | |]; try by apply zero_texts. done.
Qed.

Lemma elements_texts strict t l old vs : Forall decodes_texts l -> Forall (strings_in text) l -> Forall texts old ->
  decode_elements (decode strict) t l old = Some vs -> Forall texts vs.
Proof.
  intros Hl. revert old vs. induction Hl as [|x l Hx Hl IH]; intros old vs Hs Hold; cbn [decode_elements]; [by intros [= <-]|].
  apply Forall_cons in Hs as [Hsx Hs].
  intros (v & Hv & (ws & Hws & [= <-])%bind_Some)%bind_Some. constructor.
  - eapply pointer_texts; [done|done| |exact Hv]. destruct Hold; [by apply zero_texts|done].
  - eapply IH; [done| |exact Hws]. by destruct Hold.
Qed.

Lemma members_texts strict fields l cur vs : Forall (fun m => decodes_texts m.2) l -> Forall (fun m => strings_in text m.2) l ->
  Forall texts cur -> decode_members strict (decode strict) fields l cur = Some vs -> Forall texts vs.
Proof.
  intros Hl. revert cur vs. induction Hl as [|[key x] l Hx Hl IH]; intros cur vs Hs Hcur; cbn [decode_members]; [by intros [= <-]|].
  apply Forall_cons in Hs as [Hsx Hs].
  destruct (find_field _ key) as [i|]; [|destruct strict; [done|by apply IH]].
  intros (f & Hf & (c & Hc & (v & Hv & Hrest)%bind_Some)%bind_Some)%bind_Some.
  apply (IH (<[i := v]> cur)); [done| |exact Hrest]. apply Forall_insert; [done|].
  eapply pointer_texts; [done|done| |exact Hv]. rewrite Forall_forall in Hcur. by eapply Hcur, list_elem_of_lookup_2.
Qed.

Lemma decode_texts j : decodes_texts j.
Proof.
  induction j as [|b|d|s|l IH|l IH] using json_induction; intros Hs strict t cur v Hc Hd.
  - destruct t; try done; injection Hd as <-; done.
  - destruct t; try done. by injection Hd as <-.
  - destruct t; try done. cbn [decode] in Hd. by apply bind_Some in Hd as (z & _ & [= <-]).
  - destruct t; try done; [by injection Hd as <-|]. cbn [decode] in Hd. by apply fmap_Some in Hd as (x & _ & ->).
  - apply strings_elements in Hs. destruct t as [| | |t| | | |]; try by destruct l. destruct l as [|x l]; [by injection Hd as <-|].
    cbn [decode] in Hd. apply bind_Some in Hd as (vs & Hvs & [= <-]).
    assert (Hold : Forall texts (match cur with VSlice _ elems spare => elems ++ spare | _ => [] end)).
    { destruct cur; try constructor. cbn [texts] in Hc. rewrite !texts_all in Hc. by apply Forall_app. }
    cbn [texts]. rewrite !texts_all. split; [by eapply elements_texts|by apply Forall_drop].
  - apply strings_members in Hs. destruct t as [| | | |fields| | |fields]; try done; cbn [decode] in Hd;
      apply bind_Some in Hd as (vs & Hvs & Hd).
    + injection Hd as <-. cbn [texts]. apply texts_all. eapply members_texts; [exact IH|exact Hs| |exact Hvs].
      destruct cur; try constructor. by apply texts_all.
    + apply fmap_Some in Hd as (ws & Hws & ->). cbn [texts]. apply texts_all.
      assert (Hf : Forall texts vs) by (eapply members_texts; [exact IH|exact Hs| |exact Hvs]; by apply Forall_fmap, Forall_forall).
      apply mapM_Some in Hws. apply Forall_forall. intros w [i Hi]%list_elem_of_lookup.
      destruct (Forall2_lookup_r _ _ _ _ _ Hws Hi) as (x & Hx & Ew). rewrite Forall_forall in Hf.
      specialize (Hf x (list_elem_of_lookup_2 _ _ _ Hx)). destruct x as [| |[]| | | |]; try done. by injection Ew as <-.
Qed.

(** Whatever the text, the strings of the value it decodes to are valid. *)
Lemma decoded_text strict fuel body p t v : read_value fuel body = Some p -> decode strict p.1 t (zero t) = Some v -> texts v.
Proof.
  intros Hp Hd. destruct (read_text fuel) as [Hr _]. eapply decode_texts; [by eapply Hr|apply zero_texts|exact Hd].
Qed.
