(* ===== verification/Effects.v ===== *)
(** * Effects: store state, errors and driver faults

    The durable components are methods on a store that talk to a database
    driver.  A method is a computation [M S A]: it threads the store state [S],
    returns a Go [(A, error)] pair, and consumes a list of fault bits, one per
    driver call.  A set bit makes that call fail, so a theorem about a method
    covers every driver failure at every call.  An exhausted list means no
    further fault.

    A transaction is the database value that [Begin] copies out of the store;
    statements transform that value and [Commit] puts it back.  A method that
    returns before [Commit] leaves the store's database alone, which is what
    the deferred [Rollback] does. *)

From S2P Require Import Prelude.

Definition M (S A : Type) : Type := S -> list bool -> result A * S * list bool.

Definition mret {S A} (a : A) : M S A := fun s fs => (Ok a, s, fs).
Definition mfail {S A} (e : error) : M S A := fun s fs => (Err e, s, fs).
Definition mbind {S A B} (m : M S A) (k : A -> M S B) : M S B :=
  fun s fs =>
    match m s fs with
    | (Ok a, s', fs') => k a s' fs'
    | (Err e, s', fs') => (Err e, s', fs')
    end.
Definition mget {S} : M S S := fun s fs => (Ok s, s, fs).
Definition mput {S} (s : S) : M S unit := fun _ fs => (Ok tt, s, fs).
Definition mlift {S A} (r : result A) : M S A := fun s fs => (r, s, fs).
(** [if cond { return err }] *)
Definition mguard {S} (cond : bool) (e : error) : M S unit := mlift (reject_if cond e).

Definition next_fault (fs : list bool) : bool * list bool :=
  match fs with [] => (false, []) | f :: fs' => (f, fs') end.

(** A driver call whose failure the method reports as [e]: it fails on a fault
    and when the statement itself is refused ([None]: a violated constraint). *)
Definition driver {S A} (e : error) (outcome : option A) : M S A :=
  fun s fs =>
    let '(f, fs') := next_fault fs in
    match f, outcome with
    | false, Some a => (Ok a, s, fs')
    | _, _ => (Err e, s, fs')
    end.

Notation "'let!' x ':=' m 'in' k" := (mbind m (fun x => k))
  (at level 10, x pattern, m at level 100, k at level 200) : go_scope.
Notation "'do!' m 'in' k" := (mbind m (fun _ => k))
  (at level 10, m at level 100, k at level 200) : go_scope.

(** Run without the remaining fault bits. *)
Definition run {S A} (m : M S A) (s : S) (fs : list bool) : result A * S := (m s fs).1.

(** A loop over a slice. *)
Fixpoint mfold {S A B} (f : A -> B -> M S A) (a : A) (l : list B) : M S A :=
  match l with
  | [] => mret a
  | b :: l' => let! a' := f a b in mfold f a' l'
  end.

(** [x, err := call()] with the error inspected by the caller. *)
Definition mtry {S A} (m : M S A) : M S (result A) :=
  fun s fs => let '(r, s', fs') := m s fs in (Ok r, s', fs').

(** The [rows.Next] loop of a query: every call may fail, which ends the loop
    early; the flag is [rows.Err() != nil]. *)
Fixpoint fetch {S A} (rows : list A) : M S (list A * bool) :=
  fun s fs =>
    let '(f, fs') := next_fault fs in
    if f then (Ok ([], true), s, fs')
    else match rows with
         | [] => (Ok ([], false), s, fs')
         | a :: rows' =>
             match fetch rows' s fs' with
             | (Ok (l, e), s', fs'') => (Ok (a :: l, e), s', fs'')
             | (Err e, s', fs'') => (Err e, s', fs'')
             end
         end.

(** ** Hoare triples over fault sequences

    [hoare F P m Q E]: from a state with [P], whatever fault bits allowed by [F]
    the driver produces, [m] ends in [Q] or fails in [E].  [any_fault] allows
    every sequence, [no_fault] only the faultless ones. *)
Definition any_fault (f : bool) : Prop := True.
Definition no_fault (f : bool) : Prop := f = false.

Definition hoare {S A} (F : bool -> Prop) (P : S -> Prop) (m : M S A)
    (Q : A -> S -> Prop) (E : error -> S -> Prop) : Prop :=
  forall s fs, Forall F fs -> P s ->
    match m s fs with
    | (Ok a, s', fs') => Q a s' /\ Forall F fs'
    | (Err e, s', fs') => E e s' /\ Forall F fs'
    end.

Lemma fetch_quiet {S A} (rows : list A) (s : S) : fetch rows s [] = (Ok (rows, false), s, []).
Proof. induction rows as [|a rows IH]; cbn [fetch next_fault]; [done|]. by rewrite IH. Qed.

Lemma next_fault_inv F fs f fs' : Forall F fs -> next_fault fs = (f, fs') ->
  Forall F fs' /\ (f = true -> F true).
Proof.
  destruct fs as [|b fs]; cbn; intros HF [= <- <-]; [split; [constructor|done]|].
  apply Forall_cons in HF as [Hb HF]. split; [done|]. by intros ->.
Qed.

Section Rules.
Context {S : Type} {F : bool -> Prop}.
Implicit Types (P : S -> Prop) (E : error -> S -> Prop).
#[local] Abbreviation triple := (@hoare S _ F).

Lemma hoare_ret {A} P (a : A) Q E : (forall s, P s -> Q a s) -> triple P (mret a) Q E.
Proof. intros H s fs HF Hs. split; auto. Qed.

Lemma hoare_fail {A} P e (Q : A -> S -> Prop) E : (forall s, P s -> E e s) -> triple P (mfail e) Q E.
Proof. intros H s fs HF Hs. split; auto. Qed.

Lemma hoare_bind {A B} P (m : M S A) (k : A -> M S B) R Q E :
  triple P m R E -> (forall a, triple (R a) (k a) Q E) -> triple P (mbind m k) Q E.
Proof.
  intros Hm Hk s fs HF Hs. unfold mbind. specialize (Hm s fs HF Hs).
  destruct (m s fs) as [[[a|e] s'] fs']; [destruct Hm; by apply Hk|done].
Qed.

Lemma hoare_guard P c e Q E :
  (forall s, P s -> c = true -> E e s) -> (forall s, P s -> c = false -> Q tt s) ->
  triple P (mguard c e) Q E.
Proof. intros H1 H2 s fs HF Hs. unfold mguard, mlift, reject_if. destruct c; split; auto. Qed.

Lemma hoare_lift {A} P (r : result A) Q E :
  (forall s a, P s -> r = Ok a -> Q a s) -> (forall s e, P s -> r = Err e -> E e s) ->
  triple P (mlift r) Q E.
Proof. intros H1 H2 s fs HF Hs. unfold mlift. destruct r; split; auto. Qed.

Lemma hoare_get P Q E : (forall s, P s -> Q s s) -> triple P mget Q E.
Proof. intros H s fs HF Hs. split; auto. Qed.

Lemma hoare_put P s' Q E : (forall s, P s -> Q tt s') -> triple P (mput s') Q E.
Proof. intros H s fs HF Hs. split; [by eapply H|done]. Qed.

Lemma hoare_driver {A} P e (o : option A) Q E :
  (forall s a, P s -> o = Some a -> Q a s) ->
  (forall s, P s -> F true \/ o = None -> E e s) ->
  triple P (driver e o) Q E.
Proof.
  intros H1 H2 s fs HF Hs. unfold driver. destruct (next_fault fs) as [f fs'] eqn:En.
  apply (next_fault_inv _ _ _ _ HF) in En as [HF' Hf]. destruct f, o; split; auto.
Qed.

Lemma hoare_fetch {A} P (rows : list A) (Q : list A * bool -> S -> Prop) E :
  (forall s, P s -> Q (rows, false) s) ->
  (forall s l, P s -> F true -> l `prefix_of` rows -> Q (l, true) s) ->
  triple P (fetch rows) Q E.
Proof.
  revert Q. induction rows as [|a rows IH]; intros Q H1 H2 s fs HF Hs; cbn [fetch];
    destruct (next_fault fs) as [f fs'] eqn:En;
    apply (next_fault_inv _ _ _ _ HF) in En as [HF' Hf]; destruct f.
  - split; [|done]. apply H2; [done|auto|]. apply prefix_nil.
  - split; auto.
  - split; [|done]. apply H2; [done|auto|]. apply prefix_nil.
  - specialize (IH (fun r s => Q (a :: r.1, r.2) s)).
    assert (Ht : triple P (fetch rows) (fun r s => Q (a :: r.1, r.2) s) E).
    { apply IH; [intros; by apply H1|]. intros s' l Hs' HF0 Hl. apply H2; [done..|].
      by apply prefix_cons. }
    specialize (Ht s fs' HF' Hs). destruct (fetch rows s fs') as [[[[l b]|e] s'] fs'']; done.
Qed.

Lemma hoare_try {A} P (m : M S A) (Q : result A -> S -> Prop) E :
  triple P m (fun a => Q (Ok a)) (fun e => Q (Err e)) -> triple P (mtry m) Q E.
Proof.
  intros Hm s fs HF Hs. specialize (Hm s fs HF Hs). unfold mtry.
  destruct (m s fs) as [[[a|e] s'] fs']; done.
Qed.

Lemma hoare_conseq {A} P P' (m : M S A) Q Q' E E' :
  triple P' m Q' E' ->
  (forall s, P s -> P' s) -> (forall a s, Q' a s -> Q a s) -> (forall e s, E' e s -> E e s) ->
  triple P m Q E.
Proof.
  intros Hm HP HQ HE s fs HF Hs. specialize (Hm s fs HF (HP s Hs)).
  destruct (m s fs) as [[[a|e] s'] fs']; naive_solver.
Qed.

Lemma hoare_pre {A} P P' (m : M S A) Q E :
  (forall s, P s -> P' s) -> triple P' m Q E -> triple P m Q E.
Proof. intros HP Hm. by eapply hoare_conseq. Qed.

Lemma hoare_mfold {A B} (I : list B -> A -> S -> Prop) f E (l : list B) (a : A) :
  (forall b l' a, triple (I (b :: l') a) (f a b) (fun a' => I l' a') E) ->
  triple (I l a) (mfold f a l) (fun a' => I [] a') E.
Proof.
  intros Hf. revert a. induction l as [|b l IH]; intros a; simpl.
  - by apply hoare_ret.
  - eapply hoare_bind; [apply Hf|]. intros a'. apply IH.
Qed.

(** Reading a triple back as a fact about one run. *)
Lemma hoare_run {A} P (m : M S A) Q E s fs r s' :
  triple P m Q E -> Forall F fs -> P s -> run m s fs = (r, s') ->
  match r with Ok a => Q a s' | Err e => E e s' end.
Proof.
  intros Hm HF Hs Hr. unfold run in Hr. specialize (Hm s fs HF Hs).
  destruct (m s fs) as [[r' s''] fs']. simpl in Hr. injection Hr as <- <-. destruct r'; naive_solver.
Qed.

End Rules.

Lemma any_fault_all fs : Forall any_fault fs.
Proof. by apply Forall_true. Qed.

Lemma hoare_any {S A} {P : S -> Prop} {m : M S A} {Q E} s fs r s' :
  hoare any_fault P m Q E -> P s -> run m s fs = (r, s') ->
  match r with Ok a => Q a s' | Err e => E e s' end.
Proof. intros Hm Hs Hr. eapply hoare_run; [exact Hm|apply any_fault_all|done|done]. Qed.

(** Walk through a method: one rule per construct. *)
Ltac hoare_step :=
  match goal with
  | |- hoare _ _ (mret _) _ _ => apply hoare_ret
  | |- hoare _ _ (mfail _) _ _ => apply hoare_fail
  | |- hoare _ _ (mguard _ _) _ _ => apply hoare_guard
  | |- hoare _ _ (mlift _) _ _ => apply hoare_lift
  | |- hoare _ _ mget _ _ => apply hoare_get
  | |- hoare _ _ (mput _) _ _ => apply hoare_put
  | |- hoare _ _ (driver _ _) _ _ => apply hoare_driver
  | |- hoare _ _ (fetch _) _ _ => apply hoare_fetch
  | |- hoare _ _ (mtry _) _ _ => apply hoare_try
  end.
