(* ===== verification/PolicyJail.v ===== *)
(** * The workspace jail: [internal/policy/jail.go]

    Path resolution against a file system with symbolic links, and containment
    in the configured roots. *)

From S2P Require Import Prelude GoStrings GoPath.

Definition ErrOutsideJail : error := "policy: path is outside the workspace jail".

Record Jail := { jail_roots : list string }.

(** [resolveExisting]: [cur] loses its last element on every round, so its length
    bounds the rounds. *)
Fixpoint resolve_loop (fuel : nat) (fs : FS) (p rem cur : string) : string :=
  match fuel with
  | O => p
  | S fuel =>
      match EvalSymlinks fs cur with
      | Ok resolved => Clean (PathJoin resolved rem)
      | Err _ =>
          let parent := PathDir cur in
          if parent =? cur then p
          else resolve_loop fuel fs p (PathJoin (PathBase cur) rem) parent
      end
  end.

Definition resolveExisting (fs : FS) (p : string) : string :=
  let p := Clean p in resolve_loop (S (String.length p)) fs p "" p.

Definition withinRoot (p root : string) : bool :=
  if p =? root then true
  else match Rel root p with
       | Err _ => false
       | Ok rel =>
           if rel =? "." then true
           else if (rel =? "..") || HasPrefix rel "../" then false
           else if IsAbs rel then false
           else true
       end.

Fixpoint resolve_roots (fs : FS) (input : string) (roots : list string) : result string :=
  match roots with
  | [] => Err ErrOutsideJail
  | root :: rest =>
      let cand := if IsAbs input then Clean input else Clean (PathJoin root input) in
      let real := resolveExisting fs cand in
      if withinRoot real root then Ok real else resolve_roots fs input rest
  end.

Definition Resolve (fs : FS) (j : Jail) (input : string) : result string :=
  if input =? "" then Err ErrOutsideJail else resolve_roots fs input (jail_roots j).

(** [Jail.Contains] *)
Definition jail_Contains (fs : FS) (j : Jail) (input : string) : bool := is_ok (Resolve fs j input).

Fixpoint new_roots (fs : FS) (roots : list string) : result (list string) :=
  match roots with
  | [] => Ok []
  | r :: rest =>
      if negb (IsAbs r) then Err ("policy: jail root must be absolute: " +:+ r)
      else
        let rr := match EvalSymlinks fs r with Ok real => real | Err _ => r end in
        let? resolved := new_roots fs rest in
        Ok (Clean rr :: resolved)
  end.

Definition NewJail (fs : FS) (roots : list string) : result Jail :=
  match roots with
  | [] => Err "policy: jail requires at least one root"
  | _ => let? resolved := new_roots fs roots in Ok {| jail_roots := resolved |}
  end.

(** ** Containment is the prefix order on elements *)
Lemma HasPrefix_true s p : HasPrefix s p = true -> exists rest, s = p +:+ rest.
Proof.
  revert s. induction p as [|c p IH]; intros s Hp; [by exists s|]. destruct s as [|d s]; [done|]. cbn in Hp.
  destruct (ascii_dec c d) as [<-|]; [|done]. apply IH in Hp as [rest ->]. exists rest. reflexivity.
Qed.

Lemma Join_head_prefix x l y rest :
  no_slash x -> Forall no_slash l -> no_slash y -> Join (x :: l) slash_s = y +:+ String slash rest -> x = y.
Proof.
  intros Hx Hl Hy E. assert (Hs : Split (Join (x :: l) slash_s) slash = x :: l) by (apply Split_Join; [by constructor|done]).
  rewrite E, Split_app in Hs by done. congruence.
Qed.

Lemma rel_inside x l : Forall element (x :: l) ->
  let rel := Join (x :: l) slash_s in
  rel <> "." /\ rel <> ".." /\ HasPrefix rel "../" = false /\ IsAbs rel = false.
Proof.
  intros [(Hx & H1 & H2 & H3) Hl]%Forall_cons rel. apply element_no_slash in Hl.
  assert (Hs : Split rel slash = x :: l) by (apply Split_Join; [by constructor|done]).
  split_and!.
  - intros E. rewrite E in Hs. cbn in Hs. congruence.
  - intros E. rewrite E in Hs. cbn in Hs. congruence.
  - destruct (HasPrefix rel "../") eqn:E; [|done]. apply HasPrefix_true in E as [rest E].
    exfalso. apply H3. by apply (Join_head_prefix x l ".." rest).
  - destruct (IsAbs rel) eqn:E; [|done]. apply HasPrefix_true in E as [rest E].
    exfalso. apply H1. by apply (Join_head_prefix x l "" rest).
Qed.

Lemma rel_outside l : let rel := Join (".." :: l) slash_s in (rel =? "..") || HasPrefix rel "../" = true.
Proof.
  intros rel. unfold rel. destruct l as [|y l]; [done|]. rewrite Join_cons.
  apply orb_true_iff. right. apply (HasPrefix_app "../").
Qed.

Lemma withinRoot_prefix l r : Forall element l -> Forall element r ->
  withinRoot (path_of l) (path_of r) = true <-> r `prefix_of` l.
Proof.
  intros Hl Hr. unfold withinRoot. case_bool_decide as Eeq.
  { apply path_of_inj in Eeq; [|done..]. subst. done. }
  unfold Rel. rewrite !Clean_path_of by done. rewrite (bool_decide_false (path_of l = path_of r)) by done.
  rewrite (bool_decide_false (path_of r = ".")) by done. rewrite !IsAbs_path_of, bool_decide_true by done. cbn [negb].
  rewrite !elements_of_path by done. destruct (drop_common r l) as [b t] eqn:Ed.
  apply drop_common_spec in Ed as (c & -> & -> & Hsplit).
  apply Forall_app in Hl as [Hc Ht]. apply Forall_app in Hr as [_ Hb].
  rewrite bool_decide_false.
  2:{ destruct b as [|y b]; [done|]. apply Forall_cons in Hb as [(_ & _ & _ & Hy) _]. cbn. congruence. }
  destruct b as [|y b].
  - rewrite app_nil_r. cbn [fmap list_fmap app]. destruct t as [|x t]; [by rewrite app_nil_r in Eeq|].
    destruct (rel_inside x t Ht) as (E1 & E2 & E3 & E4).
    rewrite (bool_decide_false _ E1), (bool_decide_false _ E2), E3, E4. cbn.
    split; [|done]. intros _. by exists (x :: t).
  - cbn [fmap list_fmap app]. pose proof (rel_outside (((fun _ => "..") <$> b) ++ t)) as Ho. cbv zeta in Ho.
    rewrite Ho. split.
    + rewrite bool_decide_false; [discriminate|]. intros E.
      destruct (((fun _ => "..") <$> b) ++ t) as [|z zs]; [done|]. by rewrite Join_cons in E.
    + intros Hp%prefix_app_inv. exfalso. destruct Hp as [k Hk]. destruct t as [|x t]; [done|]. cbn in Hk.
      injection Hk as <- Hk. destruct Hsplit as [?|[?|Hne]]; done.
Qed.

(** ** [resolveExisting] *)
(** The path [l] splits into a longest part that resolves, to [d], and a
    remainder [r] that is appended unresolved. *)
Definition resolves_as (fs : FS) (l d r : list string) : Prop :=
  exists c, l = c ++ r /\ EvalSymlinks fs (path_of c) = Ok (path_of d) /\
    (forall k x, r = x :: k -> ~ is_ok (EvalSymlinks fs (path_of (c ++ [x])))).

Lemma EvalSymlinks_root fs : EvalSymlinks fs (path_of []) = Ok (path_of []).
Proof. reflexivity. Qed.

Lemma resolve_loop_spec fs c r fuel :
  Forall element c -> Forall element r -> (length c < fuel)%nat ->
  (forall k x, r = x :: k -> ~ is_ok (EvalSymlinks fs (path_of (c ++ [x])))) ->
  exists d s, resolve_loop fuel fs (path_of (c ++ r)) (Join r slash_s) (path_of c) = path_of (d ++ s) /\
    resolves_as fs (c ++ r) d s /\ Forall element d /\ Forall element s /\ link_free fs d.
Proof.
  revert r fuel. induction c as [|x c IH] using rev_ind; intros r fuel Hc Hr Hfuel Hmax;
    (destruct fuel as [|fuel]; [lia|]); cbn [resolve_loop].
  - rewrite EvalSymlinks_root. exists [], r. rewrite PathJoin_path_of, Clean_path_of by done. split; [done|].
    split_and!; [|done..|left; apply all_dirs_nil]. by exists [].
  - destruct (EvalSymlinks fs (path_of (c ++ [x]))) as [q|e] eqn:E.
    + destruct (EvalSymlinks_spec fs _ q E) as (d & -> & Hd & Hlf). exists d, r.
      rewrite PathJoin_path_of, Clean_path_of by (done || by apply Forall_app).
      split; [done|]. split_and!; try done. by exists (c ++ [x]).
    + apply Forall_app in Hc as [Hc [Hx _]%Forall_cons].
      rewrite PathDir_snoc by (done || by apply Hx). rewrite PathBase_snoc by done.
      rewrite bool_decide_false.
      2:{ intros E2%path_of_inj; [|done|by apply Forall_app; split; [|constructor]].
          apply (f_equal length) in E2. rewrite length_app in E2. cbn in E2. lia. }
      rewrite PathJoin_element by done. rewrite <- app_assoc. cbn [app].
      apply IH; [done|by constructor| |].
      * rewrite length_app in Hfuel. cbn in Hfuel. lia.
      * intros k y [= <- <-]. rewrite E. by intros [].
Qed.

Lemma length_elements l : Forall element l -> (length l <= String.length (path_of l))%nat.
Proof.
  induction l as [|x l IH] using rev_ind; intros Hl; [cbn; lia|]. apply Forall_app in Hl as [Hl [Hx _]%Forall_cons].
  specialize (IH Hl). rewrite length_app. cbn [length]. unfold path_of in *. rewrite !length_string_app in *.
  destruct Hx as (_ & H1 & _). destruct l as [|y l]; [destruct x; [done|]; cbn; lia|].
  rewrite Join_snoc by done. rewrite length_string_app. cbn in *. lia.
Qed.

(** The loop returns: the longest resolving part is resolved, link by link. *)
Lemma resolveExisting_spec fs l : Forall element l ->
  exists d s, resolveExisting fs (path_of l) = path_of (d ++ s) /\ resolves_as fs l d s /\
    Forall element d /\ Forall element s /\ link_free fs d.
Proof.
  intros Hl. unfold resolveExisting. rewrite Clean_path_of by done.
  destruct (resolve_loop_spec fs l [] (S (String.length (path_of l)))) as (d & s & E & H); [done|done| |done|].
  { pose proof (length_elements l Hl). lia. }
  rewrite app_nil_r in E, H. by exists d, s.
Qed.

(** ** Roots *)
Definition rooted_path (p : string) : Prop := exists l, p = path_of l /\ Forall element l.

Lemma new_roots_spec fs roots rs : new_roots fs roots = Ok rs -> Forall rooted_path rs.
Proof.
  revert rs. induction roots as [|r roots IH]; intros rs; cbn [new_roots]; [intros [= <-]; constructor|].
  destruct (IsAbs r) eqn:Er; [|done]. cbn [negb]. destruct (new_roots fs roots) as [rs'|]; cbn; [|done].
  intros [= <-]. constructor; [|by apply IH].
  assert (Ha : IsAbs (match EvalSymlinks fs r with Ok real => real | Err _ => r end) = true).
  { destruct (EvalSymlinks fs r) as [q|] eqn:E; [|done].
    apply EvalSymlinks_spec in E as (d & -> & _). apply IsAbs_path_of. }
  destruct (Clean_abs _ Ha) as (l & -> & Hl & _). by exists l.
Qed.

Lemma NewJail_roots fs roots j : NewJail fs roots = Ok j -> Forall rooted_path (jail_roots j) /\ jail_roots j <> [].
Proof.
  unfold NewJail. destruct roots as [|r roots]; [done|].
  destruct (new_roots fs (r :: roots)) as [rs|] eqn:E; cbn [rbind]; [|done]. intros [= <-]. cbn [jail_roots].
  split; [by eapply new_roots_spec|]. intros ->. cbn in E. destruct (negb (IsAbs r)); [done|].
  by destruct (new_roots fs roots).
Qed.

(** The candidate [Resolve] builds for a root. *)
Definition candidate (root input : string) : string :=
  if IsAbs input then Clean input else Clean (PathJoin root input).

Lemma candidate_rooted root input : rooted_path root -> rooted_path (candidate root input).
Proof.
  intros (l & -> & Hl). unfold candidate. destruct (IsAbs input) eqn:E.
  - destruct (Clean_abs _ E) as (k & -> & Hk & _). by exists k.
  - unfold PathJoin. rewrite bool_decide_false by done.
    destruct (Clean_abs (path_of l +:+ slash_s +:+ input)) as (k & -> & Hk & _); [apply (HasPrefix_app slash_s)|].
    exists k. by rewrite Clean_path_of.
Qed.

Lemma resolve_roots_ok fs input roots p : resolve_roots fs input roots = Ok p <->
  exists i root, roots !! i = Some root /\ p = resolveExisting fs (candidate root input) /\
    withinRoot p root = true /\
    forall k r, (k < i)%nat -> roots !! k = Some r -> withinRoot (resolveExisting fs (candidate r input)) r = false.
Proof.
  induction roots as [|r roots IH]; cbn [resolve_roots].
  { split; [done|]. by intros (? & ? & ? & _). }
  fold (candidate r input). destruct (withinRoot (resolveExisting fs (candidate r input)) r) eqn:Ew.
  - split.
    + intros [= <-]. exists O, r. split_and!; try done. intros k ? Hk. lia.
    + intros ([|i] & root & Hi & -> & Hin & Hmin).
      * by injection Hi as ->.
      * rewrite (Hmin O r) in Ew; [done|lia|done].
  - rewrite IH. split.
    + intros (i & root & Hi & -> & Hin & Hmin). exists (S i), root. split_and!; try done.
      intros [|k] r' Hk Hr; [by injection Hr as <-|]. apply (Hmin k); [lia|done].
    + intros ([|i] & root & Hi & -> & Hin & Hmin).
      * injection Hi as ->. congruence.
      * exists i, root. split_and!; try done. intros k r' Hk Hr. apply (Hmin (S k)); [lia|done].
Qed.

(** ** The jail *)
(** C10 A path that [Resolve] returns lies in a configured root: its elements are
    proper names (no empty name, ["."] or [".."]) and extend the elements of a
    root, so a sibling such as [/repo-evil] is not inside [/repo]. The part of it
    that resolves holds no symbolic link, and what follows starts with an element
    that does not resolve. *)
Theorem Resolve_contained fs0 fs roots j input p :
  NewJail fs0 roots = Ok j -> Resolve fs j input = Ok p ->
  exists root r d s, root ∈ jail_roots j /\ root = path_of r /\ p = path_of (d ++ s) /\
    Forall element (d ++ s) /\ r `prefix_of` d ++ s /\ link_free fs d /\
    exists c, candidate root input = path_of c /\ resolves_as fs c d s.
Proof.
  intros [Hroots _]%NewJail_roots. unfold Resolve. case_bool_decide; [done|].
  intros (i & root & Hi & -> & Hin & _)%resolve_roots_ok. apply list_elem_of_lookup_2 in Hi as Hel.
  rewrite Forall_forall in Hroots. destruct (Hroots _ Hel) as (r & -> & Hr).
  destruct (candidate_rooted (path_of r) input) as (c & Ec & Hc); [by exists r|].
  rewrite Ec in *. destruct (resolveExisting_spec fs c Hc) as (d & s & E & Hres & Hd & Hs & Hlf). rewrite E in *.
  assert (Forall element (d ++ s)) by (by apply Forall_app).
  exists (path_of r), r, d, s. split_and!; try done; [by apply withinRoot_prefix|by exists c].
Qed.

(** A target that exists is judged by where its links lead: when the candidate
    resolves, the path that [Resolve] returns is the resolved path. *)
Theorem Resolve_existing fs0 fs roots j input p :
  NewJail fs0 roots = Ok j -> Resolve fs j input = Ok p ->
  exists root, root ∈ jail_roots j /\ withinRoot p root = true /\
    forall q, EvalSymlinks fs (candidate root input) = Ok q -> p = q.
Proof.
  intros [Hroots _]%NewJail_roots. unfold Resolve. case_bool_decide; [done|].
  intros (i & root & Hi & -> & Hin & _)%resolve_roots_ok. apply list_elem_of_lookup_2 in Hi as Hel.
  exists root. split_and!; [done..|]. intros q Hq. rewrite Forall_forall in Hroots.
  destruct (candidate_rooted root input (Hroots _ Hel)) as (c & Ec & Hc). rewrite Ec in *.
  unfold resolveExisting. rewrite Clean_path_of by done. cbn [resolve_loop]. rewrite Hq.
  apply EvalSymlinks_spec in Hq as (d & -> & Hd & _). change "" with (Join [] slash_s).
  by rewrite PathJoin_path_of, app_nil_r, Clean_path_of.
Qed.

(** [Resolve] refuses exactly the inputs that lead outside every root: it
    returns a path iff the input is not empty and for some root the resolved
    candidate extends the elements of that root. *)
Theorem Resolve_exact fs0 fs roots j input :
  NewJail fs0 roots = Ok j ->
  is_ok (Resolve fs j input) <->
  input <> "" /\ exists r l, path_of r ∈ jail_roots j /\ Forall element r /\ Forall element l /\
    resolveExisting fs (candidate (path_of r) input) = path_of l /\ r `prefix_of` l.
Proof.
  intros [Hroots _]%NewJail_roots. unfold Resolve. case_bool_decide as Ei; [split; [done|by intros [? _]]|].
  rewrite Forall_forall in Hroots. split.
  - destruct (resolve_roots fs input (jail_roots j)) as [p|] eqn:E; [intros _|done].
    apply resolve_roots_ok in E as (i & root & Hi & -> & Hin & _). apply list_elem_of_lookup_2 in Hi.
    split; [done|]. destruct (Hroots _ Hi) as (r & -> & Hr).
    destruct (candidate_rooted (path_of r) input) as (c & Ec & Hc); [by exists r|]. rewrite Ec in *.
    destruct (resolveExisting_spec fs c Hc) as (d & s & E & _ & Hd & Hs & _). rewrite E in *.
    assert (Forall element (d ++ s)) by (by apply Forall_app).
    exists r, (d ++ s). split_and!; try done; [by rewrite Ec|by apply withinRoot_prefix].
  - intros (_ & r & l & Hel & Hr & Hl & E & Hp).
    destruct (resolve_roots fs input (jail_roots j)) as [p|e] eqn:Er; [done|]. exfalso. clear Ei Hroots.
    induction (jail_roots j) as [|r0 rs IH]; [by apply elem_of_nil in Hel|]. cbn [resolve_roots] in Er.
    fold (candidate r0 input) in Er.
    destruct (withinRoot (resolveExisting fs (candidate r0 input)) r0) eqn:Ew; [done|].
    apply elem_of_cons in Hel as [<-|Hel]; [|by apply IH]. rewrite E in Ew.
    apply not_true_iff_false in Ew. by apply Ew, withinRoot_prefix.
Qed.

(** A path that resolved completely resolves to itself. *)
Lemma Resolve_resolved fs j l : Forall rooted_path (jail_roots j) -> Forall element l -> link_free fs l ->
  is_ok (Resolve fs j (path_of l)) -> Resolve fs j (path_of l) = Ok (path_of l).
Proof.
  intros Hroots Hl Hf. unfold Resolve. rewrite bool_decide_false by done.
  assert (E : forall root, resolveExisting fs (candidate root (path_of l)) = path_of l).
  { intros root. unfold candidate, resolveExisting. rewrite IsAbs_path_of, !Clean_path_of by done.
    cbn [resolve_loop]. rewrite EvalSymlinks_link_free by done. change "" with (Join [] slash_s).
    by rewrite PathJoin_path_of, app_nil_r, Clean_path_of. }
  destruct (resolve_roots fs (path_of l) (jail_roots j)) as [p|] eqn:Er; [intros _|done].
  apply resolve_roots_ok in Er as (i & root & _ & -> & _). by rewrite E.
Qed.

(** ** Witnesses *)
Definition demo_fs : FS := list_to_map
  [(["repo"], NDir); (["repo"; "src"], NDir); (["repo"; "src"; "a.go"], NFile); (["etc"], NDir);
   (["etc"; "passwd"], NFile); (["repo"; "out"], NLink "/etc"); (["repo"; "in"], NLink "src");
   (["repo"; "dangling"], NLink "/etc/cron.d/job"); (["work"], NLink "/repo")].

Definition demo_jail : Jail := {| jail_roots := ["/repo"] |}.

Example demo_jail_new : NewJail demo_fs ["/work"] = Ok demo_jail.
Proof. vm_compute. reflexivity. Qed.
Example demo_link_out : Resolve demo_fs demo_jail "out/passwd" = Err ErrOutsideJail.
Proof. vm_compute. reflexivity. Qed.
Example demo_dotdot : Resolve demo_fs demo_jail "in/../../etc/passwd" = Err ErrOutsideJail.
Proof. vm_compute. reflexivity. Qed.
Example demo_sibling : Resolve demo_fs demo_jail "/repo-evil/f" = Err ErrOutsideJail.
Proof. vm_compute. reflexivity. Qed.
Example demo_new_file : Resolve demo_fs demo_jail "in/new.go" = Ok "/repo/src/new.go".
Proof. vm_compute. reflexivity. Qed.

Lemma Resolve_contained_witness : exists root r d s, root ∈ jail_roots demo_jail /\ root = path_of r /\
  "/repo/src/new.go" = path_of (d ++ s) /\ Forall element (d ++ s) /\ r `prefix_of` d ++ s /\ link_free demo_fs d /\
  exists c, candidate root "in/new.go" = path_of c /\ resolves_as demo_fs c d s.
Proof.
  apply (Resolve_contained demo_fs demo_fs ["/work"] demo_jail "in/new.go" "/repo/src/new.go");
    vm_compute; reflexivity.
Defined.

Lemma Resolve_existing_witness : exists root, root ∈ jail_roots demo_jail /\ withinRoot "/repo/src/a.go" root = true /\
  forall q, EvalSymlinks demo_fs (candidate root "in/a.go") = Ok q -> "/repo/src/a.go" = q.
Proof.
  apply (Resolve_existing demo_fs demo_fs ["/work"] demo_jail "in/a.go" "/repo/src/a.go"); vm_compute; reflexivity.
Defined.

Lemma Resolve_exact_witness :
  is_ok (Resolve demo_fs demo_jail "out/passwd") <->
  "out/passwd" <> "" /\ exists r l, path_of r ∈ jail_roots demo_jail /\ Forall element r /\ Forall element l /\
    resolveExisting demo_fs (candidate (path_of r) "out/passwd") = path_of l /\ r `prefix_of` l.
Proof. apply (Resolve_exact demo_fs demo_fs ["/work"] demo_jail "out/passwd"). vm_compute. reflexivity. Defined.

(** A link inside the root whose target does not exist is not followed: the
    jail accepts the link itself, and opening the accepted path for writing
    creates the file outside the root that the link names. *)
Theorem dangling_link_accepted :
  Resolve demo_fs demo_jail "dangling" = Ok "/repo/dangling" /\
  demo_fs !! ["repo"; "dangling"] = Some (NLink "/etc/cron.d/job") /\
  jail_Contains demo_fs demo_jail "/etc/cron.d/job" = false.
Proof. vm_compute. split_and!; reflexivity. Qed.
