(* ===== verification/PolicySecrets.v ===== *)
(** * Secret paths: [internal/policy/secrets.go]

    The name-based layer of secret protection: a path is secret when any of its
    segments names secret material. *)

From S2P Require Import Prelude GoStrings GoPath.

Definition ErrSecretDenied : error := "policy: access to secret path denied".

Definition secretSegments : list string := [".ssh"; ".aws"; ".gnupg"; ".gpg"; "grant-admin"].

Definition secretBasenames : list string :=
  [".env"; ".npmrc"; ".netrc"; "_netrc"; ".git-credentials"; ".pgpass"; ".htpasswd"; "credentials";
   "id_rsa"; "id_dsa"; "id_ecdsa"; "id_ed25519"; "secring.gpg"].

Definition secretExts : list string := [".pem"; ".key"; ".pfx"; ".p12"; ".keystore"; ".jks"; ".asc"].

(** The body of the loop over segments. *)
Definition secret_segment (seg : string) : bool :=
  if (seg =? "") || (seg =? ".") || (seg =? "..") then false
  else
    let low := ToLower seg in
    if bool_decide (low ∈ secretSegments) then true
    else if bool_decide (low ∈ secretBasenames) then true
    else if HasPrefix low ".env." then true
    else bool_decide (ToLower (Ext seg) ∈ secretExts).

Definition backslash : ascii := chr 92.

Definition IsSecretPath (path : string) : bool :=
  if path =? "" then false
  else existsb secret_segment (Split (ReplaceByte path backslash slash) slash).

Example secret1 : IsSecretPath "/home/u/.SSH/known_hosts" = true. Proof. reflexivity. Qed.
Example secret2 : IsSecretPath "a/b/server.PEM" = true. Proof. reflexivity. Qed.
Example secret3 : IsSecretPath "a/.env.local" = true. Proof. reflexivity. Qed.
Example secret4 : IsSecretPath "src/environment.go" = false. Proof. reflexivity. Qed.

(** The two separators, as the code treats them. *)
Definition separator (c : ascii) : Prop := c = slash \/ c = backslash.

Lemma ReplaceByte_app s t old new :
  ReplaceByte (s +:+ t) old new = ReplaceByte s old new +:+ ReplaceByte t old new.
Proof.
  induction s as [|c s IH]; [done|]. rewrite string_app_cons. cbn [ReplaceByte]. by rewrite IH.
Qed.

Lemma IsSecretPath_segments path :
  IsSecretPath path = existsb secret_segment (Split (ReplaceByte path backslash slash) slash).
Proof. unfold IsSecretPath. by case_bool_decide as E; [subst|]. Qed.

(** No prefix, suffix or separator hides a secret name: joining two paths, with
    either separator, gives a secret path exactly when one of the two is secret. *)
Theorem IsSecretPath_join a b c : separator c ->
  IsSecretPath (a +:+ String c b) = IsSecretPath a || IsSecretPath b.
Proof.
  intros Hc. rewrite !IsSecretPath_segments, ReplaceByte_app.
  assert (ReplaceByte (String c b) backslash slash = String slash (ReplaceByte b backslash slash)) as ->
    by (by destruct Hc as [-> | ->]).
  by rewrite Split_app_gen, existsb_app.
Qed.

Lemma IsSecretPath_join_witness :
  IsSecretPath ("a/.ssh" +:+ String backslash "../x") = IsSecretPath "a/.ssh" || IsSecretPath "../x".
Proof. apply (IsSecretPath_join "a/.ssh" "../x" backslash). by right. Defined.

(** ** Case *)
Definition ascii_only (s : string) : Prop := Forall (fun c => byte_val c < 128) (String.list_ascii_of_string s).

Lemma ascii_only_cons c s : ascii_only (String c s) <-> byte_val c < 128 /\ ascii_only s.
Proof. unfold ascii_only. cbn. by rewrite Forall_cons. Qed.

Lemma ToLower_ascii c s : byte_val c < 128 -> ToLower (String c s) = String (lower_byte c) (ToLower s).
Proof.
  intros Hc. cbn [ToLower]. destruct s as [|d s]; [done|].
  rewrite (bool_decide_false (byte_val c = 196)), (bool_decide_false (byte_val c = 226)) by lia. cbn [andb].
  by destruct s.
Qed.

(** Facts about single bytes, by inspection of all 256. *)
Ltac all_bytes c := destruct c as [[] [] [] [] [] [] [] []]; vm_compute; intuition (try congruence).

Lemma lower_byte_ascii c : byte_val c < 128 -> byte_val (lower_byte c) < 128.
Proof. all_bytes c. Qed.
Lemma lower_byte_idem c : lower_byte (lower_byte c) = lower_byte c.
Proof. all_bytes c. Qed.
Lemma lower_byte_backslash c : lower_byte c = backslash <-> c = backslash.
Proof. all_bytes c. Qed.
Lemma lower_byte_slash c : lower_byte c = slash <-> c = slash.
Proof. all_bytes c. Qed.
Lemma lower_byte_dot c : lower_byte c = "."%char <-> c = "."%char.
Proof. all_bytes c. Qed.

Lemma ToLower_only s : ascii_only s -> ascii_only (ToLower s).
Proof.
  induction s as [|c s IH]; [done|]. rewrite ascii_only_cons. intros [Hc Hs]. rewrite ToLower_ascii by done.
  apply ascii_only_cons. auto using lower_byte_ascii.
Qed.

Lemma ToLower_idem s : ascii_only s -> ToLower (ToLower s) = ToLower s.
Proof.
  induction s as [|c s IH]; [done|]. rewrite ascii_only_cons. intros [Hc Hs].
  rewrite (ToLower_ascii c) by done. rewrite ToLower_ascii by auto using lower_byte_ascii.
  by rewrite lower_byte_idem, IH.
Qed.

Lemma ToLower_Replace s : ascii_only s ->
  ReplaceByte (ToLower s) backslash slash = ToLower (ReplaceByte s backslash slash) /\
  ascii_only (ReplaceByte s backslash slash).
Proof.
  induction s as [|c s IH]; [done|]. rewrite ascii_only_cons. intros [Hc Hs]. destruct (IH Hs) as [IH1 IH2].
  rewrite ToLower_ascii by done. cbn [ReplaceByte].
  destruct (ascii_dec c backslash) as [->|Hne].
  - rewrite ToLower_ascii by done. rewrite IH1. split; [done|]. by apply ascii_only_cons.
  - rewrite ToLower_ascii by done. rewrite IH1. destruct (ascii_dec (lower_byte c) backslash) as [E|_].
    + by apply (proj1 (lower_byte_backslash _)) in E.
    + split; [done|]. by apply ascii_only_cons.
Qed.

Lemma ToLower_Split s : ascii_only s ->
  Split (ToLower s) slash = ToLower <$> Split s slash /\ Forall ascii_only (Split s slash).
Proof.
  induction s as [|c s IH]; [intros _; split; [done|by repeat constructor]|].
  rewrite ascii_only_cons. intros [Hc Hs]. destruct (IH Hs) as [IH1 IH2].
  rewrite ToLower_ascii by done. cbn [Split]. rewrite IH1. destruct (ascii_dec c slash) as [->|Hne].
  - change (lower_byte slash) with slash. split; [done|]. by repeat constructor.
  - destruct (ascii_dec (lower_byte c) slash) as [E|_]; [by apply (proj1 (lower_byte_slash _)) in E|].
    destruct (Split s slash) as [|w ws]; cbn [fmap list_fmap].
    + split; [by rewrite ?ToLower_ascii|]. constructor; [apply ascii_only_cons; split; [done|constructor]|done].
    + apply Forall_cons in IH2 as [Hw Hws]. split; [by rewrite ?ToLower_ascii|].
      constructor; [by apply ascii_only_cons|done].
Qed.

Lemma ToLower_nil s : ascii_only s -> ToLower s = "" <-> s = "".
Proof.
  destruct s as [|c s]; [done|]. rewrite ascii_only_cons. intros [Hc _]. by rewrite ToLower_ascii.
Qed.

Lemma ToLower_Ext s : ascii_only s -> Ext (ToLower s) = ToLower (Ext s) /\ ascii_only (Ext s).
Proof.
  induction s as [|c s IH]; [done|]. rewrite ascii_only_cons. intros [Hc Hs]. destruct (IH Hs) as [IH1 IH2].
  rewrite ToLower_ascii by done. cbn [Ext]. rewrite IH1.
  rewrite (bool_decide_ext _ _ (ToLower_nil (Ext s) IH2)). case_bool_decide; [|done].
  destruct (ascii_dec c ".") as [->|Hne].
  - split; [by rewrite ToLower_ascii|by apply ascii_only_cons].
  - destruct (ascii_dec (lower_byte c) ".") as [E|_]; [by apply (proj1 (lower_byte_dot _)) in E|].
    split; [done|constructor].
Qed.

Lemma ToLower_dots s : ascii_only s ->
  (ToLower s = "." <-> s = ".") /\ (ToLower s = ".." <-> s = "..").
Proof.
  destruct s as [|c s]; [done|]. rewrite ascii_only_cons. intros [Hc Hs]. rewrite ToLower_ascii by done.
  pose proof (lower_byte_dot c) as Ec. split.
  - pose proof (ToLower_nil s Hs) as En. split; intros [= E1 E2]; f_equal; tauto.
  - assert (Es : ToLower s = "." <-> s = ".").
    { destruct s as [|d s]; [done|]. apply ascii_only_cons in Hs as [Hd Hs]. rewrite ToLower_ascii by done.
      pose proof (lower_byte_dot d) as Ed. pose proof (ToLower_nil s Hs) as En.
      split; intros [= E1 E2]; f_equal; tauto. }
    split; intros [= E1 E2]; f_equal; tauto.
Qed.

Lemma secret_segment_lower s : ascii_only s -> secret_segment (ToLower s) = secret_segment s.
Proof.
  intros Hs. unfold secret_segment. destruct (ToLower_dots s Hs) as [E1 E2].
  rewrite (bool_decide_ext _ _ (ToLower_nil s Hs)), (bool_decide_ext _ _ E1), (bool_decide_ext _ _ E2).
  destruct (ToLower_Ext s Hs) as [-> He]. by rewrite !ToLower_idem.
Qed.

Lemma IsSecretPath_lower s : ascii_only s -> IsSecretPath (ToLower s) = IsSecretPath s.
Proof.
  intros Hs. rewrite !IsSecretPath_segments. destruct (ToLower_Replace s Hs) as [-> Hr].
  destruct (ToLower_Split _ Hr) as [-> Hall]. induction Hall as [|w ws Hw Hws IH]; [done|].
  cbn [fmap list_fmap existsb]. by rewrite secret_segment_lower, IH.
Qed.

(** Casing never hides a secret name: two ASCII paths that agree up to case are
    both secret or both not. *)
Theorem IsSecretPath_case s t : ascii_only s -> ascii_only t -> ToLower s = ToLower t ->
  IsSecretPath s = IsSecretPath t.
Proof. intros Hs Ht E. by rewrite <- (IsSecretPath_lower s), <- (IsSecretPath_lower t), E. Qed.

Lemma IsSecretPath_case_witness : IsSecretPath "home/.SSH/Config" = IsSecretPath "HOME/.ssh/config".
Proof.
  apply IsSecretPath_case; [repeat (apply ascii_only_cons; split; [reflexivity|]); constructor..|reflexivity].
Defined.
