(* ===== verification/PolicyCommands.v ===== *)
(** * The command gate: [internal/policy/commands.go] *)

From S2P Require Import Prelude GoStrings GoPath.

Definition ErrCommandNotAllowed : error := "policy: command not on allowlist".
Definition ErrCommandDestructive : error := "policy: destructive command blocked".
Definition ErrCommandInjection : error := "policy: shell metacharacters not permitted in command".
Definition ErrCommandPathQualified : error := "policy: command must be a bare allowlisted program name".

Definition alwaysBlockedPrograms : list string :=
  ["sh"; "bash"; "zsh"; "fish"; "ksh"; "dash"; "csh"; "tcsh"; "cmd"; "command"; "powershell"; "pwsh";
   "sudo"; "doas"; "su"; "runas"; "curl"; "wget"; "nc"; "ncat"; "netcat"; "telnet"; "format"; "mkfs"; "dd"; "iex"].

(** [";|&`$<>\n\r\t"] *)
Definition shellMetacharacters : string :=
  ";|&`$<>" +:+ String (chr 10) (String (chr 13) (String (chr 9) "")).

(** [filepath.ToSlash] is the identity on Unix. *)
Definition normProgram (prog : string) : string := TrimSuffix (ToLower (PathBase prog)) ".exe".

Definition isBareProgramName (prog : string) : bool :=
  if (prog =? "") || (TrimSpace prog <>? prog) then false
  else if ContainsAny prog (String "/" (String (chr 92) (String (chr 92) ":"))) then false
  else PathBase prog =? prog.

Definition programAllowed (allowed : list string) (base : string) : bool :=
  existsb (fun a => normProgram a =? base) allowed.

(** [len(a) >= 2 && a[0] == '-' && a[1] != '-'] *)
Definition has_flag_arg (short : ascii) (long a : string) : bool :=
  (a =? "--" +:+ long) ||
  match a with
  | String c0 (String c1 rest) =>
      (if ascii_dec c0 "-" then true else false) && negb (if ascii_dec c1 "-" then true else false) &&
      ContainsByte (String c1 rest) short
  | _ => false
  end.

Definition hasFlag (args : list string) (short : ascii) (long : string) : bool :=
  existsb (has_flag_arg short long) args.

Definition containsAny (args subs : list string) : bool :=
  existsb (fun a => existsb (fun s => a =? s) subs) args.

Definition isDestructiveInvocation (base : string) (args : list string) : bool :=
  let lower := ToLower <$> args in
  let joined := Join lower " " in
  if base =? "rm" then
    (hasFlag lower "r" "recursive" || Contains joined "-rf" || Contains joined "-fr") &&
    (hasFlag lower "f" "force" || Contains joined "-rf" || Contains joined "-fr")
  else if (base =? "rmdir") || (base =? "rd") then containsAny lower ["/s"; "/q"]
  else if (base =? "del") || (base =? "erase") then containsAny lower ["/s"; "/q"; "/f"]
  else if base =? "chmod" then
    (hasFlag lower "r" "recursive" || Contains joined "-r") && Contains joined "777"
  else if base =? "chown" then hasFlag lower "r" "recursive"
  else if base =? "git" then
    match lower with
    | [] => false
    | sub :: _ =>
        if (sub =? "push") || (sub =? "clean") then true
        else if sub =? "reset" then containsAny lower ["--hard"]
        else false
    end
  else false.

Definition injected (tok : string) : bool := ContainsAny tok shellMetacharacters || ContainsByte tok (chr 0).

Definition CheckCommand (allowed : list string) (prog : string) (args : list string) : result unit :=
  check reject_if (TrimSpace prog =? "") ErrCommandNotAllowed in
  check reject_if (existsb injected (prog :: args)) ErrCommandInjection in
  let base := normProgram prog in
  check reject_if (bool_decide (base ∈ alwaysBlockedPrograms)) ErrCommandDestructive in
  check reject_if (negb (isBareProgramName prog)) ErrCommandPathQualified in
  check reject_if (negb (programAllowed allowed base)) ErrCommandNotAllowed in
  check reject_if (isDestructiveInvocation base args) ErrCommandDestructive in
  Ok tt.

Example command1 : CheckCommand ["git"] "git" ["status"] = Ok tt. Proof. vm_compute. reflexivity. Qed.
Example command2 : CheckCommand ["git"] "./git" ["status"] = Err ErrCommandPathQualified.
Proof. vm_compute. reflexivity. Qed.
Example command3 : CheckCommand ["bash"] "/bin/BASH.exe" [] = Err ErrCommandDestructive.
Proof. vm_compute. reflexivity. Qed.
Example command4 : CheckCommand ["rm"] "rm" ["-r"; "-f"; "x"] = Err ErrCommandDestructive.
Proof. vm_compute. reflexivity. Qed.
Example command5 : CheckCommand ["go"] "go" ["test;rm"] = Err ErrCommandInjection.
Proof. vm_compute. reflexivity. Qed.

(** ** What an accepted command looks like *)
Lemma ContainsByte_In s c : ContainsByte s c = true <-> In c (String.list_ascii_of_string s).
Proof.
  induction s as [|d s IH]; cbn; [done|]. rewrite orb_true_iff, IH. destruct (ascii_dec c d) as [->|Hne]; [tauto|].
  split; [intros [?|?]; [done|by right]|intros [->|?]; [done|by right]].
Qed.

Lemma ContainsAny_In s chars : ContainsAny s chars = true <->
  exists c, In c (String.list_ascii_of_string s) /\ In c (String.list_ascii_of_string chars).
Proof.
  induction s as [|d s IH]; cbn; [split; [done|by intros (? & [] & _)]|].
  rewrite orb_true_iff, IH, ContainsByte_In. split.
  - intros [?|(c & ? & ?)]; [by exists d; auto|by exists c; auto].
  - intros (c & [->|?] & ?); [by left|right; by exists c].
Qed.

(** A byte a shell would interpret, or NUL. *)
Definition shell_byte (c : ascii) : Prop :=
  In c [";"%char; "|"%char; "&"%char; "`"%char; "$"%char; "<"%char; ">"%char; chr 10; chr 13; chr 9] \/ c = chr 0.

Lemma injected_false tok : injected tok = false <-> forall c, In c (String.list_ascii_of_string tok) -> ~ shell_byte c.
Proof.
  unfold injected, shell_byte. rewrite orb_false_iff, <- !not_true_iff_false, ContainsAny_In, ContainsByte_In.
  split.
  - intros [H1 H2] c Hc [Hm | ->]; [apply H1; by exists c|done].
  - intros H. split; [intros (c & Hc & Hm); apply (H c Hc); by left|intros Hz; apply (H _ Hz); by right].
Qed.

(** The long flag, or the short flag in a bundle. *)
Definition flagged (args : list string) (short : ascii) (long : string) : Prop :=
  exists a, In a args /\ (a = "--" +:+ long \/
    exists c rest, a = String "-" (String c rest) /\ c <> "-"%char /\ ContainsByte (String c rest) short = true).

Lemma hasFlag_spec args short long : hasFlag args short long = true <-> flagged args short long.
Proof.
  unfold hasFlag, flagged. rewrite existsb_exists. apply exist_proper. intros a. apply and_iff_compat_l.
  unfold has_flag_arg. rewrite orb_true_iff, bool_decide_eq_true. apply or_iff_compat_l.
  destruct a as [|c0 [|c1 rest]]; [split; [done|by intros (? & ? & ? & _)]..|].
  rewrite !andb_true_iff, negb_true_iff. destruct (ascii_dec c0 "-") as [->|H0], (ascii_dec c1 "-") as [->|H1];
    split; try (by intros [[? ?] ?]); try (by intros (? & ? & [= <- <-] & ? & _)).
  - intros [_ H]. by exists c1, rest.
  - intros (c & r & [= <- <-] & _ & H). done.
  - intros (c & r & [= -> <- <-] & _). done.
Qed.

(** An argument list with a recursive and a force flag, in any spelling. *)
Definition rm_forbidden (args : list string) : Prop :=
  flagged (ToLower <$> args) "r" "recursive" /\ flagged (ToLower <$> args) "f" "force".

Lemma TrimSuffix_bare prog : PathBase prog = prog -> normProgram prog = TrimSuffix (ToLower prog) ".exe".
Proof. unfold normProgram. by intros ->. Qed.

(** C19 What the command gate promises: an accepted command names its program by a
    bare name (no path separator, drive or surrounding space) that normalises to an
    allowlisted program and never to a shell, a privilege or network tool or another of
    the blocked programs, even when the allowlist names it; no token holds a byte a
    shell interprets or NUL; [rm] never gets a recursive and a force flag together,
    [chown] no recursive flag, [rmdir] and [rd] neither [/s] nor [/q]; and the first
    argument of [git] is neither push nor clean, and when it is reset no argument is
    [--hard]. Only the first argument of [git] is looked at: with a global option
    before it any subcommand passes ([git_global_option_hides_push]). *)
Theorem CheckCommand_sound allowed prog args :
  CheckCommand allowed prog args = Ok tt ->
  (exists a, In a allowed /\ normProgram a = TrimSuffix (ToLower prog) ".exe") /\
  TrimSuffix (ToLower prog) ".exe" ∉ ["sh"; "bash"; "zsh"; "fish"; "ksh"; "dash"; "csh"; "tcsh"; "cmd"; "command"; "powershell"; "pwsh";
     "sudo"; "doas"; "su"; "runas"; "curl"; "wget"; "nc"; "ncat"; "netcat"; "telnet"; "format"; "mkfs"; "dd"; "iex"] /\
  TrimSpace prog = prog /\ prog <> "" /\
  (forall c, In c (String.list_ascii_of_string prog) -> c <> "/"%char /\ c <> chr 92 /\ c <> ":"%char) /\
  (forall tok c, In tok (prog :: args) -> In c (String.list_ascii_of_string tok) -> ~ shell_byte c) /\
  (TrimSuffix (ToLower prog) ".exe" = "rm" -> ~ rm_forbidden args) /\
  (TrimSuffix (ToLower prog) ".exe" = "chown" -> ~ flagged (ToLower <$> args) "r" "recursive") /\
  (TrimSuffix (ToLower prog) ".exe" ∈ ["rmdir"; "rd"] -> "/s" ∉ (ToLower <$> args) /\ "/q" ∉ (ToLower <$> args)) /\
  (TrimSuffix (ToLower prog) ".exe" = "git" -> forall sub rest, ToLower <$> args = sub :: rest ->
     sub <> "push" /\ sub <> "clean" /\ (sub = "reset" -> "--hard" ∉ rest)).
Proof.
  unfold CheckCommand. intros H. res_inv H. breflect. rename Hg2 into Hbare, Hg3 into Hallow, Hg4 into Hdes.
  unfold isBareProgramName in Hbare. destruct ((prog =? "") || _) eqn:E1; [done|].
  destruct (ContainsAny prog _) eqn:E2; [done|]. breflect.
  rewrite (TrimSuffix_bare prog) in * by done. split_and!; try done.
  - unfold programAllowed in Hallow. apply existsb_exists in Hallow as (a & Ha & E). breflect. by exists a.
  - intros c Hc. apply not_true_iff_false in E2. rewrite ContainsAny_In in E2.
    split_and!; intros ->; apply E2; eexists; (split; [exact Hc|]); cbn; tauto.
  - intros tok c Htok. apply injected_false. apply not_true_iff_false. intros Ht.
    match goal with Hx : existsb injected _ = false |- _ => apply not_true_iff_false in Hx; apply Hx end.
    apply existsb_exists. by exists tok.
  - intros Erm [Hr%hasFlag_spec Hf%hasFlag_spec]. unfold isDestructiveInvocation in Hdes. rewrite Erm in Hdes. cbn -[hasFlag Contains] in Hdes.
    by rewrite Hr, Hf in Hdes.
  - intros Eown Hr%hasFlag_spec. unfold isDestructiveInvocation in Hdes. rewrite Eown in Hdes. cbn -[hasFlag Contains] in Hdes. by rewrite Hr in Hdes.
  - intros Erd. assert (Hc : containsAny (ToLower <$> args) ["/s"; "/q"] = false).
    { unfold isDestructiveInvocation in Hdes. repeat (apply elem_of_cons in Erd as [Erd|Erd]; [by rewrite Erd in Hdes|]). by apply elem_of_nil in Erd. }
    apply not_true_iff_false in Hc. split; intros Hin; apply Hc, existsb_exists; eexists; (split; [by apply list_elem_of_In|reflexivity]).
  - intros Egit sub rest Hargs. unfold isDestructiveInvocation in Hdes. rewrite Egit, Hargs in Hdes.
    cbn -[containsAny] in Hdes. destruct ((sub =? "push") || (sub =? "clean")) eqn:Es; [done|]. breflect.
    split_and!; try done. intros -> Hin. cbn in Hdes. apply not_true_iff_false in Hdes. apply Hdes.
    apply existsb_exists. exists "--hard". split; [by apply list_elem_of_In|done].
Qed.

Lemma CheckCommand_sound_witness :
  exists a, In a ["go"; "rm"] /\ normProgram a = TrimSuffix (ToLower "RM.exe") ".exe".
Proof. apply (CheckCommand_sound ["go"; "rm"] "RM.exe" ["-f"; "x"]). vm_compute. reflexivity. Defined.

(** The subcommand of git is looked for in the first argument only: with a
    global option before it, a push passes the gate. *)
Theorem git_global_option_hides_push :
  CheckCommand ["git"] "git" ["push"] = Err ErrCommandDestructive /\
  CheckCommand ["git"] "git" ["-C"; "."; "push"; "--force"] = Ok tt.
Proof. vm_compute. split; reflexivity. Qed.
