(* ===== verification/PolicyGrants.v ===== *)
(** * Access grants: [internal/policy/grants.go]

    Pending requests and approved grants for secret paths, kept in memory under one
    lock.  Every operation is a function from the state, the clock reading and (for
    [Request]) the outcome of [newID]; the operations of concurrent callers are
    serialised by the lock, so a run is a sequence of operations. The notifier is a
    callback that gets the new request and cannot reach the state. *)

From S2P Require Import Prelude GoStrings.

Definition minGrantTTL : duration := Second.
Definition defaultGrantTTL : duration := 5 * Minute.
Definition maxGrantTTL : duration := Hour.
Definition pendingRequestTTL : duration := 15 * Minute.
Definition maxPendingAccessRequests : nat := 256.

Definition ErrAccessGrantInvalid : error := "policy: access grant invalid".
Definition ErrAccessGrantExpired : error := "policy: access grant expired".
Definition ErrAccessGrantUsed : error := "policy: access grant already used".
Definition ErrAccessGrantPathMismatch : error := "policy: access grant path mismatch".
Definition ErrRawAccessDenied : error := "policy: raw secret access requires explicit raw grant".
Definition ErrAccessGrantTTL : error := "policy: access grant ttl must be between 1s and 1h".
Definition ErrAccessRequestExpired : error := "policy: access request expired".
Definition ErrAccessRequestLimit : error := "policy: too many pending access requests".

Record AccessRequest := {
  ar_ID : string; ar_Path : string; ar_Reason : string; ar_RawRequested : bool;
  ar_CreatedAt : time; ar_ExpiresAt : time }.

Record AccessDecision := { ad_RequestID : string; ad_Path : string; ad_Raw : bool; ad_ExpiresAt : time }.

Record readGrant := { rg_path : string; rg_raw : bool; rg_expiresAt : time; rg_used : bool }.

Record AccessGrants := { requests : gmap string AccessRequest; grants : gmap string readGrant }.

Definition NewAccessGrants : AccessGrants := {| requests := ∅; grants := ∅ |}.

Definition pruneExpiredLocked (now : time) (g : AccessGrants) : AccessGrants :=
  {| requests := filter (fun kv => negb (After now (ar_ExpiresAt kv.2))) (requests g);
     grants := filter (fun kv => negb (After now (rg_expiresAt kv.2))) (grants g) |}.

Definition Request (now : time) (newID : result string) (path : string) (raw : bool) (g : AccessGrants) :
    result AccessRequest * AccessGrants :=
  match newID with
  | Err e => (Err e, g)
  | Ok id =>
      let g := pruneExpiredLocked now g in
      if bool_decide (maxPendingAccessRequests <= size (requests g))%nat then (Err ErrAccessRequestLimit, g)
      else
        let req := {| ar_ID := id; ar_Path := path; ar_Reason := "secret path read requires local human approval";
                      ar_RawRequested := raw; ar_CreatedAt := now; ar_ExpiresAt := TimeAdd now pendingRequestTTL |} in
        (Ok req, {| requests := <[id := req]> (requests g); grants := grants g |})
  end.

Definition Approve (now : time) (id : string) (raw : bool) (ttl : duration) (g : AccessGrants) :
    result AccessDecision * AccessGrants :=
  match requests g !! id with
  | None => (Err ErrAccessGrantInvalid, g)
  | Some req =>
      if After now (ar_ExpiresAt req) then
        (Err ErrAccessRequestExpired, {| requests := delete id (requests g); grants := grants g |})
      else
        let g := pruneExpiredLocked now g in
        let ttl := if ttl =? 0 then defaultGrantTTL else ttl in
        if (ttl <? minGrantTTL) || (maxGrantTTL <? ttl) then (Err ErrAccessGrantTTL, g)
        else
          let d := {| ad_RequestID := id; ad_Path := ar_Path req; ad_Raw := raw; ad_ExpiresAt := TimeAdd now ttl |} in
          (Ok d, {| requests := delete id (requests g);
                    grants := <[id := {| rg_path := ar_Path req; rg_raw := raw; rg_expiresAt := ad_ExpiresAt d;
                                         rg_used := false |}]> (grants g) |})
  end.

Definition Consume (now : time) (id path : string) (raw : bool) (g : AccessGrants) : result bool * AccessGrants :=
  match grants g !! id with
  | None => (Err ErrAccessGrantInvalid, g)
  | Some grant =>
      if rg_used grant then (Err ErrAccessGrantUsed, g)
      else if After now (rg_expiresAt grant) then
        (Err ErrAccessGrantExpired, {| requests := requests g; grants := delete id (grants g) |})
      else if rg_path grant <>? path then (Err ErrAccessGrantPathMismatch, g)
      else if raw && negb (rg_raw grant) then (Err ErrRawAccessDenied, g)
      else
        (Ok (rg_raw grant),
         {| requests := requests g;
            grants := <[id := {| rg_path := rg_path grant; rg_raw := rg_raw grant;
                                 rg_expiresAt := rg_expiresAt grant; rg_used := true |}]> (grants g) |})
  end.

(** ** Runs *)
Inductive grant_op :=
| OpRequest (now : time) (newID : result string) (path : string) (raw : bool)
| OpApprove (now : time) (id : string) (raw : bool) (ttl : duration)
| OpConsume (now : time) (id path : string) (raw : bool).

(** What a successful operation did. *)
Inductive grant_event :=
| Requested (req : AccessRequest)
| Approved (now : time) (d : AccessDecision)
| Consumed (now : time) (id path : string) (asked_raw got_raw : bool).

Definition event_of {A} (f : A -> grant_event) (r : result A) : list grant_event :=
  match r with Ok a => [f a] | Err _ => [] end.

Definition grant_exec (op : grant_op) (g : AccessGrants) : list grant_event * AccessGrants :=
  match op with
  | OpRequest now newID path raw =>
      let '(r, g) := Request now newID path raw g in (event_of Requested r, g)
  | OpApprove now id raw ttl => let '(r, g) := Approve now id raw ttl g in (event_of (Approved now) r, g)
  | OpConsume now id path raw =>
      let '(r, g) := Consume now id path raw g in (event_of (Consumed now id path raw) r, g)
  end.

(** A run and its log, latest event first. *)
Inductive grant_run : list grant_event -> AccessGrants -> Prop :=
| run_new : grant_run [] NewAccessGrants
| run_op log g op ev g' : grant_run log g -> grant_exec op g = (ev, g') -> grant_run (ev ++ log) g'.

Definition requested_ids (log : list grant_event) : list string :=
  omap (fun e => match e with Requested r => Some (ar_ID r) | _ => None end) log.
Definition approved_ids (log : list grant_event) : list string :=
  omap (fun e => match e with Approved _ d => Some (ad_RequestID d) | _ => None end) log.
Definition consumed_ids (log : list grant_event) : list string :=
  omap (fun e => match e with Consumed _ id _ _ _ => Some id | _ => None end) log.

(** ** The contract, as a property of the log

    An approval answers an earlier request for the same identifier and path, not
    expired and not approved since; it lasts between one second and one hour.  A
    consumption follows an approval of the same identifier and exactly the same
    path that has not expired, returns the raw flag of the approval, gets raw
    access only when that flag allows it, and no consumption of the identifier
    happened since the approval. *)
Inductive justified : list grant_event -> Prop :=
| just_nil : justified []
| just_requested r log : justified log -> ar_ExpiresAt r = TimeAdd (ar_CreatedAt r) pendingRequestTTL ->
    justified (Requested r :: log)
| just_approved now d l1 r l2 : justified (l1 ++ Requested r :: l2) ->
    ar_ID r = ad_RequestID d -> ar_Path r = ad_Path d -> now <= ar_ExpiresAt r ->
    ad_RequestID d ∉ approved_ids l1 ->
    now + minGrantTTL <= ad_ExpiresAt d <= now + maxGrantTTL ->
    justified (Approved now d :: l1 ++ Requested r :: l2)
| just_consumed now path asked l1 t d l2 : justified (l1 ++ Approved t d :: l2) ->
    ad_Path d = path -> now <= ad_ExpiresAt d -> (asked = true -> ad_Raw d = true) ->
    ad_RequestID d ∉ consumed_ids l1 ->
    justified (Consumed now (ad_RequestID d) path asked (ad_Raw d) :: l1 ++ Approved t d :: l2).

Definition pending_ok (log : list grant_event) (id : string) (r : AccessRequest) : Prop :=
  ar_ID r = id /\ exists l1 l2, log = l1 ++ Requested r :: l2 /\ id ∉ approved_ids l1.

Definition grant_ok (log : list grant_event) (id : string) (gr : readGrant) : Prop :=
  exists l1 t d l2, log = l1 ++ Approved t d :: l2 /\ ad_RequestID d = id /\ ad_Path d = rg_path gr /\
    ad_Raw d = rg_raw gr /\ ad_ExpiresAt d = rg_expiresAt gr /\
    (rg_used gr = false -> id ∉ consumed_ids l1).

Record grants_inv (log : list grant_event) (g : AccessGrants) : Prop := {
  gi_log : justified log;
  gi_pending : map_Forall (pending_ok log) (requests g);
  gi_grants : map_Forall (grant_ok log) (grants g);
  gi_bound : (size (requests g) <= maxPendingAccessRequests)%nat }.

Definition not_approval (id : string) (e : grant_event) : Prop := id ∉ approved_ids [e].
Definition not_consumption (id : string) (e : grant_event) : Prop := id ∉ consumed_ids [e].

Lemma pending_ok_cons e log id r : not_approval id e -> pending_ok log id r -> pending_ok (e :: log) id r.
Proof.
  intros He (Hid & l1 & l2 & -> & Hl). split; [done|]. exists (e :: l1), l2. split; [done|].
  change (approved_ids (e :: l1)) with (approved_ids ([e] ++ l1)). unfold approved_ids. rewrite omap_app. 
  intros [?|?]%elem_of_app; [by apply He|by apply Hl].
Qed.

Lemma grant_ok_cons e log id gr :
  (rg_used gr = false -> not_consumption id e) -> grant_ok log id gr -> grant_ok (e :: log) id gr.
Proof.
  intros He (l1 & t & d & l2 & -> & H1 & H2 & H3 & H4 & H5). exists (e :: l1), t, d, l2. split_and!; try done.
  intros Hu. change (consumed_ids (e :: l1)) with (consumed_ids ([e] ++ l1)). unfold consumed_ids. rewrite omap_app.
  intros [?|?]%elem_of_app; [by apply (He Hu)|by apply (H5 Hu)].
Qed.

Lemma prune_inv now log g : grants_inv log g -> grants_inv log (pruneExpiredLocked now g).
Proof.
  intros [Hl Hp Hg Hb]. split; cbn; [done|..].
  - intros id r [? _]%map_lookup_filter_Some. by apply Hp.
  - intros id r [? _]%map_lookup_filter_Some. by apply Hg.
  - etrans; [|exact Hb]. apply map_size_filter.
Qed.

Lemma Request_inv now newID path raw log g r g' : grants_inv log g -> Request now newID path raw g = (r, g') ->
  grants_inv (event_of Requested r ++ log) g'.
Proof.
  intros Hi. unfold Request. destruct newID as [id|e]; [|by intros [= <- <-]].
  pose proof (prune_inv now log g Hi) as Hp. revert Hp. generalize (pruneExpiredLocked now g) as g1. clear Hi g.
  intros g [Hl Hp Hg Hb]. case_bool_decide as Hsz; intros [= <- <-]; [by split|]. cbn [event_of app]. split; cbn.
  - by constructor.
  - apply map_Forall_insert_2; [split; [done|]; by exists [], log; split; [|apply not_elem_of_nil]|].
    eapply map_Forall_impl; [exact Hp|]. intros id' r'. cbn. by apply pending_ok_cons, not_elem_of_nil.
  - eapply map_Forall_impl; [exact Hg|]. intros id' r'. cbn. apply grant_ok_cons. intros _. by apply not_elem_of_nil.
  - rewrite map_size_insert. destruct (requests g !! id); unfold Datatypes.id; lia.
Qed.

Lemma Approve_inv now id raw ttl log g r g' : grants_inv log g -> Approve now id raw ttl g = (r, g') ->
  grants_inv (event_of (Approved now) r ++ log) g'.
Proof.
  intros Hi. unfold Approve. destruct (requests g !! id) as [req|] eqn:Ereq; [|by intros [= <- <-]].
  destruct (After now (ar_ExpiresAt req)) eqn:Eexp; unfold After in Eexp; breflect.
  { intros [= <- <-]. destruct Hi as [Hl Hp Hg Hb]. split; cbn; [done| |done|].
    - by apply map_Forall_delete.
    - rewrite map_size_delete, Ereq. lia. }
  destruct (gi_pending _ _ Hi id req Ereq) as (Hid & l1 & l2 & Elog & Hno).
  pose proof (prune_inv now log g Hi) as Hp. revert Hp. generalize (pruneExpiredLocked now g) as g1. clear Hi Ereq g.
  intros g [Hl Hp Hg Hb]. set (ttl' := if ttl =? 0 then defaultGrantTTL else ttl).
  destruct ((ttl' <? minGrantTTL) || (maxGrantTTL <? ttl')) eqn:Ettl; intros [= <- <-]; [by split|]. breflect.
  cbn [event_of app]. split; cbn.
  - rewrite Elog in *. apply just_approved; cbn; try done. unfold TimeAdd. lia.
  - intros id' r' [Hne Hr]%lookup_delete_Some. apply pending_ok_cons; [|by apply Hp].
    unfold not_approval. cbn. set_solver.
  - apply map_Forall_insert_2.
    + exists [], now. eexists. exists log. split_and!; try done. intros _. apply not_elem_of_nil.
    + eapply map_Forall_impl; [exact Hg|]. intros id' gr. cbn. apply grant_ok_cons. intros _. apply not_elem_of_nil.
  - rewrite map_size_delete. destruct (requests g !! id); cbn; lia.
Qed.

Lemma Consume_inv now id path raw log g r g' : grants_inv log g -> Consume now id path raw g = (r, g') ->
  grants_inv (event_of (Consumed now id path raw) r ++ log) g'.
Proof.
  intros [Hl Hp Hg Hb]. unfold Consume. destruct (grants g !! id) as [gr|] eqn:Egr; [|by intros [= <- <-]].
  destruct (rg_used gr) eqn:Eused; [by intros [= <- <-]|].
  destruct (After now (rg_expiresAt gr)) eqn:Eexp; unfold After in Eexp; breflect.
  { intros [= <- <-]. split; cbn; [done..| |done]. by apply map_Forall_delete. }
  destruct (rg_path gr <>? path) eqn:Epath; [by intros [= <- <-]|].
  destruct (raw && negb (rg_raw gr)) eqn:Eraw; intros [= <- <-]; [done|]. breflect.
  destruct (Hg id gr Egr) as (l1 & t & d & l2 & -> & <- & E1 & E2 & E3 & Hno). cbn [event_of app]. split; cbn.
  - rewrite <- E2. apply just_consumed; try done; [congruence|lia| |by apply Hno].
    intros ->. rewrite E2. by destruct (rg_raw gr).
  - eapply map_Forall_impl; [exact Hp|]. intros id' r'. cbn. apply pending_ok_cons. apply not_elem_of_nil.
  - intros id' gr' Hgr'. destruct (decide (id' = ad_RequestID d)) as [->|Hne].
    + rewrite lookup_insert_eq in Hgr'. injection Hgr' as <-. apply grant_ok_cons; [done|].
      exists l1, t, d, l2. by split_and!.
    + rewrite lookup_insert_ne in Hgr' by done. apply grant_ok_cons; [|by apply Hg].
      intros _. unfold not_consumption. cbn. set_solver.
  - done.
Qed.

Lemma grant_run_inv log g : grant_run log g -> grants_inv log g.
Proof.
  induction 1 as [|log g op ev g' _ IH E]; [split; cbn; [constructor|done..|rewrite map_size_empty; lia]|].
  destruct op as [now newID path raw|now id raw ttl|now id path raw]; cbn in E.
  - destruct (Request now newID path raw g) as [r g1] eqn:Er. injection E as <- <-. by eapply Request_inv.
  - destruct (Approve now id raw ttl g) as [r g1] eqn:Er. injection E as <- <-. by eapply Approve_inv.
  - destruct (Consume now id path raw g) as [r g1] eqn:Er. injection E as <- <-. by eapply Consume_inv.
Qed.

(** ** Single use *)
Definition occurrences (id : string) (l : list string) : nat := count_occ String.string_dec l id.
#[local] Arguments occurrences : simpl never.

Lemma occurrences_cons id x l :
  occurrences id (x :: l) = ((if decide (x = id) then 1 else 0) + occurrences id l)%nat.
Proof. unfold occurrences. cbn. destruct (String.string_dec x id), (decide (x = id)); done. Qed.

Lemma occurrences_app id l k : occurrences id (l ++ k) = (occurrences id l + occurrences id k)%nat.
Proof. apply count_occ_app. Qed.

Lemma occurrences_none id l : id ∉ l -> occurrences id l = O.
Proof. intros H. apply count_occ_not_In. by rewrite <- list_elem_of_In. Qed.

Lemma ids_app {A B} (f : A -> option B) l k : omap f (l ++ k) = omap f l ++ omap f k.
Proof. apply omap_app. Qed.

Lemma justified_suffix l1 l2 : justified (l1 ++ l2) -> justified l2.
Proof. induction l1 as [|e l1 IH]; [done|]. cbn. intros H. apply IH. by inversion H. Qed.

Lemma justified_counts log : justified log -> forall id,
  (occurrences id (consumed_ids log) <= occurrences id (approved_ids log) <= occurrences id (requested_ids log))%nat.
Proof.
  induction log as [log IH] using (induction_ltof1 _ (@length grant_event)). unfold ltof in IH.
  intros Hj id. inversion Hj as [|r l Hl Hexp|now d l1 r l2 Hl E1 E2 E3 Hno Ht|now path asked l1 t d l2 Hl E1 E2 E3 Hno];
    subst; [cbn; lia|..].
  - specialize (IH l ltac:(cbn; lia) Hl id). unfold consumed_ids, approved_ids, requested_ids in *. cbn. rewrite occurrences_cons. lia.
  - pose proof (IH (l1 ++ Requested r :: l2) ltac:(cbn; lia) Hl id) as [Hc _].
    apply justified_suffix in Hl as Hl2. apply (justified_suffix [_]) in Hl2.
    pose proof (IH l2 ltac:(cbn; rewrite length_app; cbn; lia) Hl2 id) as [_ Hr].
    pose proof (IH (l1 ++ Requested r :: l2) ltac:(cbn; lia) Hl id) as [_ Hr'].
    unfold consumed_ids, approved_ids, requested_ids in *. cbn. rewrite !ids_app, !occurrences_app in *. cbn in *.
    rewrite occurrences_cons, E1 in Hr'. rewrite !occurrences_cons, occurrences_app, E1. destruct (decide (ad_RequestID d = id)) as [<-|]; [|lia].
    rewrite (occurrences_none _ _ Hno) in Hc, Hr'. rewrite (occurrences_none _ _ Hno). lia.
  - pose proof (IH (l1 ++ Approved t d :: l2) ltac:(cbn; lia) Hl id) as [Hc Hr].
    apply justified_suffix in Hl as Hl2. apply (justified_suffix [_]) in Hl2.
    pose proof (IH l2 ltac:(cbn; rewrite length_app; cbn; lia) Hl2 id) as [Hc' _].
    unfold consumed_ids, approved_ids, requested_ids in *. cbn. rewrite !ids_app, !occurrences_app in *. cbn in *.
    rewrite ?occurrences_cons, ?occurrences_app in *. destruct (decide (ad_RequestID d = id)) as [<-|]; [|lia].
    rewrite (occurrences_none _ _ Hno) in *. lia.
Qed.

(** C18 Every run of the grant store keeps its contract: approvals answer pending,
    unexpired requests, at most one approval per request and for the requested
    path, lasting between a second and an hour; a consumption uses an approved,
    unexpired grant for exactly its path, at most once per approval, and raw access
    only when the human approved raw; and at most 256 requests are pending. *)
Theorem grants_contract log g : grant_run log g ->
  justified log /\ (size (requests g) <= maxPendingAccessRequests)%nat.
Proof. intros [Hl _ _ Hb]%grant_run_inv. done. Qed.

(** A grant is single use: when [newID] never repeats an identifier, no
    identifier is consumed twice in a run, whatever the interleaving and the
    clock. *)
Theorem grants_single_use log g : grant_run log g -> NoDup (requested_ids log) -> NoDup (consumed_ids log).
Proof.
  intros [Hl _ _ _]%grant_run_inv Hnd. rewrite !NoDup_ListNoDup in *.
  rewrite (NoDup_count_occ String.string_dec) in *. intros id. specialize (Hnd id).
  pose proof (justified_counts log Hl id). unfold occurrences in *. lia.
Qed.

(** ** Witnesses *)
Definition demo_grant_ops : list grant_op :=
  [OpRequest 0 (Ok "r1") "/repo/.env" true; OpApprove Second "r1" false 0;
   OpConsume (2 * Second) "r1" "/repo/.env" true; OpConsume (2 * Second) "r1" "/repo/.env" false;
   OpConsume (3 * Second) "r1" "/repo/.env" false].

Definition grant_step (acc : list grant_event * AccessGrants) (op : grant_op) : list grant_event * AccessGrants :=
  let '(ev, g) := grant_exec op acc.2 in (ev ++ acc.1, g).

Definition demo_grants : list grant_event * AccessGrants :=
  fold_left grant_step demo_grant_ops ([], NewAccessGrants).

Lemma grant_step_run ops acc : grant_run acc.1 acc.2 ->
  grant_run (fold_left grant_step ops acc).1 (fold_left grant_step ops acc).2.
Proof.
  revert acc. induction ops as [|op ops IH]; intros acc H; [done|]. cbn [fold_left]. apply IH. unfold grant_step.
  destruct (grant_exec op acc.2) as [ev g] eqn:E. cbn. by eapply run_op.
Qed.

Example demo_grants_consumed : consumed_ids demo_grants.1 = ["r1"].
Proof. vm_compute. reflexivity. Qed.

Lemma grants_contract_witness :
  justified demo_grants.1 /\ (size (requests demo_grants.2) <= maxPendingAccessRequests)%nat.
Proof. apply (grants_contract demo_grants.1 demo_grants.2). apply grant_step_run. constructor. Defined.

Lemma grants_single_use_witness : NoDup (consumed_ids demo_grants.1).
Proof.
  apply (grants_single_use demo_grants.1 demo_grants.2).
  - apply grant_step_run. constructor.
  - change (requested_ids demo_grants.1) with ["r1"]. apply NoDup_singleton.
Defined.
