(* ===== verification/Policy.v ===== *)
(** * The decision surface: [internal/policy/policy.go] and [internal/config]

    [Policy] joins the jail, the secret rules, the command gate, the access mode and
    the grants.  The file system is an argument of every check that resolves a path;
    a check that resolves twice gets the file system of each moment. *)

From S2P Require Import Prelude GoStrings GoPath PolicyScan PolicyJail PolicySecrets PolicyCommands PolicyGrants.

(** ** Configuration *)
Definition Mode := string.
Definition ModeReadOnly : Mode := "read-only".
Definition ModeAsk : Mode := "ask".
Definition ModeAllow : Mode := "allow".

Record Config := {
  cfg_Roots : list string; cfg_Mode : Mode; cfg_AllowedCommands : list string;
  cfg_TestCommand : list string; cfg_AuditPath : string; cfg_SandboxBackend : string }.

Definition KnownSandboxBackends : list string := ["private-rootless"; "docker"; "nsjail"; "gvisor"].

Definition ErrNoRoots : error := "config: at least one project root is required".
Definition ErrRootNotAbsolute : error := "config: project root must be an absolute path".
Definition ErrUnknownMode : error := "config: unknown mode (use read-only/ask/allow)".
Definition ErrUnknownSandboxBackend : error :=
  "config: unknown sandbox backend (use none/private-rootless/docker/nsjail/gvisor)".

Definition NormalizeMode (mode : Mode) : result Mode :=
  if mode =? "" then Ok ModeReadOnly
  else if (mode =? ModeReadOnly) || (mode =? ModeAsk) || (mode =? ModeAllow) then Ok mode
  else Err ErrUnknownMode.

Definition SecureDefaults : Config :=
  {| cfg_Roots := []; cfg_Mode := ModeReadOnly; cfg_AllowedCommands := ["git"; "go"; "ls"; "cat"];
     cfg_TestCommand := []; cfg_AuditPath := ""; cfg_SandboxBackend := "" |}.

Fixpoint clean_roots (roots : list string) : result (list string) :=
  match roots with
  | [] => Ok []
  | r :: rest =>
      if negb (IsAbs r) then Err ErrRootNotAbsolute
      else let? cleaned := clean_roots rest in Ok (Clean r :: cleaned)
  end.

(** [config.New] *)
Definition NewConfig (c : Config) : result Config :=
  check reject_if (match cfg_Roots c with [] => true | _ => false end) ErrNoRoots in
  let? cleaned := clean_roots (cfg_Roots c) in
  let? mode := NormalizeMode (cfg_Mode c) in
  let b := ToLower (TrimSpace (cfg_SandboxBackend c)) in
  let? backend :=
    if (b =? "") || (b =? "none") then Ok "none"
    else if existsb (fun k => b =? k) KnownSandboxBackends then Ok b
    else Err ErrUnknownSandboxBackend in
  Ok {| cfg_Roots := cleaned; cfg_Mode := mode; cfg_AllowedCommands := cfg_AllowedCommands c;
        cfg_TestCommand := cfg_TestCommand c; cfg_AuditPath := cfg_AuditPath c; cfg_SandboxBackend := backend |}.

(** ** The policy *)
Definition ErrReadOnly : error := "policy: blocked: server is read-only (writes/commands disabled)".
Definition ErrExecutionRequiresAllow : error := "policy: execution requires server mode allow".

(** The grants are the mutable part and are passed as state. *)
Record Policy := { pol_jail : Jail; pol_allowed : list string; pol_mode : Mode }.

Definition NewPolicy (fs : FS) (cfg : Config) : result (Policy * AccessGrants) :=
  let? jail := NewJail fs (cfg_Roots cfg) in
  let? mode := NormalizeMode (cfg_Mode cfg) in
  Ok ({| pol_jail := jail; pol_allowed := cfg_AllowedCommands cfg; pol_mode := mode |}, NewAccessGrants).

Definition CheckContainedExecution (p : Policy) : result unit :=
  if pol_mode p =? ModeReadOnly then Err ErrReadOnly
  else if pol_mode p =? ModeAllow then Ok tt
  else if pol_mode p =? ModeAsk then Err ErrExecutionRequiresAllow
  else Err ErrUnknownMode.

Definition CheckRead (fs : FS) (p : Policy) (path : string) : result string :=
  check reject_if (IsSecretPath path) ErrSecretDenied in
  let? resolved := Resolve fs (pol_jail p) path in
  check reject_if (IsSecretPath resolved) ErrSecretDenied in
  Ok resolved.

Definition RequestReadAccess (fs : FS) (p : Policy) (now : time) (newID : result string) (path : string) (raw : bool)
    (g : AccessGrants) : result AccessRequest * AccessGrants :=
  match Resolve fs (pol_jail p) path with
  | Err e => (Err e, g)
  | Ok resolved =>
      if negb (IsSecretPath path) && negb (IsSecretPath resolved) then
        (Ok {| ar_ID := ""; ar_Path := ""; ar_Reason := ""; ar_RawRequested := false;
               ar_CreatedAt := zero_time; ar_ExpiresAt := zero_time |}, g)
      else Request now newID resolved raw g
  end.

Definition ApproveReadAccess (now : time) (requestID : string) (raw : bool) (ttl : duration) (g : AccessGrants) :
    result AccessDecision * AccessGrants := Approve now requestID raw ttl g.

Definition ConsumeReadGrant (fs : FS) (p : Policy) (now : time) (requestID path : string) (raw : bool)
    (g : AccessGrants) : result bool * AccessGrants :=
  match Resolve fs (pol_jail p) path with
  | Err e => (Err e, g)
  | Ok resolved => Consume now requestID resolved raw g
  end.

Record AccessRequiredError := {
  are_Type : string; are_RequestID : string; are_Path : string; are_Reason : string; are_RawRequested : bool }.

(** The three outcomes of [CheckReadWithAccess]. *)
Inductive access_outcome :=
| Access (resolved : string) (rawAllowed : bool)
| AccessRequired (e : AccessRequiredError)
| AccessDenied (e : error).

(** [fs] is the file system when the path is resolved, [fs'] when the request or
    the grant resolves it again. *)
Definition CheckReadWithAccess (fs fs' : FS) (p : Policy) (now : time) (newID : result string)
    (path requestID : string) (raw : bool) (g : AccessGrants) : access_outcome * AccessGrants :=
  match Resolve fs (pol_jail p) path with
  | Err e => (AccessDenied e, g)
  | Ok resolved =>
      if negb (IsSecretPath path) && negb (IsSecretPath resolved) then (Access resolved false, g)
      else if requestID =? "" then
        match RequestReadAccess fs' p now newID resolved raw g with
        | (Err e, g) => (AccessDenied e, g)
        | (Ok req, g) =>
            (AccessRequired {| are_Type := "access-required"; are_RequestID := ar_ID req; are_Path := ar_Path req;
                               are_Reason := ar_Reason req; are_RawRequested := ar_RawRequested req |}, g)
        end
      else
        match ConsumeReadGrant fs' p now requestID resolved raw g with
        | (Err e, g) => (AccessDenied e, g)
        | (Ok rawAllowed, g) => (Access resolved rawAllowed, g)
        end
  end.

(** The mode switch of the write and command checks: [needsApproval]. *)
Definition CheckAction (p : Policy) : result bool :=
  if pol_mode p =? ModeReadOnly then Err ErrReadOnly
  else if pol_mode p =? ModeAsk then Ok true
  else if pol_mode p =? ModeAllow then Ok false
  else Err ErrUnknownMode.

Definition CheckSandboxExec (p : Policy) : result bool := CheckAction p.

Definition CheckWrite (fs : FS) (p : Policy) (path : string) : result (string * bool) :=
  let? resolved := CheckRead fs p path in
  if pol_mode p =? ModeReadOnly then Err ErrReadOnly
  else if pol_mode p =? ModeAsk then Ok (resolved, true)
  else if pol_mode p =? ModeAllow then Ok (resolved, false)
  else Err ErrUnknownMode.

(** [Policy.CheckCommand] and [Policy.CheckCommandAllowed] *)
Definition policy_CheckCommand (p : Policy) (prog : string) (args : list string) : result bool :=
  check CheckCommand (pol_allowed p) prog args in
  if pol_mode p =? ModeReadOnly then Err ErrReadOnly
  else if pol_mode p =? ModeAsk then Ok true
  else if pol_mode p =? ModeAllow then Ok false
  else Err ErrUnknownMode.

Definition CheckCommandAllowed (p : Policy) (prog : string) (args : list string) : result unit :=
  CheckCommand (pol_allowed p) prog args.

(** ** Configuration *)
Definition valid_mode (m : Mode) : Prop := m = ModeReadOnly \/ m = ModeAsk \/ m = ModeAllow.

Lemma NormalizeMode_valid m m' : NormalizeMode m = Ok m' -> valid_mode m' /\ (m = "" -> m' = ModeReadOnly).
Proof.
  unfold NormalizeMode, valid_mode. case_bool_decide as E; [intros [= <-]; auto|].
  destruct ((m =? ModeReadOnly) || (m =? ModeAsk) || (m =? ModeAllow)) eqn:Em; [|done].
  intros [= <-]. rewrite !orb_true_iff, !bool_decide_eq_true in Em. tauto.
Qed.

Lemma NormalizeMode_id m : valid_mode m -> NormalizeMode m = Ok m.
Proof. by intros [-> |[-> | ->]]. Qed.

Lemma clean_roots_spec roots rs : clean_roots roots = Ok rs ->
  length rs = length roots /\ Forall rooted_path rs /\ clean_roots rs = Ok rs.
Proof.
  revert rs. induction roots as [|r roots IH]; intros rs; cbn [clean_roots]; [by intros [= <-]|].
  destruct (IsAbs r) eqn:Er; [|done]. cbn [negb]. destruct (clean_roots roots) as [rs'|]; cbn [rbind]; [|done].
  intros [= <-]. destruct (IH rs' eq_refl) as (Hlen & Hr & Hc).
  destruct (Clean_abs r Er) as (l & -> & Hl & _). split_and!.
  - cbn. by rewrite Hlen.
  - constructor; [by exists l|done].
  - cbn [clean_roots]. rewrite IsAbs_path_of, Hc. cbn [negb rbind]. by rewrite Clean_path_of.
Qed.

Lemma new_roots_total fs rs : Forall rooted_path rs -> is_ok (new_roots fs rs).
Proof.
  induction 1 as [|r rs (l & -> & _) _ IH]; [done|]. cbn [new_roots]. rewrite IsAbs_path_of. cbn [negb].
  by destruct (new_roots fs rs).
Qed.

(** A configuration that [New] returns is normal: validating it again returns it
    unchanged, its mode is one of the three postures (read-only when none was
    given), and the policy can be built from it on every file system. *)
Theorem NewConfig_valid c c' fs : NewConfig c = Ok c' ->
  valid_mode (cfg_Mode c') /\ (cfg_Mode c = "" -> cfg_Mode c' = ModeReadOnly) /\
  Forall rooted_path (cfg_Roots c') /\ NewConfig c' = Ok c' /\ is_ok (NewPolicy fs c').
Proof.
  unfold NewConfig. destruct (cfg_Roots c) as [|r0 roots] eqn:Er; [done|]. cbn [reject_if rbind].
  destruct (clean_roots (r0 :: roots)) as [rs|] eqn:Ec; cbn [rbind]; [|done].
  destruct (NormalizeMode (cfg_Mode c)) as [m|] eqn:Em; cbn [rbind]; [|done].
  destruct (NormalizeMode_valid _ _ Em) as [Hm Hdef].
  destruct (clean_roots_spec _ _ Ec) as (Hlen & Hroot & Hidem).
  set (b := ToLower (TrimSpace (cfg_SandboxBackend c))).
  intros H. destruct ((b =? "") || (b =? "none")) eqn:Eb; cbn [rbind] in H.
  2: destruct (existsb (fun k => b =? k) KnownSandboxBackends) eqn:Ek; cbn [rbind] in H; [|done].
  all: injection H as <-; cbn [cfg_Mode cfg_Roots cfg_SandboxBackend cfg_AllowedCommands cfg_TestCommand cfg_AuditPath].
  all: split_and!; try done.
  2,4: unfold NewPolicy, NewJail; cbn [cfg_Roots cfg_Mode]; pose proof (new_roots_total fs rs Hroot) as Ht;
    destruct rs as [|r1 rs]; [done|]; destruct (new_roots fs (r1 :: rs)); [|done]; cbn [rbind];
    by rewrite NormalizeMode_id.
  all: destruct rs as [|r1 rs]; [done|]; cbn [reject_if rbind]; rewrite Hidem; cbn [rbind];
    rewrite NormalizeMode_id by done; cbn [rbind].
  - reflexivity.
  - cbn [existsb KnownSandboxBackends] in Ek. rewrite !orb_true_iff, !bool_decide_eq_true in Ek.
    destruct Ek as [-> |[-> |[-> |[-> |?]]]]; [vm_compute; reflexivity..|done].
Qed.

Definition demo_config : Config :=
  {| cfg_Roots := ["/work/./"]; cfg_Mode := ""; cfg_AllowedCommands := ["git"]; cfg_TestCommand := [];
     cfg_AuditPath := ""; cfg_SandboxBackend := " Docker " |}.
Definition demo_config' : Config :=
  {| cfg_Roots := ["/work"]; cfg_Mode := "read-only"; cfg_AllowedCommands := ["git"]; cfg_TestCommand := [];
     cfg_AuditPath := ""; cfg_SandboxBackend := "docker" |}.

Lemma NewConfig_valid_witness :
  valid_mode (cfg_Mode demo_config') /\ (cfg_Mode demo_config = "" -> cfg_Mode demo_config' = ModeReadOnly) /\
  Forall rooted_path (cfg_Roots demo_config') /\ NewConfig demo_config' = Ok demo_config' /\
  is_ok (NewPolicy demo_fs demo_config').
Proof. apply (NewConfig_valid demo_config demo_config' demo_fs). vm_compute. reflexivity. Defined.

(** ** Modes *)
Lemma NewPolicy_inv fs cfg p g : NewPolicy fs cfg = Ok (p, g) ->
  valid_mode (pol_mode p) /\ Forall rooted_path (jail_roots (pol_jail p)) /\ g = NewAccessGrants.
Proof.
  unfold NewPolicy. intros H. destruct (NewJail fs (cfg_Roots cfg)) as [j|] eqn:Ej; cbn [rbind] in H; [|done].
  destruct (NormalizeMode (cfg_Mode cfg)) as [m|] eqn:Em; cbn [rbind] in H; [|done]. injection H as <- <-. cbn.
  split_and!; [by eapply NormalizeMode_valid|by apply NewJail_roots in Ej as [? _]|done].
Qed.

(** The posture decides every side effect. In read-only mode writes, commands,
    actions and contained execution are refused; in ask mode they need approval
    and contained execution is refused; only allow mode lets them run. No check
    reports an unknown mode. *)
Theorem mode_posture fs0 cfg p g fs path prog args :
  NewPolicy fs0 cfg = Ok (p, g) ->
  (pol_mode p = ModeReadOnly ->
     is_ok (CheckWrite fs p path) = false /\ is_ok (policy_CheckCommand p prog args) = false /\
     CheckAction p = Err ErrReadOnly /\ CheckContainedExecution p = Err ErrReadOnly) /\
  (forall b, CheckAction p = Ok b \/ policy_CheckCommand p prog args = Ok b \/ (exists r, CheckWrite fs p path = Ok (r, b)) ->
     if b then pol_mode p = ModeAsk else pol_mode p = ModeAllow) /\
  (CheckContainedExecution p = Ok tt <-> pol_mode p = ModeAllow) /\
  CheckAction p <> Err ErrUnknownMode /\ CheckContainedExecution p <> Err ErrUnknownMode.
Proof.
  intros (Hm & _)%NewPolicy_inv.
  unfold CheckWrite, policy_CheckCommand, CheckAction, CheckContainedExecution.
  destruct Hm as [-> |[-> | ->]]; vm_compute (bool_decide _);
    destruct (CheckRead fs p path) as [r|e], (CheckCommand (pol_allowed p) prog args) as [u|e']; cbn [rbind is_ok];
    (split_and!; try done;
     [intros b [Hb|[Hb|[r' Hb]]]; by simplify_eq]).
Qed.

(** ** Reads and writes *)
Lemma CheckRead_ok fs p path r : CheckRead fs p path = Ok r ->
  Resolve fs (pol_jail p) path = Ok r /\ IsSecretPath path = false /\ IsSecretPath r = false.
Proof.
  unfold CheckRead. destruct (IsSecretPath path) eqn:E1; cbn [reject_if rbind]; [done|].
  destruct (Resolve fs (pol_jail p) path) as [q|] eqn:E2; cbn [rbind]; [|done].
  destruct (IsSecretPath q) eqn:E3; cbn [reject_if rbind]; [done|]. by intros [= <-].
Qed.

(** A path authorised for reading or writing is inside a root, element by
    element, and neither the requested nor the resolved path names a secret. *)
Theorem CheckWrite_safe fs0 cfg p g fs path r b :
  NewPolicy fs0 cfg = Ok (p, g) -> CheckRead fs p path = Ok r \/ CheckWrite fs p path = Ok (r, b) ->
  IsSecretPath path = false /\ IsSecretPath r = false /\
  exists root rl l, root ∈ jail_roots (pol_jail p) /\ root = path_of rl /\ r = path_of l /\
    Forall element l /\ rl `prefix_of` l.
Proof.
  intros Hp H. assert (Hr : CheckRead fs p path = Ok r).
  { destruct H as [H|H]; [done|]. unfold CheckWrite in H.
    destruct (CheckRead fs p path) as [q|]; cbn [rbind] in H; [|done]. by repeat case_bool_decide; simplify_eq. }
  apply CheckRead_ok in Hr as (Hres & H1 & H2). split_and!; [done..|].
  destruct (NewPolicy_inv _ _ _ _ Hp) as (_ & Hroots & _).
  unfold Resolve in Hres. case_bool_decide; [done|].
  apply resolve_roots_ok in Hres as (i & root & Hi & -> & Hin & _). apply list_elem_of_lookup_2 in Hi.
  rewrite Forall_forall in Hroots. destruct (Hroots _ Hi) as (rl & -> & Hrl).
  destruct (candidate_rooted (path_of rl) path) as (c & Ec & Hc); [by exists rl|]. rewrite Ec in *.
  destruct (resolveExisting_spec fs c Hc) as (d & s & E & _ & Hd & Hs & _). rewrite E in *.
  assert (Forall element (d ++ s)) by (by apply Forall_app).
  exists (path_of rl), rl, (d ++ s). split_and!; try done. by apply withinRoot_prefix.
Qed.

Definition demo_policy : Policy := {| pol_jail := demo_jail; pol_allowed := ["git"]; pol_mode := ModeAsk |}.
Definition demo_policy_config : Config :=
  {| cfg_Roots := ["/work"]; cfg_Mode := "ask"; cfg_AllowedCommands := ["git"]; cfg_TestCommand := [];
     cfg_AuditPath := ""; cfg_SandboxBackend := "" |}.

Example demo_policy_new : NewPolicy demo_fs demo_policy_config = Ok (demo_policy, NewAccessGrants).
Proof. vm_compute. reflexivity. Qed.

Lemma mode_posture_witness : CheckContainedExecution demo_policy = Ok tt <-> pol_mode demo_policy = ModeAllow.
Proof.
  apply (mode_posture demo_fs demo_policy_config demo_policy NewAccessGrants demo_fs "in/a.go" "git" ["status"]).
  vm_compute. reflexivity.
Defined.

Lemma CheckWrite_safe_witness : IsSecretPath "in/a.go" = false /\ IsSecretPath "/repo/src/a.go" = false /\
  exists root rl l, root ∈ jail_roots (pol_jail demo_policy) /\ root = path_of rl /\ "/repo/src/a.go" = path_of l /\
    Forall element l /\ rl `prefix_of` l.
Proof.
  apply (CheckWrite_safe demo_fs demo_policy_config demo_policy NewAccessGrants demo_fs "in/a.go" _ true).
  - vm_compute. reflexivity.
  - right. vm_compute. reflexivity.
Defined.

(** ** Reads with a grant *)
Lemma Consume_event now id path raw log g b g' : grant_run log g -> Consume now id path raw g = (Ok b, g') ->
  grant_run (Consumed now id path raw b :: log) g'.
Proof. intros Hr E. apply (run_op log g (OpConsume now id path raw) [Consumed now id path raw b]); [done|]. cbn. by rewrite E. Qed.

(** C17 [CheckReadWithAccess] hands out a path only inside the jail, and a secret one
    only against a grant: the human approved that identifier for the path it
    resolves to, the approval has not expired and was not used since, and raw
    access is given exactly when the approval is raw. When the file system does not
    change and the target resolves completely, the approved path is the path
    returned. *)
Theorem CheckReadWithAccess_sound fs0 cfg p g0 fs fs' now newID path id raw log g r b g' :
  NewPolicy fs0 cfg = Ok (p, g0) -> grant_run log g ->
  CheckReadWithAccess fs fs' p now newID path id raw g = (Access r b, g') ->
  Resolve fs (pol_jail p) path = Ok r /\
  ((IsSecretPath path = false /\ IsSecretPath r = false /\ b = false /\ g' = g) \/
   exists l1 t d l2, log = l1 ++ Approved t d :: l2 /\ ad_RequestID d = id /\
     Resolve fs' (pol_jail p) r = Ok (ad_Path d) /\ now <= ad_ExpiresAt d /\ b = ad_Raw d /\
     (raw = true -> b = true) /\ id ∉ consumed_ids l1 /\
     (fs' = fs -> (exists l, r = path_of l /\ Forall element l /\ link_free fs l) -> ad_Path d = r)).
Proof.
  intros Hp Hrun. unfold CheckReadWithAccess. destruct (Resolve fs (pol_jail p) path) as [q|] eqn:Eq; [|done].
  destruct (IsSecretPath path) eqn:E1, (IsSecretPath q) eqn:E2; cbn [negb andb];
    try (intros [= <- <- <-]; split; [done|by left]).
  all: case_bool_decide as Eid; [destruct (RequestReadAccess _ _ _ _ _ _ _) as [[]]; done|].
  all: unfold ConsumeReadGrant; destruct (Resolve fs' (pol_jail p) q) as [q'|] eqn:Eq'; [|done].
  all: destruct (Consume now id q' raw g) as [[b'|e] g1] eqn:Ec; [|done]; intros [= <- <- <-].
  all: split; [done|]; right.
  all: pose proof (gi_log _ _ (grant_run_inv _ _ (Consume_event _ _ _ _ _ _ _ _ Hrun Ec))) as Hj.
  all: inversion Hj as [| | |now' path' asked l1 t d l2 Hl Epath Hexp Hraw Hno]; subst.
  all: exists l1, t, d, l2; split_and!; try done.
  all: intros -> (l & -> & Hl' & Hf).
  all: destruct (NewPolicy_inv _ _ _ _ Hp) as (_ & Hroots & _).
  all: rewrite (Resolve_resolved fs (pol_jail p) l Hroots Hl' Hf) in Eq' by (by rewrite Eq'); congruence.
Qed.

Definition secret_fs : FS := list_to_map
  [(["repo"], NDir); (["repo"; ".env"], NFile); (["repo"; "app"], NDir);
   (["repo"; "app"; ".env"], NLink "settings.txt"); (["repo"; "app"; "settings.txt"], NFile)].

Definition approved_log : list grant_event * AccessGrants :=
  fold_left grant_step [OpRequest 0 (Ok "r1") "/repo/.env" true; OpApprove Second "r1" true 0] ([], NewAccessGrants).

Definition after_access : AccessGrants :=
  (CheckReadWithAccess secret_fs secret_fs demo_policy (2 * Second) (Ok "r2") ".env" "r1" true approved_log.2).2.

Lemma CheckReadWithAccess_sound_witness : Resolve secret_fs demo_jail ".env" = Ok "/repo/.env" /\
  ((IsSecretPath ".env" = false /\ IsSecretPath "/repo/.env" = false /\ true = false /\ after_access = approved_log.2) \/
   exists l1 t d l2, approved_log.1 = l1 ++ Approved t d :: l2 /\ ad_RequestID d = "r1" /\
     Resolve secret_fs demo_jail "/repo/.env" = Ok (ad_Path d) /\ 2 * Second <= ad_ExpiresAt d /\ true = ad_Raw d /\
     (true = true -> true = true) /\ "r1" ∉ consumed_ids l1 /\
     (secret_fs = secret_fs -> (exists l, "/repo/.env" = path_of l /\ Forall element l /\ link_free secret_fs l) ->
      ad_Path d = "/repo/.env")).
Proof.
  apply (CheckReadWithAccess_sound demo_fs demo_policy_config demo_policy NewAccessGrants secret_fs secret_fs
    (2 * Second) (Ok "r2") ".env" "r1" true approved_log.1 approved_log.2 "/repo/.env" true after_access).
  - vm_compute. reflexivity.
  - apply grant_step_run. constructor.
  - unfold after_access. vm_compute. reflexivity.
Defined.

(** A secret name that is a link to a plain file cannot be approved: the request
    is made for the resolved path, which is not secret, so no request is stored
    and the caller is told to have an empty identifier approved. *)
Theorem secret_link_request_lost newID now raw g :
  CheckReadWithAccess secret_fs secret_fs demo_policy now newID "app/.env" "" raw g =
    (AccessRequired {| are_Type := "access-required"; are_RequestID := ""; are_Path := ""; are_Reason := "";
                       are_RawRequested := false |}, g).
Proof. reflexivity. Qed.
