(* ===== verification/WorkqueueTypes.v ===== *)
(** * Work queue data model: [internal/workqueue/types.go]

    Job states and reasons, the legal state transitions, configuration, job
    specifications and results, with their validators. *)

From S2P Require Import Prelude GoStrings GoRegexp PolicyScan.

(** ** States and reasons

    Go's [State] and [Reason] are strings; the last constructor stands for
    every string that is not one of the constants (the zero value [""] too). *)
Inductive State :=
| StateBlocked | StateQueued | StateLeased | StateSucceeded | StateFailed | StateCancelled
| StateOther (s : string).

Inductive Reason :=
| ReasonNone | ReasonDependencyPending | ReasonDependencyFailed | ReasonLeaseExpired
| ReasonRecoveryExhausted | ReasonTaskGoalUnavailable | ReasonCancelled | ReasonCancelRequested
| ReasonOther (s : string).

#[export] Instance State_eq_dec : EqDecision State.
Proof. solve_decision. Defined.
#[export] Instance Reason_eq_dec : EqDecision Reason.
Proof. solve_decision. Defined.

(** The zero value of [State]. *)
Definition StateEmpty : State := StateOther "".

Definition DefaultMaxJobs : Z := 1024.
Definition DefaultMaxJobsPerWorkspace : Z := 64.
Definition MaxDependencies : Z := 16.
Definition MaxListResults : Z := 100.
Definition MaxLeaseAttempts : Z := 4.
Definition MinLeaseTTL : duration := 15 * Second.
Definition MaxLeaseTTL : duration := 10 * Minute.

Definition ErrNoJobAvailable : error := "workqueue: no job available".

Definition TaskGoalUnavailableSummary : string := "task goal reference unavailable after restart; worker was not started".

Record Config := {
  cfg_Root : string;
  cfg_ControllerID : string;
  cfg_Writers : Z;
  cfg_MaxJobs : Z;
  cfg_MaxJobsPerWorkspace : Z;
}.

Record Spec := {
  spec_IdempotencyKey : string;
  spec_Workspace : string;
  spec_Pool : string;
  spec_Profile : string;
  spec_PayloadHash : string;
  spec_Dependencies : list string;
}.

Record Job := {
  j_ID : string;
  j_IdempotencyKey : string;
  j_Workspace : string;
  j_Pool : string;
  j_Profile : string;
  j_PayloadHash : string;
  j_State : State;
  j_Reason : Reason;
  j_CreatedAt : time;
  j_UpdatedAt : time;
  j_CancelRequested : bool;
  j_Attempt : Z;
  j_Fence : Z;
  j_LeaseID : string;
  j_LeaseHolder : string;
  j_LeaseExpiresAt : time;
  j_Outcome : State;
  j_Summary : string;
  j_ResultRef : string;
}.

Record Lease := {
  l_Job : Job;
  l_ID : string;
  l_Fence : Z;
  l_Attempt : Z;
  l_ExpiresAt : time;
}.

Record HeartbeatStatus := { hb_ExpiresAt : time; hb_CancelRequested : bool }.

Record Result := { res_Outcome : State; res_Summary : string; res_ResultRef : string }.

(** ** Identifier patterns *)
Definition name64 : regexp :=
  whole (Seq (Class (lower ⊎ digit)) (upto 63 (Class (lower ⊎ digit ⊎ one_of "._-")))).
Definition controllerPattern : regexp := name64.
Definition workspacePattern : regexp := name64.
Definition poolPattern : regexp := name64.
Definition profilePattern : regexp := name64.
Definition key_tail := alnum ⊎ one_of "._:-".
Definition idempotencyPattern : regexp := whole (Seq (Class alnum) (between 7 127 (Class key_tail))).
Definition jobIDPattern : regexp := whole (Seq (lit "wj_") (times 32 (Class hexlow))).
Definition leaseIDPattern : regexp := whole (Seq (lit "wl_") (times 32 (Class hexlow))).
Definition resultRefPattern : regexp := whole (Seq (lit "rs_") (between 32 64 (Class hexlow))).
Definition payloadHashPattern : regexp := whole (Seq (lit "sha256:") (times 64 (Class hexlow))).
Definition holderPattern : regexp := whole (Seq (Class alnum) (between 7 95 (Class key_tail))).

(** ** State machine *)
Definition terminal (state : State) : bool :=
  match state with
  | StateSucceeded | StateFailed | StateCancelled => true
  | _ => false
  end.

Definition legalTransition (from to : State) : bool :=
  match from with
  | StateBlocked => (to =? StateQueued) || (to =? StateFailed) || (to =? StateCancelled)
  | StateQueued => (to =? StateLeased) || (to =? StateCancelled)
  | StateLeased =>
      (to =? StateQueued) || (to =? StateSucceeded) || (to =? StateFailed) || (to =? StateCancelled)
  | _ => false
  end.

(** ** Validators *)
Definition validateConfig (config : Config) : result Config :=
  let writers := if cfg_Writers config =? 0 then 1 else cfg_Writers config in
  let maxJobs := if cfg_MaxJobs config =? 0 then DefaultMaxJobs else cfg_MaxJobs config in
  let perWorkspace :=
    if cfg_MaxJobsPerWorkspace config =? 0 then DefaultMaxJobsPerWorkspace
    else cfg_MaxJobsPerWorkspace config in
  if negb (MatchString controllerPattern (cfg_ControllerID config))
     || (writers <>? 1) || (maxJobs <? 1) || (4096 <? maxJobs)
     || (perWorkspace <? 1) || (maxJobs <? perWorkspace)
  then Err "workqueue: configuration is invalid"
  else Ok {| cfg_Root := cfg_Root config; cfg_ControllerID := cfg_ControllerID config;
             cfg_Writers := writers; cfg_MaxJobs := maxJobs;
             cfg_MaxJobsPerWorkspace := perWorkspace |}.

(** The loop over the dependencies with its [seen] set. *)
Fixpoint validateDependencies (seen : gset string) (deps : list string) : result unit :=
  match deps with
  | [] => Ok tt
  | d :: ds =>
      if negb (MatchString jobIDPattern d) then Err "workqueue: dependency is invalid"
      else if bool_decide (d ∈ seen) then Err "workqueue: duplicate dependency"
      else validateDependencies ({[d]} ∪ seen) ds
  end.

Definition validateSpec (spec : Spec) : result unit :=
  if negb (MatchString idempotencyPattern (spec_IdempotencyKey spec))
     || negb (MatchString workspacePattern (spec_Workspace spec))
     || negb (MatchString poolPattern (spec_Pool spec))
     || negb (MatchString profilePattern (spec_Profile spec))
     || negb (MatchString payloadHashPattern (spec_PayloadHash spec))
     || (MaxDependencies <? Z.of_nat (length (spec_Dependencies spec)))
  then Err "workqueue: job specification is invalid"
  else validateDependencies ∅ (spec_Dependencies spec).

Definition canonicalSpec (spec : Spec) : Spec :=
  match spec_Dependencies spec with
  | [] => spec
  | deps => {| spec_IdempotencyKey := spec_IdempotencyKey spec; spec_Workspace := spec_Workspace spec;
               spec_Pool := spec_Pool spec; spec_Profile := spec_Profile spec;
               spec_PayloadHash := spec_PayloadHash spec; spec_Dependencies := sort_strings deps |}
  end.

Definition validateResult `{Redactor} (r : Result) : result unit :=
  if (res_Outcome r <>? StateSucceeded) && (res_Outcome r <>? StateFailed)
     && (res_Outcome r <>? StateCancelled)
  then Err "workqueue: result outcome is invalid"
  else if (Len (res_Summary r) <? 1) || (2048 <? Len (res_Summary r))
          || ((res_ResultRef r <>? "") && negb (MatchString resultRefPattern (res_ResultRef r)))
  then Err "workqueue: result is invalid"
  else let '(redacted, changed) := redact (res_Summary r) in
       if changed || (redacted <>? res_Summary r)
       then Err "workqueue: result contains secret material"
       else Ok tt.

(** ** Facts *)
Lemma terminal_spec s :
  terminal s = true <-> s = StateSucceeded \/ s = StateFailed \/ s = StateCancelled.
Proof. destruct s; simpl; naive_solver. Qed.

Lemma terminal_no_legal s t : terminal s = true -> legalTransition s t = false.
Proof. destruct s; done. Qed.

Lemma validateResult_terminal `{Redactor} r :
  validateResult r = Ok tt -> terminal (res_Outcome r) = true.
Proof.
  unfold validateResult. intros H0. repeat case_match; try done.
  apply terminal_spec. destruct (res_Outcome r); auto; done.
Qed.

Lemma validateDependencies_ok seen deps :
  validateDependencies seen deps = Ok tt ->
  NoDup deps /\ (forall d, d ∈ deps -> d ∉ seen /\ MatchString jobIDPattern d = true).
Proof.
  revert seen. induction deps as [|d ds IH]; intros seen H; cbn [validateDependencies] in H.
  { split; [constructor|]. intros d Hd. by apply elem_of_nil in Hd. }
  res_inv H. breflect. apply IH in H as [Hnd Hall]. split.
  - constructor; [|done]. intros Hd. apply Hall in Hd. set_solver.
  - intros e He. apply elem_of_cons in He as [->|He]; [done|]. apply Hall in He. set_solver.
Qed.

Lemma validateSpec_deps spec :
  validateSpec spec = Ok tt ->
  NoDup (spec_Dependencies spec) /\
  Z.of_nat (length (spec_Dependencies spec)) <= MaxDependencies.
Proof.
  unfold validateSpec. intros H. res_inv H. breflect.
  apply validateDependencies_ok in H as [? _]. done.
Qed.
