(* ===== verification/Admission.v ===== *)
(** * Resource admission: [internal/workqueue/admission.go]

    Five-dimensional resource vectors of [int64], the pool registry and its
    admission decision. *)

From Stdlib Require Import QArith Qround.
From S2P Require Import Prelude GoStrings GoRegexp PolicyScan WorkqueueTypes.
#[local] Close Scope Q_scope.

Definition maxResourceValue : Z := 1000000000.

Record ResourceVector := RV { CPUMillis : Z; MemoryMiB : Z; IOWeight : Z; PIDs : Z; Slots : Z }.
#[export] Instance ResourceVector_eq_dec : EqDecision ResourceVector.
Proof. solve_decision. Defined.

Definition rv_zero : ResourceVector := RV 0 0 0 0 0.
Definition rv_list (v : ResourceVector) : list Z := [CPUMillis v; MemoryMiB v; IOWeight v; PIDs v; Slots v].

Record PoolProfile := {
  pp_Pool : string;
  pp_Profile : string;
  pp_Budget : ResourceVector;
  pp_Maximum : ResourceVector;
}.

Inductive AdmissionReason :=
| AdmissionNone   (** the zero value *)
| AdmissionAllowed | AdmissionInsufficientResources | AdmissionProfileMaximumExceeded.

Record AdmissionDecision := {
  ad_Allowed : bool;
  ad_Reason : AdmissionReason;
  ad_Remaining : ResourceVector;
}.

(** [map[string]PoolProfile] *)
Definition PoolRegistry := gmap string PoolProfile.

(** ** Vectors *)
Definition validateResourceVector (v : ResourceVector) (requirePositive : bool) : result unit :=
  if existsb (fun value => (value <? 0) || (maxResourceValue <? value)) (rv_list v)
  then Err "workqueue: resource vector is invalid"
  else if requirePositive && ((CPUMillis v =? 0) || (MemoryMiB v =? 0) || (IOWeight v =? 0)
                              || (PIDs v =? 0) || (Slots v =? 0))
  then Err "workqueue: resource vector is incomplete"
  else Ok tt.

Definition fits (v limit : ResourceVector) : bool :=
  (CPUMillis v <=? CPUMillis limit) && (MemoryMiB v <=? MemoryMiB limit)
  && (IOWeight v <=? IOWeight limit) && (PIDs v <=? PIDs limit) && (Slots v <=? Slots limit).

(** [add]: 64-bit sums that wrap around, and the overflow test on them. *)
Definition add (v other : ResourceVector) : ResourceVector * bool :=
  let r := RV (wrap64 (CPUMillis v + CPUMillis other)) (wrap64 (MemoryMiB v + MemoryMiB other))
              (wrap64 (IOWeight v + IOWeight other)) (wrap64 (PIDs v + PIDs other))
              (wrap64 (Slots v + Slots other)) in
  if (CPUMillis r <? CPUMillis v) || (MemoryMiB r <? MemoryMiB v) || (IOWeight r <? IOWeight v)
     || (PIDs r <? PIDs v) || (Slots r <? Slots v) || negb (is_ok (validateResourceVector r false))
  then (rv_zero, false) else (r, true).

Definition subtract (v other : ResourceVector) : ResourceVector :=
  RV (wrap64 (CPUMillis v - CPUMillis other)) (wrap64 (MemoryMiB v - MemoryMiB other))
     (wrap64 (IOWeight v - IOWeight other)) (wrap64 (PIDs v - PIDs other))
     (wrap64 (Slots v - Slots other)).

(** ** Parsing

    A [float64] argument: not a number, an infinity, or a finite value (a
    rational).  A Go map has no order; the list is the order of the range loop. *)
Inductive float64 := NaN | Inf (negative : bool) | Fin (q : Q).

Definition parse_value (raw : float64) : option Z :=
  match raw with
  | Fin q =>
      if negb (Qle_bool 0 q) || negb (Qle_bool q (inject_Z maxResourceValue))
         || negb (Qeq_bool (inject_Z (Qfloor q)) q)
      then None else Some (Qfloor q)
  | _ => None
  end.

Definition set_dimension (v : ResourceVector) (name : string) (value : Z) : result ResourceVector :=
  if name =? "cpu_millis" then Ok (RV value (MemoryMiB v) (IOWeight v) (PIDs v) (Slots v))
  else if name =? "memory_mib" then Ok (RV (CPUMillis v) value (IOWeight v) (PIDs v) (Slots v))
  else if name =? "io_weight" then Ok (RV (CPUMillis v) (MemoryMiB v) value (PIDs v) (Slots v))
  else if name =? "pids" then Ok (RV (CPUMillis v) (MemoryMiB v) (IOWeight v) value (Slots v))
  else if name =? "slots" then Ok (RV (CPUMillis v) (MemoryMiB v) (IOWeight v) (PIDs v) value)
  else Err "workqueue: resource dimension is unknown".

Fixpoint parse_loop (v : ResourceVector) (input : list (string * float64)) : result ResourceVector :=
  match input with
  | [] => Ok v
  | (name, raw) :: rest =>
      match parse_value raw with
      | None => Err "workqueue: resource value is invalid"
      | Some value => let? v' := set_dimension v name value in parse_loop v' rest
      end
  end.

Definition ParseResourceVector (input : list (string * float64)) : result ResourceVector :=
  let? v := parse_loop rv_zero input in
  check validateResourceVector v false in Ok v.

(** ** Registry *)
Definition registry_key (pool profile : string) : string := pool +:+ String (chr 0) profile.

Fixpoint register_profiles (reg : gmap string PoolProfile) (profiles : list PoolProfile)
    : result (gmap string PoolProfile) :=
  match profiles with
  | [] => Ok reg
  | item :: rest =>
      if negb (MatchString poolPattern (pp_Pool item)) || negb (MatchString profilePattern (pp_Profile item))
         || negb (is_ok (validateResourceVector (pp_Budget item) true))
         || negb (is_ok (validateResourceVector (pp_Maximum item) true))
         || negb (fits (pp_Maximum item) (pp_Budget item))
      then Err "workqueue: pool profile is invalid"
      else let key := registry_key (pp_Pool item) (pp_Profile item) in
           match reg !! key with
           | Some _ => Err "workqueue: duplicate pool profile"
           | None => register_profiles (<[key := item]> reg) rest
           end
  end.

Definition NewPoolRegistry (profiles : list PoolProfile) : result (gmap string PoolProfile) :=
  if (Z.of_nat (length profiles) =? 0) || (256 <? Z.of_nat (length profiles))
  then Err "workqueue: pool registry is invalid"
  else register_profiles ∅ profiles.

Definition Admit (r : gmap string PoolProfile) (pool profile : string) (active requested : ResourceVector)
    : result AdmissionDecision :=
  if negb (MatchString poolPattern pool) || negb (MatchString profilePattern profile)
     || negb (is_ok (validateResourceVector active false))
     || negb (is_ok (validateResourceVector requested true))
  then Err "workqueue: admission request is invalid"
  else match r !! registry_key pool profile with
  | None => Err "workqueue: pool profile not found"
  | Some item =>
      if negb (fits requested (pp_Maximum item))
      then Ok {| ad_Allowed := false; ad_Reason := AdmissionProfileMaximumExceeded; ad_Remaining := rv_zero |}
      else let '(used, ok) := add active requested in
           if negb ok || negb (fits used (pp_Budget item))
           then Ok {| ad_Allowed := false; ad_Reason := AdmissionInsufficientResources; ad_Remaining := rv_zero |}
           else Ok {| ad_Allowed := true; ad_Reason := AdmissionAllowed;
                      ad_Remaining := subtract (pp_Budget item) used |}
  end.

(** ** Facts *)

(** Componentwise relations and sums, without machine arithmetic. *)
Definition rv_bounded (lo : Z) (v : ResourceVector) : Prop :=
  Forall (fun x => lo <= x <= maxResourceValue) (rv_list v).
Definition rv_le (v w : ResourceVector) : Prop := Forall2 Z.le (rv_list v) (rv_list w).
#[export] Instance rv_le_dec v w : Decision (rv_le v w).
Proof. unfold rv_le. apply _. Defined.
Definition rv_plus (v w : ResourceVector) : ResourceVector :=
  RV (CPUMillis v + CPUMillis w) (MemoryMiB v + MemoryMiB w) (IOWeight v + IOWeight w)
     (PIDs v + PIDs w) (Slots v + Slots w).

Lemma validate_bounded v pos :
  validateResourceVector v pos = Ok tt <-> rv_bounded (if pos then 1 else 0) v.
Proof.
  unfold validateResourceVector, rv_bounded, rv_list, maxResourceValue.
  destruct v as [a b c d e]; cbn. rewrite !Forall_cons, Forall_nil.
  destruct pos; repeat case_match; cbn in *; repeat case_bool_decide; split; intros; try done; lia.
Qed.

Lemma fits_le v w : fits v w = true <-> rv_le v w.
Proof.
  unfold fits, rv_le, rv_list. destruct v, w; cbn.
  rewrite !Forall2_cons, Forall2_nil, !andb_true_iff, !Z.leb_le. tauto.
Qed.

(** On valid operands [add] is the exact sum, and fails exactly when the sum
    leaves the allowed range. *)
Lemma add_exact v w :
  rv_bounded 0 v -> rv_bounded 0 w ->
  add v w = if bool_decide (rv_le (rv_plus v w) (RV maxResourceValue maxResourceValue maxResourceValue
                                                    maxResourceValue maxResourceValue))
            then (rv_plus v w, true) else (rv_zero, false).
Proof.
  intros Hv Hw. unfold rv_bounded, rv_list in Hv, Hw.
  destruct v as [a b c d e], w as [a' b' c' d' e']; cbn in Hv, Hw.
  rewrite !Forall_cons, Forall_nil in Hv, Hw. unfold maxResourceValue in Hv, Hw.
  unfold add, rv_plus. cbn [CPUMillis MemoryMiB IOWeight PIDs Slots].
  rewrite !wrap64_id by (unfold in_int64, two63; lia).
  set (r := RV _ _ _ _ _) at 1.
  do 5 rewrite (proj2 (Z.ltb_ge _ _)) by lia. cbn [orb].
  assert (Hr : rv_bounded 0 r <-> rv_le r (RV maxResourceValue maxResourceValue maxResourceValue
                                              maxResourceValue maxResourceValue)).
  { unfold rv_bounded, rv_le, rv_list, r. cbn.
    rewrite !Forall_cons, Forall_nil, !Forall2_cons, Forall2_nil. unfold maxResourceValue. lia. }
  pose proof (validate_bounded r false) as Hval. cbn in Hval.
  fold r. case_bool_decide as Hd.
  - rewrite (proj2 Hval (proj2 Hr Hd)). done.
  - destruct (validateResourceVector r false) as [[]|]; [|done]. exfalso. tauto.
Qed.

(** Names have no NUL byte, so the registry key determines pool and profile. *)
Lemma name64_no_nul s : MatchString name64 s = true -> ContainsByte s (chr 0) = false.
Proof.
  apply (match_whole_no_byte (fun z => 45 <= z)); [|done|vm_compute; intuition congruence].
  assert (Hc : forall z, (lower ⊎ digit ⊎ one_of "._-") z = true -> 45 <= z).
  { intros z. class_unfold. intuition (lia || done). }
  cbn [classes_in]. split.
  - intros z Hz. apply Hc. unfold cunion in *. by rewrite Hz.
  - generalize 63%nat. intros n. induction n as [|n IH]; cbn; auto.
Qed.

Lemma nul_split (a b c d : string) :
  ContainsByte a (chr 0) = false -> ContainsByte c (chr 0) = false ->
  registry_key a b = registry_key c d -> a = c /\ b = d.
Proof.
  unfold registry_key. revert c. induction a as [|x a IH]; intros [|y c] Ha Hc E;
    rewrite ?string_app_cons in E.
  - by injection E as ->.
  - injection E as <- E. done.
  - injection E as -> E. done.
  - cbn [ContainsByte] in Ha, Hc. injection E as -> E.
    apply orb_false_iff in Ha as [_ Ha], Hc as [_ Hc].
    destruct (IH c Ha Hc E) as [-> ->]. done.
Qed.

Lemma registry_key_inj p q p' q' :
  MatchString poolPattern p = true -> MatchString poolPattern p' = true ->
  registry_key p q = registry_key p' q' -> p = p' /\ q = q'.
Proof. intros. apply nul_split; [by apply name64_no_nul..|done]. Qed.

Definition valid_profile (item : PoolProfile) : Prop :=
  MatchString poolPattern (pp_Pool item) = true /\ MatchString profilePattern (pp_Profile item) = true /\
  rv_bounded 1 (pp_Budget item) /\ rv_bounded 1 (pp_Maximum item) /\
  rv_le (pp_Maximum item) (pp_Budget item).

Definition item_key (item : PoolProfile) : string := registry_key (pp_Pool item) (pp_Profile item).

Lemma is_ok_unit (r : result unit) : is_ok r = true <-> r = Ok tt.
Proof. destruct r as [[]|]; split; done. Qed.

Lemma register_profiles_spec reg profiles reg' :
  register_profiles reg profiles = Ok reg' ->
  Forall valid_profile profiles /\
  (forall k item, reg' !! k = Some item <->
     reg !! k = Some item \/ (item ∈ profiles /\ k = item_key item)).
Proof.
  revert reg. induction profiles as [|it rest IH]; intros reg H; cbn [register_profiles] in H.
  { injection H as ->. split; [constructor|]. intros k item.
    rewrite elem_of_nil. tauto. }
  res_inv H. breflect.
  repeat match goal with H : is_ok _ = true |- _ => apply is_ok_unit, validate_bounded in H end.
  match goal with H : fits _ _ = true |- _ => apply fits_le in H end.
  apply IH in H as [Hall Hlk]. split; [constructor; [repeat split; done|done]|].
  intros k item. rewrite Hlk, elem_of_cons. fold (item_key it) in *.
  destruct (decide (k = item_key it)) as [->|Hne].
  - rewrite lookup_insert_eq. split; [naive_solver|]. intros [?|[[<-|Hin] E]]; [congruence|auto|].
    right. done.
  - rewrite lookup_insert_ne by done. naive_solver.
Qed.

Lemma NewPoolRegistry_lookup profiles reg pool profile :
  NewPoolRegistry profiles = Ok reg -> MatchString poolPattern pool = true ->
  Forall valid_profile profiles /\
  (forall item, reg !! registry_key pool profile = Some item <->
     item ∈ profiles /\ pp_Pool item = pool /\ pp_Profile item = profile).
Proof.
  unfold NewPoolRegistry. intros H Hp. res_inv H.
  apply register_profiles_spec in H as [Hall Hlk]. split; [done|]. intros item. rewrite Hlk.
  rewrite lookup_empty. split; [|naive_solver].
  intros [?|[Hin E]]; [done|]. split; [done|]. rewrite Forall_forall in Hall.
  destruct (Hall _ Hin) as (Hpool & _). apply registry_key_inj in E as [-> ->]; done.
Qed.

Lemma rv_le_bounded v w : rv_bounded 0 v -> rv_le w v ->
  rv_le w (RV maxResourceValue maxResourceValue maxResourceValue maxResourceValue maxResourceValue).
Proof.
  unfold rv_bounded, rv_le, rv_list. destruct v, w; cbn.
  rewrite !Forall_cons, !Forall2_cons, Forall_nil, Forall2_nil. lia.
Qed.

Lemma rv_bounded_weaken v : rv_bounded 1 v -> rv_bounded 0 v.
Proof. unfold rv_bounded. intros H. eapply Forall_impl; [exact H|]. simpl. lia. Qed.

Lemma subtract_exact budget used :
  rv_bounded 0 budget -> rv_bounded 0 used -> rv_le used budget ->
  rv_plus used (subtract budget used) = budget /\ rv_bounded 0 (subtract budget used).
Proof.
  unfold rv_bounded, rv_le, rv_list, rv_plus, subtract. destruct budget, used; cbn.
  rewrite !Forall_cons, !Forall2_cons, Forall_nil, Forall2_nil. unfold maxResourceValue.
  intros. rewrite !wrap64_id by (unfold in_int64, two63; lia).
  split; [f_equal; lia|]. lia.
Qed.

Lemma rv_plus_bounded v w : rv_bounded 0 v -> rv_bounded 0 w ->
  rv_le (rv_plus v w) (RV maxResourceValue maxResourceValue maxResourceValue maxResourceValue maxResourceValue) ->
  rv_bounded 0 (rv_plus v w).
Proof.
  unfold rv_bounded, rv_le, rv_list, rv_plus. destruct v, w; cbn.
  rewrite !Forall_cons, !Forall2_cons, !Forall_nil, Forall2_nil. lia.
Qed.

(** C1. Admission is exact: for a registered profile and a valid request,
    [Admit] answers, it allows the request exactly when the request is within
    the profile's maximum and active plus requested is within its budget (as
    integers, in every dimension), and then the remaining vector it reports,
    added to what is in use, gives back the budget, with no overflow and no
    negative dimension. *)
Theorem Admit_exact profiles reg item active requested :
  NewPoolRegistry profiles = Ok reg -> item ∈ profiles ->
  rv_bounded 0 active -> rv_bounded 1 requested ->
  exists d, Admit reg (pp_Pool item) (pp_Profile item) active requested = Ok d /\
    (ad_Allowed d = true <->
       rv_le requested (pp_Maximum item) /\ rv_le (rv_plus active requested) (pp_Budget item)) /\
    (ad_Allowed d = true ->
       rv_plus (rv_plus active requested) (ad_Remaining d) = pp_Budget item /\
       rv_bounded 0 (ad_Remaining d)).
Proof.
  intros Hreg Hin Ha Hr.
  assert (Hval : valid_profile item).
  { unfold NewPoolRegistry in Hreg. res_inv Hreg.
    apply register_profiles_spec in Hreg as [Hall _]. rewrite Forall_forall in Hall. auto. }
  destruct Hval as (Hpool & Hprof & Hb & Hm & Hmb).
  destruct (NewPoolRegistry_lookup _ _ _ (pp_Profile item) Hreg Hpool) as [_ Hlk].
  unfold Admit. rewrite Hpool, Hprof.
  rewrite (proj2 (validate_bounded active false) Ha), (proj2 (validate_bounded requested true) Hr).
  rewrite (proj2 (Hlk item)) by done. cbn [negb is_ok orb].
  destruct (fits requested (pp_Maximum item)) eqn:Ef; cbn [negb].
  2: { eexists. split; [done|]. cbn. rewrite <- fits_le, Ef. split; [|done].
       split; [done|]. by intros [? _]. }
  apply fits_le in Ef. apply rv_bounded_weaken in Hb, Hr. rewrite add_exact by done.
  case_bool_decide as Hs; cbn [negb orb].
  - destruct (fits (rv_plus active requested) (pp_Budget item)) eqn:Eb; cbn [negb];
      eexists; (split; [done|]); cbn; rewrite <- !fits_le, Eb.
    + split; [split; [intros _; split; [by apply fits_le|done]|done]|]. intros _.
      apply subtract_exact; [done|by apply rv_plus_bounded|by apply fits_le].
    + split; [|done]. split; [done|]. by intros [_ ?].
  - eexists. split; [done|]. cbn. split; [|done]. split; [done|]. intros [_ Hle].
    exfalso. apply Hs. by eapply rv_le_bounded.
Qed.

Definition ex_profile : PoolProfile :=
  {| pp_Pool := "build"; pp_Profile := "linux-small";
     pp_Budget := RV 4000 8192 100 512 4; pp_Maximum := RV 2000 4096 50 256 1 |}.

Lemma Admit_exact_witness :
  exists d, Admit {[ registry_key "build" "linux-small" := ex_profile ]} "build" "linux-small"
              (RV 2000 4096 50 256 3) (RV 1000 1024 10 64 1) = Ok d /\ ad_Allowed d = true /\
            ad_Remaining d = RV 1000 3072 40 192 0.
Proof.
  destruct (Admit_exact [ex_profile] {[ registry_key "build" "linux-small" := ex_profile ]} ex_profile
    (RV 2000 4096 50 256 3) (RV 1000 1024 10 64 1)) as (d & Hd & Hiff & Hrem).
  - vm_compute. reflexivity.
  - left.
  - apply (validate_bounded _ false). reflexivity.
  - apply (validate_bounded _ true). reflexivity.
  - exists d. split; [exact Hd|].
    assert (Hal : ad_Allowed d = true).
    { apply Hiff. split; apply fits_le; reflexivity. }
    split; [exact Hal|]. revert Hd. vm_compute. intros Hd. injection Hd as <-. reflexivity.
Defined.
