(* ===== verification/Fairness.v ===== *)
(** * Fair selection: [internal/workqueue/fairness.go]

    Deficit round robin over workspaces with an aging override. *)

From S2P Require Import Prelude GoStrings GoRegexp PolicyScan WorkqueueTypes Admission.

Record FairConfig := { fc_Quantum : Z; fc_AgingLimit : duration }.

Record FairCandidate := {
  fc_JobID : string;
  fc_Workspace : string;
  fc_Cost : Z;
  fc_CreatedAt : time;
}.

Record FairScheduler := {
  fs_config : FairConfig;
  fs_deficits : gmap string Z;
  fs_cursor : string;
}.

Definition NewFairScheduler (config : FairConfig) : result FairScheduler :=
  if (fc_Quantum config <? 1) || (maxResourceValue <? fc_Quantum config)
     || (fc_AgingLimit config <? Second) || (24 * Hour <? fc_AgingLimit config)
  then Err "workqueue: fair scheduler configuration is invalid"
  else Ok {| fs_config := config; fs_deficits := ∅; fs_cursor := "" |}.

Definition candidate_invalid (now : time) (c : FairCandidate) : bool :=
  negb (MatchString jobIDPattern (fc_JobID c)) || negb (MatchString workspacePattern (fc_Workspace c))
  || (fc_Cost c <? 1) || (maxResourceValue <? fc_Cost c) || IsZero (fc_CreatedAt c)
  || After (fc_CreatedAt c) now.

(** ** The per-workspace queues *)
Fixpoint build_queues (now : time) (seen : gset string) (queues : gmap string (list FairCandidate))
    (workspaces : list string) (candidates : list FairCandidate)
    : result (gmap string (list FairCandidate) * list string) :=
  match candidates with
  | [] => Ok (queues, workspaces)
  | c :: cs =>
      if candidate_invalid now c then Err "workqueue: fair candidate is invalid"
      else if bool_decide (fc_JobID c ∈ seen) then Err "workqueue: duplicate fair candidate"
      else
        let w := fc_Workspace c in
        let workspaces' := match queues !! w with None => workspaces ++ [w] | Some _ => workspaces end in
        build_queues now ({[fc_JobID c]} ∪ seen) (<[w := default [] (queues !! w) ++ [c]]> queues)
                     workspaces' cs
  end.

(** The order of [sort.Slice]: creation time, then job id. *)
Definition cand_le (a b : FairCandidate) : Prop :=
  fc_CreatedAt a < fc_CreatedAt b \/
  (fc_CreatedAt a = fc_CreatedAt b /\ str_le (fc_JobID a) (fc_JobID b)).
#[export] Instance cand_le_dec a b : Decision (cand_le a b).
Proof. unfold cand_le. apply _. Defined.

Definition sort_queue (q : list FairCandidate) : list FairCandidate := merge_sort cand_le q.

(** [queues[workspace][0]] *)
Definition queue_head (queues : gmap string (list FairCandidate)) (w : string) : option FairCandidate :=
  match queues !! w with Some (c :: _) => Some c | _ => None end.

(** ** Aging *)
Definition aged_step (now : time) (limit : duration) (aged : option FairCandidate) (c : FairCandidate)
    : option FairCandidate :=
  if TimeSub now (fc_CreatedAt c) <? limit then aged
  else match aged with
       | None => Some c
       | Some a =>
           if Before (fc_CreatedAt c) (fc_CreatedAt a)
              || ((fc_CreatedAt c =? fc_CreatedAt a) && str_lt (fc_JobID c) (fc_JobID a))
           then Some c else aged
       end.

Definition oldest_aged (now : time) (limit : duration) (heads : list FairCandidate) : option FairCandidate :=
  fold_left (aged_step now limit) heads None.

(** ** Deficit round robin *)
Definition start_index (cursor : string) (workspaces : list string) : nat :=
  if cursor =? "" then 0%nat
  else let index := SearchStrings workspaces cursor in
       match workspaces !! index with
       | Some w => if w =? cursor then ((index + 1) mod length workspaces)%nat else 0%nat
       | None => 0%nat
       end.

(** The workspaces in the order of the offsets [0 .. n-1] from [start]. *)
Definition rotate_from (start : nat) (workspaces : list string) : list string :=
  omap (fun off => workspaces !! ((start + off) mod length workspaces)%nat) (seq 0 (length workspaces)).

Definition refill (quantum deficit : Z) : Z :=
  if maxResourceValue - quantum <? deficit then maxResourceValue else deficit + quantum.

(** One pass over the workspaces. *)
Fixpoint drr_pass (quantum : Z) (queues : gmap string (list FairCandidate)) (deficits : gmap string Z)
    (order : list string) : gmap string Z * option (string * FairCandidate) :=
  match order with
  | [] => (deficits, None)
  | w :: ws =>
      let deficit := refill quantum (default 0 (deficits !! w)) in
      let deficits := <[w := deficit]> deficits in
      match queue_head queues w with
      | Some c =>
          if fc_Cost c <=? deficit then (<[w := deficit - fc_Cost c]> deficits, Some (w, c))
          else drr_pass quantum queues deficits ws
      | None => drr_pass quantum queues deficits ws
      end
  end.

Fixpoint drr_rounds (rounds : nat) (quantum : Z) (queues : gmap string (list FairCandidate))
    (deficits : gmap string Z) (order : list string) : gmap string Z * option (string * FairCandidate) :=
  match rounds with
  | O => (deficits, None)
  | S n =>
      match drr_pass quantum queues deficits order with
      | (d, Some r) => (d, Some r)
      | (d, None) => drr_rounds n quantum queues d order
      end
  end.

(** ** [Select]: the result and the scheduler after the call *)
Definition Select (s : FairScheduler) (now : time) (candidates : list FairCandidate)
    : result FairCandidate * FairScheduler :=
  if IsZero now || (Z.of_nat (length candidates) =? 0) || (4096 <? Z.of_nat (length candidates))
  then (Err "workqueue: fair selection is invalid", s)
  else match build_queues now ∅ ∅ [] candidates with
  | Err e => (Err e, s)
  | Ok (built, seen_workspaces) =>
      let deficits := filter (fun e => is_Some (built !! e.1)) (fs_deficits s) in
      let queues := sort_queue <$> built in
      let workspaces := sort_strings seen_workspaces in
      match oldest_aged now (fc_AgingLimit (fs_config s)) (omap (queue_head queues) workspaces) with
      | Some aged =>
          (Ok aged, {| fs_config := fs_config s; fs_deficits := deficits; fs_cursor := fc_Workspace aged |})
      | None =>
          let order := rotate_from (start_index (fs_cursor s) workspaces) workspaces in
          match drr_rounds (length workspaces + 1) (fc_Quantum (fs_config s)) queues deficits order with
          | (d, Some (w, c)) =>
              (Ok c, {| fs_config := fs_config s; fs_deficits := d; fs_cursor := w |})
          | (d, None) =>
              (Err "workqueue: no fair candidate fits current deficit",
               {| fs_config := fs_config s; fs_deficits := d; fs_cursor := fs_cursor s |})
          end
      end
  end.

(** ** Facts *)
#[export] Instance cand_le_preorder : PreOrder cand_le.
Proof.
  split.
  - intros a. by right.
  - intros a b c. unfold cand_le. intros [?|[-> H1]] [?|[E H2]]; [left; lia|left; lia|by left|].
    right. split; [done|]. by etrans.
Qed.
#[export] Instance cand_le_total : Total cand_le.
Proof.
  intros a b. unfold cand_le. destruct (Z.lt_total (fc_CreatedAt a) (fc_CreatedAt b)) as [?|[E|?]]; auto.
  rewrite E. destruct (total str_le (fc_JobID a) (fc_JobID b)); auto.
Qed.

(** A well-formed set of candidates at time [now]. *)
Definition valid_candidates (now : time) (cs : list FairCandidate) : Prop :=
  IsZero now = false /\ cs <> [] /\ Z.of_nat (length cs) <= 4096 /\
  Forall (fun c => candidate_invalid now c = false) cs /\ NoDup (fc_JobID <$> cs).

Definition of_workspace (w : string) (cs : list FairCandidate) : list FairCandidate :=
  filter (fun c => fc_Workspace c = w) cs.

Record queues_inv (q : gmap string (list FairCandidate)) (ws : list string) : Prop := {
  qi_nodup : NoDup ws;
  qi_dom : forall w, w ∈ ws <-> is_Some (q !! w);
  qi_nonempty : forall w l, q !! w = Some l -> l <> [];
}.

Lemma build_queues_spec now seen q ws cs q' ws' :
  build_queues now seen q ws cs = Ok (q', ws') -> queues_inv q ws ->
  queues_inv q' ws' /\
  (forall w, default [] (q' !! w) = default [] (q !! w) ++ of_workspace w cs).
Proof.
  revert seen q ws. induction cs as [|c cs IH]; intros seen q ws H Hinv; cbn [build_queues] in H.
  { injection H as <- <-. split; [done|]. intros w. unfold of_workspace.
    by rewrite filter_nil, app_nil_r. }
  res_inv H. apply IH in H as [Hinv' Hq].
  - split; [done|]. intros w. rewrite Hq. unfold of_workspace. rewrite filter_cons.
    destruct (decide (fc_Workspace c = w)) as [<-|Hne].
    + rewrite lookup_insert_eq. simpl. by rewrite <- app_assoc.
    + by rewrite lookup_insert_ne.
  - destruct Hinv as [Hnd Hdom Hne]. split.
    + destruct (q !! fc_Workspace c) eqn:E; [done|]. apply NoDup_app. split; [done|].
      split; [|apply NoDup_singleton]. intros w Hw ->%list_elem_of_singleton.
      apply Hdom in Hw. rewrite E in Hw. by apply is_Some_None in Hw.
    + intros w. destruct (decide (fc_Workspace c = w)) as [<-|Hw].
      * rewrite lookup_insert_eq. split; [eauto|]. intros _.
        destruct (q !! fc_Workspace c) eqn:E; [apply Hdom; eauto|].
        apply elem_of_app. right. by apply list_elem_of_singleton.
      * rewrite lookup_insert_ne by done. rewrite <- Hdom.
        destruct (q !! fc_Workspace c); [done|]. rewrite elem_of_app, list_elem_of_singleton.
        naive_solver.
    + intros w l. destruct (decide (fc_Workspace c = w)) as [<-|Hw].
      * rewrite lookup_insert_eq. intros [= <-]. by destruct (default [] _).
      * rewrite lookup_insert_ne by done. apply Hne.
Qed.

Lemma build_queues_ok now seen q ws cs :
  Forall (fun c => candidate_invalid now c = false) cs -> NoDup (fc_JobID <$> cs) ->
  (forall c, c ∈ cs -> fc_JobID c ∉ seen) ->
  exists r, build_queues now seen q ws cs = Ok r.
Proof.
  revert seen q ws. induction cs as [|c cs IH]; intros seen q ws Hv Hnd Hs; cbn [build_queues]; [eauto|].
  apply Forall_cons in Hv as [Hc Hv]. rewrite fmap_cons, NoDup_cons in Hnd. destruct Hnd as [Hni Hnd].
  rewrite Hc. rewrite bool_decide_false by (apply Hs; left).
  apply IH; [done|done|]. intros c' Hc'. assert (fc_JobID c' <> fc_JobID c).
  { intros E. apply Hni. rewrite <- E. by apply list_elem_of_fmap_2. }
  assert (fc_JobID c' ∉ seen) by (apply Hs; by right). set_solver.
Qed.

(** [c] is the first candidate of its workspace: earliest, then least job id. *)
Definition head_of_workspace (cs : list FairCandidate) (w : string) (c : FairCandidate) : Prop :=
  c ∈ cs /\ fc_Workspace c = w /\ forall c', c' ∈ cs -> fc_Workspace c' = w -> cand_le c c'.

Lemma sort_queue_head q c l : sort_queue q = c :: l -> c ∈ q /\ forall c', c' ∈ q -> cand_le c c'.
Proof.
  intros E. assert (Hp : c :: l ≡ₚ q) by (rewrite <- E; apply merge_sort_Permutation).
  split; [rewrite <- Hp; left|]. intros c' Hc'. rewrite <- Hp in Hc'.
  eapply StronglySorted_head; [apply _| |exact Hc']. rewrite <- E.
  apply StronglySorted_merge_sort; apply _.
Qed.

Section Queues.
Context {now : time} {cs : list FairCandidate} {built : gmap string (list FairCandidate)} {ws : list string}.
Hypothesis Hbuilt : build_queues now ∅ ∅ [] cs = Ok (built, ws).
#[local] Abbreviation queues := (sort_queue <$> built).

Lemma empty_queues_inv : queues_inv ∅ [].
Proof.
  split; [constructor| |done]. intros w. rewrite lookup_empty, is_Some_alt, elem_of_nil. done.
Qed.

Lemma built_inv : queues_inv built ws.
Proof. by apply (build_queues_spec _ _ _ _ _ _ _ Hbuilt empty_queues_inv). Qed.

Lemma built_lookup w : default [] (built !! w) = of_workspace w cs.
Proof.
  destruct (build_queues_spec _ _ _ _ _ _ _ Hbuilt empty_queues_inv) as [_ H]. rewrite H.
  by rewrite lookup_empty.
Qed.

Lemma queue_head_spec w c : queue_head queues w = Some c -> head_of_workspace cs w c.
Proof.
  unfold queue_head. rewrite lookup_fmap. pose proof (built_lookup w) as Hb.
  destruct (built !! w) as [q|]; [|done]. simpl in *. subst q.
  destruct (sort_queue (of_workspace w cs)) as [|c0 l] eqn:E; [done|]. intros [= ->].
  apply sort_queue_head in E as [Hin Hmin]. unfold of_workspace in *.
  apply list_elem_of_filter in Hin as [Hw Hin]. split; [done|]. split; [done|].
  intros c' Hc' Hw'. apply Hmin. by apply list_elem_of_filter.
Qed.

Lemma queue_head_some w : w ∈ ws -> exists c, queue_head queues w = Some c.
Proof.
  intros Hw. apply (qi_dom _ _ built_inv) in Hw as [q Hq]. unfold queue_head.
  rewrite lookup_fmap, Hq. simpl. pose proof (qi_nonempty _ _ built_inv _ _ Hq).
  destruct (sort_queue q) as [|c l] eqn:E; [|eauto]. exfalso. apply H.
  apply Permutation_nil_r. rewrite <- E. symmetry. apply merge_sort_Permutation.
Qed.

Lemma workspaces_spec w : w ∈ ws <-> exists c, c ∈ cs /\ fc_Workspace c = w.
Proof.
  rewrite (qi_dom _ _ built_inv). pose proof (built_lookup w) as Hb.
  pose proof (qi_nonempty _ _ built_inv w) as Hne. split.
  - intros [q Hq]. rewrite Hq in Hb. simpl in Hb. specialize (Hne _ Hq). subst q.
    destruct (of_workspace w cs) as [|c l] eqn:E; [done|].
    assert (Hc : c ∈ of_workspace w cs) by (rewrite E; left).
    unfold of_workspace in Hc. apply list_elem_of_filter in Hc as [? ?]. eauto.
  - intros (c & Hc & Hw). destruct (built !! w); [eauto|]. simpl in Hb.
    assert (Hin : c ∈ of_workspace w cs) by (by apply list_elem_of_filter).
    rewrite <- Hb in Hin. by apply elem_of_nil in Hin.
Qed.

End Queues.

(** ** Aging *)
Lemma TimeSub_mono now a b : a <= b -> TimeSub now b <= TimeSub now a.
Proof. unfold TimeSub. lia. Qed.

Lemma not_cand_le_lt a b :
  Before (fc_CreatedAt b) (fc_CreatedAt a)
  || ((fc_CreatedAt b =? fc_CreatedAt a) && str_lt (fc_JobID b) (fc_JobID a)) = true ->
  cand_le b a.
Proof.
  unfold Before, cand_le. rewrite orb_true_iff, andb_true_iff, bool_decide_eq_true, Z.ltb_lt, str_lt_spec.
  tauto.
Qed.

Lemma not_lt_cand_le a b :
  Before (fc_CreatedAt b) (fc_CreatedAt a)
  || ((fc_CreatedAt b =? fc_CreatedAt a) && str_lt (fc_JobID b) (fc_JobID a)) = false ->
  cand_le a b.
Proof.
  unfold Before, cand_le. rewrite orb_false_iff, andb_false_iff, Z.ltb_ge, bool_decide_eq_false, str_lt_ge.
  intros [? [?|?]]; [left; lia|].
  destruct (Z.lt_total (fc_CreatedAt a) (fc_CreatedAt b)) as [?|[?|?]]; [by left|by right|lia].
Qed.

Definition aged_result (now : time) (limit : duration) (heads : list FairCandidate)
    (r : option FairCandidate) : Prop :=
  match r with
  | Some a => a ∈ heads /\ limit <= TimeSub now (fc_CreatedAt a) /\
              forall h, h ∈ heads -> limit <= TimeSub now (fc_CreatedAt h) -> cand_le a h
  | None => forall h, h ∈ heads -> TimeSub now (fc_CreatedAt h) < limit
  end.

Lemma aged_step_spec now limit seen acc c :
  aged_result now limit seen acc -> aged_result now limit (seen ++ [c]) (aged_step now limit acc c).
Proof.
  unfold aged_step. destruct (Z.ltb_spec (TimeSub now (fc_CreatedAt c)) limit) as [Hy|Ho].
  - destruct acc as [a|]; simpl; intros H.
    + destruct H as (H1 & H2 & H3). split; [set_solver|]. split; [done|]. intros h Hh Hl.
      apply elem_of_app in Hh as [?| ->%list_elem_of_singleton]; [auto|lia].
    + intros h Hh. apply elem_of_app in Hh as [?| ->%list_elem_of_singleton]; auto.
  - destruct acc as [a|]; simpl; intros H.
    + destruct H as (H1 & H2 & H3).
      destruct (_ || _) eqn:E; simpl.
      * apply not_cand_le_lt in E. split; [set_solver|]. split; [done|]. intros h Hh Hl.
        apply elem_of_app in Hh as [?| ->%list_elem_of_singleton]; [|done].
        etrans; [exact E|auto].
      * apply not_lt_cand_le in E. split; [set_solver|]. split; [done|]. intros h Hh Hl.
        apply elem_of_app in Hh as [?| ->%list_elem_of_singleton]; auto.
    + split; [set_solver|]. split; [done|]. intros h Hh Hl.
      apply elem_of_app in Hh as [Hh| ->%list_elem_of_singleton]; [|done].
      specialize (H h Hh). lia.
Qed.

Lemma oldest_aged_spec now limit heads : aged_result now limit heads (oldest_aged now limit heads).
Proof.
  unfold oldest_aged.
  assert (H : forall l seen acc, aged_result now limit seen acc ->
            aged_result now limit (seen ++ l) (fold_left (aged_step now limit) l acc)).
  { induction l as [|c l IH]; intros seen acc Hacc; simpl; [by rewrite app_nil_r|].
    replace (seen ++ c :: l) with ((seen ++ [c]) ++ l) by (by rewrite <- app_assoc).
    apply IH. by apply aged_step_spec. }
  apply (H heads [] None). intros h Hh. by apply elem_of_nil in Hh.
Qed.

(** ** Deficit round robin *)
Definition deficits_ok (d : gmap string Z) : Prop := forall w x, d !! w = Some x -> 0 <= x <= maxResourceValue.
Definition deficit (d : gmap string Z) (w : string) : Z := default 0 (d !! w).

Lemma deficit_bounds d w : deficits_ok d -> 0 <= deficit d w <= maxResourceValue.
Proof.
  intros H. unfold deficit, maxResourceValue. destruct (d !! w) eqn:E; simpl; [|lia]. by apply (H w).
Qed.

Lemma deficit_insert d w x w' :
  deficit (<[w := x]> d) w' = if decide (w = w') then x else deficit d w'.
Proof. unfold deficit. rewrite lookup_insert. case_decide; done. Qed.

Lemma refill_bounds q x : 1 <= q <= maxResourceValue -> 0 <= x <= maxResourceValue ->
  refill q x = Z.min maxResourceValue (x + q).
Proof. unfold refill. intros. destruct (Z.ltb_spec (maxResourceValue - q) x); lia. Qed.

Section DRR.
Context (quantum : Z) (queues : gmap string (list FairCandidate)).
Hypothesis Hq : 1 <= quantum <= maxResourceValue.
Hypothesis Hcost : forall w c, queue_head queues w = Some c -> 1 <= fc_Cost c.

Lemma deficits_ok_insert d w x : deficits_ok d -> 0 <= x <= maxResourceValue -> deficits_ok (<[w := x]> d).
Proof.
  intros Hd Hx w' y. rewrite lookup_insert. case_decide; [intros [= <-]; done|apply Hd].
Qed.

Lemma refill_ok d w : deficits_ok d -> 0 <= refill quantum (deficit d w) <= maxResourceValue.
Proof. intros Hd. pose proof (deficit_bounds d w Hd). rewrite refill_bounds; lia. Qed.

Lemma drr_pass_ok d order d' r :
  deficits_ok d -> drr_pass quantum queues d order = (d', r) ->
  deficits_ok d' /\
  match r with
  | Some (w, c) => w ∈ order /\ queue_head queues w = Some c
  | None => (forall w, deficit d w <= deficit d' w) /\
            (forall w, w ∈ order -> Z.min maxResourceValue (deficit d w + quantum) <= deficit d' w) /\
            (forall w c, w ∈ order -> queue_head queues w = Some c ->
               Z.min maxResourceValue (deficit d w + quantum) < fc_Cost c)
  end.
Proof.
  revert d d' r. induction order as [|w ws IH]; intros d d' r Hd H; cbn [drr_pass] in H.
  { injection H as <- <-. split; [done|]. split; [done|].
    split; [intros w Hw|intros w c Hw]; by apply elem_of_nil in Hw. }
  fold (deficit d w) in H. pose proof (refill_ok d w Hd) as Hr.
  pose proof (deficit_bounds d w Hd) as Hb.
  assert (Hrv : refill quantum (deficit d w) = Z.min maxResourceValue (deficit d w + quantum))
    by (by apply refill_bounds).
  assert (Hd1 : deficits_ok (<[w:=refill quantum (deficit d w)]> d)) by (by apply deficits_ok_insert).
  assert (Hrec : forall d1 r1, drr_pass quantum queues (<[w:=refill quantum (deficit d w)]> d) ws = (d1, r1) ->
      (forall c, queue_head queues w = Some c -> refill quantum (deficit d w) < fc_Cost c) ->
      deficits_ok d1 /\
      match r1 with
      | Some (w', c) => w' ∈ w :: ws /\ queue_head queues w' = Some c
      | None => (forall w, deficit d w <= deficit d1 w) /\
            (forall w', w' ∈ w :: ws -> Z.min maxResourceValue (deficit d w' + quantum) <= deficit d1 w') /\
            (forall w' c, w' ∈ w :: ws -> queue_head queues w' = Some c ->
               Z.min maxResourceValue (deficit d w' + quantum) < fc_Cost c)
      end).
  { intros d1 r1 Hp Hhead. apply IH in Hp as [Hok Hp]; [|done]. split; [done|].
    destruct r1 as [[w' c]|].
    - destruct Hp. split; [by right|done].
    - destruct Hp as (Hmono & Hinc & Hc).
      assert (Hle : forall w', deficit d w' <= deficit d1 w').
      { intros w'. specialize (Hmono w'). rewrite deficit_insert in Hmono.
        case_decide; subst; lia. }
      split; [done|]. split.
      + intros w' [->|Hin]%elem_of_cons.
        * specialize (Hmono w). rewrite deficit_insert, decide_True in Hmono by done. lia.
        * specialize (Hinc w' Hin). rewrite deficit_insert in Hinc. case_decide; subst; lia.
      + intros w' c [->|Hin]%elem_of_cons Hh; [rewrite <- Hrv; auto|].
        specialize (Hc w' c Hin Hh). rewrite deficit_insert in Hc. case_decide; subst; lia. }
  destruct (queue_head queues w) as [c|] eqn:Eh.
  - destruct (Z.leb_spec (fc_Cost c) (refill quantum (deficit d w))) as [Hle|Hgt].
    + injection H as <- <-. pose proof (Hcost _ _ Eh). split; [|split; [left|done]].
      apply deficits_ok_insert; [done|lia].
    + apply Hrec; [done|]. intros c' [= <-]. done.
  - apply Hrec; [done|]. intros; done.
Qed.

Lemma drr_rounds_ok n d order d' r :
  deficits_ok d -> drr_rounds n quantum queues d order = (d', r) ->
  deficits_ok d' /\
  match r with
  | Some (w, c) => w ∈ order /\ queue_head queues w = Some c
  | None => forall w c, w ∈ order -> queue_head queues w = Some c -> (0 < n)%nat ->
              Z.min maxResourceValue (deficit d w + Z.of_nat n * quantum) < fc_Cost c
  end.
Proof.
  revert d d' r. induction n as [|n IH]; intros d d' r Hd H; cbn [drr_rounds] in H.
  { injection H as <- <-. split; [done|]. intros. lia. }
  destruct (drr_pass quantum queues d order) as [d1 r1] eqn:Ep.
  apply drr_pass_ok in Ep as [Hok Hp]; [|done].
  destruct r1 as [[w c]|]; [injection H as <- <-; done|].
  apply IH in H as [Hok' Hr]; [|done]. split; [done|].
  destruct r as [[w c]|]; [done|]. destruct Hp as (_ & Hinc & Hc).
  intros w c Hin Hh _. destruct (decide (n = 0)%nat) as [->|Hn].
  - specialize (Hc w c Hin Hh). lia.
  - specialize (Hr w c Hin Hh ltac:(lia)). specialize (Hinc w Hin).
    pose proof (deficit_bounds d1 w Hok). nia.
Qed.

(** When every head fits into one quantum, the first workspace in the order is
    served. *)
Lemma drr_rounds_first n d w order c :
  deficits_ok d -> (0 < n)%nat -> queue_head queues w = Some c -> fc_Cost c <= quantum ->
  exists d', drr_rounds n quantum queues d (w :: order) = (d', Some (w, c)).
Proof.
  intros Hd Hn Hh Hle. destruct n as [|n]; [lia|]. cbn [drr_rounds drr_pass].
  fold (deficit d w). rewrite Hh. pose proof (deficit_bounds d w Hd).
  rewrite (proj2 (Z.leb_le _ _)); [eauto|]. rewrite refill_bounds by done. lia.
Qed.

End DRR.

(** ** Rotation *)
Lemma omap_seq_lookup {A} (f : nat -> option A) a m k :
  (forall i, (a <= i < a + m)%nat -> is_Some (f i)) -> (k < m)%nat ->
  omap f (seq a m) !! k = f (a + k)%nat.
Proof.
  revert a k. induction m as [|m IH]; intros a k Hf Hk; [lia|].
  destruct (Hf a ltac:(lia)) as [x Hx]. cbn. rewrite Hx. destruct k as [|k]; cbn.
  - by rewrite Nat.add_0_r.
  - fold (omap f (seq (S a) m)). rewrite IH; [f_equal; lia|intros; apply Hf; lia|lia].
Qed.

Lemma omap_seq_length {A} (f : nat -> option A) a m :
  (forall i, (a <= i < a + m)%nat -> is_Some (f i)) -> length (omap f (seq a m)) = m.
Proof.
  revert a. induction m as [|m IH]; intros a Hf; [done|].
  destruct (Hf a ltac:(lia)) as [x Hx]. cbn. rewrite Hx. cbn. f_equal.
  apply IH. intros. apply Hf. lia.
Qed.

Lemma rotate_from_is_rotate i l : rotate_from i l = rotate i l.
Proof.
  destruct (decide (length l = 0)%nat) as [E|Hne].
  { apply nil_length_inv in E as ->. unfold rotate. by rewrite drop_nil, take_nil. }
  assert (Hsome : forall off, (0 <= off < 0 + length l)%nat -> is_Some (l !! ((i + off) mod length l)%nat)).
  { intros off _. apply lookup_lt_is_Some_2, Nat.mod_upper_bound. lia. }
  apply list_eq. intros k. destruct (decide (k < length l)%nat) as [Hk|Hk].
  - unfold rotate_from. rewrite omap_seq_lookup by done. rewrite lookup_rotate_r by done. f_equal.
    unfold rotate_nat_add. rewrite <- Nat2Z.inj_add, <- Nat2Z.inj_mod, Nat2Z.id. done.
  - rewrite !lookup_ge_None_2; [done| |]; [rewrite length_rotate|unfold rotate_from; rewrite omap_seq_length by done]; lia.
Qed.

Lemma rotate_from_perm i l : rotate_from i l ≡ₚ l.
Proof.
  rewrite rotate_from_is_rotate. unfold rotate. rewrite Permutation_app_comm, take_drop. done.
Qed.

Lemma rotate_from_elem i l w : w ∈ rotate_from i l <-> w ∈ l.
Proof. by rewrite rotate_from_perm. Qed.

Lemma rotate_from_head i l w : l !! i = Some w -> exists tl, rotate_from i l = w :: tl.
Proof.
  intros Hi. pose proof (lookup_lt_Some _ _ _ Hi).
  assert (H0 : rotate_from i l !! 0%nat = Some w).
  { rewrite rotate_from_is_rotate, lookup_rotate_r by lia. unfold rotate_nat_add.
    rewrite Z.add_0_r, <- Nat2Z.inj_mod, Nat2Z.id, Nat.mod_small by done. done. }
  destruct (rotate_from i l) as [|w' tl]; [done|]. injection H0 as ->. eauto.
Qed.

(** ** [Select] *)
Definition sched_ok (s : FairScheduler) : Prop :=
  1 <= fc_Quantum (fs_config s) <= maxResourceValue /\
  Second <= fc_AgingLimit (fs_config s) <= 24 * Hour /\ deficits_ok (fs_deficits s).

Lemma NewFairScheduler_ok config s : NewFairScheduler config = Ok s -> sched_ok s.
Proof.
  unfold NewFairScheduler. destruct (_ || _) eqn:E; [done|]. intros [= <-]. breflect.
  unfold sched_ok. cbn. split; [lia|]. split; [lia|]. intros w x Hw. rewrite lookup_empty in Hw. done.
Qed.

Lemma deficits_ok_filter d (P : string * Z -> Prop) `{forall x, Decision (P x)} :
  deficits_ok d -> deficits_ok (filter P d).
Proof. intros Hd w x Hw. apply map_lookup_filter_Some in Hw as [Hw _]. by apply (Hd w). Qed.

Lemma candidate_cost now c : candidate_invalid now c = false ->
  1 <= fc_Cost c <= maxResourceValue /\ fc_Workspace c <> "".
Proof.
  unfold candidate_invalid. intros. breflect. split; [lia|]. intros E.
  match goal with H : MatchString workspacePattern _ = true |- _ => rewrite E in H; vm_compute in H; done end.
Qed.

Lemma build_queues_valid now seen q ws cs r :
  build_queues now seen q ws cs = Ok r -> Forall (fun c => candidate_invalid now c = false) cs.
Proof.
  revert seen q ws. induction cs as [|c cs IH]; intros seen q ws H; cbn [build_queues] in H; [constructor|].
  res_inv H. constructor; [done|]. by eapply IH.
Qed.

(** What [Select] does to the scheduler and returns, on every path. *)
Lemma Select_spec s now cs r s' :
  sched_ok s -> Select s now cs = (r, s') ->
  sched_ok s' /\ fs_config s' = fs_config s /\
  match r with
  | Ok c => head_of_workspace cs (fc_Workspace c) c /\ fs_cursor s' = fc_Workspace c
  | Err _ => fs_cursor s' = fs_cursor s
  end.
Proof.
  intros Hs H. unfold Select in H.
  destruct (_ || _); [by injection H as <- <-|].
  destruct (build_queues now ∅ ∅ [] cs) as [[built ws]|e] eqn:Eb; [|by injection H as <- <-].
  destruct Hs as (Hq & Ha & Hd).
  set (d0 := filter _ _) in H.
  assert (Hd0 : deficits_ok d0) by (by apply deficits_ok_filter).
  pose proof (oldest_aged_spec now (fc_AgingLimit (fs_config s))
    (omap (queue_head (sort_queue <$> built)) (sort_strings ws))) as Hold.
  destruct (oldest_aged _ _ _) as [aged|].
  - injection H as <- <-. split; [done|]. split; [done|]. split; [|done].
    destruct Hold as (Hin & _). apply list_elem_of_omap in Hin as (w & _ & Hh).
    apply (queue_head_spec Eb) in Hh. pose proof Hh as (_ & <- & _). done.
  - assert (Hcost : forall w c, queue_head (sort_queue <$> built) w = Some c -> 1 <= fc_Cost c).
    { intros w c Hh. apply (queue_head_spec Eb) in Hh as (Hin & _).
      pose proof (build_queues_valid _ _ _ _ _ _ Eb) as Hv. rewrite Forall_forall in Hv.
      apply (candidate_cost now). auto. }
    destruct (drr_rounds _ _ _ _ _) as [d r0] eqn:Er.
    apply drr_rounds_ok in Er as [Hok Hr]; [|done..].
    destruct r0 as [[w c]|]; injection H as <- <-.
    + split; [done|]. split; [done|]. destruct Hr as [_ Hh]. apply (queue_head_spec Eb) in Hh.
      pose proof Hh as (_ & <- & _). done.
    + done.
Qed.

(** ** Progress and fairness *)
Lemma valid_candidates_built now cs : valid_candidates now cs ->
  (IsZero now || (Z.of_nat (length cs) =? 0) || (4096 <? Z.of_nat (length cs))) = false /\
  exists built ws, build_queues now ∅ ∅ [] cs = Ok (built, ws).
Proof.
  intros (Hn & Hne & Hlen & Hv & Hnd). split.
  - rewrite Hn. simpl. destruct cs; [done|]. rewrite bool_decide_false by (simpl; lia).
    apply Z.ltb_ge. done.
  - destruct (build_queues_ok now ∅ ∅ [] cs Hv Hnd) as [[built ws] H]; [set_solver|eauto].
Qed.

(** The least candidate among the heads that have waited for the aging limit
    is the least of all candidates that have. *)
Definition oldest_candidate (cs : list FairCandidate) (c : FairCandidate) : Prop :=
  c ∈ cs /\ forall c', c' ∈ cs -> cand_le c c'.

Section Valid.
Context {now : time} {cs : list FairCandidate} {built : gmap string (list FairCandidate)} {ws : list string}.
Hypothesis Hbuilt : build_queues now ∅ ∅ [] cs = Ok (built, ws).
#[local] Abbreviation queues := (sort_queue <$> built).
#[local] Abbreviation heads := (omap (queue_head queues) (sort_strings ws)).

Lemma sort_strings_elem l w : w ∈ sort_strings l <-> w ∈ l.
Proof. by rewrite sort_strings_perm. Qed.

Lemma head_of_candidate c : c ∈ cs ->
  exists h, queue_head queues (fc_Workspace c) = Some h /\ h ∈ heads /\ cand_le h c.
Proof.
  intros Hc. assert (Hw : fc_Workspace c ∈ ws) by (apply (workspaces_spec Hbuilt); eauto).
  destruct (queue_head_some Hbuilt _ Hw) as [h Hh]. exists h. split; [done|]. split.
  - apply list_elem_of_omap. exists (fc_Workspace c). by rewrite sort_strings_elem.
  - apply (queue_head_spec Hbuilt) in Hh as (_ & _ & Hmin). auto.
Qed.

Lemma aged_is_oldest limit c a :
  c ∈ cs -> limit <= TimeSub now (fc_CreatedAt c) -> oldest_aged now limit heads = Some a ->
  oldest_candidate cs a.
Proof.
  intros Hc Hage Ho. pose proof (oldest_aged_spec now limit heads) as Hs. rewrite Ho in Hs.
  destruct Hs as (Hin & _ & Hmin). split.
  { apply list_elem_of_omap in Hin as (w & _ & Hh). by apply (queue_head_spec Hbuilt) in Hh as [? _]. }
  assert (Hall : forall c', c' ∈ cs -> limit <= TimeSub now (fc_CreatedAt c') -> cand_le a c').
  { intros c' Hc' Ha. destruct (head_of_candidate c' Hc') as (h & _ & Hh & Hle). etrans; [|exact Hle].
    apply Hmin; [done|]. etrans; [exact Ha|]. apply TimeSub_mono.
    destruct Hle as [?|[-> _]]; lia. }
  intros c' Hc'. destruct (total cand_le c c') as [Hcc|Hcc]; [etrans; [apply (Hall c)|]; done|].
  apply Hall; [done|]. etrans; [exact Hage|]. apply TimeSub_mono. destruct Hcc as [?|[-> _]]; lia.
Qed.

Lemma aged_exists limit c : c ∈ cs -> limit <= TimeSub now (fc_CreatedAt c) ->
  exists a, oldest_aged now limit heads = Some a.
Proof.
  intros Hc Hage. pose proof (oldest_aged_spec now limit heads) as Hs.
  destruct (oldest_aged now limit heads); [eauto|]. exfalso.
  destruct (head_of_candidate c Hc) as (h & _ & Hh & Hle). specialize (Hs h Hh).
  assert (fc_CreatedAt h <= fc_CreatedAt c) as Hcr by (destruct Hle as [?|[-> _]]; lia).
  pose proof (TimeSub_mono now _ _ Hcr). lia.
Qed.

Lemma not_aged limit : (forall c, c ∈ cs -> TimeSub now (fc_CreatedAt c) < limit) ->
  oldest_aged now limit heads = None.
Proof.
  intros Hy. pose proof (oldest_aged_spec now limit heads) as Hs.
  destruct (oldest_aged now limit heads) as [a|]; [|done]. destruct Hs as (Hin & Ha & _).
  apply list_elem_of_omap in Hin as (w & _ & Hh). apply (queue_head_spec Hbuilt) in Hh as [Hc _].
  specialize (Hy _ Hc). lia.
Qed.

Lemma queue_head_cost w c : queue_head queues w = Some c -> 1 <= fc_Cost c.
Proof.
  intros Hh. apply (queue_head_spec Hbuilt) in Hh as (Hin & _).
  pose proof (build_queues_valid _ _ _ _ _ _ Hbuilt) as Hv. rewrite Forall_forall in Hv.
  apply (candidate_cost now). auto.
Qed.
End Valid.

Lemma cand_le_antisymm a b : cand_le a b -> cand_le b a -> fc_JobID a = fc_JobID b.
Proof. intros [?|[? H1]] [?|[? H2]]; try lia. by apply (anti_symm str_le). Qed.

Lemma NoDup_fmap_eq {A B} (f : A -> B) (l : list A) x y :
  NoDup (f <$> l) -> x ∈ l -> y ∈ l -> f x = f y -> x = y.
Proof.
  intros Hnd [i Hi]%list_elem_of_lookup [j Hj]%list_elem_of_lookup E.
  assert (i = j) as <-; [|congruence].
  eapply NoDup_lookup; [exact Hnd| |]; rewrite list_lookup_fmap; [by rewrite Hi|by rewrite Hj, E].
Qed.

(** The workspaces a set of candidates competes for. *)
Definition workspaces_of (cs : list FairCandidate) : list string :=
  remove_dups (fc_Workspace <$> cs).

Lemma workspaces_of_spec cs w : w ∈ workspaces_of cs <-> exists c, c ∈ cs /\ fc_Workspace c = w.
Proof. unfold workspaces_of. rewrite elem_of_remove_dups, list_elem_of_fmap. naive_solver. Qed.

Lemma built_workspaces {now cs built ws} :
  build_queues now ∅ ∅ [] cs = Ok (built, ws) -> ws ≡ₚ workspaces_of cs.
Proof.
  intros Hb. apply NoDup_Permutation; [apply (built_inv Hb)|apply NoDup_remove_dups|].
  intros w. by rewrite (workspaces_spec Hb), workspaces_of_spec.
Qed.

(** An over-age candidate preempts the round robin: as soon as one candidate
    has waited for the aging limit, the selected job is the oldest of all the
    candidates, whatever its workspace and its cost. *)
Theorem Select_aging s now cs c :
  valid_candidates now cs -> c ∈ cs ->
  fc_AgingLimit (fs_config s) <= TimeSub now (fc_CreatedAt c) ->
  exists a, fst (Select s now cs) = Ok a /\ oldest_candidate cs a.
Proof.
  intros Hv Hc Hage. destruct (valid_candidates_built _ _ Hv) as (Hg & built & ws & Hb).
  destruct (aged_exists Hb _ c Hc Hage) as [a Ha]. exists a.
  split; [unfold Select; rewrite Hg, Hb, Ha; done|by eapply (aged_is_oldest Hb)].
Qed.

Lemma Select_credit s now cs c :
  sched_ok s -> valid_candidates now cs -> head_of_workspace cs (fc_Workspace c) c ->
  fc_Cost c <= (Z.of_nat (length (workspaces_of cs)) + 1) * fc_Quantum (fs_config s) ->
  exists r, fst (Select s now cs) = Ok r.
Proof.
  intros (Hq & Ha & Hd) Hv Hhead Hcost. pose proof Hv as (_ & _ & _ & Hvc & _).
  destruct (valid_candidates_built _ _ Hv) as (Hg & built & ws & Hb).
  unfold Select. rewrite Hg, Hb. destruct (oldest_aged _ _ _); [eauto|].
  destruct (drr_rounds _ _ _ _ _) as [d [[w r]|]] eqn:Er; [eauto|].
  apply drr_rounds_ok in Er as [_ Hr];
    [|done|intros w0 c0; apply (queue_head_cost Hb)|by apply deficits_ok_filter].
  destruct Hhead as (Hin & _ & Hmin).
  destruct (head_of_candidate Hb c Hin) as (h & Hh & _ & Hle). exfalso.
  apply (queue_head_spec Hb) in Hh as Hspec. destruct Hspec as (Hhin & Hhw & _).
  assert (Ehc : h = c).
  { apply (NoDup_fmap_eq fc_JobID cs); [apply Hv|done..|]. apply cand_le_antisymm; auto. }
  subst h. specialize (Hr (fc_Workspace c) c).
  assert (Hin' : fc_Workspace c ∈ rotate_from (start_index (fs_cursor s) (sort_strings ws)) (sort_strings ws)).
  { rewrite rotate_from_elem, sort_strings_elem, (workspaces_spec Hb). eauto. }
  specialize (Hr Hin' Hh ltac:(lia)).
  rewrite sort_strings_perm, (built_workspaces Hb) in Hr.
  rewrite Forall_forall in Hvc. destruct (candidate_cost now c (Hvc c Hin)) as [Hc _].
  match type of Hr with context [deficit ?d _] =>
    pose proof (deficit_bounds d (fc_Workspace c) ltac:(by apply deficits_ok_filter)) end.
  nia.
Qed.

(** Unit-cost jobs never wait for credit. *)
Lemma Select_unit s now cs :
  sched_ok s -> valid_candidates now cs -> (forall c, c ∈ cs -> fc_Cost c = 1) ->
  exists c, fst (Select s now cs) = Ok c.
Proof.
  intros Hs Hv Hc. destruct (valid_candidates_built _ _ Hv) as (_ & built & ws & Hb).
  pose proof Hv as (_ & Hne & _). destruct cs as [|c0 cs]; [done|].
  destruct (head_of_candidate Hb c0) as (h & Hh & _); [left|].
  apply (queue_head_spec Hb) in Hh as Hsp. destruct Hsp as (Hin & Hw & Hmin).
  apply (Select_credit s now (c0 :: cs) h Hs Hv).
  - split; [done|]. split; [done|]. by rewrite Hw.
  - rewrite (Hc h Hin). destruct Hs as (Hq & _). nia.
Qed.

(** Progress of the round robin: with well-formed candidates, [Select]
    returns one as soon as some workspace's first job fits into the credit of
    [n + 1] passes over the [n] competing workspaces. *)
Theorem Select_progress s now cs c :
  sched_ok s -> valid_candidates now cs -> head_of_workspace cs (fc_Workspace c) c ->
  fc_Cost c <= (Z.of_nat (length (workspaces_of cs)) + 1) * fc_Quantum (fs_config s) ->
  exists r, fst (Select s now cs) = Ok r.
Proof. apply Select_credit. Qed.

(** ** A cycle of the round robin *)
Lemma sort_strings_length l : length (sort_strings l) = length l.
Proof. by rewrite sort_strings_perm. Qed.


(** Consecutive calls, and the workspaces they served. *)
Fixpoint select_run (s : FairScheduler) (calls : list (time * list FairCandidate))
    : result (list string) :=
  match calls with
  | [] => Ok []
  | (now, cs) :: rest =>
      match Select s now cs with
      | (Ok c, s') => let? ws := select_run s' rest in Ok (fc_Workspace c :: ws)
      | (Err e, _) => Err e
      end
  end.

(** A call in steady state: the given workspaces compete, nobody is over age,
    every job fits into a quantum. *)
Definition steady (config : FairConfig) (W : list string) (call : time * list FairCandidate) : Prop :=
  valid_candidates call.1 call.2 /\ workspaces_of call.2 ≡ₚ W /\
  forall c, c ∈ call.2 ->
    TimeSub call.1 (fc_CreatedAt c) < fc_AgingLimit config /\ fc_Cost c <= fc_Quantum config.

Lemma Select_steady s W call w :
  sched_ok s -> steady (fs_config s) W call ->
  sort_strings W !! start_index (fs_cursor s) (sort_strings W) = Some w ->
  exists c s', Select s call.1 call.2 = (Ok c, s') /\ fc_Workspace c = w /\ fs_cursor s' = w.
Proof.
  destruct call as [now cs]. intros Hs (Hv & HW & Hall) Hw. simpl in *.
  destruct (valid_candidates_built _ _ Hv) as (Hg & built & ws & Hb).
  assert (Esort : sort_strings ws = sort_strings W).
  { apply sort_strings_unique. by rewrite (built_workspaces Hb). }
  destruct (Select s now cs) as [r s'] eqn:ES. pose proof (Select_spec _ _ _ _ _ Hs ES) as (_ & _ & Hr).
  unfold Select in ES. rewrite Hg, Hb, (not_aged Hb), Esort in ES by (intros; by apply Hall).
  destruct (rotate_from_head _ _ _ Hw) as [tl Htl]. rewrite Htl in ES.
  assert (Hws : w ∈ ws) by (rewrite <- sort_strings_elem, Esort; by eapply list_elem_of_lookup_2).
  destruct (queue_head_some Hb _ Hws) as [h Hh].
  apply (queue_head_spec Hb) in Hh as Hsp. destruct Hsp as (Hin & Hhw & _).
  destruct Hs as (Hq & _ & Hd).
  edestruct (drr_rounds_first (fc_Quantum (fs_config s)) (sort_queue <$> built) Hq
               (length (sort_strings W) + 1)) as [d' Hd']; [|lia|exact Hh|by apply Hall|].
  { by apply (deficits_ok_filter _ (fun e => is_Some (built !! e.1)) Hd). }
  rewrite Hd' in ES. injection ES as <- <-. eauto.
Qed.

Lemma start_index_next W w i :
  NoDup W -> w <> "" -> sort_strings W !! i = Some w ->
  start_index w (sort_strings W) = ((i + 1) mod length W)%nat.
Proof.
  intros Hnd Hw Hi. unfold start_index. rewrite bool_decide_false by done.
  pose proof Hi as Hf. apply SearchStrings_found in Hf as [-> _];
    [|apply sort_strings_sorted|by rewrite sort_strings_perm].
  rewrite Hi, bool_decide_true by done. by rewrite sort_strings_perm.
Qed.

Lemma select_run_steady s W calls i :
  sched_ok s -> NoDup W -> Forall (steady (fs_config s) W) calls ->
  start_index (fs_cursor s) (sort_strings W) = i -> (i < length W)%nat ->
  exists served, select_run s calls = Ok served /\ length served = length calls /\
    forall k, (k < length calls)%nat -> served !! k = sort_strings W !! ((i + k) mod length W)%nat.
Proof.
  revert s i. induction calls as [|[now cs] calls IH]; intros s i Hs Hnd Hc Hi Hlt.
  { exists []. split; [done|]. split; [done|]. simpl. lia. }
  apply Forall_cons in Hc as [Hc Hcs]. cbn [select_run].
  assert (HlenV : length (sort_strings W) = length W) by apply sort_strings_length.
  destruct (lookup_lt_is_Some_2 (sort_strings W) i) as [w Hw]; [lia|].
  destruct (Select_steady s W (now, cs) w) as (c & s' & HS & Hcw & Hcur); [done|done|by rewrite Hi|].
  simpl in HS. pose proof (Select_spec _ _ _ _ _ Hs HS) as (Hs' & Hcfg & Hhead & _).
  rewrite HS. assert (Hne : w <> "").
  { destruct Hc as ((_ & _ & _ & Hv & _) & _). rewrite Forall_forall in Hv. rewrite <- Hcw.
    apply (candidate_cost now), Hv, Hhead. }
  destruct (IH s' ((i + 1) mod length W)%nat) as (served & Hrun & Hlen & Hlk);
    [done|done|by rewrite Hcfg|rewrite Hcur; by apply start_index_next|apply Nat.mod_upper_bound; lia|].
  rewrite Hrun. exists (fc_Workspace c :: served). split; [done|]. split; [simpl; lia|].
  intros [|k] Hk; cbn [lookup list_lookup].
  - rewrite Nat.add_0_r, Nat.mod_small by done. by rewrite Hw, Hcw.
  - change (served !! k = sort_strings W !! ((i + S k) mod length W)%nat).
    simpl in Hk. rewrite Hlk by lia. f_equal. rewrite Nat.Div0.add_mod_idemp_l. f_equal. lia.
Qed.

Lemma start_index_lt cursor l : l <> [] -> (start_index cursor l < length l)%nat.
Proof.
  intros Hl. assert (0 < length l)%nat by (destruct l; [done|simpl; lia]).
  unfold start_index. repeat case_match; try lia. apply Nat.mod_upper_bound. lia.
Qed.

(** Fairness of a cycle: when the same [n] workspaces keep competing, nobody
    is over age and every job fits into a quantum, then [n] consecutive
    selections serve each workspace exactly once, from any scheduler state. *)
Theorem fair_cycle s W calls :
  sched_ok s -> NoDup W -> length calls = length W -> Forall (steady (fs_config s) W) calls ->
  exists served, select_run s calls = Ok served /\ served ≡ₚ W.
Proof.
  intros Hs Hnd Hlen Hc. destruct (decide (W = [])) as [->|Hne].
  { destruct calls; [|done]. exists []. done. }
  assert (Hne' : sort_strings W <> []).
  { intros E. apply Hne. apply Permutation_nil_r. rewrite <- E. symmetry. apply sort_strings_perm. }
  pose proof (start_index_lt (fs_cursor s) _ Hne') as Hlt. rewrite sort_strings_length in Hlt.
  destruct (select_run_steady s W calls _ Hs Hnd Hc eq_refl Hlt) as (served & Hrun & Hl & Hlk).
  exists served. split; [done|]. rewrite <- (sort_strings_perm W).
  rewrite <- (rotate_from_perm (start_index (fs_cursor s) (sort_strings W)) (sort_strings W)).
  apply reflexive_eq. apply list_eq. intros k. rewrite rotate_from_is_rotate.
  assert (HlenV : length (sort_strings W) = length W) by apply sort_strings_length.
  destruct (decide (k < length W)%nat) as [Hk|Hk].
  - rewrite Hlk by lia. rewrite lookup_rotate_r by lia. f_equal. unfold rotate_nat_add.
    rewrite <- Nat2Z.inj_add, <- Nat2Z.inj_mod, Nat2Z.id, HlenV. done.
  - rewrite !lookup_ge_None_2; [done|rewrite length_rotate|]; lia.
Qed.

(** A scheduler that [NewFairScheduler] made and any calls of [Select] changed. *)
Inductive sched_reachable : FairScheduler -> Prop :=
| reach_new config s : NewFairScheduler config = Ok s -> sched_reachable s
| reach_select s now cs r s' : sched_reachable s -> Select s now cs = (r, s') -> sched_reachable s'.

Lemma sched_reachable_ok s : sched_reachable s -> sched_ok s.
Proof.
  induction 1 as [config s H|s now cs r s' _ IH H]; [by eapply NewFairScheduler_ok|].
  by apply (Select_spec _ _ _ _ _ IH H).
Qed.

(** First in, first out inside a workspace, with bounded credit: whatever
    calls were made before, a selected candidate is one of those offered and no
    offered candidate of its workspace is older (creation time, then job id); and
    no workspace's credit ever leaves [0 .. maxResourceValue]. *)
Theorem Select_fifo s now cs r s' :
  sched_reachable s -> Select s now cs = (r, s') ->
  deficits_ok (fs_deficits s') /\
  (forall c, r = Ok c -> head_of_workspace cs (fc_Workspace c) c /\ fs_cursor s' = fc_Workspace c).
Proof.
  intros Hr%sched_reachable_ok H. destruct (Select_spec _ _ _ _ _ Hr H) as ((_ & _ & Hd) & _ & Hc).
  split; [done|]. intros c ->. done.
Qed.

(** ** Witnesses *)
Definition sample_config : FairConfig := {| fc_Quantum := 1; fc_AgingLimit := Minute |}.
Definition sample_id (n : string) : string := "wj_0000000000000000000000000000000" +:+ n.
Definition sample_cand (n w : string) (at_ : time) : FairCandidate :=
  {| fc_JobID := sample_id n; fc_Workspace := w; fc_Cost := 1; fc_CreatedAt := at_ |}.
Definition sample_sched : FairScheduler :=
  {| fs_config := sample_config; fs_deficits := ∅; fs_cursor := "" |}.
Definition sample_cands : list FairCandidate :=
  [sample_cand "1" "ws_beta" 1001; sample_cand "2" "ws_alpha" 1003; sample_cand "3" "ws_beta" 1002].

#[export] Instance valid_candidates_dec now cs : Decision (valid_candidates now cs).
Proof. unfold valid_candidates. apply _. Defined.

Lemma sample_sched_ok : sched_ok sample_sched.
Proof. by apply (NewFairScheduler_ok sample_config). Qed.

Lemma Select_aging_witness :
  exists a, fst (Select sample_sched (1003 + Minute) sample_cands) = Ok a /\ oldest_candidate sample_cands a.
Proof.
  apply (Select_aging sample_sched (1003 + Minute) sample_cands (sample_cand "2" "ws_alpha" 1003)).
  - apply (bool_decide_unpack _). vm_compute. exact I.
  - right. left.
  - vm_compute. discriminate.
Defined.

Lemma Select_progress_witness : exists r, fst (Select sample_sched 2000 sample_cands) = Ok r.
Proof.
  apply (Select_progress sample_sched 2000 sample_cands (sample_cand "1" "ws_beta" 1001)).
  - apply sample_sched_ok.
  - apply (bool_decide_unpack _). vm_compute. exact I.
  - split; [left|]. split; [done|]. intros c Hc _. revert c Hc. apply Forall_forall.
    apply (bool_decide_unpack _). vm_compute. exact I.
  - vm_compute. discriminate.
Defined.

Lemma fair_cycle_witness : exists served,
  select_run sample_sched [(2000, sample_cands); (2001, sample_cands)] = Ok served /\ served ≡ₚ ["ws_beta"; "ws_alpha"].
Proof.
  apply (fair_cycle sample_sched ["ws_beta"; "ws_alpha"] [(2000, sample_cands); (2001, sample_cands)]).
  - apply sample_sched_ok.
  - apply (bool_decide_unpack _). vm_compute. exact I.
  - reflexivity.
  - apply Forall_cons; split; [|apply Forall_cons; split; [|constructor]];
      (split; [apply (bool_decide_unpack _); vm_compute; exact I|]; split;
       [apply (bool_decide_unpack _); vm_compute; exact I|];
       apply Forall_forall; apply (bool_decide_unpack _); vm_compute; exact I).
Defined.

Lemma Select_fifo_witness :
  let r := Select sample_sched 2000 sample_cands in
  deficits_ok (fs_deficits (snd r)) /\
  (forall c, fst r = Ok c -> head_of_workspace sample_cands (fc_Workspace c) c /\ fs_cursor (snd r) = fc_Workspace c).
Proof.
  intros r. apply (Select_fifo sample_sched 2000 sample_cands (fst r) (snd r)).
  - by apply (reach_new sample_config).
  - apply surjective_pairing.
Defined.
