(* ===== verification/WorkqueueRows.v ===== *)
(** * Stored jobs: the rows of the [jobs] table of [internal/workqueue/store.go]

    A row as the schema declares it (nullable columns are options), how
    [scanJob] reads and validates it, the [UPDATE] statements of the store as
    functions on rows, and the job state machine they implement. *)

From S2P Require Import Prelude GoStrings GoRegexp PolicyScan WorkqueueTypes.

(** The columns no statement updates. *)
Record JobIdent := {
  i_idempotency_key : string;
  i_workspace : string;
  i_pool : string;
  i_profile : string;
  i_payload_hash : string;
  i_created_at : Z;
}.

Record JobRow := {
  r_ident : JobIdent;
  r_state : State;
  r_reason : Reason;
  r_updated_at : Z;
  r_cancel_requested : bool;
  r_attempt : Z;
  r_fence : Z;
  r_lease_id : option string;
  r_lease_holder : option string;
  r_lease_until : option Z;
  r_outcome : option State;
  r_summary : option string;
  r_result_ref : option string;
}.

(** [sql.NullString.String] *)
Definition null_string (o : option string) : string := default "" o.
Definition UnixNano (t : time) : Z := wrap64 t.

(** ** Reading a row *)
Section Scan.
Context `{Redactor}.

Definition validateStoredJob (job : Job) : result unit :=
  if negb (MatchString jobIDPattern (j_ID job))
     || negb (is_ok (validateSpec {| spec_IdempotencyKey := j_IdempotencyKey job;
                                     spec_Workspace := j_Workspace job; spec_Pool := j_Pool job;
                                     spec_Profile := j_Profile job; spec_PayloadHash := j_PayloadHash job;
                                     spec_Dependencies := [] |}))
     || IsZero (j_CreatedAt job) || IsZero (j_UpdatedAt job)
     || Before (j_UpdatedAt job) (j_CreatedAt job) || (j_Attempt job <? 0)
  then Err "workqueue: stored job is invalid"
  else match j_State job with
  | StateBlocked =>
      reject_if ((j_Reason job <>? ReasonDependencyPending) || j_CancelRequested job
                 || (j_LeaseID job <>? "") || (j_LeaseHolder job <>? "")
                 || negb (IsZero (j_LeaseExpiresAt job)) || (j_Outcome job <>? StateEmpty))
        "workqueue: stored blocked job is invalid"
  | StateQueued =>
      reject_if ((j_Reason job <>? ReasonNone) && (j_Reason job <>? ReasonLeaseExpired)
                 || j_CancelRequested job
                 || (j_LeaseID job <>? "") || (j_LeaseHolder job <>? "")
                 || negb (IsZero (j_LeaseExpiresAt job)) || (j_Outcome job <>? StateEmpty))
        "workqueue: stored queued job is invalid"
  | StateLeased =>
      check reject_if (negb (MatchString leaseIDPattern (j_LeaseID job))
                       || negb (MatchString holderPattern (j_LeaseHolder job))
                       || IsZero (j_LeaseExpiresAt job) || (j_Fence job =? 0)
                       || (j_Outcome job <>? StateEmpty))
        "workqueue: stored lease is invalid" in
      reject_if ((j_CancelRequested job <>? (j_Reason job =? ReasonCancelRequested))
                 || (j_Reason job <>? ReasonNone) && (j_Reason job <>? ReasonCancelRequested))
        "workqueue: stored lease cancellation is invalid"
  | StateSucceeded | StateFailed | StateCancelled =>
      check reject_if ((j_Outcome job <>? j_State job)
                       || negb (is_ok (validateResult {| res_Outcome := j_Outcome job;
                                                         res_Summary := j_Summary job;
                                                         res_ResultRef := j_ResultRef job |})))
        "workqueue: stored terminal job is invalid" in
      let hasLeaseIdentity := (j_LeaseID job <>? "") || (j_LeaseHolder job <>? "")
                              || negb (IsZero (j_LeaseExpiresAt job)) in
      check reject_if (hasLeaseIdentity
                       && (negb (MatchString leaseIDPattern (j_LeaseID job))
                           || negb (MatchString holderPattern (j_LeaseHolder job))
                           || IsZero (j_LeaseExpiresAt job) || (j_Fence job =? 0)))
        "workqueue: stored terminal lease is invalid" in
      check reject_if ((j_State job <>? StateCancelled) && j_CancelRequested job)
        "workqueue: stored terminal cancellation flag is invalid" in
      match j_State job with
      | StateSucceeded =>
          reject_if (j_Reason job <>? ReasonNone) "workqueue: stored success reason is invalid"
      | StateFailed =>
          reject_if ((j_Reason job <>? ReasonNone) && (j_Reason job <>? ReasonDependencyFailed)
                     && (j_Reason job <>? ReasonRecoveryExhausted)
                     && (j_Reason job <>? ReasonTaskGoalUnavailable))
            "workqueue: stored failure reason is invalid"
      | StateCancelled =>
          reject_if ((j_Reason job <>? ReasonNone) && (j_Reason job <>? ReasonCancelled))
            "workqueue: stored cancellation reason is invalid"
      | _ => Ok tt
      end
  | StateOther _ => Err "workqueue: stored state is invalid"
  end.

(** The job [scanJob] builds from the columns before it validates it. *)
Definition job_of_row (id : string) (r : JobRow) : Job :=
  {| j_ID := id;
     j_IdempotencyKey := i_idempotency_key (r_ident r);
     j_Workspace := i_workspace (r_ident r);
     j_Pool := i_pool (r_ident r);
     j_Profile := i_profile (r_ident r);
     j_PayloadHash := i_payload_hash (r_ident r);
     j_State := r_state r;
     j_Reason := r_reason r;
     j_CreatedAt := i_created_at (r_ident r);
     j_UpdatedAt := r_updated_at r;
     j_CancelRequested := r_cancel_requested r;
     j_Attempt := r_attempt r;
     j_Fence := wrapU64 (r_fence r);
     j_LeaseID := null_string (r_lease_id r);
     j_LeaseHolder := null_string (r_lease_holder r);
     j_LeaseExpiresAt := default zero_time (r_lease_until r);
     j_Outcome := default StateEmpty (r_outcome r);
     j_Summary := null_string (r_summary r);
     j_ResultRef := null_string (r_result_ref r) |}.

Definition scanJob (id : string) (r : JobRow) : result Job :=
  if r_fence r <? 0 then Err "workqueue: stored fence is invalid"
  else check validateStoredJob (job_of_row id r) in Ok (job_of_row id r).

End Scan.

(** ** The statements, as functions on rows *)

(** [INSERT INTO jobs]: the columns it does not name take their defaults. *)
Definition new_row (ident : JobIdent) (state : State) (reason : Reason) (outcome : option State)
    (summary : option string) : JobRow :=
  {| r_ident := ident; r_state := state; r_reason := reason; r_updated_at := i_created_at ident;
     r_cancel_requested := false; r_attempt := 0; r_fence := 0;
     r_lease_id := None; r_lease_holder := None; r_lease_until := None;
     r_outcome := outcome; r_summary := summary; r_result_ref := None |}.

(** [SET state=leased,reason='',attempt=attempt+1,fence=fence+1,lease_id=?,
    lease_holder=?,lease_until=?,updated_at=?] *)
Definition set_leased (lease_id holder : string) (until now : Z) (r : JobRow) : JobRow :=
  {| r_ident := r_ident r; r_state := StateLeased; r_reason := ReasonNone; r_updated_at := now;
     r_cancel_requested := r_cancel_requested r; r_attempt := r_attempt r + 1; r_fence := r_fence r + 1;
     r_lease_id := Some lease_id; r_lease_holder := Some holder; r_lease_until := Some until;
     r_outcome := r_outcome r; r_summary := r_summary r; r_result_ref := r_result_ref r |}.

(** [SET state=?,reason=?,lease_id=NULL,lease_holder=NULL,lease_until=NULL,
    outcome=?,summary=?,updated_at=?] *)
Definition set_recovered (state : State) (reason : Reason) (outcome : option State)
    (summary : option string) (now : Z) (r : JobRow) : JobRow :=
  {| r_ident := r_ident r; r_state := state; r_reason := reason; r_updated_at := now;
     r_cancel_requested := r_cancel_requested r; r_attempt := r_attempt r; r_fence := r_fence r;
     r_lease_id := None; r_lease_holder := None; r_lease_until := None;
     r_outcome := outcome; r_summary := summary; r_result_ref := r_result_ref r |}.

(** [SET lease_until=?,updated_at=?] *)
Definition set_heartbeat (until now : Z) (r : JobRow) : JobRow :=
  {| r_ident := r_ident r; r_state := r_state r; r_reason := r_reason r; r_updated_at := now;
     r_cancel_requested := r_cancel_requested r; r_attempt := r_attempt r; r_fence := r_fence r;
     r_lease_id := r_lease_id r; r_lease_holder := r_lease_holder r; r_lease_until := Some until;
     r_outcome := r_outcome r; r_summary := r_summary r; r_result_ref := r_result_ref r |}.

(** [SET state=?,reason='',outcome=?,summary=?,result_ref=?,updated_at=?] *)
Definition set_completed (res : Result) (result_ref : option string) (now : Z) (r : JobRow) : JobRow :=
  {| r_ident := r_ident r; r_state := res_Outcome res; r_reason := ReasonNone; r_updated_at := now;
     r_cancel_requested := r_cancel_requested r; r_attempt := r_attempt r; r_fence := r_fence r;
     r_lease_id := r_lease_id r; r_lease_holder := r_lease_holder r; r_lease_until := r_lease_until r;
     r_outcome := Some (res_Outcome res); r_summary := Some (res_Summary res);
     r_result_ref := result_ref |}.

(** [SET cancel_requested=1,reason=cancel_requested,updated_at=?] *)
Definition set_cancel_requested (now : Z) (r : JobRow) : JobRow :=
  {| r_ident := r_ident r; r_state := r_state r; r_reason := ReasonCancelRequested; r_updated_at := now;
     r_cancel_requested := true; r_attempt := r_attempt r; r_fence := r_fence r;
     r_lease_id := r_lease_id r; r_lease_holder := r_lease_holder r; r_lease_until := r_lease_until r;
     r_outcome := r_outcome r; r_summary := r_summary r; r_result_ref := r_result_ref r |}.

(** [SET state=cancelled,reason=cancelled,cancel_requested=1,outcome=cancelled,
    summary='cancelled',updated_at=?] *)
Definition set_cancelled (now : Z) (r : JobRow) : JobRow :=
  {| r_ident := r_ident r; r_state := StateCancelled; r_reason := ReasonCancelled; r_updated_at := now;
     r_cancel_requested := true; r_attempt := r_attempt r; r_fence := r_fence r;
     r_lease_id := r_lease_id r; r_lease_holder := r_lease_holder r; r_lease_until := r_lease_until r;
     r_outcome := Some StateCancelled; r_summary := Some "cancelled"; r_result_ref := r_result_ref r |}.

(** [SET state=?,reason=?,outcome=?,summary=?,updated_at=?] *)
Definition set_propagated (state : State) (reason : Reason) (outcome : option State)
    (summary : option string) (now : Z) (r : JobRow) : JobRow :=
  {| r_ident := r_ident r; r_state := state; r_reason := reason; r_updated_at := now;
     r_cancel_requested := r_cancel_requested r; r_attempt := r_attempt r; r_fence := r_fence r;
     r_lease_id := r_lease_id r; r_lease_holder := r_lease_holder r; r_lease_until := r_lease_until r;
     r_outcome := outcome; r_summary := summary; r_result_ref := r_result_ref r |}.

(** [SET state=failed,reason=task_goal_unavailable,cancel_requested=0,outcome=failed,
    summary=?,result_ref=NULL,updated_at=?] *)
Definition set_goal_unavailable (now : Z) (r : JobRow) : JobRow :=
  {| r_ident := r_ident r; r_state := StateFailed; r_reason := ReasonTaskGoalUnavailable; r_updated_at := now;
     r_cancel_requested := false; r_attempt := r_attempt r; r_fence := r_fence r;
     r_lease_id := r_lease_id r; r_lease_holder := r_lease_holder r; r_lease_until := r_lease_until r;
     r_outcome := Some StateFailed; r_summary := Some TaskGoalUnavailableSummary; r_result_ref := None |}.

(** What [recoverExpired] makes of an expired lease: state, reason, outcome and
    summary. *)
Definition recovery (cancelled : bool) (attempt : Z) : State * Reason * option State * option string :=
  if cancelled then (StateCancelled, ReasonCancelled, Some StateCancelled, Some "cancelled")
  else if MaxLeaseAttempts <=? attempt
  then (StateFailed, ReasonRecoveryExhausted, Some StateFailed, Some "recovery_exhausted")
  else (StateQueued, ReasonLeaseExpired, None, None).

(** ** The job state machine

    One step per statement, with the guard under which the store executes it.
    [now] is the clock of the step. *)
Section Machine.
Context `{Redactor}.

Inductive row_step (now : Z) : JobRow -> JobRow -> Prop :=
| step_lease r lease_id holder until :
    r_state r = StateQueued -> MatchString leaseIDPattern lease_id = true ->
    MatchString holderPattern holder = true -> in_int64 until ->
    row_step now r (set_leased lease_id holder until now r)
| step_recover r state reason outcome summary :
    r_state r = StateLeased -> recovery (r_cancel_requested r) (r_attempt r) = (state, reason, outcome, summary) ->
    row_step now r (set_recovered state reason outcome summary now r)
| step_heartbeat r until :
    r_state r = StateLeased -> in_int64 until -> row_step now r (set_heartbeat until now r)
| step_complete r res ref :
    r_state r = StateLeased -> validateResult res = Ok tt ->
    (r_cancel_requested r = true -> res_Outcome res = StateCancelled) ->
    null_string ref = res_ResultRef res ->
    row_step now r (set_completed res ref now r)
| step_request r :
    r_state r = StateLeased -> row_step now r (set_cancel_requested now r)
| step_cancel r :
    r_state r = StateBlocked \/ r_state r = StateQueued -> row_step now r (set_cancelled now r)
| step_unblock r :
    r_state r = StateBlocked -> row_step now r (set_propagated StateQueued ReasonNone None None now r)
| step_dependency_failed r :
    r_state r = StateBlocked ->
    row_step now r (set_propagated StateFailed ReasonDependencyFailed (Some StateFailed)
                      (Some "dependency failed") now r).

(** ** What [scanJob] accepts *)
Definition header_ok (id : string) (i : JobIdent) : Prop :=
  MatchString jobIDPattern id = true /\
  validateSpec {| spec_IdempotencyKey := i_idempotency_key i; spec_Workspace := i_workspace i;
                  spec_Pool := i_pool i; spec_Profile := i_profile i;
                  spec_PayloadHash := i_payload_hash i; spec_Dependencies := [] |} = Ok tt.

Definition no_lease (r : JobRow) : Prop :=
  null_string (r_lease_id r) = "" /\ null_string (r_lease_holder r) = "" /\
  default zero_time (r_lease_until r) = zero_time.

Definition has_lease (r : JobRow) : Prop :=
  MatchString leaseIDPattern (null_string (r_lease_id r)) = true /\
  MatchString holderPattern (null_string (r_lease_holder r)) = true /\
  default zero_time (r_lease_until r) <> zero_time /\ wrapU64 (r_fence r) <> 0.

Definition row_result (r : JobRow) : Result :=
  {| res_Outcome := default StateEmpty (r_outcome r); res_Summary := null_string (r_summary r);
     res_ResultRef := null_string (r_result_ref r) |}.

(** The reasons each terminal state may carry. *)
Definition terminal_reason (state : State) (reason : Reason) : Prop :=
  match state with
  | StateSucceeded => reason = ReasonNone
  | StateFailed => reason = ReasonNone \/ reason = ReasonDependencyFailed
                   \/ reason = ReasonRecoveryExhausted \/ reason = ReasonTaskGoalUnavailable
  | StateCancelled => reason = ReasonNone \/ reason = ReasonCancelled
  | _ => False
  end.

Definition state_ok (r : JobRow) : Prop :=
  match r_state r with
  | StateBlocked =>
      r_reason r = ReasonDependencyPending /\ r_cancel_requested r = false /\ no_lease r /\
      default StateEmpty (r_outcome r) = StateEmpty
  | StateQueued =>
      (r_reason r = ReasonNone \/ r_reason r = ReasonLeaseExpired) /\ r_cancel_requested r = false /\
      no_lease r /\ default StateEmpty (r_outcome r) = StateEmpty
  | StateLeased =>
      has_lease r /\ default StateEmpty (r_outcome r) = StateEmpty /\
      (r_reason r = ReasonNone /\ r_cancel_requested r = false \/
       r_reason r = ReasonCancelRequested /\ r_cancel_requested r = true)
  | StateOther _ => False
  | state =>
      default StateEmpty (r_outcome r) = state /\ validateResult (row_result r) = Ok tt /\
      (no_lease r \/ has_lease r) /\ (r_cancel_requested r = true -> state = StateCancelled) /\
      terminal_reason state (r_reason r)
  end.

#[local] Create Rewrite HintDb okdb.
#[local] Hint Rewrite reject_if_ok @check_ok is_ok_true orb_false_iff andb_false_iff negb_false_iff
  negb_true_iff bool_decide_eq_true bool_decide_eq_false Z.ltb_ge : okdb.

Lemma scanJob_ok id r j :
  scanJob id r = Ok j <->
  j = job_of_row id r /\ 0 <= r_fence r /\ header_ok id (r_ident r) /\
  i_created_at (r_ident r) <> zero_time /\ r_updated_at r <> zero_time /\
  i_created_at (r_ident r) <= r_updated_at r /\ 0 <= r_attempt r /\ state_ok r.
Proof.
  unfold scanJob. destruct (Z.ltb_spec (r_fence r) 0) as [Hf|Hf]; [split; [done|lia]|].
  rewrite check_ok. unfold validateStoredJob, header_ok, IsZero, Before.
  destruct (_ || _) eqn:Eh.
  - split; [intros [? _]; done|]. intros (_ & _ & (H1 & H2) & H3 & H4 & H5 & H6 & _). exfalso.
    cbn [job_of_row j_ID j_IdempotencyKey j_Workspace j_Pool j_Profile j_PayloadHash j_CreatedAt
         j_UpdatedAt j_Attempt] in Eh.
    rewrite H1, H2, !bool_decide_false in Eh by done. cbn in Eh.
    apply orb_true_iff in Eh as [Eh|Eh]; apply Z.ltb_lt in Eh; lia.
  - cbn [job_of_row j_ID j_IdempotencyKey j_Workspace j_Pool j_Profile j_PayloadHash j_CreatedAt
         j_UpdatedAt j_Attempt] in Eh.
    autorewrite with okdb in Eh.
    cbn [job_of_row j_State j_Reason j_CancelRequested j_LeaseID j_LeaseHolder j_LeaseExpiresAt j_Outcome
         j_Fence j_Summary j_ResultRef].
    unfold state_ok, no_lease, has_lease, row_result.
    destruct (r_state r); cbn [terminal_reason]; autorewrite with okdb;
      destruct (r_cancel_requested r);
      try destruct (bool_decide_reflect (r_reason r = ReasonCancelRequested)); intuition congruence.
Qed.

(** ** The row invariant *)
Definition attempts_ok (r : JobRow) : Prop :=
  match r_state r with
  | StateBlocked => r_attempt r = 0
  | StateQueued => 0 <= r_attempt r < MaxLeaseAttempts
  | StateLeased => 1 <= r_attempt r <= MaxLeaseAttempts
  | _ => 0 <= r_attempt r <= MaxLeaseAttempts
  end.

Record row_inv (now : Z) (id : string) (r : JobRow) : Prop := {
  ri_scan : scanJob id r = Ok (job_of_row id r);
  ri_fence : r_fence r = r_attempt r;
  ri_attempt : attempts_ok r;
  ri_ref : terminal (r_state r) = false -> r_result_ref r = None;
  ri_now : r_updated_at r <= now;
  ri_created : in_int64 (i_created_at (r_ident r));
  ri_until : forall u, r_lease_until r = Some u -> in_int64 u;
}.

Lemma row_inv_mono now now' id r : now <= now' -> row_inv now id r -> row_inv now' id r.
Proof. intros Hle []. split; auto; lia. Qed.

Lemma in_int64_nonzero z : in_int64 z -> z <> zero_time.
Proof. unfold in_int64, two63, zero_time, Second. lia. Qed.

(** The parts of the invariant in terms of the columns. *)
Lemma row_inv_iff now id r :
  row_inv now id r <->
  (r_fence r = r_attempt r /\ attempts_ok r /\ header_ok id (r_ident r) /\
   in_int64 (i_created_at (r_ident r)) /\ i_created_at (r_ident r) <= r_updated_at r <= now /\
   r_updated_at r <> zero_time /\ state_ok r /\
   (terminal (r_state r) = false -> r_result_ref r = None) /\
   (forall u, r_lease_until r = Some u -> in_int64 u)).
Proof.
  split.
  - intros []. apply scanJob_ok in ri_scan0 as (_ & H1 & H2 & H3 & H4 & H5 & H6 & H7).
    split_and!; auto.
  - intros (H1 & H2 & H3 & H4 & H5 & H6 & H7 & H8 & H9). split; try done; try lia.
    apply scanJob_ok. split; [done|].
    assert (0 <= r_attempt r) by (unfold attempts_ok, MaxLeaseAttempts in H2; destruct (r_state r); lia).
    split_and!; try done; try lia. by apply in_int64_nonzero.
Qed.

End Machine.

(** ** The summaries the store writes itself

    They must pass the redaction filter, or the rows that carry them could not
    be read back. *)
Definition system_summaries : list string := ["cancelled"; "dependency failed"; "recovery_exhausted"; TaskGoalUnavailableSummary].

Class SystemSummaries `{Redactor} :=
  system_summaries_plain : forall s, s ∈ system_summaries -> redact s = (s, false).

#[export] Instance policy_system_summaries : SystemSummaries.
Proof.
  intros s Hs. repeat (apply elem_of_cons in Hs as [->|Hs]; [vm_compute; reflexivity|]).
  by apply elem_of_nil in Hs.
Qed.

Section Steps.
Context `{SystemSummaries}.

Lemma system_result_ok state summary :
  terminal state = true -> summary ∈ system_summaries ->
  validateResult {| res_Outcome := state; res_Summary := summary; res_ResultRef := "" |} = Ok tt.
Proof.
  intros Ht Hs. unfold validateResult. cbn [res_Outcome res_Summary res_ResultRef].
  rewrite (system_summaries_plain _ Hs). rewrite (bool_decide_true (summary = summary)) by done.
  assert (Hl : (Len summary <? 1) || (2048 <? Len summary) = false).
  { repeat (apply elem_of_cons in Hs as [->|Hs]; [done|]). by apply elem_of_nil in Hs. }
  rewrite Hl. destruct state; done.
Qed.

Lemma recovery_cases cancelled attempt state reason outcome summary :
  recovery cancelled attempt = (state, reason, outcome, summary) ->
  (cancelled = true /\ state = StateCancelled /\ reason = ReasonCancelled
     /\ outcome = Some StateCancelled /\ summary = Some "cancelled")
  \/ (cancelled = false /\ MaxLeaseAttempts <= attempt /\ state = StateFailed
     /\ reason = ReasonRecoveryExhausted /\ outcome = Some StateFailed /\ summary = Some "recovery_exhausted")
  \/ (cancelled = false /\ attempt < MaxLeaseAttempts /\ state = StateQueued
     /\ reason = ReasonLeaseExpired /\ outcome = None /\ summary = None).
Proof.
  unfold recovery. destruct cancelled; [intros [= <- <- <- <-]; by left|].
  destruct (Z.leb_spec MaxLeaseAttempts attempt); intros [= <- <- <- <-]; naive_solver.
Qed.

Lemma no_lease_null r : no_lease r -> (forall u, r_lease_until r = Some u -> in_int64 u) -> r_lease_until r = None.
Proof.
  intros (_ & _ & Hu) Hi. destruct (r_lease_until r) as [u|]; [|done]. simpl in Hu.
  specialize (Hi u eq_refl). apply in_int64_nonzero in Hi. done.
Qed.

(** What the invariant says about one row, and what a statement that refreshes
    [updated_at] must establish. *)
Lemma row_inv_facts {now id r} : row_inv now id r ->
  attempts_ok r /\ state_ok r /\ (terminal (r_state r) = false -> r_result_ref r = None) /\
  (forall u, r_lease_until r = Some u -> in_int64 u) /\ r_fence r = r_attempt r.
Proof. intros Hi%row_inv_iff. naive_solver. Qed.

Lemma row_inv_update now0 now id r r' :
  row_inv now0 id r -> now0 <= now -> in_int64 now ->
  r_ident r' = r_ident r -> r_updated_at r' = now -> r_fence r' = r_attempt r' ->
  attempts_ok r' -> state_ok r' -> (terminal (r_state r') = false -> r_result_ref r' = None) ->
  (forall u, r_lease_until r' = Some u -> in_int64 u) -> row_inv now id r'.
Proof.
  intros Hi Hle Hn Ei Eu Ef Ha Hs Hr Hu. apply row_inv_iff in Hi. apply row_inv_iff.
  pose proof (in_int64_nonzero _ Hn). rewrite Ei, Eu. naive_solver lia.
Qed.

Lemma wrapU64_fence (r : JobRow) : 1 <= r_fence r <= MaxLeaseAttempts -> wrapU64 (r_fence r) <> 0.
Proof.
  unfold MaxLeaseAttempts. intros Hf. rewrite wrapU64_id; [lia|]. unfold in_uint64, two64. lia.
Qed.

#[local] Ltac row_cbn :=
  cbv [set_leased set_recovered set_heartbeat set_completed set_cancel_requested set_cancelled
       set_propagated set_goal_unavailable attempts_ok state_ok no_lease has_lease row_result MaxLeaseAttempts] in *;
  cbn [r_ident r_state r_reason r_updated_at r_cancel_requested r_attempt r_fence r_lease_id
       r_lease_holder r_lease_until r_outcome r_summary r_result_ref null_string default from_option id
       terminal terminal_reason] in *.
#[local] Ltac use_system := apply system_result_ok; [done|]; unfold system_summaries; set_solver.

Section Step.
Context {now0 now : Z} {id : string} {r : JobRow}.
Hypotheses (Hinv : row_inv now0 id r) (Hle : now0 <= now) (Hnow : in_int64 now).

#[local] Ltac start E :=
  pose proof (row_inv_facts Hinv) as (Ha & Hs & Hr & Hl & Hf);
  eapply row_inv_update; [exact Hinv|exact Hle|exact Hnow|done|done|..]; row_cbn; try rewrite E in *; row_cbn;
  try lia; try done.

Lemma lease_inv lid holder until :
  r_state r = StateQueued -> MatchString leaseIDPattern lid = true ->
  MatchString holderPattern holder = true -> in_int64 until ->
  row_inv now id (set_leased lid holder until now r).
Proof.
  intros E M1 M2 Hu. start E.
  - destruct Hs as (_ & -> & _ & Ho). split_and!; auto; [by apply in_int64_nonzero|].
    rewrite Hf, wrapU64_id; [lia|]. unfold in_uint64, two64. lia.
  - by intros u [= <-].
Qed.

Lemma heartbeat_inv until :
  r_state r = StateLeased -> in_int64 until -> row_inv now id (set_heartbeat until now r).
Proof.
  intros E Hu. start E.
  - destruct Hs as ((M1 & M2 & _ & Hn) & Ho & Hc). split_and!; auto. by apply in_int64_nonzero.
  - by intros u [= <-].
Qed.

Lemma recover_inv state reason outcome summary :
  r_state r = StateLeased -> recovery (r_cancel_requested r) (r_attempt r) = (state, reason, outcome, summary) ->
  row_inv now id (set_recovered state reason outcome summary now r).
Proof.
  intros E Hrec. apply recovery_cases in Hrec.
  destruct Hrec as [(Hc & -> & -> & -> & ->)|[(Hc & Hn & -> & -> & -> & ->)|(Hc & Hn & -> & -> & -> & ->)]];
    start E; rewrite ?(Hr eq_refl), Hc; row_cbn; split_and!; auto; try done; use_system.
Qed.

Lemma complete_inv res ref :
  r_state r = StateLeased -> validateResult res = Ok tt ->
  (r_cancel_requested r = true -> res_Outcome res = StateCancelled) ->
  null_string ref = res_ResultRef res -> row_inv now id (set_completed res ref now r).
Proof.
  intros E Hres Hcan Href. pose proof (validateResult_terminal _ Hres) as Ht%terminal_spec.
  assert (Hres' : validateResult {| res_Outcome := res_Outcome res; res_Summary := res_Summary res;
                                    res_ResultRef := null_string ref |} = Ok tt)
    by (rewrite Href; by destruct res).
  destruct Ht as [Ht|[Ht|Ht]]; rewrite Ht in *; start E; try rewrite Ht in *; row_cbn; try lia; try done;
    destruct Hs as (Hhas & _ & Hc); split_and!; auto; naive_solver.
Qed.

Lemma request_inv : r_state r = StateLeased -> row_inv now id (set_cancel_requested now r).
Proof. intros E. start E. destruct Hs as (Hhas & Ho & _). naive_solver. Qed.

Lemma cancel_inv : r_state r = StateBlocked \/ r_state r = StateQueued -> row_inv now id (set_cancelled now r).
Proof.
  intros [E|E]; start E; rewrite (Hr eq_refl); row_cbn; destruct Hs as (_ & _ & Hno & _);
    split_and!; auto; use_system.
Qed.

Lemma unblock_inv :
  r_state r = StateBlocked -> row_inv now id (set_propagated StateQueued ReasonNone None None now r).
Proof. intros E. start E. destruct Hs as (_ & Hc & Hno & _). naive_solver. Qed.

Lemma dependency_failed_inv :
  r_state r = StateBlocked ->
  row_inv now id (set_propagated StateFailed ReasonDependencyFailed (Some StateFailed)
                    (Some "dependency failed") now r).
Proof.
  intros E. start E. rewrite (Hr eq_refl). row_cbn. destruct Hs as (_ & -> & Hno & _).
  split_and!; auto; try done. use_system.
Qed.

(** Not a step of the machine, but the row it leaves is readable too. *)
Lemma goal_unavailable_inv : r_state r = StateQueued \/ r_state r = StateBlocked -> row_inv now id (set_goal_unavailable now r).
Proof.
  intros [E|E]; start E; destruct Hs as (_ & _ & Hno & _); split_and!; auto; try done; use_system.
Qed.

End Step.

(** Every step of the state machine keeps the stored row readable and its
    counters in range. *)
Lemma row_step_inv now0 now id r r' :
  row_inv now0 id r -> now0 <= now -> in_int64 now -> row_step now r r' -> row_inv now id r'.
Proof.
  intros Hinv Hle Hnow Hstep. destruct Hstep; eauto using lease_inv, recover_inv, heartbeat_inv, complete_inv,
    request_inv, cancel_inv, unblock_inv, dependency_failed_inv.
Qed.

(** ** Facts of the state machine *)
Lemma row_step_legal now r r' : row_step now r r' ->
  r_state r' = r_state r \/ legalTransition (r_state r) (r_state r') = true.
Proof.
  destruct 1 as [? ? ? ? E|? ? ? ? ? E Hrec|? ? E|? ? ? E Hres|? E|? [E|E]|? E|? E]; cbn; rewrite ?E; auto; right.
  - apply recovery_cases in Hrec as [(_ & -> & _)|[(_ & _ & -> & _)|(_ & _ & -> & _)]]; done.
  - apply validateResult_terminal, terminal_spec in Hres as [->|[->| ->]]; done.
Qed.

Lemma row_step_active now r r' : row_step now r r' -> terminal (r_state r) = false.
Proof. destruct 1 as [? ? ? ? E|? ? ? ? ? E|? ? E|? ? ? E|? E|? [E|E]|? E|? E]; by rewrite E. Qed.

Lemma row_step_fence now r r' : row_step now r r' ->
  r_fence r <= r_fence r' /\ r_ident r' = r_ident r /\
  (r_state r = StateQueued -> r_state r' = StateLeased -> r_fence r' = r_fence r + 1).
Proof. destruct 1; cbn; split_and!; try done; try lia; congruence. Qed.

End Steps.
