(* ===== verification/WorkqueueStore.v ===== *)
(** * The work queue: [internal/workqueue/store.go] and [cleanup.go]

    The database tables, the statements the store executes on them, and the
    queue operations as computations of [Effects].  The mutex of the store makes
    every method atomic.  The clock readings, the random bytes and the row order
    of an unordered [SELECT] are arguments. *)

From S2P Require Import Prelude GoStrings GoRegexp Effects PolicyScan WorkqueueTypes Admission Fairness WorkqueueRows.

(** ** Tables *)
Record TaskWorkerRow := {
  tw_job_id : string;
  tw_goal_ref : string;
  tw_operation_id : string;
  tw_worktree_id : string;
  tw_workspace_id : string;
  tw_runtime_id : string;
  tw_worktree_cleaned : bool;
  tw_acceptance_receipt : string;
  tw_test_acceptance_receipt : string;
  tw_objective_receipt : string;
}.

Record TaskGroupRow := {
  tg_idempotency_key : string;
  tg_project_alias : string;
  tg_target_alias : string;
  tg_base_commit : string;
  tg_goal_hash : string;
  tg_pool : string;
  tg_profile : string;
  tg_worker_count : Z;
  tg_execution_timeout_seconds : Z;
  tg_acceptance_contract_version : Z;
  tg_acceptance_min_commits_ahead : Z;
  tg_acceptance_min_changed_paths : Z;
  tg_test_profile_id : string;
  tg_test_profile_digest : string;
  tg_objective_contract : string;
  tg_integration_contract : string;
  tg_integration_pins : string;
  tg_integration_receipt : string;
  tg_integration_source_task : string;
  tg_created_at : Z;
  tg_updated_at : Z;
}.

Record DB := {
  db_jobs : gmap string JobRow;
  db_dependencies : gset (string * string);
  db_task_workers : gmap (string * Z) TaskWorkerRow;
  db_task_groups : gmap string TaskGroupRow;
}.

Record Store := { st_config : Config; st_db : DB; st_fair : FairScheduler }.

Definition with_jobs (jobs : gmap string JobRow) (db : DB) : DB :=
  {| db_jobs := jobs; db_dependencies := db_dependencies db; db_task_workers := db_task_workers db;
     db_task_groups := db_task_groups db |}.
Definition with_dependencies (deps : gset (string * string)) (db : DB) : DB :=
  {| db_jobs := db_jobs db; db_dependencies := deps; db_task_workers := db_task_workers db;
     db_task_groups := db_task_groups db |}.
(** The tables that only the task operations write. *)
Definition task_tables (db : DB) : gmap (string * Z) TaskWorkerRow * gmap string TaskGroupRow :=
  (db_task_workers db, db_task_groups db).

(** The row order of a [SELECT] without [ORDER BY]. *)
Class SqlScan := {
  unordered : list string -> list string;
  unordered_perm : forall l, unordered l ≡ₚ l;
}.

(** ** Statements *)

(** [UPDATE jobs SET .. WHERE job_id=? AND ..]: the table and the rows affected. *)
Definition sql_update (id : string) (cond : JobRow -> bool) (set : JobRow -> JobRow)
    (jobs : gmap string JobRow) : gmap string JobRow * Z :=
  match jobs !! id with
  | Some r => if cond r then (<[id := set r]> jobs, 1) else (jobs, 0)
  | None => (jobs, 0)
  end.

Definition exec_update (e : error) (id : string) (cond : JobRow -> bool) (set : JobRow -> JobRow) : M DB Z :=
  let! db := mget in
  let! r := driver e (Some (sql_update id cond set (db_jobs db))) in
  do! mput (with_jobs (fst r) db) in
  mret (snd r).

(** [INSERT INTO jobs]: refused when the primary key or the unique
    [idempotency_key] is taken. *)
Definition sql_insert_job (id : string) (row : JobRow) (db : DB) : option DB :=
  if bool_decide (is_Some (db_jobs db !! id))
     || existsb (fun r => i_idempotency_key (r_ident r) =? i_idempotency_key (r_ident row))
                (map_to_list (db_jobs db)).*2
  then None else Some (with_jobs (<[id := row]> (db_jobs db)) db).

(** [INSERT INTO dependencies]: refused when the pair exists or a foreign key
    does not. *)
Definition sql_insert_dependency (job dep : string) (db : DB) : option DB :=
  if bool_decide ((job, dep) ∈ db_dependencies db)
     || negb (bool_decide (is_Some (db_jobs db !! job))) || negb (bool_decide (is_Some (db_jobs db !! dep)))
  then None else Some (with_dependencies ({[(job, dep)]} ∪ db_dependencies db) db).

Definition exec_insert (e : error) (stmt : DB -> option DB) : M DB unit :=
  let! db := mget in
  let! db' := driver e (stmt db) in
  mput db'.

(** [ORDER BY <column>,job_id] *)
Definition row_le (column : JobRow -> Z) (a b : string * JobRow) : Prop :=
  column (snd a) < column (snd b) \/ (column (snd a) = column (snd b) /\ str_le (fst a) (fst b)).
#[export] Instance row_le_dec column a b : Decision (row_le column a b).
Proof. unfold row_le. apply _. Defined.

(** [SELECT .. FROM jobs WHERE .. ORDER BY <column>,job_id LIMIT ?] *)
Definition select_jobs (cond : JobRow -> bool) (column : JobRow -> Z) (limit : Z) (db : DB)
    : list (string * JobRow) :=
  take (Z.to_nat limit)
       (merge_sort (row_le column) (filter (fun e => cond (snd e) = true) (map_to_list (db_jobs db)))).

(** [SELECT COUNT( * ) FROM jobs WHERE ..] *)
Definition count_jobs (cond : JobRow -> bool) (db : DB) : Z :=
  Z.of_nat (size (filter (fun e => cond (snd e) = true) (db_jobs db))).

(** [state IN (blocked,queued,leased)] *)
Definition active (r : JobRow) : bool :=
  (r_state r =? StateBlocked) || (r_state r =? StateQueued) || (r_state r =? StateLeased).

Definition dependencies_of (db : DB) (job : string) : list string :=
  sort_strings ((filter (fun p => fst p = job) (elements (db_dependencies db))).*2).
Definition dependents_of (db : DB) (dep : string) : list string :=
  sort_strings ((filter (fun p => snd p = dep) (elements (db_dependencies db))).*1).

(** [rand.Read] into 16 bytes fails or returns them. *)
Definition randomID {S} (e : error) (prefix : string) (body : option string) : M S string :=
  match body with
  | Some bytes => mret (prefix +:+ EncodeToString bytes)
  | None => mfail e
  end.

Definition sameStrings (left right : list string) : bool :=
  if (Z.of_nat (length left) <>? Z.of_nat (length right)) then false
  else sort_strings left =? sort_strings right.

Definition nullableString (value : string) : option string :=
  if value =? "" then None else Some value.

(** ** Transactions *)

(** The statements of a transaction run on a copy of the database ... *)
Definition tx {A} (db : DB) (body : M DB A) : M Store (A * DB) :=
  fun s fs =>
    match body db fs with
    | (Ok a, db', fs') => (Ok (a, db'), s, fs')
    | (Err e, _, fs') => (Err e, s, fs')
    end.
Definition set_db (db : DB) (s : Store) : Store :=
  {| st_config := st_config s; st_db := db; st_fair := st_fair s |}.
Definition set_fair (fair : FairScheduler) (s : Store) : Store :=
  {| st_config := st_config s; st_db := st_db s; st_fair := fair |}.
Definition begin_tx (e : error) : M Store DB := let! s := mget in driver e (Some (st_db s)).
(** ... which [Commit] makes the store's database. *)
Definition commit_tx (e : error) (db : DB) : M Store unit :=
  let! s := mget in do! driver e (Some tt) in mput (set_db db s).
(** A statement outside a transaction commits by itself. *)
Definition autocommit {A} (body : M DB A) : M Store A :=
  let! s := mget in
  let! r := tx (st_db s) body in
  do! mput (set_db (snd r) s) in
  mret (fst r).

Section Store.
Context `{Redactor} `{SqlScan}.

(** ** Reads *)
Definition read_job (row : option (string * JobRow)) : M DB (option Job) :=
  let! found := driver "workqueue: job read failed" (Some row) in
  match found with
  | None => mret None
  | Some (id, r) =>
      match scanJob id r with
      | Ok job => mret (Some job)
      | Err _ => mfail "workqueue: job read failed"
      end
  end.

Definition jobByID (id : string) : M DB (option Job) :=
  let! db := mget in read_job (pair id <$> db_jobs db !! id).

(** At most one row matches: the column is unique. *)
Definition jobByIdempotency (key : string) : M DB (option Job) :=
  let! db := mget in
  read_job (head (filter (fun e => i_idempotency_key (r_ident (snd e)) = key) (map_to_list (db_jobs db)))).

Definition dependencyIDs (id : string) : M DB (list string) :=
  let! db := mget in
  let! rows := driver "workqueue: dependency read failed" (Some (dependencies_of db id)) in
  let! (ids, failed) := fetch rows in
  do! mguard failed "workqueue: dependency read failed" in
  mret ids.

(** ** Dependencies *)
Fixpoint dependencyState_loop (blocked : bool) (dependencies : list string) : M DB (State * Reason) :=
  match dependencies with
  | [] => if blocked then mret (StateBlocked, ReasonDependencyPending) else mret (StateQueued, ReasonNone)
  | dependency :: rest =>
      let! found := jobByID dependency in
      match found with
      | None => mfail "workqueue: dependency not found"
      | Some job =>
          match j_State job with
          | StateSucceeded => dependencyState_loop blocked rest
          | StateFailed | StateCancelled => mret (StateFailed, ReasonDependencyFailed)
          | _ => dependencyState_loop true rest
          end
      end
  end.

Definition dependencyState (dependencies : list string) : M DB (State * Reason) :=
  match dependencies with
  | [] => mret (StateQueued, ReasonNone)
  | _ => dependencyState_loop false dependencies
  end.

(** The body of the inner loop of [propagate]; the result is the queue. *)
Definition propagate_dependent (now : time) (queue : list string) (dependentID : string) : M DB (list string) :=
  let! found := mtry (jobByID dependentID) in
  match found with
  | Err _ | Ok None => mfail "workqueue: dependent job unavailable"
  | Ok (Some dependent) =>
      if j_State dependent <>? StateBlocked then mret queue
      else
        let! dependencies := dependencyIDs dependentID in
        let! (state, reason) := dependencyState dependencies in
        if state =? StateBlocked then mret queue
        else
          do! mguard (negb (legalTransition StateBlocked state)) "workqueue: dependency transition is illegal" in
          let outcome := if terminal state then Some state else None in
          let summary := if terminal state then Some "dependency failed" else None in
          do! exec_update "workqueue: dependency update failed" dependentID
                (fun r => r_state r =? StateBlocked)
                (set_propagated state reason outcome summary (UnixNano now)) in
          mret (if terminal state then queue ++ [dependentID] else queue)
  end.

Definition out_of_fuel : error := "propagate: out of fuel".

Fixpoint propagate_loop (fuel : nat) (now : time) (queue : list string) (seen : gset string) : M DB unit :=
  match fuel with
  | O => mfail out_of_fuel
  | S fuel =>
      match queue with
      | [] => mret tt
      | dependency :: queue =>
          if bool_decide (dependency ∈ seen) then propagate_loop fuel now queue seen
          else
            let! db := mget in
            let! rows := driver "workqueue: dependency propagation failed" (Some (dependents_of db dependency)) in
            let! (dependents, _) := fetch rows in
            let! queue := mfold (propagate_dependent now) queue dependents in
            propagate_loop fuel now queue ({[dependency]} ∪ seen)
      end
  end.

(** Every round takes one job off the queue, and a job is queued when it stops
    being blocked, so the number of jobs bounds the rounds. *)
Definition propagate (terminalJobID : string) (now : time) : M DB unit :=
  let! db := mget in
  propagate_loop (2 + size (db_jobs db)) now [terminalJobID] ∅.

(** ** Enqueue *)
Definition Enqueue_tx (config : Config) (spec : Spec) (now : time) (random : option string)
    : M DB (sum Job string) :=
  let! existing := jobByIdempotency (spec_IdempotencyKey spec) in
  match existing with
  | Some existing =>
      let! dependencies := dependencyIDs (j_ID existing) in
      do! mguard ((j_Workspace existing <>? spec_Workspace spec) || (j_Pool existing <>? spec_Pool spec)
                  || (j_Profile existing <>? spec_Profile spec)
                  || (j_PayloadHash existing <>? spec_PayloadHash spec)
                  || negb (sameStrings dependencies (spec_Dependencies spec)))
            "workqueue: idempotency key conflicts" in
      mret (inl existing)
  | None =>
      let! db := mget in
      let! total := driver "workqueue: job count unavailable" (Some (count_jobs active db)) in
      let! workspaceCount := driver "workqueue: workspace count unavailable"
        (Some (count_jobs (fun r => (i_workspace (r_ident r) =? spec_Workspace spec) && active r) db)) in
      do! mguard (cfg_MaxJobs config <=? total) "workqueue: global job bound reached" in
      do! mguard (cfg_MaxJobsPerWorkspace config <=? workspaceCount) "workqueue: workspace job bound reached" in
      let! (state, reason) := dependencyState (spec_Dependencies spec) in
      let! jobID := randomID "workqueue: job identity unavailable" "wj_" random in
      let ident := {| i_idempotency_key := spec_IdempotencyKey spec; i_workspace := spec_Workspace spec;
                      i_pool := spec_Pool spec; i_profile := spec_Profile spec;
                      i_payload_hash := spec_PayloadHash spec; i_created_at := UnixNano now |} in
      let outcome := if state =? StateFailed then Some StateFailed else None in
      let summary := if state =? StateFailed then Some "dependency failed" else None in
      do! exec_insert "workqueue: job persistence failed"
            (sql_insert_job jobID (new_row ident state reason outcome summary)) in
      do! mfold (fun _ dependency =>
            exec_insert "workqueue: dependency persistence failed" (sql_insert_dependency jobID dependency))
            tt (spec_Dependencies spec) in
      mret (inr jobID)
  end.

Definition zero_job : Job :=
  {| j_ID := ""; j_IdempotencyKey := ""; j_Workspace := ""; j_Pool := ""; j_Profile := "";
     j_PayloadHash := ""; j_State := StateEmpty; j_Reason := ReasonNone; j_CreatedAt := zero_time;
     j_UpdatedAt := zero_time; j_CancelRequested := false; j_Attempt := 0; j_Fence := 0;
     j_LeaseID := ""; j_LeaseHolder := ""; j_LeaseExpiresAt := zero_time; j_Outcome := StateEmpty;
     j_Summary := ""; j_ResultRef := "" |}.

(** [job, _, err := s.getUnlocked(jobID)] *)
Definition getUnlocked (id : string) : M Store (option Job) :=
  let! s := mget in let! r := tx (st_db s) (jobByID id) in mret (fst r).

Definition Enqueue (spec : Spec) (now : time) (random : option string) : M Store (Job * bool) :=
  do! mlift (validateSpec spec) in
  let spec := canonicalSpec spec in
  let! s := mget in
  let! db := begin_tx "workqueue: enqueue transaction failed" in
  let! (outcome, db) := tx db (Enqueue_tx (st_config s) spec now random) in
  match outcome with
  | inl existing => mret (existing, false)
  | inr jobID =>
      do! commit_tx "workqueue: enqueue commit failed" db in
      let! job := getUnlocked jobID in
      mret (default zero_job job, true)
  end.

(** ** Lease recovery *)
Definition expired_at (now : time) (r : JobRow) : bool :=
  (r_state r =? StateLeased) && match r_lease_until r with Some u => u <=? UnixNano now | None => false end.

Definition recover_item (now : time) (_ : unit) (item : string * (bool * Z)) : M DB unit :=
  let '(id, (cancelled, attempt)) := item in
  let '(state, reason, outcome, summary) := recovery cancelled attempt in
  do! exec_update "workqueue: expired lease recovery failed" id (fun r => r_state r =? StateLeased)
        (set_recovered state reason outcome summary (UnixNano now)) in
  if terminal state then propagate id now else mret tt.

(** [SELECT job_id,cancel_requested,attempt FROM jobs WHERE state=? AND lease_until<=?] *)
Definition expired_items (now : time) (db : DB) : list (string * (bool * Z)) :=
  omap (fun id => r ← db_jobs db !! id;
                  if expired_at now r then Some (id, (r_cancel_requested r, r_attempt r)) else None)
       (unordered (map_to_list (db_jobs db)).*1).

Definition recoverExpired (now : time) : M DB unit :=
  let! db := mget in
  let! rows := driver "workqueue: expired lease scan failed" (Some (expired_items now db)) in
  let! (items, _) := fetch rows in
  do! driver "workqueue: expired lease scan failed" (Some tt) in
  mfold (recover_item now) tt items.

Definition RecoverExpired (now : time) : M Store unit :=
  let! db := begin_tx "workqueue: recovery transaction failed" in
  let! (_, db) := tx db (recoverExpired now) in
  commit_tx "workqueue: recovery commit failed" db.

(** ** Leasing *)
Definition lease_candidates (pool : string) (limit : Z) (db : DB) : list FairCandidate :=
  (fun e => {| fc_JobID := fst e; fc_Workspace := i_workspace (r_ident (snd e)); fc_Cost := 1;
               fc_CreatedAt := r_updated_at (snd e) |})
    <$> select_jobs (fun r => (i_pool (r_ident r) =? pool) && (r_state r =? StateQueued)
                              && negb (r_cancel_requested r))
                    r_updated_at limit db.

(** The statements of [LeaseNext] up to the choice of the job. *)
Definition lease_scan (pool : string) (maxJobs : Z) (now : time) : M DB (list FairCandidate) :=
  do! recoverExpired now in
  let! db := mget in
  let! rows := driver "workqueue: lease selection failed" (Some (lease_candidates pool maxJobs db)) in
  let! (candidates, failed) := fetch rows in
  do! mguard failed "workqueue: lease selection failed" in
  do! driver "workqueue: lease selection failed" (Some tt) in
  mret candidates.

(** The statements of [LeaseNext] after it. *)
Definition lease_update (jobID leaseID holder : string) (expires now : time) : M DB Job :=
  let! rowsAffected := exec_update "workqueue: lease update failed" jobID (fun r => r_state r =? StateQueued)
    (set_leased leaseID holder (UnixNano expires) (UnixNano now)) in
  do! mguard (rowsAffected <>? 1) "workqueue: lease lost race" in
  let! found := mtry (jobByID jobID) in
  match found with
  | Ok (Some job) => mret job
  | _ => mfail "workqueue: leased job unavailable"
  end.

Definition LeaseNext (pool holder : string) (ttl : duration) (now : time) (random : option string)
    : M Store Lease :=
  do! mguard (negb (MatchString poolPattern pool) || negb (MatchString holderPattern holder)
              || (ttl <? MinLeaseTTL) || (MaxLeaseTTL <? ttl)) "workqueue: lease request is invalid" in
  let! s := mget in
  let! db := begin_tx "workqueue: lease transaction failed" in
  let! (candidates, db) := tx db (lease_scan pool (cfg_MaxJobs (st_config s)) now) in
  match candidates with
  | [] =>
      do! commit_tx "workqueue: lease recovery commit failed" db in
      mfail ErrNoJobAvailable
  | _ =>
      let '(selected, fair) := Select (st_fair s) now candidates in
      do! mput (set_fair fair s) in
      match selected with
      | Err _ => mfail "workqueue: lease selection failed"
      | Ok selected =>
          let jobID := fc_JobID selected in
          let! leaseID := randomID "workqueue: lease identity unavailable" "wl_" random in
          let expires := TimeAdd now ttl in
          let! (job, db) := tx db (lease_update jobID leaseID holder expires now) in
          do! commit_tx "workqueue: lease commit failed" db in
          mret {| l_Job := job; l_ID := leaseID; l_Fence := j_Fence job; l_Attempt := j_Attempt job;
                  l_ExpiresAt := expires |}
      end
  end.

(** ** Heartbeat *)

(** The SQL driver refuses a [uint64] argument with the high bit set. *)
Definition sql_uint64 (fence : Z) : bool := fence <? two63.

Definition Heartbeat (jobID leaseID : string) (fence : Z) (ttl : duration) (now : time)
    : M Store HeartbeatStatus :=
  do! mguard (negb (MatchString jobIDPattern jobID) || negb (MatchString leaseIDPattern leaseID)
              || (fence =? 0) || (ttl <? MinLeaseTTL) || (MaxLeaseTTL <? ttl))
        "workqueue: heartbeat is invalid" in
  let expires := TimeAdd now ttl in
  do! mguard (negb (sql_uint64 fence)) "workqueue: heartbeat failed" in
  let! rows := autocommit (exec_update "workqueue: heartbeat failed" jobID
      (fun r => (r_state r =? StateLeased) && (r_lease_id r =? Some leaseID) && (r_fence r =? fence)
                && match r_lease_until r with Some u => UnixNano now <? u | None => false end)
      (set_heartbeat (UnixNano expires) (UnixNano now))) in
  do! mguard (rows <>? 1) "workqueue: active fenced lease not found" in
  let! s := mget in
  let! cancelled := driver "workqueue: heartbeat state unavailable"
    (r_cancel_requested <$> db_jobs (st_db s) !! jobID) in
  mret {| hb_ExpiresAt := expires; hb_CancelRequested := cancelled |}.

(** ** Completion

    The clock is read twice: [checked] for the lease, [now] for the update. *)
Definition Complete_tx (jobID leaseID : string) (fence : Z) (res : Result) (checked now : time)
    : M DB (option Job) :=
  let! found := mtry (jobByID jobID) in
  match found with
  | Err _ | Ok None => mfail "workqueue: job not found"
  | Ok (Some job) =>
      if terminal (j_State job) then
        if (j_LeaseID job =? leaseID) && (j_Fence job =? fence) && (j_Outcome job =? res_Outcome res)
           && (j_Summary job =? res_Summary res) && (j_ResultRef job =? res_ResultRef res)
        then mret (Some job)
        else mfail "workqueue: terminal completion conflicts"
      else
        do! mguard ((j_State job <>? StateLeased) || (j_LeaseID job <>? leaseID) || (j_Fence job <>? fence)
                    || negb (After (j_LeaseExpiresAt job) checked))
              "workqueue: stale fenced completion rejected" in
        do! mguard (j_CancelRequested job && (res_Outcome res <>? StateCancelled))
              "workqueue: cancelled job requires cancelled result" in
        do! mguard (negb (legalTransition (j_State job) (res_Outcome res)))
              "workqueue: illegal completion transition" in
        do! exec_update "workqueue: completion update failed" jobID
              (fun r => (r_state r =? StateLeased) && (r_lease_id r =? Some leaseID) && (r_fence r =? fence))
              (set_completed res (nullableString (res_ResultRef res)) (UnixNano now)) in
        do! propagate jobID now in
        mret None
  end.

Definition Complete (jobID leaseID : string) (fence : Z) (res : Result) (checked now : time) : M Store Job :=
  do! mguard (negb (MatchString jobIDPattern jobID) || negb (MatchString leaseIDPattern leaseID)
              || (fence =? 0) || negb (is_ok (validateResult res))) "workqueue: completion is invalid" in
  let! db := begin_tx "workqueue: completion transaction failed" in
  let! (replay, db) := tx db (Complete_tx jobID leaseID fence res checked now) in
  match replay with
  | Some job => mret job
  | None =>
      do! commit_tx "workqueue: completion commit failed" db in
      let! completed := getUnlocked jobID in
      mret (default zero_job completed)
  end.

(** ** Cancellation *)
Definition Cancel_tx (jobID : string) (now : time) : M DB (option Job) :=
  let! found := mtry (jobByID jobID) in
  match found with
  | Err _ | Ok None => mfail "workqueue: job not found"
  | Ok (Some job) =>
      if terminal (j_State job) then mret (Some job)
      else if j_State job =? StateLeased then
        do! exec_update "workqueue: running cancellation failed" jobID (fun r => r_state r =? StateLeased)
              (set_cancel_requested (UnixNano now)) in
        mret None
      else
        do! mguard (negb (legalTransition (j_State job) StateCancelled))
              "workqueue: cancellation transition is illegal" in
        do! exec_update "workqueue: cancellation failed" jobID (fun r => r_state r =? j_State job)
              (set_cancelled (UnixNano now)) in
        do! propagate jobID now in
        mret None
  end.

Definition Cancel (jobID : string) (now : time) : M Store Job :=
  do! mguard (negb (MatchString jobIDPattern jobID)) "workqueue: job id is invalid" in
  let! db := begin_tx "workqueue: cancel transaction failed" in
  let! (unchanged, db) := tx db (Cancel_tx jobID now) in
  match unchanged with
  | Some job => mret job
  | None =>
      do! commit_tx "workqueue: cancel commit failed" db in
      let! cancelled := getUnlocked jobID in
      mret (default zero_job cancelled)
  end.

(** ** Reads of the store *)
Definition Get (jobID : string) : M Store (option Job) :=
  do! mguard (negb (MatchString jobIDPattern jobID)) "workqueue: job id is invalid" in
  getUnlocked jobID.

(** The scan loop of a listing: the first unreadable row ends it. *)
Fixpoint scan_rows (e : error) (rows : list (string * JobRow)) : result (list Job) :=
  match rows with
  | [] => Ok []
  | (id, r) :: rows =>
      match scanJob id r with
      | Ok job => let? jobs := scan_rows e rows in Ok (job :: jobs)
      | Err _ => Err e
      end
  end.

Definition List_ (limit : Z) : M Store (list Job) :=
  do! mguard ((limit <? 1) || (MaxListResults <? limit)) "workqueue: list limit is invalid" in
  let! s := mget in
  let! rows := driver "workqueue: list failed"
    (Some (select_jobs (fun _ => true) (fun r => i_created_at (r_ident r)) limit (st_db s))) in
  let! (rows, failed) := fetch rows in
  let! jobs := mlift (scan_rows "workqueue: list result failed" rows) in
  do! mguard failed "rows.Err" in
  mret jobs.

Definition LeasesForHolder (pool holder : string) (limit : Z) : M Store (list Lease) :=
  do! mguard (negb (MatchString poolPattern pool) || negb (MatchString holderPattern holder)
              || (limit <? 1) || (MaxListResults <? limit)) "workqueue: lease list is invalid" in
  let! s := mget in
  let! rows := driver "workqueue: lease list failed"
    (Some (select_jobs (fun r => (i_pool (r_ident r) =? pool) && (r_lease_holder r =? Some holder)
                                 && (r_state r =? StateLeased)) r_updated_at limit (st_db s))) in
  let! (rows, failed) := fetch rows in
  let! jobs := mlift (scan_rows "workqueue: lease list result failed" rows) in
  do! mguard failed "rows.Err" in
  mret ((fun job => {| l_Job := job; l_ID := j_LeaseID job; l_Fence := j_Fence job;
                       l_Attempt := j_Attempt job; l_ExpiresAt := j_LeaseExpiresAt job |}) <$> jobs).

(** ** Retention: [cleanup.go]

    [DELETE] removes the selected jobs; [ON DELETE CASCADE] removes the rows of
    [dependencies] that name one as [job_id]. *)
Definition removable (db : DB) (cutoff : Z) (id : string) (r : JobRow) : bool :=
  ((r_state r =? StateSucceeded) || (r_state r =? StateFailed) || (r_state r =? StateCancelled))
  && (r_updated_at r <? cutoff)
  && forallb (fun p => snd p <>? id) (elements (db_dependencies db))
  && forallb (fun w => tw_job_id (snd w) <>? id) (map_to_list (db_task_workers db)).

Definition cleanup_ids (cutoff limit : Z) (db : DB) : list string :=
  (take (Z.to_nat limit)
     (merge_sort (row_le r_updated_at)
        (filter (fun e => removable db cutoff (fst e) (snd e) = true) (map_to_list (db_jobs db))))).*1.

Definition delete_jobs (ids : list string) (db : DB) : DB :=
  {| db_jobs := filter (fun e => fst e ∉ ids) (db_jobs db);
     db_dependencies := filter (fun p => fst p ∉ ids) (db_dependencies db);
     db_task_workers := db_task_workers db;
     db_task_groups := db_task_groups db |}.

Definition CleanupTerminal (retention : duration) (limit : Z) (now : time) : M Store Z :=
  do! mguard ((retention <? Minute) || (365 * 24 * Hour <? retention) || (limit <? 1) || (MaxListResults <? limit))
        "workqueue: cleanup request is invalid" in
  let cutoff := UnixNano (TimeAdd now (- retention)) in
  let! s := mget in
  let! ids := driver "workqueue: cleanup failed" (Some (cleanup_ids cutoff limit (st_db s))) in
  do! mput (set_db (delete_jobs ids (st_db s)) s) in
  driver "workqueue: cleanup result unavailable" (Some (Z.of_nat (length ids))).

End Store.
