(* ===== verification/WorkqueueInv.v ===== *)
(** * Invariants of the work queue

    The database invariant, how the transactions of the store move jobs along
    the state machine of [WorkqueueRows], and dependency propagation: it
    terminates, fails only on driver faults, and leaves no blocked job whose
    dependencies are decided. *)

From S2P Require Import Prelude GoStrings GoRegexp Effects PolicyScan WorkqueueTypes Admission Fairness WorkqueueRows WorkqueueStore.

(** ** Database invariants *)
Section Inv.
Context `{SystemSummaries}.

Definition jobs_inv (now : Z) (db : DB) : Prop := map_Forall (row_inv now) (db_jobs db).

Definition fk_ok (db : DB) : Prop :=
  forall j d, (j, d) ∈ db_dependencies db -> is_Some (db_jobs db !! j) /\ is_Some (db_jobs db !! d).

Definition failed_state (s : State) : Prop := s = StateFailed \/ s = StateCancelled.

(** A job waits for a dependency that is not decided, and none has failed. *)
Definition pending (db : DB) (j : string) : Prop :=
  (exists d r, (j, d) ∈ db_dependencies db /\ db_jobs db !! d = Some r /\ r_state r <> StateSucceeded) /\
  (forall d r, (j, d) ∈ db_dependencies db -> db_jobs db !! d = Some r -> ~ failed_state (r_state r)).

Definition blocked_ok (db : DB) : Prop :=
  forall j r, db_jobs db !! j = Some r -> r_state r = StateBlocked -> pending db j.

(** ** Evolution of the database *)
Definition db_evolves (now : Z) (db db' : DB) : Prop :=
  db_dependencies db' = db_dependencies db /\ task_tables db' = task_tables db /\
  forall id, option_Forall2 (rtc (row_step now)) (db_jobs db !! id) (db_jobs db' !! id).

#[global] Instance db_evolves_preorder now : PreOrder (db_evolves now).
Proof.
  split.
  - intros db. split_and!; [done..|]. intros id. reflexivity.
  - intros a b c (D1 & T1 & R1) (D2 & T2 & R2). split_and!; [congruence..|]. intros id.
    etrans; [apply R1|apply R2].
Qed.

Lemma evolves_update now db id r r' :
  db_jobs db !! id = Some r -> row_step now r r' ->
  db_evolves now db (with_jobs (<[id := r']> (db_jobs db)) db).
Proof.
  intros Hid Hstep. split_and!; [done..|]. intros k. cbn. rewrite lookup_insert. case_decide as E.
  - subst k. rewrite Hid. constructor. by apply rtc_once.
  - reflexivity.
Qed.

Lemma evolves_is_some now db db' id : db_evolves now db db' ->
  is_Some (db_jobs db !! id) <-> is_Some (db_jobs db' !! id).
Proof. intros (_ & _ & R). specialize (R id). inversion R; split; eauto; by intros []. Qed.

Lemma evolves_fk now db db' : db_evolves now db db' -> fk_ok db -> fk_ok db'.
Proof.
  intros He Hfk j d Hjd. pose proof He as (Hd & _). rewrite Hd in Hjd.
  rewrite <- !(evolves_is_some _ _ _ _ He). by apply Hfk.
Qed.

Lemma evolves_size now db db' : db_evolves now db db' -> size (db_jobs db') = size (db_jobs db).
Proof.
  intros He. rewrite <- !size_dom. f_equal. apply set_eq. intros id. rewrite !elem_of_dom.
  symmetry. by eapply evolves_is_some.
Qed.

Lemma jobs_inv_mono now now' db : now <= now' -> jobs_inv now db -> jobs_inv now' db.
Proof. intros Hle Hi id r Hr. eapply row_inv_mono; [exact Hle|]. by apply Hi. Qed.

Lemma jobs_inv_update now db id r r' :
  in_int64 now -> jobs_inv now db -> db_jobs db !! id = Some r -> row_step now r r' ->
  jobs_inv now (with_jobs (<[id := r']> (db_jobs db)) db).
Proof.
  intros Hn Hi Hid Hstep. apply map_Forall_insert_2; [|done].
  eapply row_step_inv; [by apply Hi|reflexivity|done|done].
Qed.

(** ** Rules for the statements *)
Lemma hoare_update F (P : DB -> Prop) e id cond set (Q : Z -> DB -> Prop) (E : error -> DB -> Prop) :
  (forall db r, P db -> db_jobs db !! id = Some r -> cond r = true ->
     Q 1 (with_jobs (<[id := set r]> (db_jobs db)) db)) ->
  (forall db, P db -> (forall r, db_jobs db !! id = Some r -> cond r = false) -> Q 0 db) ->
  (forall db, P db -> F true -> E e db) ->
  hoare F P (exec_update e id cond set) Q E.
Proof.
  intros H1 H2 H3 s fs HF Hs. unfold exec_update, mbind, mget, driver, mput, mret.
  destruct (next_fault fs) as [f fs'] eqn:En. apply (next_fault_inv _ _ _ _ HF) in En as [HF' Hf].
  destruct f; [split; auto|]. unfold sql_update. split; [|done].
  destruct (db_jobs s !! id) as [r|] eqn:Er; [destruct (cond r) eqn:Ec|]; cbn.
  - by apply H1.
  - destruct s. apply H2; [done|]. cbn in *. congruence.
  - destruct s. apply H2; [done|]. cbn in *. congruence.
Qed.

(** A computation that only reads: it leaves the database alone, fails only on
    a fault, and its result satisfies [R]. *)
Definition faulty (F : bool -> Prop) (e : error) : Prop := F true /\ e <> out_of_fuel.

Definition reads {A} (F : bool -> Prop) (P : DB -> Prop) (m : M DB A) (R : DB -> A -> Prop) : Prop :=
  forall D, P D -> hoare F (eq D) m (fun a db => db = D /\ R D a) (fun e db => db = D /\ faulty F e).

Lemma reads_hoare {A} F (P : DB -> Prop) (m : M DB A) R :
  reads F P m R ->
  hoare F P m (fun a db => P db /\ R db a) (fun e db => P db /\ faulty F e).
Proof.
  intros Hr s fs HF Hs. specialize (Hr s Hs s fs HF eq_refl).
  destruct (m s fs) as [[[a|e] s'] fs']; destruct Hr as [[-> ?] ?]; auto.
Qed.

Lemma reads_ret {A} F P (a : A) (R : DB -> A -> Prop) : (forall D, P D -> R D a) -> reads F P (mret a) R.
Proof. intros Hr D HD. apply hoare_ret. intros s <-. auto. Qed.

Lemma reads_bind {A B} F P (m : M DB A) (k : A -> M DB B) R1 R :
  reads F P m R1 -> (forall a, reads F (fun D => P D /\ R1 D a) (k a) R) -> reads F P (mbind m k) R.
Proof.
  intros Hm Hk D HD. eapply hoare_bind; [by apply Hm|]. intros a.
  intros s fs HF [-> HR]. by apply (Hk a D).
Qed.

Lemma reads_weaken {A} F (P P' : DB -> Prop) (m : M DB A) (R R' : DB -> A -> Prop) :
  reads F P' m R' -> (forall D, P D -> P' D) -> (forall D a, P D -> R' D a -> R D a) -> reads F P m R.
Proof.
  intros Hm HP HR D HD. eapply hoare_conseq; [by apply Hm, HP|done| |done]. naive_solver.
Qed.

(** Use a read under a stronger invariant. *)
Lemma hoare_reads {A} F (P P' : DB -> Prop) (m : M DB A) R :
  reads F P' m R -> (forall D, P D -> P' D) ->
  hoare F P m (fun a db => P db /\ R db a) (fun e _ => faulty F e).
Proof.
  intros Hr HP. eapply hoare_conseq; [apply reads_hoare, (reads_weaken _ P _ _ R _ Hr HP)|done|done|].
  - done.
  - by intros e s [_ ?].
Qed.

Lemma reads_jobByID F now id :
  reads F (jobs_inv now) (jobByID id) (fun D o => o = job_of_row id <$> db_jobs D !! id).
Proof.
  intros D HD s fs HF <-. unfold jobByID, read_job, mbind, mget, driver, mret, mfail.
  destruct (next_fault fs) as [f fs'] eqn:En. apply (next_fault_inv _ _ _ _ HF) in En as [HF' Hf].
  destruct f; [split; [|done]; split; [done|]; split; [auto|done]|]. destruct (db_jobs D !! id) as [r|] eqn:Er; cbn; [|done].
  rewrite (ri_scan _ _ _ (HD _ _ Er)). done.
Qed.

Lemma reads_dependencyIDs F P id :
  reads F P (dependencyIDs id) (fun D l => l = dependencies_of D id).
Proof.
  intros D HD. unfold dependencyIDs.
  eapply (hoare_bind _ _ _ (fun db s => s = D /\ db = D)); [apply hoare_get; by intros s <-|]. intros db.
  eapply (hoare_bind _ _ _ (fun rows s => s = D /\ rows = dependencies_of D id)).
  { apply hoare_driver; [by intros s a [-> ->] [= <-]|]. intros s [-> ->] [?|?]; [|done]. split; [done|]. by split. }
  intros rows. eapply (hoare_bind _ _ _ (fun r s => s = D /\ (r.2 = false /\ r.1 = dependencies_of D id \/ r.2 = true /\ F true))).
  { apply hoare_fetch; [intros s [-> ->]; auto|]. intros s l [-> ->] HF _. auto. }
  intros [ids failed]. cbn.
  eapply (hoare_bind _ _ _ (fun _ s => s = D /\ ids = dependencies_of D id));
    [apply hoare_guard|intros []; by apply hoare_ret].
  - intros s [-> [[? ?]|[? ?]]] ?; [congruence|]. split; [done|]. by split.
  - intros s [-> [[? ?]|[? ?]]] ?; [done|congruence].
Qed.

Lemma dependencies_of_spec db j d : d ∈ dependencies_of db j <-> (j, d) ∈ db_dependencies db.
Proof.
  unfold dependencies_of. rewrite sort_strings_elem, list_elem_of_fmap. split.
  - intros ([j' d'] & -> & Hin). apply list_elem_of_filter in Hin as [<- Hin]. by apply elem_of_elements.
  - intros Hin. exists (j, d). split; [done|]. apply list_elem_of_filter. by rewrite elem_of_elements.
Qed.

Lemma dependents_of_spec db j d : j ∈ dependents_of db d <-> (j, d) ∈ db_dependencies db.
Proof.
  unfold dependents_of. rewrite sort_strings_elem, list_elem_of_fmap. split.
  - intros ([j' d'] & -> & Hin). apply list_elem_of_filter in Hin as [<- Hin]. by apply elem_of_elements.
  - intros Hin. exists (j, d). split; [done|]. apply list_elem_of_filter. by rewrite elem_of_elements.
Qed.

(** ** [dependencyState] decides between waiting, ready and failed *)
Definition state_of (db : DB) (id : string) : option State := r_state <$> db_jobs db !! id.

(** The verdict over [deps] when [blocked] tells whether an earlier dependency
    is undecided. *)
Definition verdict_from (db : DB) (blocked : bool) (deps : list string) (verdict : State * Reason) : Prop :=
  (verdict = (StateFailed, ReasonDependencyFailed) /\
     exists d s, d ∈ deps /\ state_of db d = Some s /\ failed_state s) \/
  ((forall d s, d ∈ deps -> state_of db d = Some s -> ~ failed_state s) /\
   ((verdict = (StateBlocked, ReasonDependencyPending) /\
       (blocked = true \/ exists d s, d ∈ deps /\ state_of db d = Some s /\ s <> StateSucceeded)) \/
    (verdict = (StateQueued, ReasonNone) /\ blocked = false /\
       forall d, d ∈ deps -> state_of db d = Some StateSucceeded))).

Lemma verdict_from_cons db blocked d deps s v :
  state_of db d = Some s ->
  (failed_state s -> v = (StateFailed, ReasonDependencyFailed)) ->
  (~ failed_state s -> verdict_from db (blocked || (s <>? StateSucceeded)) deps v) ->
  verdict_from db blocked (d :: deps) v.
Proof.
  intros Hd Hf Hnf. unfold verdict_from in *.
  destruct (decide (s = StateFailed \/ s = StateCancelled)) as [Hs|Hs].
  { left. split; [auto|]. exists d, s. split; [left|done]. }
  specialize (Hnf Hs) as [(-> & d' & s' & Hin & ?)|(Hnone & Hrest)].
  { left. split; [done|]. exists d', s'. split; [by right|done]. }
  right. split.
  { intros d' s' [->|Hin]%elem_of_cons Hs'; [|eauto]. rewrite Hd in Hs'. injection Hs' as <-. done. }
  destruct Hrest as [(-> & Hb)|(-> & Hb & Hall)].
  - left. split; [done|]. destruct Hb as [Hb|(d' & s' & ? & ?)]; [|right; exists d', s'; set_solver].
    apply orb_true_iff in Hb as [?|Hb]; [by left|]. right. exists d, s. breflect. set_solver.
  - right. split; [done|]. apply orb_false_iff in Hb as [-> Hb]. breflect. subst s. split; [done|].
    intros d' [->|Hin]%elem_of_cons; auto.
Qed.

Lemma hoare_dependencyState_loop F now D deps blocked :
  jobs_inv now D ->
  hoare F (eq D) (dependencyState_loop blocked deps) (fun v db => db = D /\ verdict_from D blocked deps v)
    (fun e db => db = D /\ (faulty F e \/ exists d, d ∈ deps /\ db_jobs D !! d = None)).
Proof.
  intros HD. revert blocked. induction deps as [|d deps IH]; intros blocked; cbn [dependencyState_loop].
  { unfold verdict_from. destruct blocked; apply hoare_ret; intros db <-; (split; [done|]); right; set_solver. }
  eapply hoare_bind; [eapply hoare_conseq; [by apply (reads_jobByID F now d)|done|done|naive_solver]|].
  intros o s fs HF [-> Ho]. destruct (db_jobs D !! d) as [r|] eqn:Er; cbn in Ho; subst o.
  2:{ split; [|done]. split; [done|]. right. exists d. set_solver. }
  set (state := j_State (job_of_row d r)).
  assert (Hst : state_of D d = Some state) by (unfold state_of; by rewrite Er).
  assert (Hnext : forall b, ~ failed_state state -> b = blocked || (state <>? StateSucceeded) ->
    hoare F (eq D) (dependencyState_loop b deps) (fun v db => db = D /\ verdict_from D blocked (d :: deps) v)
      (fun e db => db = D /\ (faulty F e \/ exists d', d' ∈ d :: deps /\ db_jobs D !! d' = None))).
  { intros b Hnf ->. eapply hoare_conseq; [apply IH|done| |].
    - intros v db [-> Hv]. split; [done|]. by eapply verdict_from_cons.
    - intros e db [-> [?|(d' & ? & ?)]]; [auto|]. split; [done|]. right. exists d'. set_solver. }
  assert (Hfail : failed_state state -> verdict_from D blocked (d :: deps) (StateFailed, ReasonDependencyFailed)).
  { intros Hf. eapply verdict_from_cons; [exact Hst|done|done]. }
  unfold failed_state in *. cbn [job_of_row j_State] in state. unfold state in *. cbn [job_of_row j_State].
  destruct (r_state r);
    first [apply Hnext; [naive_solver|by destruct blocked|done|done] | split; [split; [done|by auto]|done]].
Qed.

Lemma hoare_dependencyState F now D deps :
  jobs_inv now D ->
  hoare F (eq D) (dependencyState deps) (fun v db => db = D /\ verdict_from D false deps v)
    (fun e db => db = D /\ (faulty F e \/ exists d, d ∈ deps /\ db_jobs D !! d = None)).
Proof.
  intros HD. unfold dependencyState. destruct deps as [|d deps]; [|by eapply hoare_dependencyState_loop].
  apply hoare_ret. intros db <-. split; [done|]. right. set_solver.
Qed.

Lemma reads_dependencyState F now deps :
  reads F (fun D => jobs_inv now D /\ (forall d, d ∈ deps -> is_Some (db_jobs D !! d)))
    (dependencyState deps) (fun D v => verdict_from D false deps v).
Proof.
  intros D [HD Hall]. eapply hoare_conseq; [by eapply hoare_dependencyState|done|done|].
  intros e db [-> [?|(d & Hd & Hn)]]; [done|]. destruct (Hall d Hd). congruence.
Qed.

(** ** Propagation *)
Definition blocked_count (db : DB) : nat :=
  size (filter (fun e => r_state (snd e) = StateBlocked) (db_jobs db)).

Lemma blocked_count_update db id r r' :
  db_jobs db !! id = Some r -> r_state r = StateBlocked -> r_state r' <> StateBlocked ->
  S (blocked_count (with_jobs (<[id := r']> (db_jobs db)) db)) = blocked_count db.
Proof.
  intros Hid Hb Hnb. unfold blocked_count. cbn.
  rewrite map_filter_insert_False by done. rewrite map_filter_delete.
  assert (Hin : filter (fun e : string * JobRow => r_state e.2 = StateBlocked) (db_jobs db) !! id = Some r)
    by (by apply map_lookup_filter_Some).
  rewrite map_size_delete, Hin. cbn.
  assert (size (filter (fun e : string * JobRow => r_state e.2 = StateBlocked) (db_jobs db)) <> 0)%nat; [|lia].
  rewrite map_size_ne_0_lookup. eauto.
Qed.

Lemma blocked_count_le db : (blocked_count db <= size (db_jobs db))%nat.
Proof. unfold blocked_count. apply map_size_filter. Qed.

Lemma state_of_update db id r' k :
  state_of (with_jobs (<[id := r']> (db_jobs db)) db) k =
  if decide (id = k) then Some (r_state r') else state_of db k.
Proof. unfold state_of. cbn. rewrite lookup_insert. by case_decide. Qed.

Lemma pending_iff db j : pending db j <->
  (exists d s, (j, d) ∈ db_dependencies db /\ state_of db d = Some s /\ s <> StateSucceeded) /\
  (forall d s, (j, d) ∈ db_dependencies db -> state_of db d = Some s -> ~ failed_state s).
Proof.
  unfold pending, state_of. split; intros [(d & x & Hd & Hx & Hs) Hall]; split.
  - exists d, (r_state x). by rewrite Hx.
  - intros d' s' Hd' Hs'. apply fmap_Some in Hs' as (r' & ? & ->). eauto.
  - apply fmap_Some in Hx as (r' & ? & ->). eauto.
  - intros d' r' Hd' Hr'. apply (Hall d'); [done|]. by rewrite Hr'.
Qed.

(** Taking a job out of [blocked] leaves the others waiting as before, except
    those that depend on it when it failed. *)
Lemma pending_update db id r' j :
  state_of db id = Some StateBlocked -> r_state r' = StateQueued \/ r_state r' = StateFailed ->
  pending db j ->
  pending (with_jobs (<[id := r']> (db_jobs db)) db) j \/
  (r_state r' = StateFailed /\ (j, id) ∈ db_dependencies db).
Proof.
  intros Hid Hr' Hp. apply pending_iff in Hp as [(d & s & Hd & Hs & Hns) Hall].
  destruct (decide ((j, id) ∈ db_dependencies db /\ r_state r' = StateFailed)) as [?|Hno]; [naive_solver|].
  left. apply pending_iff. cbn. split.
  - exists d. destruct (decide (id = d)) as [->|Hne].
    + exists (r_state r'). rewrite state_of_update, decide_True by done.
      split_and!; [done..|]. destruct Hr' as [->| ->]; done.
    + exists s. by rewrite state_of_update, decide_False.
  - intros d' s' Hd' Hs'. rewrite state_of_update in Hs'. case_decide as E; [|by eapply Hall].
    injection Hs' as <-. subst d'.
    destruct Hr' as [Hr'|Hr']; rewrite Hr' in *; [by intros [?|?]|naive_solver].
Qed.

Section Propagate.
Context (F : bool -> Prop) (now : time) (db0 dbs : DB) (bound : nat).
#[local] Abbreviation n := (UnixNano now).

(** The part of the invariant every statement keeps. *)
Record tx_inv (db : DB) : Prop := {
  ti_evolves : db_evolves n db0 db;
  ti_jobs : jobs_inv n db;
  ti_fk : fk_ok db;
}.

(** Only blocked jobs change. *)
Definition frame (db1 db2 : DB) : Prop :=
  forall id r, db_jobs db1 !! id = Some r -> r_state r <> StateBlocked -> db_jobs db2 !! id = Some r.

(** Every blocked job is waiting, or one of its dependencies is still in the
    queue, or it is one of [rest], the dependents still to be visited. *)
Definition waiting (queue : list string) (seen : gset string) (rest : list string) (db : DB) : Prop :=
  forall j, state_of db j = Some StateBlocked ->
    pending db j \/ (exists d, d ∈ queue /\ d ∉ seen /\ (j, d) ∈ db_dependencies db) \/ j ∈ rest.

Record prop_inv (queue : list string) (seen : gset string) (rest : list string) (db : DB) : Prop := {
  pi_tx : tx_inv db;
  pi_frame : frame dbs db;
  pi_bound : (length queue + blocked_count db <= bound)%nat;
  pi_seen : forall d, d ∈ seen \/ d ∈ queue -> state_of db d <> Some StateBlocked;
  pi_rest : forall j, j ∈ rest -> is_Some (db_jobs db !! j);
  pi_waiting : F true \/ waiting queue seen rest db;
}.

Lemma UnixNano_int64 t : in_int64 (UnixNano t).
Proof.
  unfold UnixNano, wrap64, in_int64, two63, two64.
  pose proof (Z.mod_pos_bound (t + 9223372036854775808) 18446744073709551616). lia.
Qed.

Lemma tx_inv_update db id r r' :
  tx_inv db -> db_jobs db !! id = Some r -> row_step n r r' ->
  tx_inv (with_jobs (<[id := r']> (db_jobs db)) db).
Proof.
  intros [He Hj Hfk] Hid Hstep.
  assert (He' : db_evolves n db (with_jobs (<[id := r']> (db_jobs db)) db)) by (by apply (evolves_update _ _ _ r)).
  split; [by etrans| |by eapply evolves_fk].
  eapply jobs_inv_update; [apply UnixNano_int64|done|exact Hid|done].
Qed.

Lemma prop_inv_skip queue seen j rest db :
  prop_inv queue seen (j :: rest) db -> (state_of db j = Some StateBlocked -> F true \/ pending db j) ->
  prop_inv queue seen rest db.
Proof.
  intros [Ht Hfr Hb Hs Hr Hw] Hj. split; try done; [set_solver|].
  destruct Hw as [?|Hw]; [by left|].
  destruct (decide (state_of db j = Some StateBlocked)) as [Eb|Eb].
  - destruct (Hj Eb) as [?|Hp]; [by left|]. right. intros k Hk.
    destruct (Hw k Hk) as [?|[?|[->|?]%elem_of_cons]]; auto.
  - right. intros k Hk. destruct (Hw k Hk) as [?|[?|[->|?]%elem_of_cons]]; auto. done.
Qed.

Lemma prop_inv_move queue seen j rest db r r' :
  prop_inv queue seen (j :: rest) db -> db_jobs db !! j = Some r -> r_state r = StateBlocked ->
  row_step n r r' -> r_state r' = StateQueued \/ r_state r' = StateFailed ->
  prop_inv (if terminal (r_state r') then queue ++ [j] else queue) seen rest
           (with_jobs (<[j := r']> (db_jobs db)) db).
Proof.
  intros [Ht Hfr Hb Hs Hr Hw] Hj Eb Hstep Hst.
  assert (Hjb : state_of db j = Some StateBlocked) by (unfold state_of; by rewrite Hj, <- Eb).
  assert (Hne : r_state r' <> StateBlocked) by (destruct Hst as [->| ->]; done).
  split.
  - by eapply tx_inv_update.
  - intros id x Hx Hnx. cbn. rewrite lookup_insert_ne; [by apply Hfr|]. intros <-.
    specialize (Hfr _ _ Hx Hnx). congruence.
  - pose proof (blocked_count_update db j r r' Hj Eb Hne).
    destruct (terminal _); rewrite ?length_app; simpl; lia.
  - intros d Hd. rewrite state_of_update. case_decide as E; [congruence|]. apply Hs.
    destruct Hd as [?|Hd]; [auto|]. destruct (terminal _); [|auto].
    apply elem_of_app in Hd as [?| ->%list_elem_of_singleton]; [auto|done].
  - intros k Hk. cbn. rewrite lookup_insert_is_Some'. right. apply Hr. by right.
  - destruct Hw as [?|Hw]; [by left|]. right. intros k. rewrite state_of_update.
    case_decide as E; [congruence|]. intros Hk.
    destruct (Hw k Hk) as [Hp|[(d & Hd1 & Hd2 & Hd3)|[->|?]%elem_of_cons]]; [| |done|auto].
    + destruct (pending_update db j r' k Hjb Hst Hp) as [?|[Hf Hd]]; [auto|]. right. left.
      exists j. rewrite Hf. split_and!; [set_solver| |done]. intros Hin. by apply (Hs j); [left|].
    + right. left. exists d. split_and!; [destruct (terminal _); set_solver|done|done].
Qed.

Lemma verdict_pending db j :
  verdict_from db false (dependencies_of db j) (StateBlocked, ReasonDependencyPending) -> pending db j.
Proof.
  intros [[? _]|(Hnone & [(_ & [?|(d & s & Hd & Hs & Hne)])|(? & _)])]; try done.
  apply pending_iff. split.
  - exists d, s. by rewrite dependencies_of_spec in Hd.
  - intros d' s' Hd'. apply Hnone. by apply dependencies_of_spec.
Qed.

(** What the loop body does with the verdict on a blocked dependent. *)
Definition apply_verdict (queue : list string) (dependentID : string) (v : State * Reason) : M DB (list string) :=
  let (state, reason) := v in
  if state =? StateBlocked then mret queue
  else
    do! mguard (negb (legalTransition StateBlocked state)) "workqueue: dependency transition is illegal" in
    let outcome := if terminal state then Some state else None in
    let summary := if terminal state then Some "dependency failed" else None in
    do! exec_update "workqueue: dependency update failed" dependentID
          (fun r => r_state r =? StateBlocked)
          (set_propagated state reason outcome summary (UnixNano now)) in
    mret (if terminal state then queue ++ [dependentID] else queue).

Lemma hoare_apply_verdict queue seen j rest v :
  hoare F (fun db => (prop_inv queue seen (j :: rest) db /\ state_of db j = Some StateBlocked) /\
                     verdict_from db false (dependencies_of db j) v)
    (apply_verdict queue j v) (fun queue' => prop_inv queue' seen rest) (fun e _ => faulty F e).
Proof.
  destruct v as [state reason]. unfold apply_verdict.
  set (P := fun db => prop_inv queue seen (j :: rest) db /\ state_of db j = Some StateBlocked).
  destruct (bool_decide_reflect (state = StateBlocked)) as [->|Hnb].
  { apply hoare_ret. intros db [[Hp _] Hv]. apply (prop_inv_skip _ _ j); [done|]. intros _. right.
    apply verdict_pending. assert (reason = ReasonDependencyPending) as ->; [|done].
    destruct Hv as [[? _]|(_ & [([= ->] & _)|(? & _)])]; done. }
  eapply (hoare_bind _ _ _ (fun _ db => P db /\
     ((state, reason) = (StateFailed, ReasonDependencyFailed) \/ (state, reason) = (StateQueued, ReasonNone)))).
  { apply hoare_guard.
    - intros db [_ Hv] Hl. exfalso. destruct Hv as [[[= -> ->] _]|(_ & [([= -> ->] & _)|([= -> ->] & _)])]; done.
    - intros db [HP Hv] _. split; [done|]. destruct Hv as [[? _]|(_ & [([= -> ->] & _)|(? & _)])]; auto. done. }
  intros [].
  eapply (hoare_bind _ _ _ (fun _ db => prop_inv (if terminal state then queue ++ [j] else queue) seen rest db));
    [|intros; by apply hoare_ret].
  apply hoare_update.
  - intros db r [[Hp Hj] Hsr] Hr Hc. apply bool_decide_eq_true in Hc.
    set (r' := set_propagated _ _ _ _ _ _).
    change state with (r_state r') at 1. eapply (prop_inv_move _ _ j _ _ r); [done|done|done| |].
    + unfold r'. destruct Hsr as [[= -> ->]|[= -> ->]]; [by apply step_dependency_failed|by apply step_unblock].
    + destruct Hsr as [[= -> ->]|[= -> ->]]; auto.
  - intros db [[Hp Hj] _] Hno. exfalso. unfold state_of in Hj. destruct (db_jobs db !! j) as [r|]; [|done].
    injection Hj as Hj. specialize (Hno r eq_refl). by apply bool_decide_eq_false in Hno.
  - intros db _ HF. by split.
Qed.

Lemma hoare_propagate_dependent queue seen j rest :
  hoare F (prop_inv queue seen (j :: rest)) (propagate_dependent now queue j)
    (fun queue' => prop_inv queue' seen rest) (fun e _ => faulty F e).
Proof.
  unfold propagate_dependent.
  eapply (hoare_bind _ _ _ (fun o db =>
            match o with
            | Ok a => prop_inv queue seen (j :: rest) db /\ a = job_of_row j <$> db_jobs db !! j
            | Err _ => F true
            end)).
  { apply hoare_try. eapply hoare_conseq;
      [apply (hoare_reads _ (prop_inv queue seen (j :: rest)) _ _ _ (reads_jobByID F n j))|done|done|].
    - intros D HD. apply HD.
    - by intros e db [? _]. }
  intros [[job|]|e].
  2:{ apply hoare_fail. intros db [Hp E]. exfalso.
      destruct (pi_rest _ _ _ _ Hp j) as [r Hr]; [left|]. by rewrite Hr in E. }
  2:{ apply hoare_fail. intros db HF. by split. }
  destruct (bool_decide_reflect (j_State job = StateBlocked)) as [Eb|Eb]; cbn [negb].
  2:{ apply hoare_ret. intros db [Hp E]. apply (prop_inv_skip _ _ j); [done|]. unfold state_of. intros E'.
      destruct (db_jobs db !! j) as [r|]; [|done]. injection E as ->. by injection E' as E'. }
  set (P := fun db => prop_inv queue seen (j :: rest) db /\ state_of db j = Some StateBlocked).
  eapply (hoare_bind _ _ _ (fun deps db => P db /\ deps = dependencies_of db j)).
  { eapply hoare_pre; [|apply (hoare_reads _ P _ _ _ (reads_dependencyIDs F P j)); done].
    intros db [Hp E]. split; [done|]. unfold state_of. destruct (db_jobs db !! j) as [r|]; [|done].
    injection E as ->. by rewrite <- Eb. }
  intros deps.
  eapply (hoare_bind _ _ _ (fun v db => P db /\ verdict_from db false (dependencies_of db j) v)).
  { eapply hoare_conseq;
      [apply (hoare_reads _ (fun db => P db /\ deps = dependencies_of db j) _ _ _ (reads_dependencyState F n deps))
      |done|intros v db [[HP E] Hv]; rewrite E in Hv; exact (conj HP Hv)|done].
    intros D [[Hp _] ->]. destruct (pi_tx _ _ _ _ Hp) as [_ Hj Hfk]. split; [done|].
    intros d Hd. apply dependencies_of_spec in Hd. by destruct (Hfk _ _ Hd). }
  intros [state reason]. apply (hoare_apply_verdict queue seen j rest (state, reason)).
Qed.

End Propagate.

(** Taking a job off the queue. *)
Lemma prop_inv_pop_seen F now db0 dbs m d queue seen db :
  prop_inv F now db0 dbs (S m) (d :: queue) seen [] db -> d ∈ seen -> prop_inv F now db0 dbs m queue seen [] db.
Proof.
  intros [Ht Hfr Hb Hs Hr Hw] Hd. split; [done|done|simpl in Hb; lia|set_solver|done|].
  destruct Hw as [?|Hw]; [by left|]. right. intros j Hj.
  destruct (Hw j Hj) as [?|[(d' & [->|?]%elem_of_cons & ? & ?)|?]]; [auto|done| |auto].
  right. left. eauto.
Qed.

Lemma prop_inv_pop F now db0 dbs m d queue seen rest db :
  prop_inv F now db0 dbs (S m) (d :: queue) seen [] db -> F true /\ rest `prefix_of` dependents_of db d \/ rest = dependents_of db d ->
  prop_inv F now db0 dbs m queue ({[d]} ∪ seen) rest db.
Proof.
  intros [Ht Hfr Hb Hs Hr Hw] Hrest.
  assert (Hsub : forall j, j ∈ rest -> j ∈ dependents_of db d).
  { destruct Hrest as [[_ [l ->]]| ->]; set_solver. }
  split; [done|done|simpl in Hb; lia|set_solver| |].
  { intros j Hj%Hsub%dependents_of_spec. by destruct (ti_fk _ _ _ Ht _ _ Hj). }
  destruct Hrest as [[? _]| ->]; [by left|]. destruct Hw as [?|Hw]; [by left|]. right. intros j Hj.
  destruct (Hw j Hj) as [?|[(d' & Hd' & ? & ?)|?]]; [auto| |set_solver].
  destruct (decide (d' = d)) as [->|Hne]; [right; right; by apply dependents_of_spec|].
  right. left. exists d'. set_solver.
Qed.

Lemma prop_inv_done F now db0 dbs m seen db : prop_inv F now db0 dbs m [] seen [] db -> F true \/ blocked_ok db.
Proof.
  intros [_ _ _ _ _ [?|Hw]]; [by left|]. right. intros j r Hr Eb.
  destruct (Hw j) as [?|[(d & Hd & _)|Hj]]; [unfold state_of; by rewrite Hr, <- Eb|done|..];
    by apply elem_of_nil in Hd || by apply elem_of_nil in Hj.
Qed.

Lemma hoare_propagate_loop F now db0 dbs m queue seen :
  hoare F (prop_inv F now db0 dbs m queue seen []) (propagate_loop (S m) now queue seen)
    (fun _ db => (tx_inv now db0 db /\ frame dbs db) /\ (F true \/ blocked_ok db)) (fun e _ => faulty F e).
Proof.
  revert queue seen. induction m as [|m IH]; intros queue seen.
  { cbn [propagate_loop]. destruct queue as [|d queue].
    - apply hoare_ret. intros db Hp. split; [split; apply Hp|by eapply prop_inv_done].
    - intros s fs HF Hp. pose proof (pi_bound _ _ _ _ _ _ _ _ _ Hp) as Hb. simpl in Hb. lia. }
  cbn [propagate_loop]. destruct queue as [|d queue].
  { apply hoare_ret. intros db Hp. split; [split; apply Hp|by eapply prop_inv_done]. }
  case_bool_decide as Hd.
  { eapply hoare_pre; [|apply IH]. intros db Hp. by eapply prop_inv_pop_seen. }
  set (P := prop_inv F now db0 dbs (S m) (d :: queue) seen []).
  eapply (hoare_bind _ _ _ (fun D db => P db /\ D = db)); [by apply hoare_get|]. intros D.
  eapply (hoare_bind _ _ _ (fun rows db => P db /\ rows = dependents_of db d)).
  { apply hoare_driver; [by intros db rows [? ->] [= <-]|]. intros db _ [?|?]; [by split|done]. }
  intros rows.
  eapply (hoare_bind _ _ _ (fun r db => P db /\ (F true /\ r.1 `prefix_of` dependents_of db d \/ r.1 = dependents_of db d))).
  { apply hoare_fetch; [intros db [? ->]; auto|]. intros db l [? ->] ? ?. auto. }
  intros [dependents failed]. cbn [fst].
  eapply hoare_bind; [|intros queue'; apply IH].
  eapply hoare_pre; [|apply (hoare_mfold (fun rest q => prop_inv F now db0 dbs m q ({[d]} ∪ seen) rest))].
  - intros db [Hp Hrest]. by eapply prop_inv_pop.
  - intros j rest q. apply hoare_propagate_dependent.
Qed.

(** Propagation from a job that has just become terminal: the database moves
    along the state machine, an error means a driver fault, and without faults
    every blocked job is waiting for an undecided dependency again. *)
Definition propagate_pre (F : bool -> Prop) (now : time) (db0 dbs : DB) (id : string) (db : DB) : Prop :=
  (tx_inv now db0 db /\ frame dbs db) /\ state_of db id <> Some StateBlocked /\
  (F true \/ forall j, state_of db j = Some StateBlocked -> pending db j \/ (j, id) ∈ db_dependencies db).

Lemma hoare_propagate F now db0 dbs id :
  hoare F (propagate_pre F now db0 dbs id) (propagate id now)
    (fun _ db => (tx_inv now db0 db /\ frame dbs db) /\ (F true \/ blocked_ok db)) (fun e _ => faulty F e).
Proof.
  unfold propagate.
  eapply (hoare_bind _ _ _ (fun D db => propagate_pre F now db0 dbs id db /\ D = db)); [by apply hoare_get|].
  intros D. change (2 + size (db_jobs D))%nat with (S (1 + size (db_jobs D))).
  eapply hoare_pre; [|apply hoare_propagate_loop]. intros db [((Ht & Hfr) & Hid & Hw) ->].
  split; [done|done| |set_solver|by intros j ?%elem_of_nil|].
  - pose proof (blocked_count_le db). simpl. lia.
  - destruct Hw as [?|Hw]; [by left|]. right. intros j Hj. destruct (Hw j Hj); [auto|].
    right. left. exists id. set_solver.
Qed.

End Inv.
