(* ===== verification/WorkqueueOps.v ===== *)
(** * The transactions of the work queue

    What each operation of [WorkqueueStore] does to the database, for every
    driver fault and on every path. *)

From S2P Require Import Prelude GoStrings GoRegexp Effects PolicyScan WorkqueueTypes Admission Fairness WorkqueueRows WorkqueueStore WorkqueueInv.

Section Ops.
Context `{SystemSummaries} `{SqlScan}.

(** The invariant of a transaction that started from [db0]. *)
Definition tx_ok (F : bool -> Prop) (now : time) (db0 db : DB) : Prop :=
  tx_inv now db0 db /\ (F true \/ blocked_ok db).

Lemma blocked_ok_iff db : blocked_ok db <-> forall j, state_of db j = Some StateBlocked -> pending db j.
Proof.
  unfold blocked_ok, state_of. split.
  - intros Hb j Hj. apply fmap_Some in Hj as (r & Hr & E). eauto.
  - intros Hb j r Hr E. apply Hb. by rewrite Hr, <- E.
Qed.

(** ** Updates of a job that is not blocked *)

(** The dependents of a job see its state only through "succeeded" and "failed". *)
Lemma pending_unblocked db id r' j :
  pending db j -> terminal (r_state r') = false \/ (j, id) ∉ db_dependencies db ->
  pending (with_jobs (<[id := r']> (db_jobs db)) db) j.
Proof.
  intros [(d & s & Hd & Hs & Hns) Hall]%pending_iff Hr'. apply pending_iff. cbn. split.
  - exists d. destruct (decide (id = d)) as [->|Hne].
    + exists (r_state r'). rewrite state_of_update, decide_True by done. split_and!; [done..|].
      destruct Hr' as [Hr'|?]; [|done]. intros E. by rewrite E in Hr'.
    + exists s. by rewrite state_of_update, decide_False.
  - intros d' s' Hd' Hs'. rewrite state_of_update in Hs'. case_decide as E; [|by eapply Hall].
    injection Hs' as <-. subst d'. destruct Hr' as [Hr'|?]; [|done].
    intros [E|E]; by rewrite E in Hr'.
Qed.

Section Update.
Context (F : bool -> Prop) (now : time) (db0 : DB).

Lemma tx_ok_update db id r r' :
  tx_ok F now db0 db -> db_jobs db !! id = Some r -> row_step (UnixNano now) r r' ->
  r_state r <> StateBlocked -> r_state r' <> StateBlocked -> terminal (r_state r') = false ->
  tx_ok F now db0 (with_jobs (<[id := r']> (db_jobs db)) db).
Proof.
  intros [Ht Hb] Hid Hstep Hnb Hnb' Hnt. split; [by eapply tx_inv_update|].
  destruct Hb as [?|Hb]; [by left|]. right. apply blocked_ok_iff. intros j.
  rewrite blocked_ok_iff in Hb. rewrite state_of_update. case_decide; [congruence|]. intros Hj.
  apply pending_unblocked; auto.
Qed.

Lemma propagate_pre_update db id r r' :
  tx_ok F now db0 db -> db_jobs db !! id = Some r -> row_step (UnixNano now) r r' ->
  terminal (r_state r') = true ->
  propagate_pre F now db0 (with_jobs (<[id := r']> (db_jobs db)) db) id
    (with_jobs (<[id := r']> (db_jobs db)) db).
Proof.
  intros [Ht Hb] Hid Hstep Hterm. split; [split; [by eapply tx_inv_update|by intros ? ? ?]|].
  rewrite state_of_update, decide_True by done. split; [intros [= E]; by rewrite E in Hterm|].
  destruct Hb as [?|Hb]; [by left|]. right. rewrite blocked_ok_iff in Hb. intros j.
  rewrite state_of_update. case_decide as E; [intros [= E']; by rewrite E' in Hterm|]. intros Hj.
  destruct (decide ((j, id) ∈ db_dependencies db)) as [?|Hno]; [by right|left].
  apply pending_unblocked; auto.
Qed.
End Update.

(** ** Lease recovery *)
Definition item_ok (db : DB) (item : string * (bool * Z)) : Prop :=
  exists r, db_jobs db !! item.1 = Some r /\ r_state r = StateLeased /\ item.2 = (r_cancel_requested r, r_attempt r).

Definition recover_inv (F : bool -> Prop) (now : time) (db0 : DB) (items : list (string * (bool * Z))) (db : DB) : Prop :=
  tx_ok F now db0 db /\ NoDup items.*1 /\ Forall (item_ok db) items.

Lemma item_ok_frame db db' item : frame db db' -> item_ok db item -> item_ok db' item.
Proof. intros Hfr (r & Hr & E & Hi). exists r. split_and!; [|done..]. apply Hfr; [done|congruence]. Qed.

Lemma item_ok_insert db id r' item :
  item.1 <> id -> item_ok db item -> item_ok (with_jobs (<[id := r']> (db_jobs db)) db) item.
Proof. intros Hne (r & Hr & E & Hi). exists r. cbn. rewrite lookup_insert_ne by congruence. done. Qed.

Lemma Forall_item_ok_insert db id c r' items :
  NoDup ((id, c) :: items).*1 -> Forall (item_ok db) items ->
  Forall (item_ok (with_jobs (<[id := r']> (db_jobs db)) db)) items.
Proof.
  intros [Hni _]%NoDup_cons Hall. rewrite Forall_forall in *. intros i Hi. apply item_ok_insert; [|auto].
  intros E. apply Hni. cbn. rewrite <- E. by apply (list_elem_of_fmap_2 fst).
Qed.

Lemma hoare_recover_item F now db0 item items :
  hoare F (recover_inv F now db0 (item :: items)) (recover_item now tt item)
    (fun _ => recover_inv F now db0 items) (fun e _ => faulty F e).
Proof.
  destruct item as [id [cancelled attempt]]. unfold recover_item.
  destruct (recovery cancelled attempt) as [[[state reason] outcome] summary] eqn:Erec.
  set (upd := set_recovered state reason outcome summary (UnixNano now)).
  eapply (hoare_bind _ _ _ (fun _ db => exists db1 r, recover_inv F now db0 ((id, (cancelled, attempt)) :: items) db1 /\
      db_jobs db1 !! id = Some r /\ row_step (UnixNano now) r (upd r) /\ r_state r = StateLeased /\
      db = with_jobs (<[id := upd r]> (db_jobs db1)) db1)).
  { apply hoare_update.
    - intros db r Hi Hr Hc. exists db, r. split_and!; try done; [|by apply bool_decide_eq_true in Hc].
      destruct Hi as (_ & _ & [(r' & Hr' & El & [= -> ->]) _]%Forall_cons). cbn in Hr'.
      rewrite Hr in Hr'. injection Hr' as <-. by apply step_recover.
    - intros db (_ & _ & [(r & Hr & El & _) _]%Forall_cons) Hno. exfalso. specialize (Hno r Hr).
      by apply bool_decide_eq_false in Hno.
    - intros db _ HF. by split. }
  intros _. destruct (terminal state) eqn:Et.
  - intros db fs HF (db1 & r & (Hok & Hnd & Hall) & Hr & Hstep & El & ->).
    apply Forall_cons in Hall as [_ Hall].
    pose proof (hoare_propagate F now db0 (with_jobs (<[id := upd r]> (db_jobs db1)) db1) id) as Hp.
    specialize (Hp _ fs HF (propagate_pre_update F now db0 db1 id r (upd r) Hok Hr Hstep Et)).
    destruct (propagate id now _ fs) as [[[[]|e] db'] fs']; [|done]. destruct Hp as [[[Ht Hfr] Hb] HF'].
    split; [|done]. split; [done|]. split; [by apply NoDup_cons in Hnd as [_ ?]|].
    eapply Forall_impl; [by eapply Forall_item_ok_insert|]. intros i. by apply item_ok_frame.
  - apply hoare_ret. intros db (db1 & r & (Hok & Hnd & Hall) & Hr & Hstep & El & ->).
    apply Forall_cons in Hall as [_ Hall]. split; [|split; [by apply NoDup_cons in Hnd as [_ ?]|by eapply Forall_item_ok_insert]].
    eapply tx_ok_update; try done; [by rewrite El|]. apply recovery_cases in Erec. cbn. naive_solver.
Qed.

Lemma expired_items_ok now db : NoDup (expired_items now db).*1 /\ Forall (item_ok db) (expired_items now db).
Proof.
  unfold expired_items. set (f := fun id => _).
  assert (Hf : forall id x, f id = Some x -> x.1 = id /\ item_ok db x).
  { intros id x Hx. unfold f in Hx. apply bind_Some in Hx as (r & Hr & Hx).
    destruct (expired_at now r) eqn:Ex; [|done]. injection Hx as <-. split; [done|].
    unfold expired_at in Ex. apply andb_true_iff in Ex as [Ex _]. apply bool_decide_eq_true in Ex.
    exists r. done. }
  assert (Hnd : NoDup (unordered (map_to_list (db_jobs db)).*1)).
  { rewrite unordered_perm. apply NoDup_fst_map_to_list. }
  revert Hnd. generalize (unordered (map_to_list (db_jobs db)).*1) as l. induction l as [|id l IH]; intros Hnd; cbn.
  { split; constructor. }
  apply NoDup_cons in Hnd as [Hni Hnd]. destruct (IH Hnd) as [IH1 IH2].
  destruct (f id) as [x|] eqn:Ex; [|done]. destruct (Hf _ _ Ex) as [<- Hx]. split; [|by constructor].
  cbn. apply NoDup_cons. split; [|done]. intros Hin. apply Hni.
  apply list_elem_of_fmap in Hin as (y & -> & Hy). apply list_elem_of_omap in Hy as (k & Hk & Hy).
  by destruct (Hf _ _ Hy) as [<- _].
Qed.

Lemma hoare_recoverExpired F now db0 :
  hoare F (tx_ok F now db0) (recoverExpired now) (fun _ => tx_ok F now db0) (fun e _ => faulty F e).
Proof.
  unfold recoverExpired.
  eapply (hoare_bind _ _ _ (fun D db => tx_ok F now db0 db /\ D = db)); [by apply hoare_get|]. intros D.
  eapply (hoare_bind _ _ _ (fun rows db => recover_inv F now db0 rows db)).
  { apply hoare_driver; [|by intros db _ [?|?]; [split|]]. intros db rows [? ->] [= <-].
    split; [done|]. apply expired_items_ok. }
  intros rows. eapply (hoare_bind _ _ _ (fun r db => recover_inv F now db0 r.1 db)).
  { apply hoare_fetch; [done|]. intros db l (Hok & Hnd & Hall) _ [k ->]. rewrite fmap_app in Hnd.
    apply NoDup_app in Hnd as [Hnd _]. apply Forall_app in Hall as [? _]. done. }
  intros [items failed]. cbn.
  eapply (hoare_bind _ _ _ (fun _ => recover_inv F now db0 items)).
  { apply hoare_driver; [done|]. intros db _ [?|?]; [by split|done]. }
  intros _. eapply hoare_conseq; [apply (hoare_mfold (fun rest (_ : unit) => recover_inv F now db0 rest))|..].
  - intros item rest []. apply hoare_recover_item.
  - done.
  - intros a db [? _]. done.
  - done.
Qed.

(** ** Rules for transactions *)
Lemma hoare_tx {A} F (P : DB -> Prop) (body : M DB A) Q E s0 db :
  hoare F P body Q E -> P db ->
  hoare F (eq s0) (tx db body) (fun r s => s = s0 /\ Q r.1 r.2) (fun e s => s = s0 /\ exists db', E e db').
Proof.
  intros Hb HP s fs HF <-. unfold tx. specialize (Hb db fs HF HP).
  destruct (body db fs) as [[[a|e] db'] fs']; naive_solver.
Qed.

Lemma hoare_begin F e s0 :
  hoare F (eq s0) (begin_tx e) (fun db s => s = s0 /\ db = st_db s0) (fun e' s => s = s0 /\ e' = e /\ F true).
Proof.
  unfold begin_tx. eapply (hoare_bind _ _ _ (fun D s => s = s0 /\ D = s0)); [apply hoare_get; by intros s <-|].
  intros D. apply hoare_driver; [by intros s a [-> ->] [= <-]|]. intros s [-> ->] [?|?]; done.
Qed.

Lemma hoare_commit F e s0 db :
  hoare F (eq s0) (commit_tx e db) (fun _ s => s = set_db db s0) (fun e' s => s = s0 /\ e' = e /\ F true).
Proof.
  unfold commit_tx. eapply (hoare_bind _ _ _ (fun D s => s = s0 /\ D = s0)); [apply hoare_get; by intros s <-|].
  intros D. eapply (hoare_bind _ _ _ (fun _ s => s = s0 /\ D = s0)).
  - apply hoare_driver; [done|]. intros s [-> ->] [?|?]; done.
  - intros _ s fs HF [-> ->]. done.
Qed.

(** A transaction that is committed and then read back. *)
Definition read_failed : error := "workqueue: job read failed".

Lemma hoare_getUnlocked F now s0 id :
  jobs_inv now (st_db s0) ->
  hoare F (eq s0) (getUnlocked id) (fun o s => s = s0 /\ o = job_of_row id <$> db_jobs (st_db s0) !! id)
    (fun e s => s = s0 /\ e = read_failed /\ F true).
Proof.
  intros Hj s fs HF <-. unfold getUnlocked, jobByID, read_job, tx, mbind, mget, driver, mret, mfail.
  destruct (next_fault fs) as [f fs'] eqn:En. apply (next_fault_inv _ _ _ _ HF) in En as [HF' Hf].
  destruct f; [split; [|done]; auto|]. destruct (db_jobs (st_db s0) !! id) as [r|] eqn:Er; cbn; [|done].
  rewrite (ri_scan _ _ _ (Hj _ _ Er)). done.
Qed.

(** ** [RecoverExpired] *)
Lemma RecoverExpired_spec F now s0 :
  tx_ok F now (st_db s0) (st_db s0) ->
  hoare F (eq s0) (RecoverExpired now)
    (fun _ s => exists db, tx_ok F now (st_db s0) db /\ s = set_db db s0) (fun e s => s = s0 /\ F true).
Proof.
  intros Hok. unfold RecoverExpired. eapply hoare_bind.
  { eapply hoare_conseq; [apply hoare_begin|done|done|]. naive_solver. }
  intros db s fs HF [-> ->].
  eapply (hoare_bind (eq s0) _ _ (fun r s => s = s0 /\ tx_ok F now (st_db s0) r.2)); [| |done|done].
  - eapply hoare_conseq; [apply (hoare_tx _ _ _ _ _ s0 _ (hoare_recoverExpired F now (st_db s0)) Hok)|done|done|].
    unfold faulty. naive_solver.
  - intros [[] db] s' fs' HF' [-> Hdb].
    pose proof (hoare_commit F "workqueue: recovery commit failed" s0 db s0 fs' HF' eq_refl) as Hc.
    destruct (commit_tx _ db s0 fs') as [[[[]|e] s''] fs'']; naive_solver.
Qed.

(** ** Completion *)
Lemma row_fence_id now id r : row_inv now id r -> wrapU64 (r_fence r) = r_fence r /\ 0 <= r_fence r <= MaxLeaseAttempts.
Proof.
  intros Hr. destruct (row_inv_facts Hr) as (Ha & _ & _ & _ & Hf). unfold attempts_ok, MaxLeaseAttempts in *.
  assert (0 <= r_fence r <= 4) by (destruct (r_state r); lia).
  rewrite wrapU64_id; [lia|]. unfold in_uint64, two64. lia.
Qed.

Lemma null_string_some o x : null_string o = x -> x <> "" -> o = Some x.
Proof. unfold null_string. destruct o; simpl; congruence. Qed.

Lemma nullableString_null x : null_string (nullableString x) = x.
Proof. unfold nullableString. case_bool_decide; done. Qed.

Lemma leaseID_nonempty x : MatchString leaseIDPattern x = true -> x <> "".
Proof. intros Hm ->. by vm_compute in Hm. Qed.

(** The lease a completion or a heartbeat must present. *)
Definition holds_lease (r : JobRow) (leaseID : string) (fence : Z) (at_ : time) : Prop :=
  r_state r = StateLeased /\ r_lease_id r = Some leaseID /\ r_fence r = fence /\
  exists u, r_lease_until r = Some u /\ at_ < u.

Definition completed_by (db0 : DB) (jobID leaseID : string) (fence : Z) (res : Result) (checked : time)
    (r : JobRow) : Prop :=
  db_jobs db0 !! jobID = Some r /\ holds_lease r leaseID fence checked /\
  (r_cancel_requested r = true -> res_Outcome res = StateCancelled).

(** The replay of a completion that is already recorded. *)
Definition completion_recorded (db0 : DB) (jobID leaseID : string) (fence : Z) (res : Result) (r : JobRow) : Prop :=
  db_jobs db0 !! jobID = Some r /\ terminal (r_state r) = true /\ r_lease_id r = Some leaseID /\
  r_fence r = fence /\ row_result r = res.

(** Reading a job back inside a transaction. *)
Lemma hoare_reread F now db0 db (Hok : tx_ok F now db0 db) id :
  hoare F (eq db) (mtry (jobByID id))
    (fun o db' => db' = db /\ match o with Ok a => a = job_of_row id <$> db_jobs db !! id | Err _ => F true end)
    (fun _ _ => False).
Proof.
  apply hoare_try. eapply hoare_conseq;
    [apply (reads_jobByID F (UnixNano now) id db (ti_jobs _ _ _ (proj1 Hok)))|done|done|].
  intros e db' [-> [? _]]. done.
Qed.

Section Complete.
Context (F : bool -> Prop) (jobID leaseID : string) (fence : Z) (res : Result) (checked now : time) (db0 : DB).
Hypothesis Hok : tx_ok F now db0 db0.
Hypothesis Hlease : MatchString leaseIDPattern leaseID = true.
Hypothesis Hres : validateResult res = Ok tt.

Lemma completion_guard r :
  db_jobs db0 !! jobID = Some r ->
  (j_State (job_of_row jobID r) <>? StateLeased) || (j_LeaseID (job_of_row jobID r) <>? leaseID)
  || (j_Fence (job_of_row jobID r) <>? fence) || negb (After (j_LeaseExpiresAt (job_of_row jobID r)) checked) = false ->
  holds_lease r leaseID fence checked.
Proof.
  intros Hr Hg. breflect. cbn in *. pose proof (ti_jobs _ _ _ (proj1 Hok) _ _ Hr) as Hinv.
  destruct (row_fence_id _ _ _ Hinv) as [Hw _].
  destruct (row_inv_facts Hinv) as (_ & Hs & _ & _ & _). unfold state_ok in Hs.
  match goal with E : r_state r = StateLeased |- _ => rewrite E in Hs end.
  destruct Hs as ((_ & _ & Hu & _) & _). unfold holds_lease. split_and!; [done| |congruence|].
  - apply null_string_some; [done|by apply leaseID_nonempty].
  - unfold After in *. breflect. destruct (r_lease_until r) as [u|]; [|done]. eauto.
Qed.

Lemma hoare_Complete_tx :
  hoare F (eq db0) (Complete_tx jobID leaseID fence res checked now)
    (fun o db => match o with
       | Some job => db = db0 /\ exists r, job = job_of_row jobID r /\ completion_recorded db0 jobID leaseID fence res r
       | None => tx_ok F now db0 db /\ exists r, completed_by db0 jobID leaseID fence res checked r /\
           db_jobs db !! jobID = Some (set_completed res (nullableString (res_ResultRef res)) (UnixNano now) r)
       end) (fun _ _ => True).
Proof.
  unfold Complete_tx. eapply hoare_bind; [eapply hoare_conseq; [apply (hoare_reread F now db0 db0 Hok)|done|done|done]|].
  intros [[job|]|e]; [|by apply hoare_fail|by apply hoare_fail]. intros s fs HF [-> E].
  destruct (db_jobs db0 !! jobID) as [r|] eqn:Er; [|done]. injection E as ->.
  pose proof (ti_jobs _ _ _ (proj1 Hok) _ _ Er) as Hinv. destruct (row_fence_id _ _ _ Hinv) as [Hw _].
  destruct (terminal (j_State (job_of_row jobID r))) eqn:Et.
  { destruct (_ && _) eqn:Eg; [|done]. breflect. cbn in *. split; [|done]. split; [done|]. exists r. split; [done|].
    split_and!; [done|done| |congruence|].
    - apply null_string_some; [done|by apply leaseID_nonempty].
    - destruct res; cbn in *. unfold row_result. congruence. }
  set (upd := set_completed res (nullableString (res_ResultRef res)) (UnixNano now)).
  eapply (hoare_bind (eq db0) _ _ (fun _ db => db = db0 /\ holds_lease r leaseID fence checked)); [| |done|done].
  { apply hoare_guard; [done|]. intros db <- Hg. split; [done|by apply completion_guard]. }
  intros _. eapply (hoare_bind _ _ _ (fun _ db => db = db0 /\ completed_by db0 jobID leaseID fence res checked r)).
  { apply hoare_guard; [done|]. intros db [-> Hh] Hg. split; [done|]. split_and!; [done|done|].
    intros Hc. cbn in Hg. rewrite Hc in Hg. cbn in Hg. by breflect. }
  intros _. eapply (hoare_bind _ _ _ (fun _ db => db = db0 /\ completed_by db0 jobID leaseID fence res checked r)).
  { apply hoare_guard; [done|]. naive_solver. }
  intros _. eapply (hoare_bind _ _ _ (fun _ db => completed_by db0 jobID leaseID fence res checked r /\
      db = with_jobs (<[jobID := upd r]> (db_jobs db0)) db0)).
  { apply hoare_update; [intros db r' [-> Hc] Hr' _; split; [done|congruence]| |done].
    intros db [-> (_ & (E1 & E2 & E3 & _) & _)] Hno. specialize (Hno r Er).
    rewrite !bool_decide_true in Hno by done. done. }
  intros _ db fs' HF' [Hc ->]. eapply (hoare_bind (eq _)); [|intros a; apply hoare_ret; intros db Hdb; exact Hdb|done|reflexivity].
  eapply hoare_conseq; [apply (hoare_propagate F now db0 (with_jobs (<[jobID := upd r]> (db_jobs db0)) db0) jobID)| | |done].
  - intros db <-. apply (propagate_pre_update F now db0 db0 jobID r (upd r) Hok Er).
    + destruct Hc as (_ & (El & _) & Hcan). apply step_complete; [done|done|done|apply nullableString_null].
    + by apply validateResult_terminal.
  - intros _ db [[Ht Hfr] Hb]. split; [done|]. exists r. split; [done|]. apply Hfr.
    + cbn. by rewrite lookup_insert_eq.
    + pose proof (validateResult_terminal _ Hres) as Ht'. cbn. intros E'. by rewrite E' in Ht'.
Qed.
End Complete.

(** Begin, the statements, and what follows on the result. *)
Lemma hoare_with_tx_errors {A B} F e0 (body : M DB A) (k : A * DB -> M Store B) s0 (Qd : A -> DB -> Prop) Ed Q E :
  hoare F (eq (st_db s0)) body Qd Ed ->
  (forall a db, Qd a db -> hoare F (eq s0) (k (a, db)) Q E) ->
  (forall e, F true -> E e s0) -> (forall e db, Ed e db -> E e s0) ->
  hoare F (eq s0) (let! db := begin_tx e0 in mbind (tx db body) k) Q E.
Proof.
  intros Hb Hk HE1 HE2. eapply hoare_bind; [eapply hoare_conseq; [apply hoare_begin|done|done|]|].
  { intros e s (-> & _ & ?). auto. }
  intros db s fs HF [-> ->].
  eapply (hoare_bind (eq s0) _ _ (fun r s => s = s0 /\ Qd r.1 r.2)); [| |done|done].
  - eapply hoare_conseq; [by apply (hoare_tx _ _ _ _ _ s0 _ Hb)|done|done|]. intros e s [-> [db' ?]]. eauto.
  - intros [a db] s' fs' HF' [-> Ha]. by apply (Hk a db).
Qed.

Lemma hoare_with_tx {A B} F e0 (body : M DB A) (k : A * DB -> M Store B) s0 (Qd : A -> DB -> Prop) Q E :
  hoare F (eq (st_db s0)) body Qd (fun _ _ => True) ->
  (forall a db, Qd a db -> hoare F (eq s0) (k (a, db)) Q E) -> (forall e, E e s0) ->
  hoare F (eq s0) (let! db := begin_tx e0 in mbind (tx db body) k) Q E.
Proof. intros. by eapply hoare_with_tx_errors. Qed.

Lemma hoare_commit_read {B} F e s0 db id now (f : option Job -> B) (Q : B -> Store -> Prop) E :
  jobs_inv now db -> Q (f (job_of_row id <$> db_jobs db !! id)) (set_db db s0) ->
  (forall e, E e s0) -> (F true -> E read_failed (set_db db s0)) ->
  hoare F (eq s0) (do! commit_tx e db in let! job := getUnlocked id in mret (f job)) Q E.
Proof.
  intros Hj HQ HE1 HE2.
  eapply hoare_bind; [eapply hoare_conseq; [apply hoare_commit|done|done|by intros e' s [-> _]]|].
  intros _ s fs HF ->.
  eapply (hoare_bind (eq (set_db db s0))); [eapply hoare_conseq;
    [apply (hoare_getUnlocked F now (set_db db s0) id Hj)|done|intros a s Ha; exact Ha|]| |done|done].
  - intros e' s (-> & -> & ?). auto.
  - intros o. apply hoare_ret. by intros s [-> ->].
Qed.

(** What an operation may leave behind when it reports an error: the database
    it found, or, when it did act and reading the result back failed, the one it
    committed. *)
Definition error_db (F : bool -> Prop) (now : time) (late : error) (acted : Prop) (s0 : Store) (e : error) (s : Store) : Prop :=
  s = s0 \/ (e = late /\ F true /\ acted /\ exists db, s = set_db db s0 /\ tx_ok F now (st_db s0) db).

(** ** [Complete] *)
Definition Complete_post (F : bool -> Prop) (jobID leaseID : string) (fence : Z) (res : Result)
    (checked now : time) (s0 : Store) (job : Job) (s : Store) : Prop :=
  (s = s0 /\ exists r, job = job_of_row jobID r /\ completion_recorded (st_db s0) jobID leaseID fence res r) \/
  (exists db r, s = set_db db s0 /\ tx_ok F now (st_db s0) db /\
     completed_by (st_db s0) jobID leaseID fence res checked r /\
     let r' := set_completed res (nullableString (res_ResultRef res)) (UnixNano now) r in
     db_jobs db !! jobID = Some r' /\ job = job_of_row jobID r').

Lemma Complete_spec F jobID leaseID fence res checked now s0 :
  tx_ok F now (st_db s0) (st_db s0) ->
  hoare F (eq s0) (Complete jobID leaseID fence res checked now)
    (Complete_post F jobID leaseID fence res checked now s0)
    (error_db F now read_failed (exists r, completed_by (st_db s0) jobID leaseID fence res checked r) s0).
Proof.
  intros Hok. unfold Complete. unfold error_db.
  eapply (hoare_bind _ _ _ (fun _ s => s = s0 /\ MatchString leaseIDPattern leaseID = true /\ validateResult res = Ok tt)).
  { apply hoare_guard; [intros s <-; auto|]. intros s <- Hg. breflect. split_and!; try done. by apply is_ok_true. }
  intros _ s fs HF (-> & Hl & Hres).
  eapply (hoare_with_tx F _ _ _ s0); [by apply hoare_Complete_tx| |by auto|done|done].
  intros [job|] db; cbn.
  - intros [-> Hr]. apply hoare_ret. intros s <-. left. split; [done|]. exact Hr.
  - intros (Ht & r & Hc & Hdb). eapply hoare_commit_read; [apply Ht| |by auto|].
    + right. exists db, r. rewrite Hdb. done.
    + intros HF0. right. eauto 8.
Qed.

(** ** [Cancel] *)
Definition cancelled_row (now : time) (r : JobRow) : JobRow :=
  match r_state r with
  | StateLeased => set_cancel_requested (UnixNano now) r
  | _ => set_cancelled (UnixNano now) r
  end.

Lemma hoare_Cancel_tx F jobID now db0 :
  tx_ok F now db0 db0 ->
  hoare F (eq db0) (Cancel_tx jobID now)
    (fun o db => match o with
       | Some job => db = db0 /\ exists r, job = job_of_row jobID r /\ db_jobs db0 !! jobID = Some r /\ terminal (r_state r) = true
       | None => tx_ok F now db0 db /\ exists r, db_jobs db0 !! jobID = Some r /\ terminal (r_state r) = false /\
           db_jobs db !! jobID = Some (cancelled_row now r)
       end) (fun _ _ => True).
Proof.
  intros Hok. unfold Cancel_tx. eapply hoare_bind; [eapply hoare_conseq; [apply (hoare_reread F now db0 db0 Hok)|done|done|done]|].
  intros [[job|]|e]; [|by apply hoare_fail|by apply hoare_fail]. intros s fs HF [-> E].
  destruct (db_jobs db0 !! jobID) as [r|] eqn:Er; [|done]. injection E as ->. cbn [job_of_row j_State].
  destruct (terminal (r_state r)) eqn:Et; [split; eauto|].
  pose proof (row_inv_facts (ti_jobs _ _ _ (proj1 Hok) _ _ Er)) as (_ & Hs & _).
  case_bool_decide as El.
  - set (upd := set_cancel_requested (UnixNano now)).
    eapply (hoare_bind (eq db0) _ _ (fun _ db => db = with_jobs (<[jobID := upd r]> (db_jobs db0)) db0)); [| |done|done].
    { apply hoare_update; [intros db r' <- Hr' _; congruence| |done]. intros db <- Hno.
      specialize (Hno r Er). by apply bool_decide_eq_false in Hno. }
    intros _. apply hoare_ret. intros db ->. split.
    + eapply tx_ok_update; try done; cbn; rewrite ?El; try done. by apply step_request.
    + exists r. unfold cancelled_row. cbn. rewrite lookup_insert_eq, El. done.
  - assert (Eb : r_state r = StateBlocked \/ r_state r = StateQueued).
    { unfold state_ok in Hs. destruct (r_state r); auto; done. }
    assert (Ec : cancelled_row now r = set_cancelled (UnixNano now) r).
    { unfold cancelled_row. by destruct Eb as [->| ->]. }
    eapply (hoare_bind (eq db0) _ _ (fun _ db => db = db0)); [by apply hoare_guard| |done|done]. intros _.
    set (upd := set_cancelled (UnixNano now)).
    eapply (hoare_bind _ _ _ (fun _ db => db = with_jobs (<[jobID := upd r]> (db_jobs db0)) db0)).
    { apply hoare_update; [intros db r' -> Hr' _; congruence| |done]. intros db -> Hno.
      specialize (Hno r Er). by apply bool_decide_eq_false in Hno. }
    intros _. eapply hoare_bind; [|intros a; apply hoare_ret; intros db Hdb; exact Hdb].
    eapply hoare_conseq; [apply (hoare_propagate F now db0 (with_jobs (<[jobID := upd r]> (db_jobs db0)) db0) jobID)| | |done].
    + intros db ->. apply (propagate_pre_update F now db0 db0 jobID r (upd r) Hok Er); [by apply step_cancel|done].
    + intros _ db [[Ht Hfr] Hb]. split; [done|]. exists r. split_and!; [done|done|]. rewrite Ec. apply Hfr; [|done].
      cbn. by rewrite lookup_insert_eq.
Qed.

Lemma Cancel_spec F jobID now s0 :
  tx_ok F now (st_db s0) (st_db s0) ->
  hoare F (eq s0) (Cancel jobID now)
    (fun job s => exists r, db_jobs (st_db s0) !! jobID = Some r /\
       if terminal (r_state r) then s = s0 /\ job = job_of_row jobID r
       else exists db, s = set_db db s0 /\ tx_ok F now (st_db s0) db /\
              db_jobs db !! jobID = Some (cancelled_row now r) /\ job = job_of_row jobID (cancelled_row now r))
    (error_db F now read_failed (exists r, db_jobs (st_db s0) !! jobID = Some r /\ terminal (r_state r) = false) s0).
Proof.
  intros Hok. unfold Cancel, error_db. eapply (hoare_bind _ _ _ (fun _ s => s = s0)).
  { apply hoare_guard; intros s <-; auto. }
  intros _ s fs HF ->.
  eapply (hoare_with_tx F _ _ _ s0); [by apply hoare_Cancel_tx| |by auto|done|done].
  intros [job|] db; cbn.
  - intros (-> & r & -> & Hr & Ht). apply hoare_ret. intros s <-. exists r. rewrite Ht. done.
  - intros (Ht & r & Hr & Hterm & Hdb). eapply hoare_commit_read; [apply Ht| |by auto|].
    + exists r. rewrite Hterm. split; [done|]. exists db. rewrite Hdb. done.
    + intros HF0. right. eauto 8.
Qed.

(** ** [Heartbeat] *)
Lemma hoare_autocommit {A} F (body : M DB A) s0 (Q : A -> DB -> Prop) :
  hoare F (eq (st_db s0)) body Q (fun _ _ => True) ->
  hoare F (eq s0) (autocommit body) (fun a s => exists db, Q a db /\ s = set_db db s0) (fun _ s => s = s0).
Proof.
  intros Hb s fs HF <-. unfold autocommit, mbind, mget, mput, mret, tx.
  specialize (Hb (st_db s0) fs HF eq_refl).
  destruct (body (st_db s0) fs) as [[[a|e] db] fs']; cbn; naive_solver.
Qed.

Lemma set_db_same s : set_db (st_db s) s = s.
Proof. by destruct s. Qed.

Lemma Heartbeat_spec F jobID leaseID fence ttl now s0 :
  tx_ok F now (st_db s0) (st_db s0) ->
  hoare F (eq s0) (Heartbeat jobID leaseID fence ttl now)
    (fun st s => exists r, db_jobs (st_db s0) !! jobID = Some r /\ holds_lease r leaseID fence (UnixNano now) /\
       let r' := set_heartbeat (UnixNano (TimeAdd now ttl)) (UnixNano now) r in
       let db := with_jobs (<[jobID := r']> (db_jobs (st_db s0))) (st_db s0) in
       s = set_db db s0 /\ tx_ok F now (st_db s0) db /\
       st = {| hb_ExpiresAt := TimeAdd now ttl; hb_CancelRequested := r_cancel_requested r |})
    (error_db F now "workqueue: heartbeat state unavailable"
       (exists r, db_jobs (st_db s0) !! jobID = Some r /\ holds_lease r leaseID fence (UnixNano now)) s0).
Proof.
  intros Hok. unfold Heartbeat, error_db. set (upd := set_heartbeat (UnixNano (TimeAdd now ttl)) (UnixNano now)).
  eapply (hoare_bind _ _ _ (fun _ s => s = s0)); [apply hoare_guard; intros s <-; auto|]. intros _.
  eapply (hoare_bind _ _ _ (fun _ s => s = s0)); [apply hoare_guard; intros s ->; auto|]. intros _ s fs HF ->.
  set (done_ := fun s r => db_jobs (st_db s0) !! jobID = Some r /\ holds_lease r leaseID fence (UnixNano now) /\
     s = set_db (with_jobs (<[jobID := upd r]> (db_jobs (st_db s0))) (st_db s0)) s0).
  assert (Htx : forall r, db_jobs (st_db s0) !! jobID = Some r -> holds_lease r leaseID fence (UnixNano now) ->
    tx_ok F now (st_db s0) (with_jobs (<[jobID := upd r]> (db_jobs (st_db s0))) (st_db s0))).
  { intros r Hr (El & _). eapply tx_ok_update; try done; cbn; rewrite ?El; try done.
    apply step_heartbeat; [done|apply UnixNano_int64]. }
  eapply (hoare_bind (eq s0) _ _ (fun n s => (n = 0 /\ s = s0) \/ (n = 1 /\ exists r, done_ s r))); [| |done|done].
  { eapply hoare_conseq; [apply (hoare_autocommit F _ s0 (fun n db => (n = 0 /\ db = st_db s0) \/
        (n = 1 /\ exists x, done_ (set_db db s0) x))), hoare_update|done| |by intros e s1 ->; auto].
    - intros db r <- Hr Hc. right. split; [done|]. exists r. breflect. split; [done|]. split; [|done].
      unfold holds_lease. split_and!; [done..|]. destruct (r_lease_until r) as [u|]; [|done].
      exists u. split; [done|]. by apply Z.ltb_lt.
    - intros db <- _. auto.
    - done.
    - intros n s1 (db & [[-> ->]|[-> ?]] & ->); [left; by rewrite set_db_same|auto]. }
  intros n. eapply (hoare_bind _ _ _ (fun _ s => exists r, done_ s r)).
  { apply hoare_guard.
    - intros s1 [[-> ->]|[-> _]] Hg; [auto|done].
    - intros s1 [[-> ->]|[-> ?]] Hg; [done|auto]. }
  intros _. eapply (hoare_bind _ _ _ (fun D s => (exists r, done_ s r) /\ D = s)); [by apply hoare_get|]. intros D.
  eapply (hoare_bind _ _ _ (fun c s => exists r, done_ s r /\ c = r_cancel_requested r)).
  { apply hoare_driver.
    - intros s1 c [(r & Hd) ->] Hc. exists r. split; [done|]. destruct Hd as (_ & _ & ->). cbn in Hc.
      rewrite lookup_insert_eq in Hc. by injection Hc as <-.
    - intros s1 [(r & Hr & Hh & ->) ->] [?|Hc]; [right; split_and!; by eauto 6|].
      cbn in Hc. by rewrite lookup_insert_eq in Hc. }
  intros c. apply hoare_ret. intros s1 (r & (Hr & Hh & ->) & ->). exists r. split_and!; try done. by apply Htx.
Qed.

(** ** [LeaseNext] *)
Lemma select_jobs_spec cond column limit db id r :
  (id, r) ∈ select_jobs cond column limit db -> db_jobs db !! id = Some r /\ cond r = true.
Proof.
  unfold select_jobs. intros Hin. apply elem_of_take in Hin as (i & Hi & _).
  apply list_elem_of_lookup_2 in Hi. rewrite merge_sort_Permutation in Hi.
  apply list_elem_of_filter in Hi as [Hc Hi]. by apply elem_of_map_to_list in Hi.
Qed.

Lemma select_jobs_nodup cond column limit db : NoDup (select_jobs cond column limit db).*1.
Proof.
  unfold select_jobs. rewrite fmap_take. eapply NoDup_sublist_of; [apply sublist_take|].
  rewrite merge_sort_Permutation. eapply NoDup_sublist_of; [apply sublist_of_fmap, sublist_filter|].
  apply NoDup_fst_map_to_list.
Qed.

Lemma select_jobs_length cond column limit db : 0 <= limit -> Z.of_nat (length (select_jobs cond column limit db)) <= limit.
Proof. intros Hl. unfold select_jobs. rewrite length_take. lia. Qed.

(** A job a worker of [pool] may be given. *)
Definition leasable (db : DB) (pool : string) (id : string) (r : JobRow) : Prop :=
  db_jobs db !! id = Some r /\ i_pool (r_ident r) = pool /\ r_state r = StateQueued /\ r_cancel_requested r = false.

Lemma lease_candidates_spec pool limit db c :
  c ∈ lease_candidates pool limit db ->
  exists r, leasable db pool (fc_JobID c) r /\ fc_Workspace c = i_workspace (r_ident r) /\ fc_Cost c = 1 /\
    fc_CreatedAt c = r_updated_at r.
Proof.
  unfold lease_candidates. intros ([id r] & -> & Hin)%list_elem_of_fmap.
  apply select_jobs_spec in Hin as [Hr Hc]. breflect. exists r. cbn. unfold leasable. split_and!; done.
Qed.

Lemma lease_candidates_nil pool limit db id r :
  1 <= limit -> lease_candidates pool limit db = [] -> ~ leasable db pool id r.
Proof.
  intros Hl Hnil (Hr & Hp & Hq & Hc). unfold lease_candidates, select_jobs in Hnil.
  apply fmap_nil_inv in Hnil. destruct (Z.to_nat limit) eqn:El; [lia|].
  set (l := filter _ _) in Hnil.
  assert (Hin : (id, r) ∈ l).
  { apply list_elem_of_filter. rewrite elem_of_map_to_list. split; [|done]. cbn. by rewrite Hq, Hc, !bool_decide_true. }
  rewrite <- (merge_sort_Permutation (row_le r_updated_at) l) in Hin.
  destruct (merge_sort _ l); [by apply elem_of_nil in Hin|done].
Qed.

(** The candidates of a consistent database are well formed for [Select]. *)
Lemma lease_candidates_valid pool limit now db :
  in_int64 now -> jobs_inv (UnixNano now) db -> 1 <= limit <= 4096 -> lease_candidates pool limit db <> [] ->
  valid_candidates now (lease_candidates pool limit db).
Proof.
  intros Hn Hj Hl Hne. split_and!; [|done| | |].
  - apply bool_decide_eq_false. by apply in_int64_nonzero.
  - unfold lease_candidates. rewrite length_fmap.
    etrans; [apply (select_jobs_length _ _ limit)|]; lia.
  - apply Forall_forall. intros c Hc. apply lease_candidates_spec in Hc as (r & (Hr & _) & Hw & Hcost & Hcr).
    pose proof (Hj _ _ Hr) as Hinv. apply row_inv_iff in Hinv as (_ & _ & (Hid & Hspec) & Hci & Hu & Hz & _).
    unfold UnixNano in Hu. rewrite wrap64_id in Hu by done.
    unfold candidate_invalid. rewrite Hid, Hw, Hcost, Hcr.
    unfold validateSpec in Hspec. cbn in Hspec.
    destruct (_ || _) eqn:Eg in Hspec; [done|]. breflect.
    unfold workspacePattern in *. repeat (apply orb_false_iff; split);
      try (apply negb_false_iff; done); try done.
    + by apply bool_decide_eq_false.
    + apply Z.ltb_ge. lia.
  - unfold lease_candidates. rewrite <- list_fmap_compose. apply (select_jobs_nodup _ _ limit db).
Qed.

Lemma hoare_lease_scan F pool maxJobs now db0 :
  tx_ok F now db0 db0 ->
  hoare F (eq db0) (lease_scan pool maxJobs now)
    (fun cs db => tx_ok F now db0 db /\ cs = lease_candidates pool maxJobs db) (fun e _ => faulty F e).
Proof.
  intros Hok. unfold lease_scan. eapply hoare_bind; [eapply hoare_pre; [|apply (hoare_recoverExpired F now db0)]; by intros db <-|].
  intros u. eapply (hoare_bind _ _ _ (fun D db => tx_ok F now db0 db /\ D = db)); [by apply hoare_get|]. intros D.
  eapply (hoare_bind _ _ _ (fun rows db => tx_ok F now db0 db /\ rows = lease_candidates pool maxJobs db)).
  { apply hoare_driver; [by intros db rows [? ->] [= <-]|]. intros db _ [?|?]; [by split|done]. }
  intros rows. eapply (hoare_bind _ _ _ (fun r db => tx_ok F now db0 db /\
      (r.2 = true /\ F true \/ r.2 = false /\ r.1 = lease_candidates pool maxJobs db))).
  { apply hoare_fetch; [intros db [? ->]; auto|]. intros db l [? ->] ? _. auto. }
  intros [cs failed]. cbn. eapply (hoare_bind _ _ _ (fun _ db => tx_ok F now db0 db /\ cs = lease_candidates pool maxJobs db)).
  { apply hoare_guard.
    - intros db [_ [[_ ?]|[? _]]] Hg; [by split|congruence].
    - intros db [? [[? _]|[_ ?]]] Hg; [congruence|done]. }
  intros _. eapply (hoare_bind _ _ _ (fun _ db => tx_ok F now db0 db /\ cs = lease_candidates pool maxJobs db)).
  { apply hoare_driver; [done|]. intros db _ [?|?]; [by split|done]. }
  intros _. by apply hoare_ret.
Qed.

Lemma hoare_lease_update F now db0 db1 jobID leaseID holder expires r :
  tx_ok F now db0 db1 -> db_jobs db1 !! jobID = Some r -> r_state r = StateQueued ->
  MatchString leaseIDPattern leaseID = true -> MatchString holderPattern holder = true ->
  let r' := set_leased leaseID holder (UnixNano expires) (UnixNano now) r in
  hoare F (eq db1) (lease_update jobID leaseID holder expires now)
    (fun job db => job = job_of_row jobID r' /\ db = with_jobs (<[jobID := r']> (db_jobs db1)) db1 /\ tx_ok F now db0 db)
    (fun e _ => faulty F e).
Proof.
  intros Hok Hr Hq Hl Hh r'. unfold lease_update.
  assert (Hok' : tx_ok F now db0 (with_jobs (<[jobID := r']> (db_jobs db1)) db1)).
  { eapply (tx_ok_update F now db0 db1 jobID r); try done; [|by rewrite Hq].
    apply step_lease; try done. apply UnixNano_int64. }
  eapply (hoare_bind _ _ _ (fun n db => n = 1 /\ db = with_jobs (<[jobID := r']> (db_jobs db1)) db1)).
  { apply hoare_update; [| |intros db _ ?; by split].
    { intros db x <- Hx _. rewrite Hr in Hx. injection Hx as <-. done. }
    intros db <- Hno. specialize (Hno r Hr). by apply bool_decide_eq_false in Hno. }
  intros n. eapply (hoare_bind _ _ _ (fun _ db => db = with_jobs (<[jobID := r']> (db_jobs db1)) db1)).
  { apply hoare_guard; [by intros db [-> _]|]. naive_solver. }
  intros _ db fs HF ->. set (db2 := with_jobs (<[jobID := r']> (db_jobs db1)) db1) in *.
  eapply (hoare_bind (eq db2)); [eapply hoare_conseq; [apply (hoare_reread F now db0 db2 Hok' jobID)|done|intros a s Ha; exact Ha|done]
     | |done|reflexivity].
  intros o s' fs' HF' [-> Ho]. destruct o as [[job|]|e]; cbn.
  - split; [|done]. cbn in Ho. rewrite lookup_insert_eq in Ho. by injection Ho as ->.
  - cbn in Ho. by rewrite lookup_insert_eq in Ho.
  - split; [by split|done].
Qed.

Lemma hoare_randomID {S} F e prefix random (s0 : S) :
  hoare F (eq s0) (randomID e prefix random)
    (fun id s => s = s0 /\ exists bytes, random = Some bytes /\ id = prefix +:+ EncodeToString bytes)
    (fun _ s => s = s0 /\ random = None).
Proof.
  unfold randomID. destruct random; [apply hoare_ret|apply hoare_fail]; intros ? <-; eauto.
Qed.

Definition random_ok (random : option string) : Prop := forall b, random = Some b -> String.length b = 16%nat.

Definition lease_request_ok (pool holder : string) (ttl : duration) : Prop :=
  MatchString poolPattern pool = true /\ MatchString holderPattern holder = true /\ MinLeaseTTL <= ttl <= MaxLeaseTTL.

(** The lease a worker gets: a queued job of its pool, from the database after
    recovery, with a fresh lease id and the next fence. *)
Record lease_granted (F : bool -> Prop) (pool holder : string) (ttl : duration) (now : time) (random : option string)
    (s0 : Store) (l : Lease) (s : Store) : Prop := {
  lg_request : lease_request_ok pool holder ttl;
  lg_config : st_config s = st_config s0;
  lg_fair : sched_ok (st_fair s);
  lg_tx : tx_ok F now (st_db s0) (st_db s);
  lg_row : exists db1 r bytes,
    random = Some bytes /\ l_ID l = "wl_" +:+ EncodeToString bytes /\ tx_ok F now (st_db s0) db1 /\
    leasable db1 pool (j_ID (l_Job l)) r /\
    let r' := set_leased (l_ID l) holder (UnixNano (TimeAdd now ttl)) (UnixNano now) r in
    st_db s = with_jobs (<[j_ID (l_Job l) := r']> (db_jobs db1)) db1 /\
    l = {| l_Job := job_of_row (j_ID (l_Job l)) r'; l_ID := l_ID l; l_Fence := wrapU64 (r_fence r');
           l_Attempt := r_attempt r'; l_ExpiresAt := TimeAdd now ttl |};
}.

(** Why [LeaseNext] fails: no job is available, and the recovery is committed;
    or the database is as before, because of a fault, of missing random bytes,
    or of an invalid request, clock or configuration. *)
Definition lease_refused (F : bool -> Prop) (pool holder : string) (ttl : duration) (now : time)
    (random : option string) (s0 : Store) (e : error) (s : Store) : Prop :=
  st_config s = st_config s0 /\ sched_ok (st_fair s) /\
  ((e = ErrNoJobAvailable /\ tx_ok F now (st_db s0) (st_db s) /\
      lease_candidates pool (cfg_MaxJobs (st_config s0)) (st_db s) = []) \/
   (st_db s = st_db s0 /\
     (F true \/ random = None \/ ~ lease_request_ok pool holder ttl \/ ~ in_int64 now \/
      ~ (1 <= cfg_MaxJobs (st_config s0) <= 4096)))).

Section LeaseNext.
Context (F : bool -> Prop) (pool holder : string) (ttl : duration) (now : time) (random : option string) (s0 : Store).
Hypothesis Hok : tx_ok F now (st_db s0) (st_db s0).
Hypothesis Hfair : sched_ok (st_fair s0).
Hypothesis Hrand : random_ok random.
#[local] Abbreviation refused := (lease_refused F pool holder ttl now random s0).

Lemma refused_fault e s : st_config s = st_config s0 -> sched_ok (st_fair s) -> st_db s = st_db s0 -> F true -> refused e s.
Proof. intros. split_and!; [done..|]. right. auto. Qed.

Lemma leaseID_random bytes : random = Some bytes -> MatchString leaseIDPattern ("wl_" +:+ EncodeToString bytes) = true.
Proof. intros Hb. apply match_hex_id; [done|]. by rewrite (Hrand _ Hb). Qed.

(** After the selection: take the lease and commit. *)
Lemma hoare_lease_grant db1 fair c r :
  lease_request_ok pool holder ttl -> tx_ok F now (st_db s0) db1 -> sched_ok fair ->
  leasable db1 pool (fc_JobID c) r ->
  hoare F (eq (set_fair fair s0))
    (let! leaseID := randomID "workqueue: lease identity unavailable" "wl_" random in
     let! (job, db) := tx db1 (lease_update (fc_JobID c) leaseID holder (TimeAdd now ttl) now) in
     do! commit_tx "workqueue: lease commit failed" db in
     mret {| l_Job := job; l_ID := leaseID; l_Fence := j_Fence job; l_Attempt := j_Attempt job;
             l_ExpiresAt := TimeAdd now ttl |})
    (lease_granted F pool holder ttl now random s0) refused.
Proof.
  intros Hh Hdb1 Hf Hl.
  eapply hoare_bind; [eapply hoare_conseq; [apply hoare_randomID|done|done|]|].
  { intros e s [-> Hnone]. split_and!; [done..|]. right. auto. }
  intros leaseID s fs HF (-> & bytes & Erand & ->).
  pose proof (leaseID_random bytes Erand) as Hlid. set (leaseID := "wl_" +:+ EncodeToString bytes) in *.
  destruct Hl as (Hr & Hpool & Hq & Hc).
  set (r' := set_leased leaseID holder (UnixNano (TimeAdd now ttl)) (UnixNano now) r).
  eapply (hoare_bind (eq (set_fair fair s0)) _ _ (fun a s => s = set_fair fair s0 /\ a.1 = job_of_row (fc_JobID c) r' /\
      a.2 = with_jobs (<[fc_JobID c := r']> (db_jobs db1)) db1 /\ tx_ok F now (st_db s0) a.2)); [| |done|done].
  { eapply hoare_conseq; [apply (hoare_tx F _ _ _ _ (set_fair fair s0) db1
      (hoare_lease_update F now (st_db s0) db1 (fc_JobID c) leaseID holder (TimeAdd now ttl) r Hdb1 Hr Hq Hlid (proj1 (proj2 Hh))) eq_refl)|done|done|].
    intros e s [-> (_ & ? & _)]. by apply refused_fault. }
  intros [job db]. cbn [fst snd]. intros s' fs' HF' (-> & -> & -> & Htx).
  eapply (hoare_bind (eq (set_fair fair s0))); [eapply hoare_conseq; [apply hoare_commit|done|intros a s Ha; exact Ha|]| |done|done].
  { intros e s (-> & _ & ?). by apply refused_fault. }
  intros []. apply hoare_ret. intros s ->. split; [done|done|done|exact Htx|].
  exists db1, r, bytes. cbn. split_and!; try done.
Qed.

Lemma LeaseNext_spec :
  hoare F (eq s0) (LeaseNext pool holder ttl now random) (lease_granted F pool holder ttl now random s0) refused.
Proof.
  unfold LeaseNext.
  eapply (hoare_bind _ _ _ (fun _ s => s = s0 /\ lease_request_ok pool holder ttl)).
  { apply hoare_guard.
    - intros s <- Hg. split_and!; [done..|]. right. split; [done|]. right. right. left.
      intros (H1' & H2' & H3'). rewrite H1', H2' in Hg. cbn in Hg.
      apply orb_true_iff in Hg as [Hg|Hg]; apply Z.ltb_lt in Hg; lia.
    - intros s <- Hg. breflect. done. }
  intros _. eapply (hoare_bind _ _ _ (fun D s => (s = s0 /\ lease_request_ok pool holder ttl) /\ D = s0)).
  { apply hoare_get. by intros s [-> ?]. }
  intros D s fs HF [[-> Hh] ->].
  eapply (hoare_bind (eq s0) _ _ (fun db s => s = s0 /\ db = st_db s0)); [| |done|done].
  { eapply hoare_conseq; [apply hoare_begin|done|done|]. intros e s (-> & _ & ?). by apply refused_fault. }
  intros db s fs' HF' [-> ->].
  eapply (hoare_bind (eq s0) _ _ (fun a s => s = s0 /\ tx_ok F now (st_db s0) a.2 /\
     a.1 = lease_candidates pool (cfg_MaxJobs (st_config s0)) a.2)); [| |done|done].
  { eapply hoare_conseq; [apply (hoare_tx F _ _ _ _ s0 (st_db s0) (hoare_lease_scan F pool _ now _ Hok) eq_refl)|done|done|].
    intros e s [-> (_ & ? & _)]. by apply refused_fault. }
  intros [cs db]. cbn [fst snd]. intros s fs'' HF'' (-> & Hdb & ->).
  destruct (lease_candidates pool (cfg_MaxJobs (st_config s0)) db) as [|c0 cs] eqn:Ecs.
  - eapply (hoare_bind (eq s0)); [eapply hoare_conseq; [apply hoare_commit|done|intros a s Ha; exact Ha|]| |done|done].
    + intros e s (-> & _ & ?). by apply refused_fault.
    + intros []. apply hoare_fail. intros s ->. split_and!; [done|done|]. left. done.
  - rewrite <- Ecs. destruct (Select (st_fair s0) now _) as [sel fair] eqn:Esel.
    pose proof (Select_spec _ _ _ _ _ Hfair Esel) as (Hfair' & _ & Hsel).
    eapply (hoare_bind (eq s0) _ _ (fun _ s => s = set_fair fair s0)); [by apply hoare_put| |done|done].
    intros _ s1 fs1 HF1 ->. destruct sel as [c|e].
    + destruct Hsel as [(Hin & _) _]. apply lease_candidates_spec in Hin as (r & Hl & _).
      by apply (hoare_lease_grant db fair c r).
    + cbn. split; [|done]. split_and!; [done..|]. right. split; [done|].
      destruct (decide (in_int64 now)) as [Hn|?]; [|auto].
      destruct (decide (1 <= cfg_MaxJobs (st_config s0) <= 4096)) as [Hm|?]; [|auto 6].
      exfalso. destruct (Select_unit (st_fair s0) now (lease_candidates pool (cfg_MaxJobs (st_config s0)) db)) as [c Hc].
      * done.
      * apply lease_candidates_valid; [done|apply Hdb|done|by rewrite Ecs].
      * intros c Hc. by apply lease_candidates_spec in Hc as (r & _ & _ & ? & _).
      * rewrite Esel in Hc. done.
Qed.
End LeaseNext.

End Ops.
