(* ===== verification/WorkqueueEnqueue.v ===== *)
(** * Enqueueing and retention

    What [Enqueue] and [CleanupTerminal] do to the database. *)

From S2P Require Import Prelude GoStrings GoRegexp Effects PolicyScan WorkqueueTypes Admission Fairness WorkqueueRows WorkqueueStore WorkqueueInv WorkqueueOps.

Section Enqueue.
Context `{SystemSummaries} `{SqlScan}.

Definition row_key (r : JobRow) : string := i_idempotency_key (r_ident r).

(** [idempotency_key TEXT NOT NULL UNIQUE] *)
Definition keys_unique (db : DB) : Prop :=
  forall i j r r', db_jobs db !! i = Some r -> db_jobs db !! j = Some r' -> row_key r = row_key r' -> i = j.

Lemma reads_jobByIdempotency F now key :
  reads F (jobs_inv now) (jobByIdempotency key) (fun D o =>
    match o with
    | Some job => exists id r, db_jobs D !! id = Some r /\ row_key r = key /\ job = job_of_row id r
    | None => forall id r, db_jobs D !! id = Some r -> row_key r <> key
    end).
Proof.
  intros D HD s fs HF <-. unfold jobByIdempotency, read_job, mbind, mget, driver, mret, mfail.
  destruct (next_fault fs) as [f fs'] eqn:En. apply (next_fault_inv _ _ _ _ HF) in En as [HF' Hf].
  destruct f; [split; [|done]; split; [done|]; split; [auto|done]|].
  destruct (filter _ _) as [|[id r] l] eqn:El; cbn.
  - split; [|done]. split; [done|]. intros id r Hr Hk.
    assert (Hin : (id, r) ∈ filter (fun e => i_idempotency_key (r_ident e.2) = key) (map_to_list (db_jobs D))).
    { apply list_elem_of_filter. by rewrite elem_of_map_to_list. }
    rewrite El in Hin. by apply elem_of_nil in Hin.
  - assert (Hin : (id, r) ∈ filter (fun e => i_idempotency_key (r_ident e.2) = key) (map_to_list (db_jobs D)))
      by (rewrite El; left).
    apply list_elem_of_filter in Hin as [Hk Hin]. apply elem_of_map_to_list in Hin.
    rewrite (ri_scan _ _ _ (HD _ _ Hin)). split; [|done]. split; [done|]. by exists id, r.
Qed.

Definition ident_of (spec : Spec) (now : time) : JobIdent :=
  {| i_idempotency_key := spec_IdempotencyKey spec; i_workspace := spec_Workspace spec;
     i_pool := spec_Pool spec; i_profile := spec_Profile spec;
     i_payload_hash := spec_PayloadHash spec; i_created_at := UnixNano now |}.

Definition enqueued_row (spec : Spec) (now : time) (state : State) (reason : Reason) : JobRow :=
  new_row (ident_of spec now) state reason
    (if state =? StateFailed then Some StateFailed else None)
    (if state =? StateFailed then Some "dependency failed" else None).

(** The database after [spec] was stored as [jobID]. *)
Definition with_new_job (jobID : string) (row : JobRow) (deps : list string) (db : DB) : DB :=
  {| db_jobs := <[jobID := row]> (db_jobs db);
     db_dependencies := list_to_set (pair jobID <$> deps) ∪ db_dependencies db;
     db_task_workers := db_task_workers db; db_task_groups := db_task_groups db |}.

Definition workspace_active (w : string) (r : JobRow) : bool := (i_workspace (r_ident r) =? w) && active r.

(** What a successful insertion has checked. *)
Record enqueued (config : Config) (spec : Spec) (random : option string) (db0 : DB) (jobID : string) (state : State)
    (reason : Reason) : Prop := {
  en_id : MatchString jobIDPattern jobID = true;
  en_random : exists bytes, random = Some bytes /\ jobID = "wj_" +:+ EncodeToString bytes;
  en_fresh : db_jobs db0 !! jobID = None;
  en_key : forall id r, db_jobs db0 !! id = Some r -> row_key r <> spec_IdempotencyKey spec;
  en_total : count_jobs active db0 < cfg_MaxJobs config;
  en_workspace : count_jobs (workspace_active (spec_Workspace spec)) db0 < cfg_MaxJobsPerWorkspace config;
  en_verdict : verdict_from db0 false (spec_Dependencies spec) (state, reason);
  en_deps : forall d, d ∈ spec_Dependencies spec -> d <> jobID -> is_Some (db_jobs db0 !! d);
}.

(** The job an idempotent retry finds. *)
Definition same_request (db : DB) (spec : Spec) (id : string) (r : JobRow) : Prop :=
  db_jobs db !! id = Some r /\ row_key r = spec_IdempotencyKey spec /\
  i_workspace (r_ident r) = spec_Workspace spec /\ i_pool (r_ident r) = spec_Pool spec /\
  i_profile (r_ident r) = spec_Profile spec /\ i_payload_hash (r_ident r) = spec_PayloadHash spec /\
  dependencies_of db id ≡ₚ spec_Dependencies spec.

Lemma sameStrings_true l k : sameStrings l k = true <-> l ≡ₚ k.
Proof.
  unfold sameStrings. split.
  - destruct (_ <>? _); [done|]. intros Hs%bool_decide_eq_true. rewrite <- (sort_strings_perm l), Hs.
    apply sort_strings_perm.
  - intros Hp. rewrite (Permutation_length Hp). rewrite (bool_decide_true (Z.of_nat _ = _)) by done. cbn.
    apply bool_decide_eq_true. by apply sort_strings_unique.
Qed.

Lemma hoare_insert_dependencies F jobID deps db0 :
  is_Some (db_jobs db0 !! jobID) ->
  hoare F (eq db0)
    (mfold (fun _ dependency => exec_insert "workqueue: dependency persistence failed"
                                  (sql_insert_dependency jobID dependency)) tt deps)
    (fun _ db => db = with_dependencies (list_to_set (pair jobID <$> deps) ∪ db_dependencies db0) db0 /\
       forall d, d ∈ deps -> is_Some (db_jobs db0 !! d)) (fun _ _ => True).
Proof.
  revert db0. induction deps as [|d deps IH]; intros db0 Hj; cbn [mfold].
  { apply hoare_ret. intros db <-. split; [|by intros d Hd%elem_of_nil]. destruct db0. unfold with_dependencies. cbn.
    f_equal. set_solver. }
  eapply (hoare_bind _ _ _ (fun _ db => db = with_dependencies ({[(jobID, d)]} ∪ db_dependencies db0) db0 /\
            is_Some (db_jobs db0 !! d))).
  { unfold exec_insert. eapply (hoare_bind _ _ _ (fun D db => db = db0 /\ D = db0)); [apply hoare_get; by intros db <-|].
    intros D. eapply (hoare_bind _ _ _ (fun db' db => db' = with_dependencies ({[(jobID, d)]} ∪ db_dependencies db0) db0 /\
      is_Some (db_jobs db0 !! d))); [|intros db'; by apply hoare_put].
    apply hoare_driver; [|done]. intros db db' [-> ->] Hs. unfold sql_insert_dependency in Hs.
    destruct (_ || _) eqn:Eg; [done|]. injection Hs as <-. by breflect. }
  intros [] s fs HF [-> Hd]. set (db1 := with_dependencies _ db0).
  eapply hoare_conseq; [apply (IH db1 Hj)|done| |done|done|reflexivity].
  intros _ db [-> Hall]. split.
  - unfold with_dependencies, db1. cbn. f_equal. set_solver.
  - intros d' [->|?]%elem_of_cons; [done|]. by apply Hall.
Qed.

Lemma hoare_insert_job F jobID row db0 :
  hoare F (eq db0) (exec_insert "workqueue: job persistence failed" (sql_insert_job jobID row))
    (fun _ db => db = with_jobs (<[jobID := row]> (db_jobs db0)) db0 /\ db_jobs db0 !! jobID = None) (fun _ _ => True).
Proof.
  unfold exec_insert. eapply (hoare_bind _ _ _ (fun D db => db = db0 /\ D = db0)); [apply hoare_get; by intros db <-|].
  intros D. eapply (hoare_bind _ _ _ (fun db' db => db' = with_jobs (<[jobID := row]> (db_jobs db0)) db0 /\
    db_jobs db0 !! jobID = None)); [|intros db'; by apply hoare_put].
  apply hoare_driver; [|done]. intros db db' [-> ->] Hs. unfold sql_insert_job in Hs.
  destruct (_ || _) eqn:Eg; [done|]. injection Hs as <-. split; [done|]. breflect.
  destruct (db_jobs db0 !! jobID); [|done]. exfalso. eauto.
Qed.

Lemma hoare_Enqueue_tx F config spec now random db0 :
  tx_ok F now db0 db0 -> random_ok random ->
  hoare F (eq db0) (Enqueue_tx config spec now random)
    (fun o db => match o with
       | inl job => db = db0 /\ exists id r, job = job_of_row id r /\ same_request db0 spec id r
       | inr jobID => exists state reason, enqueued config spec random db0 jobID state reason /\
           db = with_new_job jobID (enqueued_row spec now state reason) (spec_Dependencies spec) db0
       end) (fun _ _ => True).
Proof.
  intros Hok Hrand. pose proof (ti_jobs _ _ _ (proj1 Hok)) as Hj. unfold Enqueue_tx.
  eapply hoare_bind; [eapply hoare_conseq; [apply (reads_jobByIdempotency F _ _ db0 Hj)|done|done|done]|].
  intros [job|] s fs HF [-> Ho].
  { destruct Ho as (id & r & Hr & Hk & ->).
    eapply (hoare_bind (eq db0)); [eapply hoare_conseq; [apply (reads_dependencyIDs F (fun _ => True) id db0 I)|done|done|done]| |done|done].
    intros deps s fs' HF' [-> ->].
    eapply (hoare_bind (eq db0) _ _ (fun _ db => db = db0 /\ same_request db0 spec id r)); [| |done|done].
    - apply hoare_guard; [done|]. intros db <- Hg. breflect. split; [done|]. cbn in *.
      split_and!; try done. by apply sameStrings_true.
    - intros _. apply hoare_ret. intros db [-> ?]. eauto. }
  eapply (hoare_bind (eq db0) _ _ (fun D db => db = db0 /\ D = db0)); [apply hoare_get; by intros db <-| |done|done].
  intros D. eapply (hoare_bind _ _ _ (fun n db => (db = db0 /\ D = db0) /\ n = count_jobs active db0)).
  { apply hoare_driver; [|done]. by intros db n [-> ->] [= <-]. }
  intros total.
  eapply (hoare_bind _ _ _ (fun n db => db = db0 /\ total = count_jobs active db0 /\
      n = count_jobs (workspace_active (spec_Workspace spec)) db0)).
  { apply hoare_driver; [|done]. by intros db n [[-> ->] ->] [= <-]. }
  intros wcount. eapply (hoare_bind _ _ _ (fun _ db => (db = db0 /\ wcount = count_jobs (workspace_active (spec_Workspace spec)) db0) /\
     count_jobs active db0 < cfg_MaxJobs config)).
  { apply hoare_guard; [done|]. intros db (-> & -> & ->) Hg. breflect. done. }
  intros _. eapply (hoare_bind _ _ _ (fun _ db => db = db0 /\ count_jobs active db0 < cfg_MaxJobs config /\
     count_jobs (workspace_active (spec_Workspace spec)) db0 < cfg_MaxJobsPerWorkspace config)).
  { apply hoare_guard; [done|]. intros db ((-> & ->) & ?) Hg. breflect. done. }
  intros _ s1 fs1 HF1 (-> & Htotal & Hws).
  eapply (hoare_bind (eq db0)); [eapply hoare_conseq; [apply (hoare_dependencyState F _ db0 _ Hj)|done|done|done]| |done|done].
  intros [state reason] s2 fs2 HF2 [-> Hv].
  eapply (hoare_bind (eq db0)); [eapply hoare_conseq; [apply hoare_randomID|done|done|done]| |done|done].
  intros jobID s3 fs3 HF3 (-> & bytes & Hb & ->). set (jobID := "wj_" +:+ EncodeToString bytes).
  assert (Hid : MatchString jobIDPattern jobID = true) by (apply match_hex_id; [done|]; by rewrite (Hrand _ Hb)).
  eapply (hoare_bind (eq db0)); [eapply hoare_conseq; [apply hoare_insert_job|done|done|done]| |done|done].
  intros u s4 fs4 HF4 [-> Hfresh]. set (db1 := with_jobs _ db0).
  eapply (hoare_bind (eq db1)); [eapply hoare_conseq; [apply (hoare_insert_dependencies F jobID (spec_Dependencies spec) db1)|done|done|done]| |done|done].
  { unfold db1. cbn. rewrite lookup_insert_eq. eauto. }
  intros v. apply hoare_ret. intros db [-> Hdeps]. exists state, reason. split; [|done].
  split; try done; [by exists bytes|]. intros d Hd Hne. specialize (Hdeps d Hd). unfold db1 in Hdeps. cbn in Hdeps.
  by rewrite lookup_insert_ne in Hdeps.
Qed.

(** ** The database after an insertion *)
Lemma validateSpec_header spec jobID now :
  validateSpec spec = Ok tt -> MatchString jobIDPattern jobID = true -> header_ok jobID (ident_of spec now).
Proof.
  intros Hs Hid. split; [done|]. unfold validateSpec in *. cbn. destruct (_ || _) eqn:Eg; [done|].
  breflect. repeat match goal with E : MatchString _ _ = true |- _ => rewrite E; clear E end. done.
Qed.

Lemma canonicalSpec_fields spec :
  ident_of (canonicalSpec spec) = ident_of spec /\ spec_Dependencies (canonicalSpec spec) ≡ₚ spec_Dependencies spec.
Proof.
  unfold canonicalSpec. destruct spec as [k w p pr ph [|d deps]]; [done|].
  split; [done|]. apply sort_strings_perm.
Qed.

Lemma inserted_dependencies jobID row deps db0 j d :
  (j, d) ∈ db_dependencies (with_new_job jobID row deps db0) <->
  (j = jobID /\ d ∈ deps) \/ (j, d) ∈ db_dependencies db0.
Proof. cbn. set_solver. Qed.

Section Inserted.
Context (F : bool -> Prop) (config : Config) (spec : Spec) (now : time) (random : option string) (db0 : DB) (jobID : string)
  (state : State) (reason : Reason).
Hypothesis Hok : tx_ok F now db0 db0.
Hypothesis Hhead : header_ok jobID (ident_of spec now).
Hypothesis Hen : enqueued config spec random db0 jobID state reason.
#[local] Abbreviation row := (enqueued_row spec now state reason).
#[local] Abbreviation db1 := (with_new_job jobID row (spec_Dependencies spec) db0).

Lemma enqueued_state :
  (state = StateFailed /\ reason = ReasonDependencyFailed) \/
  (state = StateBlocked /\ reason = ReasonDependencyPending) \/ (state = StateQueued /\ reason = ReasonNone).
Proof. destruct (en_verdict _ _ _ _ _ _ _ Hen) as [[[= -> ->] _]|(_ & [([= -> ->] & _)|([= -> ->] & _)])]; auto. Qed.

Lemma enqueued_row_inv : row_inv (UnixNano now) jobID row.
Proof.
  pose proof (UnixNano_int64 now) as Hn. apply row_inv_iff. unfold enqueued_row, new_row, attempts_ok, state_ok.
  cbn [r_fence r_attempt r_state r_ident r_updated_at r_result_ref r_lease_until r_reason r_cancel_requested
       r_outcome i_created_at ident_of].
  split_and!; try done; try lia.
  - destruct enqueued_state as [[-> ->]|[[-> ->]|[-> ->]]]; unfold MaxLeaseAttempts; lia.
  - by apply in_int64_nonzero.
  - destruct enqueued_state as [[-> ->]|[[-> ->]|[-> ->]]]; unfold no_lease; cbn; split_and!; auto; try done.
    apply system_result_ok; [done|]. unfold system_summaries. set_solver.
Qed.

Lemma inserted_lookup id : id <> jobID -> db_jobs db1 !! id = db_jobs db0 !! id.
Proof. intros Hne. cbn. by rewrite lookup_insert_ne. Qed.

Lemma inserted_old j d : (j, d) ∈ db_dependencies db0 -> j <> jobID /\ d <> jobID.
Proof.
  intros Hjd. destruct (ti_fk _ _ _ (proj1 Hok) _ _ Hjd) as [[] []].
  pose proof (en_fresh _ _ _ _ _ _ _ Hen). split; intros ->; congruence.
Qed.

Lemma inserted_fk : fk_ok db1.
Proof.
  intros j d Hjd. apply inserted_dependencies in Hjd.
  assert (Hj : is_Some (db_jobs db1 !! jobID)) by (cbn; rewrite lookup_insert_eq; eauto).
  destruct Hjd as [[-> Hd]|Hjd].
  - split; [done|]. destruct (decide (d = jobID)) as [->|Hne]; [done|].
    rewrite inserted_lookup by done. by apply (en_deps _ _ _ _ _ _ _ Hen).
  - destruct (inserted_old _ _ Hjd). rewrite !inserted_lookup by done. by apply (ti_fk _ _ _ (proj1 Hok)).
Qed.

Lemma inserted_state_of id : id <> jobID -> state_of db1 id = state_of db0 id.
Proof. intros Hne. unfold state_of. by rewrite inserted_lookup. Qed.

Lemma inserted_blocked_ok : jobID ∉ spec_Dependencies spec -> blocked_ok db0 -> blocked_ok db1.
Proof.
  intros Hself Hb. apply blocked_ok_iff. rewrite blocked_ok_iff in Hb. intros j Hj. apply pending_iff.
  destruct (decide (j = jobID)) as [->|Hne].
  - unfold state_of in Hj. cbn in Hj. rewrite lookup_insert_eq in Hj. cbn in Hj. injection Hj as Hj.
    destruct (en_verdict _ _ _ _ _ _ _ Hen) as [[[= ->] _]|(Hnone & [(_ & [?|(d & s & Hd & Hs & Hn)])|([= ->] & _)])]; try done.
    assert (Hdep : forall d, (jobID, d) ∈ db_dependencies db1 -> d ∈ spec_Dependencies spec /\ state_of db1 d = state_of db0 d).
    { intros d' Hd'. apply inserted_dependencies in Hd' as [[_ Hd']|Hd']; [|by destruct (inserted_old _ _ Hd')].
      split; [done|]. apply inserted_state_of. set_solver. }
    split.
    + exists d, s. split_and!; [apply inserted_dependencies; auto| |done]. rewrite inserted_state_of; set_solver.
    + intros d' s' Hd' Hs'. destruct (Hdep _ Hd') as [Hin E]. rewrite E in Hs'. eauto.
  - rewrite inserted_state_of in Hj by done. specialize (Hb _ Hj). apply pending_iff in Hb as [(d & s & Hd & Hs & Hn) Hall].
    assert (Hdep : forall d, (j, d) ∈ db_dependencies db1 -> (j, d) ∈ db_dependencies db0 /\ state_of db1 d = state_of db0 d).
    { intros d' Hd'. apply inserted_dependencies in Hd' as [[? _]|Hd']; [done|]. split; [done|].
      apply inserted_state_of. by destruct (inserted_old _ _ Hd'). }
    split.
    + exists d, s. destruct (inserted_old _ _ Hd). split_and!; [apply inserted_dependencies; auto| |done].
      by rewrite inserted_state_of.
    + intros d' s' Hd' Hs'. destruct (Hdep _ Hd') as [Hin E]. rewrite E in Hs'. eauto.
Qed.

Lemma inserted_jobs_inv : jobs_inv (UnixNano now) db1.
Proof. apply map_Forall_insert_2; [apply enqueued_row_inv|]. apply (ti_jobs _ _ _ (proj1 Hok)). Qed.
End Inserted.

(** ** [Enqueue] *)
Definition Enqueue_post (spec0 : Spec) (now : time) (random : option string) (s0 : Store) (r : Job * bool) (s : Store) : Prop :=
  let spec := canonicalSpec spec0 in
  if snd r then
    validateSpec spec0 = Ok tt /\ exists jobID state reason, enqueued (st_config s0) spec random (st_db s0) jobID state reason /\
      let row := enqueued_row spec now state reason in
      s = set_db (with_new_job jobID row (spec_Dependencies spec) (st_db s0)) s0 /\ fst r = job_of_row jobID row
  else s = s0 /\ exists id row, fst r = job_of_row id row /\ same_request (st_db s0) spec id row.

Lemma Enqueue_spec F spec now random s0 :
  tx_ok F now (st_db s0) (st_db s0) -> random_ok random ->
  hoare F (eq s0) (Enqueue spec now random) (Enqueue_post spec now random s0)
    (fun e s => s = s0 \/ (e = read_failed /\ F true /\ validateSpec spec = Ok tt /\ exists jobID state reason,
       enqueued (st_config s0) (canonicalSpec spec) random (st_db s0) jobID state reason /\
       s = set_db (with_new_job jobID (enqueued_row (canonicalSpec spec) now state reason)
                     (spec_Dependencies (canonicalSpec spec)) (st_db s0)) s0)).
Proof.
  intros Hok Hrand. unfold Enqueue. eapply (hoare_bind _ _ _ (fun _ s => s = s0 /\ validateSpec spec = Ok tt)).
  { apply hoare_lift; [by intros s [] <- ?|by intros s e <- _; left]. }
  intros _. eapply (hoare_bind _ _ _ (fun D s => (s = s0 /\ validateSpec spec = Ok tt) /\ D = s0)).
  { apply hoare_get. by intros s [-> ?]. }
  intros D s fs HF [[-> Hspec] ->].
  eapply (hoare_with_tx F _ _ _ s0); [by apply (hoare_Enqueue_tx F)| |by left|done|done].
  intros [job|jobID] db; cbn.
  - intros (-> & id & r & -> & Hsame). apply hoare_ret. intros s <-. cbn. eauto.
  - intros (state & reason & Hen & ->).
    assert (Hhead : header_ok jobID (ident_of (canonicalSpec spec) now)).
    { rewrite (proj1 (canonicalSpec_fields spec)). apply validateSpec_header; [done|apply Hen]. }
    apply (hoare_commit_read F _ s0 _ jobID (UnixNano now) (fun job => (default zero_job job, true))).
    + by eapply inserted_jobs_inv.
    + split; [done|]. exists jobID, state, reason. split; [done|]. cbn. rewrite lookup_insert_eq. done.
    + by left.
    + intros HF0. right. split_and!; [done..|]. by exists jobID, state, reason.
Qed.

(** ** [CleanupTerminal] *)
Lemma cleanup_ids_removable cutoff limit db id :
  id ∈ cleanup_ids cutoff limit db -> exists r, db_jobs db !! id = Some r /\ terminal (r_state r) = true /\
    r_updated_at r < cutoff /\ (forall j, (j, id) ∉ db_dependencies db) /\
    (forall k w, db_task_workers db !! k = Some w -> tw_job_id w <> id).
Proof.
  unfold cleanup_ids. intros ([id' r] & -> & Hin)%list_elem_of_fmap. apply elem_of_take in Hin as (i & Hi & _).
  apply list_elem_of_lookup_2 in Hi. rewrite merge_sort_Permutation in Hi.
  apply list_elem_of_filter in Hi as [Hc Hi]. apply elem_of_map_to_list in Hi. cbn in *. exists r.
  unfold removable in Hc. breflect. split_and!; try done.
  - apply terminal_spec. apply orb_true_iff in H2 as [H2|H2]; [apply orb_true_iff in H2 as [H2|H2]|]; breflect; auto.
  - intros j Hj. rewrite forallb_forall in H4. specialize (H4 (j, id')). cbn in H4.
    rewrite bool_decide_true in H4 by done. discriminate H4. apply list_elem_of_In. by apply elem_of_elements.
  - intros k w Hw E. rewrite forallb_forall in H3. specialize (H3 (k, w)). cbn in H3.
    rewrite bool_decide_true in H3 by done. discriminate H3. apply list_elem_of_In. by apply elem_of_map_to_list.
Qed.

End Enqueue.
