(* ===== verification/WorkqueueSystem.v ===== *)
(** * The work queue as a system

    Sequences of queue operations under arbitrary driver faults: the store
    invariant, the life cycle of a job, leases and fences, dependencies, and the
    contracts of the single operations. *)

From S2P Require Import Prelude GoStrings GoRegexp Effects PolicyScan WorkqueueTypes Admission Fairness WorkqueueRows WorkqueueStore WorkqueueInv WorkqueueOps WorkqueueEnqueue.

(** ** Operations *)
Inductive op :=
| OpEnqueue (spec : Spec) (now : time) (random : option string)
| OpLeaseNext (pool holder : string) (ttl : duration) (now : time) (random : option string)
| OpHeartbeat (jobID leaseID : string) (fence : Z) (ttl : duration) (now : time)
| OpComplete (jobID leaseID : string) (fence : Z) (res : Result) (checked now : time)
| OpCancel (jobID : string) (now : time)
| OpRecover (now : time)
| OpCleanup (retention : duration) (limit : Z) (now : time).

Definition op_time (o : op) : time :=
  match o with
  | OpEnqueue _ now _ | OpLeaseNext _ _ _ now _ | OpHeartbeat _ _ _ _ now | OpComplete _ _ _ _ _ now
  | OpCancel _ now | OpRecover now | OpCleanup _ _ now => now
  end.

(** What is assumed of the surroundings: the clock is within the range of
    [UnixNano], random identifiers are 16 bytes long, and a new job's identifier
    is not one the caller already named as a dependency. *)
Definition op_ok (o : op) : Prop :=
  in_int64 (op_time o) /\
  match o with
  | OpEnqueue spec _ random =>
      random_ok random /\ forall b, random = Some b -> "wj_" +:+ EncodeToString b ∉ spec_Dependencies spec
  | OpLeaseNext _ _ _ _ random => random_ok random
  | _ => True
  end.

Section System.
Context `{SystemSummaries} `{SqlScan}.

Definition ignore {A} (m : M Store A) : M Store unit := let! _ := m in mret tt.

Definition exec (o : op) : M Store unit :=
  match o with
  | OpEnqueue spec now random => ignore (Enqueue spec now random)
  | OpLeaseNext pool holder ttl now random => ignore (LeaseNext pool holder ttl now random)
  | OpHeartbeat jobID leaseID fence ttl now => ignore (Heartbeat jobID leaseID fence ttl now)
  | OpComplete jobID leaseID fence res checked now => ignore (Complete jobID leaseID fence res checked now)
  | OpCancel jobID now => ignore (Cancel jobID now)
  | OpRecover now => ignore (RecoverExpired now)
  | OpCleanup retention limit now => ignore (CleanupTerminal retention limit now)
  end.

(** ** The store invariant *)
Definition config_ok (c : Config) : Prop :=
  1 <= cfg_MaxJobs c <= 4096 /\ 1 <= cfg_MaxJobsPerWorkspace c <= cfg_MaxJobs c.

Definition acyclic (db : DB) : Prop :=
  exists rank : string -> nat, forall j d, (j, d) ∈ db_dependencies db -> (rank d < rank j)%nat.

Definition bounds_ok (c : Config) (db : DB) : Prop :=
  count_jobs active db <= cfg_MaxJobs c /\
  forall w, count_jobs (workspace_active w) db <= cfg_MaxJobsPerWorkspace c.

Record store_inv (F : bool -> Prop) (now : Z) (s : Store) : Prop := {
  si_config : config_ok (st_config s);
  si_fair : sched_ok (st_fair s);
  si_jobs : jobs_inv now (st_db s);
  si_fk : fk_ok (st_db s);
  si_keys : keys_unique (st_db s);
  si_acyclic : acyclic (st_db s);
  si_bounds : bounds_ok (st_config s) (st_db s);
  si_blocked : F true \/ blocked_ok (st_db s);
}.

(** ** Counting *)
Lemma count_jobs_mono cond cond' db db' :
  (forall id r', db_jobs db' !! id = Some r' -> cond' r' = true ->
     exists r, db_jobs db !! id = Some r /\ cond r = true) ->
  count_jobs cond' db' <= count_jobs cond db.
Proof.
  intros Hsub. unfold count_jobs. apply inj_le. rewrite <- !size_dom. apply subseteq_size.
  intros id [r' [Hr' Hc]%map_lookup_filter_Some]%elem_of_dom. destruct (Hsub _ _ Hr' Hc) as (r & Hr & Hc').
  apply elem_of_dom. exists r. by apply map_lookup_filter_Some.
Qed.

Lemma count_jobs_insert cond db id r deps :
  count_jobs cond (with_new_job id r deps db) <= count_jobs cond db + 1.
Proof.
  unfold count_jobs. cbn. destruct (decide (cond r = true)) as [Hc|Hc].
  - rewrite map_filter_insert_True by done. rewrite map_size_insert. case_match; cbn; lia.
  - rewrite map_filter_insert_False by done. rewrite map_filter_delete.
    rewrite map_size_delete. case_match; cbn; lia.
Qed.

Lemma row_step_rtc_active now r r' : rtc (row_step now) r r' -> active r' = true -> active r = true.
Proof.
  intros Hr Ha. destruct Hr as [|x y z Hxy _]; [done|]. apply row_step_active in Hxy as Ht.
  destruct Hxy as [? ? ? ? E|? ? ? ? ? E|? ? E|? ? ? E|? E|? [E|E]|? E|? E]; unfold active; by rewrite E.
Qed.

Lemma row_step_rtc_ident now r r' : rtc (row_step now) r r' -> r_ident r' = r_ident r /\ r_fence r <= r_fence r'.
Proof.
  induction 1 as [|x y z Hxy _ [IH1 IH2]]; [split; [done|lia]|].
  destruct (row_step_fence _ _ _ Hxy) as (? & ? & _). split; [congruence|lia].
Qed.

(** ** Invariants along evolution *)
Lemma evolves_lookup now db db' id r' : db_evolves now db db' -> db_jobs db' !! id = Some r' ->
  exists r, db_jobs db !! id = Some r /\ rtc (row_step now) r r'.
Proof.
  intros (_ & _ & R) Hr'. specialize (R id). rewrite Hr' in R. inversion R; subst; eauto.
Qed.

Lemma evolves_bounds now c db db' : db_evolves now db db' -> bounds_ok c db -> bounds_ok c db'.
Proof.
  intros He [Hb Hw]. split.
  - etrans; [|exact Hb]. apply count_jobs_mono. intros id r' Hr' Ha.
    destruct (evolves_lookup _ _ _ _ _ He Hr') as (r & Hr & Hs). eauto using row_step_rtc_active.
  - intros w. etrans; [|apply (Hw w)]. apply count_jobs_mono. intros id r' Hr' Ha.
    destruct (evolves_lookup _ _ _ _ _ He Hr') as (r & Hr & Hs). exists r. split; [done|].
    unfold workspace_active in *. apply andb_true_iff in Ha as [Hi Ha].
    destruct (row_step_rtc_ident _ _ _ Hs) as [E _]. rewrite E in Hi. rewrite Hi. cbn.
    by eapply row_step_rtc_active.
Qed.

Lemma evolves_keys now db db' : db_evolves now db db' -> keys_unique db -> keys_unique db'.
Proof.
  intros He Hk i j r1 r2 H1' H2' E.
  destruct (evolves_lookup _ _ _ _ _ He H1') as (x1 & Hx1 & [E1 _]%row_step_rtc_ident).
  destruct (evolves_lookup _ _ _ _ _ He H2') as (x2 & Hx2 & [E2 _]%row_step_rtc_ident).
  apply (Hk i j x1 x2 Hx1 Hx2). unfold row_key in *. congruence.
Qed.

Lemma store_inv_tx F now0 s : store_inv F now0 s -> forall now, now0 <= UnixNano now -> tx_ok F now (st_db s) (st_db s).
Proof.
  intros Hi now Hle. split; [split; [reflexivity| |apply Hi]|apply Hi].
  eapply jobs_inv_mono; [exact Hle|apply Hi].
Qed.

Lemma store_inv_evolves F now0 now s0 s :
  store_inv F now0 s0 -> st_config s = st_config s0 -> sched_ok (st_fair s) ->
  tx_ok F now (st_db s0) (st_db s) -> store_inv F (UnixNano now) s.
Proof.
  intros Hi Hc Hf [[He Hj Hfk] Hb]. split; try done.
  - rewrite Hc. apply Hi.
  - eapply evolves_keys; [exact He|apply Hi].
  - destruct (si_acyclic _ _ _ Hi) as [rank Hr]. exists rank. intros j d. rewrite (proj1 He). apply Hr.
  - rewrite Hc. eapply evolves_bounds; [exact He|apply Hi].
Qed.

(** ** Life of a job across operations

    A job moves along the state machine, is new, or is removed when it is terminal and
    no task has it as a worker. *)
Definition job_moves (now : Z) (db db' : DB) : Prop :=
  forall id r, db_jobs db !! id = Some r ->
    (exists r', db_jobs db' !! id = Some r' /\ rtc (row_step now) r r') \/
    (db_jobs db' !! id = None /\ terminal (r_state r) = true /\ forall k w, db_task_workers db !! k = Some w -> tw_job_id w <> id).

Lemma evolves_moves now db db' : db_evolves now db db' -> job_moves now db db'.
Proof.
  intros (_ & _ & R) id r Hr. specialize (R id). rewrite Hr in R. inversion R; subst. eauto.
Qed.

Lemma store_inv_insert F now0 spec now random s0 jobID state reason :
  store_inv F now0 s0 -> now0 <= UnixNano now -> header_ok jobID (ident_of spec now) ->
  enqueued (st_config s0) spec random (st_db s0) jobID state reason -> jobID ∉ spec_Dependencies spec ->
  let db := with_new_job jobID (enqueued_row spec now state reason) (spec_Dependencies spec) (st_db s0) in
  store_inv F (UnixNano now) (set_db db s0) /\ job_moves (UnixNano now) (st_db s0) db.
Proof.
  intros Hi Hle Hh Hen Hself db. pose proof (store_inv_tx F now0 s0 Hi now Hle) as Hok.
  pose proof (en_fresh _ _ _ _ _ _ _ Hen) as Hfresh.
  split; [split|]; cbn; try apply Hi.
  - by eapply inserted_jobs_inv.
  - by eapply inserted_fk.
  - intros i j r1 r2 H1' H2' E. cbn in H1', H2'. rewrite lookup_insert in H1', H2'.
    destruct (decide (jobID = i)) as [Ei|Ei], (decide (jobID = j)) as [Ej|Ej]; [congruence| | |].
    + injection H1' as <-. exfalso. by apply (en_key _ _ _ _ _ _ _ Hen _ _ H2').
    + injection H2' as <-. exfalso. by apply (en_key _ _ _ _ _ _ _ Hen _ _ H1').
    + by apply (si_keys _ _ _ Hi i j r1 r2).
  - destruct (si_acyclic _ _ _ Hi) as [rank Hr].
    set (top := S (max_list (rank <$> spec_Dependencies spec))).
    exists (fun x => if decide (x = jobID) then top else rank x). intros j d Hjd.
    apply inserted_dependencies in Hjd as [[-> Hd]|Hjd].
    + rewrite (decide_True (P := jobID = jobID)) by done. rewrite decide_False by (by intros ->). unfold top.
      apply Nat.lt_succ_r, max_list_elem_of_le, list_elem_of_fmap_2. done.
    + destruct (inserted_old F _ _ _ _ _ _ _ _ Hok Hen _ _ Hjd). rewrite !decide_False by done. auto.
  - destruct (si_bounds _ _ _ Hi) as [Hb Hw]. pose proof (en_total _ _ _ _ _ _ _ Hen).
    pose proof (en_workspace _ _ _ _ _ _ _ Hen) as Hws. split.
    + etrans; [apply count_jobs_insert|lia].
    + intros w. destruct (decide (w = spec_Workspace spec)) as [->|Hne]; [etrans; [apply count_jobs_insert|lia]|].
      etrans; [|apply (Hw w)]. apply count_jobs_mono. intros id r Hr Hc. cbn in Hr.
      rewrite lookup_insert in Hr. case_decide as E; [|eauto]. injection Hr as <-.
      unfold workspace_active in Hc. cbn in Hc. by rewrite bool_decide_false in Hc by done.
  - destruct (si_blocked _ _ _ Hi) as [?|Hb]; [by left|]. right. by eapply inserted_blocked_ok.
  - intros id r Hr. left. exists r. cbn. rewrite lookup_insert_ne by (intros <-; congruence). split; [done|apply rtc_refl].
Qed.

(** ** Retention *)
Lemma delete_moves now cutoff limit db :
  job_moves now db (delete_jobs (cleanup_ids cutoff limit db) db).
Proof.
  intros id r Hr. cbn. destruct (decide (id ∈ cleanup_ids cutoff limit db)) as [Hin|Hni].
  - right. destruct (cleanup_ids_removable _ _ _ _ Hin) as (r' & Hr' & Ht & _ & _ & Hw). split_and!; [|congruence|done].
    apply map_lookup_filter_None. right. naive_solver.
  - left. exists r. split; [|apply rtc_refl]. by apply map_lookup_filter_Some.
Qed.

Lemma store_inv_delete F now0 now cutoff limit s0 :
  store_inv F now0 s0 -> now0 <= now ->
  store_inv F now (set_db (delete_jobs (cleanup_ids cutoff limit (st_db s0)) (st_db s0)) s0).
Proof.
  intros Hi Hle. set (ids := cleanup_ids _ _ _). set (db := st_db s0).
  assert (Hlk : forall id r, db_jobs (delete_jobs ids db) !! id = Some r -> db_jobs db !! id = Some r /\ id ∉ ids).
  { intros id r Hr. by apply map_lookup_filter_Some in Hr. }
  assert (Hkeep : forall id r, db_jobs db !! id = Some r -> id ∉ ids -> db_jobs (delete_jobs ids db) !! id = Some r).
  { intros id r Hr Hn. by apply map_lookup_filter_Some. }
  assert (Hdep : forall j d, (j, d) ∈ db_dependencies db -> d ∉ ids).
  { intros j d Hjd Hin. destruct (cleanup_ids_removable _ _ _ _ Hin) as (_ & _ & _ & _ & Hno & _). by apply (Hno j). }
  assert (Hdeps : forall j d, (j, d) ∈ db_dependencies (delete_jobs ids db) <-> j ∉ ids /\ (j, d) ∈ db_dependencies db).
  { intros j d. cbn. rewrite elem_of_filter. done. }
  split; cbn; try apply Hi.
  - intros id r [Hr _]%Hlk. eapply row_inv_mono; [exact Hle|]. by apply (si_jobs _ _ _ Hi id r).
  - intros j d [Hj Hjd]%Hdeps. destruct (si_fk _ _ _ Hi _ _ Hjd) as [[x Hx] [y Hy]].
    rewrite (Hkeep _ _ Hx Hj), (Hkeep _ _ Hy (Hdep _ _ Hjd)). eauto.
  - intros i j r1 r2 [H1' _]%Hlk [H2' _]%Hlk. by apply (si_keys _ _ _ Hi i j r1 r2).
  - destruct (si_acyclic _ _ _ Hi) as [rank Hr]. exists rank. intros j d [_ Hjd]%Hdeps. auto.
  - destruct (si_bounds _ _ _ Hi) as [Hb Hw].
    split; [etrans; [|exact Hb]|intros w; etrans; [|apply (Hw w)]]; apply count_jobs_mono; intros id r [Hr _]%Hlk Hc; eauto.
  - destruct (si_blocked _ _ _ Hi) as [?|Hb]; [by left|]. right. intros j r Hr%Hlk E. destruct Hr as [Hr Hj].
    specialize (Hb j r Hr E) as [(d & x & Hd & Hx & Hn) Hall]. split.
    + exists d, x. split_and!; [by apply Hdeps|by eauto|done].
    + intros d' x' [_ Hd']%Hdeps [Hx' _]%Hlk. by eapply Hall.
Qed.

Lemma CleanupTerminal_spec F retention limit now s0 :
  hoare F (eq s0) (CleanupTerminal retention limit now)
    (fun n s => exists cutoff, cutoff = UnixNano (TimeAdd now (- retention)) /\
       n = Z.of_nat (length (cleanup_ids cutoff limit (st_db s0))) /\
       s = set_db (delete_jobs (cleanup_ids cutoff limit (st_db s0)) (st_db s0)) s0)
    (fun e s => s = s0 \/ e = "workqueue: cleanup result unavailable" /\ exists cutoff, s = set_db (delete_jobs (cleanup_ids cutoff limit (st_db s0)) (st_db s0)) s0).
Proof.
  unfold CleanupTerminal. eapply (hoare_bind _ _ _ (fun _ s => s = s0)); [apply hoare_guard; intros s <-; auto|].
  intros _. eapply (hoare_bind _ _ _ (fun D s => s = s0 /\ D = s0)); [apply hoare_get; by intros s ->|]. intros D.
  set (cutoff := UnixNano _). set (ids0 := cleanup_ids cutoff limit (st_db s0)).
  eapply (hoare_bind _ _ _ (fun ids s => (s = s0 /\ D = s0) /\ ids = ids0)).
  { apply hoare_driver; [by intros s ids [-> ->] [= <-]|]. intros s [-> _] _. auto. }
  intros ids. eapply (hoare_bind _ _ _ (fun _ s => ids = ids0 /\ s = set_db (delete_jobs ids0 (st_db s0)) s0)).
  { intros s fs HF [[-> ->] ->]. done. }
  intros _. apply hoare_driver.
  - intros s n [-> ->] [= <-]. by exists cutoff.
  - intros s [-> ->] _. right. split; [done|]. by exists cutoff.
Qed.

(** ** One operation *)
Definition op_post (F : bool -> Prop) (o : op) (s0 s : Store) : Prop :=
  store_inv F (UnixNano (op_time o)) s /\ job_moves (UnixNano (op_time o)) (st_db s0) (st_db s) /\
  st_config s = st_config s0 /\ task_tables (st_db s) = task_tables (st_db s0).

Lemma hoare_ignore {A} F (P : Store -> Prop) (m : M Store A) (Q : Store -> Prop) :
  hoare F P m (fun _ => Q) (fun _ => Q) -> hoare F P (ignore m) (fun _ => Q) (fun _ => Q).
Proof. intros Hm. eapply hoare_bind; [exact Hm|]. intros a. by apply hoare_ret. Qed.

Section Exec.
Context (F : bool -> Prop) (now0 : Z) (o : op) (s0 : Store).
Hypothesis Hinv : store_inv F now0 s0.
Hypothesis Hle : now0 <= UnixNano (op_time o).

Lemma op_post_evolves s :
  st_config s = st_config s0 -> sched_ok (st_fair s) ->
  tx_ok F (op_time o) (st_db s0) (st_db s) -> op_post F o s0 s.
Proof.
  intros Hc Hf Hok. split_and!; [by eapply store_inv_evolves| |done|apply Hok].
  apply evolves_moves, Hok.
Qed.

Lemma op_post_same : op_post F o s0 s0.
Proof. apply op_post_evolves; [done|apply Hinv|by eapply store_inv_tx]. Qed.

Lemma op_post_set_db db : tx_ok F (op_time o) (st_db s0) db -> op_post F o s0 (set_db db s0).
Proof. intros Hok. apply op_post_evolves; [done|apply Hinv|done]. Qed.

Lemma op_post_error late C e s : error_db F (op_time o) late C s0 e s -> op_post F o s0 s.
Proof. intros [->|(_ & _ & _ & db & -> & Hdb)]; [apply op_post_same|by apply op_post_set_db]. Qed.
End Exec.

(** Every operation keeps the store invariant and moves every job along the
    state machine, whether it succeeds, fails or meets driver faults. *)
Lemma exec_spec F now0 o s0 :
  store_inv F now0 s0 -> now0 <= UnixNano (op_time o) -> op_ok o ->
  hoare F (eq s0) (exec o) (fun _ => op_post F o s0) (fun _ => op_post F o s0).
Proof.
  intros Hi Hle [Hnow Ho]. pose proof (store_inv_tx F now0 s0 Hi _ Hle) as Hok.
  pose proof (fun late C e s Hs => op_post_error F now0 o s0 Hi Hle late C e s Hs) as Herr.
  destruct o as [spec now random|pool holder ttl now random|jobID leaseID fence ttl now
    |jobID leaseID fence res checked now|jobID now|now|retention limit now]; cbn [exec op_time] in *; apply hoare_ignore.
  - destruct Ho as [Hr Hself].
    assert (Hins : forall jobID state reason, validateSpec spec = Ok tt ->
      enqueued (st_config s0) (canonicalSpec spec) random (st_db s0) jobID state reason ->
      op_post F (OpEnqueue spec now random) s0 (set_db (with_new_job jobID (enqueued_row (canonicalSpec spec) now state reason)
         (spec_Dependencies (canonicalSpec spec)) (st_db s0)) s0)).
    { intros jobID state reason Hs Hen.
      destruct (store_inv_insert F now0 (canonicalSpec spec) now random s0 jobID state reason) as [H1' H2'];
        [done|done| |done| |by split_and!].
      - rewrite (proj1 (canonicalSpec_fields spec)). apply validateSpec_header; [done|apply Hen].
      - rewrite (proj2 (canonicalSpec_fields spec)). destruct (en_random _ _ _ _ _ _ _ Hen) as (b & Hb & ->). by apply Hself. }
    eapply hoare_conseq; [by apply Enqueue_spec|done| |].
    + intros [job []] s; cbn; [intros (Hs & jobID & state & reason & Hen & -> & _); by apply Hins|].
      intros [-> _]. by apply (op_post_same F now0).
    + intros e s [->|(_ & _ & Hs & jobID & state & reason & Hen & ->)]; [by apply (op_post_same F now0)|by apply Hins].
  - eapply hoare_conseq; [by apply LeaseNext_spec; [|apply Hi|]|done| |].
    + intros l s []. by apply (op_post_evolves F now0 _ s0 Hi).
    + intros e s (Hc & Hf & [(_ & Htx & _)|(Hdb & _)]); apply (op_post_evolves F now0 _ s0 Hi); try done. by rewrite Hdb.
  - eapply hoare_conseq; [by apply Heartbeat_spec|done| |intros e s Hs; exact (Herr _ _ _ _ Hs)].
    intros st s (r & _ & _ & -> & Htx & _). by apply (op_post_set_db F now0 (OpHeartbeat jobID leaseID fence ttl now) s0 Hi).
  - eapply hoare_conseq; [by apply Complete_spec|done| |intros e s Hs; exact (Herr _ _ _ _ Hs)].
    intros job s [[-> _]|(db & r & -> & Htx & _)]; [by apply (op_post_same F now0)|].
    by apply (op_post_set_db F now0 (OpComplete jobID leaseID fence res checked now) s0 Hi).
  - eapply hoare_conseq; [by apply Cancel_spec|done| |intros e s Hs; exact (Herr _ _ _ _ Hs)].
    intros job s (r & _ & Hs). destruct (terminal _); [destruct Hs as [-> _]; by apply (op_post_same F now0)|].
    destruct Hs as (db & -> & Htx & _). by apply (op_post_set_db F now0 (OpCancel jobID now) s0 Hi).
  - eapply hoare_conseq; [by apply RecoverExpired_spec|done| |].
    + intros [] s (db & Htx & ->). by apply (op_post_set_db F now0 (OpRecover now) s0 Hi).
    + intros e s [-> _]. by apply (op_post_same F now0).
  - assert (Hdel : forall cutoff, op_post F (OpCleanup retention limit now) s0
      (set_db (delete_jobs (cleanup_ids cutoff limit (st_db s0)) (st_db s0)) s0)).
    { intros cutoff. split_and!; [by eapply store_inv_delete|apply delete_moves|done|done]. }
    eapply hoare_conseq; [apply CleanupTerminal_spec|done| |].
    + intros n s (cutoff & _ & _ & ->). apply Hdel.
    + intros e s [->|[_ [cutoff ->]]]; [by apply (op_post_same F now0)|apply Hdel].
Qed.

End System.
