(* ===== verification/Workqueue.v ===== *)
(** * Theorems about the work queue

    The guarantees the queue gives its callers, over any sequence of operations
    from a freshly opened store and any driver faults. *)

From S2P Require Import Prelude GoStrings GoRegexp Effects PolicyScan WorkqueueTypes Admission Fairness WorkqueueRows WorkqueueStore WorkqueueInv WorkqueueOps WorkqueueEnqueue WorkqueueSystem.

(** The store [Open] returns on an empty database. *)
Definition empty_db : DB := {| db_jobs := ∅; db_dependencies := ∅; db_task_workers := ∅; db_task_groups := ∅ |}.
Definition fresh_store (config : Config) : result Store :=
  let? validated := validateConfig config in
  let? fair := NewFairScheduler {| fc_Quantum := 1; fc_AgingLimit := Minute |} in
  Ok {| st_config := validated; st_db := empty_db; st_fair := fair |}.

Section Theorems.
Context `{SystemSummaries} `{SqlScan}.

(** Operations with their faults, at times that do not decrease. *)
Inductive trace (F : bool -> Prop) : Z -> Store -> list (op * list bool) -> Z -> Store -> Prop :=
| trace_nil now s : trace F now s [] now s
| trace_cons now s o fs r s1 rest now' s' :
    op_ok o -> now <= op_time o -> Forall F fs -> run (exec o) s fs = (r, s1) ->
    trace F (op_time o) s1 rest now' s' -> trace F now s ((o, fs) :: rest) now' s'.

Lemma op_time_UnixNano o : op_ok o -> UnixNano (op_time o) = op_time o.
Proof. intros [Hn _]. by apply wrap64_id. Qed.

Lemma run_op_post F now o s fs r s' :
  store_inv F now s -> now <= op_time o -> op_ok o -> Forall F fs -> run (exec o) s fs = (r, s') -> op_post F o s s'.
Proof.
  intros Hi Hle Ho HF Hr. pose proof (op_time_UnixNano o Ho) as Et.
  assert (Hle' : now <= UnixNano (op_time o)) by lia.
  pose proof (hoare_run _ _ _ _ s fs r s' (exec_spec F now o s Hi Hle' Ho) HF eq_refl Hr) as Hp.
  by destruct r.
Qed.

Lemma trace_inv F now s tr now' s' : trace F now s tr now' s' -> store_inv F now s -> store_inv F now' s'.
Proof.
  induction 1 as [|now s o fs r s1 rest now' s' Ho Hle HF Hrun _ IH]; [done|]. intros Hi. apply IH.
  pose proof (run_op_post F now o s fs r s1 Hi Hle Ho HF Hrun) as [Hp _]. by rewrite op_time_UnixNano in Hp.
Qed.

Lemma fresh_store_inv F now config s : fresh_store config = Ok s -> store_inv F now s.
Proof.
  unfold fresh_store. intros Hf. destruct (validateConfig config) as [c|] eqn:Ec; [|done]. cbn in Hf.
  injection Hf as <-. unfold validateConfig in Ec. destruct (_ || _) eqn:Eg; [done|]. injection Ec as <-. breflect.
  split; cbn [st_config st_db st_fair]; try done.
  - by exists (fun _ => 0%nat).
  - unfold bounds_ok, count_jobs. cbn [db_jobs empty_db cfg_MaxJobs cfg_MaxJobsPerWorkspace].
    rewrite map_filter_empty, map_size_empty. split; [lia|]. intros w. rewrite map_filter_empty, map_size_empty. lia.
  - right. intros j r Hr. cbn in Hr. by rewrite lookup_empty in Hr.
Qed.

(** C1 Every store the queue can reach is consistent, whatever operations ran and
    whatever driver calls failed: each stored job reads back through [scanJob],
    has been leased at most [MaxLeaseAttempts] times with its fence counting the
    leases, dependencies refer to stored jobs and are acyclic, idempotency keys
    are unique, and the numbers of active jobs are within the configured bounds. *)
Theorem queue_invariant config s0 now tr now' s :
  fresh_store config = Ok s0 -> trace any_fault now s0 tr now' s ->
  let db := st_db s in
  (forall id r, db_jobs db !! id = Some r ->
     scanJob id r = Ok (job_of_row id r) /\ r_fence r = r_attempt r /\ 0 <= r_attempt r <= MaxLeaseAttempts /\
     r_updated_at r <= now') /\
  fk_ok db /\ acyclic db /\ keys_unique db /\
  count_jobs active db <= cfg_MaxJobs (st_config s) /\
  (forall w, count_jobs (workspace_active w) db <= cfg_MaxJobsPerWorkspace (st_config s)).
Proof.
  intros Hf Htr db. pose proof (trace_inv _ _ _ _ _ _ Htr (fresh_store_inv any_fault now config s0 Hf)) as Hi.
  split_and!; [|apply Hi..]. intros id r Hr. pose proof (si_jobs _ _ _ Hi id r Hr) as Hrow.
  destruct (row_fence_id _ _ _ Hrow) as [_ Hb]. destruct Hrow. split_and!; try done; lia.
Qed.

Lemma row_steps_legal now r r' :
  rtc (row_step now) r r' -> rtc (fun a b => legalTransition a b = true) (r_state r) (r_state r').
Proof.
  induction 1 as [|x y z Hxy _ IH]; [apply rtc_refl|].
  destruct (row_step_legal _ _ _ Hxy) as [<-|Hl]; [done|]. by eapply rtc_l.
Qed.

(** C15 Every operation moves every stored job along legal transitions only,
    whether it succeeds or fails: a job keeps its identity, its fence never
    decreases, a terminal job does not change any more, and only terminal jobs
    are ever removed. *)
Theorem job_lifecycle now s o fs res s' id r :
  store_inv any_fault now s -> now <= op_time o -> op_ok o -> run (exec o) s fs = (res, s') ->
  db_jobs (st_db s) !! id = Some r ->
  (exists r', db_jobs (st_db s') !! id = Some r' /\ r_ident r' = r_ident r /\ r_fence r <= r_fence r' /\
     rtc (fun a b => legalTransition a b = true) (r_state r) (r_state r') /\
     (terminal (r_state r) = true -> r' = r)) \/
  (db_jobs (st_db s') !! id = None /\ terminal (r_state r) = true).
Proof.
  intros Hi Hle Ho Hrun Hr.
  destruct (run_op_post any_fault now o s fs res s' Hi Hle Ho (any_fault_all fs) Hrun) as (_ & Hm & _).
  destruct (Hm id r Hr) as [(r' & Hr' & Hs)|(? & ? & _)]; [left|by right]. exists r'.
  destruct (row_step_rtc_ident _ _ _ Hs) as [? ?]. split_and!; [done..| |].
  - by eapply row_steps_legal.
  - intros Ht. destruct Hs as [|x y z Hxy _]; [done|]. apply row_step_active in Hxy. congruence.
Qed.

(** ** Leases *)
Lemma inv_tx F now0 now s : store_inv F now0 s -> now0 <= now -> in_int64 now -> tx_ok F now (st_db s) (st_db s).
Proof.
  intros Hi Hle Hn. apply (store_inv_tx F now0); [done|]. unfold UnixNano. by rewrite wrap64_id.
Qed.

(** What [LeaseNext] and the recovery before it do to the jobs that are not theirs: a
    job under a lease that has not expired keeps its row, and a blocked job stays
    blocked or fails with a dependency. *)
Section Held.
Context (now : time) (db0 : DB).

Definition held (db : DB) : Prop := forall id r, db_jobs db0 !! id = Some r ->
  (r_state r = StateLeased -> expired_at now r = false -> db_jobs db !! id = Some r) /\
  (r_state r = StateBlocked -> db_jobs db !! id = Some r \/ state_of db id = Some StateFailed).

Definition not_live (id : string) : Prop :=
  forall r, db_jobs db0 !! id = Some r -> r_state r = StateLeased -> expired_at now r = true.

Lemma held_update db id x x' : held db -> db_jobs db !! id = Some x ->
  r_state x = StateQueued \/ r_state x = StateBlocked /\ r_state x' = StateFailed \/ r_state x = StateLeased /\ not_live id ->
  held (with_jobs (<[id := x']> (db_jobs db)) db).
Proof.
  intros Hh Hx Hcase id' r Hr. destruct (Hh id' r Hr) as [Hl Hb]. rewrite state_of_update. cbn. rewrite lookup_insert.
  case_decide as E; [subst id'|done]. split.
  - intros El Ex. specialize (Hl El Ex). rewrite Hx in Hl. injection Hl as ->.
    destruct Hcase as [?|[[? _]|[_ Hn]]]; [congruence..|]. specialize (Hn r Hr El). congruence.
  - intros Eb. unfold state_of in Hb. rewrite Hx in Hb. cbn in Hb.
    destruct Hcase as [?|[[_ ->]|[? _]]]; [|by right|]; destruct (Hb Eb) as [[= ->]|[= ?]]; congruence.
Qed.

(** The jobs of [l] have failed or been cancelled. *)
Definition all_failed (l : list string) (db : DB) : Prop := forall d, d ∈ l -> exists s, state_of db d = Some s /\ failed_state s.

Lemma all_failed_update l db id x' : all_failed l db -> failed_state (r_state x') ->
  all_failed (id :: l) (with_jobs (<[id := x']> (db_jobs db)) db).
Proof.
  intros Ha Hx d Hd. rewrite state_of_update. case_decide as E; [eauto|]. apply Ha.
  apply elem_of_cons in Hd as [?|?]; [congruence|done].
Qed.

Lemma reads_job (P : DB -> Prop) id :
  hoare any_fault P (jobByID id) (fun o db => P db /\ (j_State <$> o) = state_of db id) (fun _ => P).
Proof.
  unfold jobByID. eapply (hoare_bind _ _ _ (fun D db => P db /\ D = db)); [by apply hoare_get|]. intros D.
  unfold read_job. eapply (hoare_bind _ _ _ (fun o db => P db /\ o = pair id <$> db_jobs db !! id)).
  { apply hoare_driver; [by intros db o [? ->] [= <-]|by intros db [? _]]. }
  intros [[id' r]|]; [|by apply hoare_ret; intros db [? Ho]; unfold state_of; destruct (db_jobs db !! id)].
  destruct (scanJob id' r) as [job|e] eqn:Es; [|by apply hoare_fail; intros db [? _]]. apply hoare_ret. intros db [? Ho].
  apply scanJob_ok in Es as [-> _]. unfold state_of. destruct (db_jobs db !! id) as [r'|]; [|done]. by injection Ho as -> ->.
Qed.

(** A failed dependency decides the verdict. *)
Lemma failed_verdict (P : DB -> Prop) deps b d : d ∈ deps -> (forall db, P db -> all_failed [d] db) ->
  hoare any_fault P (dependencyState_loop b deps) (fun v db => P db /\ v = (StateFailed, ReasonDependencyFailed)) (fun _ _ => True).
Proof.
  intros Hd HP. revert b Hd. induction deps as [|x deps IH]; intros b Hd; [by apply elem_of_nil in Hd|]. cbn [dependencyState_loop].
  eapply hoare_bind; [by eapply hoare_conseq; [apply (reads_job P)|..]|]. intros [job|]; [|by apply hoare_fail].
  assert (Hnext : forall b', ~ failed_state (j_State job) -> hoare any_fault (fun db => P db /\ (j_State <$> Some job) = state_of db x)
    (dependencyState_loop b' deps) (fun v db => P db /\ v = (StateFailed, ReasonDependencyFailed)) (fun _ _ => True)).
  { intros b' Hnf. apply elem_of_cons in Hd as [<-|Hd]; [|by eapply hoare_pre; [|by apply IH]; intros db [? _]].
    intros db fs HF [Hp Hs]. exfalso. destruct (HP db Hp d) as (s & Hs' & Hf); [left|]. rewrite <- Hs in Hs'. by injection Hs' as <-. }
  unfold failed_state in Hnext. destruct (j_State job); try (apply Hnext; by intros [?|?]);
    apply hoare_ret; by intros db [? _].
Qed.

Definition visiting (dep : string) (rest queue : list string) (db : DB) : Prop :=
  held db /\ all_failed (dep :: queue) db /\ forall j, j ∈ rest -> (j, dep) ∈ db_dependencies db.

Lemma held_propagate_dependent dep j rest queue :
  hoare any_fault (visiting dep (j :: rest) queue) (propagate_dependent now queue j) (visiting dep rest) (fun _ _ => True).
Proof.
  unfold propagate_dependent. set (P := visiting dep (j :: rest) queue).
  assert (Hskip : forall db, P db -> visiting dep rest queue db).
  { intros db (? & ? & Hr). split_and!; try done. intros k Hk. apply Hr. by right. }
  eapply (hoare_bind _ _ _ (fun o db => P db /\ forall job, o = Ok (Some job) -> state_of db j = Some (j_State job))).
  { apply hoare_try. eapply hoare_conseq; [apply (reads_job P j)|done| |done].
    intros o db [Hp Ho]. split; [done|]. intros job [= ->]. done. }
  intros [[dependent|]|e]; [|by apply hoare_fail..].
  destruct (bool_decide_reflect (j_State dependent = StateBlocked)) as [Eb|Eb]; cbn [negb]; [|apply hoare_ret; intros db [? _]; auto].
  set (B := fun db => P db /\ state_of db j = Some StateBlocked).
  eapply (hoare_bind _ _ _ (fun deps db => B db /\ deps = dependencies_of db j)).
  { eapply hoare_conseq; [apply (hoare_reads _ B _ _ _ (reads_dependencyIDs any_fault B j)); done| |done|done].
    intros db [Hp Hj]. split; [done|]. rewrite <- Eb. by apply Hj. }
  intros deps. eapply (hoare_bind _ _ _ (fun v db => B db /\ v = (StateFailed, ReasonDependencyFailed))).
  { intros db fs HF [[Hp Hb] ->].
    assert (Hd : dep ∈ dependencies_of db j) by (apply dependencies_of_spec, Hp; left).
    assert (Hf : forall db, B db -> all_failed [dep] db).
    { intros db' [(_ & Ha & _) _] d ->%list_elem_of_singleton. apply Ha. left. }
    unfold dependencyState. destruct (dependencies_of db j) as [|x deps] eqn:Ed; [by apply elem_of_nil in Hd|].
    by apply (failed_verdict B (x :: deps) false dep). }
  intros v db fs HF [HB ->]. revert db fs HF HB.
  change (hoare any_fault B (apply_verdict now queue j (StateFailed, ReasonDependencyFailed)) (visiting dep rest) (fun _ _ => True)).
  unfold apply_verdict. rewrite bool_decide_false by done.
  eapply (hoare_bind _ _ _ (fun _ => B)); [by apply hoare_guard|]. intros _. cbv zeta.
  eapply (hoare_bind _ _ _ (fun _ => visiting dep rest (queue ++ [j]))); [|by intros n; apply hoare_ret].
  apply hoare_update; [| |done].
  - intros db x [(Hh & Ha & Hr) _] Hx Hb. apply bool_decide_eq_true in Hb. split_and!.
    + eapply held_update; [done|done|]. right. by left.
    + intros d Hd. apply (all_failed_update (dep :: queue)); [done|by left|]. set_solver.
    + intros k Hk. cbn. apply Hr. by right.
  - intros db [_ Hb] Hno. apply fmap_Some in Hb as (x & Hx & Eb'). specialize (Hno x Hx). by apply bool_decide_eq_false in Hno.
Qed.

Lemma held_propagate_loop fuel queue seen :
  hoare any_fault (fun db => held db /\ all_failed queue db) (propagate_loop fuel now queue seen) (fun _ => held) (fun _ _ => True).
Proof.
  revert queue seen. induction fuel as [|fuel IH]; intros queue seen; cbn [propagate_loop]; [by apply hoare_fail|].
  destruct queue as [|dep queue]; [apply hoare_ret; by intros db [? _]|].
  case_bool_decide as Hd.
  { eapply hoare_pre; [|apply IH]. intros db [Hh Ha]. split; [done|]. intros d ?. apply Ha. by right. }
  eapply (hoare_bind _ _ _ (fun D db => (held db /\ all_failed (dep :: queue) db) /\ D = db)); [by apply hoare_get|]. intros D.
  eapply (hoare_bind _ _ _ (fun rows => visiting dep rows queue)).
  { apply hoare_driver; [|done]. intros db rows [[? ?] ->] [= <-]. split_and!; [done..|]. intros j. apply dependents_of_spec. }
  intros rows. eapply (hoare_bind _ _ _ (fun r => visiting dep r.1 queue)).
  { apply hoare_fetch; [done|]. intros db l (Hh & Ha & Hr) _ [k ->]. split_and!; [done..|]. intros j Hj. apply Hr. set_solver. }
  intros [dependents failed]. cbn [fst]. eapply hoare_bind; [|intros queue'; apply IH].
  eapply hoare_conseq; [apply (hoare_mfold (visiting dep))| done | | done].
  - intros j rest q. apply held_propagate_dependent.
  - intros q db (Hh & Ha & _). split; [done|]. intros d ?. apply Ha. by right.
Qed.

Lemma held_propagate id : hoare any_fault (fun db => held db /\ all_failed [id] db) (propagate id now) (fun _ => held) (fun _ _ => True).
Proof. unfold propagate. eapply hoare_bind; [|intros D; apply held_propagate_loop]. by apply hoare_get. Qed.

Lemma hoare_both {S A} F (P P' : S -> Prop) (m : M S A) Q Q' E E' :
  hoare F P m Q E -> hoare F P' m Q' E' ->
  hoare F (fun s => P s /\ P' s) m (fun a s => Q a s /\ Q' a s) (fun e s => E e s /\ E' e s).
Proof.
  intros H1' H2' s fs HF [HP HP']. specialize (H1' s fs HF HP). specialize (H2' s fs HF HP').
  destruct (m s fs) as [[[a|e] s'] fs']; naive_solver.
Qed.

Definition recovering (items : list (string * (bool * Z))) (db : DB) : Prop :=
  recover_inv any_fault now db0 items db /\ held db /\ Forall (fun i => not_live i.1) items.

Lemma held_recover_item items item :
  hoare any_fault (recovering (item :: items)) (recover_item now tt item) (fun _ => recovering items) (fun _ _ => True).
Proof.
  eapply hoare_conseq; [apply (hoare_both _ _ (recovering (item :: items)) _ _ (fun _ db => held db /\ Forall (fun i => not_live i.1) items) _
    (fun _ _ => True) (hoare_recover_item any_fault now db0 item items))|intros db Hp; exact (conj (proj1 Hp) Hp)|by intros [] db [? ?]|done].
  destruct item as [id [cancelled attempt]]. unfold recover_item.
  destruct (recovery cancelled attempt) as [[[state reason] outcome] summary] eqn:Erec. apply recovery_cases in Erec.
  set (R := Forall (fun i : string * (bool * Z) => not_live i.1) items).
  eapply (hoare_bind _ _ _ (fun _ db => (held db /\ state_of db id = Some state) /\ R)).
  { apply hoare_update; [| |done].
    - intros db x (_ & Hh & [Hn HR]%Forall_cons) Hx Hl. apply bool_decide_eq_true in Hl. split; [split|done].
      + eapply held_update; [done|done|]. right. right. done.
      + by rewrite state_of_update, decide_True.
    - intros db ((_ & _ & [(x & Hx & El & _) _]%Forall_cons) & _) Hno. specialize (Hno x Hx). by apply bool_decide_eq_false in Hno. }
  intros _ db fs HF [[Hh Hs] HR]. destruct (terminal state) eqn:Et; [|by split].
  assert (Hf : all_failed [id] db).
  { intros d ->%list_elem_of_singleton. exists state. split; [done|]. unfold failed_state. naive_solver. }
  pose proof (held_propagate id db fs HF (conj Hh Hf)) as Hp. destruct (propagate id now db fs) as [[[[]|e] s'] fs']; naive_solver.
Qed.

Lemma held_recoverExpired : tx_ok any_fault now db0 db0 ->
  hoare any_fault (eq db0) (recoverExpired now) (fun _ => held) (fun _ _ => True).
Proof.
  intros Hok. unfold recoverExpired. eapply (hoare_bind _ _ _ (fun D db => db = db0 /\ D = db0)); [by apply hoare_get; intros db <-|]. intros D.
  eapply (hoare_bind _ _ _ recovering).
  { apply hoare_driver; [|done]. intros db rows [-> ->] [= <-]. split; [split; [done|apply expired_items_ok]|].
    split; [intros id r Hr; by split; [|left]|]. apply Forall_forall. intros [id x] Hin r Hr El. unfold expired_items in Hin.
    apply list_elem_of_omap in Hin as (id' & _ & Hx). apply bind_Some in Hx as (r' & Hr' & Hx). destruct (expired_at now r') eqn:Ex; [|done].
    injection Hx as -> <-. cbn in Hr. congruence. }
  intros rows. eapply (hoare_bind _ _ _ (fun r => recovering r.1)).
  { apply hoare_fetch; [done|]. intros db l ((Ht & Hnd & Hall) & Hh & Hn) _ [k ->]. rewrite fmap_app in Hnd.
    apply NoDup_app in Hnd as [Hnd _]. apply Forall_app in Hall as [? _]. apply Forall_app in Hn as [? _]. done. }
  intros [items failed]. cbn [fst]. eapply (hoare_bind _ _ _ (fun _ => recovering items)); [by apply hoare_driver|]. intros _.
  eapply hoare_conseq; [apply (hoare_mfold (fun rest (_ : unit) => recovering rest))|done|by intros [] db (_ & ? & _)|done].
  intros item rest []. apply held_recover_item.
Qed.

Lemma held_lease_scan pool maxJobs : tx_ok any_fault now db0 db0 ->
  hoare any_fault (eq db0) (lease_scan pool maxJobs now) (fun _ => held) (fun _ _ => True).
Proof.
  intros Hok. unfold lease_scan. eapply hoare_bind; [by apply held_recoverExpired|]. intros u.
  eapply (hoare_bind _ _ _ (fun _ => held)); [by apply hoare_get|]. intros D.
  eapply (hoare_bind _ _ _ (fun _ => held)); [by apply hoare_driver|]. intros rows.
  eapply (hoare_bind _ _ _ (fun _ => held)); [by apply hoare_fetch|]. intros [cs failed].
  eapply (hoare_bind _ _ _ (fun _ => held)); [by apply hoare_guard|]. intros _.
  eapply (hoare_bind _ _ _ (fun _ => held)); [by apply hoare_driver|]. intros _. by apply hoare_ret.
Qed.

Lemma held_lease_update jobID leaseID holder expires :
  hoare any_fault held (lease_update jobID leaseID holder expires now) (fun _ => held) (fun _ _ => True).
Proof.
  unfold lease_update. eapply (hoare_bind _ _ _ (fun _ => held)).
  { apply hoare_update; [|done|done]. intros db x Hh Hx Hq. apply bool_decide_eq_true in Hq. eapply held_update; [done|done|]. by left. }
  intros n. eapply (hoare_bind _ _ _ (fun _ => held)); [by apply hoare_guard|]. intros _.
  eapply (hoare_bind _ _ _ (fun _ => held)); [apply hoare_try; by eapply hoare_conseq; [apply (reads_job held)|done|intros o db [? _]|]|].
  intros [[job|]|e]; [by apply hoare_ret|by apply hoare_fail..].
Qed.
End Held.

Lemma hoare_fixed {S A} F (s0 : S) (R : Prop) (m : M S A) Q E :
  (R -> hoare F (eq s0) m Q E) -> hoare F (fun s => s0 = s /\ R) m Q E.
Proof. intros Hm s fs HF [Hs HR]. by apply Hm. Qed.

Lemma held_LeaseNext pool holder ttl now random s0 : tx_ok any_fault now (st_db s0) (st_db s0) ->
  hoare any_fault (eq s0) (LeaseNext pool holder ttl now random) (fun _ s => held now (st_db s0) (st_db s)) (fun _ _ => True).
Proof.
  intros Hok. unfold LeaseNext. set (Q' := fun s => held now (st_db s0) (st_db s)).
  eapply (hoare_bind _ _ _ (fun _ => eq s0)); [by apply hoare_guard|]. intros _.
  eapply (hoare_bind _ _ _ (fun D s => s0 = s /\ D = s0)); [by apply hoare_get; intros s <-|]. intros D. apply hoare_fixed. intros ->.
  eapply (hoare_bind _ _ _ (fun db s => s0 = s /\ db = st_db s0)); [by eapply hoare_conseq; [apply hoare_begin|done|intros db s [-> ->]|]|].
  intros db. apply hoare_fixed. intros ->.
  eapply (hoare_bind _ _ _ (fun r s => s0 = s /\ held now (st_db s0) r.2)).
  { eapply hoare_conseq; [apply (hoare_tx _ _ _ _ _ s0 _ (held_lease_scan now (st_db s0) pool (cfg_MaxJobs (st_config s0)) Hok) eq_refl)|done| |done].
    by intros r s [-> ?]. }
  intros [cs db]. cbn [snd]. apply hoare_fixed. intros Hh. destruct cs as [|c cs].
  { eapply (hoare_bind _ _ _ (fun _ _ => True)); [by eapply hoare_conseq; [apply hoare_commit|..]|]. intros _. by apply hoare_fail. }
  destruct (Select (st_fair s0) now (c :: cs)) as [sel fair]. set (s1 := set_fair fair s0).
  eapply (hoare_bind _ _ _ (fun _ => eq s1)); [by apply hoare_put|]. intros _. destruct sel as [sel|e]; [|by apply hoare_fail].
  eapply (hoare_bind _ _ _ (fun _ => eq s1)); [by eapply hoare_conseq; [apply hoare_randomID|done|intros id s [-> _]|]|]. intros leaseID.
  eapply (hoare_bind _ _ _ (fun r s => s1 = s /\ held now (st_db s0) r.2)).
  { eapply hoare_conseq; [apply (hoare_tx _ _ _ _ _ s1 _ (held_lease_update now (st_db s0) (fc_JobID sel) leaseID holder (TimeAdd now ttl)) Hh)|done| |done].
    by intros r s [-> ?]. }
  intros [job db']. cbn [snd]. apply hoare_fixed. intros Hh'.
  eapply (hoare_bind _ _ _ (fun _ => Q' )); [by eapply hoare_conseq; [apply hoare_commit|done|intros [] s ->|]|]. intros _. by apply hoare_ret.
Qed.

(** A job whose cancellation was requested under a lease is not queued again. *)
Lemma cancelled_not_requeued now r r' : rtc (row_step now) r r' -> r_state r = StateLeased -> r_cancel_requested r = true ->
  r_state r' <> StateQueued.
Proof.
  intros Hs El Ec. assert (Hc : r_state r = StateLeased /\ r_cancel_requested r = true \/ terminal (r_state r) = true) by auto. clear El Ec.
  induction Hs as [r|r y z Hry _ IH]; [destruct Hc as [[-> _]|Ht]; [done|intros E; by rewrite E in Ht]|]. apply IH.
  destruct Hc as [[El Ec]|Ht]; [|apply row_step_active in Hry; congruence].
  destruct Hry as [| x st re oc su Hl Hrec | | x res ref Hl Hres _ _ | | x Hq | |]; cbn; try congruence; auto.
  - right. rewrite Ec in Hrec. apply recovery_cases in Hrec. naive_solver.
  - right. by apply validateResult_terminal.
Qed.

Lemma live_not_expired now x : in_int64 now -> (forall until, r_lease_until x = Some until -> now < until) -> expired_at now x = false.
Proof.
  intros Hn Hu. unfold expired_at, UnixNano. rewrite wrap64_id by done. apply andb_false_iff. right.
  destruct (r_lease_until x) as [u|]; [|done]. apply Z.leb_gt. auto.
Qed.

(** The row a lease was granted on, before the call. *)
Lemma waiting_before n0 now db db' id r r' r1 : held now db db' -> db_jobs db !! id = Some r -> db_jobs db' !! id = Some r' ->
  r_state r' = StateLeased -> r_fence r < r_fence r' -> rtc (row_step (UnixNano now)) r r1 -> r_state r1 = StateQueued -> in_int64 now -> row_inv n0 id r ->
  (r_state r = StateQueued \/ r_state r = StateLeased /\ exists until, r_lease_until r = Some until /\ until <= now) /\ r_cancel_requested r = false.
Proof.
  intros Hh Hr Hr' El' Hf Hsteps Hq Hn Hinv. destruct (Hh id r Hr) as [Hl Hb]. pose proof (row_inv_facts Hinv) as (_ & Hok & _).
  assert (Hq' : r_state r = StateQueued \/ r_state r = StateLeased \/ r_state r = StateBlocked).
  { destruct Hsteps as [r|r y z Hry _]; [by left|]. destruct Hry; naive_solver. }
  destruct Hq' as [E|[E|E]].
  - split; [by left|]. unfold state_ok in Hok. rewrite E in Hok. apply Hok.
  - split; [right; split; [done|]|].
    + destruct (expired_at now r) eqn:Ex; [|specialize (Hl E eq_refl); rewrite Hr' in Hl; injection Hl as ->; lia].
      unfold expired_at, UnixNano in Ex. rewrite wrap64_id in Ex by done. apply andb_true_iff in Ex as [_ Ex].
      destruct (r_lease_until r) as [u|]; [|done]. exists u. split; [done|]. by apply Z.leb_le.
    + destruct (r_cancel_requested r) eqn:Ec; [|done]. by destruct (cancelled_not_requeued _ _ _ Hsteps E Ec).
  - exfalso. destruct (Hb E) as [Hl'|Hs]; [|unfold state_of in Hs]; rewrite Hr' in *; [|cbn in Hs]; congruence.
Qed.

(** C14 A lease is exclusive and fenced: [LeaseNext] hands out a job of the asked
    pool that was queued, or whose lease had expired and whose cancellation was not
    asked for; it leaves it leased to the holder under the returned lease id until
    the returned time, and the returned fence is strictly larger than every fence
    the job had before and at most [MaxLeaseAttempts].  Every job under a lease that
    has not expired keeps its row. *)
Theorem LeaseNext_exclusive now0 pool holder ttl now random s fs l s' :
  store_inv any_fault now0 s -> now0 <= now -> in_int64 now -> in_int64 (now + MaxLeaseTTL) -> random_ok random ->
  run (LeaseNext pool holder ttl now random) s fs = (Ok l, s') ->
  (exists r r', db_jobs (st_db s) !! j_ID (l_Job l) = Some r /\ i_pool (r_ident r) = pool /\
    (r_state r = StateQueued \/ r_state r = StateLeased /\ exists until, r_lease_until r = Some until /\ until <= now) /\
    r_cancel_requested r = false /\ r_fence r < l_Fence l <= MaxLeaseAttempts /\
    db_jobs (st_db s') !! j_ID (l_Job l) = Some r' /\ r_state r' = StateLeased /\
    r_lease_id r' = Some (l_ID l) /\ r_lease_holder r' = Some holder /\ r_fence r' = l_Fence l /\
    r_lease_until r' = Some (l_ExpiresAt l) /\ l_ExpiresAt l = now + ttl /\ r_cancel_requested r' = false) /\
  (forall id x, db_jobs (st_db s) !! id = Some x -> r_state x = StateLeased ->
     (forall until, r_lease_until x = Some until -> now < until) -> db_jobs (st_db s') !! id = Some x).
Proof.
  intros Hi Hle Hn Hmax Hrand Hrun. pose proof (inv_tx _ _ _ _ Hi Hle Hn) as Hok.
  pose proof (hoare_any _ _ _ _ (held_LeaseNext pool holder ttl now random s Hok) eq_refl Hrun) as Hheld.
  pose proof (hoare_any _ _ _ _ (LeaseNext_spec any_fault pool holder ttl now random s Hok (si_fair _ _ _ Hi) Hrand)
                eq_refl Hrun) as [(_ & _ & Httl) _ _ Htx (db1 & r1 & bytes & _ & _ & [He1 _] & (Hr1 & Hp & Hq1 & Hc) & Hdb & Hl)].
  set (id := j_ID (l_Job l)) in *.
  set (r' := set_leased (l_ID l) holder (UnixNano (TimeAdd now ttl)) (UnixNano now) r1) in *.
  assert (Hr' : db_jobs (st_db s') !! id = Some r') by (rewrite Hdb; cbn; by rewrite lookup_insert_eq).
  destruct (evolves_lookup _ _ _ _ _ (ti_evolves _ _ _ He1) Hr1) as (r & Hr & Hsteps).
  destruct (row_step_rtc_ident _ _ _ Hsteps) as [Hident Hfence].
  destruct (row_fence_id _ _ _ (ti_jobs _ _ _ (proj1 Htx) _ _ Hr')) as [Hw Hb].
  assert (Hlf : l_Fence l = r_fence r') by (rewrite Hl; cbn; exact Hw).
  assert (Hexp : l_ExpiresAt l = now + ttl) by (by rewrite Hl).
  assert (Hgrew : r_fence r < r_fence r') by (cbn; lia).
  split; [|by intros k x Hk El Hu; apply (proj1 (Hheld k x Hk)); [|apply live_not_expired]].
  exists r, r'. rewrite Hlf, Hexp, <- Hident.
  destruct (waiting_before _ now (st_db s) (st_db s') id r r' r1 Hheld Hr Hr' eq_refl Hgrew Hsteps Hq1 Hn (si_jobs _ _ _ Hi id r Hr)) as [Hst Hcr].
  cbn in Hb |- *. split_and!; try done; try lia.
  f_equal. unfold UnixNano, TimeAdd. apply wrap64_id. unfold in_int64, MinLeaseTTL, MaxLeaseTTL, Minute, Second in *. lia.
Qed.

Lemma Complete_validated jobID leaseID fence res checked now s fs job s' :
  run (Complete jobID leaseID fence res checked now) s fs = (Ok job, s') -> validateResult res = Ok tt.
Proof.
  unfold run, Complete, mbind, mguard, mlift, reject_if. destruct (_ || _) eqn:E; [done|]. intros _. breflect.
  by apply is_ok_true.
Qed.

(** C4 Only the current lease completes a job: a completion that succeeds either
    repeats the recorded one without any change, or the job was leased under
    exactly this lease id and fence, the lease had not expired, a requested
    cancellation is honoured, and the job is now terminal with the reported
    outcome, summary and reference. *)
Theorem Complete_fenced now0 jobID leaseID fence res checked now s fs job s' :
  store_inv any_fault now0 s -> now0 <= now -> in_int64 now ->
  run (Complete jobID leaseID fence res checked now) s fs = (Ok job, s') ->
  (s' = s /\ exists r, job = job_of_row jobID r /\ completion_recorded (st_db s) jobID leaseID fence res r) \/
  (exists r, db_jobs (st_db s) !! jobID = Some r /\ holds_lease r leaseID fence checked /\
     (r_cancel_requested r = true -> res_Outcome res = StateCancelled) /\
     db_jobs (st_db s') !! jobID = Some (set_completed res (nullableString (res_ResultRef res)) now r) /\
     j_State job = res_Outcome res /\ j_Outcome job = res_Outcome res /\ j_Summary job = res_Summary res /\
     j_ResultRef job = res_ResultRef res /\ terminal (j_State job) = true).
Proof.
  intros Hi Hle Hn Hrun. pose proof (inv_tx _ _ _ _ Hi Hle Hn) as Hok.
  pose proof (hoare_any _ _ _ _ (Complete_spec any_fault jobID leaseID fence res checked now s Hok) eq_refl Hrun)
    as [?|(db & r & -> & Htx & (Hr & Hh & Hc) & Hdb & ->)]; [by left|]. right. exists r.
  unfold UnixNano in *. rewrite wrap64_id in * by done. cbn. rewrite nullableString_null. split_and!; try done.
  assert (Hv : validateResult res = Ok tt) by (by eapply Complete_validated). by apply validateResult_terminal.
Qed.

(** C16 A stale lease does nothing: when the stored job carries another lease id or
    another fence, because its lease expired and was recovered or given to
    another worker, heartbeats and completions under the old lease fail and
    leave the database alone, whatever driver faults occur. *)
Theorem stale_lease_rejected now0 s jobID leaseID fence r ttl res checked now fs :
  store_inv any_fault now0 s -> now0 <= now -> in_int64 now ->
  db_jobs (st_db s) !! jobID = Some r -> r_lease_id r <> Some leaseID \/ r_fence r <> fence ->
  (exists e, run (Heartbeat jobID leaseID fence ttl now) s fs = (Err e, s)) /\
  (exists e, run (Complete jobID leaseID fence res checked now) s fs = (Err e, s)).
Proof.
  intros Hi Hle Hn Hr Hstale. pose proof (inv_tx _ _ _ _ Hi Hle Hn) as Hok.
  assert (Hno : forall r0 t, db_jobs (st_db s) !! jobID = Some r0 -> holds_lease r0 leaseID fence t -> False).
  { intros r0 t Hr0 (_ & E1 & E2 & _). rewrite Hr in Hr0. injection Hr0 as <-. naive_solver. }
  split.
  - destruct (run (Heartbeat _ _ _ _ _) s fs) as [res0 s'] eqn:Erun.
    pose proof (hoare_any _ _ _ _ (Heartbeat_spec any_fault jobID leaseID fence ttl now s Hok) eq_refl Erun) as Hp.
    destruct res0 as [st|e]; [exfalso; naive_solver|]. destruct Hp as [->|(_ & _ & Hacted & _)]; [eauto|exfalso; naive_solver].
  - destruct (run (Complete _ _ _ _ _ _) s fs) as [res0 s'] eqn:Erun.
    pose proof (hoare_any _ _ _ _ (Complete_spec any_fault jobID leaseID fence res checked now s Hok) eq_refl Erun) as Hp.
    unfold completed_by, completion_recorded in Hp. destruct res0 as [job|e].
    + exfalso. destruct Hp as [(_ & r0 & _ & Hr0 & _ & E1 & E2 & _)|(db & r0 & _ & _ & (Hr0 & Hh & _) & _)]; [|by eapply Hno].
      rewrite Hr in Hr0. injection Hr0 as <-. naive_solver.
    + destruct Hp as [->|(_ & _ & (r0 & Hr0 & Hh & _) & _)]; [eauto|]. exfalso. by eapply Hno.
Qed.

(** C37 Work is handed out: with a consistent store, a valid request and no driver
    fault, [LeaseNext] returns a lease unless, after expired leases were
    recovered, no job of the pool is waiting. *)
Theorem LeaseNext_progress now0 pool holder ttl now bytes s res s' :
  store_inv no_fault now0 s -> now0 <= now -> in_int64 now -> String.length bytes = 16%nat ->
  lease_request_ok pool holder ttl ->
  run (LeaseNext pool holder ttl now (Some bytes)) s [] = (res, s') ->
  (exists l, res = Ok l) \/
  (res = Err ErrNoJobAvailable /\ forall id r, ~ leasable (st_db s') pool id r).
Proof.
  intros Hi Hle Hn Hb Hreq Hrun. pose proof (inv_tx _ _ _ _ Hi Hle Hn) as Hok.
  assert (Hrand : random_ok (Some bytes)) by (by intros b [= <-]).
  pose proof (hoare_run _ _ _ _ s [] res s' (LeaseNext_spec no_fault pool holder ttl now (Some bytes) s Hok (si_fair _ _ _ Hi) Hrand)
    ltac:(constructor) eq_refl Hrun) as Hp.
  destruct res as [l|e]; [eauto|right]. pose proof (si_config _ _ _ Hi) as [Hm _].
  destruct Hp as (_ & _ & [(-> & _ & Hnil)|(_ & Hbad)]).
  - split; [done|]. intros id r. eapply lease_candidates_nil; [|exact Hnil]. lia.
  - exfalso. destruct Hbad as [?|[?|[?|[?|?]]]]; done || lia.
Qed.

(** ** Dependencies *)

(** [j] depends on [d], directly or not. *)
Definition depends (db : DB) : string -> string -> Prop := tc (fun j d => (j, d) ∈ db_dependencies db).

(** C38 No job is stuck: as long as no driver call fails, every blocked job
    depends, directly or through other blocked jobs, on a job that is queued or
    leased, and it depends on no failed or cancelled job directly. *)
Theorem no_stuck_jobs config s0 now tr now' s j r :
  fresh_store config = Ok s0 -> trace no_fault now s0 tr now' s ->
  db_jobs (st_db s) !! j = Some r -> r_state r = StateBlocked ->
  (exists d, depends (st_db s) j d /\ (state_of (st_db s) d = Some StateQueued \/ state_of (st_db s) d = Some StateLeased)) /\
  (forall d x, (j, d) ∈ db_dependencies (st_db s) -> db_jobs (st_db s) !! d = Some x ->
     r_state x <> StateFailed /\ r_state x <> StateCancelled).
Proof.
  intros Hf Htr Hr Eb. pose proof (trace_inv _ _ _ _ _ _ Htr (fresh_store_inv no_fault now config s0 Hf)) as Hi.
  destruct (si_blocked _ _ _ Hi) as [?|Hb]; [done|]. split; [|intros d x Hd Hx; apply Decidable.not_or; by apply (proj2 (Hb j r Hr Eb) d x)].
  destruct (si_acyclic _ _ _ Hi) as [rank Hrank].
  remember (rank j) as n eqn:En. revert j r Hr Eb En. induction (lt_wf n) as [n _ IH]. intros j r Hr Eb ->.
  destruct (Hb j r Hr Eb) as [(d & x & Hd & Hx & Hns) Hnf]. specialize (Hnf d x Hd Hx).
  pose proof (row_inv_facts (si_jobs _ _ _ Hi d x Hx)) as (_ & Hs & _).
  assert (Hd1 : depends (st_db s) j d) by (by apply tc_once).
  unfold state_ok, failed_state in *. unfold state_of.
  destruct (r_state x) eqn:Ex; try (exfalso; done || (apply Hnf; by auto)).
  - destruct (IH (rank d) (Hrank _ _ Hd) d x Hx Ex eq_refl) as (d' & Hd' & Hst). exists d'. split; [|done].
    by eapply tc_transitive.
  - exists d. split; [done|]. rewrite Hx. cbn. rewrite Ex. auto.
  - exists d. split; [done|]. rewrite Hx. cbn. rewrite Ex. auto.
Qed.

(** C39 Propagation terminates: from any consistent database the worklist loop
    ends within its bound of [2 + number of jobs] rounds, under every sequence of
    driver faults. *)
Theorem propagate_terminates now db id fs :
  jobs_inv (UnixNano now) db -> fk_ok db -> state_of db id <> Some StateBlocked ->
  fst (run (propagate id now) db fs) <> Err out_of_fuel.
Proof.
  intros Hj Hfk Hid. destruct (run (propagate id now) db fs) as [res db'] eqn:Erun.
  assert (Hpre : propagate_pre any_fault now db db id db).
  { split; [split; [split; [reflexivity|done|done]|by intros ? ? ?]|]. split; [done|]. by left. }
  pose proof (hoare_any _ _ _ _ (hoare_propagate any_fault now db db id) Hpre Erun) as Hp.
  destruct res as [|e]; [done|]. destruct Hp as [_ Hne]. cbn. congruence.
Qed.

(** ** Enqueueing *)
Lemma with_new_job_dependencies jobID row deps db :
  (forall d, (jobID, d) ∉ db_dependencies db) -> NoDup deps ->
  dependencies_of (with_new_job jobID row deps db) jobID ≡ₚ deps.
Proof.
  intros Hno Hnd. apply NoDup_Permutation; [|done|].
  - unfold dependencies_of. rewrite sort_strings_perm. set (f := filter _ _).
    assert (Hf : forall x, x ∈ f -> x.1 = jobID) by (intros x [? _]%list_elem_of_filter; done).
    assert (NoDup f) as Hndf by apply NoDup_filter, NoDup_elements.
    apply NoDup_fmap_2_strong; [|done]. intros x y Hx Hy E. pose proof (Hf _ Hx). pose proof (Hf _ Hy).
    destruct x, y. cbn in *. congruence.
  - intros d. rewrite dependencies_of_spec, inserted_dependencies. naive_solver.
Qed.

Lemma hoare_Enqueue_replay now config spec now' random db id r :
  jobs_inv now db -> keys_unique db -> same_request db spec id r ->
  hoare no_fault (eq db) (Enqueue_tx config spec now' random)
    (fun o db' => db' = db /\ o = inl (job_of_row id r)) (fun _ _ => False).
Proof.
  intros Hj Hk (Hr & Hkey & Hrest). unfold Enqueue_tx.
  eapply hoare_bind; [eapply hoare_conseq; [apply (reads_jobByIdempotency no_fault _ _ db Hj)|done|done|by intros e s [_ [? _]]]|].
  intros o s fs HF [-> Ho]. destruct o as [job|]; [|by destruct (Ho id r Hr)].
  destruct Ho as (id' & r' & Hr' & Hkey' & ->).
  assert (id' = id) as -> by (apply (Hk id' id r' r); [done|done|congruence]).
  rewrite Hr in Hr'. injection Hr' as <-.
  eapply (hoare_bind (eq db)); [eapply hoare_conseq; [apply (reads_dependencyIDs no_fault (fun _ => True) id db I)|done|done|by intros e s' [_ [? _]]]| |done|done].
  intros deps s' fs' HF' [-> ->].
  eapply (hoare_bind (eq db) _ _ (fun _ s => s = db)); [|intros _; apply hoare_ret; by intros s ->|done|done].
  apply hoare_guard; [|by intros s <-]. intros s <- Hg. exfalso.
  destruct Hrest as (E1 & E2 & E3 & E4 & Hp). cbn in Hg. apply sameStrings_true in Hp.
  rewrite E1, E2, E3, E4, Hp, !bool_decide_true in Hg by done. done.
Qed.

(** Enqueueing is idempotent: once a request was stored, repeating it at any
    later time returns the stored job, creates nothing and changes nothing. *)
Theorem Enqueue_idempotent now0 spec now random s fs job s1 now2 random2 :
  store_inv any_fault now0 s -> now0 <= now -> in_int64 now -> random_ok random ->
  (forall b, random = Some b -> "wj_" +:+ EncodeToString b ∉ spec_Dependencies spec) ->
  run (Enqueue spec now random) s fs = (Ok (job, true), s1) ->
  run (Enqueue spec now2 random2) s1 [] = (Ok (job, false), s1).
Proof.
  intros Hi Hle Hn Hrand Hself Hrun. pose proof (inv_tx _ _ _ _ Hi Hle Hn) as Hok.
  pose proof (hoare_any _ _ _ _ (Enqueue_spec any_fault spec now random s Hok Hrand) eq_refl Hrun)
    as (Hspec & jobID & state & reason & Hen & Hs1 & Hjob). cbn in Hjob.
  destruct (run_op_post any_fault now0 (OpEnqueue spec now random) s fs (Ok tt) s1) as (Hi1 & _);
    [done|done|done|apply any_fault_all| |].
  { unfold run in *. cbn. unfold ignore, mbind. destruct (Enqueue spec now random s fs) as [[x y] z].
    cbn in Hrun. by injection Hrun as -> ->. }
  set (row := enqueued_row (canonicalSpec spec) now state reason) in *.
  assert (Hsame : same_request (st_db s1) (canonicalSpec spec) jobID row).
  { rewrite Hs1. split; [cbn; by rewrite lookup_insert_eq|]. split_and!; try done.
    apply with_new_job_dependencies.
    - intros d Hd. by destruct (inserted_old any_fault _ _ _ _ _ _ _ _ Hok Hen _ _ Hd).
    - rewrite (proj2 (canonicalSpec_fields spec)). by apply validateSpec_deps in Hspec as [? _]. }
  destruct (run (Enqueue spec now2 random2) s1 []) as [res s2] eqn:Erun.
  enough (Hrep : hoare no_fault (eq s1) (Enqueue spec now2 random2) (fun a s' => s' = s1 /\ a = (job, false)) (fun _ _ => False)).
  { pose proof (hoare_run _ _ _ _ s1 [] res s2 Hrep ltac:(constructor) eq_refl Erun) as Hp.
    destruct res as [a|]; [|done]. by destruct Hp as [-> ->]. }
  unfold Enqueue. rewrite Hspec.
  eapply (hoare_bind _ _ _ (fun _ s' => s' = s1)); [apply hoare_lift; [by intros s' [] <- _|done]|]. intros _.
  eapply (hoare_bind _ _ _ (fun D s' => s' = s1 /\ D = s1)); [apply hoare_get; by intros s' ->|].
  intros D s' fs' HF' [-> ->].
  eapply (hoare_with_tx_errors no_fault _ _ _ s1 (fun o db' => db' = st_db s1 /\ o = inl (job_of_row jobID row)) (fun _ _ => False));
    [| |done|done|done|done].
  - eapply hoare_Enqueue_replay; [apply Hi1|apply Hi1|exact Hsame].
  - intros o db [-> ->]. apply hoare_ret. intros s' <-. by rewrite Hjob.
Qed.

(** ** Failures *)
Lemma run_ignore {A} (m : M Store A) s fs e s' :
  run (ignore m) s fs = (Err e, s') -> run m s fs = (Err e, s').
Proof. unfold run, ignore, mbind. destruct (m s fs) as [[[a|e'] s1] fs1]; cbn; by intros [= -> ->]. Qed.

(** The errors an operation reports after its transaction was committed. *)
Definition late_errors : list error :=
  [ErrNoJobAvailable; read_failed; "workqueue: heartbeat state unavailable"; "workqueue: cleanup result unavailable"].

(** A failed operation changes nothing, wherever the failure happens, except
    for the four errors that are reported after a commit: the job could not be
    read back, and [ErrNoJobAvailable], which keeps the recovery of expired
    leases. *)
Theorem failed_operation_atomic now s o fs e s' :
  store_inv any_fault now s -> now <= op_time o -> op_ok o -> run (exec o) s fs = (Err e, s') ->
  st_db s' = st_db s \/ e ∈ late_errors.
Proof.
  intros Hi Hle [Hn Ho] Hrun. pose proof (inv_tx _ _ _ _ Hi Hle Hn) as Hok. unfold late_errors.
  destruct o as [spec now1 random|pool holder ttl now1 random|jobID leaseID fence ttl now1
    |jobID leaseID fence res checked now1|jobID now1|now1|retention limit now1]; cbn [exec op_time] in *;
    apply run_ignore in Hrun.
  - destruct (hoare_any _ _ _ _ (Enqueue_spec any_fault spec now1 random s Hok (proj1 Ho)) eq_refl Hrun) as [->|(-> & _)];
      [by left|right; set_solver].
  - destruct (hoare_any _ _ _ _ (LeaseNext_spec any_fault pool holder ttl now1 random s Hok (si_fair _ _ _ Hi) Ho) eq_refl Hrun)
      as (_ & _ & [(-> & _)|(? & _)]); [right; set_solver|by left].
  - destruct (hoare_any _ _ _ _ (Heartbeat_spec any_fault jobID leaseID fence ttl now1 s Hok) eq_refl Hrun) as [->|(-> & _)];
      [by left|right; set_solver].
  - destruct (hoare_any _ _ _ _ (Complete_spec any_fault jobID leaseID fence res checked now1 s Hok) eq_refl Hrun) as [->|(-> & _)];
      [by left|right; set_solver].
  - destruct (hoare_any _ _ _ _ (Cancel_spec any_fault jobID now1 s Hok) eq_refl Hrun) as [->|(-> & _)];
      [by left|right; set_solver].
  - destruct (hoare_any _ _ _ _ (RecoverExpired_spec any_fault now1 s Hok) eq_refl Hrun) as [-> _]. by left.
  - destruct (hoare_any _ _ _ _ (CleanupTerminal_spec any_fault retention limit now1 s) eq_refl Hrun) as [->|(-> & _)];
      [by left|right; set_solver].
Qed.

(** ** Cancellation *)

(** Cancellation: a terminal job is returned unchanged; a leased job keeps
    running with the request recorded, so that its worker sees it at the next
    heartbeat; a blocked or queued job becomes cancelled at once. *)
Theorem Cancel_effect now0 jobID now s fs job s' :
  store_inv any_fault now0 s -> now0 <= now -> in_int64 now -> run (Cancel jobID now) s fs = (Ok job, s') ->
  exists r r', db_jobs (st_db s) !! jobID = Some r /\ db_jobs (st_db s') !! jobID = Some r' /\ job = job_of_row jobID r' /\
    match r_state r with
    | StateLeased => r_state r' = StateLeased /\ r_cancel_requested r' = true /\ r_lease_id r' = r_lease_id r /\
                     r_fence r' = r_fence r /\ r_lease_until r' = r_lease_until r
    | StateBlocked | StateQueued => r_state r' = StateCancelled /\ r_cancel_requested r' = true
    | _ => r' = r /\ s' = s
    end.
Proof.
  intros Hi Hle Hn Hrun. pose proof (inv_tx _ _ _ _ Hi Hle Hn) as Hok.
  destruct (hoare_any _ _ _ _ (Cancel_spec any_fault jobID now s Hok) eq_refl Hrun) as (r & Hr & Hcase).
  pose proof (row_inv_facts (si_jobs _ _ _ Hi _ _ Hr)) as (_ & Hs & _). unfold state_ok in Hs. exists r.
  unfold cancelled_row in Hcase.
  destruct (r_state r) eqn:E; cbn in Hcase; try done;
    first [destruct Hcase as [-> ->]; by exists r
          | destruct Hcase as (db & -> & _ & Hdb & ->); eexists; split; [done|]; split; [exact Hdb|]; cbn; by rewrite ?E].
Qed.

(** ** Retention *)

Lemma CleanupTerminal_limit retention limit now s fs n s' :
  run (CleanupTerminal retention limit now) s fs = (Ok n, s') -> 1 <= limit.
Proof. unfold run, CleanupTerminal, mbind, mguard, mlift, reject_if. destruct (_ || _) eqn:E; [done|]. by breflect. Qed.

(** Cleanup removes only finished history: at most [limit] jobs, all terminal
    and older than the retention period, none of them a dependency of another
    job or the job of a task worker; every other job and its dependencies stay
    as they were. *)
Theorem CleanupTerminal_safe retention limit now s fs n s' :
  run (CleanupTerminal retention limit now) s fs = (Ok n, s') ->
  let cutoff := UnixNano (now - retention) in
  n <= limit /\
  (forall id r, db_jobs (st_db s) !! id = Some r -> db_jobs (st_db s') !! id = None ->
     terminal (r_state r) = true /\ r_updated_at r < cutoff /\ (forall j, (j, id) ∉ db_dependencies (st_db s)) /\
     (forall k w, db_task_workers (st_db s) !! k = Some w -> tw_job_id w <> id)) /\
  (forall id r, db_jobs (st_db s') !! id = Some r -> db_jobs (st_db s) !! id = Some r /\
     dependencies_of (st_db s') id = dependencies_of (st_db s) id).
Proof.
  intros Hrun cutoff.
  destruct (hoare_any _ _ _ _ (CleanupTerminal_spec any_fault retention limit now s) eq_refl Hrun) as (c & Hc & Hn & ->).
  assert (c = cutoff) as -> by (rewrite Hc; unfold cutoff, TimeAdd; f_equal; lia).
  set (ids := cleanup_ids cutoff limit (st_db s)) in *. cbn [set_db st_db]. split_and!.
  - apply CleanupTerminal_limit in Hrun. rewrite Hn. unfold ids, cleanup_ids. rewrite length_fmap, length_take. lia.
  - intros id r Hr Hnone.
    assert (Hin : id ∈ ids).
    { destruct (decide (id ∈ ids)) as [?|Hni]; [done|]. exfalso.
      assert (Hk : db_jobs (delete_jobs ids (st_db s)) !! id = Some r) by (by apply map_lookup_filter_Some).
      cbn in Hk, Hnone. congruence. }
    destruct (cleanup_ids_removable _ _ _ _ Hin) as (r' & Hr' & ? & ? & ? & ?). rewrite Hr in Hr'. injection Hr' as <-. done.
  - intros id r Hr. apply map_lookup_filter_Some in Hr as [Hr Hni]. split; [done|]. unfold dependencies_of.
    apply sort_strings_unique, fmap_Permutation, NoDup_Permutation; try apply NoDup_filter, NoDup_elements.
    intros [j d]. rewrite !list_elem_of_filter, !elem_of_elements. cbn. rewrite elem_of_filter. cbn. naive_solver.
Qed.

End Theorems.
