(* ===== verification/WorkqueueExamples.v ===== *)
(** * The work queue on concrete stores

    A store with a leased job and a job blocked on it, the theorems of
    [Workqueue] at work on it, and what a driver fault inside propagation does. *)

From S2P Require Import Prelude GoStrings GoRegexp Effects PolicyScan WorkqueueTypes Admission Fairness WorkqueueRows WorkqueueStore WorkqueueInv WorkqueueOps WorkqueueEnqueue WorkqueueSystem Workqueue.

#[local] Instance id_scan : SqlScan := {| unordered := fun l => l; unordered_perm := fun l => reflexivity l |}.

Definition ex_config : Config :=
  {| cfg_Root := "/var/lib/queue"; cfg_ControllerID := "controller"; cfg_Writers := 1;
     cfg_MaxJobs := 8; cfg_MaxJobsPerWorkspace := 4 |}.
Definition ex_hash : string := "sha256:0000000000000000000000000000000000000000000000000000000000000000".
Definition ex_spec (key : string) (deps : list string) : Spec :=
  {| spec_IdempotencyKey := key; spec_Workspace := "alpha"; spec_Pool := "linux"; spec_Profile := "go";
     spec_PayloadHash := ex_hash; spec_Dependencies := deps |}.
Definition ex_bytes (c : ascii) : string := String.concat "" (repeat (String c EmptyString) 16).
Definition ex_jobA : string := "wj_" +:+ EncodeToString (ex_bytes "A").
Definition ex_jobB : string := "wj_" +:+ EncodeToString (ex_bytes "B").
Definition ex_leaseA : string := "wl_" +:+ EncodeToString (ex_bytes "C").
Definition ex_holder : string := "worker-001".

Definition ex_ops : list (op * list bool) :=
  [(OpEnqueue (ex_spec "job-alpha-1" []) 1000 (Some (ex_bytes "A")), []);
   (OpEnqueue (ex_spec "job-alpha-2" [ex_jobA]) 1001 (Some (ex_bytes "B")), []);
   (OpLeaseNext "linux" ex_holder Minute 1002 (Some (ex_bytes "C")), [])].

Definition ex_store0 : Store := {| st_config := ex_config; st_db := empty_db;
  st_fair := {| fs_config := {| fc_Quantum := 1; fc_AgingLimit := Minute |}; fs_deficits := ∅; fs_cursor := "" |} |}.
Definition run_ops (s : Store) (ops : list (op * list bool)) : Store :=
  fold_left (fun s o => snd (run (exec (fst o)) s (snd o))) ops s.
(** [A] is leased, [B] waits for it. *)
Definition ex_store : Store := run_ops ex_store0 ex_ops.
Definition ex_done : Result := {| res_Outcome := StateSucceeded; res_Summary := "done"; res_ResultRef := "" |}.

Lemma ex_fresh : fresh_store ex_config = Ok ex_store0.
Proof. vm_compute. reflexivity. Qed.

Example ex_states : (state_of (st_db ex_store) ex_jobA, state_of (st_db ex_store) ex_jobB) = (Some StateLeased, Some StateBlocked).
Proof. vm_compute. reflexivity. Qed.

(** Completing [A] makes [B] ready. *)
Example ex_complete :
  let s := snd (run (Complete ex_jobA ex_leaseA 1 ex_done 1003 1003) ex_store []) in
  (state_of (st_db s) ex_jobA, state_of (st_db s) ex_jobB) = (Some StateSucceeded, Some StateQueued).
Proof. vm_compute. reflexivity. Qed.

(** A finding: [propagate] does not look at [rows.Err()].  When the driver
    fails while the dependents of a completed job are being fetched, [Complete]
    still succeeds and commits, and a job all of whose dependencies have
    succeeded stays blocked. *)
Theorem propagation_fault_strands_job :
  exists fs job s', run (Complete ex_jobA ex_leaseA 1 ex_done 1003 1003) ex_store fs = (Ok job, s') /\
    j_State job = StateSucceeded /\ state_of (st_db s') ex_jobB = Some StateBlocked /\
    (forall d, (ex_jobB, d) ∈ db_dependencies (st_db s') -> state_of (st_db s') d = Some StateSucceeded).
Proof.
  exists [false; false; false; false; true].
  destruct (run (Complete ex_jobA ex_leaseA 1 ex_done 1003 1003) ex_store [false; false; false; false; true])
    as [[job|e] s'] eqn:E; [|vm_compute in E; discriminate E].
  exists job, s'. split; [done|].
  assert (Hs : s' = snd (run (Complete ex_jobA ex_leaseA 1 ex_done 1003 1003) ex_store [false; false; false; false; true]))
    by (by rewrite E).
  assert (Hj : Ok job = fst (run (Complete ex_jobA ex_leaseA 1 ex_done 1003 1003) ex_store [false; false; false; false; true]))
    by (by rewrite E).
  split; [vm_compute in Hj; by injection Hj as ->|]. clear E Hj. subst s'. split; [vm_compute; reflexivity|].
  intros d Hd. apply dependencies_of_spec in Hd. revert d Hd. apply Forall_forall.
  apply (bool_decide_unpack _). vm_compute. exact I.
Qed.

(** ** Witnesses *)
Lemma ex_trace F : trace F 0 ex_store0 ex_ops 1002 ex_store.
Proof.
  unfold ex_store, run_ops, ex_ops. cbn [fold_left fst snd].
  eapply trace_cons; [|cbn; lia|constructor|apply surjective_pairing|].
  { split; [vm_compute; split; [discriminate|reflexivity]|]. split; [by intros b [= <-]|].
    intros b _. by apply not_elem_of_nil. }
  eapply trace_cons; [|cbn; lia|constructor|apply surjective_pairing|].
  { split; [vm_compute; split; [discriminate|reflexivity]|]. split; [by intros b [= <-]|].
    intros b [= <-]. apply (bool_decide_unpack _). vm_compute. exact I. }
  eapply trace_cons; [|cbn; lia|constructor|apply surjective_pairing|apply trace_nil].
  split; [vm_compute; split; [discriminate|reflexivity]|]. by intros b [= <-].
Qed.

Lemma ex_inv F : store_inv F 1002 ex_store.
Proof. apply (trace_inv _ _ _ _ _ _ (ex_trace F)). apply (fresh_store_inv F 0 ex_config), ex_fresh. Qed.

Lemma ex_int64 z : bool_decide (in_int64 z) = true -> in_int64 z.
Proof. apply bool_decide_eq_true_1. Qed.

(** Rows of a concrete store. *)
Definition row_at (s : Store) (id : string) : JobRow :=
  default (new_row (ident_of (ex_spec "" []) 0) StateQueued ReasonNone None None) (db_jobs (st_db s) !! id).

Lemma queue_invariant_witness :
  let db := st_db ex_store in
  (forall id r, db_jobs db !! id = Some r ->
     scanJob id r = Ok (job_of_row id r) /\ r_fence r = r_attempt r /\ 0 <= r_attempt r <= MaxLeaseAttempts /\
     r_updated_at r <= 1002) /\
  fk_ok db /\ acyclic db /\ keys_unique db /\
  count_jobs active db <= cfg_MaxJobs (st_config ex_store) /\
  (forall w, count_jobs (workspace_active w) db <= cfg_MaxJobsPerWorkspace (st_config ex_store)).
Proof. exact (queue_invariant ex_config ex_store0 0 ex_ops 1002 ex_store ex_fresh (ex_trace any_fault)). Defined.

Definition ex_recover : op := OpRecover (1002 + 2 * Minute).
Lemma ex_recover_ok : op_ok ex_recover.
Proof. split; [by apply ex_int64|done]. Qed.

Lemma job_lifecycle_witness :
  let s' := snd (run (exec ex_recover) ex_store []) in
  (exists r', db_jobs (st_db s') !! ex_jobA = Some r' /\ r_ident r' = r_ident (row_at ex_store ex_jobA) /\
     r_fence (row_at ex_store ex_jobA) <= r_fence r' /\
     rtc (fun a b => legalTransition a b = true) (r_state (row_at ex_store ex_jobA)) (r_state r') /\
     (terminal (r_state (row_at ex_store ex_jobA)) = true -> r' = row_at ex_store ex_jobA)) \/
  (db_jobs (st_db s') !! ex_jobA = None /\ terminal (r_state (row_at ex_store ex_jobA)) = true).
Proof.
  apply (job_lifecycle 1002 ex_store ex_recover [] (fst (run (exec ex_recover) ex_store []))).
  - apply ex_inv.
  - vm_compute. discriminate.
  - apply ex_recover_ok.
  - apply surjective_pairing.
  - vm_compute. reflexivity.
Defined.

(** [B] made ready, then leased. *)
Definition ex_ready : Store := snd (run (exec (OpComplete ex_jobA ex_leaseA 1 ex_done 1003 1003)) ex_store []).
Lemma ex_ready_inv F : store_inv F 1003 ex_ready.
Proof.
  unfold ex_ready.
  destruct (run (exec (OpComplete ex_jobA ex_leaseA 1 ex_done 1003 1003)) ex_store []) as [r s] eqn:E.
  apply (run_op_post F 1002 (OpComplete ex_jobA ex_leaseA 1 ex_done 1003 1003) ex_store [] r s);
    [apply ex_inv|done|split; [by apply ex_int64|done]|constructor|exact E].
Qed.
Definition lease_of (r : result Lease) : Lease :=
  match r with Ok l => l | Err _ => {| l_Job := zero_job; l_ID := ""; l_Fence := 0; l_Attempt := 0; l_ExpiresAt := 0 |} end.
Definition ex_grant := run (LeaseNext "linux" ex_holder Minute 1004 (Some (ex_bytes "D"))) ex_ready [].

Lemma LeaseNext_exclusive_witness :
  let l := lease_of (fst ex_grant) in
  (exists r r', db_jobs (st_db ex_ready) !! j_ID (l_Job l) = Some r /\ i_pool (r_ident r) = "linux" /\
    (r_state r = StateQueued \/ r_state r = StateLeased /\ exists until, r_lease_until r = Some until /\ until <= 1004) /\
    r_cancel_requested r = false /\ r_fence r < l_Fence l <= MaxLeaseAttempts /\
    db_jobs (st_db (snd ex_grant)) !! j_ID (l_Job l) = Some r' /\ r_state r' = StateLeased /\
    r_lease_id r' = Some (l_ID l) /\ r_lease_holder r' = Some ex_holder /\ r_fence r' = l_Fence l /\
    r_lease_until r' = Some (l_ExpiresAt l) /\ l_ExpiresAt l = 1004 + Minute /\ r_cancel_requested r' = false) /\
  (forall id x, db_jobs (st_db ex_ready) !! id = Some x -> r_state x = StateLeased ->
     (forall until, r_lease_until x = Some until -> 1004 < until) -> db_jobs (st_db (snd ex_grant)) !! id = Some x).
Proof.
  apply (LeaseNext_exclusive 1003 "linux" ex_holder Minute 1004 (Some (ex_bytes "D")) ex_ready []).
  - apply ex_ready_inv.
  - done.
  - by apply ex_int64.
  - by apply ex_int64.
  - by intros b [= <-].
  - vm_compute. reflexivity.
Defined.

Definition job_of (r : result Job) : Job := match r with Ok j => j | Err _ => zero_job end.
Definition ex_finish := run (Complete ex_jobA ex_leaseA 1 ex_done 1003 1003) ex_store [].

Lemma Complete_fenced_witness :
  let job := job_of (fst ex_finish) in let s' := snd ex_finish in
  (s' = ex_store /\ exists r, job = job_of_row ex_jobA r /\ completion_recorded (st_db ex_store) ex_jobA ex_leaseA 1 ex_done r) \/
  (exists r, db_jobs (st_db ex_store) !! ex_jobA = Some r /\ holds_lease r ex_leaseA 1 1003 /\
     (r_cancel_requested r = true -> res_Outcome ex_done = StateCancelled) /\
     db_jobs (st_db s') !! ex_jobA = Some (set_completed ex_done (nullableString (res_ResultRef ex_done)) 1003 r) /\
     j_State job = res_Outcome ex_done /\ j_Outcome job = res_Outcome ex_done /\ j_Summary job = res_Summary ex_done /\
     j_ResultRef job = res_ResultRef ex_done /\ terminal (j_State job) = true).
Proof.
  apply (Complete_fenced 1002 ex_jobA ex_leaseA 1 ex_done 1003 1003 ex_store []).
  - apply ex_inv.
  - done.
  - by apply ex_int64.
  - vm_compute. reflexivity.
Defined.

Lemma stale_lease_rejected_witness :
  (exists e, run (Heartbeat ex_jobA ex_leaseA 2 Minute 1003) ex_store [] = (Err e, ex_store)) /\
  (exists e, run (Complete ex_jobA ex_leaseA 2 ex_done 1003 1003) ex_store [] = (Err e, ex_store)).
Proof.
  apply (stale_lease_rejected 1002 ex_store ex_jobA ex_leaseA 2 (row_at ex_store ex_jobA) Minute ex_done 1003 1003 []).
  - apply ex_inv.
  - done.
  - by apply ex_int64.
  - vm_compute. reflexivity.
  - right. vm_compute. discriminate.
Defined.

Lemma LeaseNext_progress_witness :
  (exists l, fst ex_grant = Ok l) \/
  (fst ex_grant = Err ErrNoJobAvailable /\ forall id r, ~ leasable (st_db (snd ex_grant)) "linux" id r).
Proof.
  apply (LeaseNext_progress 1003 "linux" ex_holder Minute 1004 (ex_bytes "D") ex_ready).
  - apply ex_ready_inv.
  - done.
  - by apply ex_int64.
  - reflexivity.
  - split; [vm_compute; reflexivity|]. split; [vm_compute; reflexivity|]. vm_compute. split; discriminate.
  - apply surjective_pairing.
Defined.

Lemma no_stuck_jobs_witness :
  (exists d, depends (st_db ex_store) ex_jobB d /\
     (state_of (st_db ex_store) d = Some StateQueued \/ state_of (st_db ex_store) d = Some StateLeased)) /\
  (forall d x, (ex_jobB, d) ∈ db_dependencies (st_db ex_store) -> db_jobs (st_db ex_store) !! d = Some x ->
     r_state x <> StateFailed /\ r_state x <> StateCancelled).
Proof.
  apply (no_stuck_jobs ex_config ex_store0 0 ex_ops 1002 ex_store ex_jobB (row_at ex_store ex_jobB)).
  - apply ex_fresh.
  - apply ex_trace.
  - vm_compute. reflexivity.
  - vm_compute. reflexivity.
Defined.

Lemma propagate_terminates_witness :
  fst (run (propagate ex_jobA 1002) (st_db ex_store) [false; true]) <> Err out_of_fuel.
Proof.
  apply (propagate_terminates 1002 (st_db ex_store) ex_jobA [false; true]).
  - apply (si_jobs _ _ _ (ex_inv any_fault)).
  - apply (si_fk _ _ _ (ex_inv any_fault)).
  - vm_compute. discriminate.
Defined.

Definition ex_again : Spec := ex_spec "job-alpha-3" [ex_jobB].
Definition ex_enqueue := run (Enqueue ex_again 1003 (Some (ex_bytes "E"))) ex_store [].
Lemma Enqueue_idempotent_witness :
  run (Enqueue ex_again 2000 None) (snd ex_enqueue) [] =
  (Ok (fst (match fst ex_enqueue with Ok r => r | Err _ => (zero_job, false) end), false), snd ex_enqueue).
Proof.
  apply (Enqueue_idempotent 1002 ex_again 1003 (Some (ex_bytes "E")) ex_store [] _ (snd ex_enqueue) 2000 None).
  - apply ex_inv.
  - done.
  - by apply ex_int64.
  - by intros b [= <-].
  - intros b [= <-]. apply (bool_decide_unpack _). vm_compute. exact I.
  - vm_compute. reflexivity.
Defined.

Lemma failed_operation_atomic_witness :
  st_db (snd (run (exec (OpComplete ex_jobA ex_leaseA 1 ex_done 1003 1003)) ex_store [false; false; true])) = st_db ex_store \/
  "workqueue: completion update failed" ∈ late_errors.
Proof.
  apply (failed_operation_atomic 1002 ex_store (OpComplete ex_jobA ex_leaseA 1 ex_done 1003 1003) [false; false; true]).
  - apply ex_inv.
  - done.
  - split; [by apply ex_int64|done].
  - vm_compute. reflexivity.
Defined.

Definition ex_cancel := run (Cancel ex_jobA 1003) ex_store [].
Lemma Cancel_effect_witness :
  exists r r', db_jobs (st_db ex_store) !! ex_jobA = Some r /\ db_jobs (st_db (snd ex_cancel)) !! ex_jobA = Some r' /\
    job_of (fst ex_cancel) = job_of_row ex_jobA r' /\
    match r_state r with
    | StateLeased => r_state r' = StateLeased /\ r_cancel_requested r' = true /\ r_lease_id r' = r_lease_id r /\
                     r_fence r' = r_fence r /\ r_lease_until r' = r_lease_until r
    | StateBlocked | StateQueued => r_state r' = StateCancelled /\ r_cancel_requested r' = true
    | _ => r' = r /\ snd ex_cancel = ex_store
    end.
Proof.
  apply (Cancel_effect 1002 ex_jobA 1003 ex_store []).
  - apply ex_inv.
  - done.
  - by apply ex_int64.
  - vm_compute. reflexivity.
Defined.

Definition ex_cleanup := run (CleanupTerminal Minute 10 (1003 + 2 * Minute)) ex_ready [].
Lemma CleanupTerminal_safe_witness :
  let cutoff := UnixNano (1003 + 2 * Minute - Minute) in
  0 <= 10 /\
  (forall id r, db_jobs (st_db ex_ready) !! id = Some r -> db_jobs (st_db (snd ex_cleanup)) !! id = None ->
     terminal (r_state r) = true /\ r_updated_at r < cutoff /\ (forall j, (j, id) ∉ db_dependencies (st_db ex_ready)) /\
     (forall k w, db_task_workers (st_db ex_ready) !! k = Some w -> tw_job_id w <> id)) /\
  (forall id r, db_jobs (st_db (snd ex_cleanup)) !! id = Some r -> db_jobs (st_db ex_ready) !! id = Some r /\
     dependencies_of (st_db (snd ex_cleanup)) id = dependencies_of (st_db ex_ready) id).
Proof.
  apply (CleanupTerminal_safe Minute 10 (1003 + 2 * Minute) ex_ready []). vm_compute. reflexivity.
Defined.
