(* ===== verification/WorkqueueIntegrity.v ===== *)
(** * The integrity check of the queue

    The part of [Store.Integrity] (store.go) that looks at the jobs and dependencies.
    It runs when a database is opened. On every store the queue can reach it passes
    exactly when the number of stored dependencies is within its bound; that bound is
    on all stored jobs, while only active jobs are bounded when they are admitted. *)

From S2P Require Import Prelude GoStrings GoRegexp Effects PolicyScan WorkqueueTypes Admission Fairness WorkqueueRows WorkqueueStore WorkqueueInv WorkqueueOps WorkqueueEnqueue WorkqueueSystem Workqueue WorkqueueExamples.

Definition ErrDependencyBound : error := "workqueue: dependency bound exceeded".

Section integrity.
Context `{SystemSummaries} `{SqlScan}.

(** [SELECT .. FROM jobs], in any order *)
Definition all_rows (db : DB) : list (string * JobRow) :=
  omap (fun id => pair id <$> db_jobs db !! id) (unordered (map_to_list (db_jobs db)).*1).

(** [SELECT COUNT( * ) FROM (SELECT workspace FROM jobs WHERE state IN (..) GROUP BY
    workspace HAVING COUNT( * )>?)] *)
Definition oversized_workspaces (limit : Z) (db : DB) : Z :=
  Z.of_nat (length (filter (fun w => limit < count_jobs (workspace_active w) db)
    (remove_dups ((fun e => i_workspace (r_ident (snd e))) <$> filter (fun e => active (snd e) = true) (map_to_list (db_jobs db)))))).

(** [rows.Err()] is not consulted after the scan. *)
Definition jobsIntegrity : M Store unit :=
  let! s := mget in
  let db := st_db s in
  let! rows := driver "workqueue: semantic scan failed" (Some (all_rows db)) in
  let! (rows, _) := fetch rows in
  do! mlift (scan_rows "workqueue: semantic integrity failed" rows) in
  do! driver "workqueue: semantic scan failed" (Some tt) in
  let! activeCount := driver "workqueue: row bound exceeded" (Some (count_jobs active db)) in
  do! mguard (cfg_MaxJobs (st_config s) <? activeCount) "workqueue: row bound exceeded" in
  let! oversized := driver "workqueue: workspace row bound exceeded"
    (Some (oversized_workspaces (cfg_MaxJobsPerWorkspace (st_config s)) db)) in
  do! mguard (oversized <>? 0) "workqueue: workspace row bound exceeded" in
  let! dependencyCount := driver ErrDependencyBound (Some (Z.of_nat (size (db_dependencies db)))) in
  mguard ((dependencyCount <? 0) || (cfg_MaxJobs (st_config s) * MaxDependencies <? dependencyCount)) ErrDependencyBound.

Lemma scan_rows_ok e rows : (forall id r, (id, r) ∈ rows -> exists job, scanJob id r = Ok job) -> exists jobs, scan_rows e rows = Ok jobs.
Proof.
  induction rows as [|[id r] rows IH]; intros Hall; cbn [scan_rows]; [by eexists|].
  destruct (Hall id r) as [job ->]; [left|]. destruct IH as [jobs ->]; [|by eexists]. intros. apply Hall. by right.
Qed.

Lemma no_oversized limit db : (forall w, count_jobs (workspace_active w) db <= limit) -> oversized_workspaces limit db = 0.
Proof.
  intros Hw. unfold oversized_workspaces. match goal with |- context [filter ?P ?l] => assert (filter P l = []) as -> end; [|done].
  induction (remove_dups _) as [|w l IH]; [done|]. rewrite filter_cons_False; [done|]. specialize (Hw w). lia.
Qed.

(** C40 On every store the queue can reach, whatever operations ran and whatever driver
    calls failed, the integrity check finds every job readable and the bounds on active
    jobs kept; it passes exactly when at most [MaxJobs * MaxDependencies] dependencies
    are stored, and otherwise reports that bound. *)
Theorem jobsIntegrity_exact config s0 now tr now' s : fresh_store config = Ok s0 -> trace any_fault now s0 tr now' s ->
  run jobsIntegrity s [] =
    (if decide (Z.of_nat (size (db_dependencies (st_db s))) <= cfg_MaxJobs (st_config s) * MaxDependencies)
     then Ok tt else Err ErrDependencyBound, s).
Proof.
  intros Hf Htr. pose proof (trace_inv _ _ _ _ _ _ Htr (fresh_store_inv any_fault now config s0 Hf)) as Hi.
  destruct (si_bounds _ _ _ Hi) as [Ha Hw]. unfold run, jobsIntegrity. unfold mbind at 1, mget at 1.
  destruct (scan_rows_ok "workqueue: semantic integrity failed" (all_rows (st_db s))) as [jobs Hjobs].
  { intros id r (id' & _ & Hr)%list_elem_of_omap. apply fmap_Some in Hr as (r' & Hr & [= -> ->]).
    pose proof (si_jobs _ _ _ Hi id' r' Hr) as Hrow. destruct Hrow. by eexists. }
  unfold mbind at 1, driver at 1. cbn [next_fault]. unfold mbind at 1. rewrite fetch_quiet.
  unfold mbind at 1, mlift at 1. rewrite Hjobs. unfold mbind at 1, driver at 1. cbn [next_fault].
  unfold mbind at 1, driver at 1. cbn [next_fault]. unfold mbind at 1, mguard at 1, mlift at 1.
  rewrite (proj2 (Z.ltb_ge _ _)) by done. cbn [reject_if]. unfold mbind at 1, driver at 1. cbn [next_fault].
  rewrite no_oversized by done. unfold mbind at 1, mguard at 1, mlift at 1. rewrite bool_decide_true by done. cbn [negb reject_if].
  unfold mbind, driver, mguard, mlift. cbn [next_fault]. rewrite (proj2 (Z.ltb_ge _ 0)) by lia. cbn [orb].
  destruct (decide _) as [Hd|Hd]; [rewrite (proj2 (Z.ltb_ge _ _)) by done|rewrite (proj2 (Z.ltb_lt _ _)) by lia]; done.
Qed.
End integrity.

(** ** A history the check refuses *)
#[local] Existing Instance id_scan.

(** One job at a time, each waiting for nothing: every job depends on all the jobs
    before it, which have succeeded. *)
Definition small_config : Config :=
  {| cfg_Root := "/var/lib/queue"; cfg_ControllerID := "controller"; cfg_Writers := 1;
     cfg_MaxJobs := 1; cfg_MaxJobsPerWorkspace := 1 |}.
Definition small_store0 : Store :=
  {| st_config := small_config; st_db := empty_db; st_fair := st_fair ex_store0 |}.

Definition chain_bytes (i : nat) : string := ex_bytes (ascii_of_nat (65 + i)).
Definition chain_job (i : nat) : string := "wj_" +:+ EncodeToString (chain_bytes i).
Definition chain_lease (i : nat) : string := "wl_" +:+ EncodeToString (chain_bytes i).
Definition chain_round (i : nat) : list (op * list bool) :=
  let at_time k := 1000 + Z.of_nat (3 * i + k) in
  [(OpEnqueue (ex_spec ("job-chain-" +:+ String (ascii_of_nat (65 + i)) "") (chain_job <$> seq 0 i)) (at_time 0%nat) (Some (chain_bytes i)), []);
   (OpLeaseNext "linux" ex_holder Minute (at_time 1%nat) (Some (chain_bytes i)), []);
   (OpComplete (chain_job i) (chain_lease i) 1 ex_done (at_time 2%nat) (at_time 2%nat), [])].
Definition chain_ops : list (op * list bool) := concat (chain_round <$> seq 0 7).
Definition chain_store : Store := run_ops small_store0 chain_ops.

Example chain_counts : Z.of_nat (size (db_dependencies (st_db chain_store))) = 21 /\
  (r_state <$> db_jobs (st_db chain_store) !! chain_job 6) = Some StateSucceeded /\ count_jobs active (st_db chain_store) = 0.
Proof. by vm_compute. Qed.

Definition op_checked (o : op) : bool :=
  bool_decide (in_int64 (op_time o)) &&
  match o with
  | OpEnqueue spec _ (Some b) =>
      bool_decide (String.length b = 16%nat) && bool_decide ("wj_" +:+ EncodeToString b ∉ spec_Dependencies spec)
  | OpLeaseNext _ _ _ _ (Some b) => bool_decide (String.length b = 16%nat)
  | _ => true
  end.
Fixpoint ops_checked (now : Z) (ops : list (op * list bool)) : bool :=
  match ops with
  | [] => true
  | (o, fs) :: ops => op_checked o && (now <=? op_time o) && bool_decide (fs = []) && ops_checked (op_time o) ops
  end.

Lemma op_checked_ok o : op_checked o = true -> op_ok o.
Proof.
  unfold op_checked, op_ok. intros [Ht%bool_decide_eq_true Ho]%andb_true_iff. split; [done|].
  destruct o as [spec now [b|]|pool holder ttl now [b|]| | | | |]; try done.
  - apply andb_true_iff in Ho as [Hl%bool_decide_eq_true Hd%bool_decide_eq_true]. split; by intros ? [= <-].
  - apply bool_decide_eq_true in Ho. by intros ? [= <-].
Qed.

Lemma checked_trace F ops now s : ops_checked now ops = true -> exists now', trace F now s ops now' (run_ops s ops).
Proof.
  revert now s. induction ops as [|[o fs] ops IH]; intros now s; cbn [ops_checked]; [by eexists; apply trace_nil|].
  intros [[[Ho%op_checked_ok Hle%Z.leb_le]%andb_true_iff ->%bool_decide_eq_true]%andb_true_iff Hrest]%andb_true_iff.
  destruct (IH _ (snd (run (exec o) s [])) Hrest) as [now' Htr]. exists now'.
  eapply trace_cons; [done|done|constructor|apply surjective_pairing|exact Htr].
Qed.

Lemma chain_trace F : exists now', trace F 0 small_store0 chain_ops now' (run_ops small_store0 chain_ops).
Proof. apply checked_trace. vm_compute. reflexivity. Qed.
Lemma chain_refused : (run jobsIntegrity chain_store []).1 = Err ErrDependencyBound.
Proof. vm_compute. reflexivity. Qed.

(** A finding: seven jobs, run one after the other with no fault and within every
    admission bound, leave a database that the integrity check refuses. *)
Theorem integrity_refuses_history :
  fresh_store small_config = Ok small_store0 /\ (exists now', trace no_fault 0 small_store0 chain_ops now' chain_store) /\
  (run jobsIntegrity chain_store []).1 = Err ErrDependencyBound.
Proof.
  split_and!; [vm_compute; reflexivity|exact (chain_trace no_fault)|exact chain_refused].
Qed.

Lemma jobsIntegrity_exact_witness : run jobsIntegrity ex_store [] = (Ok tt, ex_store).
Proof. exact (jobsIntegrity_exact ex_config ex_store0 0 ex_ops 1002 ex_store ex_fresh (ex_trace any_fault)). Defined.
