(* ===== verification/TaskTypes.v ===== *)
(** * Tasks: [internal/workqueue/task.go], [task_objective.go], [task_integration.go]

    The data of tasks and their workers: specifications, contracts, receipts and the
    pins of an integration, with their validators, digests and the state of a task
    that is derived from its workers. *)

From S2P Require Import Prelude GoStrings GoRegexp GoJson GoTime GoReflect GoRecord Sha256 PolicyScan WorkqueueTypes.

Definition MaxTaskWorkers : Z := 4.

Inductive TaskState :=
| TaskQueued | TaskRunning | TaskCancelling | TaskCompleted | TaskFailed | TaskCancelled
| TaskStateOther (s : string).
#[export] Instance TaskState_eq_dec : EqDecision TaskState.
Proof. solve_decision. Defined.

(** ** Identifiers *)
Definition alias_class := lower ⊎ digit.
(** [^[a-z0-9](?:[a-z0-9-]{0,n}[a-z0-9])?$] *)
Definition alias_pattern (n : nat) : regexp :=
  whole (Seq (Class alias_class) (opt (Seq (upto n (Class (alias_class ⊎ one_of "-"))) (Class alias_class)))).
Definition hex_id (prefix : string) : regexp := whole (Seq (lit prefix) (times 32 (Class hexlow))).
Definition taskIDPattern : regexp := hex_id "tg_".
Definition taskProjectPattern : regexp := alias_pattern 61.
Definition taskTargetPattern : regexp := alias_pattern 30.
Definition taskCommitPattern : regexp := whole (times 40 (Class hexlow)).
Definition taskWorktreePattern : regexp := hex_id "wt_".
Definition taskWorkspacePattern : regexp := hex_id "ws_".
Definition taskRuntimePattern : regexp := hex_id "mr_".
Definition taskGoalRefPattern : regexp := hex_id "mb_".
Definition taskOperationPattern : regexp := hex_id "eo_".

(** ** Contracts *)
Record TaskAcceptanceContract := {
  ac_Version : Z;
  ac_MinimumCommitsAheadPerWorker : Z;
  ac_MinimumChangedPathsPerWorker : Z;
}.
#[export] Instance TaskAcceptanceContract_eq_dec : EqDecision TaskAcceptanceContract.
Proof. solve_decision. Defined.

Record TaskTestAcceptanceContract := { tc_Version : Z; tc_ProfileID : string; tc_ProfileDigest : string }.
#[export] Instance TaskTestAcceptanceContract_eq_dec : EqDecision TaskTestAcceptanceContract.
Proof. solve_decision. Defined.

Record TaskObjectiveContract := {
  oc_Version : Z;
  oc_MinimumCommitsAheadPerWorker : Z;
  oc_MinimumChangedPathsPerWorker : Z;
  oc_RequireClean : bool;
}.
#[export] Instance TaskObjectiveContract_eq_dec : EqDecision TaskObjectiveContract.
Proof. solve_decision. Defined.

Record TaskIntegrationWorker := { iw_Ordinal : Z; iw_HeadCommit : string }.
#[export] Instance TaskIntegrationWorker_eq_dec : EqDecision TaskIntegrationWorker.
Proof. solve_decision. Defined.

Record TaskIntegrationContract := {
  ic_Version : Z;
  ic_ExpectedBaseCommit : string;
  ic_SourceTaskID : string;
  ic_Workers : list TaskIntegrationWorker;
}.
#[export] Instance TaskIntegrationContract_eq_dec : EqDecision TaskIntegrationContract.
Proof. solve_decision. Defined.

Record TaskIntegrationSourcePin := {
  pin_TaskID : string;
  pin_Ordinal : Z;
  pin_JobID : string;
  pin_RuntimeID : string;
  pin_WorktreeID : string;
  pin_WorkspaceID : string;
  pin_BaseCommit : string;
  pin_HeadCommit : string;
  pin_Branch : string;
  pin_LeaseID : string;
  pin_Fence : Z;
  pin_GitReceiptDigest : string;
  pin_TestReceiptDigest : string;
  pin_ObjectiveReceiptDigest : string;
}.
#[export] Instance TaskIntegrationSourcePin_eq_dec : EqDecision TaskIntegrationSourcePin.
Proof. solve_decision. Defined.

(** ** Receipts *)
Record TaskAcceptanceReceipt := {
  ar_Version : Z; ar_TaskID : string; ar_Ordinal : Z; ar_JobID : string; ar_WorktreeID : string;
  ar_WorkspaceID : string; ar_WorktreeRole : string; ar_BaseCommit : string; ar_HeadCommit : string;
  ar_Branch : string; ar_LeaseID : string; ar_Fence : Z; ar_ContractDigest : string; ar_Clean : bool;
  ar_CommitsAheadBase : Z; ar_ChangedPathCount : Z; ar_RecordedAt : time;
}.
#[export] Instance TaskAcceptanceReceipt_eq_dec : EqDecision TaskAcceptanceReceipt.
Proof. solve_decision. Defined.

(** [TaskTestEdgeResult]: a string type with one constant. *)
Definition TaskTestEdgeResultPassed : string := "passed".

Record TaskTestAcceptanceReceipt := {
  tr_Version : Z; tr_TaskID : string; tr_Ordinal : Z; tr_JobID : string; tr_WorktreeID : string;
  tr_WorkspaceID : string; tr_BaseCommit : string; tr_HeadCommit : string; tr_Branch : string;
  tr_LeaseID : string; tr_Fence : Z; tr_ContentDigest : string; tr_ProfileID : string;
  tr_ProfileDigest : string; tr_ContractDigest : string; tr_EdgeOperationID : string;
  tr_EdgeResult : string; tr_RecordedAt : time;
}.
#[export] Instance TaskTestAcceptanceReceipt_eq_dec : EqDecision TaskTestAcceptanceReceipt.
Proof. solve_decision. Defined.

Record TaskObjectiveReceipt := {
  or_Version : Z; or_TaskID : string; or_Ordinal : Z; or_ContractDigest : string; or_TestReceiptDigest : string;
  or_HeadCommit : string; or_Clean : bool; or_CommitsAheadBase : Z; or_ChangedPathCount : Z; or_RecordedAt : time;
}.
#[export] Instance TaskObjectiveReceipt_eq_dec : EqDecision TaskObjectiveReceipt.
Proof. solve_decision. Defined.

Record TaskIntegrationReceipt := {
  ir_Version : Z; ir_TaskID : string; ir_ContractDigest : string; ir_SourcesDigest : string;
  ir_ObjectiveReceiptDigest : string; ir_HeadCommit : string; ir_RecordedAt : time;
}.
#[export] Instance TaskIntegrationReceipt_eq_dec : EqDecision TaskIntegrationReceipt.
Proof. solve_decision. Defined.

(** [receipt.RecordedAt = t] *)
Definition ar_at (t : time) (r : TaskAcceptanceReceipt) : TaskAcceptanceReceipt :=
  {| ar_Version := ar_Version r; ar_TaskID := ar_TaskID r; ar_Ordinal := ar_Ordinal r; ar_JobID := ar_JobID r;
     ar_WorktreeID := ar_WorktreeID r; ar_WorkspaceID := ar_WorkspaceID r; ar_WorktreeRole := ar_WorktreeRole r;
     ar_BaseCommit := ar_BaseCommit r; ar_HeadCommit := ar_HeadCommit r; ar_Branch := ar_Branch r;
     ar_LeaseID := ar_LeaseID r; ar_Fence := ar_Fence r; ar_ContractDigest := ar_ContractDigest r;
     ar_Clean := ar_Clean r; ar_CommitsAheadBase := ar_CommitsAheadBase r;
     ar_ChangedPathCount := ar_ChangedPathCount r; ar_RecordedAt := t |}.
Definition tr_at (t : time) (r : TaskTestAcceptanceReceipt) : TaskTestAcceptanceReceipt :=
  {| tr_Version := tr_Version r; tr_TaskID := tr_TaskID r; tr_Ordinal := tr_Ordinal r; tr_JobID := tr_JobID r;
     tr_WorktreeID := tr_WorktreeID r; tr_WorkspaceID := tr_WorkspaceID r; tr_BaseCommit := tr_BaseCommit r;
     tr_HeadCommit := tr_HeadCommit r; tr_Branch := tr_Branch r; tr_LeaseID := tr_LeaseID r; tr_Fence := tr_Fence r;
     tr_ContentDigest := tr_ContentDigest r; tr_ProfileID := tr_ProfileID r; tr_ProfileDigest := tr_ProfileDigest r;
     tr_ContractDigest := tr_ContractDigest r; tr_EdgeOperationID := tr_EdgeOperationID r;
     tr_EdgeResult := tr_EdgeResult r; tr_RecordedAt := t |}.
Definition or_at (t : time) (r : TaskObjectiveReceipt) : TaskObjectiveReceipt :=
  {| or_Version := or_Version r; or_TaskID := or_TaskID r; or_Ordinal := or_Ordinal r;
     or_ContractDigest := or_ContractDigest r; or_TestReceiptDigest := or_TestReceiptDigest r;
     or_HeadCommit := or_HeadCommit r; or_Clean := or_Clean r; or_CommitsAheadBase := or_CommitsAheadBase r;
     or_ChangedPathCount := or_ChangedPathCount r; or_RecordedAt := t |}.
Definition ir_at (t : time) (r : TaskIntegrationReceipt) : TaskIntegrationReceipt :=
  {| ir_Version := ir_Version r; ir_TaskID := ir_TaskID r; ir_ContractDigest := ir_ContractDigest r;
     ir_SourcesDigest := ir_SourcesDigest r; ir_ObjectiveReceiptDigest := ir_ObjectiveReceiptDigest r;
     ir_HeadCommit := ir_HeadCommit r; ir_RecordedAt := t |}.

(** ** Specifications, workers and tasks *)
Record TaskSpec := {
  ts_IdempotencyKey : string;
  ts_Project : string;
  ts_Target : string;
  ts_BaseCommit : string;
  ts_GoalHash : string;
  ts_AcceptanceContract : option TaskAcceptanceContract;
  ts_TestAcceptanceContract : option TaskTestAcceptanceContract;
  ts_ObjectiveContract : option TaskObjectiveContract;
  ts_IntegrationContract : option TaskIntegrationContract;
  ts_IntegrationPins : goslice TaskIntegrationSourcePin;
  ts_WorkerGoalHashes : list string;
  ts_WorkerGoalRefs : list string;
  ts_Pool : string;
  ts_Profile : string;
  ts_WorkerCount : Z;
  ts_ExecutionTimeoutSeconds : Z;
}.

Record TaskWorker := {
  wk_Ordinal : Z;
  wk_JobID : string;
  wk_State : State;
  wk_Reason : Reason;
  wk_CancelRequested : bool;
  wk_Attempt : Z;
  wk_LeaseID : string;
  wk_Fence : Z;
  wk_LeaseExpiresAt : time;
  wk_LeaseHolder : string;
  wk_OperationID : string;
  wk_WorktreeID : string;
  wk_WorkspaceID : string;
  wk_RuntimeID : string;
  wk_WorktreeCleaned : bool;
  wk_AcceptanceReceipt : option TaskAcceptanceReceipt;
  wk_TestAcceptanceReceipt : option TaskTestAcceptanceReceipt;
  wk_ObjectiveReceipt : option TaskObjectiveReceipt;
  wk_Summary : string;
  wk_GoalHash : string;
  wk_GoalRef : string;
  wk_UpdatedAt : time;
}.

Record TaskGroup := {
  tk_ID : string;
  tk_IdempotencyKey : string;
  tk_Project : string;
  tk_Target : string;
  tk_BaseCommit : string;
  tk_GoalHash : string;
  tk_Pool : string;
  tk_Profile : string;
  tk_WorkerCount : Z;
  tk_ExecutionTimeoutSeconds : Z;
  tk_AcceptanceContract : option TaskAcceptanceContract;
  tk_TestAcceptanceContract : option TaskTestAcceptanceContract;
  tk_ObjectiveContract : option TaskObjectiveContract;
  tk_IntegrationContract : option TaskIntegrationContract;
  tk_IntegrationPins : goslice TaskIntegrationSourcePin;
  tk_IntegrationReceipt : option TaskIntegrationReceipt;
  tk_State : TaskState;
  tk_Workers : list TaskWorker;
  tk_CreatedAt : time;
  tk_UpdatedAt : time;
}.

Record TaskWorkerBinding := {
  wb_TaskID : string; wb_Ordinal : Z; wb_JobID : string; wb_LeaseID : string; wb_Fence : Z;
  wb_WorktreeID : string; wb_WorkspaceID : string; wb_RuntimeID : string;
}.
Record TaskWorkerOperationBinding := {
  ob_TaskID : string; ob_Ordinal : Z; ob_JobID : string; ob_LeaseID : string; ob_Fence : Z; ob_OperationID : string;
}.
Record ActiveTaskGoalRef := { gr_IdempotencyKey : string; gr_BodyRef : string; gr_ContentDigest : string }.
