(* ===== verification/TaskRecord.v ===== *)
(** * The stored records of tasks

    The JSON of contracts, pins and receipts as their struct tags give it, and
    [decodeTaskObjectiveRecord], which bounds the text and refuses unknown members. *)

From S2P Require Import Prelude GoStrings GoRegexp GoJson GoTime GoReflect GoRecord TaskTypes.

Definition objective_contract_type : gtype :=
  TExplicit [req "version" c_int64; req "minimum_commits_ahead_per_worker" c_int64;
    req "minimum_changed_paths_per_worker" c_int64; req "require_clean" c_bool].
Definition objective_contract_to (r : TaskObjectiveContract) : gval :=
  VStruct [c_to c_int64 (oc_Version r); c_to c_int64 (oc_MinimumCommitsAheadPerWorker r);
    c_to c_int64 (oc_MinimumChangedPathsPerWorker r); c_to c_bool (oc_RequireClean r)].
Definition objective_contract_of (v : gval) : option TaskObjectiveContract :=
  match v with
  | VStruct [x0; x1; x2; x3] =>
      x0 ← c_of c_int64 x0; x1 ← c_of c_int64 x1; x2 ← c_of c_int64 x2; x3 ← c_of c_bool x3;
      Some {| oc_Version := x0; oc_MinimumCommitsAheadPerWorker := x1; oc_MinimumChangedPathsPerWorker := x2;
        oc_RequireClean := x3 |}
  | _ => None
  end.
Lemma objective_contract_law r : objective_contract_of (objective_contract_to r) = Some r.
Proof. destruct r. cbn -[c_to c_of]. by rewrite !c_law. Qed.
Definition c_objective_contract : codec TaskObjectiveContract :=
  {| c_type := objective_contract_type; c_to := objective_contract_to; c_of := objective_contract_of;
    c_law := objective_contract_law |}.

Definition integration_worker_type : gtype :=
  TExplicit [req "ordinal" c_int64; req "head_commit" c_string].
Definition integration_worker_to (r : TaskIntegrationWorker) : gval :=
  VStruct [c_to c_int64 (iw_Ordinal r); c_to c_string (iw_HeadCommit r)].
Definition integration_worker_of (v : gval) : option TaskIntegrationWorker :=
  match v with
  | VStruct [x0; x1] =>
      x0 ← c_of c_int64 x0; x1 ← c_of c_string x1;
      Some {| iw_Ordinal := x0; iw_HeadCommit := x1 |}
  | _ => None
  end.
Lemma integration_worker_law r : integration_worker_of (integration_worker_to r) = Some r.
Proof. destruct r. cbn -[c_to c_of]. by rewrite !c_law. Qed.
Definition c_integration_worker : codec TaskIntegrationWorker :=
  {| c_type := integration_worker_type; c_to := integration_worker_to; c_of := integration_worker_of;
    c_law := integration_worker_law |}.

Definition integration_contract_type : gtype :=
  TStruct [req "version" c_int64; req "expected_base_commit" c_string; req "source_task_id" c_string;
    req "workers" (c_list c_integration_worker)].
Definition integration_contract_to (r : TaskIntegrationContract) : gval :=
  VStruct [c_to c_int64 (ic_Version r); c_to c_string (ic_ExpectedBaseCommit r);
    c_to c_string (ic_SourceTaskID r); c_to (c_list c_integration_worker) (ic_Workers r)].
Definition integration_contract_of (v : gval) : option TaskIntegrationContract :=
  match v with
  | VStruct [x0; x1; x2; x3] =>
      x0 ← c_of c_int64 x0; x1 ← c_of c_string x1; x2 ← c_of c_string x2; x3 ← c_of (c_list c_integration_worker) x3;
      Some {| ic_Version := x0; ic_ExpectedBaseCommit := x1; ic_SourceTaskID := x2; ic_Workers := x3 |}
  | _ => None
  end.
Lemma integration_contract_law r : integration_contract_of (integration_contract_to r) = Some r.
Proof. destruct r. cbn -[c_to c_of]. by rewrite !c_law. Qed.
Definition c_integration_contract : codec TaskIntegrationContract :=
  {| c_type := integration_contract_type; c_to := integration_contract_to; c_of := integration_contract_of;
    c_law := integration_contract_law |}.

Definition pin_type : gtype :=
  TStruct [req "task_id" c_string; req "ordinal" c_int64; req "job_id" c_string; req "runtime_id" c_string;
    req "worktree_id" c_string; req "workspace_id" c_string; req "base_commit" c_string;
    req "head_commit" c_string; req "branch" c_string; req "lease_id" c_string; req "fence" c_uint64;
    omit "git_receipt_digest" c_string; omit "test_receipt_digest" c_string;
    omit "objective_receipt_digest" c_string].
Definition pin_to (r : TaskIntegrationSourcePin) : gval :=
  VStruct [c_to c_string (pin_TaskID r); c_to c_int64 (pin_Ordinal r); c_to c_string (pin_JobID r);
    c_to c_string (pin_RuntimeID r); c_to c_string (pin_WorktreeID r); c_to c_string (pin_WorkspaceID r);
    c_to c_string (pin_BaseCommit r); c_to c_string (pin_HeadCommit r); c_to c_string (pin_Branch r);
    c_to c_string (pin_LeaseID r); c_to c_uint64 (pin_Fence r); c_to c_string (pin_GitReceiptDigest r);
    c_to c_string (pin_TestReceiptDigest r); c_to c_string (pin_ObjectiveReceiptDigest r)].
Definition pin_of (v : gval) : option TaskIntegrationSourcePin :=
  match v with
  | VStruct [x0; x1; x2; x3; x4; x5; x6; x7; x8; x9; x10; x11; x12; x13] =>
      x0 ← c_of c_string x0; x1 ← c_of c_int64 x1; x2 ← c_of c_string x2; x3 ← c_of c_string x3;
        x4 ← c_of c_string x4; x5 ← c_of c_string x5; x6 ← c_of c_string x6; x7 ← c_of c_string x7;
        x8 ← c_of c_string x8; x9 ← c_of c_string x9; x10 ← c_of c_uint64 x10; x11 ← c_of c_string x11;
        x12 ← c_of c_string x12; x13 ← c_of c_string x13;
      Some {| pin_TaskID := x0; pin_Ordinal := x1; pin_JobID := x2; pin_RuntimeID := x3; pin_WorktreeID := x4;
        pin_WorkspaceID := x5; pin_BaseCommit := x6; pin_HeadCommit := x7; pin_Branch := x8; pin_LeaseID := x9;
        pin_Fence := x10; pin_GitReceiptDigest := x11; pin_TestReceiptDigest := x12;
        pin_ObjectiveReceiptDigest := x13 |}
  | _ => None
  end.
Lemma pin_law r : pin_of (pin_to r) = Some r.
Proof. destruct r. cbn -[c_to c_of]. by rewrite !c_law. Qed.
Definition c_pin : codec TaskIntegrationSourcePin :=
  {| c_type := pin_type; c_to := pin_to; c_of := pin_of; c_law := pin_law |}.

Definition acceptance_receipt_type : gtype :=
  TStruct [req "version" c_int64; req "task_id" c_string; req "ordinal" c_int64; req "job_id" c_string;
    req "worktree_id" c_string; req "workspace_id" c_string; req "worktree_role" c_string;
    req "base_commit" c_string; req "head_commit" c_string; req "branch" c_string; req "lease_id" c_string;
    req "fence" c_uint64; req "contract_digest" c_string; req "clean" c_bool; req "commits_ahead_base" c_int64;
    req "changed_path_count" c_int64; req "recorded_at" c_time].
Definition acceptance_receipt_to (r : TaskAcceptanceReceipt) : gval :=
  VStruct [c_to c_int64 (ar_Version r); c_to c_string (ar_TaskID r); c_to c_int64 (ar_Ordinal r);
    c_to c_string (ar_JobID r); c_to c_string (ar_WorktreeID r); c_to c_string (ar_WorkspaceID r);
    c_to c_string (ar_WorktreeRole r); c_to c_string (ar_BaseCommit r); c_to c_string (ar_HeadCommit r);
    c_to c_string (ar_Branch r); c_to c_string (ar_LeaseID r); c_to c_uint64 (ar_Fence r);
    c_to c_string (ar_ContractDigest r); c_to c_bool (ar_Clean r); c_to c_int64 (ar_CommitsAheadBase r);
    c_to c_int64 (ar_ChangedPathCount r); c_to c_time (ar_RecordedAt r)].
Definition acceptance_receipt_of (v : gval) : option TaskAcceptanceReceipt :=
  match v with
  | VStruct [x0; x1; x2; x3; x4; x5; x6; x7; x8; x9; x10; x11; x12; x13; x14; x15; x16] =>
      x0 ← c_of c_int64 x0; x1 ← c_of c_string x1; x2 ← c_of c_int64 x2; x3 ← c_of c_string x3;
        x4 ← c_of c_string x4; x5 ← c_of c_string x5; x6 ← c_of c_string x6; x7 ← c_of c_string x7;
        x8 ← c_of c_string x8; x9 ← c_of c_string x9; x10 ← c_of c_string x10; x11 ← c_of c_uint64 x11;
        x12 ← c_of c_string x12; x13 ← c_of c_bool x13; x14 ← c_of c_int64 x14; x15 ← c_of c_int64 x15;
        x16 ← c_of c_time x16;
      Some {| ar_Version := x0; ar_TaskID := x1; ar_Ordinal := x2; ar_JobID := x3; ar_WorktreeID := x4;
        ar_WorkspaceID := x5; ar_WorktreeRole := x6; ar_BaseCommit := x7; ar_HeadCommit := x8; ar_Branch := x9;
        ar_LeaseID := x10; ar_Fence := x11; ar_ContractDigest := x12; ar_Clean := x13;
        ar_CommitsAheadBase := x14; ar_ChangedPathCount := x15; ar_RecordedAt := x16 |}
  | _ => None
  end.
Lemma acceptance_receipt_law r : acceptance_receipt_of (acceptance_receipt_to r) = Some r.
Proof. destruct r. cbn -[c_to c_of]. by rewrite !c_law. Qed.
Definition c_acceptance_receipt : codec TaskAcceptanceReceipt :=
  {| c_type := acceptance_receipt_type; c_to := acceptance_receipt_to; c_of := acceptance_receipt_of;
    c_law := acceptance_receipt_law |}.

Definition test_receipt_type : gtype :=
  TStruct [req "version" c_int64; req "task_id" c_string; req "ordinal" c_int64; req "job_id" c_string;
    req "worktree_id" c_string; req "workspace_id" c_string; req "base_commit" c_string;
    req "head_commit" c_string; req "branch" c_string; req "lease_id" c_string; req "fence" c_uint64;
    req "content_digest" c_string; req "profile_id" c_string; req "profile_digest" c_string;
    req "contract_digest" c_string; req "edge_operation_id" c_string; req "edge_result" c_string;
    req "recorded_at" c_time].
Definition test_receipt_to (r : TaskTestAcceptanceReceipt) : gval :=
  VStruct [c_to c_int64 (tr_Version r); c_to c_string (tr_TaskID r); c_to c_int64 (tr_Ordinal r);
    c_to c_string (tr_JobID r); c_to c_string (tr_WorktreeID r); c_to c_string (tr_WorkspaceID r);
    c_to c_string (tr_BaseCommit r); c_to c_string (tr_HeadCommit r); c_to c_string (tr_Branch r);
    c_to c_string (tr_LeaseID r); c_to c_uint64 (tr_Fence r); c_to c_string (tr_ContentDigest r);
    c_to c_string (tr_ProfileID r); c_to c_string (tr_ProfileDigest r); c_to c_string (tr_ContractDigest r);
    c_to c_string (tr_EdgeOperationID r); c_to c_string (tr_EdgeResult r); c_to c_time (tr_RecordedAt r)].
Definition test_receipt_of (v : gval) : option TaskTestAcceptanceReceipt :=
  match v with
  | VStruct [x0; x1; x2; x3; x4; x5; x6; x7; x8; x9; x10; x11; x12; x13; x14; x15; x16; x17] =>
      x0 ← c_of c_int64 x0; x1 ← c_of c_string x1; x2 ← c_of c_int64 x2; x3 ← c_of c_string x3;
        x4 ← c_of c_string x4; x5 ← c_of c_string x5; x6 ← c_of c_string x6; x7 ← c_of c_string x7;
        x8 ← c_of c_string x8; x9 ← c_of c_string x9; x10 ← c_of c_uint64 x10; x11 ← c_of c_string x11;
        x12 ← c_of c_string x12; x13 ← c_of c_string x13; x14 ← c_of c_string x14; x15 ← c_of c_string x15;
        x16 ← c_of c_string x16; x17 ← c_of c_time x17;
      Some {| tr_Version := x0; tr_TaskID := x1; tr_Ordinal := x2; tr_JobID := x3; tr_WorktreeID := x4;
        tr_WorkspaceID := x5; tr_BaseCommit := x6; tr_HeadCommit := x7; tr_Branch := x8; tr_LeaseID := x9;
        tr_Fence := x10; tr_ContentDigest := x11; tr_ProfileID := x12; tr_ProfileDigest := x13;
        tr_ContractDigest := x14; tr_EdgeOperationID := x15; tr_EdgeResult := x16; tr_RecordedAt := x17 |}
  | _ => None
  end.
Lemma test_receipt_law r : test_receipt_of (test_receipt_to r) = Some r.
Proof. destruct r. cbn -[c_to c_of]. by rewrite !c_law. Qed.
Definition c_test_receipt : codec TaskTestAcceptanceReceipt :=
  {| c_type := test_receipt_type; c_to := test_receipt_to; c_of := test_receipt_of; c_law := test_receipt_law |}.

Definition objective_receipt_type : gtype :=
  TStruct [req "version" c_int64; req "task_id" c_string; req "ordinal" c_int64; req "contract_digest" c_string;
    req "test_receipt_digest" c_string; req "head_commit" c_string; req "clean" c_bool;
    req "commits_ahead_base" c_int64; req "changed_path_count" c_int64; req "recorded_at" c_time].
Definition objective_receipt_to (r : TaskObjectiveReceipt) : gval :=
  VStruct [c_to c_int64 (or_Version r); c_to c_string (or_TaskID r); c_to c_int64 (or_Ordinal r);
    c_to c_string (or_ContractDigest r); c_to c_string (or_TestReceiptDigest r); c_to c_string (or_HeadCommit r);
    c_to c_bool (or_Clean r); c_to c_int64 (or_CommitsAheadBase r); c_to c_int64 (or_ChangedPathCount r);
    c_to c_time (or_RecordedAt r)].
Definition objective_receipt_of (v : gval) : option TaskObjectiveReceipt :=
  match v with
  | VStruct [x0; x1; x2; x3; x4; x5; x6; x7; x8; x9] =>
      x0 ← c_of c_int64 x0; x1 ← c_of c_string x1; x2 ← c_of c_int64 x2; x3 ← c_of c_string x3;
        x4 ← c_of c_string x4; x5 ← c_of c_string x5; x6 ← c_of c_bool x6; x7 ← c_of c_int64 x7;
        x8 ← c_of c_int64 x8; x9 ← c_of c_time x9;
      Some {| or_Version := x0; or_TaskID := x1; or_Ordinal := x2; or_ContractDigest := x3;
        or_TestReceiptDigest := x4; or_HeadCommit := x5; or_Clean := x6; or_CommitsAheadBase := x7;
        or_ChangedPathCount := x8; or_RecordedAt := x9 |}
  | _ => None
  end.
Lemma objective_receipt_law r : objective_receipt_of (objective_receipt_to r) = Some r.
Proof. destruct r. cbn -[c_to c_of]. by rewrite !c_law. Qed.
Definition c_objective_receipt : codec TaskObjectiveReceipt :=
  {| c_type := objective_receipt_type; c_to := objective_receipt_to; c_of := objective_receipt_of;
    c_law := objective_receipt_law |}.

Definition integration_receipt_type : gtype :=
  TStruct [req "version" c_int64; req "task_id" c_string; req "contract_digest" c_string;
    req "sources_digest" c_string; req "objective_receipt_digest" c_string; req "head_commit" c_string;
    req "recorded_at" c_time].
Definition integration_receipt_to (r : TaskIntegrationReceipt) : gval :=
  VStruct [c_to c_int64 (ir_Version r); c_to c_string (ir_TaskID r); c_to c_string (ir_ContractDigest r);
    c_to c_string (ir_SourcesDigest r); c_to c_string (ir_ObjectiveReceiptDigest r);
    c_to c_string (ir_HeadCommit r); c_to c_time (ir_RecordedAt r)].
Definition integration_receipt_of (v : gval) : option TaskIntegrationReceipt :=
  match v with
  | VStruct [x0; x1; x2; x3; x4; x5; x6] =>
      x0 ← c_of c_int64 x0; x1 ← c_of c_string x1; x2 ← c_of c_string x2; x3 ← c_of c_string x3;
        x4 ← c_of c_string x4; x5 ← c_of c_string x5; x6 ← c_of c_time x6;
      Some {| ir_Version := x0; ir_TaskID := x1; ir_ContractDigest := x2; ir_SourcesDigest := x3;
        ir_ObjectiveReceiptDigest := x4; ir_HeadCommit := x5; ir_RecordedAt := x6 |}
  | _ => None
  end.
Lemma integration_receipt_law r : integration_receipt_of (integration_receipt_to r) = Some r.
Proof. destruct r. cbn -[c_to c_of]. by rewrite !c_law. Qed.
Definition c_integration_receipt : codec TaskIntegrationReceipt :=
  {| c_type := integration_receipt_type; c_to := integration_receipt_to; c_of := integration_receipt_of;
    c_law := integration_receipt_law |}.

(** ** Reading a record back *)
Definition ErrObjectiveRecordCorrupt : error := "workqueue: objective record is corrupt".
Definition decodeTaskObjectiveRecord {A} (c : codec A) (record : string) : result A :=
  if 4096 <? Len record then Err ErrObjectiveRecordCorrupt
  else match Unmarshal c record with Some x => Ok x | None => Err ErrObjectiveRecordCorrupt end.
