(* ===== verification/TaskRules.v ===== *)
(** * What makes a task valid: [task.go], [task_objective.go], [task_integration.go]

    Normalisation and validation of specifications, the digests that bind receipts
    to contracts, the checks of receipts and pins against a task, and the state of a
    task as its workers determine it. *)

From S2P Require Import Prelude GoStrings GoRegexp GoJson GoTime GoReflect GoRecord Sha256 PolicyScan WorkqueueTypes TaskTypes TaskRecord.

(** ** Contracts *)
Definition ValidateTaskTestAcceptanceContract (contract : option TaskTestAcceptanceContract) : result unit :=
  match contract with
  | None => Ok tt
  | Some c =>
      reject_if ((tc_Version c <>? 1) || negb (MatchString profilePattern (tc_ProfileID c))
                 || negb (MatchString payloadHashPattern (tc_ProfileDigest c)))
        "workqueue: task test acceptance contract is invalid"
  end.

Definition ValidateTaskAcceptanceContract (contract : option TaskAcceptanceContract) : result unit :=
  match contract with
  | None => Ok tt
  | Some c =>
      reject_if ((ac_Version c <>? 1) || (ac_MinimumCommitsAheadPerWorker c <? 1) || (10000 <? ac_MinimumCommitsAheadPerWorker c)
                 || (ac_MinimumChangedPathsPerWorker c <? 1) || (10000 <? ac_MinimumChangedPathsPerWorker c))
        "workqueue: task acceptance contract is invalid"
  end.

Definition ValidateTaskObjectiveContract (contract : option TaskObjectiveContract) : result unit :=
  match contract with
  | None => Ok tt
  | Some c =>
      reject_if ((oc_Version c <>? 1) || (oc_MinimumCommitsAheadPerWorker c <? 0) || (10000 <? oc_MinimumCommitsAheadPerWorker c)
                 || (oc_MinimumChangedPathsPerWorker c <? 0) || (10000 <? oc_MinimumChangedPathsPerWorker c))
        "workqueue: objective contract is invalid"
  end.

(** [UnmarshalJSON] of an objective contract ends with its validation. *)
Definition decodeTaskObjectiveContract (record : string) : result TaskObjectiveContract :=
  let? c := decodeTaskObjectiveRecord c_objective_contract record in
  if is_ok (ValidateTaskObjectiveContract (Some c)) then Ok c else Err ErrObjectiveRecordCorrupt.

(** The loop over the selected workers with its [seen] set. *)
Fixpoint validate_selection (seen : gset Z) (workers : list TaskIntegrationWorker) : result unit :=
  match workers with
  | [] => Ok tt
  | w :: workers =>
      check reject_if ((iw_Ordinal w <? 0) || (MaxTaskWorkers <=? iw_Ordinal w) || bool_decide (iw_Ordinal w ∈ seen)
                       || negb (MatchString taskCommitPattern (iw_HeadCommit w)))
        "workqueue: integration source selection is invalid" in
      validate_selection ({[iw_Ordinal w]} ∪ seen) workers
  end.

Definition ValidateTaskIntegrationContract (contract : option TaskIntegrationContract) : result unit :=
  match contract with
  | None => Ok tt
  | Some c =>
      check reject_if ((ic_Version c <>? 1) || negb (MatchString taskCommitPattern (ic_ExpectedBaseCommit c))
                       || negb (MatchString taskIDPattern (ic_SourceTaskID c))
                       || (Z.of_nat (length (ic_Workers c)) <? 2) || (MaxTaskWorkers <? Z.of_nat (length (ic_Workers c))))
        "workqueue: integration contract is invalid" in
      validate_selection ∅ (ic_Workers c)
  end.

(** [sameAcceptanceContract], [sameTaskTestAcceptanceContract], [SameTaskObjectiveContract]
    and [reflect.DeepEqual] compare the contracts, not the pointers. *)
Definition same_contract {A} `{EqDecision A} (left right : option A) : bool :=
  match left, right with
  | Some l, Some r => l =? r
  | None, None => true
  | _, _ => false
  end.

(** ** Digests *)
Definition newline : string := String (chr 10) "".
Definition lines (l : list string) : string := Join l newline.
Definition format_bool (b : bool) : string := if b then "true" else "false".

Definition TaskTestAcceptanceContractDigest (contract : option TaskTestAcceptanceContract) : string :=
  match contract with
  | Some c =>
      if is_ok (ValidateTaskTestAcceptanceContract contract)
      then digest_string (lines ["task-test-acceptance-v" +:+ FormatInt (tc_Version c); tc_ProfileID c; tc_ProfileDigest c])
      else ""
  | None => ""
  end.

Definition TaskAcceptanceContractDigest (contract : option TaskAcceptanceContract) : string :=
  match contract with
  | Some c =>
      if is_ok (ValidateTaskAcceptanceContract contract)
      then digest_string (lines ["task-git-evidence-v" +:+ FormatInt (ac_Version c); FormatInt (ac_MinimumCommitsAheadPerWorker c);
                                 FormatInt (ac_MinimumChangedPathsPerWorker c)])
      else ""
  | None => ""
  end.

Definition TaskObjectiveContractDigest (task : TaskGroup) (worker : TaskWorker) : string :=
  match tk_ObjectiveContract task, tk_TestAcceptanceContract task with
  | Some c, Some _ =>
      if is_ok (ValidateTaskObjectiveContract (Some c))
      then digest_string (lines ["task-objective-v" +:+ FormatInt (oc_Version c); tk_GoalHash task; wk_GoalHash worker;
                                 TaskTestAcceptanceContractDigest (tk_TestAcceptanceContract task);
                                 FormatInt (oc_MinimumCommitsAheadPerWorker c); FormatInt (oc_MinimumChangedPathsPerWorker c);
                                 format_bool (oc_RequireClean c)])
      else ""
  | _, _ => ""
  end.

Definition TaskTestReceiptDigest (receipt : TaskTestAcceptanceReceipt) : string :=
  match MarshalErr c_test_receipt receipt with
  | Some data => digest_string data
  | None => ""
  end.

Definition TaskIntegrationDigest {A} (c : codec A) (value : A) : string :=
  match MarshalErr c value with
  | Some data => digest_string ("task-integration-v1" +:+ newline +:+ data)
  | None => ""
  end.
(** The digest of a slice of pins. *)
Definition pins_digest (pins : goslice TaskIntegrationSourcePin) : string := TaskIntegrationDigest (c_slice c_pin) pins.

(** ** Specifications *)
Definition normalized (s : string) : string := ToLower (TrimSpace s).

(** The goals are normalised in place, in the caller's slices. *)
Definition normalizeTaskSpec (spec : TaskSpec) : TaskSpec :=
  {| ts_IdempotencyKey := TrimSpace (ts_IdempotencyKey spec);
     ts_Project := normalized (ts_Project spec);
     ts_Target := normalized (ts_Target spec);
     ts_BaseCommit := normalized (ts_BaseCommit spec);
     ts_GoalHash := normalized (ts_GoalHash spec);
     ts_AcceptanceContract := ts_AcceptanceContract spec;
     ts_TestAcceptanceContract :=
       (fun c => {| tc_Version := tc_Version c; tc_ProfileID := normalized (tc_ProfileID c);
                    tc_ProfileDigest := normalized (tc_ProfileDigest c) |}) <$> ts_TestAcceptanceContract spec;
     ts_ObjectiveContract := ts_ObjectiveContract spec;
     ts_IntegrationContract := ts_IntegrationContract spec;
     ts_IntegrationPins := ts_IntegrationPins spec;
     ts_WorkerGoalHashes := normalized <$> ts_WorkerGoalHashes spec;
     ts_WorkerGoalRefs := TrimSpace <$> ts_WorkerGoalRefs spec;
     ts_Pool := normalized (ts_Pool spec);
     ts_Profile := normalized (ts_Profile spec);
     ts_WorkerCount := ts_WorkerCount spec;
     ts_ExecutionTimeoutSeconds := ts_ExecutionTimeoutSeconds spec |}.

Definition optional_pattern (r : regexp) (s : string) : bool := (s =? "") || MatchString r s.

Definition valid_pin (c : TaskIntegrationContract) (selected : TaskIntegrationWorker) (p : TaskIntegrationSourcePin) : bool :=
  (pin_TaskID p =? ic_SourceTaskID c) && (pin_Ordinal p =? iw_Ordinal selected) && (pin_HeadCommit p =? iw_HeadCommit selected)
  && (pin_BaseCommit p =? ic_ExpectedBaseCommit c) && MatchString jobIDPattern (pin_JobID p)
  && MatchString taskRuntimePattern (pin_RuntimeID p) && MatchString taskWorktreePattern (pin_WorktreeID p)
  && MatchString taskWorkspacePattern (pin_WorkspaceID p) && MatchString leaseIDPattern (pin_LeaseID p)
  && (pin_Fence p <>? 0) && (pin_Branch p =? "codex/worktree-" +:+ drop_bytes 3 (pin_WorktreeID p))
  && optional_pattern payloadHashPattern (pin_GitReceiptDigest p)
  && optional_pattern payloadHashPattern (pin_TestReceiptDigest p)
  && optional_pattern payloadHashPattern (pin_ObjectiveReceiptDigest p).

Definition validTaskIntegrationSpec (spec : TaskSpec) : bool :=
  match ts_IntegrationContract spec with
  | None => bool_decide (length (range (ts_IntegrationPins spec)) = 0%nat)
  | Some c =>
      is_ok (ValidateTaskIntegrationContract (Some c)) && (ts_WorkerCount spec =? 1)
      && (ts_BaseCommit spec =? ic_ExpectedBaseCommit c)
      && match ts_ObjectiveContract spec with Some o => oc_RequireClean o | None => false end
      && bool_decide (is_Some (ts_TestAcceptanceContract spec))
      && bool_decide (length (range (ts_IntegrationPins spec)) = length (ic_Workers c))
      && forallb (fun e => valid_pin c e.1 e.2) (zip (ic_Workers c) (range (ts_IntegrationPins spec)))
  end.

Definition validateTaskSpec (spec : TaskSpec) : result unit :=
  if (118 <? Len (ts_IdempotencyKey spec)) || negb (MatchString idempotencyPattern (ts_IdempotencyKey spec))
     || negb (MatchString taskProjectPattern (ts_Project spec)) || negb (MatchString taskTargetPattern (ts_Target spec))
     || negb (MatchString taskCommitPattern (ts_BaseCommit spec)) || negb (MatchString payloadHashPattern (ts_GoalHash spec))
     || negb (MatchString poolPattern (ts_Pool spec)) || negb (MatchString profilePattern (ts_Profile spec))
     || (ts_WorkerCount spec <? 1) || (MaxTaskWorkers <? ts_WorkerCount spec)
     || (ts_ExecutionTimeoutSeconds spec <? 1) || (86400 <? ts_ExecutionTimeoutSeconds spec)
     || (Z.of_nat (length (ts_WorkerGoalHashes spec)) <>? ts_WorkerCount spec)
     || (Z.of_nat (length (ts_WorkerGoalRefs spec)) <>? ts_WorkerCount spec)
     || negb (is_ok (ValidateTaskAcceptanceContract (ts_AcceptanceContract spec)))
     || negb (is_ok (ValidateTaskTestAcceptanceContract (ts_TestAcceptanceContract spec)))
     || (bool_decide (is_Some (ts_AcceptanceContract spec)) && bool_decide (is_Some (ts_TestAcceptanceContract spec)))
     || negb (is_ok (ValidateTaskObjectiveContract (ts_ObjectiveContract spec)))
     || (bool_decide (is_Some (ts_ObjectiveContract spec))
         && (negb (bool_decide (is_Some (ts_TestAcceptanceContract spec))) || bool_decide (is_Some (ts_AcceptanceContract spec))))
     || negb (validTaskIntegrationSpec spec)
  then Err "workqueue: task specification is invalid"
  else reject_if (negb (forallb (fun e => MatchString payloadHashPattern e.1 && MatchString taskGoalRefPattern e.2)
                                (zip (ts_WorkerGoalHashes spec) (ts_WorkerGoalRefs spec))))
         "workqueue: task worker goal is invalid".

Definition validTaskWorkerBinding (b : TaskWorkerBinding) : bool :=
  MatchString taskIDPattern (wb_TaskID b) && (0 <=? wb_Ordinal b) && (wb_Ordinal b <? MaxTaskWorkers)
  && MatchString jobIDPattern (wb_JobID b) && MatchString leaseIDPattern (wb_LeaseID b) && (0 <? wb_Fence b)
  && MatchString taskWorktreePattern (wb_WorktreeID b) && MatchString taskWorkspacePattern (wb_WorkspaceID b)
  && optional_pattern taskRuntimePattern (wb_RuntimeID b).

(** The stored columns of the two evidence contracts: version, minimums, profile. *)
Definition taskAcceptanceColumns (gitContract : option TaskAcceptanceContract) (testContract : option TaskTestAcceptanceContract)
    : Z * Z * Z * string * string :=
  match testContract, gitContract with
  | Some t, _ => (2, 0, 0, tc_ProfileID t, tc_ProfileDigest t)
  | None, Some g => (ac_Version g, ac_MinimumCommitsAheadPerWorker g, ac_MinimumChangedPathsPerWorker g, "", "")
  | None, None => (0, 0, 0, "", "")
  end.

(** ** Receipts against the task they are for *)
Definition worktree_branch (worker : TaskWorker) : string := "codex/worktree-" +:+ TrimPrefix (wk_WorktreeID worker) "wt_".

Definition validTaskAcceptanceReceipt (task : TaskGroup) (worker : TaskWorker) (receipt : TaskAcceptanceReceipt) : bool :=
  match tk_AcceptanceContract task with
  | None => false
  | Some contract =>
      is_ok (ValidateTaskAcceptanceContract (Some contract)) && (ar_Version receipt =? 1)
      && (ar_TaskID receipt =? tk_ID task) && (ar_Ordinal receipt =? wk_Ordinal worker) && (ar_JobID receipt =? wk_JobID worker)
      && (ar_WorktreeID receipt =? wk_WorktreeID worker) && (ar_WorkspaceID receipt =? wk_WorkspaceID worker)
      && (ar_WorktreeRole receipt =? "writer") && (ar_BaseCommit receipt =? tk_BaseCommit task)
      && MatchString taskCommitPattern (ar_HeadCommit receipt) && (ar_HeadCommit receipt =? ToLower (ar_HeadCommit receipt))
      && (ar_Branch receipt =? worktree_branch worker) && (wk_WorktreeID worker <>? "") && (wk_WorkspaceID worker <>? "")
      && (wk_State worker =? StateSucceeded) && (ar_LeaseID receipt =? wk_LeaseID worker)
      && MatchString leaseIDPattern (ar_LeaseID receipt) && (ar_Fence receipt =? wk_Fence worker) && (0 <? ar_Fence receipt)
      && (ar_ContractDigest receipt =? TaskAcceptanceContractDigest (Some contract)) && ar_Clean receipt
      && (ac_MinimumCommitsAheadPerWorker contract <=? ar_CommitsAheadBase receipt) && (ar_CommitsAheadBase receipt <=? 10000)
      && (ac_MinimumChangedPathsPerWorker contract <=? ar_ChangedPathCount receipt) && (ar_ChangedPathCount receipt <=? 10000)
      && ((ar_HeadCommit receipt =? ar_BaseCommit receipt) =? (ar_CommitsAheadBase receipt =? 0))
      && negb (IsZero (ar_RecordedAt receipt))
  end.

Definition sameTaskAcceptanceReceipt (left right : TaskAcceptanceReceipt) : bool := ar_at zero_time left =? ar_at zero_time right.

Definition validTaskTestAcceptanceReceipt (task : TaskGroup) (worker : TaskWorker) (receipt : TaskTestAcceptanceReceipt) : bool :=
  match tk_TestAcceptanceContract task with
  | None => false
  | Some contract =>
      is_ok (ValidateTaskTestAcceptanceContract (Some contract)) && (tr_Version receipt =? 1)
      && (tr_TaskID receipt =? tk_ID task) && (tr_Ordinal receipt =? wk_Ordinal worker) && (tr_JobID receipt =? wk_JobID worker)
      && (tr_WorktreeID receipt =? wk_WorktreeID worker) && (tr_WorkspaceID receipt =? wk_WorkspaceID worker)
      && (wk_WorktreeID worker <>? "") && (wk_WorkspaceID worker <>? "") && (tr_BaseCommit receipt =? tk_BaseCommit task)
      && MatchString taskCommitPattern (tr_HeadCommit receipt) && (tr_HeadCommit receipt =? ToLower (tr_HeadCommit receipt))
      && (tr_Branch receipt =? worktree_branch worker) && (wk_State worker =? StateSucceeded)
      && (tr_LeaseID receipt =? wk_LeaseID worker) && MatchString leaseIDPattern (tr_LeaseID receipt)
      && (tr_Fence receipt =? wk_Fence worker) && (0 <? tr_Fence receipt)
      && MatchString payloadHashPattern (tr_ContentDigest receipt) && (tr_ProfileID receipt =? tc_ProfileID contract)
      && (tr_ProfileDigest receipt =? tc_ProfileDigest contract)
      && (tr_ContractDigest receipt =? TaskTestAcceptanceContractDigest (Some contract))
      && MatchString taskOperationPattern (tr_EdgeOperationID receipt) && (tr_EdgeResult receipt =? TaskTestEdgeResultPassed)
      && negb (IsZero (tr_RecordedAt receipt))
  end.

Definition sameTaskTestAcceptanceReceipt (left right : TaskTestAcceptanceReceipt) : bool :=
  tr_at zero_time left =? tr_at zero_time right.

Definition TaskObjectiveCriteriaSatisfied (contract : option TaskObjectiveContract) (clean : bool) (ahead changed : Z) : bool :=
  match contract with
  | None => false
  | Some c =>
      is_ok (ValidateTaskObjectiveContract contract) && (negb (oc_RequireClean c) || clean)
      && (oc_MinimumCommitsAheadPerWorker c <=? ahead) && (ahead <=? 10000)
      && (oc_MinimumChangedPathsPerWorker c <=? changed) && (changed <=? 10000)
  end.

Definition validTaskObjectiveReceipt (task : TaskGroup) (worker : TaskWorker) (receipt : TaskObjectiveReceipt) : bool :=
  (or_Version receipt =? 1) && (or_TaskID receipt =? tk_ID task) && (or_Ordinal receipt =? wk_Ordinal worker)
  && (wk_State worker =? StateSucceeded)
  && match wk_TestAcceptanceReceipt worker with
     | None => false
     | Some test =>
         validTaskTestAcceptanceReceipt task worker test
         && (or_ContractDigest receipt <>? "") && (or_ContractDigest receipt =? TaskObjectiveContractDigest task worker)
         && (or_TestReceiptDigest receipt =? TaskTestReceiptDigest test) && (or_HeadCommit receipt =? tr_HeadCommit test)
     end
  && TaskObjectiveCriteriaSatisfied (tk_ObjectiveContract task) (or_Clean receipt) (or_CommitsAheadBase receipt)
       (or_ChangedPathCount receipt)
  && ((or_HeadCommit receipt =? tk_BaseCommit task) =? (or_CommitsAheadBase receipt =? 0))
  && negb (IsZero (or_RecordedAt receipt)) && negb (Before (or_RecordedAt receipt) (tk_CreatedAt task)).

Definition validTaskIntegrationReceipt (task : TaskGroup) (receipt : TaskIntegrationReceipt) : bool :=
  match tk_IntegrationContract task, tk_Workers task with
  | Some contract, [worker] =>
      match wk_ObjectiveReceipt worker with
      | None => false
      | Some objective =>
          (ir_Version receipt =? 1) && (ir_TaskID receipt =? tk_ID task)
          && (ir_ContractDigest receipt =? TaskIntegrationDigest c_integration_contract contract)
          && (ir_SourcesDigest receipt =? pins_digest (tk_IntegrationPins task))
          && (ir_ObjectiveReceiptDigest receipt =? TaskIntegrationDigest c_objective_receipt objective)
          && (ir_HeadCommit receipt =? or_HeadCommit objective) && or_Clean objective
          && negb (IsZero (ir_RecordedAt receipt)) && negb (Before (ir_RecordedAt receipt) (tk_CreatedAt task))
      end
  | _, _ => false
  end.

(** ** Integration sources *)
(** [source.Workers[ordinal]] is out of range only where a caller did not check it. *)
Definition TaskIntegrationPin (source : TaskGroup) (ordinal : Z) (head : string) : option TaskIntegrationSourcePin :=
  (fun w => {| pin_TaskID := tk_ID source; pin_Ordinal := ordinal; pin_JobID := wk_JobID w; pin_RuntimeID := wk_RuntimeID w;
      pin_WorktreeID := wk_WorktreeID w; pin_WorkspaceID := wk_WorkspaceID w; pin_BaseCommit := tk_BaseCommit source;
      pin_HeadCommit := head; pin_Branch := worktree_branch w; pin_LeaseID := wk_LeaseID w; pin_Fence := wk_Fence w;
      pin_GitReceiptDigest := from_option (TaskIntegrationDigest c_acceptance_receipt) "" (wk_AcceptanceReceipt w);
      pin_TestReceiptDigest := from_option (TaskIntegrationDigest c_test_receipt) "" (wk_TestAcceptanceReceipt w);
      pin_ObjectiveReceiptDigest := from_option (TaskIntegrationDigest c_objective_receipt) "" (wk_ObjectiveReceipt w) |})
    <$> tk_Workers source !! Z.to_nat ordinal.

Fixpoint validate_pins (source : TaskGroup) (pins : list TaskIntegrationSourcePin) : result unit :=
  match pins with
  | [] => Ok tt
  | p :: pins =>
      check reject_if ((pin_Ordinal p <? 0) || (Z.of_nat (length (tk_Workers source)) <=? pin_Ordinal p))
        "workqueue: integration source worker unavailable" in
      match tk_Workers source !! Z.to_nat (pin_Ordinal p) with
      | None => Err "workqueue: integration source worker unavailable"
      | Some w =>
          check reject_if ((wk_State w <>? StateSucceeded) || wk_WorktreeCleaned w || (wk_WorktreeID w =? "") || (wk_RuntimeID w =? "")
                           || (Some p <>? TaskIntegrationPin source (pin_Ordinal p) (pin_HeadCommit p)))
            "workqueue: integration source identity or receipt changed" in
          validate_pins source pins
      end
  end.

Definition ValidateTaskIntegrationSourceBindings (task source : TaskGroup) : result unit :=
  match tk_IntegrationContract task with
  | None => Ok tt
  | Some c =>
      check reject_if (bool_decide (is_Some (tk_IntegrationContract source)) || (tk_ID source <>? ic_SourceTaskID c)
                       || (tk_State source <>? TaskCompleted) || (tk_Project source <>? tk_Project task)
                       || (tk_Target source <>? tk_Target task) || (tk_BaseCommit source <>? tk_BaseCommit task))
        "workqueue: integration source task changed" in
      validate_pins source (range (tk_IntegrationPins task))
  end.

(** ** The state of a task *)
Definition deriveTaskState (workers : list TaskWorker) : TaskState :=
  let all f := forallb f workers in
  let any f := existsb f workers in
  if all (fun w => wk_State w =? StateSucceeded) then TaskCompleted
  else if any (fun w => wk_State w =? StateFailed) then TaskFailed
  else if all (fun w => terminal (wk_State w)) && any (fun w => wk_State w =? StateCancelled) then TaskCancelled
  else if any wk_CancelRequested then TaskCancelling
  else if any (fun w => wk_State w =? StateLeased) || any (fun w => (0 <? wk_Attempt w) || terminal (wk_State w)) then TaskRunning
  else TaskQueued.

(** ** Tasks *)
Definition validState (state : State) : bool :=
  (state =? StateBlocked) || (state =? StateQueued) || (state =? StateLeased) || (state =? StateSucceeded)
  || (state =? StateFailed) || (state =? StateCancelled).

Definition needs {A B} (contract : option A) (receipt : option B) : bool :=
  bool_decide (is_Some contract) && negb (bool_decide (is_Some receipt)).

Definition valid_worker (task : TaskGroup) (ordinal : Z) (w : TaskWorker) : bool :=
  negb ((wk_Ordinal w <>? ordinal) || negb (MatchString jobIDPattern (wk_JobID w)) || negb (validState (wk_State w))
        || ((wk_LeaseID w <>? "") && ((wk_Fence w =? 0) || negb (MatchString leaseIDPattern (wk_LeaseID w))))
        || ((wk_State w =? StateLeased) && ((wk_Fence w =? 0) || (wk_LeaseID w =? "") || negb (MatchString holderPattern (wk_LeaseHolder w))))
        || negb (optional_pattern taskOperationPattern (wk_OperationID w))
        || negb (optional_pattern taskWorktreePattern (wk_WorktreeID w))
        || negb (optional_pattern taskWorkspacePattern (wk_WorkspaceID w))
        || negb (optional_pattern taskRuntimePattern (wk_RuntimeID w))
        || IsZero (wk_UpdatedAt w) || Before (wk_UpdatedAt w) (tk_CreatedAt task))
  && negb (wk_WorktreeCleaned w && ((wk_WorktreeID w =? "") || negb (terminal (wk_State w))))
  && negb (wk_WorktreeCleaned w && needs (tk_AcceptanceContract task) (wk_AcceptanceReceipt w) && (wk_State w =? StateSucceeded))
  && negb (wk_WorktreeCleaned w && needs (tk_TestAcceptanceContract task) (wk_TestAcceptanceReceipt w) && (wk_State w =? StateSucceeded))
  && from_option (validTaskAcceptanceReceipt task w) true (wk_AcceptanceReceipt w)
  && from_option (validTaskTestAcceptanceReceipt task w) true (wk_TestAcceptanceReceipt w)
  && from_option (validTaskObjectiveReceipt task w) true (wk_ObjectiveReceipt w)
  && negb (wk_WorktreeCleaned w && needs (tk_ObjectiveContract task) (wk_ObjectiveReceipt w) && (wk_State w =? StateSucceeded))
  && negb (wk_WorktreeCleaned w && needs (tk_IntegrationContract task) (tk_IntegrationReceipt task) && (wk_State w =? StateSucceeded)).

Fixpoint valid_workers (task : TaskGroup) (ordinal : Z) (workers : list TaskWorker) : bool :=
  match workers with
  | [] => true
  | w :: workers => valid_worker task ordinal w && valid_workers task (ordinal + 1) workers
  end.

(** The specification a stored task must satisfy. *)
Definition spec_of_task (task : TaskGroup) : TaskSpec :=
  {| ts_IdempotencyKey := tk_IdempotencyKey task; ts_Project := tk_Project task; ts_Target := tk_Target task;
     ts_BaseCommit := tk_BaseCommit task; ts_GoalHash := tk_GoalHash task;
     ts_AcceptanceContract := tk_AcceptanceContract task; ts_TestAcceptanceContract := tk_TestAcceptanceContract task;
     ts_ObjectiveContract := tk_ObjectiveContract task; ts_IntegrationContract := tk_IntegrationContract task;
     ts_IntegrationPins := tk_IntegrationPins task; ts_WorkerGoalHashes := wk_GoalHash <$> tk_Workers task;
     ts_WorkerGoalRefs := wk_GoalRef <$> tk_Workers task; ts_Pool := tk_Pool task; ts_Profile := tk_Profile task;
     ts_WorkerCount := tk_WorkerCount task; ts_ExecutionTimeoutSeconds := tk_ExecutionTimeoutSeconds task |}.

Definition validTask (task : TaskGroup) : bool :=
  MatchString taskIDPattern (tk_ID task) && is_ok (validateTaskSpec (spec_of_task task))
  && negb (IsZero (tk_CreatedAt task)) && negb (Before (tk_UpdatedAt task) (tk_CreatedAt task))
  && validTaskIntegrationSpec (spec_of_task task)
  && from_option (validTaskIntegrationReceipt task) true (tk_IntegrationReceipt task)
  && valid_workers task 0 (tk_Workers task).

Definition taskMatchesSpec (task : TaskGroup) (spec : TaskSpec) : bool :=
  (tk_IdempotencyKey task =? ts_IdempotencyKey spec) && (tk_Project task =? ts_Project spec) && (tk_Target task =? ts_Target spec)
  && (tk_BaseCommit task =? ts_BaseCommit spec) && (tk_GoalHash task =? ts_GoalHash spec) && (tk_Pool task =? ts_Pool spec)
  && (tk_Profile task =? ts_Profile spec) && (tk_WorkerCount task =? ts_WorkerCount spec)
  && (tk_ExecutionTimeoutSeconds task =? ts_ExecutionTimeoutSeconds spec)
  && same_contract (tk_AcceptanceContract task) (ts_AcceptanceContract spec)
  && same_contract (tk_TestAcceptanceContract task) (ts_TestAcceptanceContract spec)
  && same_contract (tk_ObjectiveContract task) (ts_ObjectiveContract spec)
  && same_contract (tk_IntegrationContract task) (ts_IntegrationContract spec)
  && (pins_digest (tk_IntegrationPins task) =? pins_digest (ts_IntegrationPins spec))
  && forallb (fun e => Some (wk_GoalHash e.2) =? ts_WorkerGoalHashes spec !! e.1) (imap pair (tk_Workers task)).

Definition taskWorkerFromJob (ordinal : Z) (job : Job) (worktreeID workspaceID runtimeID : string) : TaskWorker :=
  {| wk_Ordinal := ordinal; wk_JobID := j_ID job; wk_State := j_State job; wk_Reason := j_Reason job;
     wk_CancelRequested := j_CancelRequested job; wk_Attempt := j_Attempt job; wk_LeaseID := j_LeaseID job;
     wk_Fence := j_Fence job; wk_LeaseExpiresAt := j_LeaseExpiresAt job; wk_LeaseHolder := j_LeaseHolder job;
     wk_OperationID := ""; wk_WorktreeID := worktreeID; wk_WorkspaceID := workspaceID; wk_RuntimeID := runtimeID;
     wk_WorktreeCleaned := false; wk_AcceptanceReceipt := None; wk_TestAcceptanceReceipt := None; wk_ObjectiveReceipt := None;
     wk_Summary := j_Summary job; wk_GoalHash := j_PayloadHash job; wk_GoalRef := ""; wk_UpdatedAt := j_UpdatedAt job |}.
