(* ===== verification/TaskRoundtrip.v ===== *)
(** * Stored records of tasks are read back

    Valid contracts, pins and receipts are made of plain strings and of integers in
    range, and their JSON stays below the 4096 bytes that [decodeTaskObjectiveRecord]
    accepts, so what the store writes it decodes again. *)

From S2P Require Import Prelude GoStrings GoRegexp GoLanguage GoJson GoTime GoReflect GoRecord Sha256 PolicyScan WorkqueueTypes TaskTypes TaskRecord TaskRules.

(** ** Plain identifiers and their lengths *)
Lemma plain_payload s : MatchString payloadHashPattern s = true -> plain s.
Proof. plain_pattern. Qed.
Lemma plain_profile s : MatchString profilePattern s = true -> plain s.
Proof. plain_pattern. Qed.
Lemma plain_commit s : MatchString taskCommitPattern s = true -> plain s.
Proof. plain_pattern. Qed.
Lemma plain_task_id s : MatchString taskIDPattern s = true -> plain s.
Proof. apply plain_hex_id. plain_const. Qed.
Lemma plain_worktree s : MatchString taskWorktreePattern s = true -> plain s.
Proof. apply plain_hex_id. plain_const. Qed.
Lemma plain_task_workspace s : MatchString taskWorkspacePattern s = true -> plain s.
Proof. apply plain_hex_id. plain_const. Qed.
Lemma plain_runtime s : MatchString taskRuntimePattern s = true -> plain s.
Proof. apply plain_hex_id. plain_const. Qed.
Lemma plain_task_operation s : MatchString taskOperationPattern s = true -> plain s.
Proof. apply plain_hex_id. plain_const. Qed.
Lemma plain_job_id s : MatchString jobIDPattern s = true -> plain s.
Proof. plain_pattern. Qed.
Lemma plain_lease_id s : MatchString leaseIDPattern s = true -> plain s.
Proof. plain_pattern. Qed.
#[export] Hint Resolve plain_payload plain_profile plain_commit plain_task_id plain_worktree plain_task_workspace plain_runtime
  plain_task_operation plain_job_id plain_lease_id : plain.

Lemma plain_digest_string s : plain (digest_string s).
Proof. apply plain_payload, digest_string_matches. Qed.
#[export] Hint Resolve plain_digest_string : plain.

Lemma plain_drop n s : plain s -> plain (drop_bytes n s).
Proof. revert s. induction n as [|n IH]; intros s Hs; [by destruct s|]. destruct s as [|c s]; [done|]. apply plain_cons in Hs as [_ Hs]. by apply IH. Qed.
Lemma length_drop n s : (String.length (drop_bytes n s) = String.length s - n)%nat.
Proof. revert s. induction n as [|n IH]; intros s; [destruct s; cbn; lia|]. destruct s as [|c s]; [done|]. cbn. apply IH. Qed.

Lemma length_hex_id p s : MatchString (whole (Seq (lit p) (times 32 (Class hexlow)))) s = true ->
  str_forall is_ascii p = true -> (String.length s = String.length p + 32)%nat.
Proof.
  intros Hm Hp. assert (Hl : simple (lit p) = true) by (clear; induction p as [|c p IH]; cbn; [done|exact IH]).
  assert (Hw : re_widths (lit p) = (String.length p, String.length p)).
  { clear. induction p as [|c p IH]; cbn [lit re_widths]; [done|]. by rewrite IH. }
  assert (Hc : classes_in (fun z => z < 128) (lit p)).
  { clear -Hp. induction p as [|c p IH]; cbn [lit classes_in]; [done|]. unfold str_forall in Hp. cbn in Hp. apply andb_true_iff in Hp as [Hc Hp].
    split; [|by apply IH]. intros z ->%bool_decide_eq_true. unfold is_ascii in Hc. lia. }
  apply match_length in Hm.
  - cbn [re_widths] in Hm. rewrite Hw in Hm. change (re_widths (times 32 (Class hexlow))) with (32, 32)%nat in Hm. cbn in Hm. lia.
  - cbn [simple]. rewrite Hl. by apply simple_times.
  - cbn [classes_in]. split; [done|]. apply classes_in_times. change (ascii_class hexlow). ascii_class.
Qed.

Lemma length_commit s : MatchString taskCommitPattern s = true -> (String.length s = 40)%nat.
Proof. intros H. assert (Hl : (40 <= String.length s <= 40)%nat) by (pattern_length H). lia. Qed.
Lemma length_payload s : MatchString payloadHashPattern s = true -> (String.length s = 71)%nat.
Proof. intros H. assert (Hl : (71 <= String.length s <= 71)%nat) by (pattern_length H). lia. Qed.
Lemma length_profile s : MatchString profilePattern s = true -> (String.length s <= 64)%nat.
Proof. intros H. assert (Hl : (1 <= String.length s <= 64)%nat) by (pattern_length H). lia. Qed.
Lemma length_digest_string s : (String.length (digest_string s) = 71)%nat.
Proof. apply length_payload, digest_string_matches. Qed.

(** ** Integers and times *)
Lemma digits_value_ge acc s : 0 <= acc -> str_forall is_digit s = true ->
  acc * 10 ^ Z.of_nat (String.length s) <= digits_value acc s.
Proof.
  revert acc. induction s as [|c s IH]; intros acc Ha Hs; cbn [String.length digits_value]; [change (10 ^ Z.of_nat 0) with 1; lia|].
  unfold str_forall in Hs. cbn in Hs. apply andb_true_iff in Hs as [Hc Hs]. rewrite pow_S.
  assert (0 <= byte_val c - 48) by (unfold is_digit in Hc; lia).
  etrans; [|apply IH; [lia|done]]. pose proof (Z.pow_pos_nonneg 10 (Z.of_nat (String.length s)) ltac:(lia) ltac:(lia)). nia.
Qed.

Lemma FormatInt_length z : 0 <= z < 10 ^ 20 -> (String.length (FormatInt z) <= 20)%nat.
Proof.
  intros Hz. destruct (FormatInt_decimal z ltac:(lia)) as [(Hd & Hne & Hlead) Hv]. destruct (FormatInt z) as [|c s] eqn:E; [done|].
  destruct Hlead as [Hlead|Hlead]; [rewrite Hlead; cbn; lia|]. specialize (Hlead c s eq_refl).
  unfold str_forall in Hd. cbn in Hd. apply andb_true_iff in Hd as [Hc Hs]. cbn [digits_value] in Hv.
  assert (1 <= byte_val c - 48) by (unfold is_digit in Hc; lia).
  pose proof (digits_value_ge (0 * 10 + (byte_val c - 48)) s ltac:(lia) Hs) as Hge. rewrite Hv in Hge.
  destruct (decide (String.length s <= 19)%nat) as [?|Hn]; [cbn; lia|exfalso].
  assert (10 ^ 20 <= 10 ^ Z.of_nat (String.length s)) by (apply Z.pow_le_mono_r; lia). nia.
Qed.

Lemma length_fixed w z : String.length (fixed w z) = w.
Proof. induction w as [|w IH]; cbn; [done|]. by rewrite IH. Qed.
Lemma length_fraction w z : (String.length (fraction w z) <= w)%nat.
Proof. revert z. induction w as [|w IH]; intros z; cbn [fraction]; [cbn; lia|]. destruct (_ =? _); cbn; [lia|]. specialize (IH (z mod 10 ^ Z.of_nat w)). lia. Qed.

Lemma FormatTime_length t : (String.length (FormatTime t) <= 30)%nat.
Proof.
  unfold FormatTime. destruct (civil (t / day_nanos)) as [[y m] d]. rewrite !length_string_app, !length_fixed.
  pose proof (length_fraction 9 (t mod day_nanos mod Second)). destruct (_ =? 0); rewrite ?length_string_app; cbn [String.length] in *; lia.
Qed.

Lemma int64_small z : 0 <= z <= 2 ^ 62 -> val_ok (c_type c_int64) (c_to c_int64 z).
Proof. intros H. apply int64_ok; [unfold in_int64, two63; lia|lia]. Qed.
Lemma bool_ok b : val_ok (c_type c_bool) (c_to c_bool b).
Proof. done. Qed.
Lemma time_ok t : dated t -> val_ok (c_type c_time) (c_to c_time t).
Proof. done. Qed.

(** ** Written records *)
Section written.
  Context {A : Type} (c : codec A) (x : A).
  Hypothesis Hp : match c_type c with TPtr _ => False | _ => True end.
  Hypothesis Ht : type_ok (c_type c) = true.
  Hypothesis Hv : val_ok (c_type c) (c_to c x).

Lemma Marshal_nonempty : Marshal c x <> "".
Proof. intros E. pose proof (unmarshal_marshal c x Hp Ht Hv) as H. rewrite E in H. done. Qed.

Lemma decode_record : (json_len (encode (c_type c) (c_to c x)) <= 4096)%nat -> decodeTaskObjectiveRecord c (Marshal c x) = Ok x.
Proof.
  intros Hl. unfold decodeTaskObjectiveRecord.
  assert (Hlen : (String.length (Marshal c x) <= 4096)%nat) by (etrans; [apply write_length, encode_plain; done|done]).
  rewrite (proj2 (Z.ltb_ge _ _)) by (unfold Len; lia). by rewrite unmarshal_marshal.
Qed.
End written.

Lemma explicit_ok fields vs : fields_ok val_ok fields vs -> val_ok (TExplicit fields) (VStruct vs).
Proof. done. Qed.

Ltac record_type := vm_compute; reflexivity.
(** The fields of an explicit struct. *)
Ltac explicit_fields :=
  apply explicit_ok;
  repeat lazymatch goal with
         | |- fields_ok _ (req _ _ :: _) _ => apply field_req
         | |- fields_ok _ [] _ => exact I
         end.

(** The length of a record: a sum over its fields. *)
Ltac record_len := cbn [c_type c_to encode encode_fields json_len foldr fst snd req omit andb is_empty].

(** *** Objective contracts *)
Lemma objective_contract_type_ok : type_ok (c_type c_objective_contract) = true.
Proof. record_type. Qed.

Lemma objective_contract_written c : ValidateTaskObjectiveContract (Some c) = Ok tt ->
  val_ok (c_type c_objective_contract) (c_to c_objective_contract c) /\
  (json_len (encode (c_type c_objective_contract) (c_to c_objective_contract c)) <= 4096)%nat.
Proof.
  cbn [ValidateTaskObjectiveContract]. intros Hg%reject_if_ok. breflect. split.
  - explicit_fields; [apply int64_small; lia..|apply bool_ok].
  - destruct c as [v a b r]; cbn [oc_Version oc_MinimumCommitsAheadPerWorker oc_MinimumChangedPathsPerWorker] in *. subst v.
    pose proof (FormatInt_length a ltac:(lia)). pose proof (FormatInt_length b ltac:(lia)).
    pose proof (FormatInt_length 1 ltac:(lia)).
    change ((json_len (JObj [("version", JNum (FormatInt 1)); ("minimum_commits_ahead_per_worker", JNum (FormatInt a));
      ("minimum_changed_paths_per_worker", JNum (FormatInt b)); ("require_clean", JBool r)]) <= 4096)%nat).
    cbn [json_len foldr fst snd String.length]. lia.
Qed.

Lemma objective_contract_back c : ValidateTaskObjectiveContract (Some c) = Ok tt ->
  decodeTaskObjectiveContract (Marshal c_objective_contract c) = Ok c /\ Marshal c_objective_contract c <> "".
Proof.
  intros H. destruct (objective_contract_written c H) as [Hv Hl]. split.
  - unfold decodeTaskObjectiveContract. rewrite decode_record; [|exact I|exact objective_contract_type_ok|done|done]. cbn [rbind]. by rewrite H.
  - by apply Marshal_nonempty; [|exact objective_contract_type_ok|].
Qed.

(** *** Integration contracts *)
Lemma validate_selection_ok seen ws : validate_selection seen ws = Ok tt ->
  Forall (fun w => 0 <= iw_Ordinal w < MaxTaskWorkers /\ MatchString taskCommitPattern (iw_HeadCommit w) = true) ws.
Proof.
  revert seen. induction ws as [|w ws IH]; intros seen H; [constructor|]. cbn [validate_selection] in H. apply check_ok in H as [Hg H].
  apply reject_if_ok in Hg. breflect. constructor; [split; [lia|done]|by eapply IH].
Qed.

Lemma integration_contract_type_ok : type_ok (c_type c_integration_contract) = true.
Proof. record_type. Qed.

Lemma json_len_array {A} (f : A -> json) l n : Forall (fun x => (json_len (f x) <= n)%nat) l ->
  (json_len (JArr (f <$> l)) <= 2 + length l * S n)%nat.
Proof. intros H. cbn [json_len]. induction H as [|x l Hx _ IH]; cbn [fmap list_fmap foldr length]; cbn [fmap] in *; lia. Qed.

Lemma encode_list {A} (c : codec A) l : (json_len (encode (c_type (c_list c)) (c_to (c_list c) l)) <=
  4 + json_len (JArr ((fun x => encode (c_type c) (c_to c x)) <$> l)))%nat.
Proof.
  destruct l as [|x l]; [cbn; lia|].
  change (encode (c_type (c_list c)) (c_to (c_list c) (x :: l))) with (JArr (encode (c_type c) <$> (c_to c <$> (x :: l)))).
  rewrite <- list_fmap_compose. unfold compose. lia.
Qed.

Lemma integration_worker_written w : 0 <= iw_Ordinal w < MaxTaskWorkers -> MatchString taskCommitPattern (iw_HeadCommit w) = true ->
  val_ok (c_type c_integration_worker) (c_to c_integration_worker w) /\
  (json_len (encode (c_type c_integration_worker) (c_to c_integration_worker w)) <= 120)%nat.
Proof.
  unfold MaxTaskWorkers. intros Ho Hc. split.
  - explicit_fields; [apply int64_small; lia|by apply string_ok, plain_commit].
  - destruct w as [o h]; cbn [iw_Ordinal iw_HeadCommit] in *. pose proof (FormatInt_length o ltac:(lia)). pose proof (length_commit h Hc).
    change ((json_len (JObj [("ordinal", JNum (FormatInt o)); ("head_commit", JStr h)]) <= 120)%nat).
    cbn [json_len foldr fst snd String.length]. lia.
Qed.

Lemma integration_contract_written c : ValidateTaskIntegrationContract (Some c) = Ok tt ->
  val_ok (c_type c_integration_contract) (c_to c_integration_contract c) /\
  (json_len (encode (c_type c_integration_contract) (c_to c_integration_contract c)) <= 4096)%nat.
Proof.
  cbn [ValidateTaskIntegrationContract]. intros [Hg Hw]%check_ok. apply reject_if_ok in Hg. breflect. apply validate_selection_ok in Hw.
  destruct c as [v base source ws]; cbn [ic_Version ic_ExpectedBaseCommit ic_SourceTaskID ic_Workers] in *. subst v. unfold MaxTaskWorkers in *.
  pose proof (length_hex_id "tg_" source ltac:(done) eq_refl) as Hs. cbn [String.length] in Hs. pose proof (length_commit base ltac:(done)) as Hb.
  rewrite Forall_forall in Hw. split.
  - each_field; [apply int64_small; cbn [ic_Version]; lia|]. apply c_list_ok. intros w Hin. by apply integration_worker_written; apply Hw.
  - pose proof (encode_list c_integration_worker ws) as He.
    pose proof (json_len_array (fun w => encode (c_type c_integration_worker) (c_to c_integration_worker w)) ws 120) as Ha.
    specialize (Ha ltac:(apply Forall_forall; intros w Hin; by apply integration_worker_written; apply Hw)).
    pose proof (FormatInt_length 1 ltac:(lia)).
    set (j := encode (c_type (c_list c_integration_worker)) (c_to (c_list c_integration_worker) ws)) in *.
    change ((json_len (JObj [("version", JNum (FormatInt 1)); ("expected_base_commit", JStr base); ("source_task_id", JStr source); ("workers", j)]) <= 4096)%nat).
    cbn [json_len foldr fst snd String.length] in *. lia.
Qed.

Lemma integration_contract_back c : ValidateTaskIntegrationContract (Some c) = Ok tt ->
  decodeTaskObjectiveRecord c_integration_contract (Marshal c_integration_contract c) = Ok c /\ Marshal c_integration_contract c <> "".
Proof.
  intros H. destruct (integration_contract_written c H) as [Hv Hl]. split.
  - by apply decode_record; [|exact integration_contract_type_ok|..].
  - by apply Marshal_nonempty; [|exact integration_contract_type_ok|].
Qed.

(** *** Pins *)
Lemma optional_pattern_cases r s : optional_pattern r s = true <-> s = "" \/ MatchString r s = true.
Proof. unfold optional_pattern. by rewrite orb_true_iff, bool_decide_eq_true. Qed.
Lemma optional_payload s : optional_pattern payloadHashPattern s = true -> plain s /\ (String.length s <= 71)%nat.
Proof.
  intros [->|H]%optional_pattern_cases; [split; [apply plain_empty|cbn; lia]|]. split; [by apply plain_payload|]. by rewrite (length_payload s H).
Qed.

Lemma pins_type_ok : type_ok (c_type (c_slice c_pin)) = true.
Proof. record_type. Qed.

(** A member that may be left out is at most as long as the member. *)
Lemma omitted_len name t v fields vs : (json_len (JObj (encode_fields encode ((name, true, t) :: fields) (v :: vs))) <=
  String.length name + 4 + json_len (encode t v) + json_len (JObj (encode_fields encode fields vs)))%nat.
Proof. cbn [encode_fields andb]. destruct (is_empty v); cbn [json_len foldr fst snd]; lia. Qed.

Lemma pin_written c selected p : ValidateTaskIntegrationContract (Some c) = Ok tt -> selected ∈ ic_Workers c ->
  valid_pin c selected p = true -> in_uint64 (pin_Fence p) ->
  val_ok (c_type c_pin) (c_to c_pin p) /\ (json_len (encode (c_type c_pin) (c_to c_pin p)) <= 900)%nat.
Proof.
  cbn [ValidateTaskIntegrationContract]. intros [Hg Hsel]%check_ok Hin Hp Hf. apply reject_if_ok in Hg. apply validate_selection_ok in Hsel.
  rewrite Forall_forall in Hsel. destruct (Hsel _ Hin) as [Hord Hhead]. unfold valid_pin, MaxTaskWorkers in *. breflect.
  destruct p as [task ord job rt wt ws base head branch lease fence d1 d2 d3].
  cbn [pin_TaskID pin_Ordinal pin_JobID pin_RuntimeID pin_WorktreeID pin_WorkspaceID pin_BaseCommit pin_HeadCommit pin_Branch pin_LeaseID pin_Fence
    pin_GitReceiptDigest pin_TestReceiptDigest pin_ObjectiveReceiptDigest] in *. subst task ord head base branch.
  repeat match goal with H : optional_pattern _ _ = true |- _ => apply optional_payload in H as [? ?] end.
  assert (Hbr : plain ("codex/worktree-" +:+ drop_bytes 3 wt)) by (apply plain_app; [plain_const|by apply plain_drop, plain_worktree]).
  split.
  - each_field; try (apply string_ok; solve [eauto 3 with plain nocore]).
    + apply int64_small. cbn [pin_Ordinal]. lia.
    + by apply uint64_ok.
  - pose proof (length_hex_id "tg_" (ic_SourceTaskID c) ltac:(done) eq_refl). pose proof (length_hex_id "wj_" job ltac:(done) eq_refl).
    pose proof (length_hex_id "mr_" rt ltac:(done) eq_refl). pose proof (length_hex_id "wt_" wt ltac:(done) eq_refl) as Hwt.
    pose proof (length_hex_id "ws_" ws ltac:(done) eq_refl). pose proof (length_hex_id "wl_" lease ltac:(done) eq_refl).
    pose proof (length_commit (ic_ExpectedBaseCommit c) ltac:(done)). pose proof (length_commit (iw_HeadCommit selected) ltac:(done)).
    pose proof (FormatInt_length (iw_Ordinal selected) ltac:(lia)). pose proof (FormatInt_length fence ltac:(unfold in_uint64, two64 in Hf; lia)).
    pose proof (length_drop 3 wt) as Hdr.
    set (tail := encode_fields encode [omit "git_receipt_digest" c_string; omit "test_receipt_digest" c_string; omit "objective_receipt_digest" c_string]
      [VString d1; VString d2; VString d3]).
    assert (Htail : (json_len (JObj tail) <= 300)%nat).
    { pose proof (omitted_len "git_receipt_digest" TString (VString d1) [omit "test_receipt_digest" c_string; omit "objective_receipt_digest" c_string]
        [VString d2; VString d3]) as H1'.
      pose proof (omitted_len "test_receipt_digest" TString (VString d2) [omit "objective_receipt_digest" c_string] [VString d3]) as H2'.
      pose proof (omitted_len "objective_receipt_digest" TString (VString d3) [] []) as H3'.
      cbn [encode] in *. change (json_len (JStr d1)) with (String.length d1 + 2)%nat in *. change (json_len (JStr d2)) with (String.length d2 + 2)%nat in *.
      change (json_len (JStr d3)) with (String.length d3 + 2)%nat in *. change (json_len (JObj (encode_fields encode [] []))) with 2%nat in *.
      cbn [String.length] in *. etrans; [exact H1'|]. etrans; [apply Nat.add_le_mono_l, H2'|]. etrans; [apply Nat.add_le_mono_l, Nat.add_le_mono_l, H3'|]. lia. }
    change ((json_len (JObj ([("task_id", JStr (ic_SourceTaskID c)); ("ordinal", JNum (FormatInt (iw_Ordinal selected))); ("job_id", JStr job);
      ("runtime_id", JStr rt); ("worktree_id", JStr wt); ("workspace_id", JStr ws); ("base_commit", JStr (ic_ExpectedBaseCommit c));
      ("head_commit", JStr (iw_HeadCommit selected)); ("branch", JStr ("codex/worktree-" +:+ drop_bytes 3 wt)); ("lease_id", JStr lease);
      ("fence", JNum (FormatInt fence))] ++ tail)) <= 900)%nat).
    cbn [json_len app foldr fst snd String.length] in *. rewrite length_string_app, Hdr. cbn [String.length]. lia.
Qed.

Lemma pins_back c pins : ValidateTaskIntegrationContract (Some c) = Ok tt -> length (range pins) = length (ic_Workers c) ->
  forallb (fun e => valid_pin c e.1 e.2) (zip (ic_Workers c) (range pins)) = true -> Forall (fun p => in_uint64 (pin_Fence p)) (range pins) ->
  decodeTaskObjectiveRecord (c_slice c_pin) (Marshal (c_slice c_pin) pins) = Ok pins.
Proof.
  intros Hc Hlen Hv Hf.
  assert (Hall : forall p, p ∈ range pins -> val_ok (c_type c_pin) (c_to c_pin p) /\ (json_len (encode (c_type c_pin) (c_to c_pin p)) <= 900)%nat).
  { intros p [i Hi]%list_elem_of_lookup. destruct (lookup_lt_is_Some_2 (ic_Workers c) i) as [w Hw].
    { rewrite <- Hlen. by eapply lookup_lt_Some. }
    rewrite forallb_forall in Hv. specialize (Hv (w, p)). rewrite Forall_forall in Hf. apply (pin_written c w p); [done|by eapply list_elem_of_lookup_2| |].
    - apply Hv, list_elem_of_In. apply list_elem_of_lookup_2 with i. by apply lookup_zip_Some.
    - by apply Hf, list_elem_of_lookup_2 with i. }
  cbn [ValidateTaskIntegrationContract] in Hc. apply check_ok in Hc as [Hg _]. apply reject_if_ok in Hg. breflect. unfold MaxTaskWorkers in *.
  destruct pins as [l|]; cbn [range default] in *; [|exfalso; cbn in Hlen; lia].
  apply decode_record; [done|exact pins_type_ok| |].
  - apply c_slice_ok. intros p Hp. by apply Hall.
  - change (encode (c_type (c_slice c_pin)) (c_to (c_slice c_pin) (Some l))) with (JArr (encode (c_type c_pin) <$> (c_to c_pin <$> l))).
    rewrite <- list_fmap_compose. pose proof (json_len_array (encode (c_type c_pin) ∘ c_to c_pin) l 900) as Ha.
    specialize (Ha ltac:(apply Forall_forall; intros p Hp; by apply Hall)). unfold id in Hlen.
    assert (length l <= 4)%nat by lia. lia.
Qed.

(** *** Receipts *)
Lemma worktree_branch_plain w : MatchString taskWorktreePattern (wk_WorktreeID w) = true -> plain (worktree_branch w).
Proof.
  intros H. apply plain_app; [plain_const|]. unfold TrimPrefix. destruct (HasPrefix _ _); [|by apply plain_worktree].
  by apply plain_drop, plain_worktree.
Qed.
#[export] Hint Resolve worktree_branch_plain : plain.

Lemma acceptance_receipt_type_ok : type_ok (c_type c_acceptance_receipt) = true.
Proof. record_type. Qed.
Lemma test_receipt_type_ok : type_ok (c_type c_test_receipt) = true.
Proof. record_type. Qed.
Lemma objective_receipt_type_ok : type_ok (c_type c_objective_receipt) = true.
Proof. record_type. Qed.
Lemma integration_receipt_type_ok : type_ok (c_type c_integration_receipt) = true.
Proof. record_type. Qed.

(** What identifies a worker in its receipts. *)
Record worker_identity (task : TaskGroup) (w : TaskWorker) : Prop := {
  id_task : MatchString taskIDPattern (tk_ID task) = true;
  id_base : MatchString taskCommitPattern (tk_BaseCommit task) = true;
  id_ordinal : 0 <= wk_Ordinal w <= MaxTaskWorkers;
  id_job : MatchString jobIDPattern (wk_JobID w) = true;
  id_worktree : wk_WorktreeID w <> "" -> MatchString taskWorktreePattern (wk_WorktreeID w) = true;
  id_workspace : wk_WorkspaceID w <> "" -> MatchString taskWorkspacePattern (wk_WorkspaceID w) = true;
  id_fence : in_uint64 (wk_Fence w);
}.

Lemma TaskAcceptanceContractDigest_plain c : plain (TaskAcceptanceContractDigest c).
Proof. unfold TaskAcceptanceContractDigest. destruct c; [destruct (is_ok _)|]; auto using plain_digest_string, plain_empty. Qed.
Lemma TaskTestAcceptanceContractDigest_plain c : plain (TaskTestAcceptanceContractDigest c).
Proof. unfold TaskTestAcceptanceContractDigest. destruct c; [destruct (is_ok _)|]; auto using plain_digest_string, plain_empty. Qed.
Lemma digest_or_empty (b : string) : b = "" \/ (exists s, b = digest_string s) -> plain b /\ (String.length b <= 71)%nat.
Proof.
  intros [->|[s ->]]; [split; [apply plain_empty|cbn; lia]|]. split; [apply plain_digest_string|]. by rewrite length_digest_string.
Qed.
Lemma TaskObjectiveContractDigest_form task w : plain (TaskObjectiveContractDigest task w) /\ (String.length (TaskObjectiveContractDigest task w) <= 71)%nat.
Proof. apply digest_or_empty. unfold TaskObjectiveContractDigest. repeat case_match; eauto. Qed.
Lemma TaskTestReceiptDigest_form r : plain (TaskTestReceiptDigest r) /\ (String.length (TaskTestReceiptDigest r) <= 71)%nat.
Proof. apply digest_or_empty. unfold TaskTestReceiptDigest. case_match; eauto. Qed.
Lemma TaskIntegrationDigest_form {A} (c : codec A) x : plain (TaskIntegrationDigest c x) /\ (String.length (TaskIntegrationDigest c x) <= 71)%nat.
Proof. apply digest_or_empty. unfold TaskIntegrationDigest. case_match; eauto. Qed.

Lemma acceptance_receipt_written task w r : worker_identity task w -> validTaskAcceptanceReceipt task w r = true -> dated (ar_RecordedAt r) ->
  val_ok (c_type c_acceptance_receipt) (c_to c_acceptance_receipt r).
Proof.
  intros [] Hv Hd. unfold validTaskAcceptanceReceipt in Hv. destruct (tk_AcceptanceContract task) as [c|]; [|done]. breflect.
  unfold MaxTaskWorkers in *. specialize (id_worktree0 ltac:(done)). specialize (id_workspace0 ltac:(done)).
  assert (Hc : ValidateTaskAcceptanceContract (Some c) = Ok tt) by (by apply is_ok_true).
  cbn [ValidateTaskAcceptanceContract] in Hc. apply reject_if_ok in Hc. breflect.
  destruct r as [v t o j wt ws role base head branch lease fence digest clean ahead changed at_].
  cbn [ar_Version ar_TaskID ar_Ordinal ar_JobID ar_WorktreeID ar_WorkspaceID ar_WorktreeRole ar_BaseCommit ar_HeadCommit ar_Branch ar_LeaseID
    ar_Fence ar_ContractDigest ar_Clean ar_CommitsAheadBase ar_ChangedPathCount ar_RecordedAt] in *. subst.
  each_field; try (apply string_ok; solve [eauto 3 using TaskAcceptanceContractDigest_plain with plain nocore]).
  - apply int64_small. cbn [ar_Version]. lia.
  - apply int64_small. cbn [ar_Ordinal]. lia.
  - apply string_ok. cbn [ar_WorktreeRole]. plain_const.
  - by apply string_ok, worktree_branch_plain.
  - by apply uint64_ok.
  - apply bool_ok.
  - apply int64_small. cbn [ar_CommitsAheadBase]. lia.
  - apply int64_small. cbn [ar_ChangedPathCount]. lia.
  - by apply time_ok.
Qed.

Lemma test_receipt_written task w r : worker_identity task w -> validTaskTestAcceptanceReceipt task w r = true -> dated (tr_RecordedAt r) ->
  val_ok (c_type c_test_receipt) (c_to c_test_receipt r).
Proof.
  intros [] Hv Hd. unfold validTaskTestAcceptanceReceipt in Hv. destruct (tk_TestAcceptanceContract task) as [c|]; [|done]. breflect.
  unfold MaxTaskWorkers in *. specialize (id_worktree0 ltac:(done)). specialize (id_workspace0 ltac:(done)).
  assert (Hc : ValidateTaskTestAcceptanceContract (Some c) = Ok tt) by (by apply is_ok_true).
  cbn [ValidateTaskTestAcceptanceContract] in Hc. apply reject_if_ok in Hc. breflect.
  destruct r as [v t o j wt ws base head branch lease fence content profile pdigest cdigest op res at_].
  cbn [tr_Version tr_TaskID tr_Ordinal tr_JobID tr_WorktreeID tr_WorkspaceID tr_BaseCommit tr_HeadCommit tr_Branch tr_LeaseID
    tr_Fence tr_ContentDigest tr_ProfileID tr_ProfileDigest tr_ContractDigest tr_EdgeOperationID tr_EdgeResult tr_RecordedAt] in *. subst.
  each_field; try (apply string_ok; solve [eauto 3 using TaskTestAcceptanceContractDigest_plain with plain nocore]).
  - apply int64_small. cbn [tr_Version]. lia.
  - apply int64_small. cbn [tr_Ordinal]. lia.
  - by apply string_ok, worktree_branch_plain.
  - by apply uint64_ok.
  - apply string_ok. cbn [tr_EdgeResult]. plain_const.
  - by apply time_ok.
Qed.

Lemma objective_receipt_written task w r : worker_identity task w -> validTaskObjectiveReceipt task w r = true -> dated (or_RecordedAt r) ->
  val_ok (c_type c_objective_receipt) (c_to c_objective_receipt r) /\
  (json_len (encode (c_type c_objective_receipt) (c_to c_objective_receipt r)) <= 4096)%nat.
Proof.
  intros [] Hv Hd. unfold validTaskObjectiveReceipt in Hv. destruct (wk_TestAcceptanceReceipt w) as [test|]; [|breflect; done]. breflect.
  assert (Hh : MatchString taskCommitPattern (tr_HeadCommit test) = true).
  { match goal with H : validTaskTestAcceptanceReceipt _ _ _ = true |- _ => revert H end. unfold validTaskTestAcceptanceReceipt.
    destruct (tk_TestAcceptanceContract task); [|done]. intros H'. breflect. done. }
  unfold TaskObjectiveCriteriaSatisfied in *. destruct (tk_ObjectiveContract task) as [c|] eqn:Ec; [|done]. breflect.
  assert (Hc : ValidateTaskObjectiveContract (Some c) = Ok tt) by (by apply is_ok_true).
  cbn [ValidateTaskObjectiveContract] in Hc. apply reject_if_ok in Hc. breflect. unfold MaxTaskWorkers in *.
  destruct (TaskObjectiveContractDigest_form task w) as [Hd1 Hl1]. destruct (TaskTestReceiptDigest_form test) as [Hd2 Hl2].
  destruct r as [v t o cd td head clean ahead changed at_].
  cbn [or_Version or_TaskID or_Ordinal or_ContractDigest or_TestReceiptDigest or_HeadCommit or_Clean or_CommitsAheadBase or_ChangedPathCount or_RecordedAt] in *.
  subst. split.
  - each_field; try (apply string_ok; first [done | solve [eauto 3 with plain nocore]]).
    + apply int64_small. cbn [or_Version]. lia.
    + apply int64_small. cbn [or_Ordinal]. lia.
    + apply bool_ok.
    + apply int64_small. cbn [or_CommitsAheadBase]. lia.
    + apply int64_small. cbn [or_ChangedPathCount]. lia.
    + by apply time_ok.
  - pose proof (length_hex_id "tg_" (tk_ID task) ltac:(done) eq_refl). pose proof (length_commit _ Hh).
    pose proof (FormatInt_length 1 ltac:(lia)). pose proof (FormatInt_length (wk_Ordinal w) ltac:(lia)).
    pose proof (FormatInt_length ahead ltac:(lia)). pose proof (FormatInt_length changed ltac:(lia)). pose proof (FormatTime_length at_).
    change ((json_len (JObj [("version", JNum (FormatInt 1)); ("task_id", JStr (tk_ID task)); ("ordinal", JNum (FormatInt (wk_Ordinal w)));
      ("contract_digest", JStr (TaskObjectiveContractDigest task w)); ("test_receipt_digest", JStr (TaskTestReceiptDigest test));
      ("head_commit", JStr (tr_HeadCommit test)); ("clean", JBool clean); ("commits_ahead_base", JNum (FormatInt ahead));
      ("changed_path_count", JNum (FormatInt changed)); ("recorded_at", JStr (FormatTime at_))]) <= 4096)%nat).
    cbn [json_len foldr fst snd String.length] in *. lia.
Qed.

Lemma integration_receipt_written id r o c pins : MatchString taskIDPattern id = true -> MatchString taskCommitPattern (or_HeadCommit o) = true ->
  dated (ir_RecordedAt r) -> ir_Version r = 1 -> ir_TaskID r = id -> ir_ContractDigest r = TaskIntegrationDigest c_integration_contract c ->
  ir_SourcesDigest r = pins_digest pins -> ir_ObjectiveReceiptDigest r = TaskIntegrationDigest c_objective_receipt o ->
  ir_HeadCommit r = or_HeadCommit o ->
  val_ok (c_type c_integration_receipt) (c_to c_integration_receipt r) /\
  (json_len (encode (c_type c_integration_receipt) (c_to c_integration_receipt r)) <= 4096)%nat.
Proof.
  intros Hid Hh Hd Hv Ht Hc Hs Ho Hhead. destruct r as [v t cd sd od head at_].
  cbn [ir_Version ir_TaskID ir_ContractDigest ir_SourcesDigest ir_ObjectiveReceiptDigest ir_HeadCommit ir_RecordedAt] in *. subst.
  destruct (TaskIntegrationDigest_form c_integration_contract c) as [H1 L1]. destruct (TaskIntegrationDigest_form (c_slice c_pin) pins) as [H2 L2].
  destruct (TaskIntegrationDigest_form c_objective_receipt o) as [H3 L3]. split.
  - each_field; try (apply string_ok; first [done | solve [eauto 3 with plain nocore]]).
    + apply int64_small. cbn [ir_Version]. lia.
    + by apply time_ok.
  - pose proof (length_hex_id "tg_" id ltac:(done) eq_refl). pose proof (length_commit _ Hh). pose proof (FormatInt_length 1 ltac:(lia)).
    pose proof (FormatTime_length at_). fold (pins_digest pins) in *.
    change ((json_len (JObj [("version", JNum (FormatInt 1)); ("task_id", JStr id); ("contract_digest", JStr (TaskIntegrationDigest c_integration_contract c));
      ("sources_digest", JStr (pins_digest pins)); ("objective_receipt_digest", JStr (TaskIntegrationDigest c_objective_receipt o));
      ("head_commit", JStr (or_HeadCommit o)); ("recorded_at", JStr (FormatTime at_))]) <= 4096)%nat).
    cbn [json_len foldr fst snd String.length] in *. lia.
Qed.

(** The times of a record decide whether it can be written. *)
Lemma dated_encodable t : dated t -> (0 <=? year_of t) && (year_of t <=? 9999) = true.
Proof. unfold dated. lia. Qed.
Lemma acceptance_receipt_encodes r : dated (ar_RecordedAt r) -> MarshalErr c_acceptance_receipt r = Some (Marshal c_acceptance_receipt r).
Proof.
  intros H. unfold MarshalErr.
  change (encodable (c_to c_acceptance_receipt r)) with (((0 <=? year_of (ar_RecordedAt r)) && (year_of (ar_RecordedAt r) <=? 9999)) && true).
  by rewrite dated_encodable.
Qed.
Lemma test_receipt_encodes r : dated (tr_RecordedAt r) -> MarshalErr c_test_receipt r = Some (Marshal c_test_receipt r).
Proof.
  intros H. unfold MarshalErr.
  change (encodable (c_to c_test_receipt r)) with (((0 <=? year_of (tr_RecordedAt r)) && (year_of (tr_RecordedAt r) <=? 9999)) && true).
  by rewrite dated_encodable.
Qed.
Lemma objective_receipt_encodes r : dated (or_RecordedAt r) -> MarshalErr c_objective_receipt r = Some (Marshal c_objective_receipt r).
Proof.
  intros H. unfold MarshalErr.
  change (encodable (c_to c_objective_receipt r)) with (((0 <=? year_of (or_RecordedAt r)) && (year_of (or_RecordedAt r) <=? 9999)) && true).
  by rewrite dated_encodable.
Qed.
Lemma integration_receipt_encodes r : dated (ir_RecordedAt r) -> MarshalErr c_integration_receipt r = Some (Marshal c_integration_receipt r).
Proof.
  intros H. unfold MarshalErr.
  change (encodable (c_to c_integration_receipt r)) with (((0 <=? year_of (ir_RecordedAt r)) && (year_of (ir_RecordedAt r) <=? 9999)) && true).
  by rewrite dated_encodable.
Qed.
