(* ===== verification/TaskRows.v ===== *)
(** * Stored tasks: how [taskByID] reads them

    A task is a row of [task_groups] and its rows of [task_workers] joined with their
    jobs. Reading decodes the stored contracts, pins and receipts, derives the state
    and refuses whatever is not a valid task. *)

From S2P Require Import Prelude GoStrings GoRegexp Effects GoJson GoTime GoReflect GoRecord PolicyScan WorkqueueTypes Admission Fairness WorkqueueRows WorkqueueStore TaskTypes TaskRecord TaskRules.

(** ** The group *)
Definition optional_record {A} (dec : string -> result A) (column : string) : result (option A) :=
  if column =? "" then Ok None else let? x := dec column in Ok (Some x).

(** The contract, the pins and the receipt of an integration. *)
Definition integration_of_row (g : TaskGroupRow)
    : result (option TaskIntegrationContract * goslice TaskIntegrationSourcePin * option TaskIntegrationReceipt) :=
  let? (contract, pins) :=
    (if tg_integration_contract g <>? "" then
       let? contract := decodeTaskObjectiveRecord c_integration_contract (tg_integration_contract g) in
       check reject_if (tg_integration_source_task g <>? ic_SourceTaskID contract) "workqueue: integration source index conflicts" in
       let? pins := decodeTaskObjectiveRecord (c_slice c_pin) (tg_integration_pins g) in
       Ok (Some contract, pins)
     else
       check reject_if ((tg_integration_pins g <>? "") || (tg_integration_receipt g <>? "") || (tg_integration_source_task g <>? ""))
         "workqueue: orphan integration evidence" in
       Ok (None, None)) in
  let? receipt := optional_record (decodeTaskObjectiveRecord c_integration_receipt) (tg_integration_receipt g) in
  Ok (contract, pins, receipt).

(** The Git or test contract that the stored version selects. *)
Definition acceptance_of_row (g : TaskGroupRow) : result (option TaskAcceptanceContract * option TaskTestAcceptanceContract) :=
  let version := tg_acceptance_contract_version g in
  let commits := tg_acceptance_min_commits_ahead g in
  let paths := tg_acceptance_min_changed_paths g in
  let profile := (tg_test_profile_id g <>? "") || (tg_test_profile_digest g <>? "") in
  if version =? 0 then
    check reject_if ((commits <>? 0) || (paths <>? 0) || profile) "workqueue: task acceptance contract is invalid" in
    Ok (None, None)
  else if version =? 1 then
    check reject_if profile "workqueue: task acceptance contract is invalid" in
    Ok (Some {| ac_Version := version; ac_MinimumCommitsAheadPerWorker := commits; ac_MinimumChangedPathsPerWorker := paths |}, None)
  else if version =? 2 then
    check reject_if ((commits <>? 0) || (paths <>? 0)) "workqueue: task test acceptance contract is invalid" in
    Ok (None, Some {| tc_Version := 1; tc_ProfileID := tg_test_profile_id g; tc_ProfileDigest := tg_test_profile_digest g |})
  else Err "workqueue: task acceptance contract is unsupported".

(** A task before its workers are read. *)
Definition group_of_row (id : string) (g : TaskGroupRow) : result TaskGroup :=
  let? (integration, pins, receipt) := integration_of_row g in
  let? (git, test) := acceptance_of_row g in
  let? objective := optional_record decodeTaskObjectiveContract (tg_objective_contract g) in
  Ok {| tk_ID := id; tk_IdempotencyKey := tg_idempotency_key g; tk_Project := tg_project_alias g;
        tk_Target := tg_target_alias g; tk_BaseCommit := tg_base_commit g; tk_GoalHash := tg_goal_hash g;
        tk_Pool := tg_pool g; tk_Profile := tg_profile g; tk_WorkerCount := tg_worker_count g;
        tk_ExecutionTimeoutSeconds := tg_execution_timeout_seconds g; tk_AcceptanceContract := git;
        tk_TestAcceptanceContract := test; tk_ObjectiveContract := objective; tk_IntegrationContract := integration;
        tk_IntegrationPins := pins; tk_IntegrationReceipt := receipt; tk_State := TaskStateOther ""; tk_Workers := [];
        tk_CreatedAt := tg_created_at g; tk_UpdatedAt := tg_updated_at g |}.

(** ** The workers *)
(** [json.Unmarshal] of a receipt. *)
Definition decode_receipt {A} (c : codec A) (e : error) (record : string) : result A :=
  match UnmarshalLoose c record with Some x => Ok x | None => Err e end.

Record WorkerRow := { wr_ordinal : Z; wr_worker : TaskWorkerRow; wr_job : JobRow }.

Definition worker_view (row : WorkerRow) (acceptance : option TaskAcceptanceReceipt) (test : option TaskTestAcceptanceReceipt)
    (objective : option TaskObjectiveReceipt) : TaskWorker :=
  let w := wr_worker row in
  let r := wr_job row in
  let leaseUntil := default 0 (r_lease_until r) in
  {| wk_Ordinal := wr_ordinal row; wk_JobID := tw_job_id w; wk_State := r_state r; wk_Reason := r_reason r;
     wk_CancelRequested := r_cancel_requested r; wk_Attempt := r_attempt r; wk_LeaseID := null_string (r_lease_id r);
     wk_Fence := r_fence r; wk_LeaseExpiresAt := if 0 <? leaseUntil then leaseUntil else zero_time;
     wk_LeaseHolder := null_string (r_lease_holder r); wk_OperationID := tw_operation_id w;
     wk_WorktreeID := tw_worktree_id w; wk_WorkspaceID := tw_workspace_id w; wk_RuntimeID := tw_runtime_id w;
     wk_WorktreeCleaned := tw_worktree_cleaned w; wk_AcceptanceReceipt := acceptance;
     wk_TestAcceptanceReceipt := test; wk_ObjectiveReceipt := objective; wk_Summary := null_string (r_summary r);
     wk_GoalHash := i_payload_hash (r_ident r); wk_GoalRef := tw_goal_ref w; wk_UpdatedAt := r_updated_at r |}.

Definition worker_of_row (row : WorkerRow) : result TaskWorker :=
  let w := wr_worker row in
  check reject_if (r_fence (wr_job row) <? 0) "workqueue: task worker read failed" in
  let? acceptance := optional_record (decode_receipt c_acceptance_receipt "workqueue: task acceptance receipt is corrupt") (tw_acceptance_receipt w) in
  let? test := optional_record (decode_receipt c_test_receipt "workqueue: task test acceptance receipt is corrupt") (tw_test_acceptance_receipt w) in
  let? objective := optional_record (decodeTaskObjectiveRecord c_objective_receipt) (tw_objective_receipt w) in
  Ok (worker_view row acceptance test objective).

Fixpoint workers_of_rows (rows : list WorkerRow) : result (list TaskWorker) :=
  match rows with
  | [] => Ok []
  | row :: rows => let? w := worker_of_row row in let? ws := workers_of_rows rows in Ok (w :: ws)
  end.

(** [SELECT .. FROM task_workers tw JOIN jobs j ON j.job_id=tw.job_id WHERE tw.task_id=? ORDER BY tw.ordinal] *)
Definition ordinals_of (db : DB) (id : string) : list Z :=
  merge_sort Z.le (elements (filter (fun k => k.1 = id) (dom (db_task_workers db)))).*2.
Definition worker_at (db : DB) (id : string) (ordinal : Z) : option WorkerRow :=
  w ← db_task_workers db !! (id, ordinal);
  r ← db_jobs db !! tw_job_id w;
  Some {| wr_ordinal := ordinal; wr_worker := w; wr_job := r |}.
Definition worker_rows (db : DB) (id : string) : list WorkerRow := omap (worker_at db id) (ordinals_of db id).

(** ** The task *)
(** The latest update of the group and its workers. *)
Definition latest (t : time) (workers : list TaskWorker) : time :=
  fold_left (fun t w => if After (wk_UpdatedAt w) t then wk_UpdatedAt w else t) workers t.

Definition with_workers (task : TaskGroup) (workers : list TaskWorker) : TaskGroup :=
  {| tk_ID := tk_ID task; tk_IdempotencyKey := tk_IdempotencyKey task; tk_Project := tk_Project task;
     tk_Target := tk_Target task; tk_BaseCommit := tk_BaseCommit task; tk_GoalHash := tk_GoalHash task;
     tk_Pool := tk_Pool task; tk_Profile := tk_Profile task; tk_WorkerCount := tk_WorkerCount task;
     tk_ExecutionTimeoutSeconds := tk_ExecutionTimeoutSeconds task; tk_AcceptanceContract := tk_AcceptanceContract task;
     tk_TestAcceptanceContract := tk_TestAcceptanceContract task; tk_ObjectiveContract := tk_ObjectiveContract task;
     tk_IntegrationContract := tk_IntegrationContract task; tk_IntegrationPins := tk_IntegrationPins task;
     tk_IntegrationReceipt := tk_IntegrationReceipt task; tk_State := deriveTaskState workers; tk_Workers := workers;
     tk_CreatedAt := tk_CreatedAt task; tk_UpdatedAt := latest (tk_UpdatedAt task) workers |}.

(** The checks after the rows are read; [failed] is [rows.Err() != nil]. *)
Definition finish_task (group : TaskGroup) (workers : list TaskWorker) (failed : bool) : result TaskGroup :=
  check reject_if (failed || (Z.of_nat (length workers) <>? tk_WorkerCount group)) "workqueue: task state is invalid" in
  let task := with_workers group workers in
  check reject_if (negb (validTask task)) "workqueue: task state is invalid" in
  Ok task.

Definition taskByID (taskID : string) : M DB (option TaskGroup) :=
  let! db := mget in
  let! row := driver "workqueue: task read failed" (Some (db_task_groups db !! taskID)) in
  match row with
  | None => mret None
  | Some g =>
      do! driver "workqueue: integration state unavailable" (Some tt) in
      let! group := mlift (group_of_row taskID g) in
      let! rows := driver "workqueue: task workers unavailable" (Some (worker_rows db taskID)) in
      let! (rows, failed) := fetch rows in
      let! workers := mlift (workers_of_rows rows) in
      let! task := mlift (finish_task group workers failed) in
      mret (Some task)
  end.

(** What [taskByID] returns when no driver call fails. *)
Definition task_of (db : DB) (taskID : string) : result (option TaskGroup) :=
  match db_task_groups db !! taskID with
  | None => Ok None
  | Some g =>
      let? group := group_of_row taskID g in
      let? workers := workers_of_rows (worker_rows db taskID) in
      let? task := finish_task group workers false in
      Ok (Some task)
  end.

(** [SELECT task_id FROM task_groups WHERE idempotency_key=?]: the column is unique. *)
Definition taskIDByIdempotency (key : string) : M DB (option string) :=
  let! db := mget in
  driver "workqueue: task idempotency lookup failed"
    (Some (head (filter (fun e => tg_idempotency_key (snd e) = key) (map_to_list (db_task_groups db))).*1)).
