(* ===== verification/TaskStore.v ===== *)
(** * The operations on tasks: [task.go], [task_objective.go], [task_integration.go]

    The methods of the store that create tasks, lease, bind, complete, fail and cancel
    their workers, record receipts and cleanups, and list tasks. They run in
    transactions on the same database as the queue; clock readings, random bytes and
    the order of unordered queries are arguments. *)

From S2P Require Import Prelude GoStrings GoRegexp Effects GoJson GoTime GoReflect GoRecord PolicyScan WorkqueueTypes Admission Fairness WorkqueueRows WorkqueueStore TaskTypes TaskRecord TaskRules TaskRows.

(** ** Statements *)
Definition with_workers_table (workers : gmap (string * Z) TaskWorkerRow) (db : DB) : DB :=
  {| db_jobs := db_jobs db; db_dependencies := db_dependencies db; db_task_workers := workers; db_task_groups := db_task_groups db |}.
Definition with_groups (groups : gmap string TaskGroupRow) (db : DB) : DB :=
  {| db_jobs := db_jobs db; db_dependencies := db_dependencies db; db_task_workers := db_task_workers db; db_task_groups := groups |}.

(** [INSERT INTO task_groups]: refused when the key or the idempotency key is taken. *)
Definition sql_insert_group (id : string) (g : TaskGroupRow) (db : DB) : option DB :=
  if bool_decide (is_Some (db_task_groups db !! id))
     || existsb (fun e => tg_idempotency_key e.2 =? tg_idempotency_key g) (map_to_list (db_task_groups db))
  then None else Some (with_groups (<[id := g]> (db_task_groups db)) db).

(** [INSERT INTO task_workers]: refused when the key or the job is taken, or a foreign
    key does not exist. *)
Definition sql_insert_worker (id : string) (ordinal : Z) (w : TaskWorkerRow) (db : DB) : option DB :=
  if bool_decide (is_Some (db_task_workers db !! (id, ordinal)))
     || existsb (fun e => tw_job_id e.2 =? tw_job_id w) (map_to_list (db_task_workers db))
     || negb (bool_decide (is_Some (db_task_groups db !! id))) || negb (bool_decide (is_Some (db_jobs db !! tw_job_id w)))
  then None else Some (with_workers_table (<[(id, ordinal) := w]> (db_task_workers db)) db).

(** [UPDATE task_workers SET .. WHERE task_id=? AND ordinal=? AND ..]: the rows affected. *)
Definition exec_update_worker (e : error) (id : string) (ordinal : Z) (cond : TaskWorkerRow -> bool)
    (set : TaskWorkerRow -> TaskWorkerRow) : M DB Z :=
  let! db := mget in
  do! driver e (Some tt) in
  match db_task_workers db !! (id, ordinal) with
  | Some w =>
      if cond w then do! mput (with_workers_table (<[(id, ordinal) := set w]> (db_task_workers db)) db) in mret 1
      else mret 0
  | None => mret 0
  end.

(** [UPDATE task_groups SET .. WHERE task_id=? AND ..] *)
Definition exec_update_group (e : error) (id : string) (cond : TaskGroupRow -> bool) (set : TaskGroupRow -> TaskGroupRow) : M DB unit :=
  let! db := mget in
  do! driver e (Some tt) in
  match db_task_groups db !! id with
  | Some g => if cond g then mput (with_groups (<[id := set g]> (db_task_groups db)) db) else mret tt
  | None => mret tt
  end.

Definition new_worker (jobID goalRef : string) : TaskWorkerRow :=
  {| tw_job_id := jobID; tw_goal_ref := goalRef; tw_operation_id := ""; tw_worktree_id := ""; tw_workspace_id := "";
     tw_runtime_id := ""; tw_worktree_cleaned := false; tw_acceptance_receipt := ""; tw_test_acceptance_receipt := "";
     tw_objective_receipt := "" |}.
Definition set_operation (operation : string) (w : TaskWorkerRow) : TaskWorkerRow :=
  {| tw_job_id := tw_job_id w; tw_goal_ref := tw_goal_ref w; tw_operation_id := operation; tw_worktree_id := tw_worktree_id w;
     tw_workspace_id := tw_workspace_id w; tw_runtime_id := tw_runtime_id w; tw_worktree_cleaned := tw_worktree_cleaned w;
     tw_acceptance_receipt := tw_acceptance_receipt w; tw_test_acceptance_receipt := tw_test_acceptance_receipt w;
     tw_objective_receipt := tw_objective_receipt w |}.
Definition set_binding (worktree workspace runtime : string) (w : TaskWorkerRow) : TaskWorkerRow :=
  {| tw_job_id := tw_job_id w; tw_goal_ref := tw_goal_ref w; tw_operation_id := tw_operation_id w; tw_worktree_id := worktree;
     tw_workspace_id := workspace; tw_runtime_id := runtime; tw_worktree_cleaned := tw_worktree_cleaned w;
     tw_acceptance_receipt := tw_acceptance_receipt w; tw_test_acceptance_receipt := tw_test_acceptance_receipt w;
     tw_objective_receipt := tw_objective_receipt w |}.
Definition set_cleaned (w : TaskWorkerRow) : TaskWorkerRow :=
  {| tw_job_id := tw_job_id w; tw_goal_ref := tw_goal_ref w; tw_operation_id := tw_operation_id w; tw_worktree_id := tw_worktree_id w;
     tw_workspace_id := tw_workspace_id w; tw_runtime_id := tw_runtime_id w; tw_worktree_cleaned := true;
     tw_acceptance_receipt := tw_acceptance_receipt w; tw_test_acceptance_receipt := tw_test_acceptance_receipt w;
     tw_objective_receipt := tw_objective_receipt w |}.
(** The three receipt columns. *)
Definition set_receipts (acceptance test objective : string) (w : TaskWorkerRow) : TaskWorkerRow :=
  {| tw_job_id := tw_job_id w; tw_goal_ref := tw_goal_ref w; tw_operation_id := tw_operation_id w; tw_worktree_id := tw_worktree_id w;
     tw_workspace_id := tw_workspace_id w; tw_runtime_id := tw_runtime_id w; tw_worktree_cleaned := tw_worktree_cleaned w;
     tw_acceptance_receipt := acceptance; tw_test_acceptance_receipt := test; tw_objective_receipt := objective |}.
Definition set_acceptance (record : string) (w : TaskWorkerRow) : TaskWorkerRow :=
  set_receipts record (tw_test_acceptance_receipt w) (tw_objective_receipt w) w.
Definition set_test (record : string) (w : TaskWorkerRow) : TaskWorkerRow :=
  set_receipts (tw_acceptance_receipt w) record (tw_objective_receipt w) w.
Definition set_objective (record : string) (w : TaskWorkerRow) : TaskWorkerRow :=
  set_receipts (tw_acceptance_receipt w) (tw_test_acceptance_receipt w) record w.

(** [integration_contract], [integration_pins], [integration_source_task],
    [integration_receipt] and [updated_at] *)
Definition set_group (contract pins source receipt : string) (updated : Z) (g : TaskGroupRow) : TaskGroupRow :=
  {| tg_idempotency_key := tg_idempotency_key g; tg_project_alias := tg_project_alias g; tg_target_alias := tg_target_alias g;
     tg_base_commit := tg_base_commit g; tg_goal_hash := tg_goal_hash g; tg_pool := tg_pool g; tg_profile := tg_profile g;
     tg_worker_count := tg_worker_count g; tg_execution_timeout_seconds := tg_execution_timeout_seconds g;
     tg_acceptance_contract_version := tg_acceptance_contract_version g;
     tg_acceptance_min_commits_ahead := tg_acceptance_min_commits_ahead g;
     tg_acceptance_min_changed_paths := tg_acceptance_min_changed_paths g; tg_test_profile_id := tg_test_profile_id g;
     tg_test_profile_digest := tg_test_profile_digest g; tg_objective_contract := tg_objective_contract g;
     tg_integration_contract := contract; tg_integration_pins := pins; tg_integration_receipt := receipt;
     tg_integration_source_task := source; tg_created_at := tg_created_at g; tg_updated_at := updated |}.
Definition set_integration (contract pins source : string) (g : TaskGroupRow) : TaskGroupRow :=
  set_group contract pins source (tg_integration_receipt g) (tg_updated_at g) g.
Definition set_integration_receipt (receipt : string) (updated : Z) (g : TaskGroupRow) : TaskGroupRow :=
  set_group (tg_integration_contract g) (tg_integration_pins g) (tg_integration_source_task g) receipt updated g.
Definition touch (updated : Z) (g : TaskGroupRow) : TaskGroupRow :=
  set_integration_receipt (tg_integration_receipt g) updated g.

(** [begin], the statements, [commit]: the statements' result. *)
Definition transaction {A} (e_begin : error) (body : M DB A) (e_commit : A -> error) : M Store A :=
  let! db := begin_tx e_begin in
  let! (a, db) := tx db body in
  do! commit_tx (e_commit a) db in
  mret a.

(** [task, found, err := taskByIDTx(..); if err != nil || !found { return e }] *)
Definition require_task (e : error) (id : string) : M DB TaskGroup :=
  let! task := mtry (taskByID id) in
  match task with
  | Ok (Some task) => mret task
  | _ => mfail e
  end.
(** ... and [ordinal >= len(task.Workers)] *)
Definition require_worker (e : error) (id : string) (ordinal : Z) : M DB (TaskGroup * TaskWorker) :=
  let! task := require_task e id in
  match tk_Workers task !! Z.to_nat ordinal with
  | Some worker => mret (task, worker)
  | None => mfail e
  end.

(** [job, found, err := jobByID(tx, jobID)] with the caller's error. *)
Definition require_job `{Redactor} (e : error) (id : string) : M DB Job :=
  let! found := mtry (jobByID id) in
  match found with
  | Ok (Some job) => mret job
  | _ => mfail e
  end.

(** [SELECT .. FROM task_workers WHERE task_id=? AND ordinal=?] *)
Definition select_worker (e : error) (id : string) (ordinal : Z) : M DB TaskWorkerRow :=
  let! db := mget in driver e (db_task_workers db !! (id, ordinal)).

Definition valid_ordinal (ordinal : Z) : bool := (0 <=? ordinal) && (ordinal <? MaxTaskWorkers).

Section TaskStore.
Context `{Redactor} `{SqlScan}.

(** ** Creating a task *)
(** The task that is about to be created, as its sources are checked against it. *)
Definition pending_task (spec : TaskSpec) : TaskGroup :=
  {| tk_ID := ""; tk_IdempotencyKey := ""; tk_Project := ts_Project spec; tk_Target := ts_Target spec;
     tk_BaseCommit := ts_BaseCommit spec; tk_GoalHash := ""; tk_Pool := ""; tk_Profile := ""; tk_WorkerCount := 0;
     tk_ExecutionTimeoutSeconds := 0; tk_AcceptanceContract := None; tk_TestAcceptanceContract := None;
     tk_ObjectiveContract := None; tk_IntegrationContract := ts_IntegrationContract spec;
     tk_IntegrationPins := ts_IntegrationPins spec; tk_IntegrationReceipt := None; tk_State := TaskStateOther "";
     tk_Workers := []; tk_CreatedAt := zero_time; tk_UpdatedAt := zero_time |}.

Definition validateTaskIntegrationSourcesTx (task : TaskGroup) : M DB unit :=
  match tk_IntegrationContract task with
  | None => mret tt
  | Some c =>
      let! source := require_task "workqueue: integration source task unavailable" (ic_SourceTaskID c) in
      mlift (ValidateTaskIntegrationSourceBindings task source)
  end.

Definition group_row (spec : TaskSpec) (now : Z) : TaskGroupRow :=
  let '(version, commits, paths, profile, digest) := taskAcceptanceColumns (ts_AcceptanceContract spec) (ts_TestAcceptanceContract spec) in
  {| tg_idempotency_key := ts_IdempotencyKey spec; tg_project_alias := ts_Project spec; tg_target_alias := ts_Target spec;
     tg_base_commit := ts_BaseCommit spec; tg_goal_hash := ts_GoalHash spec; tg_pool := ts_Pool spec; tg_profile := ts_Profile spec;
     tg_worker_count := ts_WorkerCount spec; tg_execution_timeout_seconds := ts_ExecutionTimeoutSeconds spec;
     tg_acceptance_contract_version := version; tg_acceptance_min_commits_ahead := commits;
     tg_acceptance_min_changed_paths := paths; tg_test_profile_id := profile; tg_test_profile_digest := digest;
     tg_objective_contract := from_option (Marshal c_objective_contract) "" (ts_ObjectiveContract spec);
     tg_integration_contract := ""; tg_integration_pins := ""; tg_integration_receipt := ""; tg_integration_source_task := "";
     tg_created_at := now; tg_updated_at := now |}.

Definition worker_key (spec : TaskSpec) (ordinal : Z) : string := ts_IdempotencyKey spec +:+ ":worker:" +:+ FormatInt ordinal.
Definition worker_ident (spec : TaskSpec) (ordinal : Z) (hash : string) (now : Z) : JobIdent :=
  {| i_idempotency_key := worker_key spec ordinal; i_workspace := ts_Project spec; i_pool := ts_Pool spec;
     i_profile := ts_Profile spec; i_payload_hash := hash; i_created_at := now |}.

(** The loop over the workers: their goals and the bytes of their job identifiers. *)
Fixpoint create_workers (spec : TaskSpec) (taskID : string) (now : Z) (ordinal : Z) (goals : list (string * string))
    (randoms : list (option string)) : M DB unit :=
  match goals with
  | [] => mret tt
  | (hash, ref) :: goals =>
      let! jobID := randomID "workqueue: task worker identity unavailable" "wj_" (default None (head randoms)) in
      do! mguard (negb (MatchString idempotencyPattern (worker_key spec ordinal))) "workqueue: task worker idempotency is invalid" in
      do! exec_insert "workqueue: task worker persistence failed"
            (sql_insert_job jobID (new_row (worker_ident spec ordinal hash now) StateQueued ReasonNone None None)) in
      do! exec_insert "workqueue: task worker binding failed" (sql_insert_worker taskID ordinal (new_worker jobID ref)) in
      create_workers spec taskID now (ordinal + 1) goals (tail randoms)
  end.

(** An existing task with the same key, or the identifier of the new one. *)
Definition CreateTask_tx (config : Config) (spec : TaskSpec) (now : time) (random : option string) (randoms : list (option string))
    : M DB (sum TaskGroup string) :=
  let! existing := taskIDByIdempotency (ts_IdempotencyKey spec) in
  match existing with
  | Some existingID =>
      let! existing := require_task "workqueue: task unavailable" existingID in
      do! mguard (negb (taskMatchesSpec existing spec)) "workqueue: task idempotency key conflicts" in
      mret (inl existing)
  | None =>
      let! db := mget in
      let! total := driver "workqueue: task job count unavailable" (Some (count_jobs active db)) in
      let! workspaceCount := driver "workqueue: task project count unavailable"
        (Some (count_jobs (fun r => (i_workspace (r_ident r) =? ts_Project spec) && active r) db)) in
      do! mguard ((cfg_MaxJobs config <? total + ts_WorkerCount spec)
                  || (cfg_MaxJobsPerWorkspace config <? workspaceCount + ts_WorkerCount spec)) "workqueue: task queue bound reached" in
      let! taskID := randomID "workqueue: task identity unavailable" "tg_" random in
      do! validateTaskIntegrationSourcesTx (pending_task spec) in
      do! exec_insert "workqueue: task persistence failed" (sql_insert_group taskID (group_row spec (UnixNano now))) in
      do! match ts_IntegrationContract spec with
          | None => mret tt
          | Some c => exec_update_group "workqueue: integration pins persistence failed" taskID (fun _ => true)
              (set_integration (Marshal c_integration_contract c) (Marshal (c_slice c_pin) (ts_IntegrationPins spec)) (ic_SourceTaskID c))
          end in
      do! create_workers spec taskID (UnixNano now) 0 (zip (ts_WorkerGoalHashes spec) (ts_WorkerGoalRefs spec)) randoms in
      mret (inr taskID)
  end.

Definition taskUnlocked (id : string) : M Store (option TaskGroup) :=
  let! s := mget in let! r := tx (st_db s) (taskByID id) in mret (fst r).

(** [task, found, err := s.taskUnlocked(taskID); if err != nil || !found { return e }] *)
Definition reread_task (e : error) (id : string) : M Store TaskGroup :=
  let! task := mtry (taskUnlocked id) in
  match task with
  | Ok (Some task) => mret task
  | _ => mfail e
  end.

Definition CreateTask (spec : TaskSpec) (now : time) (random : option string) (randoms : list (option string)) : M Store (TaskGroup * bool) :=
  let spec := normalizeTaskSpec spec in
  do! mguard (negb (is_ok (validateTaskSpec spec))) "workqueue: task specification is invalid" in
  let! s := mget in
  let! outcome := transaction "workqueue: task transaction failed" (CreateTask_tx (st_config s) spec now random randoms)
    (fun o => match o with inl _ => "workqueue: task read commit failed" | inr _ => "workqueue: task commit failed" end) in
  match outcome with
  | inl existing => mret (existing, false)
  | inr taskID => let! task := reread_task "workqueue: created task unavailable" taskID in mret (task, true)
  end.

(** ** Leasing and binding a worker *)
(** The worker, and whether it already held the lease. *)
Definition LeaseTaskWorker_tx (taskID : string) (ordinal : Z) (holder : string) (ttl : duration) (now : time) (random : option string)
    : M DB (TaskWorker * bool) :=
  do! recoverExpired now in
  let! w := select_worker "workqueue: task worker not found" taskID ordinal in
  let! job := require_job "workqueue: task worker job unavailable" (tw_job_id w) in
  if (j_State job =? StateLeased) && (j_LeaseHolder job =? holder) && After (j_LeaseExpiresAt job) now
  then mret (taskWorkerFromJob ordinal job (tw_worktree_id w) (tw_workspace_id w) (tw_runtime_id w), true)
  else
    do! mguard ((j_State job <>? StateQueued) || j_CancelRequested job) "workqueue: task worker is not leasable" in
    let! leaseID := randomID "workqueue: task worker lease identity unavailable" "wl_" random in
    let! rows := exec_update "workqueue: task worker lease failed" (tw_job_id w) (fun r => r_state r =? StateQueued)
      (set_leased leaseID holder (UnixNano (TimeAdd now ttl)) (UnixNano now)) in
    do! mguard (rows <>? 1) "workqueue: task worker lease lost race" in
    let! job := require_job "workqueue: leased task worker unavailable" (tw_job_id w) in
    mret (taskWorkerFromJob ordinal job (tw_worktree_id w) (tw_workspace_id w) (tw_runtime_id w), false).

Definition LeaseTaskWorker (taskID : string) (ordinal : Z) (holder : string) (ttl : duration) (now : time) (random : option string)
    : M Store TaskWorker :=
  do! mguard (negb (MatchString taskIDPattern taskID) || negb (valid_ordinal ordinal) || negb (MatchString holderPattern holder)
              || (ttl <? MinLeaseTTL) || (MaxLeaseTTL <? ttl)) "workqueue: task worker lease is invalid" in
  let! (worker, _) := transaction "workqueue: task worker lease transaction failed" (LeaseTaskWorker_tx taskID ordinal holder ttl now random)
    (fun r => if snd r then "workqueue: task worker lease read failed" else "workqueue: task worker lease commit failed") in
  mret worker.

(** The job of a worker under the lease that the caller names. *)
Definition leased_under (job : Job) (leaseID : string) (fence : Z) (now : time) : bool :=
  (j_State job =? StateLeased) && (j_LeaseID job =? leaseID) && (j_Fence job =? fence) && After (j_LeaseExpiresAt job) now.

Definition BindTaskWorkerOperation_tx (b : TaskWorkerOperationBinding) (now : time) : M DB TaskWorker :=
  let conflict := "workqueue: task worker operation conflicts" in
  let! w := select_worker conflict (ob_TaskID b) (ob_Ordinal b) in
  do! mguard (tw_job_id w <>? ob_JobID b) conflict in
  let! job := require_job "workqueue: stale task worker operation rejected" (tw_job_id w) in
  do! mguard (negb (leased_under job (ob_LeaseID b) (ob_Fence b) now)) "workqueue: stale task worker operation rejected" in
  do! mguard ((tw_operation_id w <>? "") && (tw_operation_id w <>? ob_OperationID b)) conflict in
  do! (if tw_operation_id w =? ""
       then let! _ := exec_update_worker "workqueue: task worker operation binding failed" (ob_TaskID b) (ob_Ordinal b)
              (fun w => tw_operation_id w =? "") (set_operation (ob_OperationID b)) in mret tt
       else mret tt) in
  let worker := taskWorkerFromJob (ob_Ordinal b) job "" "" "" in
  mret {| wk_Ordinal := wk_Ordinal worker; wk_JobID := wk_JobID worker; wk_State := wk_State worker; wk_Reason := wk_Reason worker;
          wk_CancelRequested := wk_CancelRequested worker; wk_Attempt := wk_Attempt worker; wk_LeaseID := wk_LeaseID worker;
          wk_Fence := wk_Fence worker; wk_LeaseExpiresAt := wk_LeaseExpiresAt worker; wk_LeaseHolder := wk_LeaseHolder worker;
          wk_OperationID := ob_OperationID b; wk_WorktreeID := wk_WorktreeID worker; wk_WorkspaceID := wk_WorkspaceID worker;
          wk_RuntimeID := wk_RuntimeID worker; wk_WorktreeCleaned := wk_WorktreeCleaned worker;
          wk_AcceptanceReceipt := wk_AcceptanceReceipt worker; wk_TestAcceptanceReceipt := wk_TestAcceptanceReceipt worker;
          wk_ObjectiveReceipt := wk_ObjectiveReceipt worker; wk_Summary := wk_Summary worker; wk_GoalHash := wk_GoalHash worker;
          wk_GoalRef := wk_GoalRef worker; wk_UpdatedAt := wk_UpdatedAt worker |}.

Definition BindTaskWorkerOperation (b : TaskWorkerOperationBinding) (now : time) : M Store TaskWorker :=
  do! mguard (negb (MatchString taskIDPattern (ob_TaskID b)) || negb (valid_ordinal (ob_Ordinal b))
              || negb (MatchString jobIDPattern (ob_JobID b)) || negb (MatchString leaseIDPattern (ob_LeaseID b))
              || (ob_Fence b =? 0) || negb (MatchString taskOperationPattern (ob_OperationID b)))
        "workqueue: task worker operation binding is invalid" in
  transaction "workqueue: task worker operation transaction failed" (BindTaskWorkerOperation_tx b now)
    (fun _ => "workqueue: task worker operation commit failed").

Definition BindTaskWorker_tx (b : TaskWorkerBinding) (now : time) : M DB TaskWorker :=
  let conflict := "workqueue: task worker binding conflicts" in
  let! w := select_worker conflict (wb_TaskID b) (wb_Ordinal b) in
  do! mguard (tw_job_id w <>? wb_JobID b) conflict in
  let! job := require_job "workqueue: stale task worker binding rejected" (tw_job_id w) in
  do! mguard (negb (leased_under job (wb_LeaseID b) (wb_Fence b) now)) "workqueue: stale task worker binding rejected" in
  do! mguard ((tw_worktree_id w <>? "")
              && ((tw_worktree_id w <>? wb_WorktreeID b) || (tw_workspace_id w <>? wb_WorkspaceID b)
                  || ((tw_runtime_id w <>? "") && (tw_runtime_id w <>? wb_RuntimeID b)))) conflict in
  do! (if tw_worktree_id w =? ""
       then let! _ := exec_update_worker "workqueue: task worker binding failed" (wb_TaskID b) (wb_Ordinal b)
              (fun w => tw_worktree_id w =? "") (set_binding (wb_WorktreeID b) (wb_WorkspaceID b) (wb_RuntimeID b)) in mret tt
       else if (tw_runtime_id w =? "") && (wb_RuntimeID b <>? "")
       then let! _ := exec_update_worker "workqueue: task worker runtime binding failed" (wb_TaskID b) (wb_Ordinal b)
              (fun w => tw_runtime_id w =? "") (fun w => set_binding (tw_worktree_id w) (tw_workspace_id w) (wb_RuntimeID b) w) in mret tt
       else mret tt) in
  mret (taskWorkerFromJob (wb_Ordinal b) job (wb_WorktreeID b) (wb_WorkspaceID b) (wb_RuntimeID b)).

Definition BindTaskWorker (b : TaskWorkerBinding) (now : time) : M Store TaskWorker :=
  do! mguard (negb (validTaskWorkerBinding b)) "workqueue: task worker binding is invalid" in
  transaction "workqueue: task worker binding transaction failed" (BindTaskWorker_tx b now)
    (fun _ => "workqueue: task worker binding commit failed").

(** ** Reads *)
Definition Task_ (taskID : string) : M Store (option TaskGroup) :=
  do! mguard (negb (MatchString taskIDPattern taskID)) "workqueue: task id is invalid" in
  taskUnlocked taskID.

(** [s.Task(taskID)] of a caller that reports [e] for an error and for no task. *)
Definition call_task (e : error) (taskID : string) : M Store TaskGroup :=
  let! task := mtry (Task_ taskID) in
  match task with
  | Ok (Some task) => mret task
  | _ => mfail e
  end.

(** ** Finishing workers *)

(** Three calls of the store, each under its own lock. *)
Definition CompleteTaskWorker (taskID : string) (ordinal : Z) (leaseID : string) (fence : Z) (res : Result) (checked now : time)
    : M Store TaskGroup :=
  do! mguard (negb (MatchString taskIDPattern taskID) || negb (valid_ordinal ordinal)) "workqueue: task worker completion is invalid" in
  let! task := call_task "workqueue: task worker not found" taskID in
  match tk_Workers task !! Z.to_nat ordinal with
  | None => mfail "workqueue: task worker not found"
  | Some worker =>
      do! Complete (wk_JobID worker) leaseID fence res checked now in
      call_task "workqueue: completed task unavailable" taskID
  end.

Definition FailUnstartedTaskWorker_tx (taskID : string) (ordinal : Z) (now : time) : M DB (option TaskGroup) :=
  let! (task, worker) := require_worker "workqueue: task worker not found" taskID ordinal in
  if (wk_State worker =? StateFailed) && (wk_Reason worker =? ReasonTaskGoalUnavailable)
     && (wk_Summary worker =? TaskGoalUnavailableSummary)
  then mret (Some task)
  else
    do! mguard ((wk_State worker <>? StateQueued) && (wk_State worker <>? StateBlocked))
          "workqueue: task worker is already leased or terminal" in
    let! changed := exec_update "workqueue: task worker failure update failed" (wk_JobID worker)
      (fun r => (r_state r =? StateQueued) || (r_state r =? StateBlocked)) (set_goal_unavailable (UnixNano now)) in
    do! mguard (changed <>? 1) "workqueue: task worker changed during failure update" in
    do! propagate (wk_JobID worker) now in
    mret None.

Definition FailUnstartedTaskWorker (taskID : string) (ordinal : Z) (now : time) : M Store TaskGroup :=
  do! mguard (negb (MatchString taskIDPattern taskID) || negb (valid_ordinal ordinal)) "workqueue: task worker failure is invalid" in
  do! mguard (negb (is_ok (validateResult {| res_Outcome := StateFailed; res_Summary := TaskGoalUnavailableSummary; res_ResultRef := "" |})))
        "workqueue: task worker failure summary is invalid" in
  let! db := begin_tx "workqueue: task worker failure transaction failed" in
  let! (recorded, db) := tx db (FailUnstartedTaskWorker_tx taskID ordinal now) in
  match recorded with
  | Some task => mret task
  | None =>
      do! commit_tx "workqueue: task worker failure commit failed" db in
      reread_task "workqueue: failed task worker unavailable" taskID
  end.

(** The workers are cancelled one call at a time; [clock] gives the reading of each. *)
Definition CancelTask (taskID : string) (clock : Z -> time) : M Store TaskGroup :=
  let! task := call_task "workqueue: task not found" taskID in
  do! mfold (fun _ worker => do! Cancel (wk_JobID worker) (clock (wk_Ordinal worker)) in mret tt) tt (tk_Workers task) in
  call_task "workqueue: cancelled task unavailable" taskID.

(** ** Receipts *)
(** [UPDATE task_groups SET updated_at=? WHERE task_id=?] *)
Definition touch_group (e : error) (taskID : string) (now : time) : M DB unit :=
  exec_update_group e taskID (fun _ => true) (touch (UnixNano now)).

(** [json.Marshal(receipt)] *)
Definition marshal {A} (e : error) (c : codec A) (x : A) : M DB string :=
  match MarshalErr c x with Some data => mret data | None => mfail e end.

Definition RecordTaskWorkerAcceptance_tx (receipt : TaskAcceptanceReceipt) (now : time) : M DB (TaskAcceptanceReceipt * bool) :=
  let! (task, worker) := require_worker "workqueue: task acceptance worker unavailable" (ar_TaskID receipt) (ar_Ordinal receipt) in
  match wk_AcceptanceReceipt worker with
  | Some original =>
      do! mguard (negb (sameTaskAcceptanceReceipt original receipt)) "workqueue: task acceptance receipt conflicts" in
      mret (original, true)
  | None =>
      do! mguard (ar_Version receipt <>? 1) "workqueue: task acceptance receipt version is unsupported" in
      let receipt := ar_at now receipt in
      do! mguard (negb (validTaskAcceptanceReceipt task worker receipt) || wk_WorktreeCleaned worker)
            "workqueue: task acceptance evidence is stale or invalid" in
      let! encoded := marshal "workqueue: task acceptance receipt encoding failed" c_acceptance_receipt receipt in
      do! exec_update_worker "workqueue: task acceptance receipt persistence failed" (ar_TaskID receipt) (ar_Ordinal receipt)
            (fun w => tw_acceptance_receipt w =? "") (set_acceptance encoded) in
      do! touch_group "workqueue: task acceptance timestamp persistence failed" (ar_TaskID receipt) now in
      mret (receipt, false)
  end.

Definition RecordTaskWorkerAcceptance (receipt : TaskAcceptanceReceipt) (now : time) : M Store TaskAcceptanceReceipt :=
  do! mguard (negb (MatchString taskIDPattern (ar_TaskID receipt)) || negb (valid_ordinal (ar_Ordinal receipt)))
        "workqueue: task acceptance receipt is invalid" in
  let! (receipt, _) := transaction "workqueue: task acceptance transaction failed" (RecordTaskWorkerAcceptance_tx receipt now)
    (fun r => if snd r then "workqueue: task acceptance replay failed" else "workqueue: task acceptance commit failed") in
  mret receipt.

Definition RecordTaskWorkerTestReceipt_tx (receipt : TaskTestAcceptanceReceipt) (now : time) : M DB (TaskTestAcceptanceReceipt * bool) :=
  let! (task, worker) := require_worker "workqueue: task test receipt worker unavailable" (tr_TaskID receipt) (tr_Ordinal receipt) in
  match wk_TestAcceptanceReceipt worker with
  | Some original =>
      do! mguard (negb (sameTaskTestAcceptanceReceipt original receipt)) "workqueue: task test receipt conflicts" in
      mret (original, true)
  | None =>
      do! mguard (tr_Version receipt <>? 1) "workqueue: task test receipt version is unsupported" in
      let receipt := tr_at now receipt in
      do! mguard (negb (validTaskTestAcceptanceReceipt task worker receipt) || wk_WorktreeCleaned worker)
            "workqueue: task test receipt evidence is stale or invalid" in
      let! encoded := marshal "workqueue: task test receipt encoding failed" c_test_receipt receipt in
      let! changed := exec_update_worker "workqueue: task test receipt persistence failed" (tr_TaskID receipt) (tr_Ordinal receipt)
        (fun w => tw_test_acceptance_receipt w =? "") (set_test encoded) in
      do! mguard (changed <>? 1) "workqueue: task test receipt conflicts" in
      do! touch_group "workqueue: task test receipt timestamp persistence failed" (tr_TaskID receipt) now in
      mret (receipt, false)
  end.

Definition RecordTaskWorkerTestReceipt (receipt : TaskTestAcceptanceReceipt) (now : time) : M Store TaskTestAcceptanceReceipt :=
  do! mguard (negb (MatchString taskIDPattern (tr_TaskID receipt)) || negb (valid_ordinal (tr_Ordinal receipt)))
        "workqueue: task test receipt is invalid" in
  let! (receipt, _) := transaction "workqueue: task test receipt transaction failed" (RecordTaskWorkerTestReceipt_tx receipt now)
    (fun r => if snd r then "workqueue: task test receipt replay failed" else "workqueue: task test receipt commit failed") in
  mret receipt.

Definition RecordTaskWorkerObjective_tx (receipt : TaskObjectiveReceipt) (now : time) : M DB (TaskObjectiveReceipt * bool) :=
  let! (task, worker) := require_worker "workqueue: objective worker unavailable" (or_TaskID receipt) (or_Ordinal receipt) in
  match wk_ObjectiveReceipt worker with
  | Some original =>
      do! mguard (or_at (or_RecordedAt original) receipt <>? original) "workqueue: objective receipt conflicts" in
      mret (original, true)
  | None =>
      let receipt := or_at now receipt in
      do! mguard (wk_WorktreeCleaned worker || negb (validTaskObjectiveReceipt task worker receipt))
            "workqueue: objective evidence is stale or invalid" in
      let! encoded := marshal "workqueue: objective encoding failed" c_objective_receipt receipt in
      let! changed := exec_update_worker "workqueue: objective persistence failed" (or_TaskID receipt) (or_Ordinal receipt)
        (fun w => tw_objective_receipt w =? "") (set_objective encoded) in
      do! mguard (changed <>? 1) "workqueue: objective receipt conflicts" in
      do! touch_group "workqueue: objective timestamp persistence failed" (or_TaskID receipt) now in
      mret (receipt, false)
  end.

Definition RecordTaskWorkerObjective (receipt : TaskObjectiveReceipt) (now : time) : M Store TaskObjectiveReceipt :=
  do! mguard (negb (MatchString taskIDPattern (or_TaskID receipt)) || negb (valid_ordinal (or_Ordinal receipt)))
        "workqueue: objective receipt is invalid" in
  let! (receipt, _) := transaction "workqueue: objective transaction failed" (RecordTaskWorkerObjective_tx receipt now)
    (fun r => if snd r then "workqueue: objective replay failed" else "workqueue: objective commit failed") in
  mret receipt.

(** The error of a failing [tx.Commit()] is the driver's. *)
Definition commit_error : error := "tx.Commit".

Definition RecordTaskIntegrationReceipt_tx (receipt : TaskIntegrationReceipt) (now : time) : M DB TaskIntegrationReceipt :=
  let! task := require_task "workqueue: integration task unavailable" (ir_TaskID receipt) in
  match tk_IntegrationReceipt task with
  | Some original =>
      let receipt := ir_at (ir_RecordedAt original) receipt in
      do! mguard (receipt <>? original) "workqueue: integration receipt conflicts" in
      mret receipt
  | None =>
      let receipt := ir_at now receipt in
      let stale := "workqueue: integration evidence is stale or invalid" in
      do! mguard (negb (validTaskIntegrationReceipt task receipt)) stale in
      let! sources := mtry (validateTaskIntegrationSourcesTx task) in
      do! mguard (negb (is_ok sources)) stale in
      do! exec_update_group "workqueue: integration receipt persistence failed" (tk_ID task)
            (fun g => tg_integration_receipt g =? "")
            (set_integration_receipt (from_option id "" (MarshalErr c_integration_receipt receipt)) (UnixNano now)) in
      mret receipt
  end.

Definition RecordTaskIntegrationReceipt (receipt : TaskIntegrationReceipt) (now : time) : M Store TaskIntegrationReceipt :=
  do! mguard (negb (MatchString taskIDPattern (ir_TaskID receipt))) "workqueue: integration receipt is invalid" in
  transaction "workqueue: integration receipt transaction failed" (RecordTaskIntegrationReceipt_tx receipt now) (fun _ => commit_error).

(** ** Cleanup *)
(** [SELECT tg.task_id FROM task_groups tg JOIN task_workers tw .. JOIN jobs j .. WHERE
    tg.integration_source_task=? AND tg.integration_source_task<>'' AND j.state NOT IN
    (failed,cancelled) AND tw.worktree_cleaned=0], in any order *)
Definition requiring_integrations (db : DB) (source : string) : list string :=
  unordered (omap (fun e : (string * Z) * TaskWorkerRow =>
    g ← db_task_groups db !! e.1.1;
    r ← db_jobs db !! tw_job_id e.2;
    if (tg_integration_source_task g =? source) && (tg_integration_source_task g <>? "")
       && (r_state r <>? StateFailed) && (r_state r <>? StateCancelled) && negb (tw_worktree_cleaned e.2)
    then Some e.1.1 else None) (map_to_list (db_task_workers db))).

Definition taskRequiredByIntegration (source : string) : M DB bool :=
  let! db := mget in
  let! row := driver "workqueue: integration pins unavailable" (Some (head (requiring_integrations db source))) in
  match row with
  | None => mret false
  | Some id =>
      let! task := require_task "workqueue: integration task unavailable" id in
      match tk_IntegrationContract task with
      | Some c =>
          do! mguard (ic_SourceTaskID c <>? source) "workqueue: integration task unavailable" in
          mret true
      | None => mfail "workqueue: integration task unavailable"
      end
  end.

Definition TaskRequiredByIntegration (source : string) : M Store bool :=
  do! mguard (negb (MatchString taskIDPattern source)) "workqueue: integration source identity is invalid" in
  let! s := mget in let! r := tx (st_db s) (taskRequiredByIntegration source) in mret (fst r).

(** Whether the marker was already there. *)
Definition MarkTaskWorkerWorktreeCleaned_tx (taskID : string) (ordinal : Z) (leaseID : string) (fence : Z) (now : time) : M DB bool :=
  let incomplete := "workqueue: task cleanup evidence is incomplete" in
  let! (task, worker) := require_worker "workqueue: task cleanup worker unavailable" taskID ordinal in
  do! mguard ((wk_WorktreeID worker =? "") || (wk_LeaseID worker <>? leaseID) || (wk_Fence worker <>? fence)
              || negb (terminal (wk_State worker))) incomplete in
  if wk_WorktreeCleaned worker then mret true
  else
    let succeeded := wk_State worker =? StateSucceeded in
    do! mguard (needs (tk_AcceptanceContract task) (wk_AcceptanceReceipt worker) && succeeded) incomplete in
    do! mguard (needs (tk_TestAcceptanceContract task) (wk_TestAcceptanceReceipt worker) && succeeded) incomplete in
    do! mguard (needs (tk_ObjectiveContract task) (wk_ObjectiveReceipt worker) && succeeded)
          "workqueue: task objective receipt is required before cleanup" in
    do! mguard (needs (tk_IntegrationContract task) (tk_IntegrationReceipt task) && succeeded)
          "workqueue: integration receipt is required before cleanup" in
    let! required := mtry (taskRequiredByIntegration taskID) in
    do! mguard (match required with Ok required => required | Err _ => true end) "workqueue: task is pinned by a pending integration" in
    do! exec_update_worker "workqueue: task cleanup marker persistence failed" taskID ordinal
          (fun w => negb (tw_worktree_cleaned w)) set_cleaned in
    do! touch_group "workqueue: task cleanup timestamp persistence failed" taskID now in
    mret false.

Definition MarkTaskWorkerWorktreeCleaned (taskID : string) (ordinal : Z) (leaseID : string) (fence : Z) (now : time) : M Store unit :=
  do! mguard (negb (MatchString taskIDPattern taskID) || negb (valid_ordinal ordinal) || negb (MatchString leaseIDPattern leaseID)
              || (fence =? 0)) "workqueue: task worktree cleanup marker is invalid" in
  do! transaction "workqueue: task cleanup transaction failed" (MarkTaskWorkerWorktreeCleaned_tx taskID ordinal leaseID fence now)
    (fun replay : bool => if replay then "workqueue: task cleanup replay failed" else "workqueue: task cleanup commit failed") in
  mret tt.

(** ** Listings *)
Definition TaskByIdempotencyKey (key : string) : M Store (option TaskGroup) :=
  let key := TrimSpace key in
  do! mguard ((118 <? Len key) || negb (MatchString idempotencyPattern key)) "workqueue: task idempotency key is invalid" in
  let! s := mget in
  let! (id, _) := tx (st_db s) (taskIDByIdempotency key) in
  match id with
  | None => mret None
  | Some id => let! task := reread_task "workqueue: task unavailable" id in mret (Some task)
  end.

(** [EXISTS (SELECT 1 FROM task_workers tw JOIN jobs j ON .. WHERE tw.task_id=tg.task_id AND ..)] *)
Definition exists_worker (db : DB) (cond : JobRow -> bool) (id : string) : bool :=
  existsb (fun w => cond (wr_job w)) (worker_rows db id).

(** [ORDER BY <column>,task_id] *)
Definition group_le (column : TaskGroupRow -> Z) (a b : string * TaskGroupRow) : Prop :=
  column (snd a) < column (snd b) \/ (column (snd a) = column (snd b) /\ str_le (fst a) (fst b)).
#[export] Instance group_le_dec column a b : Decision (group_le column a b).
Proof. unfold group_le. apply _. Defined.

(** The groups with a worker whose job is not terminal, oldest first. *)
Definition open_groups (db : DB) (limit : Z) : list string :=
  (take (Z.to_nat limit) (merge_sort (group_le tg_created_at)
     (filter (fun e => exists_worker db (fun r => negb (terminal (r_state r))) (fst e) = true) (map_to_list (db_task_groups db))))).*1.

(** The query of a listing: the identifiers, with the errors of the loop and of [rows.Close]. *)
Definition list_ids (e e_close : error) (ids : list string) : M Store (list string) :=
  let! rows := driver e (Some ids) in
  let! (ids, failed) := fetch rows in
  do! mguard failed e in
  do! driver e_close (Some tt) in
  mret ids.

Definition read_tasks (e : error) (ids : list string) : M Store (list TaskGroup) :=
  mfold (fun tasks id => let! task := reread_task e id in mret (tasks ++ [task])) [] ids.

Definition ActiveTaskGoalRefs : M Store (list ActiveTaskGoalRef) :=
  let! s := mget in
  let maxJobs := cfg_MaxJobs (st_config s) in
  let bound := "workqueue: active task goal bound exceeded" in
  let! ids := list_ids "workqueue: active task goal scan failed" bound (open_groups (st_db s) (maxJobs + 1)) in
  do! mguard (maxJobs <? Z.of_nat (length ids)) bound in
  let! tasks := read_tasks "workqueue: active task goal state is invalid" ids in
  mret (tasks ≫= fun task =>
    (fun w => {| gr_IdempotencyKey := tk_IdempotencyKey task; gr_BodyRef := wk_GoalRef w; gr_ContentDigest := wk_GoalHash w |})
      <$> filter (fun w => terminal (wk_State w) = false) (tk_Workers task)).

Definition Tasks (limit : Z) : M Store (list TaskGroup) :=
  do! mguard ((limit <? 1) || (MaxListResults <? limit)) "workqueue: task list limit is invalid" in
  let! s := mget in
  let failed := "workqueue: task list failed" in
  let! ids := list_ids failed failed (open_groups (st_db s) limit) in
  read_tasks "workqueue: task list contains invalid state" ids.

(** [ORDER BY updated_at DESC,task_id DESC] *)
Definition recent_le (a b : string * TaskGroupRow) : Prop := group_le tg_updated_at b a.
#[export] Instance recent_le_dec a b : Decision (recent_le a b).
Proof. unfold recent_le. apply _. Defined.

Definition recent_groups (db : DB) (project target : string) (limit : Z) : list string :=
  (take (Z.to_nat limit) (merge_sort recent_le
     (filter (fun e => tg_project_alias (snd e) = project /\ tg_target_alias (snd e) = target) (map_to_list (db_task_groups db))))).*1.

Definition RecentProjectTasks (project target : string) (limit : Z) : M Store (list TaskGroup) :=
  do! mguard (negb (MatchString taskProjectPattern project) || negb (MatchString taskTargetPattern target)
              || (limit <? 1) || (MaxListResults <? limit)) "workqueue: recent task query is invalid" in
  let! s := mget in
  let failed := "workqueue: recent task list failed" in
  let! ids := list_ids failed failed (recent_groups (st_db s) project target limit) in
  read_tasks "workqueue: recent task list contains invalid state" ids.

(** ** Integrity: the part of [Store.Integrity] (store.go) on tasks *)
Definition tasksIntegrity : M Store unit :=
  let! s := mget in
  let db := st_db s in
  let scan := "workqueue: task semantic scan failed" in
  let! rows := driver scan (Some (sort_strings (map_to_list (db_task_groups db)).*1)) in
  let! (ids, _) := fetch rows in
  do! driver scan (Some tt) in
  let bound := "workqueue: task row bound exceeded" in
  let! activeTaskCount := driver bound
    (Some (Z.of_nat (length (filter (fun id => exists_worker db active id = true) (map_to_list (db_task_groups db)).*1)))) in
  do! mguard (cfg_MaxJobs (st_config s) <? activeTaskCount) bound in
  mfold (fun _ id => let! _ := reread_task "workqueue: task semantic integrity failed" id in mret tt) tt ids.

End TaskStore.
