(* ===== verification/TaskFacts.v ===== *)
(** * Facts about stored tasks

    [taskByID] returns what the pure [task_of] computes; a stored task is taken apart
    into its group and its workers, each read from its own rows, and put together
    again after a row has changed. *)

From S2P Require Import Prelude GoStrings GoRegexp Effects GoJson GoTime GoReflect GoRecord PolicyScan WorkqueueTypes Admission Fairness WorkqueueRows WorkqueueStore TaskTypes TaskRecord TaskRules TaskRows TaskStore.

(** ** Reading *)
Lemma hoare_taskByID F D id :
  hoare F (eq D) (taskByID id) (fun o db => db = D /\ task_of D id = Ok o) (fun _ db => db = D).
Proof.
  unfold taskByID, task_of. eapply (hoare_bind _ _ _ (fun X db => db = D /\ X = D)); [apply hoare_get; by intros s <-|]. intros X.
  eapply (hoare_bind _ _ _ (fun row db => (db = D /\ X = D) /\ row = db_task_groups D !! id)).
  { apply hoare_driver; [by intros s a [-> ->] [= <-]|]. by intros s [-> _]. }
  intros [g|]; [|apply hoare_ret; by intros s [[-> _] <-]].
  eapply (hoare_bind _ _ _ (fun _ db => (db = D /\ X = D) /\ Some g = db_task_groups D !! id)).
  { apply hoare_driver; [done|]. by intros s [[-> _] _]. }
  intros _. eapply (hoare_bind _ _ _ (fun group db => db = D /\ X = D /\ Some g = db_task_groups D !! id /\ group_of_row id g = Ok group)).
  { apply hoare_lift; [by intros s a [[-> ->] <-] Hg|]. by intros s e [[-> _] _]. }
  intros group. eapply (hoare_bind _ _ _ (fun rows db => db = D /\ rows = worker_rows D id /\ Some g = db_task_groups D !! id /\ group_of_row id g = Ok group)).
  { apply hoare_driver; [by intros s a (-> & -> & <- & Hg) [= <-]|]. by intros s (-> & _). }
  intros rows. eapply (hoare_bind _ _ _ (fun r db => (db = D /\ Some g = db_task_groups D !! id /\ group_of_row id g = Ok group) /\ (r.2 = false -> r.1 = worker_rows D id))).
  { apply hoare_fetch; [by intros s (-> & -> & <- & Hg)|]. by intros s l (-> & -> & <- & Hg) _ _. }
  intros [rows' failed]. eapply (hoare_bind _ _ _ (fun ws db => (db = D /\ Some g = db_task_groups D !! id /\ group_of_row id g = Ok group) /\
    (failed = false -> workers_of_rows (worker_rows D id) = Ok ws))).
  { apply hoare_lift; [|by intros s e [[-> _] _]]. intros s ws [Hs Hr] Hw. split; [done|]. intros Hf. by rewrite <- (Hr Hf). }
  intros ws. eapply (hoare_bind _ _ _ (fun t db => db = D /\ Some g = db_task_groups D !! id /\ group_of_row id g = Ok group /\
    workers_of_rows (worker_rows D id) = Ok ws /\ finish_task group ws false = Ok t)).
  { apply hoare_lift; [|by intros s e [[-> _] _]]. intros s t [(-> & <- & Hg) Hw] Ht. destruct failed; [done|]. by split_and!; auto. }
  intros t. apply hoare_ret. intros s (-> & <- & -> & Hw & Ht). split; [done|]. cbn [rbind]. by rewrite Hw; cbn [rbind]; rewrite Ht.
Qed.

Lemma taskByID_quiet D id : taskByID id D [] = (task_of D id, D, []).
Proof.
  unfold taskByID, task_of, mbind, mget, driver, mlift, mret. cbn [next_fault]. destruct (db_task_groups D !! id) as [g|]; [|done].
  destruct (group_of_row id g) as [group|e]; cbn [rbind next_fault]; [|done]. rewrite fetch_quiet. cbn [rbind].
  destruct (workers_of_rows (worker_rows D id)) as [ws|e]; cbn [rbind]; [|done]. by destruct (finish_task group ws false).
Qed.

Lemma hoare_require_task F D e id :
  hoare F (eq D) (require_task e id) (fun t db => db = D /\ task_of D id = Ok (Some t)) (fun _ db => db = D).
Proof.
  unfold require_task. eapply (hoare_bind _ _ _ (fun r db => db = D /\ forall o, r = Ok o -> task_of D id = Ok o)).
  { apply hoare_try. eapply hoare_conseq; [apply hoare_taskByID|done| |].
    - intros o s [-> Ho]. split; [done|]. by intros ? [= <-].
    - by intros e' s ->. }
  intros [[t|]|e']; [apply hoare_ret|apply hoare_fail|apply hoare_fail]; [|by intros s [-> _]..].
  intros s [-> Hr]. split; [done|]. by apply Hr.
Qed.

Lemma hoare_require_worker F D e id ordinal :
  hoare F (eq D) (require_worker e id ordinal)
    (fun r db => db = D /\ task_of D id = Ok (Some r.1) /\ tk_Workers r.1 !! Z.to_nat ordinal = Some r.2) (fun _ db => db = D).
Proof.
  unfold require_worker. eapply hoare_bind; [apply hoare_require_task|]. intros t.
  destruct (tk_Workers t !! Z.to_nat ordinal) as [w|] eqn:E; [apply hoare_ret|apply hoare_fail]; [|by intros s [-> _]].
  by intros s [-> Ht].
Qed.

(** ** A worker and its rows *)
Lemma optional_record_ok {A} (dec : string -> result A) column o :
  optional_record dec column = Ok o <-> match o with None => column = "" | Some x => column <> "" /\ dec column = Ok x end.
Proof.
  unfold optional_record. case_bool_decide as E; split.
  - by intros [= <-].
  - by destruct o; [intros []|].
  - destruct (dec column) as [x|]; [|done]. by intros [= <-].
  - destruct o; [|done]. intros [_ ->]. done.
Qed.

(** What the columns of a worker decode to. *)
Definition receipts_of (w : TaskWorkerRow) (a : option TaskAcceptanceReceipt) (t : option TaskTestAcceptanceReceipt)
    (o : option TaskObjectiveReceipt) : Prop :=
  optional_record (decode_receipt c_acceptance_receipt "workqueue: task acceptance receipt is corrupt") (tw_acceptance_receipt w) = Ok a /\
  optional_record (decode_receipt c_test_receipt "workqueue: task test acceptance receipt is corrupt") (tw_test_acceptance_receipt w) = Ok t /\
  optional_record (decodeTaskObjectiveRecord c_objective_receipt) (tw_objective_receipt w) = Ok o.

Lemma worker_of_row_ok row w : worker_of_row row = Ok w <->
  0 <= r_fence (wr_job row) /\ exists a t o, receipts_of (wr_worker row) a t o /\ w = worker_view row a t o.
Proof.
  unfold worker_of_row, receipts_of. split.
  - intros H. destruct (Z.ltb_spec (r_fence (wr_job row)) 0) as [Hf|Hf]; [done|]. cbn [reject_if rbind] in H. split; [done|].
    repeat (match type of H with rbind ?m _ = _ => destruct m eqn:?; cbn [rbind] in H; [|done] end). injection H as <-. eauto 10.
  - intros [Hf (a & t & o & (-> & -> & ->) & ->)]. rewrite (proj2 (Z.ltb_ge _ _)) by done. done.
Qed.

Lemma workers_of_rows_ok rows ws : workers_of_rows rows = Ok ws <-> Forall2 (fun row w => worker_of_row row = Ok w) rows ws.
Proof.
  revert ws. induction rows as [|row rows IH]; intros ws; cbn [workers_of_rows].
  - split; [by intros [= <-]|]. by intros ->%Forall2_nil_inv_l.
  - split.
    + destruct (worker_of_row row) as [w|] eqn:E; cbn [rbind]; [|done]. destruct (workers_of_rows rows) as [ws'|]; cbn [rbind]; [|done].
      intros [= <-]. constructor; [done|]. by apply IH.
    + inversion 1 as [|? w ? ws' Hw Hws]; subst. apply IH in Hws as ->. by rewrite Hw.
Qed.

(** ** Validity, part by part *)
Lemma valid_workers_iff task k ws : valid_workers task k ws = true <->
  forall i w, ws !! i = Some w -> valid_worker task (k + Z.of_nat i) w = true.
Proof.
  revert k. induction ws as [|w ws IH]; intros k; cbn [valid_workers].
  - split; [by intros _ i w Hw|done].
  - rewrite andb_true_iff, IH. split.
    + intros [H1 H2] [|i] x Hx; [injection Hx as <-; by rewrite Z.add_0_r|]. replace (k + Z.of_nat (S i)) with (k + 1 + Z.of_nat i) by lia.
      by apply H2.
    + intros H. split; [specialize (H 0%nat w eq_refl); by rewrite Z.add_0_r in H|]. intros i x Hx.
      specialize (H (S i) x Hx). by replace (k + 1 + Z.of_nat i) with (k + Z.of_nat (S i)) by lia.
Qed.

(** The specification of a group with the goals of its workers. *)
Definition group_spec (group : TaskGroup) (hashes refs : list string) : TaskSpec :=
  {| ts_IdempotencyKey := tk_IdempotencyKey group; ts_Project := tk_Project group; ts_Target := tk_Target group;
     ts_BaseCommit := tk_BaseCommit group; ts_GoalHash := tk_GoalHash group;
     ts_AcceptanceContract := tk_AcceptanceContract group; ts_TestAcceptanceContract := tk_TestAcceptanceContract group;
     ts_ObjectiveContract := tk_ObjectiveContract group; ts_IntegrationContract := tk_IntegrationContract group;
     ts_IntegrationPins := tk_IntegrationPins group; ts_WorkerGoalHashes := hashes; ts_WorkerGoalRefs := refs;
     ts_Pool := tk_Pool group; ts_Profile := tk_Profile group; ts_WorkerCount := tk_WorkerCount group;
     ts_ExecutionTimeoutSeconds := tk_ExecutionTimeoutSeconds group |}.

Record group_valid (group : TaskGroup) (hashes refs : list string) : Prop := {
  gv_id : MatchString taskIDPattern (tk_ID group) = true;
  gv_spec : validateTaskSpec (group_spec group hashes refs) = Ok tt;
  gv_created : tk_CreatedAt group <> zero_time;
}.

(** The receipt of an integration is about the single worker's objective receipt. *)
Definition integration_valid (group : TaskGroup) (objectives : list (option TaskObjectiveReceipt)) : Prop :=
  forall r, tk_IntegrationReceipt group = Some r ->
    exists c o, tk_IntegrationContract group = Some c /\ objectives = [Some o] /\
      ir_Version r = 1 /\ ir_TaskID r = tk_ID group /\ ir_ContractDigest r = TaskIntegrationDigest c_integration_contract c /\
      ir_SourcesDigest r = pins_digest (tk_IntegrationPins group) /\
      ir_ObjectiveReceiptDigest r = TaskIntegrationDigest c_objective_receipt o /\ ir_HeadCommit r = or_HeadCommit o /\
      or_Clean o = true /\ ir_RecordedAt r <> zero_time /\ tk_CreatedAt group <= ir_RecordedAt r.

Lemma validTaskIntegrationReceipt_iff group ws r : validTaskIntegrationReceipt (with_workers group ws) r = true <->
  exists c o, tk_IntegrationContract group = Some c /\ wk_ObjectiveReceipt <$> ws = [Some o] /\
      ir_Version r = 1 /\ ir_TaskID r = tk_ID group /\ ir_ContractDigest r = TaskIntegrationDigest c_integration_contract c /\
      ir_SourcesDigest r = pins_digest (tk_IntegrationPins group) /\
      ir_ObjectiveReceiptDigest r = TaskIntegrationDigest c_objective_receipt o /\ ir_HeadCommit r = or_HeadCommit o /\
      or_Clean o = true /\ ir_RecordedAt r <> zero_time /\ tk_CreatedAt group <= ir_RecordedAt r.
Proof.
  unfold validTaskIntegrationReceipt. cbn [with_workers tk_IntegrationContract tk_Workers tk_ID tk_IntegrationPins tk_CreatedAt].
  destruct (tk_IntegrationContract group) as [c|]; [|split; [done|by intros (? & ? & ? & _)]].
  destruct ws as [|w [|w' ws]]; [split; [done|by intros (? & ? & _ & ? & _)]| |split; [done|by intros (? & ? & _ & ? & _)]].
  cbn [fmap list_fmap]. destruct (wk_ObjectiveReceipt w) as [o|] eqn:Ew; [|split; [done|by intros (? & ? & _ & ? & _)]].
  unfold IsZero, Before. rewrite !andb_true_iff, !negb_true_iff, !bool_decide_eq_true, bool_decide_eq_false, Z.ltb_ge. split.
  - intros [[[[[[[[? ?] ?] ?] ?] ?] ?] ?] ?]. exists c, o. by split_and!.
  - intros (? & ? & [= <-] & [= <-] & ? & ? & ? & ? & ? & ? & ? & ? & ?). by split_and!.
Qed.

Lemma latest_ge t ws : t <= latest t ws /\ forall w, w ∈ ws -> wk_UpdatedAt w <= latest t ws.
Proof.
  unfold latest. revert t. induction ws as [|w ws IH]; intros t; cbn [fold_left]; [split; [lia|]; by intros w ?%elem_of_nil|].
  destruct (IH (if After (wk_UpdatedAt w) t then wk_UpdatedAt w else t)) as [H1 H2]. unfold After in *.
  destruct (Z.ltb_spec t (wk_UpdatedAt w)); split; try lia; intros x [->|Hx]%elem_of_cons; auto; lia.
Qed.

(** ** A valid worker *)
(** The receipts its contracts require before a succeeded worker may be cleaned. *)
Record evidence (group : TaskGroup) (w : TaskWorker) : Prop := {
  ev_acceptance : is_Some (tk_AcceptanceContract group) -> is_Some (wk_AcceptanceReceipt w);
  ev_test : is_Some (tk_TestAcceptanceContract group) -> is_Some (wk_TestAcceptanceReceipt w);
  ev_objective : is_Some (tk_ObjectiveContract group) -> is_Some (wk_ObjectiveReceipt w);
  ev_integration : is_Some (tk_IntegrationContract group) -> is_Some (tk_IntegrationReceipt group);
}.

Record worker_ok (group : TaskGroup) (i : Z) (w : TaskWorker) : Prop := {
  wo_ordinal : wk_Ordinal w = i;
  wo_job : MatchString jobIDPattern (wk_JobID w) = true;
  wo_state : validState (wk_State w) = true;
  wo_lease : wk_LeaseID w <> "" -> wk_Fence w <> 0 /\ MatchString leaseIDPattern (wk_LeaseID w) = true;
  wo_leased : wk_State w = StateLeased -> wk_Fence w <> 0 /\ wk_LeaseID w <> "" /\ MatchString holderPattern (wk_LeaseHolder w) = true;
  wo_operation : optional_pattern taskOperationPattern (wk_OperationID w) = true;
  wo_worktree : optional_pattern taskWorktreePattern (wk_WorktreeID w) = true;
  wo_workspace : optional_pattern taskWorkspacePattern (wk_WorkspaceID w) = true;
  wo_runtime : optional_pattern taskRuntimePattern (wk_RuntimeID w) = true;
  wo_updated : wk_UpdatedAt w <> zero_time /\ tk_CreatedAt group <= wk_UpdatedAt w;
  wo_cleaned : wk_WorktreeCleaned w = true -> wk_WorktreeID w <> "" /\ terminal (wk_State w) = true /\
    (wk_State w = StateSucceeded -> evidence group w);
  wo_acceptance : forall r, wk_AcceptanceReceipt w = Some r -> validTaskAcceptanceReceipt group w r = true;
  wo_test : forall r, wk_TestAcceptanceReceipt w = Some r -> validTaskTestAcceptanceReceipt group w r = true;
  wo_objective : forall r, wk_ObjectiveReceipt w = Some r -> validTaskObjectiveReceipt group w r = true;
}.

Lemma from_option_true {A} (f : A -> bool) o : from_option f true o = true <-> forall x, o = Some x -> f x = true.
Proof. destruct o as [x|]; cbn; [|done]. split; [by intros ? ? [= <-]|]. auto. Qed.

Lemma needs_false {A B} (c b : bool) (a : option A) (r : option B) :
  c && needs a r && b = false <-> (c = true -> b = true -> is_Some a -> is_Some r).
Proof.
  unfold needs. destruct (bool_decide_reflect (is_Some a)) as [Ha|Ha], (bool_decide_reflect (is_Some r)) as [Hr|Hr], c, b; cbn; intuition done.
Qed.

Lemma valid_worker_iff group i w : valid_worker group i w = true <-> worker_ok group i w.
Proof.
  unfold valid_worker, IsZero, Before. rewrite !andb_true_iff, !from_option_true, !negb_true_iff, !needs_false, !orb_false_iff, !negb_false_iff,
    !bool_decide_eq_true, !bool_decide_eq_false, Z.ltb_ge, !andb_false_iff, !orb_false_iff, !negb_false_iff, !bool_decide_eq_true, !bool_decide_eq_false.
  split.
  - intros H. destruct_and!. split; try done; try tauto. intros Hc. assert (wk_WorktreeCleaned w <> false) by congruence. split_and!; [tauto|tauto|]. intros Hs. split; auto.
  - intros []. split_and!; try done; try tauto.
    + destruct (decide (wk_LeaseID w = "")); [by left|right]. tauto.
    + destruct (decide (wk_State w = StateLeased)); [right|by left]. tauto.
    + destruct (wk_WorktreeCleaned w); [right|by left]. tauto.
    + intros Hc Hs. by apply wo_cleaned0.
    + intros Hc Hs. by apply wo_cleaned0.
    + intros Hc Hs. by apply wo_cleaned0.
    + intros Hc Hs. by apply wo_cleaned0.
Qed.

(** ** A stored task, part by part *)
Lemma validTask_iff group ws : Z.of_nat (length ws) = tk_WorkerCount group ->
  validTask (with_workers group ws) = true <->
  group_valid group (wk_GoalHash <$> ws) (wk_GoalRef <$> ws) /\ integration_valid group (wk_ObjectiveReceipt <$> ws) /\
  forall i w, ws !! i = Some w -> worker_ok group (Z.of_nat i) w.
Proof.
  intros Hlen. unfold validTask, IsZero, Before.
  change (spec_of_task (with_workers group ws)) with (group_spec group (wk_GoalHash <$> ws) (wk_GoalRef <$> ws)).
  cbn [with_workers tk_ID tk_CreatedAt tk_UpdatedAt tk_Workers tk_IntegrationReceipt].
  rewrite !andb_true_iff, !negb_true_iff, bool_decide_eq_false, Z.ltb_ge, from_option_true, valid_workers_iff, is_ok_true.
  assert (Hw : (forall i w, ws !! i = Some w -> valid_worker (with_workers group ws) (0 + Z.of_nat i) w = true) <->
               (forall i w, ws !! i = Some w -> worker_ok group (Z.of_nat i) w)).
  { split; intros H i w Hi; specialize (H i w Hi); cbn [Z.add] in *.
    - apply valid_worker_iff. exact H.
    - by apply valid_worker_iff in H. }
  rewrite Hw. unfold integration_valid. split.
  - intros [[[[[[H1 H2] H3] H4] H5] H6] H7]. split_and!; [by split| |done]. intros r Hr. apply (validTaskIntegrationReceipt_iff group ws r). by apply H6.
  - intros ([H1 H2 H3] & H6 & H7). split_and!; try done.
    + destruct ws as [|w ws].
      { cbn in Hlen. unfold validateTaskSpec in H2. cbn [group_spec ts_WorkerCount] in H2. rewrite <- Hlen in H2.
        change (Z.of_nat 0 <? 1) with true in H2. rewrite !orb_true_r in H2. cbn [orb] in H2. done. }
      destruct (latest_ge (tk_UpdatedAt group) (w :: ws)) as [_ Hl]. specialize (Hl w ltac:(left)).
      pose proof (wo_updated _ _ _ (H7 0%nat w eq_refl)). lia.
    + unfold validateTaskSpec in H2. destruct (_ || _) eqn:E in H2; [done|]. apply orb_false_iff in E as [_ E]. by apply negb_false_iff in E.
    + intros r Hr. apply validTaskIntegrationReceipt_iff. by apply H6.
Qed.

(** The workers of a task, one row each. *)
Definition worker_reads (db : DB) (id : string) (i : Z) (w : TaskWorker) : Prop :=
  exists row, worker_at db id i = Some row /\ worker_of_row row = Ok w.
Definition workers_read (db : DB) (id : string) (ws : list TaskWorker) : Prop :=
  ordinals_of db id = Z.of_nat <$> seq 0 (length ws) /\ forall i w, ws !! i = Some w -> worker_reads db id (Z.of_nat i) w.

Record task_ok (db : DB) (id : string) (g : TaskGroupRow) (group : TaskGroup) (ws : list TaskWorker) : Prop := {
  to_group : group_of_row id g = Ok group;
  to_workers : workers_read db id ws;
  to_count : Z.of_nat (length ws) = tk_WorkerCount group;
  to_valid : group_valid group (wk_GoalHash <$> ws) (wk_GoalRef <$> ws);
  to_integration : integration_valid group (wk_ObjectiveReceipt <$> ws);
  to_worker : forall i w, ws !! i = Some w -> worker_ok group (Z.of_nat i) w;
}.

Lemma workers_read_rows db id ws : workers_read db id ws -> workers_of_rows (worker_rows db id) = Ok ws.
Proof.
  intros [Ho Hr]. apply workers_of_rows_ok. unfold worker_rows. rewrite Ho. clear Ho.
  assert (H : forall k vs, (forall i w, vs !! i = Some w -> worker_reads db id (Z.of_nat (k + i)) w) ->
    Forall2 (fun row w => worker_of_row row = Ok w) (omap (worker_at db id) (Z.of_nat <$> seq k (length vs))) vs).
  { intros k vs. revert k. induction vs as [|v vs IH]; intros k Hv; [constructor|]. cbn [length seq fmap list_fmap omap list_omap].
    destruct (Hv 0%nat v eq_refl) as (row & Hrow & Hw). rewrite Nat.add_0_r in Hrow. rewrite Hrow. constructor; [done|].
    apply (IH (S k)). intros i w Hi. replace (S k + i)%nat with (k + S i)%nat by lia. by apply Hv. }
  by apply (H 0%nat).
Qed.

Lemma task_ok_reads db id g group ws : db_task_groups db !! id = Some g -> task_ok db id g group ws ->
  task_of db id = Ok (Some (with_workers group ws)).
Proof.
  intros Hg []. unfold task_of. rewrite Hg, to_group0. cbn [rbind]. rewrite (workers_read_rows _ _ _ to_workers0). cbn [rbind].
  unfold finish_task. rewrite to_count0, bool_decide_true by done. cbn [negb orb reject_if rbind].
  assert (validTask (with_workers group ws) = true) as ->; [|done]. by apply validTask_iff.
Qed.

(** Read back: what [task_of] returns determines group and workers. *)
Lemma task_of_some db id t : task_of db id = Ok (Some t) ->
  exists g group ws, db_task_groups db !! id = Some g /\ group_of_row id g = Ok group /\ t = with_workers group ws /\
    workers_of_rows (worker_rows db id) = Ok ws /\ Z.of_nat (length ws) = tk_WorkerCount group /\ validTask t = true.
Proof.
  unfold task_of, finish_task. intros H. destruct (db_task_groups db !! id) as [g|]; [|done]. destruct (group_of_row id g) as [group|] eqn:Eg; [|done].
  cbn [rbind] in H. destruct (workers_of_rows _) as [ws|] eqn:Ew; [|done]. cbn [rbind orb] in H.
  destruct (bool_decide_reflect (Z.of_nat (length ws) = tk_WorkerCount group)); [|done]. cbn [negb reject_if rbind] in H.
  destruct (validTask (with_workers group ws)) eqn:Ev; [|done]. injection H as <-. by exists g, group, ws.
Qed.

(** ** A valid specification, part by part *)
Record spec_ok (spec : TaskSpec) : Prop := {
  so_key : Len (ts_IdempotencyKey spec) <= 118 /\ MatchString idempotencyPattern (ts_IdempotencyKey spec) = true;
  so_project : MatchString taskProjectPattern (ts_Project spec) = true;
  so_target : MatchString taskTargetPattern (ts_Target spec) = true;
  so_base : MatchString taskCommitPattern (ts_BaseCommit spec) = true;
  so_goal : MatchString payloadHashPattern (ts_GoalHash spec) = true;
  so_pool : MatchString poolPattern (ts_Pool spec) = true;
  so_profile : MatchString profilePattern (ts_Profile spec) = true;
  so_count : 1 <= ts_WorkerCount spec <= MaxTaskWorkers;
  so_timeout : 1 <= ts_ExecutionTimeoutSeconds spec <= 86400;
  so_hashes : Z.of_nat (length (ts_WorkerGoalHashes spec)) = ts_WorkerCount spec;
  so_refs : Z.of_nat (length (ts_WorkerGoalRefs spec)) = ts_WorkerCount spec;
  so_acceptance : ValidateTaskAcceptanceContract (ts_AcceptanceContract spec) = Ok tt;
  so_test : ValidateTaskTestAcceptanceContract (ts_TestAcceptanceContract spec) = Ok tt;
  so_one : ts_AcceptanceContract spec = None \/ ts_TestAcceptanceContract spec = None;
  so_objective : ValidateTaskObjectiveContract (ts_ObjectiveContract spec) = Ok tt;
  so_needs : is_Some (ts_ObjectiveContract spec) -> is_Some (ts_TestAcceptanceContract spec) /\ ts_AcceptanceContract spec = None;
  so_integration : validTaskIntegrationSpec spec = true;
  so_goals : forall i hash ref, ts_WorkerGoalHashes spec !! i = Some hash -> ts_WorkerGoalRefs spec !! i = Some ref ->
    MatchString payloadHashPattern hash = true /\ MatchString taskGoalRefPattern ref = true;
}.

Lemma both_false {A B} (x : option A) (y : option B) : bool_decide (is_Some x) && bool_decide (is_Some y) = false <-> x = None \/ y = None.
Proof. destruct x, y; cbn; naive_solver. Qed.

Lemma needs_other_false {A B C} (x : option A) (y : option B) (z : option C) :
  bool_decide (is_Some x) && (negb (bool_decide (is_Some y)) || bool_decide (is_Some z)) = false <-> (is_Some x -> is_Some y /\ z = None).
Proof.
  destruct x, y, z; cbn; split; try done; try (by intros ? []); intros H'.
  - by destruct (H' (mk_is_Some _ _ eq_refl)).
  - by destruct (H' (mk_is_Some _ _ eq_refl)) as [[] _].
  - by destruct (H' (mk_is_Some _ _ eq_refl)) as [[] _].
Qed.

Lemma goals_ok hashes refs :
  forallb (fun e => MatchString payloadHashPattern e.1 && MatchString taskGoalRefPattern e.2) (zip hashes refs) = true <->
  forall i hash ref, hashes !! i = Some hash -> refs !! i = Some ref -> MatchString payloadHashPattern hash = true /\ MatchString taskGoalRefPattern ref = true.
Proof.
  rewrite forallb_forall. setoid_rewrite andb_true_iff. split.
  - intros Hall i hash ref Hh Hr. apply (Hall (hash, ref)), list_elem_of_In, list_elem_of_lookup_2 with i. by apply lookup_zip_Some.
  - intros Hall [hash ref] [i [Hh Hr]%lookup_zip_Some]%list_elem_of_In%list_elem_of_lookup. by apply (Hall i).
Qed.

Lemma validateTaskSpec_ok spec : validateTaskSpec spec = Ok tt <-> spec_ok spec.
Proof.
  unfold validateTaskSpec.
  match goal with |- (if ?c then _ else reject_if ?d _) = _ <-> _ => transitivity (c = false /\ d = false);
    [destruct c, d; cbn; naive_solver|] end.
  rewrite !orb_false_iff, !negb_false_iff, goals_ok, both_false, needs_other_false, !is_ok_true, !Z.ltb_ge, !bool_decide_eq_true.
  split.
  - intros H'. destruct_and!. split; try done; lia.
  - intros []. destruct_and!. split_and!; try done; lia.
Qed.
