(* ===== verification/TaskSteps.v ===== *)
(** * What happens to stored tasks

    Every change an operation makes to the tables is a [task_step]: jobs move along
    their state machine, a worker is bound while it is leased, a receipt is recorded
    for a succeeded worker, a cleanup is marked, a task is created. The invariant
    [tasks_inv] says that every stored task reads back valid and that the sources of a
    live integration are still there; every step keeps it. *)

From S2P Require Import Prelude GoStrings GoRegexp GoLanguage Effects GoJson GoTime GoReflect GoRecord PolicyScan WorkqueueTypes Admission Fairness WorkqueueRows WorkqueueStore WorkqueueInv WorkqueueOps WorkqueueEnqueue WorkqueueSystem TaskTypes TaskRecord TaskRules TaskRoundtrip TaskRows TaskStore TaskFacts.

Section TaskSteps.
Context `{SystemSummaries} `{SqlScan}.

(** ** Steps *)
(** Columns that are set once. *)
Inductive binds (w : TaskWorkerRow) : TaskWorkerRow -> Prop :=
| binds_operation operation :
    tw_operation_id w = "" -> MatchString taskOperationPattern operation = true -> binds w (set_operation operation w)
| binds_worktree worktree workspace runtime :
    tw_worktree_id w = "" -> MatchString taskWorktreePattern worktree = true -> MatchString taskWorkspacePattern workspace = true ->
    optional_pattern taskRuntimePattern runtime = true -> binds w (set_binding worktree workspace runtime w)
| binds_runtime runtime :
    tw_worktree_id w <> "" -> tw_runtime_id w = "" -> MatchString taskRuntimePattern runtime = true ->
    binds w (set_binding (tw_worktree_id w) (tw_workspace_id w) runtime w).

Inductive records (now : time) (t : TaskGroup) (worker : TaskWorker) (w : TaskWorkerRow) : TaskWorkerRow -> Prop :=
| records_acceptance r :
    wk_AcceptanceReceipt worker = None -> validTaskAcceptanceReceipt t worker r = true -> ar_RecordedAt r = now ->
    records now t worker w (set_acceptance (Marshal c_acceptance_receipt r) w)
| records_test r :
    wk_TestAcceptanceReceipt worker = None -> validTaskTestAcceptanceReceipt t worker r = true -> tr_RecordedAt r = now ->
    records now t worker w (set_test (Marshal c_test_receipt r) w)
| records_objective r :
    wk_ObjectiveReceipt worker = None -> validTaskObjectiveReceipt t worker r = true -> or_RecordedAt r = now ->
    records now t worker w (set_objective (Marshal c_objective_receipt r) w).

(** The row that [CreateTask] stores. *)
Definition stored_group (spec : TaskSpec) (now : Z) : TaskGroupRow :=
  match ts_IntegrationContract spec with
  | None => group_row spec now
  | Some c => set_integration (Marshal c_integration_contract c) (Marshal (c_slice c_pin) (ts_IntegrationPins spec)) (ic_SourceTaskID c)
                (group_row spec now)
  end.

Inductive workers_created (spec : TaskSpec) (id : string) (now : Z) : Z -> list (string * string) -> DB -> DB -> Prop :=
| created_nil i db : workers_created spec id now i [] db db
| created_cons i hash ref goals job db db1 db2 db3 :
    MatchString jobIDPattern job = true -> MatchString idempotencyPattern (worker_key spec i) = true ->
    sql_insert_job job (new_row (worker_ident spec i hash now) StateQueued ReasonNone None None) db = Some db1 ->
    sql_insert_worker id i (new_worker job ref) db1 = Some db2 ->
    workers_created spec id now (i + 1) goals db2 db3 ->
    workers_created spec id now i ((hash, ref) :: goals) db db3.

(** The source of an integration, when it is created and when it is accepted. *)
Definition sources_ok (db : DB) (task : TaskGroup) : Prop :=
  forall c, tk_IntegrationContract task = Some c ->
    exists source, task_of db (ic_SourceTaskID c) = Ok (Some source) /\ ValidateTaskIntegrationSourceBindings task source = Ok tt.

Inductive task_step (now : Z) (db : DB) : DB -> Prop :=
| step_jobs db' :
    task_tables db' = task_tables db -> jobs_inv now db' ->
    (forall k w r, db_task_workers db !! k = Some w -> db_jobs db !! tw_job_id w = Some r ->
       exists r', db_jobs db' !! tw_job_id w = Some r' /\ rtc (row_step now) r r') ->
    task_step now db db'
| step_goal_unavailable job r :
    db_jobs db !! job = Some r -> r_state r = StateQueued \/ r_state r = StateBlocked ->
    task_step now db (with_jobs (<[job := set_goal_unavailable now r]> (db_jobs db)) db)
| step_bind id i w r w' :
    db_task_workers db !! (id, i) = Some w -> db_jobs db !! tw_job_id w = Some r -> r_state r = StateLeased -> binds w w' ->
    task_step now db (with_workers_table (<[(id, i) := w']> (db_task_workers db)) db)
| step_record id i t worker w w' :
    task_of db id = Ok (Some t) -> 0 <= i -> tk_Workers t !! Z.to_nat i = Some worker -> wk_WorktreeCleaned worker = false ->
    db_task_workers db !! (id, i) = Some w -> records now t worker w w' ->
    task_step now db (with_workers_table (<[(id, i) := w']> (db_task_workers db)) db)
| step_clean id i t worker w :
    task_of db id = Ok (Some t) -> 0 <= i -> tk_Workers t !! Z.to_nat i = Some worker -> wk_WorktreeCleaned worker = false ->
    db_task_workers db !! (id, i) = Some w -> wk_WorktreeID worker <> "" -> terminal (wk_State worker) = true ->
    (wk_State worker = StateSucceeded -> evidence t worker) -> requiring_integrations db id = [] ->
    task_step now db (with_workers_table (<[(id, i) := set_cleaned w]> (db_task_workers db)) db)
| step_touch id g :
    db_task_groups db !! id = Some g -> task_step now db (with_groups (<[id := touch now g]> (db_task_groups db)) db)
| step_integrate id g t r :
    db_task_groups db !! id = Some g -> task_of db id = Ok (Some t) -> tk_IntegrationReceipt t = None ->
    validTaskIntegrationReceipt t r = true -> ir_RecordedAt r = now -> sources_ok db t ->
    task_step now db (with_groups (<[id := set_integration_receipt (Marshal c_integration_receipt r) now g]> (db_task_groups db)) db)
| step_create spec id db1 db' :
    validateTaskSpec spec = Ok tt -> MatchString taskIDPattern id = true -> sources_ok db (pending_task spec) ->
    sql_insert_group id (stored_group spec now) db = Some db1 ->
    workers_created spec id now 0 (zip (ts_WorkerGoalHashes spec) (ts_WorkerGoalRefs spec)) db1 db' ->
    task_step now db db'.

(** ** The invariant *)
(** A pin still names the worktree of a succeeded worker that is not cleaned up. *)
Definition pin_held (db : DB) (p : TaskIntegrationSourcePin) : Prop :=
  exists w r, db_task_workers db !! (pin_TaskID p, pin_Ordinal p) = Some w /\ db_jobs db !! pin_JobID p = Some r /\
    tw_job_id w = pin_JobID p /\ tw_worktree_id w = pin_WorktreeID p /\ tw_workspace_id w = pin_WorkspaceID p /\
    tw_runtime_id w = pin_RuntimeID p /\ tw_worktree_cleaned w = false /\
    r_state r = StateSucceeded /\ null_string (r_lease_id r) = pin_LeaseID p /\ r_fence r = pin_Fence p.

(** A worker of an integration whose job may still succeed, or has, and that is not
    cleaned up. *)
Definition live_worker (db : DB) (k : string * Z) : Prop :=
  exists w r, db_task_workers db !! k = Some w /\ db_jobs db !! tw_job_id w = Some r /\
    r_state r <> StateFailed /\ r_state r <> StateCancelled /\ tw_worktree_cleaned w = false.

Definition pins_held (db : DB) : Prop :=
  forall id i g group p, db_task_groups db !! id = Some g -> group_of_row id g = Ok group -> live_worker db (id, i) ->
    p ∈ range (tk_IntegrationPins group) -> pin_held db p.

Record tasks_inv (now : Z) (db : DB) : Prop := {
  tv_task : forall id g, db_task_groups db !! id = Some g -> exists group ws, task_ok db id g group ws /\ tk_CreatedAt group <= now;
  tv_fk : forall id i w, db_task_workers db !! (id, i) = Some w -> is_Some (db_task_groups db !! id);
  tv_jobs : forall k k' w w', db_task_workers db !! k = Some w -> db_task_workers db !! k' = Some w' -> tw_job_id w = tw_job_id w' -> k = k';
  tv_keys : forall id id' g g', db_task_groups db !! id = Some g -> db_task_groups db !! id' = Some g' ->
    tg_idempotency_key g = tg_idempotency_key g' -> id = id';
  tv_pins : pins_held db;
}.

Lemma tasks_inv_mono now now' db : now <= now' -> tasks_inv now db -> tasks_inv now' db.
Proof.
  intros Hle []. split; auto. intros id g Hg. destruct (tv_task0 id g Hg) as (group & ws & Hok & Hc). exists group, ws. split; [done|lia].
Qed.

(** ** Reading a task back *)
Lemma tasks_inv_read now db id t : tasks_inv now db -> task_of db id = Ok (Some t) ->
  exists g group ws, db_task_groups db !! id = Some g /\ task_ok db id g group ws /\ tk_CreatedAt group <= now /\ t = with_workers group ws.
Proof.
  intros Hi Ht. pose proof (task_of_some db id t Ht) as (g & _ & _ & Hg & _). destruct (tv_task _ _ Hi id g Hg) as (group & ws & Hok & Hc).
  exists g, group, ws. split_and!; [done..|]. pose proof (task_ok_reads db id g group ws Hg Hok) as E. rewrite E in Ht. by injection Ht as <-.
Qed.

Lemma ordinals_spec db id i : i ∈ ordinals_of db id <-> is_Some (db_task_workers db !! (id, i)).
Proof.
  unfold ordinals_of. rewrite (merge_sort_Permutation Z.le), list_elem_of_fmap. split.
  - intros ([x j] & -> & Hin). rewrite elem_of_elements, elem_of_filter, elem_of_dom in Hin. destruct Hin as [Hx Hs]. cbn in *. by subst.
  - intros Hs. exists (id, i). split; [done|]. rewrite elem_of_elements, elem_of_filter, elem_of_dom. done.
Qed.

(** The row of a worker is at its ordinal. *)
Lemma task_worker_row db id g group ws i w : task_ok db id g group ws -> db_task_workers db !! (id, i) = Some w ->
  exists r v a t o, db_jobs db !! tw_job_id w = Some r /\ 0 <= i /\ ws !! Z.to_nat i = Some v /\ receipts_of w a t o /\ 0 <= r_fence r /\
    v = worker_view {| wr_ordinal := i; wr_worker := w; wr_job := r |} a t o.
Proof.
  intros Hok Hw. assert (Hi : i ∈ ordinals_of db id) by (apply ordinals_spec; eauto). destruct (to_workers _ _ _ _ _ Hok) as [Ho Hr].
  rewrite Ho in Hi. apply list_elem_of_fmap in Hi as (n & -> & Hn%elem_of_seq). destruct (lookup_lt_is_Some_2 ws n) as [v Hv]; [lia|].
  destruct (Hr n v Hv) as (row & Hrow & Hread). unfold worker_at in Hrow. rewrite Hw in Hrow. cbn in Hrow.
  destruct (db_jobs db !! tw_job_id w) as [r|] eqn:Er; [|done]. injection Hrow as <-.
  apply worker_of_row_ok in Hread as [Hf (a & t & o & Hrec & ->)]. exists r, (worker_view {| wr_ordinal := Z.of_nat n; wr_worker := w; wr_job := r |} a t o), a, t, o.
  rewrite Nat2Z.id. cbn in *. split_and!; try done. lia.
Qed.
End TaskSteps.
