(* ===== verification/TaskInv.v ===== *)
(** * Every step keeps the tasks valid

    The invariant [tasks_inv] along the steps of [TaskSteps]. *)

From S2P Require Import Prelude GoStrings GoRegexp GoLanguage Effects GoJson GoTime GoReflect GoRecord PolicyScan WorkqueueTypes Admission Fairness WorkqueueRows WorkqueueStore WorkqueueInv WorkqueueOps WorkqueueEnqueue WorkqueueSystem TaskTypes TaskRecord TaskRules TaskRoundtrip TaskRows TaskStore TaskFacts TaskSteps.

Section TaskInv.
Context `{SystemSummaries} `{SqlScan}.

(** ** Workers that follow their rows *)
Lemma row_worker_ok now group i w r a t o :
  row_inv now (tw_job_id w) r -> tk_CreatedAt group <= r_updated_at r ->
  optional_pattern taskOperationPattern (tw_operation_id w) = true -> optional_pattern taskWorktreePattern (tw_worktree_id w) = true ->
  optional_pattern taskWorkspacePattern (tw_workspace_id w) = true -> optional_pattern taskRuntimePattern (tw_runtime_id w) = true ->
  let v := worker_view {| wr_ordinal := i; wr_worker := w; wr_job := r |} a t o in
  (wk_WorktreeCleaned v = true -> wk_WorktreeID v <> "" /\ terminal (wk_State v) = true /\ (wk_State v = StateSucceeded -> evidence group v)) ->
  (forall x, a = Some x -> validTaskAcceptanceReceipt group v x = true) -> (forall x, t = Some x -> validTaskTestAcceptanceReceipt group v x = true) ->
  (forall x, o = Some x -> validTaskObjectiveReceipt group v x = true) ->
  worker_ok group i v.
Proof.
  intros Hrow Hc Ho Hwt Hws Hrt v Hcl Ha Ht Hob. pose proof (row_fence_id now _ r Hrow) as [Hwrap Hf].
  apply row_inv_iff in Hrow as (Hfence & _ & [Hj _] & _ & Hupd & Hz & Hs & _).
  assert (Hlease : (no_lease r \/ has_lease r) /\ (r_state r = StateLeased -> has_lease r) /\ validState (r_state r) = true).
  { unfold state_ok in Hs. destruct (r_state r); cbn; intuition done. }
  destruct Hlease as (Hl & Hld & Hst). split; try done; cbn [v worker_view wk_LeaseID wk_Fence wk_State wk_LeaseHolder wk_UpdatedAt wr_job]; try done.
  - intros Hne. destruct Hl as [(Hn & _)|(Hm & _ & _ & Hw)]; [by rewrite Hn in Hne|]. rewrite Hwrap in Hw. done.
  - intros Hleased. destruct (Hld Hleased) as (Hm & Hh & _ & Hw). rewrite Hwrap in Hw. split_and!; [done| |done]. by apply leaseID_nonempty.
Qed.

(** A worker that has not succeeded has no receipts; one that is not finished is not cleaned. *)
Lemma no_receipts group i v : worker_ok group i v -> wk_State v <> StateSucceeded ->
  wk_AcceptanceReceipt v = None /\ wk_TestAcceptanceReceipt v = None /\ wk_ObjectiveReceipt v = None.
Proof.
  intros Hok Hs. split_and!.
  - destruct (wk_AcceptanceReceipt v) as [x|] eqn:E; [|done]. exfalso. apply (wo_acceptance _ _ _ Hok) in E.
    unfold validTaskAcceptanceReceipt in E. destruct (tk_AcceptanceContract group); [|done]. breflect. done.
  - destruct (wk_TestAcceptanceReceipt v) as [x|] eqn:E; [|done]. exfalso. apply (wo_test _ _ _ Hok) in E.
    unfold validTaskTestAcceptanceReceipt in E. destruct (tk_TestAcceptanceContract group); [|done]. breflect. done.
  - destruct (wk_ObjectiveReceipt v) as [x|] eqn:E; [|done]. exfalso. apply (wo_objective _ _ _ Hok) in E.
    unfold validTaskObjectiveReceipt in E. breflect. done.
Qed.

Lemma not_cleaned group i v : worker_ok group i v -> terminal (wk_State v) = false -> wk_WorktreeCleaned v = false.
Proof. intros Hok Ht. destruct (wk_WorktreeCleaned v) eqn:E; [|done]. apply (wo_cleaned _ _ _ Hok) in E. naive_solver congruence. Qed.

(** ** A task when rows of its workers change *)
Lemma ordinals_same db db' id :
  (forall i, is_Some (db_task_workers db' !! (id, i)) <-> is_Some (db_task_workers db !! (id, i))) -> ordinals_of db' id = ordinals_of db id.
Proof.
  intros Hd. unfold ordinals_of. do 3 f_equal. apply set_eq. intros [x i]. rewrite !elem_of_filter, !elem_of_dom. cbn. split; intros [-> ?]; (split; [done|]); by apply Hd.
Qed.

Lemma list_choice {A B} (P : nat -> A -> B -> Prop) (l : list A) : (forall i x, l !! i = Some x -> exists y, P i x y) ->
  exists l', length l' = length l /\ forall i x y, l !! i = Some x -> l' !! i = Some y -> P i x y.
Proof.
  revert P. induction l as [|x l IH]; intros P HP; [by exists []|]. destruct (HP 0%nat x eq_refl) as [y Hy].
  destruct (IH (fun i => P (S i))) as (l' & Hlen & Hl'); [intros i z Hz; by apply HP|]. exists (y :: l'). split; [cbn; lia|].
  intros [|i] x' y' Hx Hy'; [injection Hx as <-; by injection Hy' as <-|by apply Hl'].
Qed.

(** What stays of a worker when its rows change. *)
Record follows (v v' : TaskWorker) : Prop := {
  fo_hash : wk_GoalHash v' = wk_GoalHash v;
  fo_ref : wk_GoalRef v' = wk_GoalRef v;
  fo_objective : forall o, wk_ObjectiveReceipt v = Some o -> wk_ObjectiveReceipt v' = Some o;
}.

Lemma follows_refl v : follows v v.
Proof. by split. Qed.

Lemma task_ok_next db db' id g group ws : task_ok db id g group ws ->
  (forall i, is_Some (db_task_workers db' !! (id, i)) <-> is_Some (db_task_workers db !! (id, i))) ->
  (forall i v, ws !! i = Some v -> exists v', worker_reads db' id (Z.of_nat i) v' /\ worker_ok group (Z.of_nat i) v' /\ follows v v') ->
  exists ws', task_ok db' id g group ws'.
Proof.
  intros Hok Hd Hnext. destruct (list_choice _ ws Hnext) as (ws' & Hlen & Hws'). exists ws'.
  assert (Hmap : forall B (f : TaskWorker -> B), (forall v v', follows v v' -> f v' = f v) -> f <$> ws' = f <$> ws).
  { intros B f Hf. apply list_eq. intros i. rewrite !list_lookup_fmap. destruct (ws !! i) as [v|] eqn:Ev.
    - destruct (lookup_lt_is_Some_2 ws' i) as [v' Ev']; [rewrite Hlen; by eapply lookup_lt_Some|]. rewrite Ev'. cbn. f_equal. by apply Hf, (Hws' i v v').
    - apply lookup_ge_None in Ev. rewrite (proj2 (lookup_ge_None ws' i)) by lia. done. }
  assert (Hall : forall i v', ws' !! i = Some v' -> exists v, ws !! i = Some v /\ worker_reads db' id (Z.of_nat i) v' /\ worker_ok group (Z.of_nat i) v' /\ follows v v').
  { intros i v' Hv'. destruct (lookup_lt_is_Some_2 ws i) as [v Ev]; [rewrite <- Hlen; by eapply lookup_lt_Some|]. exists v. split; [done|]. by apply (Hws' i v v'). }
  destruct Hok as [Hg [Ho Hr] Hcnt Hval Hint Hwk]. split; [done| |by rewrite Hlen| | |].
  - split; [by rewrite (ordinals_same db db' id), Hlen|]. intros i v' Hv'. by destruct (Hall i v' Hv') as (_ & _ & ? & _).
  - by rewrite (Hmap _ wk_GoalHash), (Hmap _ wk_GoalRef) by (by intros ? ? []).
  - intros x Hx. destruct (Hint x Hx) as (c & o & Hc & Hobj & Hrest). exists c, o. split_and!; try done; try tauto.
    destruct ws as [|v [|]]; try done. injection Hobj as Hobj. destruct ws' as [|v' [|]]; try done. cbn. f_equal.
    destruct (Hall 0%nat v' eq_refl) as (v0 & [= <-] & _ & _ & []). by apply fo_objective0.
  - intros i v' Hv'. by destruct (Hall i v' Hv') as (_ & _ & _ & ? & _).
Qed.

(** ** Jobs move *)
Definition moved (now : Z) (r r' : JobRow) : Prop :=
  r' = r \/ terminal (r_state r) = false /\ r_updated_at r' = now /\ r_ident r' = r_ident r.

Lemma steps_moved now r r' : rtc (row_step now) r r' -> moved now r r'.
Proof.
  intros Hr. destruct Hr as [|x y z Hxy Hyz]; [by left|]. right. pose proof (row_step_active _ _ _ Hxy) as Ha. split; [done|].
  assert (Hlast : exists y', row_step now y' z).
  { clear Ha. revert x Hxy. induction Hyz as [|y1 y2 y3 Hy _ IH]; intros x0 Hxy; [by exists x0|by eapply IH]. }
  destruct Hlast as [y' Hy']. split; [by destruct Hy'|]. eapply (row_step_rtc_ident now). by eapply rtc_l.
Qed.

Lemma moved_ident now r r' : moved now r r' -> r_ident r' = r_ident r.
Proof. by intros [->|(_ & _ & ?)]. Qed.

(** A row read again after its job moved. *)
Lemma worker_moved now db db' id i w r r' group v :
  db_task_workers db !! (id, i) = Some w -> db_task_workers db' !! (id, i) = Some w -> db_jobs db !! tw_job_id w = Some r ->
  db_jobs db' !! tw_job_id w = Some r' -> row_inv now (tw_job_id w) r' -> moved now r r' -> tk_CreatedAt group <= now ->
  worker_reads db id i v -> worker_ok group i v -> exists v', worker_reads db' id i v' /\ worker_ok group i v' /\ follows v v'.
Proof.
  intros Hw Hw' Hr Hr' Hrow Hm Hc (row & Hrow' & Hread) Hok. unfold worker_at in Hrow'. rewrite Hw in Hrow'. cbn in Hrow'. rewrite Hr in Hrow'.
  injection Hrow' as <-. apply worker_of_row_ok in Hread as [Hf (a & t & o & Hrec & ->)]. pose proof (row_fence_id now _ r' Hrow) as [_ Hf'].
  set (row' := {| wr_ordinal := i; wr_worker := w; wr_job := r' |}).
  assert (Hat : worker_at db' id i = Some row') by (unfold worker_at; rewrite Hw'; cbn; by rewrite Hr').
  exists (worker_view row' a t o). split_and!.
  - exists row'. split; [done|]. apply worker_of_row_ok. split; [cbn; lia|]. by exists a, t, o.
  - destruct Hm as [->|(Hnt & Hu & Hi)]; [done|].
    pose proof (no_receipts _ _ _ Hok ltac:(cbn; intros E; by rewrite E in Hnt)) as Hno. cbn in Hno. destruct Hno as (-> & -> & ->).
    pose proof (not_cleaned _ _ _ Hok Hnt) as Hcl. cbn in Hcl. destruct Hok.
    eapply row_worker_ok; try done; [by rewrite Hu|]. cbn. by rewrite Hcl.
  - split; cbn; [by rewrite (moved_ident _ _ _ Hm)|done|done].
Qed.

Lemma pin_held_moved now db db' p : task_tables db' = task_tables db -> pin_held db p ->
  (forall k w r, db_task_workers db !! k = Some w -> db_jobs db !! tw_job_id w = Some r -> exists r', db_jobs db' !! tw_job_id w = Some r' /\ moved now r r') ->
  pin_held db' p.
Proof.
  intros [= Ht _] (w & r & Hw & Hr & Ej & Hrest) Hm. rewrite <- Ej in Hr. destruct (Hm _ _ _ Hw Hr) as (r' & Hr' & [->|(Hnt & _)]).
  - exists w, r. rewrite Ht. rewrite Ej in Hr'. split_and!; try done; tauto.
  - destruct Hrest as (_ & _ & _ & _ & E & _). by rewrite E in Hnt.
Qed.

Lemma tasks_inv_jobs now db db' :
  tasks_inv now db -> task_tables db' = task_tables db -> jobs_inv now db' ->
  (forall k w r, db_task_workers db !! k = Some w -> db_jobs db !! tw_job_id w = Some r -> exists r', db_jobs db' !! tw_job_id w = Some r' /\ moved now r r') ->
  tasks_inv now db'.
Proof.
  intros Hi Ht Hj Hm. pose proof Ht as [= Hw Hg]. destruct Hi as [Htask Hfk Hjobs Hkeys Hpins]. split; rewrite ?Hw, ?Hg; try done.
  - intros id g Hid. destruct (Htask id g Hid) as (group & ws & Hok & Hc). exists group.
    destruct (task_ok_next db db' id g group ws Hok) as [ws' Hok']; [by rewrite Hw| |by exists ws'].
    intros i v Hv. destruct (proj2 (to_workers _ _ _ _ _ Hok) i v Hv) as (row & Hrow & Hread).
    destruct (db_task_workers db !! (id, Z.of_nat i)) as [w|] eqn:Ew; [|unfold worker_at in Hrow; by rewrite Ew in Hrow].
    destruct (db_jobs db !! tw_job_id w) as [r|] eqn:Er; [|unfold worker_at in Hrow; rewrite Ew in Hrow; cbn in Hrow; by rewrite Er in Hrow].
    destruct (Hm _ _ _ Ew Er) as (r' & Hr' & Hmv).
    eapply (worker_moved now db db' id (Z.of_nat i) w r r' group v); try done; [by rewrite Hw|by apply Hj|by exists row|by apply (to_worker _ _ _ _ _ Hok)].
  - intros id i g group p Hid Hgr (w & r' & Hwk & Hr' & Hn1 & Hn2 & Hcl) Hp. eapply pin_held_moved; [exact Ht| |exact Hm].
    rewrite Hg in Hid. rewrite Hw in Hwk. eapply (Hpins id i); [exact Hid|exact Hgr| |exact Hp].
    destruct (Htask id g Hid) as (group' & ws & Hok & _). destruct (task_worker_row _ _ _ _ _ _ _ Hok Hwk) as (r & v & _ & _ & _ & Hr & _).
    exists w, r. destruct (Hm _ _ _ Hwk Hr) as (r1 & Hr1 & Hmv). rewrite Hr' in Hr1. injection Hr1 as <-.
    split_and!; try done; intros E; destruct Hmv as [->|(Hnt & _)]; try done; by rewrite E in Hnt.
Qed.

(** ** A row of [task_workers] changes *)
Section Row.
Context (now : Z) (db : DB) (id : string) (i : Z) (w : TaskWorkerRow) (r : JobRow) (w' : TaskWorkerRow).
Hypotheses (Hinv : tasks_inv now db) (Hw : db_task_workers db !! (id, i) = Some w) (Hr : db_jobs db !! tw_job_id w = Some r).
Hypotheses (Hjob : tw_job_id w' = tw_job_id w) (Href : tw_goal_ref w' = tw_goal_ref w).
Let db' := with_workers_table (<[(id, i) := w']> (db_task_workers db)) db.

Lemma row_lookup k : db_task_workers db' !! k = if decide ((id, i) = k) then Some w' else db_task_workers db !! k.
Proof. unfold db'. cbn. rewrite lookup_insert. done. Qed.

Lemma row_dom k : is_Some (db_task_workers db' !! k) <-> is_Some (db_task_workers db !! k).
Proof. rewrite row_lookup. case_decide as E; [|done]. subst k. rewrite Hw. by split. Qed.

(** The invariant holds again when the worker reads back valid and no pin is lost. *)
Lemma tasks_inv_row :
  (forall g group ws v a t o, task_ok db id g group ws -> tk_CreatedAt group <= now -> ws !! Z.to_nat i = Some v -> receipts_of w a t o ->
     v = worker_view {| wr_ordinal := i; wr_worker := w; wr_job := r |} a t o -> db_task_groups db !! id = Some g ->
     exists a' t' o', receipts_of w' a' t' o' /\ worker_ok group i (worker_view {| wr_ordinal := i; wr_worker := w'; wr_job := r |} a' t' o') /\
       (forall x, o = Some x -> o' = Some x)) ->
  (forall id' i' g group p, db_task_groups db !! id' = Some g -> group_of_row id' g = Ok group -> live_worker db (id', i') ->
     p ∈ range (tk_IntegrationPins group) -> pin_held db p -> pin_TaskID p = id -> pin_Ordinal p = i -> pin_held db' p) ->
  (tw_worktree_cleaned w' = false -> tw_worktree_cleaned w = false) ->
  tasks_inv now db'.
Proof.
  intros Hread Hpin Hcl. pose proof Hinv as [Htask Hfk Hjobs Hkeys Hpins]. split.
  - intros id0 g Hid. destruct (Htask id0 g Hid) as (group & ws & Hok & Hc). exists group.
    destruct (task_ok_next db db' id0 g group ws Hok) as [ws' Hok']; [intros j; apply row_dom| |by exists ws'].
    intros j v Hv. destruct (decide ((id, i) = (id0, Z.of_nat j))) as [[= <- Ei]|Hne].
    + destruct (task_worker_row _ _ _ _ _ _ _ Hok Hw) as (r0 & v0 & a & t & o & Hr0 & Hi & Hv0 & Hrec & Hf & ->).
      rewrite Hr in Hr0. injection Hr0 as <-. destruct (Hread g group ws _ a t o Hok Hc Hv0 Hrec eq_refl Hid) as (a' & t' & o' & Hrec' & Hwok & Hobj).
      assert (v = worker_view {| wr_ordinal := i; wr_worker := w; wr_job := r |} a t o) as ->.
      { assert (Z.to_nat i = j) as E by lia. rewrite E in Hv0. congruence. }
      rewrite <- Ei. eexists. split_and!; [|exact Hwok|by split].
      eexists. split; [unfold worker_at; rewrite row_lookup, decide_True by done; cbn; by rewrite Hjob, Hr|].
      apply worker_of_row_ok. split; [done|]. by exists a', t', o'.
    + exists v. split_and!; [|by apply (to_worker _ _ _ _ _ Hok)|apply follows_refl].
      destruct (proj2 (to_workers _ _ _ _ _ Hok) j v Hv) as (row & Hrow & Hrd). exists row. split; [|done].
      unfold worker_at in *. rewrite row_lookup, decide_False by done. exact Hrow.
  - intros id0 j x Hx. destruct (proj1 (row_dom (id0, j))) as [y Hy]; [by rewrite Hx|]. by apply (Hfk id0 j y).
  - assert (Hlk : forall k x, db_task_workers db' !! k = Some x -> exists y, db_task_workers db !! k = Some y /\ tw_job_id x = tw_job_id y).
    { intros k x Hx. rewrite row_lookup in Hx. case_decide as E; [|by exists x]. subst k. injection Hx as <-. by exists w. }
    intros k k' x x' (y & Hy & Ey)%Hlk (y' & Hy' & Ey')%Hlk E. apply (Hjobs k k' y y'); congruence.
  - done.
  - intros id0 j g group p Hid Hgr Hlive Hp.
    assert (Hlive0 : live_worker db (id0, j)).
    { destruct Hlive as (x & r0 & Hx & Hr0 & Hrest). rewrite row_lookup in Hx. case_decide as E; [|by exists x, r0]. injection Hx as <-.
      exists w, r0. rewrite <- E, <- Hjob. split_and!; try done; try tauto. }
    pose proof (Hpins id0 j g group p Hid Hgr Hlive0 Hp) as Hheld.
    destruct (decide ((id, i) = (pin_TaskID p, pin_Ordinal p))) as [[= E1 E2]|Hne]; [by eapply Hpin|].
    destruct Hheld as (x & r0 & Hx & Hrest). exists x, r0. rewrite row_lookup, decide_False by done. done.
Qed.

(** A pin of this row fixes its job. *)
Lemma pin_row p : pin_held db p -> pin_TaskID p = id -> pin_Ordinal p = i -> r_state r = StateSucceeded /\ tw_worktree_cleaned w = false.
Proof.
  intros (x & r0 & Hx & Hr0 & Ej & _ & _ & _ & Hcl & Hs & _) E1 E2. rewrite E1, E2, Hw in Hx. injection Hx as <-. rewrite <- Ej, Hr in Hr0.
  by injection Hr0 as <-.
Qed.

Lemma pin_row_same p : tw_worktree_id w' = tw_worktree_id w -> tw_workspace_id w' = tw_workspace_id w -> tw_runtime_id w' = tw_runtime_id w ->
  tw_worktree_cleaned w' = tw_worktree_cleaned w -> pin_held db p -> pin_TaskID p = id -> pin_Ordinal p = i -> pin_held db' p.
Proof.
  intros F1 F2 F3 F4 (x & r0 & Hx & Hr0 & Hrest) E1 E2. rewrite E1, E2, Hw in Hx. injection Hx as <-. exists w', r0.
  rewrite row_lookup, decide_True by congruence. rewrite Hjob, F1, F2, F3, F4. done.
Qed.
End Row.

Lemma tasks_inv_bind now db id i w r w' : tasks_inv now db -> jobs_inv now db ->
  db_task_workers db !! (id, i) = Some w -> db_jobs db !! tw_job_id w = Some r -> r_state r = StateLeased -> binds w w' ->
  tasks_inv now (with_workers_table (<[(id, i) := w']> (db_task_workers db)) db).
Proof.
  intros Hi Hj Hw Hr Hs Hb.
  assert (Hcols : tw_job_id w' = tw_job_id w /\ tw_goal_ref w' = tw_goal_ref w /\ tw_worktree_cleaned w' = tw_worktree_cleaned w /\
    tw_acceptance_receipt w' = tw_acceptance_receipt w /\ tw_test_acceptance_receipt w' = tw_test_acceptance_receipt w /\
    tw_objective_receipt w' = tw_objective_receipt w) by (by destruct Hb).
  destruct Hcols as (E1 & E2 & E3 & E4 & E5 & E6). eapply tasks_inv_row; try done.
  - intros g group ws v a t o Hok Hc Hv Hrec -> _. destruct (task_worker_row _ _ _ _ _ _ _ Hok Hw) as (_ & _ & _ & _ & _ & _ & Hi0 & _).
    pose proof (to_worker _ _ _ _ _ Hok _ _ Hv) as Hwk. rewrite Z2Nat.id in Hwk by done.
    pose proof (no_receipts _ _ _ Hwk ltac:(cbn; by rewrite Hs)) as Hno. cbn in Hno. destruct Hno as (-> & -> & ->).
    pose proof (not_cleaned _ _ _ Hwk ltac:(cbn; by rewrite Hs)) as Hcl. cbn in Hcl.
    exists None, None, None. split_and!; [unfold receipts_of in *; by rewrite E4, E5, E6| |done].
    destruct Hwk as [_ _ _ _ _ Ho Hwt Hws Hrt [_ Hup] _ _ _ _]. pose proof (Hj _ _ Hr) as Hrow. rewrite <- E1 in Hrow.
    eapply row_worker_ok; try done; [..|cbn; by rewrite E3, Hcl].
    all: destruct Hb; try done; unfold optional_pattern; apply orb_true_iff; by right.
  - intros id' i' g group p _ _ _ _ Hheld E7 E8. destruct (pin_row db id i w r Hw Hr p Hheld E7 E8) as [E _]. congruence.
  - by rewrite E3.
Qed.

(** ** Receipts are recorded *)
Lemma task_identity now db id g group ws i v : jobs_inv now db -> task_ok db id g group ws -> ws !! i = Some v ->
  worker_identity (with_workers group ws) v.
Proof.
  intros Hj Hok Hv. pose proof (to_worker _ _ _ _ _ Hok _ _ Hv) as Hwk. pose proof (gv_spec _ _ _ (to_valid _ _ _ _ _ Hok)) as Hs%validateTaskSpec_ok.
  pose proof (proj2 (to_workers _ _ _ _ _ Hok) i v Hv) as (row & Hrow & Hread). unfold worker_at in Hrow.
  destruct (db_task_workers db !! (id, Z.of_nat i)) as [w|]; cbn in Hrow; [|done]. destruct (db_jobs db !! tw_job_id w) as [r|] eqn:Er; [|done]. injection Hrow as <-.
  apply worker_of_row_ok in Hread as [_ (a & t & o & _ & ->)]. pose proof (row_fence_id now _ r (Hj _ _ Er)) as [_ Hf].
  apply lookup_lt_Some in Hv. pose proof (to_count _ _ _ _ _ Hok) as Hcnt. pose proof (so_count _ Hs) as Hn. cbn [group_spec ts_WorkerCount] in Hn.
  split; try done.
  - apply (to_valid _ _ _ _ _ Hok).
  - apply (so_base _ Hs).
  - rewrite (wo_ordinal _ _ _ Hwk). lia.
  - apply Hwk.
  - intros Hne. pose proof (wo_worktree _ _ _ Hwk) as [E|?]%optional_pattern_cases; done.
  - intros Hne. pose proof (wo_workspace _ _ _ Hwk) as [E|?]%optional_pattern_cases; done.
  - cbn. unfold in_uint64, two64, MaxLeaseAttempts in *. lia.
Qed.

(** A column that a valid receipt is written to decodes to it. *)
Lemma receipt_column {A} (c : codec A) e x : (match c_type c with TPtr _ => False | _ => True end) -> type_ok (c_type c) = true ->
  val_ok (c_type c) (c_to c x) -> optional_record (decode_receipt c e) (Marshal c x) = Ok (Some x).
Proof.
  intros Hp Ht Hv. apply optional_record_ok. split; [by apply Marshal_nonempty|]. unfold decode_receipt. by rewrite unmarshal_loose_marshal.
Qed.

Lemma record_column {A} (c : codec A) x : (match c_type c with TPtr _ => False | _ => True end) -> type_ok (c_type c) = true ->
  val_ok (c_type c) (c_to c x) -> (json_len (encode (c_type c) (c_to c x)) <= 4096)%nat ->
  optional_record (decodeTaskObjectiveRecord c) (Marshal c x) = Ok (Some x).
Proof. intros Hp Ht Hv Hl. apply optional_record_ok. split; [by apply Marshal_nonempty|by apply decode_record]. Qed.

Lemma tasks_inv_record now db id i t worker w w' : tasks_inv now db -> jobs_inv now db -> in_int64 now ->
  task_of db id = Ok (Some t) -> 0 <= i -> tk_Workers t !! Z.to_nat i = Some worker -> wk_WorktreeCleaned worker = false ->
  db_task_workers db !! (id, i) = Some w -> records now t worker w w' ->
  tasks_inv now (with_workers_table (<[(id, i) := w']> (db_task_workers db)) db).
Proof.
  intros Hi Hj Hnow Ht Hi0 Hwk Hcl Hw Hrec. destruct (tasks_inv_read now db id t Hi Ht) as (g & group & ws & Hg & Hok & Hc & ->).
  cbn [tk_Workers with_workers] in Hwk. destruct (task_worker_row _ _ _ _ _ _ _ Hok Hw) as (r & v & a & tt' & o & Hr & _ & Hv & Hcols & Hf & ->).
  rewrite Hwk in Hv. injection Hv as ->. pose proof (task_identity now db id g group ws _ _ Hj Hok Hwk) as Hid.
  pose proof (to_worker _ _ _ _ _ Hok _ _ Hwk) as Hvok. rewrite Z2Nat.id in Hvok by done.
  assert (Hrow : row_inv now (tw_job_id w) r) by (by apply Hj).
  assert (Hcommon : tw_job_id w' = tw_job_id w /\ tw_goal_ref w' = tw_goal_ref w /\ tw_worktree_cleaned w' = tw_worktree_cleaned w /\
    tw_worktree_id w' = tw_worktree_id w /\ tw_workspace_id w' = tw_workspace_id w /\ tw_runtime_id w' = tw_runtime_id w) by (by destruct Hrec).
  destruct Hcommon as (E1 & E2 & E3 & E4 & E5 & E6). eapply tasks_inv_row; try done.
  - intros g0 group0 ws0 v0 a0 t0 o0 Hok0 Hc0 Hv0 Hcols0 -> Hg0. rewrite Hg in Hg0. injection Hg0 as <-.
    pose proof (to_group _ _ _ _ _ Hok) as F1. pose proof (to_group _ _ _ _ _ Hok0) as F2. rewrite F1 in F2. injection F2 as <-.
    assert (a0 = a /\ t0 = tt' /\ o0 = o) as (-> & -> & ->).
    { destruct Hcols as (C1 & C2 & C3), Hcols0 as (D1 & D2 & D3). split_and!; congruence. }
    destruct Hvok as [_ _ _ _ _ P1 P2 P3 P4 [_ Hup] _ Ha Htst Hob]. cbn in Hcl, Ha, Htst, Hob. destruct Hcols as (C1 & C2 & C3).
    destruct Hrec as [x Hno Hx Hat|x Hno Hx Hat|x Hno Hx Hat]; cbn in Hno; subst; apply int64_dated in Hnow.
    + exists (Some x), tt', o. split_and!; [split_and!; [|done..]| |done].
      * apply receipt_column; [done|exact acceptance_receipt_type_ok|by eapply acceptance_receipt_written].
      * eapply row_worker_ok; try done; [cbn; by rewrite Hcl|by intros ? [= <-]].
    + exists a, (Some x), o. split_and!; [split_and!; [done| |done]| |done].
      * apply receipt_column; [done|exact test_receipt_type_ok|by eapply test_receipt_written].
      * eapply row_worker_ok; try done; [cbn; by rewrite Hcl|by intros ? [= <-]|].
        intros y Hy. specialize (Hob y Hy). unfold validTaskObjectiveReceipt in Hob. cbn in Hob. by rewrite !andb_false_r in Hob.
    + exists a, tt', (Some x). split_and!; [split_and!; [done..|]| |done].
      * destruct (objective_receipt_written _ _ x Hid Hx Hnow). by apply record_column; [|exact objective_receipt_type_ok|..].
      * eapply row_worker_ok; try done; [cbn; by rewrite Hcl|by intros ? [= <-]].
  - intros id' i' g0 group0 p _ _ _ _ Hheld E7 E8. by eapply pin_row_same.
Qed.

(** ** A cleanup is marked *)
(** The source column of a stored integration is the source of its contract. *)
Lemma integration_source id g group c : group_of_row id g = Ok group -> tk_IntegrationContract group = Some c ->
  tg_integration_source_task g = ic_SourceTaskID c.
Proof.
  intros Hg Ec. unfold group_of_row in Hg. destruct (integration_of_row g) as [[[ic ps] rc]|] eqn:Ei; [|done]. cbn [rbind] in Hg.
  destruct (acceptance_of_row g) as [[? ?]|]; [|done]. cbn [rbind] in Hg. destruct (optional_record _ _); [|done]. injection Hg as <-. cbn in Ec. subst ic.
  unfold integration_of_row in Ei. destruct (tg_integration_contract g <>? ""); [|destruct (reject_if _ _) in Ei; cbn [rbind] in Ei; [|done]; destruct (optional_record _ _); done].
  destruct (decodeTaskObjectiveRecord c_integration_contract _) as [c'|]; [|done]. cbn [rbind] in Ei.
  destruct (bool_decide_reflect (tg_integration_source_task g = ic_SourceTaskID c')) as [E|E]; [|done]. cbn [negb reject_if rbind] in Ei.
  destruct (decodeTaskObjectiveRecord (c_slice c_pin) _); [|done]. cbn [rbind] in Ei. destruct (optional_record _ _); [|done]. by injection Ei as <- _ _.
Qed.

(** The pins of a stored integration name its source task. *)
Lemma pin_source db id g group ws p : task_ok db id g group ws -> p ∈ range (tk_IntegrationPins group) ->
  exists c, tk_IntegrationContract group = Some c /\ pin_TaskID p = ic_SourceTaskID c /\ tg_integration_source_task g = ic_SourceTaskID c /\
    MatchString taskIDPattern (ic_SourceTaskID c) = true.
Proof.
  intros Hok Hp. pose proof (gv_spec _ _ _ (to_valid _ _ _ _ _ Hok)) as Hs%validateTaskSpec_ok. pose proof (so_integration _ Hs) as Hint.
  unfold validTaskIntegrationSpec in Hint. cbn [group_spec ts_IntegrationContract ts_IntegrationPins ts_WorkerCount ts_BaseCommit ts_ObjectiveContract ts_TestAcceptanceContract] in Hint.
  destruct (tk_IntegrationContract group) as [c|] eqn:Ec; [|apply bool_decide_eq_true, nil_length_inv in Hint; rewrite Hint in Hp; by apply elem_of_nil in Hp].
  breflect. exists c. split; [done|].
  assert (Hsrc : tg_integration_source_task g = ic_SourceTaskID c) by (by eapply integration_source; [apply Hok|]).
  match goal with Hx : is_ok (ValidateTaskIntegrationContract _) = true |- _ => apply is_ok_true in Hx; cbn [ValidateTaskIntegrationContract] in Hx; apply check_ok in Hx as [Hx _]; apply reject_if_ok in Hx end.
  breflect. split_and!; [|done|done].
  apply list_elem_of_lookup in Hp as [n Hn]. destruct (lookup_lt_is_Some_2 (ic_Workers c) n) as [x Hx].
  { match goal with Hl : length _ = length _ |- _ => rewrite <- Hl end. by eapply lookup_lt_Some. }
  match goal with Hf : forallb _ _ = true |- _ => rewrite forallb_forall in Hf; specialize (Hf (x, p)) end.
  assert (valid_pin c x p = true) as Hvp by (match goal with Hf : In _ _ -> _ |- _ => apply Hf end; apply list_elem_of_In, list_elem_of_lookup_2 with n; by apply lookup_zip_Some).
  unfold valid_pin in Hvp. breflect. done.
Qed.

Lemma requiring_spec db source : requiring_integrations db source = [] -> source <> "" ->
  forall id i g, db_task_groups db !! id = Some g -> tg_integration_source_task g = source -> ~ live_worker db (id, i).
Proof.
  intros Hnil Hne id i g Hg Hs (w & r & Hw & Hr & Hf & Hc & Hcl).
  assert (Hin : id ∈ requiring_integrations db source); [|rewrite Hnil in Hin; by apply elem_of_nil in Hin].
  unfold requiring_integrations. rewrite unordered_perm. apply list_elem_of_omap. exists ((id, i), w). split; [by apply elem_of_map_to_list|].
  cbn. rewrite Hg. cbn. rewrite Hr. cbn. rewrite Hs, Hcl, !bool_decide_true, !bool_decide_false by done. done.
Qed.

Lemma tasks_inv_clean now db id i t worker w : tasks_inv now db -> jobs_inv now db ->
  task_of db id = Ok (Some t) -> 0 <= i -> tk_Workers t !! Z.to_nat i = Some worker ->
  db_task_workers db !! (id, i) = Some w -> wk_WorktreeID worker <> "" -> terminal (wk_State worker) = true ->
  (wk_State worker = StateSucceeded -> evidence t worker) -> requiring_integrations db id = [] ->
  tasks_inv now (with_workers_table (<[(id, i) := set_cleaned w]> (db_task_workers db)) db).
Proof.
  intros Hi Hj Ht Hi0 Hwk Hw Hwt Hterm Hev Hreq. destruct (tasks_inv_read now db id t Hi Ht) as (g & group & ws & Hg & Hok & Hc & ->).
  cbn [tk_Workers with_workers] in Hwk. destruct (task_worker_row _ _ _ _ _ _ _ Hok Hw) as (r & v & a & tt' & o & Hr & _ & Hv & Hcols & Hf & ->).
  rewrite Hwk in Hv. injection Hv as ->. pose proof (to_worker _ _ _ _ _ Hok _ _ Hwk) as Hvok. rewrite Z2Nat.id in Hvok by done.
  eapply tasks_inv_row; try done.
  - intros g0 group0 ws0 v0 a0 t0 o0 Hok0 Hc0 Hv0 Hcols0 -> Hg0. rewrite Hg in Hg0. injection Hg0 as <-.
    pose proof (to_group _ _ _ _ _ Hok) as F1. pose proof (to_group _ _ _ _ _ Hok0) as F2. rewrite F1 in F2. injection F2 as <-.
    assert (a0 = a /\ t0 = tt' /\ o0 = o) as (-> & -> & ->).
    { destruct Hcols as (C1 & C2 & C3), Hcols0 as (D1 & D2 & D3). split_and!; congruence. }
    exists a, tt', o. split_and!; [done| |done]. destruct Hvok as [_ _ _ _ _ P1 P2 P3 P4 [_ Hup] _ Ha Htst Hob].
    eapply row_worker_ok; try done; [by apply Hj|]. intros _. split_and!; [done..|]. intros Hs. by destruct (Hev Hs).
  - intros id' i' g0 group0 p Hg0 Hgr Hlive Hp Hheld E7 E8. exfalso. destruct (tv_task _ _ Hi id' g0 Hg0) as (group1 & ws1 & Hok1 & _).
    pose proof (to_group _ _ _ _ _ Hok1) as F1. rewrite Hgr in F1. injection F1 as <-.
    destruct (pin_source db id' g0 group0 ws1 p Hok1 Hp) as (c & _ & Ep & Es & Hm). eapply (requiring_spec db id Hreq); [|exact Hg0| |exact Hlive]; [|congruence].
    intros E. rewrite <- Ep, E7, E in Hm. done.
Qed.

(** ** A row of [task_groups] changes *)
Lemma task_ok_groups db groups id g group ws : task_ok db id g group ws -> task_ok (with_groups groups db) id g group ws.
Proof. intros []. by split. Qed.

Section Group.
Context (now : Z) (db : DB) (id : string) (g : TaskGroupRow) (group : TaskGroup) (ws : list TaskWorker) (g' : TaskGroupRow) (group' : TaskGroup).
Hypotheses (Hinv : tasks_inv now db) (Hg : db_task_groups db !! id = Some g) (Hok : task_ok db id g group ws) (Hcreated : tk_CreatedAt group <= now).
Hypotheses (Hkey : tg_idempotency_key g' = tg_idempotency_key g) (Hgroup : group_of_row id g' = Ok group').
(** Only the receipt of the integration and the time of the last update may differ. *)
Hypothesis Hsame : with_workers group' [] =
  {| tk_ID := tk_ID group; tk_IdempotencyKey := tk_IdempotencyKey group; tk_Project := tk_Project group; tk_Target := tk_Target group;
     tk_BaseCommit := tk_BaseCommit group; tk_GoalHash := tk_GoalHash group; tk_Pool := tk_Pool group; tk_Profile := tk_Profile group;
     tk_WorkerCount := tk_WorkerCount group; tk_ExecutionTimeoutSeconds := tk_ExecutionTimeoutSeconds group;
     tk_AcceptanceContract := tk_AcceptanceContract group; tk_TestAcceptanceContract := tk_TestAcceptanceContract group;
     tk_ObjectiveContract := tk_ObjectiveContract group; tk_IntegrationContract := tk_IntegrationContract group;
     tk_IntegrationPins := tk_IntegrationPins group; tk_IntegrationReceipt := tk_IntegrationReceipt group'; tk_State := TaskCompleted; tk_Workers := [];
     tk_CreatedAt := tk_CreatedAt group; tk_UpdatedAt := tk_UpdatedAt group' |}.
Hypothesis Hint : integration_valid group' (wk_ObjectiveReceipt <$> ws).
Hypothesis Hkeep : is_Some (tk_IntegrationReceipt group) -> is_Some (tk_IntegrationReceipt group').

Lemma tasks_inv_group : tasks_inv now (with_groups (<[id := g']> (db_task_groups db)) db).
Proof.
  pose proof Hinv as [Htask Hfk Hjobs Hkeys Hpins]. set (db' := with_groups _ _).
  assert (Hlk : forall k, db_task_groups db' !! k = if decide (id = k) then Some g' else db_task_groups db !! k).
  { intros k. unfold db'. cbn. by rewrite lookup_insert. }
  injection Hsame as S1 S2 S3 S4 S5 S6 S7 S8 S9 S10 S11 S12 S13 S14 S15 S16. split.
  - intros k x Hx. rewrite Hlk in Hx. destruct (decide (id = k)) as [<-|Hne].
    2:{ destruct (Htask k x Hx) as (grp & vs & Hg1 & Hc1). exists grp, vs. split; [by apply task_ok_groups|done]. }
    injection Hx as <-. exists group', ws.
    split; [|by rewrite S16]. destruct Hok as [T1 T2 T3 T4 T5 T6]. split; try done; [by rewrite S9| |].
    + destruct T4 as [G1 G2 G3]. split; [by rewrite S1| |by rewrite S16]. unfold group_spec in *. by rewrite S2, S3, S4, S5, S6, S7, S8, S9, S10, S11, S12, S13, S14, S15.
    + intros i v Hv. specialize (T6 i v Hv) as [W1 W2 W3 W4 W5 W6 W7 W8 W9 W10 W11 W12 W13 W14]. split; try done.
      * by rewrite S16.
      * intros Hcl. destruct (W11 Hcl) as (? & ? & Hev). split_and!; [done..|]. intros Hs. destruct (Hev Hs) as [V1 V2 V3 V4]. split; rewrite ?S11, ?S12, ?S13, ?S14; auto.
      * intros r Hr. specialize (W12 r Hr). unfold validTaskAcceptanceReceipt in *. by rewrite S1, S5, S11.
      * intros r Hr. specialize (W13 r Hr). unfold validTaskTestAcceptanceReceipt in *. by rewrite S1, S5, S12.
      * intros r Hr. specialize (W14 r Hr). unfold validTaskObjectiveReceipt, validTaskTestAcceptanceReceipt, TaskObjectiveContractDigest in *.
        by rewrite S1, S5, S6, S12, S13, S16.
  - intros k i w Hw. rewrite Hlk. case_decide; [done|by eapply Hfk].
  - done.
  - assert (Hk : forall k x, db_task_groups db' !! k = Some x -> exists y, db_task_groups db !! k = Some y /\ tg_idempotency_key x = tg_idempotency_key y).
    { intros k x Hx. rewrite Hlk in Hx. case_decide as E; [|by exists x]. subst k. injection Hx as <-. by exists g. }
    intros k k' x x' (y & Hy & Ey)%Hk (y' & Hy' & Ey')%Hk E. apply (Hkeys k k' y y'); congruence.
  - intros k i x grp p Hx Hgr Hlive Hp. rewrite Hlk in Hx. case_decide as E; [|by eapply (Hpins k i)]. subst k. injection Hx as <-.
    rewrite Hgroup in Hgr. injection Hgr as <-. rewrite S15 in Hp. eapply (Hpins id i); [done|apply Hok|done|done].
Qed.
End Group.

(** The group with another receipt and time of update. *)
Definition updated_group (receipt : option TaskIntegrationReceipt) (now : Z) (group : TaskGroup) : TaskGroup :=
  {| tk_ID := tk_ID group; tk_IdempotencyKey := tk_IdempotencyKey group; tk_Project := tk_Project group; tk_Target := tk_Target group;
     tk_BaseCommit := tk_BaseCommit group; tk_GoalHash := tk_GoalHash group; tk_Pool := tk_Pool group; tk_Profile := tk_Profile group;
     tk_WorkerCount := tk_WorkerCount group; tk_ExecutionTimeoutSeconds := tk_ExecutionTimeoutSeconds group;
     tk_AcceptanceContract := tk_AcceptanceContract group; tk_TestAcceptanceContract := tk_TestAcceptanceContract group;
     tk_ObjectiveContract := tk_ObjectiveContract group; tk_IntegrationContract := tk_IntegrationContract group;
     tk_IntegrationPins := tk_IntegrationPins group; tk_IntegrationReceipt := receipt; tk_State := TaskStateOther ""; tk_Workers := [];
     tk_CreatedAt := tk_CreatedAt group; tk_UpdatedAt := now |}.

Lemma touch_reads id g group now : group_of_row id g = Ok group -> group_of_row id (touch now g) = Ok (updated_group (tk_IntegrationReceipt group) now group).
Proof.
  unfold group_of_row. change (integration_of_row (touch now g)) with (integration_of_row g). change (acceptance_of_row (touch now g)) with (acceptance_of_row g).
  change (tg_objective_contract (touch now g)) with (tg_objective_contract g). destruct (integration_of_row g) as [[[ic ps] rc]|]; cbn [rbind]; [|done].
  destruct (acceptance_of_row g) as [[? ?]|]; cbn [rbind]; [|done]. destruct (optional_record _ _); cbn [rbind]; [|done]. by intros [= <-].
Qed.

Lemma receipt_reads id g group now record r : group_of_row id g = Ok group -> is_Some (tk_IntegrationContract group) ->
  optional_record (decodeTaskObjectiveRecord c_integration_receipt) record = Ok (Some r) ->
  group_of_row id (set_integration_receipt record now g) = Ok (updated_group (Some r) now group).
Proof.
  intros Hg [c Hc] Hr. unfold group_of_row in *. change (acceptance_of_row (set_integration_receipt record now g)) with (acceptance_of_row g).
  change (tg_objective_contract (set_integration_receipt record now g)) with (tg_objective_contract g).
  destruct (integration_of_row g) as [[[ic ps] rc]|] eqn:Ei; cbn [rbind] in Hg; [|done]. destruct (acceptance_of_row g) as [[? ?]|]; cbn [rbind] in Hg; [|done].
  destruct (optional_record _ _); cbn [rbind] in Hg; [|done]. injection Hg as <-. cbn [tk_IntegrationContract] in Hc. subst ic.
  unfold integration_of_row in *. cbn [set_integration_receipt set_group tg_integration_contract tg_integration_pins tg_integration_receipt tg_integration_source_task].
  destruct (tg_integration_contract g <>? "");
    [|destruct (reject_if _ _) in Ei; cbn [rbind] in Ei; [|done]; destruct (optional_record _ _); done].
  destruct (decodeTaskObjectiveRecord c_integration_contract _) as [c'|]; cbn [rbind] in *; [|done].
  destruct (reject_if _ _); cbn [rbind] in *; [|done]. destruct (decodeTaskObjectiveRecord (c_slice c_pin) _); cbn [rbind] in *; [|done].
  rewrite Hr. cbn [rbind]. destruct (optional_record _ _) in Ei; [|done]. by injection Ei as -> -> ->.
Qed.

Lemma tasks_inv_touch now db id g : tasks_inv now db -> db_task_groups db !! id = Some g ->
  tasks_inv now (with_groups (<[id := touch now g]> (db_task_groups db)) db).
Proof.
  intros Hi Hg. destruct (tv_task _ _ Hi id g Hg) as (group & ws & Hok & Hc).
  eapply (tasks_inv_group now db id g group ws _ (updated_group (tk_IntegrationReceipt group) now group)); try done; [apply touch_reads, Hok|apply Hok].
Qed.

Lemma tasks_inv_integrate now db id g t r : tasks_inv now db -> jobs_inv now db -> in_int64 now ->
  db_task_groups db !! id = Some g -> task_of db id = Ok (Some t) -> validTaskIntegrationReceipt t r = true -> ir_RecordedAt r = now ->
  tasks_inv now (with_groups (<[id := set_integration_receipt (Marshal c_integration_receipt r) now g]> (db_task_groups db)) db).
Proof.
  intros Hi Hj Hnow Hg Ht Hv Hat. destruct (tasks_inv_read now db id t Hi Ht) as (g0 & group & ws & Hg0 & Hok & Hc & ->). rewrite Hg in Hg0. injection Hg0 as <-.
  apply validTaskIntegrationReceipt_iff in Hv as (c & o & Hcon & Hobj & E1 & E2 & E3 & E4 & E5 & E6 & E7 & E8 & E9).
  assert (Hhead : MatchString taskCommitPattern (or_HeadCommit o) = true).
  { destruct ws as [|v [|]]; try done. injection Hobj as Ho. pose proof (to_worker _ _ _ _ _ Hok 0%nat v eq_refl) as Hvok.
    pose proof (wo_objective _ _ _ Hvok o Ho) as Hx. unfold validTaskObjectiveReceipt in Hx. destruct (wk_TestAcceptanceReceipt v) as [tr|] eqn:Et; breflect; [|done].
    pose proof (wo_test _ _ _ Hvok tr Et) as Hy. unfold validTaskTestAcceptanceReceipt in Hy. destruct (tk_TestAcceptanceContract group); [|done]. breflect. congruence. }
  pose proof (gv_id _ _ _ (to_valid _ _ _ _ _ Hok)) as Hid. rewrite <- Hat in Hnow. apply int64_dated in Hnow.
  destruct (integration_receipt_written _ r o c (tk_IntegrationPins group) Hid Hhead Hnow E1 E2 E3 E4 E5 E6) as [Hval Hlen].
  eapply (tasks_inv_group now db id g group ws _ (updated_group (Some r) now group)); try done.
  - apply receipt_reads; [apply Hok|by rewrite Hcon|]. by apply record_column; [|exact integration_receipt_type_ok|..].
  - intros x [= <-]. exists c, o. by split_and!.
Qed.
End TaskInv.
