(* ===== verification/TaskCreate.v ===== *)
(** * A task is created

    The rows that [CreateTask] inserts: a group, its workers and their jobs. They read
    back as the specification, and no other task changes. *)

From S2P Require Import Prelude GoStrings GoRegexp GoLanguage Effects GoJson GoTime GoReflect GoRecord PolicyScan WorkqueueTypes Admission Fairness WorkqueueRows WorkqueueStore WorkqueueInv WorkqueueOps WorkqueueEnqueue WorkqueueSystem TaskTypes TaskRecord TaskRules TaskRoundtrip TaskRows TaskStore TaskFacts TaskSteps TaskInv.

Section TaskCreate.
Context `{SystemSummaries} `{SqlScan}.

(** ** The inserted rows *)
Definition worker_job (spec : TaskSpec) (i : Z) (hash : string) (now : Z) : JobRow :=
  new_row (worker_ident spec i hash now) StateQueued ReasonNone None None.

Lemma insert_job_some job row db db' : sql_insert_job job row db = Some db' ->
  db_jobs db !! job = None /\ (forall k r, db_jobs db !! k = Some r -> row_key r <> row_key row) /\ db' = with_jobs (<[job := row]> (db_jobs db)) db.
Proof.
  unfold sql_insert_job. destruct (bool_decide_reflect (is_Some (db_jobs db !! job))) as [?|Hn]; [done|]. cbn [orb].
  destruct (existsb _ _) eqn:E; [done|]. intros [= <-]. split_and!; [by apply eq_None_not_Some| |done].
  intros k r Hr Hk. apply not_true_iff_false in E. apply E, existsb_exists. exists r. split; [|by apply bool_decide_eq_true].
  apply list_elem_of_In, (list_elem_of_fmap_2' snd _ (k, r)); [by apply elem_of_map_to_list|done].
Qed.

Lemma insert_worker_some id i w db db' : sql_insert_worker id i w db = Some db' ->
  db_task_workers db !! (id, i) = None /\ (forall k x, db_task_workers db !! k = Some x -> tw_job_id x <> tw_job_id w) /\
  db' = with_workers_table (<[(id, i) := w]> (db_task_workers db)) db.
Proof.
  unfold sql_insert_worker. destruct (bool_decide_reflect (is_Some (db_task_workers db !! (id, i)))) as [?|Hn]; [done|]. cbn [orb].
  destruct (existsb _ _) eqn:E; [done|]. cbn [orb]. destruct (_ || _); [done|]. intros [= <-]. split_and!; [by apply eq_None_not_Some| |done].
  intros k x Hx Hk. apply not_true_iff_false in E. apply E, existsb_exists. exists (k, x). split; [|by apply bool_decide_eq_true].
  apply list_elem_of_In. by apply elem_of_map_to_list.
Qed.

Lemma insert_group_some id g db db' : sql_insert_group id g db = Some db' ->
  db_task_groups db !! id = None /\ (forall k x, db_task_groups db !! k = Some x -> tg_idempotency_key x <> tg_idempotency_key g) /\
  db' = with_groups (<[id := g]> (db_task_groups db)) db.
Proof.
  unfold sql_insert_group. destruct (bool_decide_reflect (is_Some (db_task_groups db !! id))) as [?|Hn]; [done|]. cbn [orb].
  destruct (existsb _ _) eqn:E; [done|]. intros [= <-]. split_and!; [by apply eq_None_not_Some| |done].
  intros k x Hx Hk. apply not_true_iff_false in E. apply E, existsb_exists. exists (k, x). split; [|by apply bool_decide_eq_true].
  apply list_elem_of_In. by apply elem_of_map_to_list.
Qed.

Record created_rows (spec : TaskSpec) (id : string) (now i : Z) (goals : list (string * string)) (db db' : DB) : Prop := {
  cr_groups : db_task_groups db' = db_task_groups db;
  cr_dependencies : db_dependencies db' = db_dependencies db;
  cr_jobs : forall k r, db_jobs db !! k = Some r -> db_jobs db' !! k = Some r;
  cr_workers : forall k w, db_task_workers db !! k = Some w -> db_task_workers db' !! k = Some w;
  cr_new : forall n hash ref, goals !! n = Some (hash, ref) -> exists job,
    db_task_workers db' !! (id, i + Z.of_nat n) = Some (new_worker job ref) /\
    db_jobs db' !! job = Some (worker_job spec (i + Z.of_nat n) hash now) /\ MatchString jobIDPattern job = true /\ db_jobs db !! job = None;
  cr_old_workers : forall k w, db_task_workers db' !! k = Some w -> db_task_workers db !! k = Some w \/
    db_task_workers db !! k = None /\ exists n, k = (id, i + Z.of_nat n) /\ (n < length goals)%nat;
  cr_old_jobs : forall k r, db_jobs db' !! k = Some r -> db_jobs db !! k = Some r \/
    db_jobs db !! k = None /\ MatchString jobIDPattern k = true /\ exists n hash ref, goals !! n = Some (hash, ref) /\ r = worker_job spec (i + Z.of_nat n) hash now /\
      MatchString idempotencyPattern (worker_key spec (i + Z.of_nat n)) = true;
  cr_distinct : (forall k k' w w', db_task_workers db !! k = Some w -> db_task_workers db !! k' = Some w' -> tw_job_id w = tw_job_id w' -> k = k') ->
    forall k k' w w', db_task_workers db' !! k = Some w -> db_task_workers db' !! k' = Some w' -> tw_job_id w = tw_job_id w' -> k = k';
}.

Lemma workers_created_rows spec id now i goals db db' : workers_created spec id now i goals db db' -> created_rows spec id now i goals db db'.
Proof.
  induction 1 as [i db|i hash ref goals job db db1 db2 db3 Hjob Hkey H1' H2' _ [I1 I2 I3 I4 I5 I6 I7 I8]].
  { split; try done; intros; by left. }
  apply insert_job_some in H1' as (Hnj & _ & ->). apply insert_worker_some in H2' as (Hnw & Hdis & ->). cbn in Hnw, Hdis, I1, I2, I3, I4, I5, I6, I7, I8.
  assert (Hshift : forall n, i + Z.of_nat (S n) = i + 1 + Z.of_nat n) by lia. split; try done.
  - intros k r Hr. apply I3. rewrite lookup_insert_ne by congruence. done.
  - intros k w Hw. apply I4. rewrite lookup_insert_ne by congruence. done.
  - intros [|n] h rf Hg.
    + injection Hg as -> ->. exists job. rewrite Z.add_0_r. split_and!; [|by apply I3, lookup_insert_eq|done|done]. by apply I4, lookup_insert_eq.
    + rewrite Hshift. destruct (I5 n h rf Hg) as (j & ? & ? & ? & Hno). exists j. split_and!; [done..|].
      rewrite lookup_insert in Hno. by case_decide.
  - intros k w Hw. destruct (I6 k w Hw) as [Hk|[Hk (n & -> & Hn)]].
    + rewrite lookup_insert in Hk. case_decide as E; [right|by left]. subst k. split; [done|]. exists 0%nat. rewrite Z.add_0_r. split; [done|cbn; lia].
    + right. split; [rewrite lookup_insert in Hk; by case_decide|]. exists (S n). rewrite Hshift. split; [done|cbn; lia].
  - intros k r Hr. destruct (I7 k r Hr) as [Hk|(Hk & Hp & n & h & rf & Hn & -> & Hkk)].
    + rewrite lookup_insert in Hk. case_decide as E; [right|by left]. subst k. injection Hk as <-. split_and!; [done..|]. exists 0%nat, hash, ref. by rewrite Z.add_0_r.
    + right. rewrite lookup_insert in Hk. case_decide; [done|]. split_and!; [done..|]. exists (S n), h, rf. by rewrite Hshift.
  - intros Hold. apply I8. intros k k' w w' Hk Hk'. rewrite lookup_insert in Hk, Hk'.
    destruct (decide ((id, i) = k)) as [E1|E1], (decide ((id, i) = k')) as [E2|E2]; intros E; [congruence| | |by eapply Hold].
    + injection Hk as <-. exfalso. by apply (Hdis _ _ Hk').
    + injection Hk' as <-. exfalso. by apply (Hdis _ _ Hk).
Qed.

(** ** The jobs of the workers *)
Lemma project_workspace s : MatchString taskProjectPattern s = true -> MatchString workspacePattern s = true.
Proof.
  unfold taskProjectPattern, alias_pattern, workspacePattern, name64.
  rewrite !match_whole_lang by (cbn [simple opt]; rewrite ?andb_true_r; by rewrite ?simple_upto).
  assert (Hc : forall z, alias_class z = true -> (lower ⊎ digit ⊎ one_of "._-") z = true).
  { intros z Hz. unfold alias_class, cunion in *. by rewrite Hz. }
  intros (a & b & -> & Ha & Hb). exists a, b. split_and!; [done..|]. apply lang_upto_class. destruct Hb as [(x & y & -> & Hx & (g & -> & Hg))| ->]; [|split; [cbn; lia|done]].
  apply lang_upto_class in Hx as [Hl Hx]. split; [rewrite length_app; cbn; lia|]. apply Forall_app. split; [|by repeat constructor; auto].
  eapply Forall_impl; [exact Hx|]. intros z Hz. cbn in Hz. unfold cunion, alias_class, cunion in *.
  apply orb_true_iff in Hz as [Hz|Hz]; [by rewrite Hz|]. apply orb_true_iff. right. revert Hz. unfold one_of. cbn.
  destruct (rune z =? byte_val "-"); [by rewrite !orb_true_r|done].
Qed.

Lemma worker_job_inv spec i hash ref job now : spec_ok spec -> in_int64 now -> MatchString jobIDPattern job = true ->
  MatchString idempotencyPattern (worker_key spec i) = true -> (hash, ref) ∈ zip (ts_WorkerGoalHashes spec) (ts_WorkerGoalRefs spec) ->
  row_inv now job (worker_job spec i hash now).
Proof.
  intros Hs Hn Hj Hk [n [Hh Hr]%lookup_zip_Some]%list_elem_of_lookup. destruct (so_goals _ Hs n hash ref Hh Hr) as [Hp _].
  apply row_inv_iff. unfold worker_job, new_row, attempts_ok, state_ok, no_lease, header_ok, MaxLeaseAttempts.
  cbn [r_fence r_attempt r_state r_ident r_updated_at r_result_ref r_lease_until r_lease_id r_lease_holder r_reason r_cancel_requested
       r_outcome i_created_at i_idempotency_key i_workspace i_pool i_profile i_payload_hash worker_ident null_string default].
  pose proof (in_int64_nonzero _ Hn). split_and!; try done; try lia; [|by left].
  unfold validateSpec. cbn [spec_IdempotencyKey spec_Workspace spec_Pool spec_Profile spec_PayloadHash spec_Dependencies].
  rewrite Hk, (project_workspace _ (so_project _ Hs)), (so_pool _ Hs), (so_profile _ Hs), Hp. done.
Qed.

(** ** The group reads back as its specification *)
Definition created_group (spec : TaskSpec) (id : string) (now : Z) : TaskGroup :=
  {| tk_ID := id; tk_IdempotencyKey := ts_IdempotencyKey spec; tk_Project := ts_Project spec; tk_Target := ts_Target spec;
     tk_BaseCommit := ts_BaseCommit spec; tk_GoalHash := ts_GoalHash spec; tk_Pool := ts_Pool spec; tk_Profile := ts_Profile spec;
     tk_WorkerCount := ts_WorkerCount spec; tk_ExecutionTimeoutSeconds := ts_ExecutionTimeoutSeconds spec;
     tk_AcceptanceContract := ts_AcceptanceContract spec; tk_TestAcceptanceContract := ts_TestAcceptanceContract spec;
     tk_ObjectiveContract := ts_ObjectiveContract spec; tk_IntegrationContract := ts_IntegrationContract spec;
     tk_IntegrationPins := match ts_IntegrationContract spec with Some _ => ts_IntegrationPins spec | None => None end;
     tk_IntegrationReceipt := None; tk_State := TaskStateOther ""; tk_Workers := []; tk_CreatedAt := now; tk_UpdatedAt := now |}.

Lemma acceptance_reads spec now : spec_ok spec ->
  acceptance_of_row (group_row spec now) = Ok (ts_AcceptanceContract spec, ts_TestAcceptanceContract spec).
Proof.
  intros Hs. pose proof (so_acceptance _ Hs) as Ha. pose proof (so_test _ Hs) as Ht. pose proof (so_one _ Hs) as Ho.
  unfold acceptance_of_row, group_row, taskAcceptanceColumns. destruct (ts_TestAcceptanceContract spec) as [t|].
  - destruct Ho as [->|?]; [|done]. cbn. cbn in Ht. apply reject_if_ok in Ht. breflect. destruct t; cbn in *; by subst.
  - destruct (ts_AcceptanceContract spec) as [a|]; [|done]. cbn in Ha. apply reject_if_ok in Ha. breflect. destruct a as [v c p]. cbn in *. by subst v.
Qed.

Lemma created_group_reads spec id now : spec_ok spec -> Forall (fun p => in_uint64 (pin_Fence p)) (range (ts_IntegrationPins spec)) ->
  group_of_row id (stored_group spec now) = Ok (created_group spec id now).
Proof.
  intros Hs Hp. pose proof (acceptance_reads spec now Hs) as Ha. pose proof (so_objective _ Hs) as Hob. pose proof (so_integration _ Hs) as Hi.
  assert (Hobj : optional_record decodeTaskObjectiveContract (from_option (Marshal c_objective_contract) "" (ts_ObjectiveContract spec)) = Ok (ts_ObjectiveContract spec)).
  { apply optional_record_ok. destruct (ts_ObjectiveContract spec) as [c|]; cbn [from_option]; [|done]. destruct (objective_contract_back c Hob). done. }
  assert (Hint : integration_of_row (stored_group spec now) =
    Ok (ts_IntegrationContract spec, tk_IntegrationPins (created_group spec id now), None)).
  { unfold integration_of_row, stored_group. cbn [tk_IntegrationPins created_group]. unfold validTaskIntegrationSpec in Hi.
    destruct (ts_IntegrationContract spec) as [c|].
    - breflect. match goal with Hx : is_ok _ = true |- _ => apply is_ok_true in Hx; rename Hx into Hc end.
      destruct (integration_contract_back c Hc) as [Hb Hne]. pose proof (pins_back c (ts_IntegrationPins spec) Hc ltac:(done) ltac:(done) Hp) as Hpb.
      unfold group_row. destruct (taskAcceptanceColumns _ _) as [[[[? ?] ?] ?] ?].
      cbn [set_integration set_group tg_integration_contract tg_integration_pins tg_integration_receipt tg_integration_source_task].
      rewrite bool_decide_false by done. cbn [negb]. rewrite Hb. cbn [rbind]. rewrite bool_decide_true by done. cbn [negb reject_if rbind].
      rewrite Hpb. done.
    - unfold group_row. by destruct (taskAcceptanceColumns _ _) as [[[[? ?] ?] ?] ?]. }
  assert (Hacc : acceptance_of_row (stored_group spec now) = acceptance_of_row (group_row spec now)) by (unfold stored_group; by destruct (ts_IntegrationContract spec)).
  unfold group_of_row. rewrite Hint, Hacc, Ha. cbn [rbind].
  assert (Hf : tg_objective_contract (stored_group spec now) = from_option (Marshal c_objective_contract) "" (ts_ObjectiveContract spec)).
  { unfold stored_group, group_row. destruct (taskAcceptanceColumns _ _) as [[[[? ?] ?] ?] ?]. by destruct (ts_IntegrationContract spec). }
  rewrite Hf, Hobj. cbn [rbind]. unfold created_group, stored_group, group_row.
  destruct (taskAcceptanceColumns _ _) as [[[[? ?] ?] ?] ?]. by destruct (ts_IntegrationContract spec).
Qed.

Lemma created_group_valid spec id now : spec_ok spec -> MatchString taskIDPattern id = true -> in_int64 now ->
  group_valid (created_group spec id now) (ts_WorkerGoalHashes spec) (ts_WorkerGoalRefs spec).
Proof.
  intros Hs Hid Hn. split; [done| |by apply in_int64_nonzero]. apply validateTaskSpec_ok. pose proof (so_integration _ Hs) as Hi. destruct Hs. split; try done.
  revert Hi. unfold validTaskIntegrationSpec, created_group. cbn. by destruct (ts_IntegrationContract spec).
Qed.

(** ** The ordinals of the workers *)
Lemma ordinals_nodup db id : NoDup (ordinals_of db id).
Proof.
  unfold ordinals_of. rewrite (merge_sort_Permutation Z.le). apply NoDup_fmap_2_strong; [|apply NoDup_elements].
  intros [x i] [y j] [Ex _]%elem_of_elements%elem_of_filter [Ey _]%elem_of_elements%elem_of_filter E. cbn in *. congruence.
Qed.

Lemma sorted_seq k n : Sorted Z.le (Z.of_nat <$> seq k n).
Proof.
  revert k. induction n as [|n IH]; intros k; cbn; [constructor|]. constructor; [apply IH|]. destruct n; cbn; constructor. lia.
Qed.

Lemma ordinals_seq db id n : (forall i, is_Some (db_task_workers db !! (id, i)) <-> exists k, i = Z.of_nat k /\ (k < n)%nat) ->
  ordinals_of db id = Z.of_nat <$> seq 0 n.
Proof.
  intros Hd. apply (Sorted_unique Z.le); [apply (Sorted_merge_sort Z.le)|apply sorted_seq|]. apply NoDup_Permutation; [apply ordinals_nodup| |].
  - apply NoDup_fmap_2; [|apply NoDup_seq]. intros x y. lia.
  - intros i. rewrite ordinals_spec, Hd, list_elem_of_fmap. setoid_rewrite elem_of_seq. split; intros (k & -> & Hk); exists k; (split; [done|lia]).
Qed.

(** ** The pins of a new integration *)
Lemma group_of_row_id id g group : group_of_row id g = Ok group -> tk_ID group = id.
Proof.
  unfold group_of_row. destruct (integration_of_row g) as [[[ic ps] rc]|]; cbn [rbind]; [|done].
  destruct (acceptance_of_row g) as [[? ?]|]; cbn [rbind]; [|done]. destruct (optional_record _ _); cbn [rbind]; [|done]. by intros [= <-].
Qed.

Lemma group_of_row_key id g group : group_of_row id g = Ok group -> tk_IdempotencyKey group = tg_idempotency_key g.
Proof.
  unfold group_of_row. destruct (integration_of_row g) as [[[ic ps] rc]|]; cbn [rbind]; [|done].
  destruct (acceptance_of_row g) as [[? ?]|]; cbn [rbind]; [|done]. destruct (optional_record _ _); cbn [rbind]; [|done]. by intros [= <-].
Qed.

Lemma validate_pins_ok source pins p : validate_pins source pins = Ok tt -> p ∈ pins ->
  0 <= pin_Ordinal p /\ exists v, tk_Workers source !! Z.to_nat (pin_Ordinal p) = Some v /\ wk_State v = StateSucceeded /\ wk_WorktreeCleaned v = false /\
    Some p = TaskIntegrationPin source (pin_Ordinal p) (pin_HeadCommit p).
Proof.
  induction pins as [|q pins IH]; [by intros _ ?%elem_of_nil|]. cbn [validate_pins]. intros [Hg Hv]%check_ok. apply reject_if_ok in Hg.
  destruct (tk_Workers source !! Z.to_nat (pin_Ordinal q)) as [v|] eqn:Ev; [|done]. apply check_ok in Hv as [Hq Hv]. apply reject_if_ok in Hq. breflect.
  intros [->|Hin]%elem_of_cons; [|by apply IH]. split; [done|]. by exists v.
Qed.

Lemma source_pins now db task p : tasks_inv now db -> sources_ok db task -> is_Some (tk_IntegrationContract task) -> p ∈ range (tk_IntegrationPins task) ->
  pin_held db p.
Proof.
  intros Hi Hs [c Hc] Hp. destruct (Hs c Hc) as (source & Hsrc & Hb). unfold ValidateTaskIntegrationSourceBindings in Hb. rewrite Hc in Hb.
  apply check_ok in Hb as [_ Hb]. destruct (validate_pins_ok _ _ _ Hb Hp) as (H0' & v & Hv & Hst & Hcl & Epin).
  destruct (tasks_inv_read now db _ source Hi Hsrc) as (g & group & ws & Hg & Hok & _ & ->). cbn [with_workers tk_Workers] in Hv.
  destruct (proj2 (to_workers _ _ _ _ _ Hok) _ _ Hv) as (row & Hrow & Hread). rewrite Z2Nat.id in Hrow by done. unfold worker_at in Hrow.
  destruct (db_task_workers db !! _) as [w|] eqn:Ew; cbn in Hrow; [|done]. destruct (db_jobs db !! tw_job_id w) as [r|] eqn:Er; [|done]. injection Hrow as <-.
  apply worker_of_row_ok in Hread as [_ (a & t & o & _ & ->)]. unfold TaskIntegrationPin in Epin. cbn [with_workers tk_Workers] in Epin. rewrite Hv in Epin.
  injection Epin as Ep. rewrite Ep. cbn. rewrite (group_of_row_id _ _ _ (to_group _ _ _ _ _ Hok)). exists w, r. cbn in Hst, Hcl. split_and!; try done.
Qed.

Lemma pin_held_mono db db' p : pin_held db p -> (forall k w, db_task_workers db !! k = Some w -> db_task_workers db' !! k = Some w) ->
  (forall k r, db_jobs db !! k = Some r -> db_jobs db' !! k = Some r) -> pin_held db' p.
Proof. intros (w & r & Hw & Hr & Hrest) H1' H2'. exists w, r. split_and!; auto; tauto. Qed.

Lemma pin_fence now db p : jobs_inv now db -> pin_held db p -> in_uint64 (pin_Fence p).
Proof.
  intros Hj (w & r & _ & Hr & _ & _ & _ & _ & _ & _ & _ & <-). pose proof (row_fence_id now _ r (Hj _ _ Hr)) as [_ Hf].
  unfold in_uint64, two64, MaxLeaseAttempts in *. lia.
Qed.

(** ** Creation keeps the invariant *)
Section Create.
Context (now : Z) (db : DB) (spec : TaskSpec) (id : string) (db' : DB).
Let goals := zip (ts_WorkerGoalHashes spec) (ts_WorkerGoalRefs spec).
Let db1 := with_groups (<[id := stored_group spec now]> (db_task_groups db)) db.
Hypotheses (Hnow : in_int64 now) (Hinv : tasks_inv now db) (Hjobs : jobs_inv now db).
Hypotheses (Hspec : spec_ok spec) (Hid : MatchString taskIDPattern id = true) (Hsrc : sources_ok db (pending_task spec)).
Hypotheses (Hfresh : db_task_groups db !! id = None)
  (Hkey : forall k g, db_task_groups db !! k = Some g -> tg_idempotency_key g <> ts_IdempotencyKey spec).
Hypothesis Hrows : created_rows spec id now 0 goals db1 db'.

Lemma stored_key : tg_idempotency_key (stored_group spec now) = ts_IdempotencyKey spec.
Proof.
  unfold stored_group, group_row. destruct (taskAcceptanceColumns _ _) as [[[[? ?] ?] ?] ?]. by destruct (ts_IntegrationContract spec).
Qed.

Lemma create_jobs_inv : jobs_inv now db'.
Proof.
  intros k r Hr. destruct (cr_old_jobs _ _ _ _ _ _ _ Hrows k r Hr) as [Ho|(_ & Hp & n & hash & ref & Hn & -> & Hk)]; [by apply Hjobs|].
  eapply (worker_job_inv spec (0 + Z.of_nat n) hash ref); try done. by eapply list_elem_of_lookup_2.
Qed.

Lemma new_integration_pins p : p ∈ range (tk_IntegrationPins (created_group spec id now)) -> pin_held db p.
Proof.
  cbn [created_group tk_IntegrationPins]. destruct (ts_IntegrationContract spec) as [c|] eqn:Ec; [|by intros ?%elem_of_nil].
  intros Hp. eapply (source_pins now db (pending_task spec)); try done; cbn; by rewrite Ec.
Qed.

Lemma goals_length : Z.of_nat (length goals) = ts_WorkerCount spec.
Proof. unfold goals. rewrite length_zip_with. pose proof (so_hashes _ Hspec). pose proof (so_refs _ Hspec). lia. Qed.

Lemma no_workers i : db_task_workers db !! (id, i) = None.
Proof.
  destruct (db_task_workers db !! (id, i)) as [w|] eqn:E; [|done]. destruct (tv_fk _ _ Hinv _ _ _ E) as [g Hg]. congruence.
Qed.

(** The workers of the new task: queued, never leased, unbound, without evidence. *)
Definition fresh_worker (v : TaskWorker) : Prop :=
  wk_State v = StateQueued /\ wk_CancelRequested v = false /\ wk_Attempt v = 0 /\ wk_Fence v = 0 /\ wk_LeaseID v = "" /\ wk_OperationID v = "" /\
  wk_WorktreeID v = "" /\ wk_WorkspaceID v = "" /\ wk_RuntimeID v = "" /\ wk_WorktreeCleaned v = false /\
  wk_AcceptanceReceipt v = None /\ wk_TestAcceptanceReceipt v = None /\ wk_ObjectiveReceipt v = None.

Lemma created_workers : exists ws, workers_read db' id ws /\ length ws = length goals /\
  wk_GoalHash <$> ws = ts_WorkerGoalHashes spec /\ wk_GoalRef <$> ws = ts_WorkerGoalRefs spec /\
  (forall i w, ws !! i = Some w -> worker_ok (created_group spec id now) (Z.of_nat i) w) /\ Forall fresh_worker ws.
Proof.
  destruct (list_choice (fun n (g : string * string) v => worker_reads db' id (Z.of_nat n) v /\ worker_ok (created_group spec id now) (Z.of_nat n) v /\
    wk_GoalHash v = g.1 /\ wk_GoalRef v = g.2 /\ fresh_worker v) goals) as (ws & Hlen & Hws).
  { intros n [hash ref] Hn. destruct (cr_new _ _ _ _ _ _ _ Hrows n hash ref Hn) as (job & Hw & Hr & Hj & _). rewrite Z.add_0_l in *.
    set (row := {| wr_ordinal := Z.of_nat n; wr_worker := new_worker job ref; wr_job := worker_job spec (Z.of_nat n) hash now |}).
    exists (worker_view row None None None). split_and!; [| |done|done|done].
    - exists row. split; [unfold worker_at; rewrite Hw; cbn; by rewrite Hr|]. apply worker_of_row_ok. split; [done|]. by exists None, None, None.
    - eapply (row_worker_ok now); try done. by apply create_jobs_inv. }
  exists ws. assert (Hlz : length goals = length (ts_WorkerGoalHashes spec) /\ length goals = length (ts_WorkerGoalRefs spec)).
  { pose proof goals_length. pose proof (so_hashes _ Hspec). pose proof (so_refs _ Hspec). lia. }
  assert (Hget : forall i v, ws !! i = Some v -> exists g, goals !! i = Some g /\ worker_reads db' id (Z.of_nat i) v /\
    worker_ok (created_group spec id now) (Z.of_nat i) v /\ wk_GoalHash v = g.1 /\ wk_GoalRef v = g.2 /\ fresh_worker v).
  { intros i v Hv. destruct (lookup_lt_is_Some_2 goals i) as [g Hg]; [rewrite <- Hlen; by eapply lookup_lt_Some|]. exists g. split; [done|]. by apply (Hws i g v). }
  split_and!; [split|done|..].
  - apply ordinals_seq. intros i. split.
    + intros [w Hw]. destruct (cr_old_workers _ _ _ _ _ _ _ Hrows _ _ Hw) as [Ho|[_ (n & [= ->] & Hn)]]; [cbn in Ho; by rewrite no_workers in Ho|]. exists n. split; lia.
    + intros (k & -> & Hk). destruct (lookup_lt_is_Some_2 goals k) as [[hash ref] Hg]; [lia|].
      destruct (cr_new _ _ _ _ _ _ _ Hrows k hash ref Hg) as (job & Hw & _). rewrite Z.add_0_l in Hw. by eexists.
  - intros i w Hw. by destruct (Hget i w Hw) as (? & _ & ? & _).
  - apply list_eq_same_length with (length ws); [lia|by rewrite length_fmap|]. intros i x y _ Hx Hy. apply list_lookup_fmap_Some in Hx as (v & Ev & Hv).
    destruct (Hget i v Hv) as ([hash ref] & [Hh _]%lookup_zip_Some & _ & _ & E & _). cbn in E. congruence.
  - apply list_eq_same_length with (length ws); [lia|by rewrite length_fmap|]. intros i x y _ Hx Hy. apply list_lookup_fmap_Some in Hx as (v & Ev & Hv).
    destruct (Hget i v Hv) as ([hash ref] & [_ Hh]%lookup_zip_Some & _ & _ & _ & E & _). cbn in E. congruence.
  - intros i w Hw. by destruct (Hget i w Hw) as (? & _ & _ & ? & _).
  - apply Forall_forall. intros w [i Hw]%list_elem_of_lookup. by destruct (Hget i w Hw) as (? & _ & _ & _ & _ & _ & ?).
Qed.

Lemma created_task : exists ws, task_ok db' id (stored_group spec now) (created_group spec id now) ws /\
  wk_GoalHash <$> ws = ts_WorkerGoalHashes spec /\ wk_GoalRef <$> ws = ts_WorkerGoalRefs spec /\ Forall fresh_worker ws.
Proof.
  destruct created_workers as (ws & Hr & Hlen & Hh & Hrf & Hok & Hfr). exists ws. split_and!; [|done..]. split; try done.
  - apply created_group_reads; [done|]. apply Forall_forall. intros p Hp. eapply (pin_fence now db); [done|].
    pose proof (so_integration _ Hspec) as Hi. apply new_integration_pins. cbn [created_group tk_IntegrationPins]. unfold validTaskIntegrationSpec in Hi.
    destruct (ts_IntegrationContract spec); [done|]. apply bool_decide_eq_true, nil_length_inv in Hi. rewrite Hi in Hp. by apply elem_of_nil in Hp.
  - rewrite Hlen. apply goals_length.
  - rewrite Hh, Hrf. by apply created_group_valid.
Qed.

Lemma tasks_inv_create : tasks_inv now db'.
Proof.
  pose proof Hinv as [Htask Hfk Hjob Hkeys Hpins]. pose proof Hrows as [Hgr Hdep Hj Hw Hnew How Hoj Hdis].
  assert (Hg : forall k, db_task_groups db' !! k = if decide (id = k) then Some (stored_group spec now) else db_task_groups db !! k).
  { intros k. rewrite Hgr. cbn. by rewrite lookup_insert. }
  assert (Hold : forall k i w, db_task_workers db' !! (k, i) = Some w -> k <> id -> db_task_workers db !! (k, i) = Some w).
  { intros k i w Hk Hne. destruct (How _ _ Hk) as [?|[_ (n & [= -> _] & _)]]; done. }
  split.
  - intros k g Hk. rewrite Hg in Hk. destruct (decide (id = k)) as [<-|Hne].
    + injection Hk as <-. destruct created_task as (ws & Hok & _). exists (created_group spec id now), ws. split; [done|]. cbn. lia.
    + destruct (Htask k g Hk) as (group & ws & Hok & Hc). exists group. destruct (task_ok_next db db' k g group ws Hok) as [ws' ?]; [| |by exists ws'].
      * intros i. split; [intros [w Hx]; apply Hold in Hx; [by eexists|done]|]. intros [w Hx]. exists w. by apply Hw.
      * intros i v Hv. exists v. split_and!; [|by apply (to_worker _ _ _ _ _ Hok)|apply follows_refl].
        destruct (proj2 (to_workers _ _ _ _ _ Hok) i v Hv) as (row & Hrow & Hread). exists row. split; [|done]. unfold worker_at in *.
        destruct (db_task_workers db !! _) as [w|] eqn:Ew; cbn in Hrow; [|done]. rewrite (Hw _ _ Ew). cbn.
        destruct (db_jobs db !! tw_job_id w) as [r|] eqn:Er; [|done]. by rewrite (Hj _ _ Er).
  - intros k i w Hk. rewrite Hg. destruct (decide (id = k)) as [|Hne]; [done|]. by eapply Hfk, Hold.
  - by apply Hdis.
  - intros k k' g g' Hk Hk' E. rewrite Hg in Hk, Hk'. destruct (decide (id = k)) as [<-|Hne], (decide (id = k')) as [<-|Hne']; [done| | |by eapply Hkeys].
    + injection Hk as <-. rewrite stored_key in E. exfalso. by apply (Hkey _ _ Hk').
    + injection Hk' as <-. rewrite stored_key in E. exfalso. by apply (Hkey _ _ Hk).
  - intros k i g group p Hk Hgrp Hlive Hp. apply (pin_held_mono db db'); [|exact Hw|exact Hj]. rewrite Hg in Hk. destruct (decide (id = k)) as [<-|Hne].
    + injection Hk as <-. destruct created_task as (ws & Hok & _). rewrite (to_group _ _ _ _ _ Hok) in Hgrp. injection Hgrp as <-. by apply new_integration_pins.
    + eapply (Hpins k i); try done. destruct Hlive as (w & r & Hwk & Hr & Hrest). apply Hold in Hwk; [|done]. exists w, r. split_and!; try done; try tauto.
      destruct (Htask k g Hk) as (group' & ws & Hok & _). destruct (task_worker_row _ _ _ _ _ _ _ Hok Hwk) as (r0 & _ & _ & _ & _ & Hr0 & _).
      pose proof (Hj _ _ Hr0) as Hr1. rewrite Hr in Hr1. by injection Hr1 as ->.
Qed.
End Create.

(** ** Every step *)
Lemma step_jobs_inv now db db' : in_int64 now -> jobs_inv now db -> task_step now db db' -> jobs_inv now db'.
Proof.
  intros Hn Hj Hs. destruct Hs as [db' _ Hj' _|job r Hr Hst| | | | | |spec id db1 db' Hsp Hid _ Hg Hc]; try done.
  - intros k x Hx. cbn in Hx. rewrite lookup_insert in Hx. case_decide as E; [|by apply Hj]. subst k. injection Hx as <-.
    eapply goal_unavailable_inv; [by apply Hj|done|done|done].
  - apply validateTaskSpec_ok in Hsp. apply insert_group_some in Hg as (_ & _ & ->). apply workers_created_rows in Hc.
    by eapply (create_jobs_inv now db spec id db').
Qed.

Lemma step_tasks_inv now db db' : in_int64 now -> jobs_inv now db -> tasks_inv now db -> task_step now db db' -> tasks_inv now db'.
Proof.
  intros Hn Hj Hi Hs. pose proof (step_jobs_inv now db db' Hn Hj Hs) as Hj'.
  destruct Hs as [db' Ht _ Hm|job r Hr Hst|id i w r w' Hw Hr Hst Hb|id i t worker w w' Ht H0' Hwk Hcl Hw Hrec|id i t worker w Ht H0' Hwk Hcl Hw Hwt Hterm Hev Hreq
    |id g Hg|id g t r Hg Ht Hno Hv Hat Hsrc|spec id db1 db' Hsp Hid Hsrc Hg Hc].
  - eapply tasks_inv_jobs; try done. intros k w r Hw Hr. destruct (Hm k w r Hw Hr) as (r' & Hr' & Hsteps). exists r'. split; [done|by apply steps_moved].
  - eapply tasks_inv_jobs; try done. intros k w x _ Hx. cbn. rewrite lookup_insert. case_decide as E; [|exists x; split; [done|by left]].
    subst job. rewrite Hr in Hx. injection Hx as <-. eexists. split; [done|]. right. split_and!; [|done..]. by destruct Hst as [->| ->].
  - by eapply tasks_inv_bind.
  - by eapply tasks_inv_record.
  - by eapply tasks_inv_clean.
  - by apply tasks_inv_touch.
  - by eapply tasks_inv_integrate.
  - apply validateTaskSpec_ok in Hsp. apply insert_group_some in Hg as (Hf & Hk & ->). apply workers_created_rows in Hc.
    eapply (tasks_inv_create now db spec id db'); try done. intros k g Hkg. rewrite <- (stored_key now spec). by eapply Hk.
Qed.
End TaskCreate.
