(* ===== verification/TaskOps.v ===== *)
(** * The operations on tasks take steps

    Every operation of [TaskStore] leads, on every path and under every driver fault,
    along the steps of [TaskSteps], and keeps the invariant of the queue. *)

From S2P Require Import Prelude GoStrings GoRegexp GoLanguage Effects GoJson GoTime GoReflect GoRecord PolicyScan WorkqueueTypes Admission Fairness WorkqueueRows WorkqueueStore WorkqueueInv WorkqueueOps WorkqueueEnqueue WorkqueueSystem TaskTypes TaskRecord TaskRules TaskRoundtrip TaskRows TaskStore TaskFacts TaskSteps TaskInv TaskCreate.

(** ** The statements of a transaction

    What a body leaves behind when it fails does not matter: it is rolled back. *)
Definition body {A} (F : bool -> Prop) (D : DB) (m : M DB A) (Q : A -> DB -> Prop) : Prop := hoare F (eq D) m Q (fun _ _ => True).

Section Bodies.
Context {F : bool -> Prop}.
Implicit Types (D : DB).

Lemma body_ret {A} D (a : A) (Q : A -> DB -> Prop) : Q a D -> body F D (mret a) Q.
Proof. intros HQ. apply hoare_ret. by intros s <-. Qed.
Lemma body_fail {A} D e (Q : A -> DB -> Prop) : body F D (mfail e) Q.
Proof. by apply hoare_fail. Qed.

Lemma body_bind {A B} D (m : M DB A) (k : A -> M DB B) (R : A -> DB -> Prop) Q :
  body F D m R -> (forall a D', R a D' -> body F D' (k a) Q) -> body F D (mbind m k) Q.
Proof. intros Hm Hk. eapply hoare_bind; [exact Hm|]. intros a s fs HF Hs. by apply (Hk a s). Qed.

Lemma body_read {A B} D (m : M DB A) (k : A -> M DB B) (R : A -> Prop) Q :
  hoare F (eq D) m (fun a db => db = D /\ R a) (fun _ db => db = D) -> (forall a, R a -> body F D (k a) Q) -> body F D (mbind m k) Q.
Proof.
  intros Hm Hk. eapply (body_bind _ _ _ (fun a db => db = D /\ R a)); [eapply hoare_conseq; [exact Hm|done|done|done]|]. intros a D' [-> Ha]. auto.
Qed.

Lemma body_guard {B} D c e (k : unit -> M DB B) Q : (c = false -> body F D (k tt) Q) -> body F D (mbind (mguard c e) k) Q.
Proof.
  intros Hk. eapply (body_read _ _ _ (fun _ => c = false)); [apply hoare_guard; by intros s <-|]. intros [] Hc. auto.
Qed.

Lemma body_lift {A B} D (r : result A) (k : A -> M DB B) Q : (forall a, r = Ok a -> body F D (k a) Q) -> body F D (mbind (mlift r) k) Q.
Proof. intros Hk. eapply (body_read _ _ _ (fun a => r = Ok a)); [apply hoare_lift; by intros s ? <-|auto]. Qed.

Lemma body_get {B} D (k : DB -> M DB B) Q : body F D (k D) Q -> body F D (mbind mget k) Q.
Proof. intros Hk. eapply (body_read _ _ _ (fun a => a = D)); [apply hoare_get; by intros s <-|]. by intros a ->. Qed.

Lemma body_driver {A B} D e (o : option A) (k : A -> M DB B) Q : (forall a, o = Some a -> body F D (k a) Q) -> body F D (mbind (driver e o) k) Q.
Proof. intros Hk. eapply (body_read _ _ _ (fun a => o = Some a)); [apply hoare_driver; [by intros s a <-|by intros s <-]|auto]. Qed.

Lemma body_random {B} D e prefix random (k : string -> M DB B) Q :
  (forall b, random = Some b -> body F D (k (prefix +:+ EncodeToString b)) Q) -> body F D (mbind (randomID e prefix random) k) Q.
Proof.
  intros Hk. eapply (body_read _ _ _ (fun id => exists b, random = Some b /\ id = prefix +:+ EncodeToString b)).
  - eapply hoare_conseq; [apply hoare_randomID|done|done|by intros e' s [-> _]].
  - intros id (b & Hb & ->). auto.
Qed.

Lemma body_try {A B} D (m : M DB A) (k : result A -> M DB B) (R : A -> Prop) Q :
  hoare F (eq D) m (fun a db => db = D /\ R a) (fun _ db => db = D) ->
  (forall a, R a -> body F D (k (Ok a)) Q) -> (forall e, body F D (k (Err e)) Q) -> body F D (mbind (mtry m) k) Q.
Proof.
  intros Hm H1 H2. eapply (body_read _ _ _ (fun r => match r with Ok a => R a | Err _ => True end)).
  - apply hoare_try. eapply hoare_conseq; [exact Hm|done|done|]. by intros e s ->.
  - intros [a|e]; auto.
Qed.

Lemma body_task {B} D e id (k : TaskGroup -> M DB B) Q :
  (forall t, task_of D id = Ok (Some t) -> body F D (k t) Q) -> body F D (mbind (require_task e id) k) Q.
Proof. intros Hk. eapply body_read; [apply hoare_require_task|]. auto. Qed.

Lemma body_worker {B} D e id ordinal (k : TaskGroup * TaskWorker -> M DB B) Q :
  (forall t w, task_of D id = Ok (Some t) -> tk_Workers t !! Z.to_nat ordinal = Some w -> body F D (k (t, w)) Q) ->
  body F D (mbind (require_worker e id ordinal) k) Q.
Proof. intros Hk. eapply body_read; [apply hoare_require_worker|]. intros [t w] [Ht Hw]. auto. Qed.

Lemma body_select {B} D e id ordinal (k : TaskWorkerRow -> M DB B) Q :
  (forall w, db_task_workers D !! (id, ordinal) = Some w -> body F D (k w) Q) -> body F D (mbind (select_worker e id ordinal) k) Q.
Proof.
  intros Hk. eapply (body_read _ _ _ (fun w => db_task_workers D !! (id, ordinal) = Some w)); [|auto].
  eapply (hoare_bind _ _ _ (fun X s => s = D /\ X = D)); [apply hoare_get; by intros s <-|]. intros X.
  apply hoare_driver; [by intros s w [-> ->]|by intros s [-> ->]].
Qed.

Lemma body_update_worker {B} D e id ordinal cond set (k : Z -> M DB B) Q :
  (forall w, db_task_workers D !! (id, ordinal) = Some w -> cond w = true ->
     body F (with_workers_table (<[(id, ordinal) := set w]> (db_task_workers D)) D) (k 1) Q) ->
  ((forall w, db_task_workers D !! (id, ordinal) = Some w -> cond w = false) -> body F D (k 0) Q) ->
  body F D (mbind (exec_update_worker e id ordinal cond set) k) Q.
Proof.
  intros H1 H2. eapply (body_bind _ _ _ (fun n D' => (exists w, db_task_workers D !! (id, ordinal) = Some w /\ cond w = true /\ n = 1 /\
      D' = with_workers_table (<[(id, ordinal) := set w]> (db_task_workers D)) D) \/
      (n = 0 /\ D' = D /\ forall w, db_task_workers D !! (id, ordinal) = Some w -> cond w = false))).
  - apply body_get, body_driver. intros _ _. destruct (db_task_workers D !! (id, ordinal)) as [w|] eqn:Ew; [destruct (cond w) eqn:Ec|].
    + eapply (hoare_bind _ _ _ (fun _ D' => D' = with_workers_table (<[(id, ordinal) := set w]> (db_task_workers D)) D)); [by apply hoare_put|].
      intros _. apply hoare_ret. intros s ->. left. by exists w.
    + apply body_ret. right. split_and!; [done..|]. by intros ? [= <-].
    + apply body_ret. right. by split_and!.
  - intros n D' [(w & Hw & Hc & -> & ->)|(-> & -> & Hn)]; auto.
Qed.

Lemma body_update_group D e id cond set (Q : unit -> DB -> Prop) :
  (forall g, db_task_groups D !! id = Some g -> cond g = true -> Q tt (with_groups (<[id := set g]> (db_task_groups D)) D)) ->
  ((forall g, db_task_groups D !! id = Some g -> cond g = false) -> Q tt D) ->
  body F D (exec_update_group e id cond set) Q.
Proof.
  intros H1 H2. apply body_get, body_driver. intros _ _. destruct (db_task_groups D !! id) as [g|] eqn:Eg; [destruct (cond g) eqn:Ec|].
  - apply hoare_put. intros s <-. by apply H1.
  - apply body_ret, H2. by intros ? [= <-].
  - by apply body_ret, H2.
Qed.
End Bodies.

Section Steps.
Context `{SystemSummaries} `{SqlScan} {F : bool -> Prop}.

Lemma body_job {B} now D e id (k : Job -> M DB B) Q : jobs_inv now D ->
  (forall r, db_jobs D !! id = Some r -> body F D (k (job_of_row id r)) Q) -> body F D (mbind (require_job e id) k) Q.
Proof.
  intros Hj Hk. eapply (body_read _ _ _ (fun job => exists r, db_jobs D !! id = Some r /\ job = job_of_row id r)).
  - unfold require_job. eapply (hoare_bind _ _ _ (fun r db => db = D /\ match r with Ok o => o = job_of_row id <$> db_jobs D !! id | Err _ => True end)).
    + apply hoare_try. eapply hoare_conseq; [by apply (reads_jobByID F now id D)|done|done|]. by intros e' s [-> _].
    + intros [[job|]|e']; [|by apply hoare_fail; intros s [-> _]..]. apply hoare_ret. intros s [-> Ho].
      destruct (db_jobs D !! id) as [r|]; [|done]. injection Ho as ->. split; [done|]. by exists r.
  - intros job (r & Hr & ->). auto.
Qed.

(** ** Steps within an operation *)
Definition stepped (now : Z) (s0 : Store) (db : DB) : Prop := store_inv F now (set_db db s0) /\ rtc (task_step now) (st_db s0) db.

Lemma store_inv_mono now now' s : now <= now' -> store_inv F now s -> store_inv F now' s.
Proof. intros Hle []. split; try done. by eapply jobs_inv_mono. Qed.

Lemma stepped_refl now s0 : store_inv F now s0 -> stepped now s0 (st_db s0).
Proof. intros Hi. split; [by rewrite set_db_same|apply rtc_refl]. Qed.

Lemma stepped_workers now s0 db ws : stepped now s0 db -> task_step now db (with_workers_table ws db) -> stepped now s0 (with_workers_table ws db).
Proof. intros [Hi Hs] Hst. split; [by destruct Hi|by eapply rtc_r]. Qed.

Lemma stepped_groups now s0 db gs : stepped now s0 db -> task_step now db (with_groups gs db) -> stepped now s0 (with_groups gs db).
Proof. intros [Hi Hs] Hst. split; [by destruct Hi|by eapply rtc_r]. Qed.

Lemma stepped_evolves now s0 db : in_int64 now -> store_inv F now s0 -> tx_ok F now (st_db s0) db -> stepped now s0 db.
Proof.
  intros Hn Hi Hok. assert (Et : UnixNano now = now) by (by apply wrap64_id). split.
  - rewrite <- Et. by eapply (store_inv_evolves F now now s0 (set_db db s0)); [..|apply Hi|].
  - apply rtc_once. destruct Hok as [[He Hj _] _]. rewrite Et in He, Hj. apply step_jobs; [apply He|done|]. intros k w r _ Hr.
    destruct He as (_ & _ & He). specialize (He (tw_job_id w)). rewrite Hr in He. inversion He; subst. eauto.
Qed.

Lemma stepped_jobs now s0 db : stepped now s0 db -> jobs_inv now db.
Proof. intros [Hi _]. apply (si_jobs _ _ _ Hi). Qed.

(** ** Whole transactions *)
Lemma hoare_transaction {A} now s0 e (m : M DB A) ec (Q : A -> DB -> Prop) : store_inv F now s0 ->
  body F (st_db s0) m (fun a db => stepped now s0 db /\ Q a db) ->
  hoare F (eq s0) (transaction e m ec) (fun a s => exists db, s = set_db db s0 /\ stepped now s0 db /\ Q a db) (fun _ s => s = s0).
Proof.
  intros Hi Hb. unfold transaction. eapply hoare_with_tx; [exact Hb| |done]. intros a db [Hs HQ].
  eapply (hoare_bind _ _ _ (fun _ s => s = set_db db s0)); [eapply hoare_conseq; [apply hoare_commit|done|done|by intros e' s [-> _]]|].
  intros _. apply hoare_ret. intros s ->. by exists db.
Qed.

(** What an operation leaves behind, whether it succeeds or fails. *)
Definition task_post (now : Z) (s0 s : Store) : Prop :=
  store_inv F now s /\ st_config s = st_config s0 /\ rtc (task_step now) (st_db s0) (st_db s).

Lemma post_refl now s0 : store_inv F now s0 -> task_post now s0 s0.
Proof. intros Hi. split_and!; [done|done|apply rtc_refl]. Qed.

Lemma post_stepped now s0 db : stepped now s0 db -> task_post now s0 (set_db db s0).
Proof. by intros [Hi Hs]. Qed.

Definition effect {A} (now : Z) (s0 : Store) (m : M Store A) : Prop :=
  hoare F (eq s0) m (fun _ => task_post now s0) (fun _ => task_post now s0).

Lemma effect_transaction {A} now s0 e (m : M DB A) ec : store_inv F now s0 ->
  body F (st_db s0) m (fun _ => stepped now s0) -> effect now s0 (transaction e m ec).
Proof.
  intros Hi Hb. eapply hoare_conseq; [apply (hoare_transaction now s0 e m ec (fun _ _ => True) Hi)|done| |].
  - eapply hoare_conseq; [exact Hb|done| |done]. by intros a s ?.
  - intros a s (db & -> & Hs & _). by apply post_stepped.
  - intros e' s ->. by apply post_refl.
Qed.

Lemma effect_guard {B} now s0 c e (k : unit -> M Store B) : store_inv F now s0 -> (c = false -> effect now s0 (k tt)) -> effect now s0 (mbind (mguard c e) k).
Proof.
  intros Hi Hk. eapply (hoare_bind _ _ _ (fun _ s => s = s0 /\ c = false)); [apply hoare_guard; intros s <-; [intros _; by apply post_refl|done]|].
  intros [] s fs HF [-> Hc]. by apply Hk.
Qed.

Lemma effect_get {B} now s0 (k : Store -> M Store B) : effect now s0 (k s0) -> effect now s0 (mbind mget k).
Proof. intros Hk. eapply (hoare_bind _ _ _ (fun D s => s = s0 /\ D = s0)); [apply hoare_get; by intros s <-|]. intros D s fs HF [-> ->]. by apply Hk. Qed.

(** What follows only reads. *)
Definition quiet {S A} (m : M S A) : Prop := forall s, hoare F (eq s) m (fun _ s' => s' = s) (fun _ s' => s' = s).

Lemma quiet_ret {S A} (a : A) : quiet (S := S) (mret a).
Proof. intros s. by apply hoare_ret. Qed.
Lemma quiet_fail {S A} e : quiet (S := S) (A := A) (mfail e).
Proof. intros s. by apply hoare_fail. Qed.
Lemma quiet_bind {S A B} (m : M S A) (k : A -> M S B) : quiet m -> (forall a, quiet (k a)) -> quiet (mbind m k).
Proof. intros Hm Hk s. eapply hoare_bind; [apply Hm|]. intros a s' fs HF ->. by apply Hk. Qed.
Lemma quiet_try {S A} (m : M S A) : quiet m -> quiet (mtry m).
Proof. intros Hm s. apply hoare_try. apply Hm. Qed.
Lemma quiet_guard {S} c e : quiet (S := S) (mguard c e).
Proof. intros s. by apply hoare_guard. Qed.
Lemma quiet_get {S} : quiet (S := S) mget.
Proof. intros s. by apply hoare_get. Qed.
Lemma quiet_driver {S A} e (o : option A) : quiet (S := S) (driver e o).
Proof. intros s. by apply hoare_driver. Qed.
Lemma quiet_tx {A} db (m : M DB A) : hoare F (eq db) m (fun _ _ => True) (fun _ _ => True) -> quiet (tx db m).
Proof.
  intros Hm s. eapply hoare_conseq; [apply (hoare_tx F (eq db) m _ _ s db Hm eq_refl)|done|by intros a s' [-> _]|by intros e s' [-> _]].
Qed.

Lemma quiet_bind_after {A B} now s0 (m : M Store A) (k : A -> M Store B) : effect now s0 m -> (forall a, quiet (k a)) -> effect now s0 (mbind m k).
Proof.
  intros Hm Hk. eapply hoare_bind; [exact Hm|]. intros a s fs HF Hs. specialize (Hk a s s fs HF eq_refl). destruct (k a s fs) as [[[b|e] s'] fs']; by destruct Hk as [-> ?].
Qed.

Lemma quiet_taskUnlocked id : quiet (taskUnlocked id).
Proof.
  apply quiet_bind; [apply quiet_get|]. intros s. apply quiet_bind; [|intros; apply quiet_ret]. apply quiet_tx.
  eapply hoare_conseq; [apply hoare_taskByID|done|done|done].
Qed.
Lemma quiet_reread e id : quiet (reread_task e id).
Proof.
  apply quiet_bind; [apply quiet_try, quiet_taskUnlocked|]. intros [[t|]|]; [apply quiet_ret|apply quiet_fail..].
Qed.
Lemma quiet_call_task e id : quiet (call_task e id).
Proof.
  apply quiet_bind; [apply quiet_try, quiet_bind; [apply quiet_guard|intros; apply quiet_taskUnlocked]|]. intros [[t|]|]; [apply quiet_ret|apply quiet_fail..].
Qed.

(** ** The operations *)
Section Operations.
Context (now : Z) (s0 : Store).
Hypotheses (Hnow : in_int64 now) (Hinv : store_inv F now s0).

Lemma now_nano : UnixNano now = now.
Proof. by apply wrap64_id. Qed.

Lemma BindTaskWorkerOperation_effect b : effect now s0 (BindTaskWorkerOperation b now).
Proof.
  unfold BindTaskWorkerOperation. apply effect_guard; [done|]. intros Hg. apply effect_transaction; [done|]. breflect.
  unfold BindTaskWorkerOperation_tx. apply body_select. intros w Hw. apply body_guard. intros Hj.
  apply (body_job now); [apply Hinv|]. intros r Hr. apply body_guard. intros Hl. apply body_guard. intros Hop.
  unfold leased_under in Hl. breflect. destruct (bool_decide_reflect (tw_operation_id w = "")) as [E|E].
  - eapply (body_bind _ _ _ (fun _ => stepped now s0)); [|intros; by apply body_ret].
    apply body_update_worker; [|intros; apply body_ret, stepped_refl; done]. intros w' Hw' Hc. apply body_ret. rewrite Hw in Hw'. injection Hw' as <-.
    apply stepped_workers; [by apply stepped_refl|]. eapply step_bind; try done. by apply binds_operation.
  - eapply (body_bind _ _ _ (fun _ => stepped now s0)); [|intros; by apply body_ret]. by apply body_ret, stepped_refl.
Qed.

Lemma BindTaskWorker_effect b : effect now s0 (BindTaskWorker b now).
Proof.
  unfold BindTaskWorker. apply effect_guard; [done|]. intros Hg. apply effect_transaction; [done|]. unfold validTaskWorkerBinding in Hg. breflect.
  unfold BindTaskWorker_tx. apply body_select. intros w Hw. apply body_guard. intros Hj.
  apply (body_job now); [apply Hinv|]. intros r Hr. apply body_guard. intros Hl. apply body_guard. intros Hop.
  unfold leased_under in Hl. breflect. eapply (body_bind _ _ _ (fun _ => stepped now s0)); [|intros; by apply body_ret].
  destruct (bool_decide_reflect (tw_worktree_id w = "")) as [E|E].
  { apply body_update_worker; [|intros; apply body_ret, stepped_refl; done]. intros w' Hw' Hc. apply body_ret. rewrite Hw in Hw'. injection Hw' as <-.
    apply stepped_workers; [by apply stepped_refl|]. eapply step_bind; try done. by apply binds_worktree. }
  destruct (bool_decide_reflect (tw_runtime_id w = "")) as [E'|E'], (bool_decide_reflect (wb_RuntimeID b = "")) as [Eb|Eb]; cbn [andb negb];
    try (by apply body_ret, stepped_refl).
  apply body_update_worker; [|intros; apply body_ret, stepped_refl; done]. intros w' Hw' Hc. apply body_ret. rewrite Hw in Hw'. injection Hw' as <-.
  apply stepped_workers; [by apply stepped_refl|]. eapply step_bind; try done. apply binds_runtime; try done.
  match goal with Hx : optional_pattern taskRuntimePattern _ = true |- _ => apply optional_pattern_cases in Hx as [?|?]; done end.
Qed.

Lemma body_touch {B} D id e (k : unit -> M DB B) Q : stepped now s0 D -> (forall db, stepped now s0 db -> body F db (k tt) Q) ->
  body F D (mbind (touch_group e id now) k) Q.
Proof.
  intros HD HQ. eapply (body_bind _ _ _ (fun _ => stepped now s0)); [|intros []; apply HQ]. apply body_update_group; [|done]. intros g Hg _.
  apply stepped_groups; [done|]. rewrite now_nano. by apply step_touch.
Qed.

Lemma body_marshal {A B} D e (c : codec A) x (k : string -> M DB B) Q : body F D (k (Marshal c x)) Q -> body F D (mbind (marshal e c x) k) Q.
Proof.
  intros Hk. unfold marshal, MarshalErr. destruct (encodable _); [exact Hk|]. by apply hoare_fail.
Qed.

Lemma valid_ordinal_nonneg i : valid_ordinal i = true -> 0 <= i.
Proof. unfold valid_ordinal. intros Hv. breflect. done. Qed.

Lemma RecordTaskWorkerAcceptance_effect receipt : effect now s0 (RecordTaskWorkerAcceptance receipt now).
Proof.
  unfold RecordTaskWorkerAcceptance. apply effect_guard; [done|]. intros Hg. apply quiet_bind_after; [|intros []; apply quiet_ret]. apply effect_transaction; [done|].
  breflect. unfold RecordTaskWorkerAcceptance_tx. apply body_worker. intros t w Ht Hw. destruct (wk_AcceptanceReceipt w) as [x|] eqn:Ex.
  { apply body_guard. intros _. by apply body_ret, stepped_refl. }
  apply body_guard. intros Hv. apply body_guard. intros Hok. apply body_marshal. breflect.
  apply body_update_worker.
  - intros row Hrow Hc. apply body_touch; [|intros; by apply body_ret].
    apply stepped_workers; [by apply stepped_refl|]. eapply step_record; try done; [by apply valid_ordinal_nonneg|]. by apply records_acceptance.
  - intros _. apply body_touch; [by apply stepped_refl|intros; by apply body_ret].
Qed.

Lemma RecordTaskWorkerTestReceipt_effect receipt : effect now s0 (RecordTaskWorkerTestReceipt receipt now).
Proof.
  unfold RecordTaskWorkerTestReceipt. apply effect_guard; [done|]. intros Hg. apply quiet_bind_after; [|intros []; apply quiet_ret]. apply effect_transaction; [done|].
  breflect. unfold RecordTaskWorkerTestReceipt_tx. apply body_worker. intros t w Ht Hw. destruct (wk_TestAcceptanceReceipt w) as [x|] eqn:Ex.
  { apply body_guard. intros _. by apply body_ret, stepped_refl. }
  apply body_guard. intros Hv. apply body_guard. intros Hok. apply body_marshal. breflect.
  apply body_update_worker; [|intros _; by apply body_guard]. intros row Hrow Hc. apply body_guard. intros _.
  apply body_touch; [|intros; by apply body_ret].
  apply stepped_workers; [by apply stepped_refl|]. eapply step_record; try done; [by apply valid_ordinal_nonneg|]. by apply records_test.
Qed.

Lemma RecordTaskWorkerObjective_effect receipt : effect now s0 (RecordTaskWorkerObjective receipt now).
Proof.
  unfold RecordTaskWorkerObjective. apply effect_guard; [done|]. intros Hg. apply quiet_bind_after; [|intros []; apply quiet_ret]. apply effect_transaction; [done|].
  breflect. unfold RecordTaskWorkerObjective_tx. apply body_worker. intros t w Ht Hw. destruct (wk_ObjectiveReceipt w) as [x|] eqn:Ex.
  { apply body_guard. intros _. by apply body_ret, stepped_refl. }
  apply body_guard. intros Hok. apply body_marshal. breflect.
  apply body_update_worker; [|intros _; by apply body_guard]. intros row Hrow Hc. apply body_guard. intros _.
  apply body_touch; [|intros; by apply body_ret].
  apply stepped_workers; [by apply stepped_refl|]. eapply step_record; try done; [by apply valid_ordinal_nonneg|]. by apply records_objective.
Qed.

Lemma hoare_sources D task :
  hoare F (eq D) (validateTaskIntegrationSourcesTx task) (fun _ db => db = D /\ sources_ok D task) (fun _ db => db = D).
Proof.
  unfold validateTaskIntegrationSourcesTx, sources_ok. destruct (tk_IntegrationContract task) as [c|]; [|apply hoare_ret; intros s <-; by split].
  eapply hoare_bind; [apply hoare_require_task|]. intros source. apply hoare_lift; [|by intros s e [-> _]].
  intros s [] [-> Hs] Hv. split; [done|]. intros c' [= <-]. by exists source.
Qed.

Lemma RecordTaskIntegrationReceipt_effect receipt : tasks_inv now (st_db s0) -> effect now s0 (RecordTaskIntegrationReceipt receipt now).
Proof.
  intros Hti. unfold RecordTaskIntegrationReceipt. apply effect_guard; [done|]. intros Hg. apply effect_transaction; [done|].
  unfold RecordTaskIntegrationReceipt_tx. apply body_task. intros t Ht. destruct (tk_IntegrationReceipt t) as [x|] eqn:Ex.
  { apply body_guard. intros _. by apply body_ret, stepped_refl. }
  apply body_guard. intros Hv. eapply body_try; [apply hoare_sources| |intros e; apply body_guard; done]. intros [] Hsrc.
  apply body_guard. intros _. eapply (body_bind _ _ _ (fun _ => stepped now s0)); [|intros; by apply body_ret].
  apply body_update_group; [|intros _; by apply stepped_refl]. intros g Hgr Hc. apply stepped_groups; [by apply stepped_refl|]. rewrite now_nano.
  destruct (tasks_inv_read now _ _ t Hti Ht) as (g0 & group & ws & _ & Hok & _ & Et).
  assert (Eid : tk_ID t = ir_TaskID receipt) by (rewrite Et; cbn; by apply (group_of_row_id _ g0), Hok). rewrite Eid in *. breflect.
  rewrite integration_receipt_encodes by (cbn; by apply int64_dated). by eapply step_integrate.
Qed.

Lemma hoare_required D source :
  hoare F (eq D) (taskRequiredByIntegration source) (fun b db => db = D /\ (b = false -> requiring_integrations D source = [])) (fun _ db => db = D).
Proof.
  unfold taskRequiredByIntegration. eapply (hoare_bind _ _ _ (fun X db => db = D /\ X = D)); [apply hoare_get; by intros s <-|]. intros X.
  eapply (hoare_bind _ _ _ (fun row db => db = D /\ row = head (requiring_integrations D source))).
  { apply hoare_driver; [by intros s a [-> ->] [= <-]|by intros s [-> _]]. }
  intros [id|]; [|apply hoare_ret; intros s [-> Hh]; split; [done|]; intros _; by destruct (requiring_integrations D source)].
  eapply (hoare_bind _ _ _ (fun _ db => db = D)).
  { intros s fs HF [-> _]. eapply hoare_conseq; [apply hoare_require_task|done|by intros t s' [-> _]|done|done|done]. }
  intros t. destruct (tk_IntegrationContract t) as [c|]; [|by apply hoare_fail].
  eapply (hoare_bind _ _ _ (fun _ db => db = D)); [by apply hoare_guard|]. intros _. by apply hoare_ret.
Qed.

Lemma needs_guard {A B} (c : option A) (r : option B) (b : bool) : needs c r && b = false -> b = true -> is_Some c -> is_Some r.
Proof. unfold needs. intros Hn -> Hc. rewrite andb_true_r, bool_decide_true in Hn by done. cbn in Hn. apply negb_false_iff in Hn. by apply bool_decide_eq_true in Hn. Qed.

Lemma MarkTaskWorkerWorktreeCleaned_effect taskID ordinal leaseID fence : effect now s0 (MarkTaskWorkerWorktreeCleaned taskID ordinal leaseID fence now).
Proof.
  unfold MarkTaskWorkerWorktreeCleaned. apply effect_guard; [done|]. intros Hg. apply quiet_bind_after; [|intros; apply quiet_ret]. apply effect_transaction; [done|].
  breflect. unfold MarkTaskWorkerWorktreeCleaned_tx. apply body_worker. intros t w Ht Hw. apply body_guard. intros Hid.
  destruct (wk_WorktreeCleaned w) eqn:Ecl; [by apply body_ret, stepped_refl|].
  apply body_guard; intros N1. apply body_guard; intros N2. apply body_guard; intros N3. apply body_guard; intros N4.
  eapply body_try; [apply hoare_required| |intros e; by apply body_guard]. intros required Hreq. apply body_guard. intros Hr.
  apply body_update_worker; [|intros _; apply body_touch; [by apply stepped_refl|intros; by apply body_ret]].
  intros row Hrow _. apply body_touch; [|intros; by apply body_ret]. apply stepped_workers; [by apply stepped_refl|]. breflect.
  eapply step_clean; try done; [by apply valid_ordinal_nonneg| |by apply Hreq].
  intros Hs. assert (Hst : (wk_State w =? StateSucceeded) = true) by (by apply bool_decide_eq_true). split; by eapply needs_guard.
Qed.

(** *** Leases *)
Lemma stepped_reread D e id (k : Job -> M DB (TaskWorker * bool)) : stepped now s0 D -> (forall job, exists a, k job = mret a) ->
  body F D (mbind (require_job e id) k) (fun _ => stepped now s0).
Proof.
  intros HD Hk. apply (body_job now); [by eapply stepped_jobs|]. intros r _. destruct (Hk (job_of_row id r)) as [a ->]. by apply body_ret.
Qed.

Lemma LeaseTaskWorker_effect taskID ordinal holder ttl random : random_ok random ->
  effect now s0 (LeaseTaskWorker taskID ordinal holder ttl now random).
Proof.
  intros Hrand. unfold LeaseTaskWorker. apply effect_guard; [done|]. intros Hg. apply quiet_bind_after; [|intros []; apply quiet_ret]. apply effect_transaction; [done|].
  breflect. unfold LeaseTaskWorker_tx. pose proof (store_inv_tx F now s0 Hinv now ltac:(rewrite now_nano; lia)) as Hok0.
  eapply (body_bind _ _ _ (fun _ db => tx_ok F now (st_db s0) db)).
  { intros s fs HF <-. pose proof (hoare_recoverExpired F now (st_db s0) (st_db s0) fs HF Hok0) as Hrec.
    destruct (recoverExpired now (st_db s0) fs) as [[[a|e] s'] fs']; [done|]. by destruct Hrec. }
  intros [] D HD. pose proof (stepped_evolves now s0 D Hnow Hinv HD) as HsD. apply body_select. intros w Hw.
  apply (body_job now); [by eapply stepped_jobs|]. intros r Hr.
  destruct (_ && _) eqn:Ec; [by apply body_ret|]. apply body_guard. intros Hq. apply body_random. intros b Hb.
  breflect. cbn [job_of_row j_State j_CancelRequested] in *.
  eapply (body_bind _ _ _ (fun n db => n = 1 /\ stepped now s0 db \/ n = 0)).
  { apply hoare_update; [| |done].
    - intros db x <- Hx Hc. left. split; [done|]. rewrite Hr in Hx. injection Hx as <-. apply stepped_evolves; [done|done|].
      eapply (tx_ok_update F now (st_db s0) D (tw_job_id w) r); try done; [|congruence..]. apply step_lease; try done; [|apply UnixNano_int64].
      apply match_hex_id; [done|]. by rewrite (Hrand _ Hb).
    - intros db _ _. by right. }
  intros n db [[-> Hs]| ->]; [|by apply body_guard]. apply body_guard. intros _. apply stepped_reread; [done|]. by eexists.
Qed.

(** *** Failing a worker that never started *)
Lemma stepped_unavailable job r : db_jobs (st_db s0) !! job = Some r -> r_state r = StateQueued \/ r_state r = StateBlocked ->
  let db1 := with_jobs (<[job := set_goal_unavailable now r]> (db_jobs (st_db s0))) (st_db s0) in
  task_step now (st_db s0) db1 /\ store_inv any_fault now (set_db db1 s0) /\ propagate_pre F now db1 db1 job db1.
Proof.
  intros Hr Hs db1. assert (Hstep : task_step now (st_db s0) db1) by (by apply step_goal_unavailable). pose proof (si_jobs _ _ _ Hinv) as Hj.
  pose proof (step_jobs_inv now _ _ Hnow Hj Hstep) as Hj1.
  assert (Hlk : forall k x, db_jobs db1 !! k = Some x -> exists y, db_jobs (st_db s0) !! k = Some y /\ r_ident x = r_ident y /\ (active x = true -> active y = true)).
  { intros k x Hx. cbn in Hx. rewrite lookup_insert in Hx. case_decide as E; [|by exists x]. subst k. injection Hx as <-. exists r. split_and!; done. }
  assert (Hfk : fk_ok db1).
  { intros j d Hjd. destruct (si_fk _ _ _ Hinv j d Hjd) as [[x Hx] [y Hy]]. cbn. rewrite !lookup_insert. split; case_decide; eauto. }
  split_and!; [done| |].
  - split; cbn [set_db st_config st_db st_fair]; try apply Hinv; try done; [| |by left].
    + intros i j x y Hx Hy E. destruct (Hlk i x Hx) as (x' & Hx' & Ex & _), (Hlk j y Hy) as (y' & Hy' & Ey & _).
      apply (si_keys _ _ _ Hinv i j x' y' Hx' Hy'). unfold row_key in *. congruence.
    + destruct (si_bounds _ _ _ Hinv) as [Hb Hw]. split.
      * etrans; [|exact Hb]. apply count_jobs_mono. intros k x Hx Ha. destruct (Hlk k x Hx) as (y & Hy & _ & Hact). eauto.
      * intros ws. etrans; [|apply (Hw ws)]. apply count_jobs_mono. intros k x Hx Ha. destruct (Hlk k x Hx) as (y & Hy & Ei & Hact). exists y. split; [done|].
        unfold workspace_active in *. apply andb_true_iff in Ha as [Hi Ha]. rewrite <- Ei, Hi. cbn. auto.
  - split; [split; [split; [reflexivity|by rewrite now_nano|done]|by intros ? ? ?]|].
    unfold db1. rewrite state_of_update, decide_True by done. split; [done|].
    destruct (si_blocked _ _ _ Hinv) as [?|Hb]; [by left|]. right. rewrite blocked_ok_iff in Hb. intros j. rewrite state_of_update.
    case_decide as E; [done|]. intros Hbj. destruct (decide ((j, job) ∈ db_dependencies (st_db s0))) as [?|Hno]; [by right|left].
    apply pending_unblocked; auto.
Qed.

Lemma FailUnstartedTaskWorker_body taskID ordinal :
  body F (st_db s0) (FailUnstartedTaskWorker_tx taskID ordinal now) (fun _ => stepped now s0).
Proof.
  unfold FailUnstartedTaskWorker_tx. apply body_worker. intros t w Ht Hw. destruct (_ && _); [by apply body_ret, stepped_refl|].
  apply body_guard. intros _.
  eapply (body_bind _ _ _ (fun n db => n = 0 \/ n = 1 /\ exists r, db_jobs (st_db s0) !! wk_JobID w = Some r /\ (r_state r = StateQueued \/ r_state r = StateBlocked) /\
    db = with_jobs (<[wk_JobID w := set_goal_unavailable now r]> (db_jobs (st_db s0))) (st_db s0))).
  { apply hoare_update; [|by left|done]. intros db r <- Hr Hc. right. split; [done|]. exists r. rewrite now_nano. split_and!; [done| |done].
    apply orb_true_iff in Hc as [Hc|Hc]; apply bool_decide_eq_true in Hc; auto. }
  intros n db [->|[-> (r & Hr & Hs & ->)]]; [by apply body_guard|]. apply body_guard. intros _.
  destruct (stepped_unavailable (wk_JobID w) r Hr Hs) as (Hstep & Hi1 & Hpre). set (db1 := with_jobs _ _) in *.
  eapply (body_bind _ _ _ (fun _ db => tx_ok F now db1 db)).
  { intros s fs HF <-. pose proof (hoare_propagate F now db1 db1 (wk_JobID w) db1 fs HF Hpre) as Hp.
    destruct (propagate (wk_JobID w) now db1 fs) as [[[[]|e] s'] fs']; [|by destruct Hp]. destruct Hp as [[[Htx _] Hb] HF']. done. }
  intros [] db Hok. apply body_ret. assert (Hok' : tx_ok any_fault now (st_db (set_db db1 s0)) db) by (destruct Hok; by split; [|left]).
  pose proof (store_inv_evolves any_fault now now (set_db db1 s0) (set_db db (set_db db1 s0)) Hi1 eq_refl (si_fair _ _ _ Hi1) Hok') as Hi2.
  rewrite now_nano in Hi2. split.
  - destruct Hi2. split; try done. by destruct Hok.
  - eapply rtc_l; [exact Hstep|]. apply rtc_once. destruct Hok as [[He Hj _] _]. rewrite now_nano in He, Hj. apply step_jobs; [apply He|done|].
    intros k x y _ Hy. destruct He as (_ & _ & He). specialize (He (tw_job_id x)). rewrite Hy in He. inversion He; subst. eauto.
Qed.

Lemma FailUnstartedTaskWorker_effect taskID ordinal : effect now s0 (FailUnstartedTaskWorker taskID ordinal now).
Proof.
  unfold FailUnstartedTaskWorker. apply effect_guard; [done|]. intros _. apply effect_guard; [done|]. intros _.
  eapply hoare_with_tx; [apply FailUnstartedTaskWorker_body| |intros e; by apply post_refl]. intros [t|] db Hs.
  - apply hoare_ret. intros s <-. by apply post_refl.
  - eapply (hoare_bind _ _ _ (fun _ s => s = set_db db s0)).
    { eapply hoare_conseq; [apply hoare_commit|done|done|]. intros e s [-> _]. by apply post_refl. }
    intros _ s fs HF ->. pose proof (quiet_reread "workqueue: failed task worker unavailable" taskID (set_db db s0) (set_db db s0) fs HF eq_refl) as Hq.
    destruct (reread_task _ _ _ _) as [[[b|e] s'] fs']; destruct Hq as [-> ?]; (split; [by apply post_stepped|done]).
Qed.
End Operations.
End Steps.
