(* ===== verification/TaskSystem.v ===== *)
(** * Tasks and the queue as one system

    Creating a task, the operations that call others, and sequences of calls of the
    queue and of tasks under arbitrary driver faults. *)

From S2P Require Import Prelude GoStrings GoRegexp GoLanguage Effects GoJson GoTime GoReflect GoRecord PolicyScan WorkqueueTypes Admission Fairness WorkqueueRows WorkqueueStore WorkqueueInv WorkqueueOps WorkqueueEnqueue WorkqueueSystem TaskTypes TaskRecord TaskRules TaskRoundtrip TaskRows TaskStore TaskFacts TaskSteps TaskInv TaskCreate TaskOps.

(** ** Calls

    The operations of the queue and of tasks; [CancelTask] reads the clock once for
    every worker. The operations that only read are left out. *)
Inductive call :=
| CallQueue (o : op)
| CallCreateTask (spec : TaskSpec) (now : time) (random : option string) (randoms : list (option string))
| CallLeaseTaskWorker (taskID : string) (ordinal : Z) (holder : string) (ttl : duration) (now : time) (random : option string)
| CallBindTaskWorkerOperation (b : TaskWorkerOperationBinding) (now : time)
| CallBindTaskWorker (b : TaskWorkerBinding) (now : time)
| CallCompleteTaskWorker (taskID : string) (ordinal : Z) (leaseID : string) (fence : Z) (res : Result) (checked now : time)
| CallFailUnstartedTaskWorker (taskID : string) (ordinal : Z) (now : time)
| CallCancelTask (taskID : string) (clock : Z -> time)
| CallRecordTaskWorkerAcceptance (receipt : TaskAcceptanceReceipt) (now : time)
| CallRecordTaskWorkerTestReceipt (receipt : TaskTestAcceptanceReceipt) (now : time)
| CallRecordTaskWorkerObjective (receipt : TaskObjectiveReceipt) (now : time)
| CallRecordTaskIntegrationReceipt (receipt : TaskIntegrationReceipt) (now : time)
| CallMarkTaskWorkerWorktreeCleaned (taskID : string) (ordinal : Z) (leaseID : string) (fence : Z) (now : time).

(** The first and the last reading of the clock. *)
Definition call_times (c : call) : time * time :=
  match c with
  | CallQueue o => (op_time o, op_time o)
  | CallCancelTask _ clock => (clock 0, clock MaxTaskWorkers)
  | CallCreateTask _ now _ _ | CallLeaseTaskWorker _ _ _ _ now _ | CallBindTaskWorkerOperation _ now | CallBindTaskWorker _ now
  | CallCompleteTaskWorker _ _ _ _ _ _ now | CallFailUnstartedTaskWorker _ _ now | CallRecordTaskWorkerAcceptance _ now
  | CallRecordTaskWorkerTestReceipt _ now | CallRecordTaskWorkerObjective _ now | CallRecordTaskIntegrationReceipt _ now
  | CallMarkTaskWorkerWorktreeCleaned _ _ _ _ now => (now, now)
  end.

(** What is assumed of the surroundings: clock readings are within the range of
    [UnixNano] and do not go back, and random bytes come in sixteens. *)
Definition call_ok (c : call) : Prop :=
  in_int64 (call_times c).1 /\ in_int64 (call_times c).2 /\
  match c with
  | CallQueue o => op_ok o
  | CallCreateTask _ _ random randoms => random_ok random /\ Forall random_ok randoms
  | CallLeaseTaskWorker _ _ _ _ _ random => random_ok random
  | CallCancelTask _ clock => forall i j, 0 <= i <= j -> j <= MaxTaskWorkers -> clock i <= clock j
  | _ => True
  end.

Section TaskSystem.
Context `{SystemSummaries} `{SqlScan} {F : bool -> Prop}.

(** ** Creating a task *)
Lemma store_inv_add_job now s job row db1 : store_inv F now s -> sql_insert_job job row (st_db s) = Some db1 -> row_inv now job row ->
  r_state row = StateQueued -> count_jobs active (st_db s) < cfg_MaxJobs (st_config s) ->
  count_jobs (workspace_active (i_workspace (r_ident row))) (st_db s) < cfg_MaxJobsPerWorkspace (st_config s) -> store_inv F now (set_db db1 s).
Proof.
  intros Hi Hins Hrow Hq Hb Hw. apply insert_job_some in Hins as (Hno & Hkey & ->).
  assert (Hlk : forall k, k <> job -> db_jobs (with_jobs (<[job := row]> (db_jobs (st_db s))) (st_db s)) !! k = db_jobs (st_db s) !! k).
  { intros k Hk. cbn. by rewrite lookup_insert_ne. }
  assert (Hold : forall k x, db_jobs (st_db s) !! k = Some x -> k <> job) by (intros k x Hx ->; congruence).
  split; cbn [set_db st_config st_db st_fair]; try apply Hi.
  - intros k x Hx. cbn in Hx. rewrite lookup_insert in Hx. case_decide as E; [|by apply Hi]. subst k. by injection Hx as <-.
  - intros j d Hjd. destruct (si_fk _ _ _ Hi j d Hjd) as [[x Hx] [y Hy]]. rewrite !Hlk by (by eapply Hold). eauto.
  - intros i j x y Hx Hy E. cbn in Hx, Hy. rewrite lookup_insert in Hx, Hy.
    destruct (decide (job = i)) as [Ei|Ei], (decide (job = j)) as [Ej|Ej]; [congruence| | |by apply (si_keys _ _ _ Hi i j x y)].
    + injection Hx as <-. exfalso. by apply (Hkey _ _ Hy).
    + injection Hy as <-. exfalso. by apply (Hkey _ _ Hx).
  - destruct (si_bounds _ _ _ Hi) as [_ Hall]. split.
    + etrans; [apply (count_jobs_insert active (st_db s) job row [])|lia].
    + intros ws. destruct (decide (ws = i_workspace (r_ident row))) as [->|Hne]; [etrans; [apply (count_jobs_insert _ (st_db s) job row [])|lia]|].
      etrans; [|apply (Hall ws)]. apply count_jobs_mono. intros k x Hx Hc. cbn in Hx. rewrite lookup_insert in Hx. case_decide; [|eauto]. injection Hx as <-.
      unfold workspace_active in Hc. by rewrite bool_decide_false in Hc by congruence.
  - destruct (si_blocked _ _ _ Hi) as [?|Hbl]; [by left|right]. intros j x Hx E. cbn in Hx. rewrite lookup_insert in Hx. case_decide; [injection Hx as <-; congruence|].
    destruct (Hbl j x Hx E) as [(d & y & Hd & Hy & Hs) Hf]. split.
    + exists d, y. split_and!; [done| |done]. rewrite Hlk by (by eapply Hold). done.
    + intros d' y' Hd' Hy'. destruct (si_fk _ _ _ Hi j d' Hd') as [_ [z Hz]]. rewrite Hlk in Hy' by (by eapply Hold). by eapply Hf.
Qed.

Lemma workers_created_store now s0 spec id i goals db db' : workers_created spec id now i goals db db' -> spec_ok spec -> in_int64 now ->
  (forall g, g ∈ goals -> g ∈ zip (ts_WorkerGoalHashes spec) (ts_WorkerGoalRefs spec)) ->
  count_jobs active db + Z.of_nat (length goals) <= cfg_MaxJobs (st_config s0) ->
  count_jobs (workspace_active (ts_Project spec)) db + Z.of_nat (length goals) <= cfg_MaxJobsPerWorkspace (st_config s0) ->
  store_inv F now (set_db db s0) -> store_inv F now (set_db db' s0).
Proof.
  intros Hc Hs Hn. induction Hc as [i db|i hash ref goals job db db1 db2 db3 Hj Hk H1' H2' _ IH]; [done|]. intros Hg Hb Hw Hi.
  assert (Hi1 : store_inv F now (set_db db1 s0)).
  { eapply (store_inv_add_job now (set_db db s0)); [done|exact H1'| |done|cbn in *; lia|cbn in *; lia].
    eapply (worker_job_inv spec i hash ref); try done. apply Hg. left. }
  pose proof H1' as (_ & _ & E1)%insert_job_some. apply insert_worker_some in H2' as (_ & _ & ->). apply IH.
  - intros g Hin. apply Hg. by right.
  - etrans; [|exact Hb]. cbn [length]. pose proof (count_jobs_insert active db job (worker_job spec i hash now) []) as Hx.
    change (count_jobs active (with_workers_table (<[(id, i) := new_worker job ref]> (db_task_workers db1)) db1)) with (count_jobs active db1).
    rewrite E1. unfold count_jobs, worker_job in *. cbn in *. lia.
  - etrans; [|exact Hw]. cbn [length]. pose proof (count_jobs_insert (workspace_active (ts_Project spec)) db job (worker_job spec i hash now) []) as Hx.
    change (count_jobs ?c (with_workers_table _ db1)) with (count_jobs c db1). rewrite E1. unfold count_jobs, worker_job in *. cbn in *. lia.
  - by destruct Hi1.
Qed.

Lemma body_insert {B} D e stmt (k : unit -> M DB B) Q : (forall D', stmt D = Some D' -> body F D' (k tt) Q) -> body F D (mbind (exec_insert e stmt) k) Q.
Proof.
  intros Hk. eapply (body_bind _ _ _ (fun _ D' => stmt D = Some D')); [|intros [] D'; apply Hk].
  apply body_get, body_driver. intros D' HD. apply hoare_put. by intros s <-.
Qed.

Lemma create_workers_body spec id now i goals randoms D : Forall random_ok randoms ->
  body F D (create_workers spec id now i goals randoms) (fun _ D' => workers_created spec id now i goals D D').
Proof.
  revert i randoms D. induction goals as [|[hash ref] goals IH]; intros i randoms D Hr; cbn [create_workers].
  { apply body_ret. constructor. }
  apply body_random. intros b Hb. apply body_guard. intros Hk. apply body_insert. intros D1 H1'. apply body_insert. intros D2 H2'. apply negb_false_iff in Hk.
  assert (Hrt : Forall random_ok (tail randoms)) by (destruct randoms; [done|by apply Forall_cons in Hr as [_ ?]]).
  eapply hoare_conseq; [by apply (IH (i + 1) (tail randoms) D2)|done| |done]. intros [] D3 Hc. eapply created_cons; try done.
  apply match_hex_id; [done|]. destruct randoms as [|o randoms]; [done|]. cbn in Hb. subst o. apply Forall_cons in Hr as [Hr _]. by rewrite (Hr _ eq_refl).
Qed.

Lemma hoare_taskID D key :
  hoare F (eq D) (taskIDByIdempotency key) (fun o db => db = D /\ match o with
      | Some id => exists g, db_task_groups D !! id = Some g /\ tg_idempotency_key g = key
      | None => forall id g, db_task_groups D !! id = Some g -> tg_idempotency_key g <> key end) (fun _ db => db = D).
Proof.
  unfold taskIDByIdempotency. eapply (hoare_bind _ _ _ (fun X db => db = D /\ X = D)); [apply hoare_get; by intros s <-|]. intros X.
  apply hoare_driver; [|by intros s [-> _]]. intros s o [-> ->] [= <-]. split; [done|].
  destruct (filter _ _) as [|[id g] l] eqn:E; cbn.
  - intros id g Hg Hk. assert (Hin : (id, g) ∈ filter (fun e => tg_idempotency_key (snd e) = key) (map_to_list (db_task_groups D))).
    { apply list_elem_of_filter. split; [done|]. by apply elem_of_map_to_list. }
    rewrite E in Hin. by apply elem_of_nil in Hin.
  - assert (Hin : (id, g) ∈ filter (fun e => tg_idempotency_key (snd e) = key) (map_to_list (db_task_groups D))) by (rewrite E; left).
    apply list_elem_of_filter in Hin as [Hk Hin]. exists g. split; [by apply elem_of_map_to_list|done].
Qed.

(** The rows of a task that [CreateTask] created, or the task it found. *)
Definition create_outcome (spec : TaskSpec) (now : Z) (db : DB) (r : TaskGroup + string) (db' : DB) : Prop :=
  match r with
  | inl t => db' = db /\ taskMatchesSpec t spec = true /\ exists id, task_of db id = Ok (Some t)
  | inr id =>
      spec_ok spec /\ MatchString taskIDPattern id = true /\ sources_ok db (pending_task spec) /\
      (forall k g, db_task_groups db !! k = Some g -> tg_idempotency_key g <> ts_IdempotencyKey spec) /\
      exists db1, sql_insert_group id (stored_group spec now) db = Some db1 /\
        workers_created spec id now 0 (zip (ts_WorkerGoalHashes spec) (ts_WorkerGoalRefs spec)) db1 db'
  end.

Lemma sql_insert_same_key id g g' db db1 : tg_idempotency_key g' = tg_idempotency_key g -> sql_insert_group id g db = Some db1 ->
  sql_insert_group id g' db = Some (with_groups (<[id := g']> (db_task_groups db)) db).
Proof. unfold sql_insert_group. intros ->. by destruct (_ || _). Qed.

Lemma CreateTask_body now s0 spec random randoms : in_int64 now -> store_inv F now s0 -> spec_ok spec -> random_ok random -> Forall random_ok randoms ->
  body F (st_db s0) (CreateTask_tx (st_config s0) spec now random randoms)
    (fun r db => stepped (F := F) now s0 db /\ create_outcome spec now (st_db s0) r db).
Proof.
  intros Hn Hi Hs Hr Hrs. unfold CreateTask_tx. eapply body_read; [apply hoare_taskID|]. intros [ex|] Hex.
  { apply body_task. intros t Ht. apply body_guard. intros Hm. apply body_ret. split; [by apply stepped_refl|]. apply negb_false_iff in Hm. split_and!; [done|done|by exists ex]. }
  apply body_get, body_driver. intros total [= <-]. apply body_driver. intros wcount [= <-]. apply body_guard. intros Hb.
  apply body_random. intros b Hrb. eapply body_read; [apply hoare_sources|]. intros [] Hsrc. rewrite (now_nano now Hn).
  set (id := "tg_" +:+ EncodeToString b). apply body_insert. intros D1 HD1.
  assert (Hcr : forall D2, D2 = with_groups (<[id := stored_group spec now]> (db_task_groups (st_db s0))) (st_db s0) ->
    body F D2 (mbind (create_workers spec id now 0 (zip (ts_WorkerGoalHashes spec) (ts_WorkerGoalRefs spec)) randoms) (fun _ => mret (inr id)))
      (fun r db => stepped (F := F) now s0 db /\ create_outcome spec now (st_db s0) r db)).
  { intros D2 ED2. eapply body_bind; [by apply create_workers_body|]. intros [] D3 Hc. apply body_ret.
    assert (Hid : MatchString taskIDPattern id = true) by (apply match_hex_id; [done|]; by rewrite (Hr _ Hrb)).
    assert (Hins : sql_insert_group id (stored_group spec now) (st_db s0) = Some D2).
    { rewrite ED2. eapply sql_insert_same_key; [|exact HD1]. unfold stored_group. by destruct (ts_IntegrationContract spec). }
    assert (Ho : create_outcome spec now (st_db s0) (inr id) D3) by (split_and!; try done; by exists D2). split; [|done].
    assert (Hlen : Z.of_nat (length (zip (ts_WorkerGoalHashes spec) (ts_WorkerGoalRefs spec))) = ts_WorkerCount spec) by (by apply goals_length).
    split; [|apply rtc_once; destruct Ho as (_ & _ & _ & _ & D & Hx & Hy); eapply step_create; try done; by apply validateTaskSpec_ok].
    breflect. eapply workers_created_store; try done.
    - rewrite Hlen, ED2. done.
    - rewrite Hlen, ED2. done.
    - rewrite ED2. by destruct Hi. }
  destruct (ts_IntegrationContract spec) as [c|] eqn:Ec.
  - eapply (body_bind _ _ _ (fun _ D => D = with_groups (<[id := stored_group spec now]> (db_task_groups (st_db s0))) (st_db s0))); [|intros _ D HD; by apply Hcr].
    apply insert_group_some in HD1 as (_ & _ & ->). unfold stored_group. rewrite Ec. apply body_update_group; cbn.
    + intros g Hg _. rewrite lookup_insert_eq in Hg. injection Hg as <-. by rewrite insert_insert_eq.
    + intros Hno. specialize (Hno _ (lookup_insert_eq _ _ _)). done.
  - eapply (body_bind _ _ _ (fun _ D => D = D1)); [by apply body_ret|]. intros _ D ->. apply Hcr.
    apply insert_group_some in HD1 as (_ & _ & ->). unfold stored_group. by rewrite Ec.
Qed.

Lemma CreateTask_effect now s0 spec random randoms : in_int64 now -> store_inv F now s0 -> random_ok random -> Forall random_ok randoms ->
  effect (F := F) now s0 (CreateTask spec now random randoms).
Proof.
  intros Hn Hi Hr Hrs. unfold CreateTask. apply effect_guard; [done|]. intros Hv. apply negb_false_iff, is_ok_true, validateTaskSpec_ok in Hv.
  apply effect_get. apply quiet_bind_after; [|intros [t|id]; [apply quiet_ret|apply quiet_bind; [apply quiet_reread|intros; apply quiet_ret]]].
  apply effect_transaction; [done|]. eapply hoare_conseq; [by apply CreateTask_body|done| |done]. by intros a db [? _].
Qed.

(** ** One call *)
Definition run_call (c : call) : M Store unit :=
  match c with
  | CallQueue o => exec o
  | CallCreateTask spec now random randoms => ignore (CreateTask spec now random randoms)
  | CallLeaseTaskWorker taskID ordinal holder ttl now random => ignore (LeaseTaskWorker taskID ordinal holder ttl now random)
  | CallBindTaskWorkerOperation b now => ignore (BindTaskWorkerOperation b now)
  | CallBindTaskWorker b now => ignore (BindTaskWorker b now)
  | CallCompleteTaskWorker taskID ordinal leaseID fence res checked now => ignore (CompleteTaskWorker taskID ordinal leaseID fence res checked now)
  | CallFailUnstartedTaskWorker taskID ordinal now => ignore (FailUnstartedTaskWorker taskID ordinal now)
  | CallCancelTask taskID clock => ignore (CancelTask taskID clock)
  | CallRecordTaskWorkerAcceptance receipt now => ignore (RecordTaskWorkerAcceptance receipt now)
  | CallRecordTaskWorkerTestReceipt receipt now => ignore (RecordTaskWorkerTestReceipt receipt now)
  | CallRecordTaskWorkerObjective receipt now => ignore (RecordTaskWorkerObjective receipt now)
  | CallRecordTaskIntegrationReceipt receipt now => ignore (RecordTaskIntegrationReceipt receipt now)
  | CallMarkTaskWorkerWorktreeCleaned taskID ordinal leaseID fence now => ignore (MarkTaskWorkerWorktreeCleaned taskID ordinal leaseID fence now)
  end.

(** Steps as the clock advances. *)
Definition advance (a b : Z * DB) : Prop := a.1 <= b.1 /\ in_int64 b.1 /\ (b.2 = a.2 \/ task_step b.1 a.2 b.2).

Lemma advance_inv a b : rtc advance a b -> jobs_inv a.1 a.2 -> tasks_inv a.1 a.2 -> a.1 <= b.1 /\ jobs_inv b.1 b.2 /\ tasks_inv b.1 b.2.
Proof.
  induction 1 as [a|a b c (Hle & Hn & Hs) _ IH]; [done|]. intros Hj Ht.
  assert (Hj' : jobs_inv b.1 a.2) by (by eapply jobs_inv_mono). assert (Ht' : tasks_inv b.1 a.2) by (by eapply tasks_inv_mono).
  destruct IH as (Hle' & ? & ?); [..|split_and!; [lia|done|done]]; destruct Hs as [->|Hs]; try done; [by eapply step_jobs_inv|by eapply step_tasks_inv].
Qed.

Definition call_post (t0 : Z) (s0 : Store) (t : Z) (s : Store) : Prop :=
  store_inv F t s /\ st_config s = st_config s0 /\ rtc advance (t0, st_db s0) (t, st_db s).

Lemma post_advance t0 t s0 s : t0 <= t -> in_int64 t -> task_post (F := F) t s0 s -> call_post t0 s0 t s.
Proof.
  intros Hle Hn (Hi & Hc & Hs). split_and!; [done..|]. apply (rtc_l _ _ (t, st_db s0)); [split_and!; [done|done|by left]|]. clear Hi Hc.
  induction Hs as [|x y z Hxy _ IH]; [apply rtc_refl|]. apply (rtc_l _ _ (t, y)); [|exact IH]. split_and!; [cbn; lia|done|by right].
Qed.

Lemma call_post_trans t0 s0 t1 s1 t2 s2 : call_post t0 s0 t1 s1 -> call_post t1 s1 t2 s2 -> call_post t0 s0 t2 s2.
Proof. intros (_ & E1 & H1') (Hi & E2 & H2'). split_and!; [done|congruence|by etrans]. Qed.

Lemma call_post_later t0 s0 t s t' : call_post t0 s0 t s -> t <= t' -> in_int64 t' -> call_post t0 s0 t' s.
Proof.
  intros Hp Hle Hn. eapply call_post_trans; [exact Hp|]. destruct Hp as (Hi & _). apply post_advance; [done..|]. apply post_refl. by eapply store_inv_mono.
Qed.

Lemma queue_post o s0 s : in_int64 (op_time o) -> op_post F o s0 s -> task_post (F := F) (op_time o) s0 s.
Proof.
  intros Hn (Hi & Hm & Hc & Ht). rewrite (now_nano _ Hn) in *. split_and!; [done|done|]. apply rtc_once. apply step_jobs; [done|apply Hi|].
  intros k w r Hw Hr. destruct (Hm _ _ Hr) as [?|(_ & _ & Hno)]; [done|]. exfalso. by eapply Hno.
Qed.

Lemma hoare_unignore {A} P (m : M Store A) Q : hoare F P (ignore m) (fun _ => Q) (fun _ => Q) -> hoare F P m (fun _ => Q) (fun _ => Q).
Proof. intros Hm s fs HF Hs. specialize (Hm s fs HF Hs). unfold ignore, mbind, mret in Hm. by destruct (m s fs) as [[[a|e] s'] fs']. Qed.

Lemma queue_effect o s0 : store_inv F (op_time o) s0 -> op_ok o -> effect (F := F) (op_time o) s0 (exec o).
Proof.
  intros Hi Ho. pose proof (proj1 Ho) as Hn. eapply hoare_conseq; [apply (exec_spec F (op_time o) o s0 Hi)|done|..]; [by rewrite now_nano|done|..].
  - intros a s. by apply queue_post.
  - intros e s. by apply queue_post.
Qed.

Lemma quiet_before {A B} P (m : M Store A) (k : A -> M Store B) s0 : quiet (F := F) m -> P s0 -> (forall a, hoare F (eq s0) (k a) (fun _ => P) (fun _ => P)) ->
  hoare F (eq s0) (mbind m k) (fun _ => P) (fun _ => P).
Proof.
  intros Hm HP Hk. eapply (hoare_bind _ _ _ (fun _ s => s = s0)); [eapply hoare_conseq; [apply (Hm s0)|done|done|by intros e s ->]|].
  intros a s fs HF ->. by apply Hk.
Qed.

Lemma CompleteTaskWorker_effect now s0 taskID ordinal leaseID fence res checked : in_int64 now -> store_inv F now s0 ->
  effect (F := F) now s0 (CompleteTaskWorker taskID ordinal leaseID fence res checked now).
Proof.
  intros Hn Hi. unfold CompleteTaskWorker. apply effect_guard; [done|]. intros _. apply quiet_before; [apply quiet_call_task|by apply post_refl|]. intros t.
  destruct (tk_Workers t !! Z.to_nat ordinal) as [w|]; [|apply hoare_fail; intros s <-; by apply post_refl].
  apply quiet_bind_after; [|intros; apply quiet_call_task]. apply hoare_unignore.
  by apply (queue_effect (OpComplete (wk_JobID w) leaseID fence res checked now)).
Qed.

Lemma hoare_taskUnlocked s0 id :
  hoare F (eq s0) (taskUnlocked id) (fun o s => s = s0 /\ task_of (st_db s0) id = Ok o) (fun _ s => s = s0).
Proof.
  unfold taskUnlocked. eapply (hoare_bind _ _ _ (fun D s => s = s0 /\ D = s0)); [apply hoare_get; by intros s <-|]. intros D s fs HF [-> ->].
  eapply (hoare_bind (eq s0) _ _ (fun r s => s = s0 /\ task_of (st_db s0) id = Ok r.1)); [| |done|done].
  - eapply hoare_conseq; [apply (hoare_tx F (eq (st_db s0)) _ _ _ s0 (st_db s0) (hoare_taskByID F (st_db s0) id) eq_refl)|done| |].
    + intros r s' (-> & _ & Ht). by split.
    + by intros e' s' [-> _].
  - intros r. apply hoare_ret. by intros s' [-> Ht].
Qed.

(** A read whose failure and emptiness the caller reports as [e]. *)
Lemma hoare_found {A} s0 (m : M Store (option A)) e (R : A -> Prop) :
  hoare F (eq s0) m (fun o s => s = s0 /\ forall a, o = Some a -> R a) (fun _ s => s = s0) ->
  hoare F (eq s0) (let! o := mtry m in match o with Ok (Some a) => mret a | _ => mfail e end) (fun a s => s = s0 /\ R a) (fun _ s => s = s0).
Proof.
  intros Hm. eapply (hoare_bind _ _ _ (fun r s => s = s0 /\ forall a, r = Ok (Some a) -> R a)).
  - apply hoare_try. eapply hoare_conseq; [exact Hm|done| |by intros e' s ->]. intros o s [-> Ho]. split; [done|]. intros a [= ->]. auto.
  - intros [[a|]|e']; [apply hoare_ret|apply hoare_fail|apply hoare_fail]; [|by intros s [-> _]..]. intros s [-> Hr]. auto.
Qed.

Lemma hoare_reread_task s0 e id :
  hoare F (eq s0) (reread_task e id) (fun t s => s = s0 /\ task_of (st_db s0) id = Ok (Some t)) (fun _ s => s = s0).
Proof.
  apply hoare_found. eapply hoare_conseq; [apply hoare_taskUnlocked|done| |done]. intros o s [-> Ht]. split; [done|]. by intros t [= ->].
Qed.

Lemma hoare_call_task s0 e id :
  hoare F (eq s0) (call_task e id) (fun t s => s = s0 /\ task_of (st_db s0) id = Ok (Some t)) (fun _ s => s = s0).
Proof.
  apply hoare_found. eapply (hoare_bind _ _ _ (fun _ s => s = s0)); [by apply hoare_guard; intros s <-|]. intros _.
  eapply hoare_conseq; [apply hoare_taskUnlocked|by intros s ->| |done]. intros o s' [-> Ht]. split; [done|]. by intros t [= ->].
Qed.

Lemma cancel_loop clock ws : forall i t0 s0 s, (forall j w, ws !! j = Some w -> wk_Ordinal w = i + Z.of_nat j) ->
  (forall i j, 0 <= i <= j -> j <= MaxTaskWorkers -> clock i <= clock j) -> in_int64 (clock 0) -> in_int64 (clock MaxTaskWorkers) ->
  0 <= i -> i + Z.of_nat (length ws) <= MaxTaskWorkers -> (exists t, call_post t0 s0 t s /\ t <= clock i) ->
  hoare F (eq s) (mfold (fun _ worker => do! Cancel (wk_JobID worker) (clock (wk_Ordinal worker)) in mret tt) tt ws)
    (fun _ => call_post t0 s0 (clock MaxTaskWorkers)) (fun _ => call_post t0 s0 (clock MaxTaskWorkers)).
Proof.
  induction ws as [|w ws IH]; intros i t0 s0 s Hord Hmono Hn0 Hn4 Hi Hlen (t & Hp & Hle); cbn [mfold].
  { apply hoare_ret. intros s' <-. eapply call_post_later; [exact Hp| |done]. etrans; [exact Hle|]. apply Hmono; cbn in Hlen; lia. }
  cbn [length] in Hlen. pose proof (Hord 0%nat w eq_refl) as Ew. rewrite Z.add_0_r in Ew. rewrite Ew.
  assert (Hni : in_int64 (clock i)).
  { pose proof (Hmono 0 i). pose proof (Hmono i MaxTaskWorkers). unfold in_int64 in *. lia. }
  assert (Hni' : clock i <= clock (i + 1)) by (apply Hmono; lia). assert (Hle4 : clock i <= clock MaxTaskWorkers) by (apply Hmono; lia).
  assert (Hi1 : store_inv F (clock i) s) by (destruct Hp as (Hsi & _); by eapply store_inv_mono).
  assert (Hc : effect (F := F) (clock i) s (Cancel (wk_JobID w) (clock i))).
  { apply hoare_unignore. apply (queue_effect (OpCancel (wk_JobID w) (clock i))); [done|]. by split. }
  assert (Hcp : forall s', task_post (F := F) (clock i) s s' -> call_post t0 s0 (clock i) s').
  { intros s' Hs'. eapply call_post_trans; [exact Hp|]. by apply post_advance. }
  eapply (hoare_bind _ _ _ (fun _ s' => call_post t0 s0 (clock i) s')).
  { eapply (hoare_bind _ _ _ (fun _ s' => call_post t0 s0 (clock i) s')); [|intros _; by apply hoare_ret].
    eapply hoare_conseq; [exact Hc|done|intros a s'; apply Hcp|]. intros e s' Hs'. eapply call_post_later; [by apply Hcp|done|done]. }
  intros [] s' fs HF Hs'. apply (IH (i + 1) t0 s0 s'); try done; try lia; [|by exists (clock i)].
  intros j v Hv. specialize (Hord (S j) v Hv). lia.
Qed.

Lemma CancelTask_post t0 s0 taskID clock : store_inv F t0 s0 -> t0 <= clock 0 -> in_int64 (clock 0) -> in_int64 (clock MaxTaskWorkers) ->
  (forall i j, 0 <= i <= j -> j <= MaxTaskWorkers -> clock i <= clock j) ->
  hoare F (eq s0) (CancelTask taskID clock) (fun _ => call_post t0 s0 (clock MaxTaskWorkers)) (fun _ => call_post t0 s0 (clock MaxTaskWorkers)).
Proof.
  intros Hi Hle Hn0 Hn4 Hmono. assert (H04 : clock 0 <= clock MaxTaskWorkers) by (apply Hmono; unfold MaxTaskWorkers; lia).
  assert (Hself : call_post t0 s0 (clock MaxTaskWorkers) s0).
  { apply post_advance; [lia|done|]. apply post_refl. eapply store_inv_mono; [|exact Hi]. lia. }
  unfold CancelTask. eapply hoare_bind; [eapply hoare_conseq; [apply hoare_call_task|done|intros a s Ha; exact Ha|by intros e s ->]|].
  intros t s fs HF [-> Ht]. eapply (hoare_bind (eq s0) _ _ (fun _ => call_post t0 s0 (clock MaxTaskWorkers))); [| |done|done].
  - apply task_of_some in Ht as (g & group & ws & _ & _ & -> & _ & Hlen & Hv). cbn [with_workers tk_Workers].
    pose proof (proj1 (validTask_iff group ws Hlen) Hv) as (Hgv & _ & Hwk). pose proof (gv_spec _ _ _ Hgv) as Hs%validateTaskSpec_ok.
    pose proof (so_count _ Hs) as Hcnt. cbn [group_spec ts_WorkerCount] in Hcnt.
    apply (cancel_loop clock ws 0 t0 s0 s0); try done; try lia.
    + intros j w Hw. apply Hwk in Hw as []. lia.
    + exists (clock 0). split; [|lia]. apply post_advance; [done..|]. apply post_refl. by eapply store_inv_mono.
  - intros [] s' fs' HF' Hs'. pose proof (quiet_call_task "workqueue: cancelled task unavailable" taskID s' s' fs' HF' eq_refl) as Hq.
    destruct (call_task _ _ s' fs') as [[[b|e] s''] fs'']; destruct Hq as [-> ?]; done.
Qed.

(** Every call leads along steps and keeps the invariants, on success and on failure. *)
Lemma call_spec t0 s0 c : store_inv F t0 s0 -> tasks_inv t0 (st_db s0) -> t0 <= (call_times c).1 -> call_ok c ->
  hoare F (eq s0) (run_call c) (fun _ => call_post t0 s0 (call_times c).2) (fun _ => call_post t0 s0 (call_times c).2).
Proof.
  intros Hi Ht Hle (Hn1 & Hn2 & Hok).
  assert (Heff : forall now (m : M Store unit), t0 <= now -> in_int64 now -> (store_inv F now s0 -> effect (F := F) now s0 m) ->
    hoare F (eq s0) m (fun _ => call_post t0 s0 now) (fun _ => call_post t0 s0 now)).
  { intros now m Hle' Hn Hm. eapply hoare_conseq; [apply Hm; by eapply store_inv_mono|done|..]; intros a s Hs; by apply post_advance. }
  destruct c; cbn [call_times fst snd run_call] in *;
    try (apply Heff; [done|done|]; intros Hi'; first [by apply queue_effect|apply hoare_ignore]).
  - destruct Hok. by apply CreateTask_effect.
  - by apply LeaseTaskWorker_effect.
  - by apply BindTaskWorkerOperation_effect.
  - by apply BindTaskWorker_effect.
  - by apply CompleteTaskWorker_effect.
  - by apply FailUnstartedTaskWorker_effect.
  - apply hoare_ignore. by apply CancelTask_post.
  - by apply RecordTaskWorkerAcceptance_effect.
  - by apply RecordTaskWorkerTestReceipt_effect.
  - by apply RecordTaskWorkerObjective_effect.
  - apply RecordTaskIntegrationReceipt_effect; [done|done|]. by eapply tasks_inv_mono.
  - by apply MarkTaskWorkerWorktreeCleaned_effect.
Qed.

(** ** Sequences of calls *)
Inductive task_trace : Z -> Store -> list (call * list bool * result unit) -> Z -> Store -> Prop :=
| task_trace_nil now s : task_trace now s [] now s
| task_trace_cons now s c fs r s1 rest now' s' :
    call_ok c -> now <= (call_times c).1 -> Forall F fs -> run (run_call c) s fs = (r, s1) ->
    task_trace (call_times c).2 s1 rest now' s' -> task_trace now s ((c, fs, r) :: rest) now' s'.

Lemma run_call_post t0 s0 c fs r s : store_inv F t0 s0 -> tasks_inv t0 (st_db s0) -> t0 <= (call_times c).1 -> call_ok c -> Forall F fs ->
  run (run_call c) s0 fs = (r, s) -> call_post t0 s0 (call_times c).2 s.
Proof.
  intros Hi Ht Hle Hok HF Hr. pose proof (hoare_run _ _ _ _ s0 fs r s (call_spec t0 s0 c Hi Ht Hle Hok) HF eq_refl Hr) as Hp. by destruct r.
Qed.

Lemma call_post_inv t0 s0 t s : call_post t0 s0 t s -> store_inv F t0 s0 -> tasks_inv t0 (st_db s0) -> tasks_inv t (st_db s).
Proof. intros (_ & _ & Hs) Hi Ht. by apply (advance_inv _ _ Hs (si_jobs _ _ _ Hi) Ht). Qed.

Lemma task_trace_post now s tr now' s' : task_trace now s tr now' s' -> store_inv F now s -> tasks_inv now (st_db s) ->
  store_inv F now' s' /\ tasks_inv now' (st_db s') /\ rtc advance (now, st_db s) (now', st_db s').
Proof.
  induction 1 as [|now s c fs r s1 rest now' s' Hok Hle HF Hrun _ IH]; [intros; split_and!; [done..|apply rtc_refl]|]. intros Hi Ht.
  pose proof (run_call_post _ _ _ _ _ _ Hi Ht Hle Hok HF Hrun) as Hp. pose proof (call_post_inv _ _ _ _ Hp Hi Ht) as Ht1.
  destruct Hp as (Hi1 & _ & Hs). destruct (IH Hi1 Ht1) as (? & ? & ?). split_and!; [done..|by etrans].
Qed.
End TaskSystem.
