(* ===== verification/TaskHistory.v ===== *)
(** * What a step never undoes

    Rows of tasks are never removed, columns that identify a task never change, and
    columns that bind a worker or hold its evidence are written at most once. *)

From S2P Require Import Prelude GoStrings GoRegexp GoLanguage Effects GoJson GoTime GoReflect GoRecord PolicyScan WorkqueueTypes Admission Fairness WorkqueueRows WorkqueueStore WorkqueueInv WorkqueueOps WorkqueueEnqueue WorkqueueSystem TaskTypes TaskRecord TaskRules TaskRoundtrip TaskRows TaskStore TaskFacts TaskSteps TaskInv TaskCreate TaskOps TaskSystem.

(** ** Rows *)
(** A column that is written at most once. *)
Definition set_once (a b : string) : Prop := a = "" \/ b = a.

Lemma set_once_refl a : set_once a a.
Proof. by right. Qed.
Lemma set_once_trans a b c : set_once a b -> set_once b c -> set_once a c.
Proof. unfold set_once. intros [->| ->]; [by left|done]. Qed.

Record row_kept (w w' : TaskWorkerRow) : Prop := {
  rk_job : tw_job_id w' = tw_job_id w;
  rk_goal : tw_goal_ref w' = tw_goal_ref w;
  rk_operation : set_once (tw_operation_id w) (tw_operation_id w');
  rk_worktree : tw_worktree_id w <> "" -> tw_worktree_id w' = tw_worktree_id w /\ tw_workspace_id w' = tw_workspace_id w /\
    set_once (tw_runtime_id w) (tw_runtime_id w');
  rk_cleaned : tw_worktree_cleaned w = true -> tw_worktree_cleaned w' = true;
  rk_acceptance : set_once (tw_acceptance_receipt w) (tw_acceptance_receipt w');
  rk_test : set_once (tw_test_acceptance_receipt w) (tw_test_acceptance_receipt w');
  rk_objective : set_once (tw_objective_receipt w) (tw_objective_receipt w');
}.
Create HintDb kept.
#[export] Hint Resolve set_once_refl : kept.

Lemma row_kept_refl w : row_kept w w.
Proof. split; eauto with kept. Qed.
Lemma row_kept_trans u v w : row_kept u v -> row_kept v w -> row_kept u w.
Proof.
  intros [A1 A2 A3 A4 A5 A6 A7 A8] [B1 B2 B3 B4 B5 B6 B7 B8]. split; try congruence; eauto using set_once_trans.
  intros Hne. destruct (A4 Hne) as (E1 & E2 & E3). destruct B4 as (F1 & F2 & F3); [congruence|]. split_and!; [congruence..|by eapply set_once_trans].
Qed.

Definition group_kept (g g' : TaskGroupRow) : Prop := exists receipt updated,
  g' = set_group (tg_integration_contract g) (tg_integration_pins g) (tg_integration_source_task g) receipt updated g /\
  set_once (tg_integration_receipt g) receipt.

Lemma group_kept_refl g : group_kept g g.
Proof. exists (tg_integration_receipt g), (tg_updated_at g). split; [by destruct g|apply set_once_refl]. Qed.
Lemma group_kept_trans a b c : group_kept a b -> group_kept b c -> group_kept a c.
Proof. intros (r1 & u1 & -> & H1) (r2 & u2 & -> & H2). exists r2, u2. split; [done|]. by eapply set_once_trans. Qed.

(** A job keeps its identity, and a finished one does not change. *)
Definition job_kept (r r' : JobRow) : Prop := r_ident r' = r_ident r /\ (terminal (r_state r) = true -> r' = r).

Lemma job_kept_refl r : job_kept r r.
Proof. done. Qed.
Lemma moved_kept now r r' : moved now r r' -> job_kept r r'.
Proof. intros [->|(Hnt & _ & Hi)]; [done|]. split; [done|]. rewrite Hnt. done. Qed.

Section History.
Context `{SystemSummaries} `{SqlScan}.

Record kept (db db' : DB) : Prop := {
  ke_group : forall id g, db_task_groups db !! id = Some g -> exists g', db_task_groups db' !! id = Some g' /\ group_kept g g';
  ke_worker : forall k w r, db_task_workers db !! k = Some w -> db_jobs db !! tw_job_id w = Some r ->
    exists w' r', db_task_workers db' !! k = Some w' /\ row_kept w w' /\ db_jobs db' !! tw_job_id w' = Some r' /\ job_kept r r';
}.

Lemma kept_refl db : kept db db.
Proof. split; [intros id g Hg; exists g; split; [done|apply group_kept_refl]|]. intros k w r Hw Hr. exists w, r. by split_and!; [|apply row_kept_refl|..]. Qed.

Lemma kept_trans a b c : kept a b -> kept b c -> kept a c.
Proof.
  intros [G1 W1] [G2 W2]. split.
  - intros id g Hg. destruct (G1 id g Hg) as (g1 & Hg1 & K1), (G2 id g1 Hg1) as (g2 & Hg2 & K2). exists g2. split; [done|by eapply group_kept_trans].
  - intros k w r Hw Hr. destruct (W1 k w r Hw Hr) as (w1 & r1 & Hw1 & K1 & Hr1 & [I1 T1]), (W2 k w1 r1 Hw1 Hr1) as (w2 & r2 & Hw2 & K2 & Hr2 & [I2 T2]).
    exists w2, r2. split_and!; [done|by eapply row_kept_trans|done|]. split; [congruence|]. intros Ht. rewrite <- (T1 Ht). apply T2. by rewrite (T1 Ht).
Qed.

(** Only the jobs change. *)
Lemma kept_jobs now db db' : task_tables db' = task_tables db ->
  (forall k w r, db_task_workers db !! k = Some w -> db_jobs db !! tw_job_id w = Some r -> exists r', db_jobs db' !! tw_job_id w = Some r' /\ moved now r r') ->
  kept db db'.
Proof.
  intros [= Hw Hg] Hm. split; [intros id g Hid; exists g; rewrite Hg; split; [done|apply group_kept_refl]|].
  intros k w r Hk Hr. destruct (Hm k w r Hk Hr) as (r' & Hr' & Hmv). exists w, r'. rewrite Hw. split_and!; [done|apply row_kept_refl|done|by eapply moved_kept].
Qed.

(** One row of [task_workers] changes. *)
Lemma kept_row db k0 w0 w0' : db_task_workers db !! k0 = Some w0 -> row_kept w0 w0' ->
  kept db (with_workers_table (<[k0 := w0']> (db_task_workers db)) db).
Proof.
  intros H0' Hk0. split; [intros id g Hid; exists g; split; [done|apply group_kept_refl]|]. intros k w r Hw Hr. cbn. destruct (decide (k0 = k)) as [<-|Hne].
  - rewrite H0' in Hw. injection Hw as <-. exists w0', r. rewrite lookup_insert_eq, (rk_job _ _ Hk0). done.
  - exists w, r. rewrite lookup_insert_ne by done. by split_and!; [|apply row_kept_refl|..].
Qed.

(** One row of [task_groups] changes. *)
Lemma kept_group_row db id0 g0 g0' : db_task_groups db !! id0 = Some g0 -> group_kept g0 g0' ->
  kept db (with_groups (<[id0 := g0']> (db_task_groups db)) db).
Proof.
  intros H0' Hk0. split; [|intros k w r Hw Hr; exists w, r; by split_and!; [|apply row_kept_refl|..]]. intros id g Hg. cbn. destruct (decide (id0 = id)) as [<-|Hne].
  - rewrite H0' in Hg. injection Hg as <-. exists g0'. by rewrite lookup_insert_eq.
  - exists g. rewrite lookup_insert_ne by done. split; [done|apply group_kept_refl].
Qed.

Lemma binds_kept w w' : binds w w' -> row_kept w w'.
Proof.
  destruct 1 as [operation Hno|worktree workspace runtime Hno|runtime Hne Hno]; split; cbn; try done; eauto with kept.
  - by left.
  - intros _. split_and!; [done|done|by left].
Qed.

Lemma none_column {A} (dec : string -> result A) column : optional_record dec column = Ok None -> column = "".
Proof. by intros ?%optional_record_ok. Qed.

Lemma records_kept now db id i t worker w w' : tasks_inv now db -> task_of db id = Ok (Some t) -> 0 <= i -> tk_Workers t !! Z.to_nat i = Some worker ->
  db_task_workers db !! (id, i) = Some w -> records now t worker w w' -> row_kept w w'.
Proof.
  intros Hi Ht H0' Hwk Hw Hrec. destruct (tasks_inv_read now db id t Hi Ht) as (g & group & ws & Hg & Hok & _ & ->).
  cbn [tk_Workers with_workers] in Hwk. destruct (task_worker_row _ _ _ _ _ _ _ Hok Hw) as (r & v & a & te & o & _ & _ & Hv & (C1 & C2 & C3) & _ & ->).
  rewrite Hwk in Hv. injection Hv as ->. destruct Hrec as [x Hno|x Hno|x Hno]; cbn in Hno; subst; split; cbn; eauto with kept; left; by eapply none_column.
Qed.

Lemma step_kept now db db' : tasks_inv now db -> task_step now db db' -> kept db db'.
Proof.
  intros Hi Hs.
  destruct Hs as [db' Ht _ Hm|job r Hr Hst|id i w r w' Hw Hr Hst Hb|id i t worker w w' Ht H0' Hwk Hcl Hw Hrec|id i t worker w Ht H0' Hwk Hcl Hw Hwt Hterm Hev Hreq
    |id g Hg|id g t r Hg Ht Hno Hv Hat Hsrc|spec id db1 db' Hsp Hid Hsrc Hg Hc].
  - apply (kept_jobs now); [done|]. intros k w r Hw Hr. destruct (Hm k w r Hw Hr) as (r' & Hr' & Hsteps). exists r'. split; [done|by apply steps_moved].
  - apply (kept_jobs now); [done|]. intros k w x _ Hx. cbn. rewrite lookup_insert. case_decide as E; [|exists x; split; [done|by left]].
    subst job. rewrite Hr in Hx. injection Hx as <-. eexists. split; [done|]. right. split_and!; [|done..]. by destruct Hst as [->| ->].
  - eapply kept_row; [exact Hw|by apply binds_kept].
  - eapply kept_row; [exact Hw|]. by eapply records_kept.
  - eapply kept_row; [exact Hw|]. split; cbn; eauto with kept.
  - eapply kept_group_row; [exact Hg|]. exists (tg_integration_receipt g), now. split; [done|apply set_once_refl].
  - eapply kept_group_row; [exact Hg|]. exists (Marshal c_integration_receipt r), now. split; [done|]. left. destruct (tasks_inv_read now db id t Hi Ht) as (g0 & group & ws & Hg0 & Hok & _ & ->).
    rewrite Hg in Hg0. injection Hg0 as <-. cbn in Hno. pose proof (to_group _ _ _ _ _ Hok) as Hgr. unfold group_of_row in Hgr.
    destruct (integration_of_row g) as [[[ic ps] rc]|] eqn:Ei; [|done]. cbn [rbind] in Hgr. destruct (acceptance_of_row g) as [[? ?]|]; [|done]. cbn [rbind] in Hgr.
    destruct (optional_record _ _) in Hgr; [|done]. injection Hgr as <-. cbn in Hno. subst rc. unfold integration_of_row in Ei.
    match type of Ei with rbind ?m _ = _ => destruct m as [[? ?]|]; [|done] end. cbn [rbind] in Ei. destruct (optional_record _ _) as [[]|] eqn:Eo in Ei; [done| |done]. by eapply none_column.
  - apply insert_group_some in Hg as (Hf & _ & ->). apply workers_created_rows in Hc as [C1 _ C3 C4 _ _ _ _]. split.
    + intros k g Hk. exists g. rewrite C1. cbn. rewrite lookup_insert_ne by congruence. split; [done|apply group_kept_refl].
    + intros k w r Hw Hr. exists w, r. split_and!; [by apply C4|apply row_kept_refl|by apply C3|done].
Qed.

Lemma advance_kept a b : rtc advance a b -> jobs_inv a.1 a.2 -> tasks_inv a.1 a.2 -> kept a.2 b.2.
Proof.
  induction 1 as [a|a b c (Hle & Hn & Hs) _ IH]; [intros; apply kept_refl|]. intros Hj Ht.
  assert (Hj' : jobs_inv b.1 a.2) by (by eapply jobs_inv_mono). assert (Ht' : tasks_inv b.1 a.2) by (by eapply tasks_inv_mono).
  destruct Hs as [E|Hs]; [rewrite E in *; by apply IH|]. eapply kept_trans; [by eapply step_kept|].
  apply IH; [by eapply step_jobs_inv|by eapply step_tasks_inv].
Qed.

(** ** Tasks *)
Record worker_kept (v v' : TaskWorker) : Prop := {
  wk_kept_identity : wk_Ordinal v' = wk_Ordinal v /\ wk_JobID v' = wk_JobID v /\ wk_GoalHash v' = wk_GoalHash v /\ wk_GoalRef v' = wk_GoalRef v;
  wk_kept_operation : set_once (wk_OperationID v) (wk_OperationID v');
  wk_kept_worktree : wk_WorktreeID v <> "" -> wk_WorktreeID v' = wk_WorktreeID v /\ wk_WorkspaceID v' = wk_WorkspaceID v /\
    set_once (wk_RuntimeID v) (wk_RuntimeID v');
  wk_kept_cleaned : wk_WorktreeCleaned v = true -> wk_WorktreeCleaned v' = true;
  wk_kept_acceptance : forall x, wk_AcceptanceReceipt v = Some x -> wk_AcceptanceReceipt v' = Some x;
  wk_kept_test : forall x, wk_TestAcceptanceReceipt v = Some x -> wk_TestAcceptanceReceipt v' = Some x;
  wk_kept_objective : forall x, wk_ObjectiveReceipt v = Some x -> wk_ObjectiveReceipt v' = Some x;
  wk_kept_terminal : terminal (wk_State v) = true ->
    wk_State v' = wk_State v /\ wk_Reason v' = wk_Reason v /\ wk_Summary v' = wk_Summary v /\ wk_LeaseID v' = wk_LeaseID v /\ wk_Fence v' = wk_Fence v;
}.

Record task_kept (t t' : TaskGroup) : Prop := {
  tk_kept_identity : tk_ID t' = tk_ID t /\ tk_CreatedAt t' = tk_CreatedAt t;
  tk_kept_spec : spec_of_task t' = spec_of_task t;
  tk_kept_receipt : forall r, tk_IntegrationReceipt t = Some r -> tk_IntegrationReceipt t' = Some r;
  tk_kept_workers : Forall2 worker_kept (tk_Workers t) (tk_Workers t');
}.

Lemma set_once_record {A} (dec : string -> result A) column column' o o' : set_once column column' ->
  optional_record dec column = Ok o -> optional_record dec column' = Ok o' -> forall x, o = Some x -> o' = Some x.
Proof. intros [->| ->] H1' H2' x ->; [done|]. congruence. Qed.

Lemma row_kept_view i w w' r r' a t o a' t' o' : row_kept w w' -> job_kept r r' -> receipts_of w a t o -> receipts_of w' a' t' o' ->
  worker_kept (worker_view {| wr_ordinal := i; wr_worker := w; wr_job := r |} a t o) (worker_view {| wr_ordinal := i; wr_worker := w'; wr_job := r' |} a' t' o').
Proof.
  intros [K1 K2 K3 K4 K5 K6 K7 K8] [J1 J2] (R1 & R2 & R3) (S1 & S2 & S3). split; cbn; try done.
  - by rewrite J1.
  - exact (set_once_record _ _ _ _ _ K6 R1 S1).
  - exact (set_once_record _ _ _ _ _ K7 R2 S2).
  - exact (set_once_record _ _ _ _ _ K8 R3 S3).
  - intros Ht. by rewrite (J2 Ht).
Qed.

Lemma group_kept_view id g g' group group' : group_kept g g' -> group_of_row id g = Ok group -> group_of_row id g' = Ok group' ->
  group' = updated_group (tk_IntegrationReceipt group') (tk_UpdatedAt group') group /\
  forall r, tk_IntegrationReceipt group = Some r -> tk_IntegrationReceipt group' = Some r.
Proof.
  intros (rec & upd & -> & Hset) Hg Hg'. unfold group_of_row in *. set (g' := set_group _ _ _ rec upd g) in *.
  change (acceptance_of_row g') with (acceptance_of_row g) in Hg'. change (tg_objective_contract g') with (tg_objective_contract g) in Hg'.
  destruct (integration_of_row g) as [[[ic ps] rc]|] eqn:Ei; cbn [rbind] in Hg; [|done]. destruct (acceptance_of_row g) as [[? ?]|]; cbn [rbind] in Hg; [|done].
  destruct (optional_record decodeTaskObjectiveContract _); cbn [rbind] in Hg; [|done]. injection Hg as <-.
  destruct (integration_of_row g') as [[[ic' ps'] rc']|] eqn:Ei'; cbn [rbind] in Hg'; [|done]. injection Hg' as <-.
  assert (Hint : ic' = ic /\ ps' = ps /\ forall r, rc = Some r -> rc' = Some r); [|destruct Hint as (-> & -> & Hr); by split].
  unfold integration_of_row in Ei, Ei'. cbn [g' set_group tg_integration_contract tg_integration_pins tg_integration_receipt tg_integration_source_task] in Ei'.
  destruct (tg_integration_contract g <>? "").
  - destruct (decodeTaskObjectiveRecord c_integration_contract _); cbn [rbind] in *; [|done]. destruct (reject_if _ _); cbn [rbind] in *; [|done].
    destruct (decodeTaskObjectiveRecord (c_slice c_pin) _); cbn [rbind] in *; [|done].
    destruct (optional_record _ (tg_integration_receipt g)) eqn:E1; [|done]. destruct (optional_record _ rec) eqn:E2; [|done]. cbn [rbind] in *.
    injection Ei as <- <- <-. injection Ei' as <- <- <-. split_and!; [done..|]. by eapply set_once_record.
  - destruct (reject_if _ _) in Ei; cbn [rbind] in Ei; [|done]. destruct (reject_if _ _) in Ei'; cbn [rbind] in Ei'; [|done].
    destruct (optional_record _ (tg_integration_receipt g)) eqn:E1; [|done]. destruct (optional_record _ rec) eqn:E2; [|done]. cbn [rbind] in *.
    injection Ei as <- <- <-. injection Ei' as <- <- <-. split_and!; [done..|]. by eapply set_once_record.
Qed.

Lemma kept_task now now' db db' id t : tasks_inv now db -> tasks_inv now' db' -> kept db db' -> task_of db id = Ok (Some t) ->
  exists t', task_of db' id = Ok (Some t') /\ task_kept t t'.
Proof.
  intros Hi Hi' [KG KW] Ht. destruct (tasks_inv_read now db id t Hi Ht) as (g & group & ws & Hg & Hok & _ & ->).
  destruct (KG id g Hg) as (g' & Hg' & Kg). destruct (tv_task _ _ Hi' id g' Hg') as (group' & ws' & Hok' & _). exists (with_workers group' ws').
  split; [by apply (task_ok_reads db' id g')|].
  destruct (group_kept_view id g g' group group' Kg (to_group _ _ _ _ _ Hok) (to_group _ _ _ _ _ Hok')) as [Eg Hr].
  assert (Hlen : length ws' = length ws).
  { pose proof (to_count _ _ _ _ _ Hok) as E1. pose proof (to_count _ _ _ _ _ Hok') as E2. rewrite Eg in E2. cbn in E2. lia. }
  assert (Hw : forall i v v', ws !! i = Some v -> ws' !! i = Some v' -> worker_kept v v').
  { intros i v v' Hv Hv'. destruct (proj2 (to_workers _ _ _ _ _ Hok) i v Hv) as (row & Hrow & Hread). unfold worker_at in Hrow.
    destruct (db_task_workers db !! _) as [w|] eqn:Ew; cbn in Hrow; [|done]. destruct (db_jobs db !! _) as [r|] eqn:Er; [|done]. injection Hrow as <-.
    destruct (KW _ w r Ew Er) as (w' & r' & Ew' & Kw & Er' & Kr).
    destruct (proj2 (to_workers _ _ _ _ _ Hok') i v' Hv') as (row' & Hrow' & Hread'). unfold worker_at in Hrow'. rewrite Ew' in Hrow'. cbn in Hrow'.
    rewrite Er' in Hrow'. injection Hrow' as <-. apply worker_of_row_ok in Hread as [_ (a & te & o & Hrec & ->)].
    apply worker_of_row_ok in Hread' as [_ (a' & te' & o' & Hrec' & ->)]. by apply row_kept_view. }
  assert (Hf : Forall2 worker_kept ws ws') by (apply Forall2_same_length_lookup; by split).
  split; cbn [with_workers tk_ID tk_CreatedAt tk_IntegrationReceipt tk_Workers]; [by rewrite Eg| |done|done].
  assert (Hmap : forall B (f : TaskWorker -> B), (forall v v', worker_kept v v' -> f v' = f v) -> f <$> ws' = f <$> ws).
  { intros B f Hfv. clear - Hf Hfv. induction Hf as [|v v' l l' Hv _ IH]; [done|]. cbn. by rewrite (Hfv v v' Hv), IH. }
  unfold spec_of_task. cbn [with_workers tk_Workers].
  rewrite (Hmap _ wk_GoalHash), (Hmap _ wk_GoalRef) by (intros v v' [(_ & _ & ? & ?)]; done). by rewrite Eg.
Qed.

(** ** A finished task stays as it is *)
Definition finished (s : TaskState) : Prop := s = TaskCompleted \/ s = TaskFailed \/ s = TaskCancelled.

Lemma kept_states ws ws' : Forall2 worker_kept ws ws' -> Forall (fun v => terminal (wk_State v) = true) ws ->
  wk_State <$> ws' = wk_State <$> ws.
Proof.
  induction 1 as [|v v' l l' Hv _ IH]; [done|]. intros [Ht Hl]%Forall_cons. cbn. rewrite (IH Hl). f_equal. by apply (wk_kept_terminal _ _ Hv).
Qed.

Lemma kept_failed ws ws' : Forall2 worker_kept ws ws' -> existsb (fun v => wk_State v =? StateFailed) ws = true ->
  existsb (fun v => wk_State v =? StateFailed) ws' = true /\ forallb (fun v => wk_State v =? StateSucceeded) ws' = false.
Proof.
  induction 1 as [|v v' l l' Hv _ IH]; [done|]. cbn. intros [Hf|Hf]%orb_true_iff.
  - apply bool_decide_eq_true in Hf. destruct (wk_kept_terminal _ _ Hv) as (E & _); [by rewrite Hf|]. rewrite E, Hf. done.
  - destruct (IH Hf) as [-> ->]. by rewrite orb_true_r, andb_false_r.
Qed.

Lemma forallb_states (P : State -> bool) ws ws' : wk_State <$> ws' = wk_State <$> ws ->
  forallb (fun v => P (wk_State v)) ws' = forallb (fun v => P (wk_State v)) ws /\ existsb (fun v => P (wk_State v)) ws' = existsb (fun v => P (wk_State v)) ws.
Proof.
  revert ws'. induction ws as [|v ws IH]; intros [|v' ws'] E; try done. injection E as E1 E2. cbn. rewrite E1. by destruct (IH ws' E2) as [-> ->].
Qed.

Lemma derived_finished ws ws' : Forall2 worker_kept ws ws' -> finished (deriveTaskState ws) -> deriveTaskState ws' = deriveTaskState ws.
Proof.
  intros Hf Hfin. unfold deriveTaskState in *. cbv zeta beta in *. destruct (forallb (fun w => wk_State w =? StateSucceeded) ws) eqn:Eall.
  { assert (Ht : Forall (fun v => terminal (wk_State v) = true) ws).
    { apply Forall_forall. intros v Hv. rewrite forallb_forall in Eall. apply list_elem_of_In in Hv. specialize (Eall v Hv). apply bool_decide_eq_true in Eall. by rewrite Eall. }
    pose proof (kept_states ws ws' Hf Ht) as E.
    destruct (forallb_states (fun s => s =? StateSucceeded) ws ws' E) as [E1 _]. cbv beta in E1. by rewrite E1, Eall. }
  destruct (existsb (fun w => wk_State w =? StateFailed) ws) eqn:Efail.
  { by destruct (kept_failed ws ws' Hf Efail) as [-> ->]. }
  destruct (forallb (fun w => terminal (wk_State w)) ws) eqn:Eterm.
  2:{ cbn [andb] in Hfin. destruct (existsb wk_CancelRequested ws); [destruct Hfin as [?|[?|?]]; done|]. destruct (_ || _) in Hfin; destruct Hfin as [?|[?|?]]; done. }
  assert (Ht : Forall (fun v => terminal (wk_State v) = true) ws).
  { apply Forall_forall. intros v Hv. rewrite forallb_forall in Eterm. by apply Eterm, list_elem_of_In. }
  pose proof (kept_states ws ws' Hf Ht) as E.
  destruct (forallb_states (fun s => s =? StateSucceeded) ws ws' E) as [E1 _], (forallb_states (fun s => s =? StateFailed) ws ws' E) as [_ E2],
    (forallb_states terminal ws ws' E) as [E3 _], (forallb_states (fun s => s =? StateCancelled) ws ws' E) as [_ E4].
  cbv beta in E1, E2, E3, E4. rewrite E1, E2, E3, E4, Eall, Efail, Eterm.
  cbn [andb] in *. destruct (existsb (fun w => wk_State w =? StateCancelled) ws); [done|].
  destruct (existsb wk_CancelRequested ws); [destruct Hfin as [?|[?|?]]; done|]. destruct (_ || _) in Hfin; destruct Hfin as [?|[?|?]]; done.
Qed.
End History.
