(* ===== verification/Tasks.v ===== *)
(** * Theorems about tasks

    About every store that calls of the queue and of tasks can reach, whatever driver
    calls fail on the way. *)

From S2P Require Import Prelude GoStrings GoRegexp GoLanguage Effects GoJson GoTime GoReflect GoRecord PolicyScan WorkqueueTypes Admission Fairness WorkqueueRows WorkqueueStore WorkqueueInv WorkqueueOps WorkqueueEnqueue WorkqueueSystem Workqueue TaskTypes TaskRecord TaskRules TaskRoundtrip TaskRows TaskStore TaskFacts TaskSteps TaskInv TaskCreate TaskOps TaskSystem TaskHistory.

Section Tasks.
Context `{SystemSummaries} `{SqlScan}.

(** ** Reachable stores *)
Definition reachable (now : Z) (s : Store) : Prop :=
  exists config s0 t0 tr, fresh_store config = Ok s0 /\ task_trace (F := any_fault) t0 s0 tr now s.

Lemma fresh_tasks_inv now config s : fresh_store config = Ok s -> tasks_inv now (st_db s).
Proof.
  unfold fresh_store. intros Hf. destruct (validateConfig config) as [c|]; [|done]. cbn in Hf. injection Hf as <-. by split.
Qed.

Lemma reachable_tasks_inv now s : reachable now s -> store_inv any_fault now s /\ tasks_inv now (st_db s).
Proof.
  intros (config & s0 & t0 & tr & Hf & Htr). destruct (task_trace_post _ _ _ _ _ Htr) as (? & ? & _); [|by eapply fresh_tasks_inv|done].
  by eapply fresh_store_inv.
Qed.

Lemma reachable_inv_at now now' s : reachable now s -> now <= now' -> store_inv any_fault now' s /\ tasks_inv now' (st_db s).
Proof. intros [Hi Ht]%reachable_tasks_inv Hle. split; [by eapply store_inv_mono|by eapply tasks_inv_mono]. Qed.

Lemma stepped_tasks now s db : in_int64 now -> store_inv any_fault now s -> tasks_inv now (st_db s) -> stepped (F := any_fault) now s db -> tasks_inv now db.
Proof.
  intros Hn Hi Ht Hs. apply (call_post_inv (F := any_fault) now s now (set_db db s)); [|done|done]. apply post_advance; [lia|done|]. by apply post_stepped.
Qed.

(** ** The integrity check of tasks *)
Lemma reread_quiet e s id t : task_of (st_db s) id = Ok (Some t) -> reread_task e id s [] = (Ok t, s, []).
Proof. intros Ht. unfold reread_task, taskUnlocked, mtry, tx, mbind, mget. rewrite taskByID_quiet, Ht. done. Qed.

Lemma reread_all e s ids : (forall id, id ∈ ids -> exists t, task_of (st_db s) id = Ok (Some t)) ->
  mfold (fun _ id => let! _ := reread_task e id in mret tt) tt ids s [] = (Ok tt, s, []).
Proof.
  induction ids as [|id ids IH]; intros Hall; [done|]. cbn [mfold]. unfold mbind at 1 2. destruct (Hall id) as [t Ht]; [left|]. rewrite (reread_quiet e s id t Ht).
  apply IH. intros id' Hin. apply Hall. by right.
Qed.

Lemma distinct_jobs (P : string -> string -> Prop) ids : NoDup ids -> (forall id, id ∈ ids -> exists job, P id job) ->
  (forall id id' job, P id job -> P id' job -> id = id') -> exists jobs, length jobs = length ids /\ NoDup jobs /\ forall job, job ∈ jobs -> exists id, P id job.
Proof.
  intros Hnd Hex Hinj. assert (Hj : exists jobs, Forall2 P ids jobs).
  { clear Hnd. induction ids as [|id ids IH]; [by exists []|]. destruct (Hex id) as [j Hj]; [left|]. destruct IH as [js Hjs]; [intros id' Hin; apply Hex; by right|].
    exists (j :: js). by constructor. }
  destruct Hj as [jobs Hj]. exists jobs. split; [symmetry; by eapply Forall2_length|]. clear Hex.
  induction Hj as [|id j ids jobs Hp Hj IH]; [split; [constructor|by intros j ?%elem_of_nil]|]. apply NoDup_cons in Hnd as [Hni Hnd]. destruct (IH Hnd) as [IH1 IH2]. split.
  - constructor; [|done]. intros [n Hn]%list_elem_of_lookup. destruct (Forall2_lookup_r _ _ _ _ _ Hj Hn) as (id' & Hid' & Hp').
    rewrite (Hinj id id' j Hp Hp') in Hni. apply Hni. by eapply list_elem_of_lookup_2.
  - intros job [->|Hin]%elem_of_cons; [by exists id|by apply IH2].
Qed.

Lemma active_tasks_bound now s : store_inv any_fault now s -> tasks_inv now (st_db s) ->
  Z.of_nat (length (filter (fun id => exists_worker (st_db s) active id = true) (map_to_list (db_task_groups (st_db s))).*1)) <= cfg_MaxJobs (st_config s).
Proof.
  intros Hi Ht. set (db := st_db s). set (ids := filter _ _).
  destruct (distinct_jobs (fun id job => exists i w r, db_task_workers db !! (id, i) = Some w /\ tw_job_id w = job /\ db_jobs db !! job = Some r /\ active r = true) ids)
    as (jobs & Hlen & Hnd & Hjobs).
  - apply NoDup_filter, NoDup_fst_map_to_list.
  - intros id [Hex _]%list_elem_of_filter. unfold exists_worker in Hex. apply existsb_exists in Hex as (row & Hin & Hact). apply list_elem_of_In in Hin.
    unfold worker_rows in Hin. apply list_elem_of_omap in Hin as (i & _ & Hrow). unfold worker_at in Hrow.
    destruct (db_task_workers db !! (id, i)) as [w|] eqn:Ew; cbn in Hrow; [|done]. destruct (db_jobs db !! tw_job_id w) as [r|] eqn:Er; [|done]. injection Hrow as <-.
    exists (tw_job_id w), i, w, r. done.
  - intros id id' job (i & w & r & Hw & E & _) (i' & w' & r' & Hw' & E' & _). pose proof (tv_jobs _ _ Ht _ _ w w' Hw Hw' ltac:(congruence)) as E2. congruence.
  - rewrite <- Hlen. etrans; [|apply (si_bounds _ _ _ Hi)]. unfold count_jobs. apply inj_le. rewrite <- size_dom.
    rewrite <- (size_list_to_set (C := gset string) jobs) by done. apply subseteq_size. intros j Hj%elem_of_list_to_set.
    destruct (Hjobs j Hj) as (id & i & w & r & _ & _ & Hr & Ha). apply elem_of_dom. exists r. by apply map_lookup_filter_Some.
Qed.

Lemma tasksIntegrity_quiet now s : store_inv any_fault now s -> tasks_inv now (st_db s) -> run tasksIntegrity s [] = (Ok tt, s).
Proof.
  intros Hi Ht. unfold run, tasksIntegrity. set (recheck := mfold (fun _ id => let! _ := reread_task _ id in mret tt) tt).
  unfold mbind, mget, driver, mguard, mlift, mret. cbn [next_fault fst snd]. rewrite fetch_quiet. cbn [next_fault fst snd].
  rewrite (proj2 (Z.ltb_ge _ _)) by (by eapply active_tasks_bound). cbn [reject_if]. unfold recheck. rewrite reread_all; [done|].
  intros id Hid. rewrite sort_strings_elem in Hid. apply list_elem_of_fmap in Hid as ([id' g] & -> & Hin%elem_of_map_to_list).
  destruct (tv_task _ _ Ht id' g Hin) as (group & ws & Hok & _). exists (with_workers group ws). by apply (task_ok_reads _ _ g).
Qed.

(** ** Theorems *)
(** A worker that reads back has its row and the row of its job. *)
Lemma worker_job_row now db id t n v : tasks_inv now db -> task_of db id = Ok (Some t) -> tk_Workers t !! n = Some v ->
  exists w r a te o, db_task_workers db !! (id, Z.of_nat n) = Some w /\ db_jobs db !! tw_job_id w = Some r /\
    v = worker_view {| wr_ordinal := Z.of_nat n; wr_worker := w; wr_job := r |} a te o /\ receipts_of w a te o.
Proof.
  intros Ht Hid Hv. destruct (tasks_inv_read _ _ _ _ Ht Hid) as (g & group & ws & Hg & Hok & _ & ->). cbn [with_workers tk_Workers] in Hv.
  destruct (proj2 (to_workers _ _ _ _ _ Hok) n v Hv) as (row & Hrow & Hread).
  unfold worker_at in Hrow. destruct (db_task_workers db !! _) as [w|] eqn:Ew; cbn in Hrow; [|done]. destruct (db_jobs db !! _) as [r|] eqn:Er; [|done]. injection Hrow as <-.
  apply worker_of_row_ok in Hread as [_ (a & te & o & Hrec & ->)]. by exists w, r, a, te, o.
Qed.

(** Every worker is a stored job, in the state of that job, and no two workers, of one
    task or of two, are the same job. *)
Definition workers_own_jobs (db : DB) : Prop :=
  (forall id t n v, task_of db id = Ok (Some t) -> tk_Workers t !! n = Some v ->
     exists r, db_jobs db !! wk_JobID v = Some r /\ wk_State v = r_state r /\ wk_Fence v = r_fence r /\ wk_GoalHash v = i_payload_hash (r_ident r)) /\
  (forall id id' t t' n n' v v', task_of db id = Ok (Some t) -> task_of db id' = Ok (Some t') -> tk_Workers t !! n = Some v ->
     tk_Workers t' !! n' = Some v' -> wk_JobID v = wk_JobID v' -> id = id' /\ n = n').

Lemma tasks_own_jobs now db : tasks_inv now db -> workers_own_jobs db.
Proof.
  intros Ht. split.
  - intros id t n v Hid Hv. destruct (worker_job_row now db id t n v Ht Hid Hv) as (w & r & a & te & o & _ & Hr & -> & _). by exists r.
  - intros id id' t t' n n' v v' Hid Hid' Hv Hv' E. destruct (worker_job_row now db id t n v Ht Hid Hv) as (w & r & a & te & o & Hw & _ & -> & _).
    destruct (worker_job_row now db id' t' n' v' Ht Hid' Hv') as (w' & r' & a' & te' & o' & Hw' & _ & -> & _).
    pose proof (tv_jobs _ _ Ht _ _ _ _ Hw Hw' E) as Ek. injection Ek as -> Ek. split; [done|lia].
Qed.

(** C2 In every store that calls of the queue and of tasks can reach, whatever driver
    calls failed: every stored task is read back, valid, under its identifier; its
    idempotency key is its own; every worker is a stored job of its own, with the state
    and the fence of that job; and the integrity check of tasks passes. *)
Theorem stored_tasks_valid now s : reachable now s ->
  (forall id g, db_task_groups (st_db s) !! id = Some g -> exists t,
     task_of (st_db s) id = Ok (Some t) /\ tk_ID t = id /\ validTask t = true /\ tk_State t = deriveTaskState (tk_Workers t)) /\
  (forall id id' t t', task_of (st_db s) id = Ok (Some t) -> task_of (st_db s) id' = Ok (Some t') ->
     tk_IdempotencyKey t = tk_IdempotencyKey t' -> id = id') /\
  workers_own_jobs (st_db s) /\
  run tasksIntegrity s [] = (Ok tt, s).
Proof.
  intros [Hi Ht]%reachable_tasks_inv. split_and!; [| |by eapply tasks_own_jobs|by eapply tasksIntegrity_quiet].
  - intros id g Hg. destruct (tv_task _ _ Ht id g Hg) as (group & ws & Hok & _). exists (with_workers group ws).
    split_and!; [by apply (task_ok_reads _ _ g)|exact (group_of_row_id _ _ _ (to_group _ _ _ _ _ Hok))| |done].
    apply validTask_iff; [apply Hok|]. split_and!; apply Hok.
  - intros id id' t t' H1' H2' E. apply task_of_some in H1' as (g & group & ws & Hg & Hgr & -> & _). apply task_of_some in H2' as (g' & group' & ws' & Hg' & Hgr' & -> & _).
    apply (tv_keys _ _ Ht id id' g g' Hg Hg'). cbn in E. rewrite <- (group_of_row_key _ _ _ Hgr), <- (group_of_row_key _ _ _ Hgr'). done.
Qed.

(** C5 Whatever calls follow, successful or failing: a stored task stays stored, its
    specification and identity never change, a worker keeps its job, its bound
    operation, worktree, workspace and runtime, a receipt that is recorded stays the
    same, a cleanup mark stays, and a finished worker keeps its state, result, lease
    and fence. *)
Theorem task_history now s tr now' s' id t : reachable now s -> task_trace (F := any_fault) now s tr now' s' ->
  task_of (st_db s) id = Ok (Some t) -> exists t', task_of (st_db s') id = Ok (Some t') /\ task_kept t t'.
Proof.
  intros [Hi Ht]%reachable_tasks_inv Htr Hid. destruct (task_trace_post _ _ _ _ _ Htr Hi Ht) as (_ & Ht' & Hs).
  eapply (kept_task now now'); try done. exact (advance_kept _ _ Hs (si_jobs _ _ _ Hi) Ht).
Qed.

(** C33 Completed, failed and cancelled are final: no sequence of calls takes a task out
    of them. *)
Theorem finished_task_final now s tr now' s' id t t' : reachable now s -> task_trace (F := any_fault) now s tr now' s' ->
  task_of (st_db s) id = Ok (Some t) -> tk_State t = TaskCompleted \/ tk_State t = TaskFailed \/ tk_State t = TaskCancelled ->
  task_of (st_db s') id = Ok (Some t') -> tk_State t' = tk_State t.
Proof.
  intros [Hi Ht]%reachable_tasks_inv Htr Hid Hfin Hid'. destruct (task_trace_post _ _ _ _ _ Htr Hi Ht) as (_ & Ht' & Hs).
  destruct (kept_task now now' _ _ id t Ht Ht' (advance_kept _ _ Hs (si_jobs _ _ _ Hi) Ht) Hid) as (t1 & Hid1 & Hk). rewrite Hid' in Hid1. injection Hid1 as <-.
  pose proof (tk_kept_workers _ _ Hk) as Hw. apply task_of_some in Hid as (_ & group & ws & _ & _ & -> & _). apply task_of_some in Hid' as (_ & group' & ws' & _ & _ & -> & _).
  by apply derived_finished.
Qed.

(** C3 As long as a task that integrates others may still deliver, that is, one of its
    workers has neither failed nor been cancelled nor been cleaned up, every pin of it
    still names a succeeded worker of a stored task, with the pinned job, worktree,
    workspace, runtime, lease and fence, whose worktree is not cleaned up. *)
Theorem integration_sources_held now s id t v p : reachable now s -> task_of (st_db s) id = Ok (Some t) ->
  v ∈ tk_Workers t -> wk_State v <> StateFailed -> wk_State v <> StateCancelled -> wk_WorktreeCleaned v = false -> p ∈ range (tk_IntegrationPins t) ->
  exists source u, task_of (st_db s) (pin_TaskID p) = Ok (Some source) /\ tk_Workers source !! Z.to_nat (pin_Ordinal p) = Some u /\
    wk_State u = StateSucceeded /\ wk_WorktreeCleaned u = false /\ wk_JobID u = pin_JobID p /\ wk_WorktreeID u = pin_WorktreeID p /\
    wk_WorkspaceID u = pin_WorkspaceID p /\ wk_RuntimeID u = pin_RuntimeID p /\ wk_LeaseID u = pin_LeaseID p /\ wk_Fence u = pin_Fence p.
Proof.
  intros [Hi Ht]%reachable_tasks_inv Hid Hv Hf Hc Hcl Hp. destruct (tasks_inv_read _ _ _ _ Ht Hid) as (g & group & ws & Hg & Hok & _ & ->).
  apply list_elem_of_lookup in Hv as [n Hn]. cbn [with_workers tk_Workers] in Hn. destruct (proj2 (to_workers _ _ _ _ _ Hok) n v Hn) as (row & Hrow & Hread).
  unfold worker_at in Hrow. destruct (db_task_workers _ !! _) as [w|] eqn:Ew; cbn in Hrow; [|done]. destruct (db_jobs _ !! _) as [r|] eqn:Er; [|done]. injection Hrow as <-.
  apply worker_of_row_ok in Hread as [_ (a & te & o & _ & ->)].
  destruct (tv_pins _ _ Ht id (Z.of_nat n) g group p Hg (to_group _ _ _ _ _ Hok)) as (x & rp & Hx & Hrp & Ej & E1 & E2 & E3 & E4 & E5 & E6 & E7); [by exists w, r|done|].
  destruct (tv_fk _ _ Ht _ _ _ Hx) as [gs Hgs]. destruct (tv_task _ _ Ht _ gs Hgs) as (groups & wss & Hoks & _).
  destruct (task_worker_row _ _ _ _ _ _ _ Hoks Hx) as (r1 & u & a1 & t1 & o1 & Hr1 & _ & Hu & _ & _ & ->). rewrite Ej in Hr1. rewrite Hrp in Hr1. injection Hr1 as <-.
  eexists _, _. split; [by apply (task_ok_reads _ _ gs)|]. cbn [with_workers tk_Workers]. split; [exact Hu|]. cbn. done.
Qed.

(** ** Cleanup *)
(** No integration that may still deliver has the task as its source. *)
Definition unpinned (db : DB) (taskID : string) : Prop :=
  forall id u x c, task_of db id = Ok (Some u) -> tk_IntegrationContract u = Some c -> ic_SourceTaskID c = taskID -> x ∈ tk_Workers u ->
    wk_State x = StateFailed \/ wk_State x = StateCancelled \/ wk_WorktreeCleaned x = true.

Lemma requiring_unpinned now db taskID : tasks_inv now db -> taskID <> "" -> requiring_integrations db taskID = [] -> unpinned db taskID.
Proof.
  intros Ht Hne Hreq id u x c Hu Hc Hsrc Hx. destruct (tasks_inv_read _ _ _ _ Ht Hu) as (g & group & ws & Hg & Hok & _ & ->).
  apply list_elem_of_lookup in Hx as [n Hn]. cbn [with_workers tk_Workers] in Hn. destruct (proj2 (to_workers _ _ _ _ _ Hok) n x Hn) as (row & Hrow & Hread).
  unfold worker_at in Hrow. destruct (db_task_workers db !! _) as [w|] eqn:Ew; cbn in Hrow; [|done]. destruct (db_jobs db !! _) as [r|] eqn:Er; [|done]. injection Hrow as <-.
  apply worker_of_row_ok in Hread as [_ (a & te & o & _ & ->)]. cbn. pose proof (integration_source id g group c (to_group _ _ _ _ _ Hok) Hc) as Es.
  pose proof (requiring_spec db taskID Hreq Hne id (Z.of_nat n) g Hg ltac:(congruence)) as Hno.
  destruct (decide (r_state r = StateFailed)); [auto|]. destruct (decide (r_state r = StateCancelled)); [auto|]. right. right.
  destruct (tw_worktree_cleaned w) eqn:Ecl; [done|]. exfalso. apply Hno. by exists w, r.
Qed.

Lemma worker_row now db id t i v : tasks_inv now db -> task_of db id = Ok (Some t) -> 0 <= i -> tk_Workers t !! Z.to_nat i = Some v ->
  exists w r a te o, db_task_workers db !! (id, i) = Some w /\ v = worker_view {| wr_ordinal := i; wr_worker := w; wr_job := r |} a te o /\
    receipts_of w a te o.
Proof.
  intros Ht Hid Hi Hv. destruct (worker_job_row now db id t _ v Ht Hid Hv) as (w & r & a & te & o & Hw & _ & Ev & Hrec).
  rewrite Z2Nat.id in Hw, Ev by done. by exists w, r, a, te, o.
Qed.

Definition cleanup_allowed (db : DB) (taskID : string) (ordinal : Z) (leaseID : string) (fence : Z) (t : TaskGroup) (v : TaskWorker) : Prop :=
  task_of db taskID = Ok (Some t) /\ tk_Workers t !! Z.to_nat ordinal = Some v /\ terminal (wk_State v) = true /\ wk_LeaseID v = leaseID /\
  wk_Fence v = fence /\ wk_WorktreeID v <> "" /\ (wk_State v = StateSucceeded -> evidence t v) /\ (wk_WorktreeCleaned v = false -> unpinned db taskID).

Lemma MarkTaskWorkerWorktreeCleaned_body now s taskID ordinal leaseID fence : in_int64 now -> store_inv any_fault now s -> tasks_inv now (st_db s) ->
  taskID <> "" -> 0 <= ordinal ->
  body any_fault (st_db s) (MarkTaskWorkerWorktreeCleaned_tx taskID ordinal leaseID fence now)
    (fun _ db => stepped (F := any_fault) now s db /\ exists t v w, cleanup_allowed (st_db s) taskID ordinal leaseID fence t v /\
       db_task_workers db !! (taskID, ordinal) = Some w /\ tw_worktree_cleaned w = true).
Proof.
  intros Hn Hi Ht Hne H0'. unfold MarkTaskWorkerWorktreeCleaned_tx. apply body_worker. intros t v Hid Hv. apply body_guard. intros Hg.
  destruct (worker_row now _ _ _ _ _ Ht Hid H0' Hv) as (w & r & a & te & o & Hw & Ev & _). breflect.
  destruct (wk_WorktreeCleaned v) eqn:Ecl.
  { apply body_ret. split; [by apply stepped_refl|]. exists t, v, w. split_and!; [|done|by subst v].
    split_and!; try done; [|by rewrite Ecl]. intros Hs. destruct (tasks_inv_read _ _ _ _ Ht Hid) as (g & group & ws & _ & Hok & _ & ->).
    pose proof (to_worker _ _ _ _ _ Hok _ _ Hv) as Hwk. by destruct (proj2 (proj2 (wo_cleaned _ _ _ Hwk Ecl)) Hs). }
  apply body_guard; intros N1. apply body_guard; intros N2. apply body_guard; intros N3. apply body_guard; intros N4.
  eapply body_try; [apply hoare_required| |intros e; by apply body_guard]. intros required Hreq. apply body_guard. intros Hr.
  assert (Hev : wk_State v = StateSucceeded -> evidence t v).
  { intros Hs. assert (Hst : (wk_State v =? StateSucceeded) = true) by (by apply bool_decide_eq_true). split; by eapply needs_guard. }
  assert (Hok : cleanup_allowed (st_db s) taskID ordinal leaseID fence t v).
  { split_and!; try done. intros _. eapply requiring_unpinned; try done. by apply Hreq. }
  apply body_update_worker; [|intros Hno; specialize (Hno w Hw); subst v; cbn in Ecl; by rewrite Ecl in Hno].
  intros w0 Hw0 _. eapply (body_bind _ _ _ (fun _ db => stepped (F := any_fault) now s db /\ db_task_workers db !! (taskID, ordinal) = Some (set_cleaned w0))).
  - apply body_update_group; [|intros Hno].
    + intros g Hgr _. rewrite now_nano by done. split; [|cbn; by rewrite lookup_insert_eq]. apply stepped_groups; [|by apply step_touch].
      apply stepped_workers; [by apply stepped_refl|]. eapply step_clean; try done. by apply Hreq.
    + split; [|cbn; by rewrite lookup_insert_eq]. apply stepped_workers; [by apply stepped_refl|]. eapply step_clean; try done. by apply Hreq.
  - intros [] db [Hs Hl]. apply body_ret. split; [done|]. by exists t, v, (set_cleaned w0).
Qed.

(** C6 A worktree is marked as cleaned up only for a finished worker under the lease and
    fence it ran with, when a succeeded worker has the receipts its contracts ask for,
    and while no integration that may still deliver needs the task; afterwards the mark
    reads back. *)
Theorem cleanup_guarded now0 now s taskID ordinal leaseID fence fs s' : reachable now0 s -> now0 <= now -> in_int64 now ->
  run (MarkTaskWorkerWorktreeCleaned taskID ordinal leaseID fence now) s fs = (Ok tt, s') ->
  (exists t v, cleanup_allowed (st_db s) taskID ordinal leaseID fence t v) /\
  exists t' v', task_of (st_db s') taskID = Ok (Some t') /\ tk_Workers t' !! Z.to_nat ordinal = Some v' /\ wk_WorktreeCleaned v' = true.
Proof.
  intros Hreach Hle Hn Hrun. destruct (reachable_inv_at now0 now s Hreach Hle) as [Hi Ht].
  assert (Hspec : hoare any_fault (eq s) (MarkTaskWorkerWorktreeCleaned taskID ordinal leaseID fence now) (fun _ s1 => 0 <= ordinal /\ exists db, s1 = set_db db s /\
    stepped (F := any_fault) now s db /\ exists t v w, cleanup_allowed (st_db s) taskID ordinal leaseID fence t v /\ db_task_workers db !! (taskID, ordinal) = Some w /\
    tw_worktree_cleaned w = true) (fun _ _ => True)).
  { unfold MarkTaskWorkerWorktreeCleaned. eapply (hoare_bind _ _ _ (fun _ s1 => s1 = s /\ taskID <> "" /\ 0 <= ordinal)).
    { apply hoare_guard; [done|]. intros s1 <- Hg. breflect. split_and!; [done| |by apply valid_ordinal_nonneg]. by intros ->. }
    intros _ s1 fs1 HF (-> & Hne & H0'). eapply (hoare_bind (eq s)); [|intros ?; apply hoare_ret; intros s1 Hs; split; [exact H0'|exact Hs]|done|done].
    eapply hoare_conseq; [eapply (hoare_transaction now s); [done|by apply MarkTaskWorkerWorktreeCleaned_body]|done|done|done]. }
  destruct (hoare_any _ _ _ _ Hspec eq_refl Hrun) as (H0' & db & -> & [Hi' Hs] & t & v & w & Hall & Hw & Hcl). split; [by exists t, v|].
  pose proof (stepped_tasks now s db Hn Hi Ht (conj Hi' Hs)) as Ht'.
  destruct (tv_fk _ _ Ht' _ _ _ Hw) as [g Hg]. destruct (tv_task _ _ Ht' _ g Hg) as (group & ws & Hok & _).
  destruct (task_worker_row _ _ _ _ _ _ _ Hok Hw) as (r & x & a & te & o & _ & _ & Hx & _ & _ & ->).
  eexists _, _. split; [by apply (task_ok_reads _ _ g)|]. split; [exact Hx|done].
Qed.

(** ** Creation *)
(** The specification as it is stored: pins belong to an integration. *)
Definition stored_spec (spec : TaskSpec) : TaskSpec :=
  {| ts_IdempotencyKey := ts_IdempotencyKey spec; ts_Project := ts_Project spec; ts_Target := ts_Target spec;
     ts_BaseCommit := ts_BaseCommit spec; ts_GoalHash := ts_GoalHash spec; ts_AcceptanceContract := ts_AcceptanceContract spec;
     ts_TestAcceptanceContract := ts_TestAcceptanceContract spec; ts_ObjectiveContract := ts_ObjectiveContract spec;
     ts_IntegrationContract := ts_IntegrationContract spec;
     ts_IntegrationPins := match ts_IntegrationContract spec with Some _ => ts_IntegrationPins spec | None => None end;
     ts_WorkerGoalHashes := ts_WorkerGoalHashes spec; ts_WorkerGoalRefs := ts_WorkerGoalRefs spec; ts_Pool := ts_Pool spec;
     ts_Profile := ts_Profile spec; ts_WorkerCount := ts_WorkerCount spec; ts_ExecutionTimeoutSeconds := ts_ExecutionTimeoutSeconds spec |}.

Lemma fresh_workers_queued ws : ws <> [] -> Forall fresh_worker ws -> deriveTaskState ws = TaskQueued.
Proof.
  intros Hne Hall.
  assert (Hnone : forall f, (forall v, fresh_worker v -> f v = false) -> existsb f ws = false /\ (ws <> [] -> forallb f ws = false)).
  { intros f Hf. clear Hne. induction Hall as [|v ws Hv _ [IH _]]; [done|]. cbn. by rewrite (Hf v Hv), IH. }
  assert (Hst : forall x, x <> StateQueued -> forall v, fresh_worker v -> (wk_State v =? x) = false) by (intros x Hx v (-> & _); by apply bool_decide_eq_false).
  unfold deriveTaskState. cbv zeta. rewrite (proj2 (Hnone _ (Hst StateSucceeded ltac:(done))) Hne), (proj1 (Hnone _ (Hst StateFailed ltac:(done)))).
  rewrite (proj2 (Hnone (fun v => terminal (wk_State v)) ltac:(by intros v (-> & _))) Hne). cbn [andb].
  rewrite (proj1 (Hnone wk_CancelRequested ltac:(by intros v (_ & ? & _)))), (proj1 (Hnone _ (Hst StateLeased ltac:(done)))).
  by rewrite (proj1 (Hnone (fun v => (0 <? wk_Attempt v) || terminal (wk_State v)) ltac:(by intros v (-> & _ & -> & _)))).
Qed.

(** The job of a new worker. *)
Definition new_job (spec : TaskSpec) (v : TaskWorker) (r : JobRow) : Prop :=
  r_state r = StateQueued /\ r_attempt r = 0 /\ r_fence r = 0 /\ r_lease_id r = None /\ r_cancel_requested r = false /\
  i_workspace (r_ident r) = ts_Project spec /\ i_pool (r_ident r) = ts_Pool spec /\ i_profile (r_ident r) = ts_Profile spec /\
  i_payload_hash (r_ident r) = wk_GoalHash v.

(** What the transaction of [CreateTask] leaves. *)
Section Created.
Context (now : Z) (s : Store) (spec : TaskSpec) (id : string) (db : DB).
Hypotheses (Hnow : in_int64 now) (Hinv : store_inv any_fault now s) (Htasks : tasks_inv now (st_db s)).
Hypothesis Hout : create_outcome spec now (st_db s) (inr id) db.

Lemma created_reads : exists ws, task_of db id = Ok (Some (with_workers (created_group spec id now) ws)) /\
  spec_of_task (with_workers (created_group spec id now) ws) = stored_spec spec /\ ws <> [] /\ Forall fresh_worker ws.
Proof.
  destruct Hout as (Hs & Hid & Hsrc & Hkey & db1 & Hg & Hc). apply insert_group_some in Hg as (Hf & _ & ->). apply workers_created_rows in Hc.
  destruct (created_task now (st_db s) spec id db Hnow Htasks (si_jobs _ _ _ Hinv) Hs Hid Hsrc Hf Hc) as (ws & Hok & Hh & Hr & Hfr). exists ws. split_and!.
  - apply (task_ok_reads _ _ (stored_group spec now)); [|done]. rewrite (cr_groups _ _ _ _ _ _ _ Hc). cbn. by rewrite lookup_insert_eq.
  - unfold spec_of_task, stored_spec. cbn [with_workers created_group tk_IdempotencyKey tk_Project tk_Target tk_BaseCommit tk_GoalHash tk_AcceptanceContract
      tk_TestAcceptanceContract tk_ObjectiveContract tk_IntegrationContract tk_IntegrationPins tk_Workers tk_Pool tk_Profile tk_WorkerCount tk_ExecutionTimeoutSeconds].
    by rewrite Hh, Hr.
  - intros ->. pose proof (so_hashes _ Hs) as E. pose proof (so_count _ Hs). cbn in Hh. rewrite <- Hh in E. cbn in E. lia.
  - done.
Qed.

Lemma created_fresh : task_of (st_db s) id = Ok None.
Proof. destruct Hout as (_ & _ & _ & _ & db1 & Hg & _). apply insert_group_some in Hg as (Hf & _ & _). unfold task_of. by rewrite Hf. Qed.

Lemma created_others id' : id' <> id -> task_of db id' = task_of (st_db s) id'.
Proof.
  intros Hne. destruct Hout as (_ & _ & _ & _ & db1 & Hg & Hc). apply insert_group_some in Hg as (Hf & _ & ->). apply workers_created_rows in Hc as [C1 _ C3 C4 _ C6 _ _].
  unfold task_of. rewrite C1. cbn. rewrite lookup_insert_ne by done. destruct (db_task_groups (st_db s) !! id') as [g|] eqn:Eg; [|done].
  assert (Hdom : forall i w, db_task_workers db !! (id', i) = Some w -> db_task_workers (st_db s) !! (id', i) = Some w).
  { intros i w Hw. destruct (C6 _ _ Hw) as [?|[_ (n & [= E _] & _)]]; done. }
  assert (Hrows : worker_rows db id' = worker_rows (st_db s) id'); [|by rewrite Hrows].
  unfold worker_rows. rewrite (ordinals_same (st_db s) db id') by (intros i; split; intros [w Hw]; exists w; auto).
  assert (Hall : forall i, i ∈ ordinals_of (st_db s) id' -> worker_at db id' i = worker_at (st_db s) id' i).
  { intros i [w Hw]%ordinals_spec. destruct (tv_task _ _ Htasks id' g Eg) as (group & ws & Hok & _).
    destruct (task_worker_row _ _ _ _ _ _ _ Hok Hw) as (r & _ & _ & _ & _ & Hr & _). unfold worker_at. rewrite (C4 _ _ Hw), Hw. cbn. by rewrite (C3 _ _ Hr), Hr. }
  induction (ordinals_of (st_db s) id') as [|i l IH]; [done|]. cbn. rewrite (Hall i) by left. destruct (worker_at (st_db s) id' i); rewrite IH; [done| |done|];
    intros j Hj; apply Hall; by right.
Qed.

(** The jobs of the new workers: new, queued and distinct. *)
Lemma created_jobs t n v : task_of db id = Ok (Some t) -> tk_Workers t !! n = Some v -> tasks_inv now db ->
  db_jobs (st_db s) !! wk_JobID v = None /\ exists r, db_jobs db !! wk_JobID v = Some r /\ new_job spec v r.
Proof.
  intros Hid Hv Ht'. destruct (worker_job_row now db id t n v Ht' Hid Hv) as (w & r & a & te & o & Hw & Hr & -> & _). cbn [worker_view wk_JobID wr_worker].
  destruct Hout as (_ & _ & _ & _ & db1 & Hg & Hc). apply insert_group_some in Hg as (Hf & _ & ->). apply workers_created_rows in Hc as [C1 _ C3 C4 C5 C6 C7 _].
  destruct (C6 _ _ Hw) as [Hold|[_ (k & [= Ek] & Hk)]].
  { exfalso. cbn in Hold. destruct (tv_fk _ _ Htasks _ _ _ Hold) as [g Hg]. congruence. }
  destruct (lookup_lt_is_Some_2 _ k Hk) as [[hash ref] Hgoal]. destruct (C5 k hash ref Hgoal) as (job & Hw' & Hr' & _ & Hno).
  assert (Hk' : k = n) by lia. subst k. rewrite Ek in Hw. rewrite Hw in Hw'. injection Hw' as ->. cbn in Hno, Hr |- *. rewrite Hr in Hr'. injection Hr' as ->.
  split; [done|]. eexists. split; [exact Hr|]. done.
Qed.

Lemma created_sources ws c : ts_IntegrationContract spec = Some c -> exists source, task_of (st_db s) (ic_SourceTaskID c) = Ok (Some source) /\
  ValidateTaskIntegrationSourceBindings (with_workers (created_group spec id now) ws) source = Ok tt.
Proof.
  intros Hc. destruct Hout as (_ & _ & Hsrc & _). destruct (Hsrc c) as (source & Ht & Hv); [done|]. exists source. split; [done|].
  revert Hv. unfold ValidateTaskIntegrationSourceBindings. cbn [pending_task with_workers created_group tk_IntegrationContract tk_IntegrationPins tk_Project tk_Target tk_BaseCommit].
  by rewrite Hc.
Qed.
End Created.

(** The result of [CreateTask]: a task found, with the store as it was, or one that is
    read back from the new rows. *)
Lemma CreateTask_spec now s spec random randoms : in_int64 now -> store_inv any_fault now s -> random_ok random -> Forall random_ok randoms ->
  hoare any_fault (eq s) (CreateTask spec now random randoms)
    (fun r s1 => spec_ok (normalizeTaskSpec spec) /\
       if r.2 then exists id db, s1 = set_db db s /\ stepped (F := any_fault) now s db /\ create_outcome (normalizeTaskSpec spec) now (st_db s) (inr id) db /\
         task_of db id = Ok (Some r.1)
       else s1 = s /\ taskMatchesSpec r.1 (normalizeTaskSpec spec) = true /\ exists id, task_of (st_db s) id = Ok (Some r.1))
    (fun _ _ => True).
Proof.
  intros Hn Hi Hr Hrs. unfold CreateTask. set (n := normalizeTaskSpec spec). eapply (hoare_bind _ _ _ (fun _ s1 => s1 = s /\ spec_ok n)).
  { apply hoare_guard; [done|]. intros s1 <- Hv. split; [done|]. by apply negb_false_iff, is_ok_true, validateTaskSpec_ok in Hv. }
  intros _ s1 fs HF [-> Hs]. eapply (hoare_bind (eq s) _ _ (fun D s1 => s1 = s /\ D = s)); [apply hoare_get; by intros s1 <-| |done|done].
  clear fs HF. intros D s1 fs HF [-> ->]. eapply (hoare_bind (eq s)); [| |done|done].
  { eapply hoare_conseq; [eapply (hoare_transaction now s _ _ _ (create_outcome n now (st_db s))); [done|by apply CreateTask_body]|done|intros a s1 Ha; exact Ha|done]. }
  clear fs HF. intros [t|id] s1 fs HF (db & -> & Hst & Hout).
  - split; [|done]. destruct Hout as (-> & Hm & Hex). split; [done|]. cbn. rewrite set_db_same. done.
  - eapply (hoare_bind (eq (set_db db s))); [eapply hoare_conseq; [apply hoare_reread_task|done|intros t s1 Ht; exact Ht|done]| |done|done].
    intros t. apply hoare_ret. intros s2 [-> Ht]. split; [done|]. cbn. by exists id, db.
Qed.

Lemma goals_match (hashes : list string) ws : forallb (fun e => Some (wk_GoalHash e.2) =? hashes !! e.1) (imap pair ws) = true <->
  forall i v, ws !! i = Some v -> hashes !! i = Some (wk_GoalHash v).
Proof.
  rewrite forallb_forall. split.
  - intros Hall i v Hv. specialize (Hall (i, v)). cbn in Hall. symmetry. eapply bool_decide_eq_true, Hall, list_elem_of_In, elem_of_lookup_imap. eauto.
  - intros Hall e (i & v & -> & Hv)%list_elem_of_In%elem_of_lookup_imap. cbn. apply bool_decide_eq_true. symmetry. auto.
Qed.

(** The task was created for this request: the same key, project, target, base commit,
    goals, pool, profile, size, time limit and contracts, and pins with the same digest. *)
Definition answers (t : TaskGroup) (spec : TaskSpec) : Prop :=
  tk_IdempotencyKey t = ts_IdempotencyKey spec /\ tk_Project t = ts_Project spec /\ tk_Target t = ts_Target spec /\
  tk_BaseCommit t = ts_BaseCommit spec /\ tk_GoalHash t = ts_GoalHash spec /\ tk_Pool t = ts_Pool spec /\ tk_Profile t = ts_Profile spec /\
  tk_WorkerCount t = ts_WorkerCount spec /\ tk_ExecutionTimeoutSeconds t = ts_ExecutionTimeoutSeconds spec /\
  tk_AcceptanceContract t = ts_AcceptanceContract spec /\ tk_TestAcceptanceContract t = ts_TestAcceptanceContract spec /\
  tk_ObjectiveContract t = ts_ObjectiveContract spec /\ tk_IntegrationContract t = ts_IntegrationContract spec /\
  pins_digest (tk_IntegrationPins t) = pins_digest (ts_IntegrationPins spec) /\
  (forall i v, tk_Workers t !! i = Some v -> ts_WorkerGoalHashes spec !! i = Some (wk_GoalHash v)).

Lemma same_contract_eq {A} `{EqDecision A} (l r : option A) : same_contract l r = true -> l = r.
Proof. destruct l, r; cbn; try done. intros E. f_equal. by apply bool_decide_eq_true in E. Qed.

Lemma matches_answers t spec : taskMatchesSpec t spec = true -> answers t spec.
Proof.
  unfold taskMatchesSpec. rewrite !andb_true_iff, goals_match, !bool_decide_eq_true.
  intros ((((((((((((((?&?)&?)&?)&?)&?)&?)&?)&?)&?%same_contract_eq)&?%same_contract_eq)&?%same_contract_eq)&?%same_contract_eq)&?)&?).
  unfold answers. split_and!; done.
Qed.

(** C34 A task that [CreateTask] reports as created was not there before, reads back with
    exactly the normalised specification, queued, with one fresh worker per goal, each a
    new queued job of its own; the sources of an integration were completed with the
    pinned bindings; no other task changed; and the active jobs are within their bounds,
    of the store and of every workspace. A task reported as existing was stored for the
    same request, and the store is as it was. *)
Theorem CreateTask_creates now0 now s spec random randoms fs t created s' : reachable now0 s -> now0 <= now -> in_int64 now -> random_ok random ->
  Forall random_ok randoms -> run (CreateTask spec now random randoms) s fs = (Ok (t, created), s') ->
  validateTaskSpec (normalizeTaskSpec spec) = Ok tt /\ task_of (st_db s') (tk_ID t) = Ok (Some t) /\
  if created then
    task_of (st_db s) (tk_ID t) = Ok None /\
    spec_of_task t = stored_spec (normalizeTaskSpec spec) /\ tk_State t = TaskQueued /\ tk_CreatedAt t = now /\ Forall fresh_worker (tk_Workers t) /\
    (forall n v, tk_Workers t !! n = Some v -> db_jobs (st_db s) !! wk_JobID v = None /\
       exists r, db_jobs (st_db s') !! wk_JobID v = Some r /\ new_job (normalizeTaskSpec spec) v r) /\
    NoDup (wk_JobID <$> tk_Workers t) /\
    (forall c, tk_IntegrationContract t = Some c -> exists source, task_of (st_db s) (ic_SourceTaskID c) = Ok (Some source) /\
       ValidateTaskIntegrationSourceBindings t source = Ok tt) /\
    (forall id, id <> tk_ID t -> task_of (st_db s') id = task_of (st_db s) id) /\
    count_jobs active (st_db s') <= cfg_MaxJobs (st_config s') /\
    (forall w, count_jobs (workspace_active w) (st_db s') <= cfg_MaxJobsPerWorkspace (st_config s'))
  else s' = s /\ answers t (normalizeTaskSpec spec).
Proof.
  intros Hreach Hle Hn Hr Hrs Hrun. destruct (reachable_inv_at now0 now s Hreach Hle) as [Hi Ht].
  pose proof (hoare_any _ _ _ _ (CreateTask_spec now s spec random randoms Hn Hi Hr Hrs) eq_refl Hrun) as [Hs Hres]. cbn [fst snd] in Hres.
  split; [by apply validateTaskSpec_ok|]. destruct created.
  2:{ destruct Hres as (-> & Hm & id & Hid). destruct (tasks_inv_read _ _ _ _ Ht Hid) as (g & group & ws & Hg & Hok & _ & ->).
      cbn [with_workers tk_ID]. rewrite (group_of_row_id _ _ _ (to_group _ _ _ _ _ Hok)). split_and!; [done..|]. by apply matches_answers. }
  destruct Hres as (id & db & -> & Hst & Hout & Hid). pose proof (stepped_tasks _ _ _ Hn Hi Ht Hst) as Ht'. destruct Hst as [Hi' _].
  destruct (created_reads now s _ id db Hn Hi Ht Hout) as (ws & Hws & Hspec & Hne & Hfr). rewrite Hws in Hid. injection Hid as <-. cbn [set_db st_db st_config].
  split_and!; try done.
  - exact (created_fresh now s _ id db Hout).
  - by apply fresh_workers_queued.
  - intros n v Hv. by apply (created_jobs now s _ id db Ht Hout _ n v Hws Hv).
  - apply NoDup_alt. intros n n' job Hj Hj'. apply list_lookup_fmap_Some in Hj as (v & -> & Hv). apply list_lookup_fmap_Some in Hj' as (v' & E & Hv').
    by apply (proj2 (tasks_own_jobs now db ltac:(done)) id id _ _ n n' v v' Hws Hws).
  - intros c Hc. by apply (created_sources now s _ id db Hout ws c).
  - intros id' Hne'. by apply (created_others now s _ id db Ht Hout).
  - apply (si_bounds _ _ _ Hi').
  - apply (si_bounds _ _ _ Hi').
Qed.

(** ** Replay *)
(** Whether a task matches depends on its specification only. *)
Lemma matches_same t t' spec : spec_of_task t' = spec_of_task t -> taskMatchesSpec t spec = true -> taskMatchesSpec t' spec = true.
Proof.
  intros E. injection E as E1 E2 E3 E4 E5 E6 E7 E8 E9 E10 E11 E12 E13 E14 E15 E16. unfold taskMatchesSpec. rewrite E1, E2, E3, E4, E5, E6, E7, E8, E9, E10, E13, E14, E15, E16.
  rewrite !andb_true_iff. intros [Hrest Hg]. split; [done|]. rewrite goals_match in Hg |- *. intros i v Hv.
  assert (Hl : (wk_GoalHash <$> tk_Workers t) !! i = Some (wk_GoalHash v)) by (rewrite <- E11, list_lookup_fmap, Hv; done).
  apply list_lookup_fmap_Some in Hl as (v0 & -> & Hv0). by apply Hg.
Qed.

Lemma same_contract_refl {A} `{EqDecision A} (o : option A) : same_contract o o = true.
Proof. destruct o; [|done]. by apply bool_decide_eq_true. Qed.

Lemma stored_matches t spec : spec_ok spec -> ts_IntegrationPins spec <> Some [] -> spec_of_task t = stored_spec spec -> taskMatchesSpec t spec = true.
Proof.
  intros Hs Hp E. injection E as E1 E2 E3 E4 E5 E6 E7 E8 E9 E10 E11 E12 E13 E14 E15 E16. unfold taskMatchesSpec.
  rewrite E1, E2, E3, E4, E5, E6, E7, E8, E9, E13, E14, E15, E16, !bool_decide_true, !same_contract_refl by done. cbn [andb].
  assert (Hpins : tk_IntegrationPins t = ts_IntegrationPins spec).
  { rewrite E10. pose proof (so_integration _ Hs) as Hi. unfold validTaskIntegrationSpec in Hi. destruct (ts_IntegrationContract spec); [done|].
    apply bool_decide_eq_true in Hi. destruct (ts_IntegrationPins spec) as [[|p l]|]; done. }
  rewrite Hpins, bool_decide_true by done. apply goals_match. intros i v Hv. rewrite <- E11, list_lookup_fmap, Hv. done.
Qed.

Lemma taskID_quiet now db id t key : tasks_inv now db -> task_of db id = Ok (Some t) -> tk_IdempotencyKey t = key ->
  taskIDByIdempotency key db [] = (Ok (Some id), db, []).
Proof.
  intros Ht Hid Hk. apply task_of_some in Hid as (g & group & ws & Hg & Hgr & -> & _). cbn in Hk. rewrite (group_of_row_key _ _ _ Hgr) in Hk.
  unfold taskIDByIdempotency, mbind, mget, driver. cbn [next_fault]. do 3 f_equal.
  assert (Hin : (id, g) ∈ filter (fun e => tg_idempotency_key e.2 = key) (map_to_list (db_task_groups db))).
  { apply list_elem_of_filter. split; [done|]. by apply elem_of_map_to_list. }
  destruct (filter _ _) as [|[id' g'] l] eqn:E; [by apply elem_of_nil in Hin|]. cbn. f_equal.
  assert (Hin' : (id', g') ∈ filter (fun e => tg_idempotency_key e.2 = key) (map_to_list (db_task_groups db))) by (rewrite E; left).
  apply list_elem_of_filter in Hin' as [Hk' Hin']. apply elem_of_map_to_list in Hin'. cbn in Hk'. apply (tv_keys _ _ Ht id' id g' g Hin' Hg). congruence.
Qed.

Lemma CreateTask_quiet now s id t spec now2 random randoms : tasks_inv now (st_db s) -> spec_ok (normalizeTaskSpec spec) ->
  task_of (st_db s) id = Ok (Some t) -> taskMatchesSpec t (normalizeTaskSpec spec) = true ->
  run (CreateTask spec now2 random randoms) s [] = (Ok (t, false), s).
Proof.
  intros Ht Hs Hid Hm. unfold CreateTask. set (n := normalizeTaskSpec spec) in *. apply validateTaskSpec_ok in Hs.
  assert (Hk : tk_IdempotencyKey t = ts_IdempotencyKey n) by (unfold taskMatchesSpec in Hm; breflect; done).
  assert (Htx : CreateTask_tx (st_config s) n now2 random randoms (st_db s) [] = (Ok (inl t), st_db s, [])).
  { unfold CreateTask_tx, mbind at 1. rewrite (taskID_quiet now (st_db s) id t _ Ht Hid Hk). unfold require_task, mbind, mtry. rewrite taskByID_quiet, Hid.
    unfold mguard, mlift, mret. by rewrite Hm. }
  unfold run, mbind at 1. rewrite Hs. cbn [is_ok negb]. unfold mguard, mlift, reject_if, mbind at 1, mget, transaction, mbind, begin_tx, commit_tx, tx, mget, driver, mput, mret. cbn [next_fault].
  unfold mbind, mget, driver. cbn [next_fault]. rewrite Htx. unfold mput. cbn [next_fault]. by rewrite set_db_same.
Qed.

Lemma trace_snoc t0 s0 tr now s c fs r s1 : task_trace (F := any_fault) t0 s0 tr now s -> call_ok c -> now <= (call_times c).1 ->
  run (run_call c) s fs = (r, s1) -> task_trace (F := any_fault) t0 s0 (tr ++ [(c, fs, r)]) (call_times c).2 s1.
Proof.
  intros Htr Hok Hle Hrun. induction Htr as [now s|now s c' fs' r' s' rest now' s'' Hok' Hle' HF' Hrun' _ IH]; cbn [app].
  - eapply task_trace_cons; try done; [apply any_fault_all|]. constructor.
  - eapply task_trace_cons; try done. by apply IH.
Qed.

Lemma reachable_call now s c fs r s1 : reachable now s -> call_ok c -> now <= (call_times c).1 -> run (run_call c) s fs = (r, s1) ->
  reachable (call_times c).2 s1.
Proof. intros (config & s0 & t0 & tr & Hf & Htr) Hok Hle Hrun. eexists config, s0, t0, _. split; [done|]. by eapply trace_snoc. Qed.

Lemma run_ignored {A} (m : M Store A) s fs a s' : run m s fs = (Ok a, s') -> run (ignore m) s fs = (Ok tt, s').
Proof. unfold run, ignore, mbind, mret. destruct (m s fs) as [[[x|e] s1] fs1]; cbn; [|done]. by intros [= -> ->]. Qed.

(** C35 After a call of [CreateTask] succeeded, repeating it returns the same task and
    changes nothing, whatever calls, successful or failing, came in between. Without an
    integration contract the slice of pins must be nil. *)
Theorem CreateTask_idempotent now0 now s spec random randoms fs t created s1 tr now' s2 now2 random2 randoms2 :
  reachable now0 s -> now0 <= now -> in_int64 now -> random_ok random -> Forall random_ok randoms -> ts_IntegrationPins spec <> Some [] ->
  run (CreateTask spec now random randoms) s fs = (Ok (t, created), s1) -> task_trace (F := any_fault) now s1 tr now' s2 ->
  exists t', run (CreateTask spec now2 random2 randoms2) s2 [] = (Ok (t', false), s2) /\ tk_ID t' = tk_ID t /\ task_kept t t'.
Proof.
  intros Hreach Hle Hn Hr Hrs Hp Hrun Htr. destruct (reachable_inv_at now0 now s Hreach Hle) as [Hi Ht].
  assert (Hreach1 : reachable now s1).
  { apply (reachable_call now0 s (CallCreateTask spec now random randoms) fs (Ok tt)); [done|by split_and!|done|]. by eapply run_ignored. }
  destruct (reachable_tasks_inv _ _ Hreach1) as [Hi1 Ht1]. destruct (task_trace_post _ _ _ _ _ Htr Hi1 Ht1) as (_ & Ht2 & Hsteps).
  destruct (hoare_any _ _ _ _ (CreateTask_spec now s spec random randoms Hn Hi Hr Hrs) eq_refl Hrun) as (Hs & Hres). cbn [fst snd] in Hres.
  assert (Hfound : taskMatchesSpec t (normalizeTaskSpec spec) = true /\ exists id, task_of (st_db s1) id = Ok (Some t)).
  { destruct created.
    - destruct Hres as (id & db & -> & _ & Hout & Hid). destruct (created_reads now s _ id db Hn Hi Ht Hout) as (ws & Hws & Hspec & _). rewrite Hws in Hid. injection Hid as <-.
      split; [by apply stored_matches|by exists id].
    - by destruct Hres as (-> & ? & ?). }
  destruct Hfound as [Hm [id Hid]].
  destruct (kept_task now now' _ _ id t Ht1 Ht2 (advance_kept _ _ Hsteps (si_jobs _ _ _ Hi1) Ht1) Hid) as (t' & Hid' & Hk). exists t'. split_and!; [|apply Hk|done].
  eapply CreateTask_quiet; try done. eapply matches_same; [apply Hk|done].
Qed.

(** ** Receipts *)
Definition reads_worker (db : DB) (id : string) (i : Z) (P : TaskWorker -> Prop) : Prop :=
  exists t v, task_of db id = Ok (Some t) /\ tk_Workers t !! Z.to_nat i = Some v /\ P v.

Lemma row_reads now db id i w (P : TaskWorker -> Prop) : tasks_inv now db -> db_task_workers db !! (id, i) = Some w ->
  (forall r a te o, receipts_of w a te o -> P (worker_view {| wr_ordinal := i; wr_worker := w; wr_job := r |} a te o)) -> reads_worker db id i P.
Proof.
  intros Ht Hw HP. destruct (tv_fk _ _ Ht _ _ _ Hw) as [g Hg]. destruct (tv_task _ _ Ht _ g Hg) as (group & ws & Hok & _).
  destruct (task_worker_row _ _ _ _ _ _ _ Hok Hw) as (r & x & a & te & o & _ & _ & Hx & Hrec & _ & ->).
  eexists _, _. split; [by apply (task_ok_reads _ _ g)|]. split; [exact Hx|]. by apply HP.
Qed.

Section Record.
Context (now : Z) (s : Store).
Hypotheses (Hnow : in_int64 now) (Hinv : store_inv any_fault now s) (Htasks : tasks_inv now (st_db s)).

(** After the column is written the group is touched, and the column reads back. *)
Lemma body_recorded {B} id i w e (b : B) (P : TaskWorker -> Prop) :
  task_step now (st_db s) (with_workers_table (<[(id, i) := w]> (db_task_workers (st_db s))) (st_db s)) ->
  (forall r a te o, receipts_of w a te o -> P (worker_view {| wr_ordinal := i; wr_worker := w; wr_job := r |} a te o)) ->
  body any_fault (with_workers_table (<[(id, i) := w]> (db_task_workers (st_db s))) (st_db s)) (mbind (touch_group e id now) (fun _ => mret b))
    (fun r db => stepped (F := any_fault) now s db /\ r = b /\ reads_worker db id i P).
Proof.
  intros Hstep HP. set (D := with_workers_table _ _).
  assert (HD : stepped (F := any_fault) now s D) by (apply stepped_workers; [by apply stepped_refl|done]).
  assert (Hdone : forall db, stepped (F := any_fault) now s db -> db_task_workers db !! (id, i) = Some w -> stepped (F := any_fault) now s db /\ b = b /\ reads_worker db id i P).
  { intros db Hs Hw. split_and!; [done..|]. eapply (row_reads now db); try done. by eapply (stepped_tasks now s). }
  eapply (body_bind _ _ _ (fun _ db => stepped (F := any_fault) now s db /\ db_task_workers db !! (id, i) = Some w)); [|intros [] db [? ?]; by apply body_ret, Hdone].
  assert (Hlk : db_task_workers D !! (id, i) = Some w) by (cbn; by rewrite lookup_insert_eq).
  apply body_update_group; [|done]. intros g Hg _. split; [|done]. apply stepped_groups; [done|]. rewrite now_nano by done. by apply step_touch.
Qed.

Lemma recorded_identity id t v i : task_of (st_db s) id = Ok (Some t) -> tk_Workers t !! i = Some v -> worker_identity t v.
Proof.
  intros Hid Hv. destruct (tasks_inv_read _ _ _ _ Htasks Hid) as (g & group & ws & _ & Hok & _ & ->). eapply task_identity; [apply Hinv|exact Hok|exact Hv].
Qed.

Lemma RecordTaskWorkerTestReceipt_body receipt : 0 <= tr_Ordinal receipt ->
  body any_fault (st_db s) (RecordTaskWorkerTestReceipt_tx receipt now) (fun r db => stepped (F := any_fault) now s db /\
    sameTaskTestAcceptanceReceipt r.1 receipt = true /\ reads_worker db (tr_TaskID receipt) (tr_Ordinal receipt) (fun v => wk_TestAcceptanceReceipt v = Some r.1)).
Proof.
  intros H0'. unfold RecordTaskWorkerTestReceipt_tx. apply body_worker. intros t v Ht Hv. destruct (wk_TestAcceptanceReceipt v) as [x|] eqn:Ex.
  { apply body_guard. intros Hs. apply body_ret. apply negb_false_iff in Hs. split_and!; [by apply stepped_refl|done|by exists t, v]. }
  apply body_guard. intros _. apply body_guard. intros Hok. apply body_marshal. breflect.
  apply body_update_worker; [|intros _; by apply body_guard]. intros w Hw _. apply body_guard. intros _.
  pose proof (test_receipt_written t v _ (recorded_identity _ _ _ _ Ht Hv) ltac:(eassumption) (int64_dated _ Hnow)) as Hval.
  eapply hoare_conseq; [eapply (body_recorded (tr_TaskID receipt) (tr_Ordinal receipt) _ _ _ (fun v => wk_TestAcceptanceReceipt v = Some (tr_at now receipt)))|done| |done].
  - eapply step_record; try done. by apply records_test.
  - intros r a te o (_ & Hte & _). cbn [set_test set_receipts tw_test_acceptance_receipt] in Hte. rewrite receipt_column in Hte; [|done|exact test_receipt_type_ok|done]. by injection Hte as <-.
  - intros r db (Hs & -> & Hr). split_and!; [done| |done]. cbn [fst]. unfold sameTaskTestAcceptanceReceipt. by apply bool_decide_eq_true.
Qed.

Lemma RecordTaskWorkerAcceptance_body receipt : 0 <= ar_Ordinal receipt ->
  body any_fault (st_db s) (RecordTaskWorkerAcceptance_tx receipt now) (fun r db => stepped (F := any_fault) now s db /\
    sameTaskAcceptanceReceipt r.1 receipt = true /\ reads_worker db (ar_TaskID receipt) (ar_Ordinal receipt) (fun v => wk_AcceptanceReceipt v = Some r.1)).
Proof.
  intros H0'. unfold RecordTaskWorkerAcceptance_tx. apply body_worker. intros t v Ht Hv. destruct (wk_AcceptanceReceipt v) as [x|] eqn:Ex.
  { apply body_guard. intros Hs. apply body_ret. apply negb_false_iff in Hs. split_and!; [by apply stepped_refl|done|by exists t, v]. }
  apply body_guard. intros _. apply body_guard. intros Hok. apply body_marshal. breflect.
  destruct (worker_row now _ _ _ _ _ Htasks Ht H0' Hv) as (w0 & r0 & a0 & te0 & o0 & Hw0 & Ev & Hrec0 & _).
  apply body_update_worker.
  2:{ intros Hno. specialize (Hno w0 Hw0). subst v. cbn in Ex. subst a0. apply none_column in Hrec0. by rewrite Hrec0, bool_decide_true in Hno. }
  intros w Hw _. pose proof (acceptance_receipt_written t v _ (recorded_identity _ _ _ _ Ht Hv) ltac:(eassumption) (int64_dated _ Hnow)) as Hval.
  eapply hoare_conseq; [eapply (body_recorded (ar_TaskID receipt) (ar_Ordinal receipt) _ _ _ (fun v => wk_AcceptanceReceipt v = Some (ar_at now receipt)))|done| |done].
  - eapply step_record; try done. by apply records_acceptance.
  - intros r a te o (Ha & _). cbn [set_acceptance set_receipts tw_acceptance_receipt] in Ha. rewrite receipt_column in Ha; [|done|exact acceptance_receipt_type_ok|done]. by injection Ha as <-.
  - intros r db (Hs & -> & Hr). split_and!; [done| |done]. cbn [fst]. unfold sameTaskAcceptanceReceipt. by apply bool_decide_eq_true.
Qed.

Lemma RecordTaskWorkerObjective_body receipt : 0 <= or_Ordinal receipt ->
  body any_fault (st_db s) (RecordTaskWorkerObjective_tx receipt now) (fun r db => stepped (F := any_fault) now s db /\
    r.1 = or_at (or_RecordedAt r.1) receipt /\ reads_worker db (or_TaskID receipt) (or_Ordinal receipt) (fun v => wk_ObjectiveReceipt v = Some r.1)).
Proof.
  intros H0'. unfold RecordTaskWorkerObjective_tx. apply body_worker. intros t v Ht Hv. destruct (wk_ObjectiveReceipt v) as [x|] eqn:Ex.
  { apply body_guard. intros Hs. apply body_ret. breflect. split_and!; [by apply stepped_refl|by symmetry|by exists t, v]. }
  apply body_guard. intros Hok. apply body_marshal. breflect.
  apply body_update_worker; [|intros _; by apply body_guard]. intros w Hw _. apply body_guard. intros _.
  pose proof (objective_receipt_written t v _ (recorded_identity _ _ _ _ Ht Hv) ltac:(eassumption) (int64_dated _ Hnow)) as [Hval Hlen].
  eapply hoare_conseq; [eapply (body_recorded (or_TaskID receipt) (or_Ordinal receipt) _ _ _ (fun v => wk_ObjectiveReceipt v = Some (or_at now receipt)))|done| |done].
  - eapply step_record; try done. by apply records_objective.
  - intros r a te o (_ & _ & Ho). cbn [set_objective set_receipts tw_objective_receipt] in Ho. rewrite record_column in Ho; [|done|exact objective_receipt_type_ok|done|done]. by injection Ho as <-.
  - intros r db (Hs & -> & Hr). by split_and!.
Qed.
End Record.

Lemma recorded_op {A} now s c e e1 (m : M DB (A * bool)) ec (Q : A -> DB -> Prop) : store_inv any_fault now s ->
  (c = false -> body any_fault (st_db s) m (fun r db => stepped (F := any_fault) now s db /\ Q r.1 db)) ->
  hoare any_fault (eq s) (do! mguard c e in let! (r, _) := transaction e1 m ec in mret r) (fun r s1 => Q r (st_db s1)) (fun _ _ => True).
Proof.
  intros Hi Hb. eapply (hoare_bind _ _ _ (fun _ s1 => s1 = s /\ c = false)); [apply hoare_guard; by intros s1 <-|]. intros _ s1 fs HF [-> Hc].
  eapply (hoare_bind (eq s) _ _ (fun r s1 => Q r.1 (st_db s1))); [| |done|done].
  - eapply hoare_conseq; [by apply (hoare_transaction now s e1 m ec (fun r => Q r.1) Hi), Hb|done| |done]. by intros r s1 (db & -> & _ & HQ).
  - intros [r b]. by apply hoare_ret.
Qed.

(** A receipt that a recording operation returns is the submitted one with the time it
    was recorded, and reads back from the stored worker. *)
Theorem receipts_read_back now0 now s fs s' : reachable now0 s -> now0 <= now -> in_int64 now ->
  (forall receipt r, run (RecordTaskWorkerAcceptance receipt now) s fs = (Ok r, s') -> sameTaskAcceptanceReceipt r receipt = true /\
     reads_worker (st_db s') (ar_TaskID receipt) (ar_Ordinal receipt) (fun v => wk_AcceptanceReceipt v = Some r)) /\
  (forall receipt r, run (RecordTaskWorkerTestReceipt receipt now) s fs = (Ok r, s') -> sameTaskTestAcceptanceReceipt r receipt = true /\
     reads_worker (st_db s') (tr_TaskID receipt) (tr_Ordinal receipt) (fun v => wk_TestAcceptanceReceipt v = Some r)) /\
  (forall receipt r, run (RecordTaskWorkerObjective receipt now) s fs = (Ok r, s') -> r = or_at (or_RecordedAt r) receipt /\
     reads_worker (st_db s') (or_TaskID receipt) (or_Ordinal receipt) (fun v => wk_ObjectiveReceipt v = Some r)).
Proof.
  intros Hreach Hle Hn. destruct (reachable_inv_at now0 now s Hreach Hle) as [Hi Ht].
  split_and!; intros receipt r Hrun; refine (hoare_any _ _ _ _ (recorded_op now s _ _ _ _ _ (fun r db => _ /\ reads_worker db _ _ (fun v => _)) Hi _) eq_refl Hrun);
    intros Hg; apply orb_false_iff in Hg as [_ Hg]; apply negb_false_iff, valid_ordinal_nonneg in Hg.
  - by apply RecordTaskWorkerAcceptance_body.
  - by apply RecordTaskWorkerTestReceipt_body.
  - by apply RecordTaskWorkerObjective_body.
Qed.

(** ** Failing calls *)
Definition atomic {A} (late : error -> Prop) (s : Store) (m : M Store A) : Prop :=
  hoare any_fault (eq s) m (fun _ _ => True) (fun e s1 => s1 = s \/ late e).

Lemma any_body {S A} (m : M S A) P : hoare any_fault P m (fun _ _ => True) (fun _ _ => True).
Proof. intros s fs _ _. destruct (m s fs) as [[[a|e] s'] fs']; (split; [done|apply any_fault_all]). Qed.

Lemma atomic_transaction {A} late s e (m : M DB A) ec : atomic late s (transaction e m ec).
Proof.
  unfold transaction. eapply (hoare_with_tx _ _ _ _ _ (fun _ _ => True)); [apply any_body| |by left]. intros a db _.
  eapply (hoare_bind _ _ _ (fun _ _ => True)); [|intros; by apply hoare_ret]. eapply hoare_conseq; [apply hoare_commit|done|done|]. intros e' s1 [-> _]. by left.
Qed.

Lemma atomic_guard {B} late s c e (k : unit -> M Store B) : atomic late s (k tt) -> atomic late s (mbind (mguard c e) k).
Proof.
  intros Hk. eapply (hoare_bind _ _ _ (fun _ s1 => s1 = s)); [apply hoare_guard; intros s1 <-; [by left|done]|]. intros [] s1 fs HF ->. by apply Hk.
Qed.

Lemma atomic_then {A B} late s (m : M Store A) (k : A -> M Store B) : atomic late s m ->
  (forall a s1, hoare any_fault (eq s1) (k a) (fun _ _ => True) (fun e _ => late e)) -> atomic late s (mbind m k).
Proof.
  intros Hm Hk. eapply hoare_bind; [exact Hm|]. intros a s1 fs HF _. specialize (Hk a s1 s1 fs HF eq_refl).
  destruct (k a s1 fs) as [[[b|e] s2] fs2]; [done|]. destruct Hk. split; [by right|done].
Qed.

Lemma atomic_ignore {A} late s (m : M Store A) : atomic late s m -> atomic late s (ignore m).
Proof. intros Hm. apply atomic_then; [done|]. intros a s1. by apply hoare_ret. Qed.

(** The only error of a read that maps failures to [e]. *)
Lemma reread_error {B} e id (k : TaskGroup -> M Store B) late s : late e -> (forall t, exists b, k t = mret b) ->
  hoare any_fault (eq s) (mbind (reread_task e id) k) (fun _ _ => True) (fun e' _ => late e').
Proof.
  intros Hl Hk. eapply (hoare_bind _ _ _ (fun _ _ => True)); [|intros t; destruct (Hk t) as [b ->]; by apply hoare_ret].
  eapply (hoare_bind _ _ _ (fun _ _ => True)); [apply hoare_try, any_body|]. intros [[t|]|e']; [by apply hoare_ret|by apply hoare_fail..].
Qed.

(** The errors of a call that are reported after its transaction was committed; a call
    of several transactions may have committed some of them. *)
Definition reported_late (c : call) (e : error) : Prop :=
  match c with
  | CallCreateTask _ _ _ _ => e = "workqueue: created task unavailable"
  | CallFailUnstartedTaskWorker _ _ _ => e = "workqueue: failed task worker unavailable"
  | CallCompleteTaskWorker _ _ _ _ _ _ _ => e = "workqueue: completed task unavailable" \/ e = read_failed
  | CallQueue _ | CallCancelTask _ _ => True
  | _ => False
  end.

(** C36 A call that fails leaves the store as it was, unless the error is one of those that
    are reported after the commit: the reads of a created, failed or completed task. *)
Theorem failed_call_atomic now s c fs e s' : reachable now s -> call_ok c -> now <= (call_times c).1 ->
  run (run_call c) s fs = (Err e, s') -> s' = s \/ reported_late c e.
Proof.
  intros Hreach (Hn & _ & Hok) Hle Hrun. refine (hoare_any _ _ _ _ (_ : atomic (reported_late c) s (run_call c)) eq_refl Hrun).
  destruct c; try (eapply hoare_conseq; [apply any_body|done|done|by right]); cbn [run_call reported_late]; apply atomic_ignore.
  - apply atomic_guard. eapply (hoare_bind _ _ _ (fun D s1 => s1 = s /\ D = s)); [apply hoare_get; by intros s1 <-|]. intros D s1 fs1 HF [-> ->].
    refine (atomic_then _ s _ _ _ _ s fs1 HF eq_refl); [apply atomic_transaction|]. intros [t|id] s2; [by apply hoare_ret|]. apply reread_error; [done|by eexists].
  - apply atomic_guard, atomic_then; [apply atomic_transaction|]. intros [] s1. by apply hoare_ret.
  - apply atomic_guard, atomic_transaction.
  - apply atomic_guard, atomic_transaction.
  - apply atomic_guard. cbn [call_times fst] in *. destruct (reachable_inv_at _ now0 s Hreach Hle) as [Hi _].
    pose proof (inv_tx any_fault now0 now0 s Hi ltac:(lia) Hn) as Htx.
    eapply hoare_bind; [eapply hoare_conseq; [apply hoare_call_task|done|intros t s1 Ht; exact Ht|by left]|]. intros t s1 fs1 HF [-> _].
    destruct (tk_Workers t !! Z.to_nat ordinal) as [w|]; [|split; [by left|done]].
    refine (atomic_then _ s _ _ _ _ s fs1 HF eq_refl).
    + eapply hoare_conseq; [by apply Complete_spec|done|done|]. intros e1 s1 [->|(-> & _)]; [by left|right; by right].
    + intros [] s1. eapply (hoare_bind _ _ _ (fun _ _ => True)); [apply hoare_try, any_body|]. intros [[t1|]|e1]; [by apply hoare_ret|by apply hoare_fail; left..].
  - apply atomic_guard, atomic_guard. eapply (hoare_with_tx _ _ _ _ _ (fun _ _ => True)); [apply any_body| |by left]. intros [t|] db _; [by apply hoare_ret|].
    apply atomic_then; [eapply hoare_conseq; [apply hoare_commit|done|done|intros e1 s1 [-> _]; by left]|]. intros [] s1.
    eapply (hoare_bind _ _ _ (fun _ _ => True)); [apply hoare_try, any_body|]. intros [[t1|]|e1]; [by apply hoare_ret|by apply hoare_fail..].
  - apply atomic_guard, atomic_then; [apply atomic_transaction|]. intros [] s1. by apply hoare_ret.
  - apply atomic_guard, atomic_then; [apply atomic_transaction|]. intros [] s1. by apply hoare_ret.
  - apply atomic_guard, atomic_then; [apply atomic_transaction|]. intros [] s1. by apply hoare_ret.
  - apply atomic_guard, atomic_transaction.
  - apply atomic_guard, atomic_then; [apply atomic_transaction|]. intros a s1. by apply hoare_ret.
Qed.
End Tasks.
