(* ===== verification/TaskExamples.v ===== *)
(** * Tasks on concrete stores

    A task of two workers that is run, tested and accepted, and an integration of its
    results; the theorems of [Tasks] at work on them, and two findings. *)

From S2P Require Import Prelude GoStrings GoRegexp Effects GoJson GoTime GoReflect GoRecord PolicyScan WorkqueueTypes Admission Fairness WorkqueueRows WorkqueueStore WorkqueueInv WorkqueueOps WorkqueueEnqueue WorkqueueSystem Workqueue WorkqueueExamples TaskTypes TaskRecord TaskRules TaskRows TaskStore TaskFacts TaskSteps TaskInv TaskCreate TaskOps TaskSystem TaskHistory Tasks.

#[local] Existing Instance id_scan.

(** ** Running calls *)
Definition check_random (random : option string) : bool := match random with Some b => bool_decide (String.length b = 16%nat) | None => true end.
Definition check_call (c : call) : bool :=
  bool_decide (in_int64 (call_times c).1) && bool_decide (in_int64 (call_times c).2) &&
  match c with
  | CallQueue _ | CallCancelTask _ _ => false
  | CallCreateTask _ _ random randoms => check_random random && forallb check_random randoms
  | CallLeaseTaskWorker _ _ _ _ _ random => check_random random
  | _ => true
  end.

Lemma check_random_ok random : check_random random = true -> random_ok random.
Proof. destruct random as [b|]; [|done]. cbn. intros Hl%bool_decide_eq_true b' [= <-]. done. Qed.

Lemma check_call_ok c : check_call c = true -> call_ok c.
Proof.
  unfold check_call. rewrite !andb_true_iff, !bool_decide_eq_true. intros [[H1 H2] H3]. split_and!; [done..|]. destruct c; try done.
  - apply andb_true_iff in H3 as [H3 H4]. split; [by apply check_random_ok|]. apply Forall_forall. intros r Hr. apply check_random_ok.
    rewrite forallb_forall in H4. by apply H4, list_elem_of_In.
  - by apply check_random_ok.
Qed.

Fixpoint run_calls (s : Store) (calls : list call) : Store :=
  match calls with [] => s | c :: calls => run_calls (snd (run (run_call c) s [])) calls end.
Fixpoint trace_of (s : Store) (calls : list call) : list (call * list bool * result unit) :=
  match calls with [] => [] | c :: calls => (c, [], fst (run (run_call c) s [])) :: trace_of (snd (run (run_call c) s [])) calls end.
Fixpoint end_of (now : Z) (calls : list call) : Z := match calls with [] => now | c :: calls => end_of (call_times c).2 calls end.
Fixpoint check_calls (now : Z) (calls : list call) : bool :=
  match calls with [] => true | c :: calls => check_call c && (now <=? (call_times c).1) && check_calls (call_times c).2 calls end.

Lemma run_calls_trace now s calls : check_calls now calls = true ->
  task_trace (F := any_fault) now s (trace_of s calls) (end_of now calls) (run_calls s calls).
Proof.
  revert now s. induction calls as [|c calls IH]; intros now s Hc; cbn; [constructor|]. cbn in Hc. apply andb_true_iff in Hc as [[H1 H2]%andb_true_iff Hc].
  eapply task_trace_cons; [by apply check_call_ok|by apply Z.leb_le|constructor|apply surjective_pairing|by apply IH].
Qed.

(** ** A task of two workers *)
Definition hex_of (c : ascii) : string := EncodeToString (ex_bytes c).
Definition ex_base : string := String.substring 0 40 (hex_of "a" +:+ hex_of "b").
Definition ex_head : string := String.substring 0 40 (hex_of "c" +:+ hex_of "d").
Definition ex_goal : string := "sha256:" +:+ hex_of "g" +:+ hex_of "h".
Definition ex_test_contract : TaskTestAcceptanceContract := {| tc_Version := 1; tc_ProfileID := "unit"; tc_ProfileDigest := ex_goal |}.
Definition ex_objective_contract : TaskObjectiveContract :=
  {| oc_Version := 1; oc_MinimumCommitsAheadPerWorker := 1; oc_MinimumChangedPathsPerWorker := 1; oc_RequireClean := true |}.
Definition ex_task_spec (key : string) (workers : Z) (contract : option TaskIntegrationContract) (pins : goslice TaskIntegrationSourcePin) : TaskSpec :=
  {| ts_IdempotencyKey := key; ts_Project := "Alpha"; ts_Target := "main"; ts_BaseCommit := ex_base; ts_GoalHash := ex_goal;
     ts_AcceptanceContract := None; ts_TestAcceptanceContract := Some ex_test_contract; ts_ObjectiveContract := Some ex_objective_contract;
     ts_IntegrationContract := contract; ts_IntegrationPins := pins; ts_WorkerGoalHashes := replicate (Z.to_nat workers) ex_goal;
     ts_WorkerGoalRefs := replicate (Z.to_nat workers) ("mb_" +:+ hex_of "m"); ts_Pool := "linux"; ts_Profile := "codex";
     ts_WorkerCount := workers; ts_ExecutionTimeoutSeconds := 600 |}.
Definition ex_source_spec : TaskSpec := ex_task_spec "task-source-1" 2 None None.
Definition ex_source : string := "tg_" +:+ hex_of "S".
Definition ex_task_job (i : Z) : string := "wj_" +:+ hex_of (if i =? 0 then "0" else "1").
Definition ex_task_lease (i : Z) : string := "wl_" +:+ hex_of (if i =? 0 then "2" else "3").
Definition ex_binding (i : Z) : TaskWorkerBinding :=
  {| wb_TaskID := ex_source; wb_Ordinal := i; wb_JobID := ex_task_job i; wb_LeaseID := ex_task_lease i; wb_Fence := 1;
     wb_WorktreeID := "wt_" +:+ hex_of (if i =? 0 then "4" else "5"); wb_WorkspaceID := "ws_" +:+ hex_of "6"; wb_RuntimeID := "mr_" +:+ hex_of "7" |}.

Definition ex_create : call := CallCreateTask ex_source_spec 1000 (Some (ex_bytes "S")) [Some (ex_bytes "0"); Some (ex_bytes "1")].
Definition ex_worker_calls (i now : Z) : list call :=
  [CallLeaseTaskWorker ex_source i ex_holder Minute now (Some (ex_bytes (if i =? 0 then "2" else "3")));
   CallBindTaskWorker (ex_binding i) (now + 1);
   CallCompleteTaskWorker ex_source i (ex_task_lease i) 1 ex_done (now + 2) (now + 2)].
Definition ex_run_calls : list call := ex_worker_calls 0 1001 ++ ex_worker_calls 1 1004.
(** Both workers have succeeded. *)
Definition ex_completed : Store := run_calls ex_store0 (ex_create :: ex_run_calls).

Definition task_at (s : Store) (id : string) : TaskGroup :=
  match task_of (st_db s) id with Ok (Some t) => t | _ => pending_task ex_source_spec end.
Definition worker_of (s : Store) (id : string) (i : Z) : TaskWorker :=
  default (taskWorkerFromJob 0 zero_job "" "" "") (tk_Workers (task_at s id) !! Z.to_nat i).

Example ex_completed_state : tk_State (task_at ex_completed ex_source) = TaskCompleted.
Proof. vm_compute. reflexivity. Qed.

(** ** Its receipts *)
Definition ex_test_receipt (i : Z) : TaskTestAcceptanceReceipt :=
  let w := worker_of ex_completed ex_source i in
  {| tr_Version := 1; tr_TaskID := ex_source; tr_Ordinal := i; tr_JobID := wk_JobID w; tr_WorktreeID := wk_WorktreeID w;
     tr_WorkspaceID := wk_WorkspaceID w; tr_BaseCommit := ex_base; tr_HeadCommit := ex_head; tr_Branch := worktree_branch w;
     tr_LeaseID := wk_LeaseID w; tr_Fence := wk_Fence w; tr_ContentDigest := ex_goal; tr_ProfileID := "unit"; tr_ProfileDigest := ex_goal;
     tr_ContractDigest := TaskTestAcceptanceContractDigest (Some ex_test_contract); tr_EdgeOperationID := "eo_" +:+ hex_of "8";
     tr_EdgeResult := TaskTestEdgeResultPassed; tr_RecordedAt := zero_time |}.
Definition ex_tested : Store := run_calls ex_completed [CallRecordTaskWorkerTestReceipt (ex_test_receipt 0) 1010].
Definition ex_objective_receipt : TaskObjectiveReceipt :=
  {| or_Version := 1; or_TaskID := ex_source; or_Ordinal := 0;
     or_ContractDigest := TaskObjectiveContractDigest (task_at ex_tested ex_source) (worker_of ex_tested ex_source 0);
     or_TestReceiptDigest := TaskTestReceiptDigest (tr_at 1010 (ex_test_receipt 0)); or_HeadCommit := ex_head; or_Clean := true;
     or_CommitsAheadBase := 2; or_ChangedPathCount := 3; or_RecordedAt := zero_time |}.
Definition ex_accepted : Store := run_calls ex_tested [CallRecordTaskWorkerObjective ex_objective_receipt 1011].

Example ex_accepted_receipt : wk_ObjectiveReceipt (worker_of ex_accepted ex_source 0) = Some (or_at 1011 ex_objective_receipt).
Proof. vm_compute. reflexivity. Qed.

(** ** An integration of its workers *)
Definition ex_pin (i : Z) : TaskIntegrationSourcePin :=
  default {| pin_TaskID := ""; pin_Ordinal := 0; pin_JobID := ""; pin_RuntimeID := ""; pin_WorktreeID := ""; pin_WorkspaceID := "";
             pin_BaseCommit := ""; pin_HeadCommit := ""; pin_Branch := ""; pin_LeaseID := ""; pin_Fence := 0; pin_GitReceiptDigest := "";
             pin_TestReceiptDigest := ""; pin_ObjectiveReceiptDigest := "" |} (TaskIntegrationPin (task_at ex_accepted ex_source) i ex_head).
Definition ex_contract : TaskIntegrationContract :=
  {| ic_Version := 1; ic_ExpectedBaseCommit := ex_base; ic_SourceTaskID := ex_source;
     ic_Workers := [{| iw_Ordinal := 0; iw_HeadCommit := ex_head |}; {| iw_Ordinal := 1; iw_HeadCommit := ex_head |}] |}.
Definition ex_integration_spec : TaskSpec := ex_task_spec "task-integration-1" 1 (Some ex_contract) (Some [ex_pin 0; ex_pin 1]).
Definition ex_integration : string := "tg_" +:+ hex_of "I".
Definition ex_integrate : call := CallCreateTask ex_integration_spec 1020 (Some (ex_bytes "I")) [Some (ex_bytes "9")].
Definition ex_integrating : Store := run_calls ex_accepted [ex_integrate].

Example ex_integration_state : tk_State (task_at ex_integrating ex_integration) = TaskQueued.
Proof. vm_compute. reflexivity. Qed.
Example ex_pinned : fst (run (MarkTaskWorkerWorktreeCleaned ex_source 0 (ex_task_lease 0) 1 1030) ex_integrating []) =
  Err "workqueue: task is pinned by a pending integration".
Proof. vm_compute. reflexivity. Qed.

(** ** Reachability *)
Lemma reach_calls now s calls : reachable now s -> check_calls now calls = true -> reachable (end_of now calls) (run_calls s calls).
Proof.
  revert now s. induction calls as [|c calls IH]; intros now s Hr Hc; [done|]. cbn in Hc. apply andb_true_iff in Hc as [[H1 H2]%andb_true_iff Hc]. cbn.
  apply IH; [|done]. eapply reachable_call; [done|by apply check_call_ok|by apply Z.leb_le|apply surjective_pairing].
Qed.

Lemma ex_reach0 : reachable 0 ex_store0.
Proof. exists ex_config, ex_store0, 0, []. split; [apply ex_fresh|constructor]. Qed.
Lemma ex_reach_completed : reachable 1006 ex_completed.
Proof. apply (reach_calls 0 ex_store0 (ex_create :: ex_run_calls) ex_reach0). vm_compute. reflexivity. Qed.
Lemma ex_reach_tested : reachable 1010 ex_tested.
Proof. apply (reach_calls 1006 _ [CallRecordTaskWorkerTestReceipt (ex_test_receipt 0) 1010] ex_reach_completed). vm_compute. reflexivity. Qed.
Lemma ex_reach_accepted : reachable 1011 ex_accepted.
Proof. apply (reach_calls 1010 _ [CallRecordTaskWorkerObjective ex_objective_receipt 1011] ex_reach_tested). vm_compute. reflexivity. Qed.
Lemma ex_reach_integrating : reachable 1020 ex_integrating.
Proof. apply (reach_calls 1011 _ [ex_integrate] ex_reach_accepted). vm_compute. reflexivity. Qed.

Lemma ex_source_completed : task_of (st_db ex_accepted) ex_source = Ok (Some (task_at ex_accepted ex_source)).
Proof. vm_compute. reflexivity. Qed.
Lemma ex_source_pinned : task_of (st_db ex_integrating) ex_source = Ok (Some (task_at ex_integrating ex_source)).
Proof. vm_compute. reflexivity. Qed.
Lemma ex_integration_reads : task_of (st_db ex_integrating) ex_integration = Ok (Some (task_at ex_integrating ex_integration)).
Proof. vm_compute. reflexivity. Qed.
Lemma ex_integrate_trace : task_trace (F := any_fault) 1011 ex_accepted (trace_of ex_accepted [ex_integrate]) 1020 ex_integrating.
Proof. apply (run_calls_trace 1011 ex_accepted [ex_integrate]). vm_compute. reflexivity. Qed.

(** ** Witnesses *)
Lemma stored_tasks_valid_witness :
  (exists t, task_of (st_db ex_integrating) ex_integration = Ok (Some t) /\ validTask t = true) /\ workers_own_jobs (st_db ex_integrating) /\
  run tasksIntegrity ex_integrating [] = (Ok tt, ex_integrating).
Proof.
  destruct (stored_tasks_valid 1020 ex_integrating ex_reach_integrating) as (Hall & _ & Hown & Hcheck). split; [|exact (conj Hown Hcheck)].
  assert (Hg : is_Some (db_task_groups (st_db ex_integrating) !! ex_integration)) by (apply (bool_decide_unpack _); vm_compute; exact I).
  destruct Hg as [g E]. destruct (Hall ex_integration g E) as (t & Ht & _ & Hv & _). exists t. exact (conj Ht Hv).
Defined.

Lemma task_history_witness : exists t', task_of (st_db ex_integrating) ex_source = Ok (Some t') /\ task_kept (task_at ex_accepted ex_source) t'.
Proof.
  exact (task_history 1011 ex_accepted _ 1020 ex_integrating ex_source _ ex_reach_accepted ex_integrate_trace ex_source_completed).
Defined.

Lemma finished_task_final_witness : tk_State (task_at ex_integrating ex_source) = tk_State (task_at ex_accepted ex_source).
Proof.
  apply (finished_task_final 1011 ex_accepted (trace_of ex_accepted [ex_integrate]) 1020 ex_integrating ex_source (task_at ex_accepted ex_source));
    [exact ex_reach_accepted|exact ex_integrate_trace|exact ex_source_completed| |exact ex_source_pinned].
  left. vm_compute. reflexivity.
Defined.

Lemma integration_sources_held_witness : exists source u,
  task_of (st_db ex_integrating) (pin_TaskID (ex_pin 0)) = Ok (Some source) /\ tk_Workers source !! Z.to_nat (pin_Ordinal (ex_pin 0)) = Some u /\
  wk_State u = StateSucceeded /\ wk_WorktreeCleaned u = false /\ wk_JobID u = pin_JobID (ex_pin 0) /\ wk_WorktreeID u = pin_WorktreeID (ex_pin 0) /\
  wk_WorkspaceID u = pin_WorkspaceID (ex_pin 0) /\ wk_RuntimeID u = pin_RuntimeID (ex_pin 0) /\ wk_LeaseID u = pin_LeaseID (ex_pin 0) /\
  wk_Fence u = pin_Fence (ex_pin 0).
Proof.
  apply (integration_sources_held 1020 ex_integrating ex_integration (task_at ex_integrating ex_integration) (worker_of ex_integrating ex_integration 0) (ex_pin 0)).
  - exact ex_reach_integrating.
  - exact ex_integration_reads.
  - apply (list_elem_of_lookup_2 _ 0). vm_compute. reflexivity.
  - vm_compute. discriminate.
  - vm_compute. discriminate.
  - vm_compute. reflexivity.
  - apply (list_elem_of_lookup_2 _ 0). vm_compute. reflexivity.
Defined.

Definition ex_cleanup := run (MarkTaskWorkerWorktreeCleaned ex_source 0 (ex_task_lease 0) 1 1012) ex_accepted [].
Lemma cleanup_guarded_witness :
  (exists t v, cleanup_allowed (st_db ex_accepted) ex_source 0 (ex_task_lease 0) 1 t v) /\
  exists t' v', task_of (st_db (snd ex_cleanup)) ex_source = Ok (Some t') /\ tk_Workers t' !! 0%nat = Some v' /\ wk_WorktreeCleaned v' = true.
Proof.
  apply (cleanup_guarded 1011 1012 ex_accepted ex_source 0 (ex_task_lease 0) 1 [] (snd ex_cleanup)).
  - exact ex_reach_accepted.
  - lia.
  - by apply ex_int64.
  - vm_compute. reflexivity.
Defined.

Definition created_of (r : result (TaskGroup * bool)) : TaskGroup := match r with Ok (t, _) => t | Err _ => pending_task ex_source_spec end.
Definition ex_creation := run (CreateTask ex_integration_spec 1020 (Some (ex_bytes "I")) [Some (ex_bytes "9")]) ex_accepted [].
Lemma ex_randoms l : forallb check_random l = true -> Forall random_ok l.
Proof. intros Hl. apply Forall_forall. intros r Hr. apply check_random_ok. rewrite forallb_forall in Hl. by apply Hl, list_elem_of_In. Qed.

Lemma CreateTask_creates_witness :
  let t := created_of (fst ex_creation) in
  task_of (st_db (snd ex_creation)) (tk_ID t) = Ok (Some t) /\ task_of (st_db ex_accepted) (tk_ID t) = Ok None /\
  spec_of_task t = stored_spec (normalizeTaskSpec ex_integration_spec) /\ tk_State t = TaskQueued.
Proof.
  destruct (CreateTask_creates 1011 1020 ex_accepted ex_integration_spec (Some (ex_bytes "I")) [Some (ex_bytes "9")] [] (created_of (fst ex_creation)) true (snd ex_creation))
    as (_ & H1 & H2 & H3 & H4 & _); [exact ex_reach_accepted|lia|by apply ex_int64|by apply check_random_ok|by apply ex_randoms| |exact (conj H1 (conj H2 (conj H3 H4)))].
  vm_compute. reflexivity.
Defined.

Definition ex_first := run (CreateTask ex_source_spec 1000 (Some (ex_bytes "S")) [Some (ex_bytes "0"); Some (ex_bytes "1")]) ex_store0 [].
Lemma CreateTask_idempotent_witness : exists t',
  run (CreateTask ex_source_spec 2000 None []) (run_calls (snd ex_first) ex_run_calls) [] = (Ok (t', false), run_calls (snd ex_first) ex_run_calls) /\
  tk_ID t' = tk_ID (created_of (fst ex_first)) /\ task_kept (created_of (fst ex_first)) t'.
Proof.
  apply (CreateTask_idempotent 0 1000 ex_store0 ex_source_spec (Some (ex_bytes "S")) [Some (ex_bytes "0"); Some (ex_bytes "1")] [] (created_of (fst ex_first)) true
    (snd ex_first) (trace_of (snd ex_first) ex_run_calls) 1006 (run_calls (snd ex_first) ex_run_calls) 2000 None []).
  - exact ex_reach0.
  - lia.
  - by apply ex_int64.
  - by apply check_random_ok.
  - by apply ex_randoms.
  - done.
  - vm_compute. reflexivity.
  - apply (run_calls_trace 1000 (snd ex_first) ex_run_calls). vm_compute. reflexivity.
Defined.

Definition ex_record := run (RecordTaskWorkerTestReceipt (ex_test_receipt 0) 1010) ex_completed [].
Lemma receipts_read_back_witness :
  reads_worker (st_db (snd ex_record)) ex_source 0 (fun v => wk_TestAcceptanceReceipt v = Some (tr_at 1010 (ex_test_receipt 0))).
Proof.
  destruct (receipts_read_back 1006 1010 ex_completed [] (snd ex_record) ex_reach_completed ltac:(lia) (ex_int64 1010 eq_refl)) as (_ & Ht & _).
  apply (Ht (ex_test_receipt 0)). vm_compute. reflexivity.
Defined.

(** A binding under a lease that is over. *)
Definition ex_stale : call := CallBindTaskWorker (ex_binding 0) 1030.
Lemma failed_call_atomic_witness : snd (run (run_call ex_stale) ex_integrating []) = ex_integrating \/
  reported_late ex_stale "workqueue: stale task worker binding rejected".
Proof.
  apply (failed_call_atomic 1020 ex_integrating ex_stale []); [exact ex_reach_integrating|by apply check_call_ok|done|]. vm_compute. reflexivity.
Defined.

(** ** Findings *)
(** [FailUnstartedTaskWorker] takes a queued job to failed, which [legalTransition] does not
    list as a transition of the job state machine. *)
Definition ex_queued : Store := run_calls ex_store0 [ex_create].
Lemma unstarted_failure_not_legal :
  wk_State (worker_of ex_queued ex_source 0) = StateQueued /\
  wk_State (worker_of (run_calls ex_queued [CallFailUnstartedTaskWorker ex_source 0 1001]) ex_source 0) = StateFailed /\
  legalTransition StateQueued StateFailed = false.
Proof. vm_compute. split_and!; reflexivity. Qed.

(** A specification without an integration whose slice of pins is empty but not nil: the
    stored task has nil, which has another digest, so the same call conflicts with the
    task it created. *)
Definition ex_empty_pins : TaskSpec := ex_task_spec "task-source-2" 1 None (Some []).
Definition ex_empty_run := run (CreateTask ex_empty_pins 1000 (Some (ex_bytes "E")) [Some (ex_bytes "0")]) ex_store0 [].
Lemma empty_pins_conflict :
  snd <$> (match fst ex_empty_run with Ok r => Some r | Err _ => None end) = Some true /\
  fst (run (CreateTask ex_empty_pins 1001 (Some (ex_bytes "F")) [Some (ex_bytes "1")]) (snd ex_empty_run) []) =
    Err "workqueue: task idempotency key conflicts".
Proof. vm_compute. split_and!; reflexivity. Qed.
