(* ===== verification/DevCapability.v ===== *)
(** * Capabilities and environments: [internal/development/capability.go],
    [catalog.go] and [environment_record.go]

    Capability names, canonical capability sets, execution classes with their
    authority tiers, environment attestations bound by digests, the resolution
    policy, and the catalog and record forms of attestations. *)

From stdpp Require Import pretty.
From S2P Require Import Prelude GoStrings GoRegexp Sha256.

Definition nul : string := String (chr 0) "".
Definition capabilitySetDigestDomain : string := "aeontra-development-capability-set-v1" +:+ nul.
Definition attestationDigestDomain : string := "aeontra-development-capability-attestation-v1" +:+ nul.

Definition lower_alnum := lower ⊎ digit.

(** [^[a-z][a-z0-9]*(?:[.-][a-z0-9]+)*$] *)
Definition capabilityIDPattern : regexp :=
  whole (seqs [Class lower; star (Class lower_alnum); star (Seq (Class (one_of ".-")) (plus (Class lower_alnum)))]).
(** [^v?[0-9]+(?:\.[0-9]+){0,3}$] *)
Definition capabilityVersionPattern : regexp :=
  whole (seqs [opt (lit "v"); plus (Class digit); upto 3 (Seq (lit ".") (plus (Class digit)))]).
(** [^[A-Za-z0-9][A-Za-z0-9._:-]{0,127}$] *)
Definition identityPattern : regexp :=
  whole (Seq (Class alnum) (upto 127 (Class (alnum ⊎ one_of "._:-")))).

(** ** Capability sets *)
(** Go's named string and integer types are their underlying types. *)
Abbreviation CapabilityID := string (only parsing).
Record Requirement := { req_ID : CapabilityID }.
Record CapabilitySet := { set_ids : list CapabilityID }.

#[export] Instance Requirement_eq_dec : EqDecision Requirement.
Proof. solve_decision. Defined.
#[export] Instance CapabilitySet_eq_dec : EqDecision CapabilitySet.
Proof. solve_decision. Defined.

Definition ErrCapabilityID : error := "development capability id is invalid".

Definition normalizeCapabilityID (raw : string) : result CapabilityID :=
  let value := ToLower (TrimSpace raw) in
  if MatchString capabilityIDPattern value then Ok value else Err ErrCapabilityID.

Fixpoint normalize_all (raw : list string) : result (list CapabilityID) :=
  match raw with
  | [] => Ok []
  | value :: rest =>
      let? id := normalizeCapabilityID value in
      let? ids := normalize_all rest in
      Ok (id :: ids)
  end.

(** The loop of [capabilitySetFromIDs]: [seen] are the identifiers kept so far. *)
Fixpoint dedup_ids (seen : list CapabilityID) (ids : list CapabilityID) : result (list CapabilityID) :=
  match ids with
  | [] => Ok []
  | id :: rest =>
      if negb (MatchString capabilityIDPattern id) then Err ErrCapabilityID
      else if bool_decide (id ∈ seen) then dedup_ids seen rest
      else let? canonical := dedup_ids (id :: seen) rest in Ok (id :: canonical)
  end.

Definition capabilitySetFromIDs (ids : list CapabilityID) : result CapabilitySet :=
  let? canonical := dedup_ids [] ids in
  Ok {| set_ids := sort_strings canonical |}.

Definition NewCapabilitySet (raw : list string) : result CapabilitySet :=
  let? ids := normalize_all raw in capabilitySetFromIDs ids.

Definition Requirements (raw : list string) : result (list Requirement) :=
  let? ids := normalize_all raw in
  let? set := capabilitySetFromIDs ids in
  Ok (Build_Requirement <$> set_ids set).

(** [CapabilitySet.Has] *)
Definition set_Has (s : CapabilitySet) (id : CapabilityID) : bool :=
  if negb (MatchString capabilityIDPattern id) then false
  else
    let index := SearchStrings (set_ids s) id in
    bool_decide (index < length (set_ids s))%nat && bool_decide (set_ids s !! index = Some id).

Definition set_Missing (s : CapabilitySet) (requirements : list Requirement) : list CapabilityID :=
  sort_strings (filter (fun id => set_Has s id = false) (req_ID <$> requirements)).

(** Every item followed by a NUL byte. *)
Definition nul_terminated (l : list string) : string := foldr (fun id acc => id +:+ nul +:+ acc) "" l.

Definition set_Digest (s : CapabilitySet) : string :=
  digest_string (capabilitySetDigestDomain +:+ nul_terminated (set_ids s)).

(** ** Versions *)
Definition ErrVersion : error := "development capability version is invalid".
Definition ErrVersionCanonical : error := "development capability version is not canonical".

(** [len(part) > 1 && part[0] == '0'] *)
Definition leading_zero (part : string) : bool :=
  match part with String c (String _ _) => if ascii_dec c "0" then true else false | _ => false end.

Definition canonicalCapabilityVersion (raw : string) : result string :=
  let value := TrimSpace (ToLower raw) in
  check reject_if (negb (MatchString capabilityVersionPattern value)) ErrVersion in
  let parts := Split (TrimPrefix value "v") "." in
  check reject_if (existsb leading_zero parts) ErrVersionCanonical in
  Ok (Join parts ".").

(** The loop of [VersionCapabilityIDs] over the prefixes of [parts]. *)
Fixpoint version_ids (baseID : CapabilityID) (done_parts parts : list string) : result (list CapabilityID) :=
  match parts with
  | [] => Ok []
  | part :: rest =>
      let prefix := done_parts ++ [part] in
      let? id := normalizeCapabilityID (baseID +:+ ".v" +:+ Join prefix "-") in
      let? ids := version_ids baseID prefix rest in
      Ok (id :: ids)
  end.

Definition VersionCapabilityIDs (base version : string) : result (list CapabilityID) :=
  let? baseID := normalizeCapabilityID base in
  let? canonical := canonicalCapabilityVersion version in
  let? ids := version_ids baseID [] (Split canonical ".") in
  Ok (baseID :: ids).

Definition VersionRequirement (base version : string) : result Requirement :=
  let? ids := VersionCapabilityIDs base version in
  Ok {| req_ID := List.last ids "" |}.

(** ** Execution classes *)
Abbreviation ExecutionClass := string (only parsing).
Abbreviation AuthorityTier := Z (only parsing).
Definition TierL3Sandbox : AuthorityTier := 1.
Definition TierWorkcell : AuthorityTier := 2.
Definition TierManagedToolchain : AuthorityTier := 3.
Definition TierToolbox : AuthorityTier := 4.
Definition TierRootlessRuntime : AuthorityTier := 5.
Definition TierBrokeredPrivileged : AuthorityTier := 6.
Definition TierIsolatedRunner : AuthorityTier := 7.

Definition ClassL3Sandbox : ExecutionClass := "l3-sandbox".
Definition ClassWorkcell : ExecutionClass := "workcell".
Definition ClassManagedToolchain : ExecutionClass := "managed-toolchain".
Definition ClassToolbox : ExecutionClass := "toolbox".
Definition ClassRootlessRuntime : ExecutionClass := "rootless-runtime".
Definition ClassBrokeredPrivileged : ExecutionClass := "brokered-privileged".
Definition ClassIsolatedRunner : ExecutionClass := "isolated-runner".
Definition ClassExternalValidationRunner : ExecutionClass := "external-validation-runner".

(** [ExecutionClass.Tier]; [None] is [(0, false)]. *)
Definition Tier (class : ExecutionClass) : option AuthorityTier :=
  if class =? ClassL3Sandbox then Some TierL3Sandbox
  else if class =? ClassWorkcell then Some TierWorkcell
  else if class =? ClassManagedToolchain then Some TierManagedToolchain
  else if class =? ClassToolbox then Some TierToolbox
  else if class =? ClassRootlessRuntime then Some TierRootlessRuntime
  else if class =? ClassBrokeredPrivileged then Some TierBrokeredPrivileged
  else if (class =? ClassIsolatedRunner) || (class =? ClassExternalValidationRunner) then Some TierIsolatedRunner
  else None.

(** [tier, _ := class.Tier()] *)
Definition tier_of (class : ExecutionClass) : AuthorityTier := default 0 (Tier class).

(** ** Attestations *)
Record EnvironmentAttestation := {
  env_EnvironmentID : string; env_Class : ExecutionClass; env_Generation : Z;
  env_Capabilities : CapabilitySet; env_Digest : string }.

#[export] Instance EnvironmentAttestation_eq_dec : EqDecision EnvironmentAttestation.
Proof. solve_decision. Defined.

(** [strconv.FormatUint(g, 10)] *)
Definition FormatUint (g : Z) : string := pretty (Z.to_N g).

Definition attestation_text (id : string) (class : ExecutionClass) (generation : Z) (capabilities : CapabilitySet) : string :=
  attestationDigestDomain +:+ id +:+ nul +:+ class +:+ nul +:+ FormatUint generation +:+ nul +:+ set_Digest capabilities.

Definition attestationDigest (a : EnvironmentAttestation) : string :=
  digest_string (attestation_text (env_EnvironmentID a) (env_Class a) (env_Generation a) (env_Capabilities a)).

Definition ErrEnvironmentIdentity : error := "development environment identity is invalid".
Definition ErrExecutionClass : error := "development execution class is invalid".

Definition NewEnvironmentAttestation (environmentID : string) (class : ExecutionClass) (generation : Z)
    (capabilities : CapabilitySet) : result EnvironmentAttestation :=
  let environmentID := TrimSpace environmentID in
  check reject_if (negb (MatchString identityPattern environmentID) || (generation =? 0)) ErrEnvironmentIdentity in
  check reject_if (bool_decide (Tier class = None)) ErrExecutionClass in
  let? canonical := capabilitySetFromIDs (set_ids capabilities) in
  Ok {| env_EnvironmentID := environmentID; env_Class := class; env_Generation := generation;
        env_Capabilities := canonical;
        env_Digest := digest_string (attestation_text environmentID class generation canonical) |}.

(** [EnvironmentAttestation.Valid] *)
Definition env_Valid (a : EnvironmentAttestation) : bool :=
  if negb (MatchString identityPattern (env_EnvironmentID a)) || (env_Generation a =? 0) then false
  else if bool_decide (Tier (env_Class a) = None) then false
  else match capabilitySetFromIDs (set_ids (env_Capabilities a)) with
       | Err _ => false
       | Ok canonical =>
           if set_Digest canonical <>? set_Digest (env_Capabilities a) then false
           else env_Digest a =? attestationDigest a
       end.

(** ** The resolution policy *)
Record ResolutionPolicy := { rp_maxTier : AuthorityTier; rp_allowed : list ExecutionClass }.
#[export] Instance ResolutionPolicy_eq_dec : EqDecision ResolutionPolicy.
Proof. solve_decision. Defined.

Definition ErrResolutionPolicy : error := "development resolution policy is invalid".

Fixpoint dedup_classes (maxTier : AuthorityTier) (seen allowed : list ExecutionClass) : result (list ExecutionClass) :=
  match allowed with
  | [] => Ok []
  | class :: rest =>
      match Tier class with
      | None => Err ErrResolutionPolicy
      | Some tier =>
          if maxTier <? tier then Err ErrResolutionPolicy
          else if bool_decide (class ∈ seen) then dedup_classes maxTier seen rest
          else let? classes := dedup_classes maxTier (class :: seen) rest in Ok (class :: classes)
      end
  end.

Definition NewResolutionPolicy (maxTier : AuthorityTier) (allowed : list ExecutionClass) : result ResolutionPolicy :=
  check reject_if ((maxTier <? TierL3Sandbox) || (TierIsolatedRunner <? maxTier) ||
                   bool_decide (length allowed = 0%nat)) ErrResolutionPolicy in
  let? classes := dedup_classes maxTier [] allowed in
  Ok {| rp_maxTier := maxTier; rp_allowed := sort_strings classes |}.

Definition class_listed (p : ResolutionPolicy) (class : ExecutionClass) : bool :=
  let index := SearchStrings (rp_allowed p) class in
  bool_decide (index < length (rp_allowed p))%nat && bool_decide (rp_allowed p !! index = Some class).

Definition Allows (p : ResolutionPolicy) (a : EnvironmentAttestation) : bool :=
  if negb (env_Valid a) then false
  else if rp_maxTier p <? tier_of (env_Class a) then false
  else class_listed p (env_Class a).

Definition AllowsClass (p : ResolutionPolicy) (class : ExecutionClass) : bool :=
  match Tier class with
  | None => false
  | Some tier => if rp_maxTier p <? tier then false else class_listed p class
  end.

(** [ResolutionPolicy.valid]; the loop remembers the class before. *)
Fixpoint policy_classes_valid (maxTier : AuthorityTier) (before : option ExecutionClass) (allowed : list ExecutionClass)
    : bool :=
  match allowed with
  | [] => true
  | class :: rest =>
      match Tier class with
      | None => false
      | Some tier =>
          if (maxTier <? tier) || match before with Some b => negb (str_lt b class) | None => false end then false
          else policy_classes_valid maxTier (Some class) rest
      end
  end.

Definition policy_valid (p : ResolutionPolicy) : bool :=
  if (rp_maxTier p <? TierL3Sandbox) || (TierIsolatedRunner <? rp_maxTier p) ||
     bool_decide (length (rp_allowed p) = 0%nat) then false
  else policy_classes_valid (rp_maxTier p) None (rp_allowed p).

(** ** The environment catalog *)
Definition MaxEnvironmentCatalogEntries : nat := 64.
Definition environmentCatalogDigestDomain : string := "aeontra-development-environment-catalog-v1" +:+ nul.

Record EnvironmentCatalog := { cat_environments : list EnvironmentAttestation; cat_digest : string }.

Definition ErrCatalog : error := "development environment catalog is invalid".
Definition ErrCatalogInvalid : error := "development environment catalog contains invalid attestation".
Definition ErrCatalogAmbiguous : error := "development environment catalog has ambiguous identity".

Fixpoint check_catalog (identities : list string) (l : list EnvironmentAttestation) : result unit :=
  match l with
  | [] => Ok tt
  | e :: rest =>
      check reject_if (negb (env_Valid e)) ErrCatalogInvalid in
      check reject_if (bool_decide (env_EnvironmentID e ∈ identities)) ErrCatalogAmbiguous in
      check_catalog (env_EnvironmentID e :: identities) rest
  end.

(** The sort key of an attestation, compared lexicographically. *)
Definition env_before (a b : EnvironmentAttestation) : bool :=
  if tier_of (env_Class a) <>? tier_of (env_Class b) then tier_of (env_Class a) <? tier_of (env_Class b)
  else if env_Class a <>? env_Class b then str_lt (env_Class a) (env_Class b)
  else if env_EnvironmentID a <>? env_EnvironmentID b then str_lt (env_EnvironmentID a) (env_EnvironmentID b)
  else str_lt (env_Digest a) (env_Digest b).

(** [sort.Slice] with a strict order: not-after is the total preorder it sorts by. *)
Definition env_not_after (a b : EnvironmentAttestation) : Prop := env_before b a = false.
#[export] Instance env_not_after_dec a b : Decision (env_not_after a b).
Proof. unfold env_not_after. apply _. Defined.

Definition environmentCatalogDigest (l : list EnvironmentAttestation) : string :=
  digest_string (environmentCatalogDigestDomain +:+
    foldr (fun e acc => env_EnvironmentID e +:+ nul +:+ env_Digest e +:+ nul +:+ acc) "" l).

Definition NewEnvironmentCatalog (environments : list EnvironmentAttestation) : result EnvironmentCatalog :=
  check reject_if (bool_decide (length environments = 0%nat) ||
                   bool_decide (MaxEnvironmentCatalogEntries < length environments)%nat) ErrCatalog in
  check check_catalog [] environments in
  let canonical := merge_sort env_not_after environments in
  Ok {| cat_environments := canonical; cat_digest := environmentCatalogDigest canonical |}.

(** [EnvironmentCatalog.Valid] *)
Definition cat_Valid (c : EnvironmentCatalog) : bool :=
  if bool_decide (length (cat_environments c) = 0%nat) ||
     bool_decide (MaxEnvironmentCatalogEntries < length (cat_environments c))%nat || (cat_digest c =? "") then false
  else match NewEnvironmentCatalog (cat_environments c) with
       | Ok rebuilt => cat_digest rebuilt =? cat_digest c
       | Err _ => false
       end.

Definition FindDigest (c : EnvironmentCatalog) (digest : string) : option EnvironmentAttestation :=
  if negb (cat_Valid c) then None
  else list_find (fun e => env_Digest e = digest) (cat_environments c) ≫= fun p => Some p.2.

(** ** The record form of an attestation *)
Record EnvironmentRecord := {
  er_EnvironmentID : string; er_Class : ExecutionClass; er_Generation : Z;
  er_Capabilities : list CapabilityID; er_Digest : string }.

Definition ErrAttestation : error := "development environment attestation is invalid".
Definition ErrNotCanonical : error := "development environment capabilities are not canonical".
Definition ErrEnvironmentDigest : error := "development environment digest is invalid".

Definition canonicalCapabilityIDs (ids : list CapabilityID) : result (list CapabilityID) :=
  let? set := capabilitySetFromIDs ids in Ok (set_ids set).

(** [EnvironmentAttestation.Record] and [EnvironmentRecord.Attestation] *)
Definition env_Record (a : EnvironmentAttestation) : result EnvironmentRecord :=
  check reject_if (negb (env_Valid a)) ErrAttestation in
  Ok {| er_EnvironmentID := env_EnvironmentID a; er_Class := env_Class a; er_Generation := env_Generation a;
        er_Capabilities := set_ids (env_Capabilities a); er_Digest := env_Digest a |}.

Definition record_Attestation (r : EnvironmentRecord) : result EnvironmentAttestation :=
  match canonicalCapabilityIDs (er_Capabilities r) with
  | Err _ => Err ErrNotCanonical
  | Ok canonical =>
      if canonical <>? er_Capabilities r then Err ErrNotCanonical
      else
        let? capabilities := capabilitySetFromIDs canonical in
        match NewEnvironmentAttestation (er_EnvironmentID r) (er_Class r) (er_Generation r) capabilities with
        | Err _ => Err ErrEnvironmentDigest
        | Ok a => if er_Digest r <>? env_Digest a then Err ErrEnvironmentDigest else Ok a
        end
  end.

(** ** Canonical sets *)
Definition is_capability (id : string) : Prop := MatchString capabilityIDPattern id = true.

(** Sorted, without duplicates, every name well formed: the invariant of the
    unexported field of [CapabilitySet]. *)
Definition canonical_ids (l : list CapabilityID) : Prop :=
  StronglySorted str_le l /\ NoDup l /\ Forall is_capability l.

Lemma dedup_ids_spec seen ids l : dedup_ids seen ids = Ok l ->
  Forall is_capability ids /\ NoDup l /\ forall x, x ∈ l <-> x ∈ ids /\ x ∉ seen.
Proof.
  revert seen l. induction ids as [|id ids IH]; intros seen l; cbn [dedup_ids].
  { intros [= <-]. split_and!; [constructor..|]. set_solver. }
  destruct (MatchString capabilityIDPattern id) eqn:Em; cbn [negb]; [|done].
  case_bool_decide as Hin.
  - intros (Hf & Hnd & Hx)%IH. split_and!; [by constructor|done|]. set_solver.
  - destruct (dedup_ids (id :: seen) ids) as [l'|] eqn:E; cbn [rbind]; [|done]. intros [= <-].
    apply IH in E as (Hf & Hnd & Hx). split_and!; [by constructor| |].
    + constructor; [|done]. rewrite Hx. set_solver.
    + intros x. rewrite elem_of_cons, Hx. destruct (decide (x = id)); set_solver.
Qed.

Lemma dedup_ids_id seen ids : Forall is_capability ids -> NoDup ids -> (forall x, x ∈ ids -> x ∉ seen) ->
  dedup_ids seen ids = Ok ids.
Proof.
  revert seen. induction ids as [|id ids IH]; intros seen Hf Hnd Hs; [done|]. cbn [dedup_ids].
  apply Forall_cons in Hf as [Hid Hf]. apply NoDup_cons in Hnd as [Hni Hnd]. rewrite Hid. cbn [negb].
  rewrite bool_decide_false by (apply Hs; left). rewrite IH; [done|done|done|].
  intros x Hx. specialize (Hs x). set_solver.
Qed.

Lemma dedup_ids_total seen ids : Forall is_capability ids -> is_ok (dedup_ids seen ids).
Proof.
  revert seen. induction ids as [|id ids IH]; intros seen Hf; [done|]. cbn [dedup_ids].
  apply Forall_cons in Hf as [Hid Hf]. rewrite Hid. cbn [negb]. case_bool_decide; [by apply IH|].
  match goal with |- context [dedup_ids ?k _] => specialize (IH k Hf); by destruct (dedup_ids k ids) end.
Qed.

Lemma capabilitySetFromIDs_spec ids s : capabilitySetFromIDs ids = Ok s ->
  canonical_ids (set_ids s) /\ Forall is_capability ids /\ forall x, x ∈ set_ids s <-> x ∈ ids.
Proof.
  unfold capabilitySetFromIDs. destruct (dedup_ids [] ids) as [l|] eqn:E; cbn [rbind]; [|done]. intros [= <-].
  apply dedup_ids_spec in E as (Hf & Hnd & Hx). cbn [set_ids]. pose proof (sort_strings_perm l) as Hp.
  assert (Hel : forall x, x ∈ sort_strings l <-> x ∈ ids).
  { intros x. rewrite Hp, Hx. set_solver. }
  split_and!; [|done..]. split_and!.
  - apply sort_strings_sorted.
  - by rewrite Hp.
  - rewrite Forall_forall in *. intros x Hin. by apply Hf, Hel.
Qed.

Lemma capabilitySetFromIDs_total ids : Forall is_capability ids -> is_ok (capabilitySetFromIDs ids).
Proof. intros H. unfold capabilitySetFromIDs. pose proof (dedup_ids_total [] ids H). by destruct (dedup_ids [] ids). Qed.

Lemma sort_strings_id l : StronglySorted str_le l -> sort_strings l = l.
Proof.
  intros Hs. apply sorted_perm_unique; [apply sort_strings_sorted|done|apply sort_strings_perm].
Qed.

Lemma capabilitySetFromIDs_canonical ids : canonical_ids ids -> capabilitySetFromIDs ids = Ok {| set_ids := ids |}.
Proof.
  intros (Hs & Hnd & Hf). unfold capabilitySetFromIDs. rewrite dedup_ids_id by (done || set_solver). cbn [rbind].
  by rewrite sort_strings_id.
Qed.

(** Canonical lists are determined by their elements. *)
Lemma canonical_ids_ext l k : canonical_ids l -> canonical_ids k -> (forall x, x ∈ l <-> x ∈ k) -> l = k.
Proof.
  intros (Hs & Hnd & _) (Hs' & Hnd' & _) Hx. apply sorted_perm_unique; [done..|].
  by apply NoDup_Permutation.
Qed.

Lemma search_listed l x : StronglySorted str_le l -> NoDup l ->
  (bool_decide (SearchStrings l x < length l)%nat && bool_decide (l !! SearchStrings l x = Some x)) = true <-> x ∈ l.
Proof.
  intros Hs Hnd. rewrite andb_true_iff, !bool_decide_eq_true. split.
  - intros [_ H]. by eapply list_elem_of_lookup_2.
  - intros [i Hi]%list_elem_of_lookup. apply (SearchStrings_found l x i Hs Hnd) in Hi as [-> Hi].
    split; [by eapply lookup_lt_Some|done].
Qed.

Lemma set_Has_spec s id : canonical_ids (set_ids s) -> set_Has s id = true <-> id ∈ set_ids s.
Proof.
  intros (Hs & Hnd & Hf). unfold set_Has. destruct (MatchString capabilityIDPattern id) eqn:Em; cbn [negb].
  - by apply search_listed.
  - split; [done|]. intros Hin. rewrite Forall_forall in Hf. specialize (Hf id Hin). unfold is_capability in Hf. congruence.
Qed.

Lemma set_Missing_nil s reqs : canonical_ids (set_ids s) ->
  set_Missing s reqs = [] <-> Forall (fun r => req_ID r ∈ set_ids s) reqs.
Proof.
  intros Hc. unfold set_Missing. rewrite Forall_forall. split.
  - intros E r Hr. apply set_Has_spec; [done|]. destruct (set_Has s (req_ID r)) eqn:Eh; [done|]. exfalso.
    assert (Hin : req_ID r ∈ sort_strings (filter (fun id => set_Has s id = false) (req_ID <$> reqs))).
    { rewrite sort_strings_perm. apply list_elem_of_filter. split; [done|]. by apply list_elem_of_fmap_2. }
    rewrite E in Hin. by apply elem_of_nil in Hin.
  - intros H. assert (filter (fun id => set_Has s id = false) (req_ID <$> reqs) = []) as ->; [|done].
    destruct (filter _ _) as [|id l] eqn:E; [done|]. exfalso.
    assert (Hin : id ∈ filter (fun id => set_Has s id = false) (req_ID <$> reqs)) by (rewrite E; left).
    apply list_elem_of_filter in Hin as [Hno (r & -> & Hr)%list_elem_of_fmap].
    specialize (H r Hr). apply (set_Has_spec s _ Hc) in H. congruence.
Qed.

(** ** Names are plain texts *)
Lemma identity_visible s : MatchString identityPattern s = true -> each_byte visible s.
Proof.
  apply match_whole_bytes; [unfold visible; lia|]. cbn [classes_in].
  assert (Ha : forall z, alnum z = true -> visible z).
  { intros z. unfold visible. class_unfold. lia. }
  split; [exact Ha|]. apply classes_in_upto. intros z. unfold cunion at 1. rewrite orb_true_iff.
  intros [?|Hz]; [by apply Ha|]. revert Hz. unfold visible. class_unfold. intuition (lia || done).
Qed.

Lemma capability_visible s : is_capability s -> each_byte visible_lower s.
Proof.
  apply match_whole_bytes; [unfold visible_lower; lia|]. cbn [classes_in seqs star plus].
  assert (Ha : forall z, lower_alnum z = true -> visible_lower z).
  { intros z. unfold visible_lower, lower_alnum. class_unfold. lia. }
  assert (Hl : forall z, lower z = true -> visible_lower z).
  { intros z. unfold visible_lower. class_unfold. lia. }
  split_and!; try done. intros z. unfold visible_lower. class_unfold. intuition (lia || done).
Qed.

Lemma TrimSpace_identity s : MatchString identityPattern s = true -> TrimSpace s = s.
Proof. intros H. by apply TrimSpace_visible, identity_visible. Qed.

Lemma visible_lower_visible s : each_byte visible_lower s -> each_byte visible s.
Proof. apply each_byte_impl. by intros z [? _]. Qed.

Lemma normalizeCapabilityID_id s : is_capability s -> normalizeCapabilityID s = Ok s.
Proof.
  intros H. pose proof (capability_visible s H) as Hv. unfold normalizeCapabilityID.
  rewrite TrimSpace_visible by (by apply visible_lower_visible). rewrite ToLower_visible by done. by rewrite H.
Qed.

Lemma normalize_all_id l : Forall is_capability l -> normalize_all l = Ok l.
Proof.
  induction 1 as [|x l Hx _ IH]; [done|]. cbn [normalize_all]. rewrite normalizeCapabilityID_id by done.
  cbn [rbind]. by rewrite IH.
Qed.

(** ** Attestations *)
Definition env_ok (a : EnvironmentAttestation) : Prop :=
  env_Valid a = true /\ canonical_ids (set_ids (env_Capabilities a)).

Lemma env_Valid_intro a : MatchString identityPattern (env_EnvironmentID a) = true -> env_Generation a <> 0 ->
  Tier (env_Class a) <> None -> canonical_ids (set_ids (env_Capabilities a)) ->
  env_Digest a = attestationDigest a -> env_Valid a = true.
Proof.
  intros H1 H2 H3 H4 H5. unfold env_Valid. rewrite H1, !bool_decide_false by done. cbn [negb orb].
  rewrite capabilitySetFromIDs_canonical by done. rewrite !bool_decide_true; [done|done|].
  by destruct (env_Capabilities a).
Qed.

Lemma env_Valid_inv a : env_Valid a = true ->
  MatchString identityPattern (env_EnvironmentID a) = true /\ env_Generation a <> 0 /\
  (exists t, Tier (env_Class a) = Some t) /\ env_Digest a = attestationDigest a.
Proof.
  unfold env_Valid. destruct (MatchString identityPattern (env_EnvironmentID a)); [|done]. cbn [negb orb].
  case_bool_decide; [done|]. case_bool_decide as Ht; [done|].
  destruct (capabilitySetFromIDs _); [|done]. case_bool_decide; cbn [negb]; [|done].
  rewrite bool_decide_eq_true. intros ->. split_and!; try done.
  destruct (Tier (env_Class a)) as [t|]; [by exists t|done].
Qed.

Lemma NewEnvironmentAttestation_ok id class generation caps a :
  NewEnvironmentAttestation id class generation caps = Ok a ->
  env_ok a /\ env_EnvironmentID a = TrimSpace id /\ env_Class a = class /\ env_Generation a = generation /\
  forall x, x ∈ set_ids (env_Capabilities a) <-> x ∈ set_ids caps.
Proof.
  unfold NewEnvironmentAttestation. destruct (MatchString identityPattern (TrimSpace id)) eqn:E1; cbn [negb orb]; [|done].
  case_bool_decide; cbn [reject_if rbind]; [done|]. case_bool_decide; cbn [reject_if rbind]; [done|].
  destruct (capabilitySetFromIDs (set_ids caps)) as [s|] eqn:E2; cbn [rbind]; [|done]. intros [= <-].
  apply capabilitySetFromIDs_spec in E2 as (Hc & _ & Hx). split_and!; try done. split; [|done].
  by apply env_Valid_intro.
Qed.

(** The transport form of an attestation loses nothing and adds nothing: an
    attestation built by the server is valid, its record parses back to it, and a
    record that parses carries canonical capabilities under the digest of exactly
    its contents. *)
Theorem attestation_roundtrip id class generation caps a r r' a' :
  NewEnvironmentAttestation id class generation caps = Ok a -> env_Record a = Ok r -> record_Attestation r' = Ok a' ->
  record_Attestation r = Ok a /\
  env_ok a' /\ er_Capabilities r' = set_ids (env_Capabilities a') /\ er_Digest r' = attestationDigest a'.
Proof.
  intros Hn Hr Hr'. apply NewEnvironmentAttestation_ok in Hn as ([Hv Hc] & _). split.
  - unfold env_Record in Hr. rewrite Hv in Hr. injection Hr as <-. unfold record_Attestation, canonicalCapabilityIDs.
    cbn [er_Capabilities er_EnvironmentID er_Class er_Generation er_Digest].
    rewrite capabilitySetFromIDs_canonical by done. cbn [rbind set_ids]. rewrite bool_decide_true by done. cbn [negb].
    rewrite capabilitySetFromIDs_canonical by done. cbn [rbind].
    apply env_Valid_inv in Hv as (H1 & H2 & (t & H3) & H4). unfold NewEnvironmentAttestation.
    rewrite TrimSpace_identity, H1, H3, !bool_decide_false by done. cbn [negb orb reject_if rbind set_ids].
    rewrite capabilitySetFromIDs_canonical by done. cbn [rbind].
    rewrite bool_decide_true; cbn [negb env_Digest].
    + f_equal. destruct a as [i c g [ids] d]. cbn in *. by rewrite H4.
    + rewrite H4. unfold attestationDigest. by destruct (env_Capabilities a).
  - unfold record_Attestation, canonicalCapabilityIDs in Hr'.
    destruct (capabilitySetFromIDs (er_Capabilities r')) as [s|] eqn:E1; cbn [rbind] in Hr'; [|done].
    case_bool_decide as E2; cbn [negb] in Hr'; [|done].
    apply capabilitySetFromIDs_spec in E1 as (Hs & _). rewrite capabilitySetFromIDs_canonical in Hr' by done.
    cbn [rbind] in Hr'. destruct (NewEnvironmentAttestation _ _ _ _) as [a1|] eqn:E3; [|done].
    case_bool_decide as E4; cbn [negb] in Hr'; [|done]. injection Hr' as <-.
    apply NewEnvironmentAttestation_ok in E3 as ([Hv' Hc'] & _ & _ & _ & Hx). split_and!; [by split| |].
    + rewrite <- E2. symmetry. by apply canonical_ids_ext.
    + rewrite E4. by apply env_Valid_inv in Hv' as (_ & _ & _ & ->).
Qed.

(** ** Policies *)
Definition policy_ok (p : ResolutionPolicy) : Prop :=
  TierL3Sandbox <= rp_maxTier p <= TierIsolatedRunner /\ rp_allowed p <> [] /\
  StronglySorted str_le (rp_allowed p) /\ NoDup (rp_allowed p) /\
  Forall (fun c => exists t, Tier c = Some t /\ t <= rp_maxTier p) (rp_allowed p).

Lemma policy_classes_valid_spec maxTier before l : policy_classes_valid maxTier before l = true <->
  Forall (fun c => exists t, Tier c = Some t /\ t <= maxTier) l /\ StronglySorted str_le l /\ NoDup l /\
  (forall b x, before = Some b -> x ∈ l -> str_lt b x = true).
Proof.
  revert before. induction l as [|c l IH]; intros before; cbn [policy_classes_valid].
  { split; [|done]. intros _. split_and!; try constructor. intros b x _ []%elem_of_nil. }
  destruct (Tier c) as [t|] eqn:Et; [|split; [done|intros (Hf & _); apply Forall_cons in Hf as [(t & ? & _) _]; congruence]].
  destruct (Z.ltb_spec maxTier t) as [Hlt|Hge]; cbn [orb].
  { split; [done|]. intros (Hf & _). apply Forall_cons in Hf as [(t' & ? & ?) _]. assert (t' = t) by congruence. lia. }
  assert (Hb : (match before with Some b => negb (str_lt b c) | None => false end) = false <->
               forall b, before = Some b -> str_lt b c = true).
  { destruct before as [b|]; [|split; done]. rewrite negb_false_iff. split; [intros ? b' [= <-]; done|by intros ->]. }
  destruct (match before with Some b => negb (str_lt b c) | None => false end) eqn:Eb.
  { split; [done|]. intros (_ & _ & _ & Hx). assert (true = false); [|done]. apply Hb. intros b Eb'.
    apply (Hx b c Eb'). left. }
  rewrite IH. clear IH. split.
  - intros (Hf & Hs & Hnd & Hc). split_and!.
    + constructor; [by exists t|done].
    + constructor; [done|]. apply Forall_forall. intros x Hx. by apply str_lt_spec, (Hc c).
    + constructor; [|done]. intros Hin. specialize (Hc c c eq_refl Hin). by rewrite str_lt_irrefl in Hc.
    + intros b x Hbx [->|Hx]%elem_of_cons; [by apply Hb|].
      assert (H1 : str_lt b c = true) by (by apply Hb). specialize (Hc c x eq_refl Hx).
      apply str_lt_spec in H1 as [H1 Hne], Hc as [H2 Hne2]. apply str_lt_spec. split; [by etrans|].
      intros ->. apply Hne. by apply (anti_symm str_le).
  - intros (Hf & Hs & Hnd & Hc). apply Forall_cons in Hf as [_ Hf]. apply NoDup_cons in Hnd as [Hni Hnd].
    apply StronglySorted_inv in Hs as [Hs Hall]. rewrite Forall_forall in Hall. split_and!; try done.
    intros b x [= <-] Hx. apply str_lt_spec. split; [by apply Hall|]. by intros ->.
Qed.

Lemma policy_valid_spec p : policy_valid p = true <-> policy_ok p.
Proof.
  unfold policy_valid, policy_ok. split.
  - destruct (_ || _) eqn:E; [done|]. breflect. rewrite policy_classes_valid_spec.
    intros (Hf & Hs & Hnd & _). split_and!; try done; try lia. intros E. rewrite E in *. done.
  - intros ([H1 H2] & Hne & Hs & Hnd & Hf).
    rewrite (proj2 (Z.ltb_ge _ _) H1), (proj2 (Z.ltb_ge _ _) H2). cbn [orb].
    rewrite bool_decide_false by (by destruct (rp_allowed p)). by apply policy_classes_valid_spec.
Qed.

Lemma class_listed_spec p class : policy_ok p -> class_listed p class = true <-> class ∈ rp_allowed p.
Proof. intros (_ & _ & Hs & Hnd & _). by apply search_listed. Qed.

Lemma AllowsClass_spec p class : policy_ok p -> AllowsClass p class = true <-> class ∈ rp_allowed p.
Proof.
  intros Hp. pose proof Hp as (_ & _ & _ & _ & Hf). rewrite Forall_forall in Hf. unfold AllowsClass.
  destruct (Tier class) as [t|] eqn:Et.
  - destruct (Z.ltb_spec (rp_maxTier p) t) as [Hlt|Hge]; [|by apply class_listed_spec].
    split; [done|]. intros (t' & ? & ?)%Hf. assert (t' = t) by congruence. lia.
  - split; [done|]. intros (t' & ? & ?)%Hf. congruence.
Qed.

Lemma tier_of_Some class t : Tier class = Some t -> tier_of class = t.
Proof. unfold tier_of. by intros ->. Qed.

Lemma Allows_spec p a : policy_ok p -> Allows p a = true <-> env_Valid a = true /\ env_Class a ∈ rp_allowed p.
Proof.
  intros Hp. pose proof Hp as (_ & _ & _ & _ & Hf). rewrite Forall_forall in Hf. unfold Allows.
  destruct (env_Valid a) eqn:Ev; cbn [negb]; [|by split; [|intros [? _]]].
  apply env_Valid_inv in Ev as (_ & _ & (t & Et) & _). rewrite (tier_of_Some _ _ Et).
  destruct (Z.ltb_spec (rp_maxTier p) t) as [Hlt|Hge].
  - split; [done|]. intros [_ (t' & ? & ?)%Hf]. assert (t' = t) by congruence. lia.
  - rewrite class_listed_spec by done. by split; [|intros [_ ?]].
Qed.

Lemma dedup_classes_spec maxTier seen l k : dedup_classes maxTier seen l = Ok k ->
  Forall (fun c => exists t, Tier c = Some t /\ t <= maxTier) l /\ NoDup k /\ forall x, x ∈ k <-> x ∈ l /\ x ∉ seen.
Proof.
  revert seen k. induction l as [|c l IH]; intros seen k; cbn [dedup_classes].
  { intros [= <-]. split_and!; [constructor..|]. set_solver. }
  destruct (Tier c) as [t|] eqn:Et; [|done]. destruct (Z.ltb_spec maxTier t) as [|Hle]; [done|].
  case_bool_decide as Hin.
  - intros (Hf & Hnd & Hx)%IH. split_and!; [constructor; [by exists t|done]|done|]. set_solver.
  - destruct (dedup_classes maxTier (c :: seen) l) as [k'|] eqn:E; cbn [rbind]; [|done]. intros [= <-].
    apply IH in E as (Hf & Hnd & Hx). split_and!; [constructor; [by exists t|done]| |].
    + constructor; [|done]. rewrite Hx. set_solver.
    + intros x. rewrite elem_of_cons, Hx. destruct (decide (x = c)); set_solver.
Qed.

Lemma NewResolutionPolicy_ok maxTier allowed p : NewResolutionPolicy maxTier allowed = Ok p ->
  policy_valid p = true /\ rp_maxTier p = maxTier /\ forall c, c ∈ rp_allowed p <-> c ∈ allowed.
Proof.
  unfold NewResolutionPolicy. destruct (_ || _) eqn:E; cbn [reject_if rbind]; [done|]. breflect.
  destruct (dedup_classes maxTier [] allowed) as [k|] eqn:Ed; cbn [rbind]; [|done]. intros [= <-].
  apply dedup_classes_spec in Ed as (Hf & Hnd & Hx). cbn [rp_allowed rp_maxTier].
  assert (Hel : forall c, c ∈ sort_strings k <-> c ∈ allowed).
  { intros c. rewrite sort_strings_perm, Hx. set_solver. }
  split_and!; [|done..]. apply policy_valid_spec. unfold policy_ok. cbn. split_and!; try lia.
  - intros Hnil. destruct allowed as [|c allowed]; [done|]. specialize (Hel c). rewrite Hnil in Hel.
    apply (elem_of_nil c). apply Hel. left.
  - apply sort_strings_sorted.
  - by rewrite sort_strings_perm.
  - rewrite Forall_forall in *. intros c Hc. by apply Hf, Hel.
Qed.

(** ** Catalogs *)
Lemma env_not_after_spec a b : env_not_after a b <->
  tier_of (env_Class a) < tier_of (env_Class b) \/
  (tier_of (env_Class a) = tier_of (env_Class b) /\
    ((str_le (env_Class a) (env_Class b) /\ env_Class a <> env_Class b) \/
     (env_Class a = env_Class b /\
       ((str_le (env_EnvironmentID a) (env_EnvironmentID b) /\ env_EnvironmentID a <> env_EnvironmentID b) \/
        (env_EnvironmentID a = env_EnvironmentID b /\ str_le (env_Digest a) (env_Digest b)))))).
Proof.
  unfold env_not_after, env_before. case_bool_decide as E1; cbn [negb].
  2:{ rewrite Z.ltb_ge. split; [intros; left; lia|]. intros [?|[? _]]; [lia|congruence]. }
  case_bool_decide as E2; cbn [negb].
  2:{ rewrite str_lt_ge. split; [intros; right; split; [done|]; left; split; [done|congruence]|].
      intros [?|[_ [[? _]|[? _]]]]; [lia|done|congruence]. }
  case_bool_decide as E3; cbn [negb].
  2:{ rewrite str_lt_ge. split; [intros; right; split; [done|]; right; split; [done|]; left; split; [done|congruence]|].
      intros [?|[_ [[_ ?]|[_ [[? _]|[? _]]]]]]; [lia|congruence|done|congruence]. }
  rewrite str_lt_ge. split; [intros; right; split; [done|]; right; split; [done|]; right; done|].
  intros [?|[_ [[_ ?]|[_ [[_ ?]|[_ ?]]]]]]; [lia|congruence|congruence|done].
Qed.

Lemma str_lt_trans_strict (a b c : string) : str_le a b /\ a <> b -> str_le b c /\ b <> c -> str_le a c /\ a <> c.
Proof.
  intros [H1 N1] [H2 N2]. split; [by etrans|]. intros ->. apply N1. by apply (anti_symm str_le).
Qed.

#[export] Instance env_not_after_total : Total env_not_after.
Proof.
  intros a b. rewrite !env_not_after_spec.
  destruct (Z.lt_total (tier_of (env_Class a)) (tier_of (env_Class b))) as [?|[?|?]]; [by left; left| |by right; left].
  destruct (decide (env_Class a = env_Class b)).
  2:{ destruct (total str_le (env_Class a) (env_Class b)); [left|right]; right; (split; [done|]); left; by split. }
  destruct (decide (env_EnvironmentID a = env_EnvironmentID b)).
  2:{ destruct (total str_le (env_EnvironmentID a) (env_EnvironmentID b)); [left|right]; right; (split; [done|]); right;
        (split; [done|]); left; by split. }
  destruct (total str_le (env_Digest a) (env_Digest b)); [left|right]; right; (split; [done|]); right;
    (split; [done|]); right; by split.
Qed.

#[export] Instance env_not_after_trans : Transitive env_not_after.
Proof.
  intros a b c. rewrite !env_not_after_spec. intros [H1|[E1 H1]] [H2|[E2 H2]]; [left; lia..|].
  right. split; [congruence|].
  destruct H1 as [H1|[F1 H1]], H2 as [H2|[F2 H2]]; rewrite ?F1, ?F2 in *;
    [left; by eapply str_lt_trans_strict|by left|by left|right; split; [done|]].
  destruct H1 as [H1|[G1 H1]], H2 as [H2|[G2 H2]]; rewrite ?G1, ?G2 in *;
    [left; by eapply str_lt_trans_strict|by left|by left|right; split; [done|by etrans]].
Qed.

Lemma check_catalog_spec seen l : check_catalog seen l = Ok tt <->
  Forall (fun e => env_Valid e = true) l /\ NoDup (env_EnvironmentID <$> l) /\
  forall e, e ∈ l -> env_EnvironmentID e ∉ seen.
Proof.
  revert seen. induction l as [|e l IH]; intros seen; cbn [check_catalog].
  { split; [|done]. intros _. split_and!; [constructor..|]. by intros e []%elem_of_nil. }
  destruct (env_Valid e) eqn:Ev; cbn [negb reject_if rbind].
  2:{ split; [done|]. intros (Hf & _). apply Forall_cons in Hf as [? _]. congruence. }
  case_bool_decide as Hin; cbn [reject_if rbind].
  { split; [done|]. intros (_ & _ & Hs). exfalso. by apply (Hs e); [left|]. }
  rewrite IH. cbn [fmap list_fmap]. rewrite Forall_cons, NoDup_cons. split.
  - intros (Hf & Hnd & Hs). split_and!; try done.
    + intros (e' & E & He')%list_elem_of_fmap. apply (Hs e' He'). rewrite E. left.
    + intros e' [->|He']%elem_of_cons; [done|]. specialize (Hs e' He'). set_solver.
  - intros ([_ Hf] & [Hni Hnd] & Hs). split_and!; try done. intros e' He' [E|H]%elem_of_cons.
    + apply Hni. rewrite <- E. by apply list_elem_of_fmap_2.
    + by apply (Hs e'); [right|].
Qed.

Lemma NoDup_fmap_inj {A B} (f : A -> B) l x y : NoDup (f <$> l) -> x ∈ l -> y ∈ l -> f x = f y -> x = y.
Proof.
  intros Hnd [i Hi]%list_elem_of_lookup [j Hj]%list_elem_of_lookup E.
  assert (i = j) as ->; [|congruence]. eapply NoDup_lookup; [exact Hnd|..]; rewrite list_lookup_fmap.
  - by rewrite Hi.
  - by rewrite Hj, E.
Qed.

Lemma str_lt_asym (a b : string) : str_le a b /\ a <> b -> str_le b a /\ b <> a -> False.
Proof. intros [H1 N] [H2 _]. apply N. by apply (anti_symm str_le). Qed.

Lemma env_not_after_ids a b : env_not_after a b -> env_not_after b a -> env_EnvironmentID a = env_EnvironmentID b.
Proof.
  rewrite !env_not_after_spec. intros H1 H2. destruct H1 as [?|[? H1]]; [destruct H2 as [?|[? _]]; lia|].
  destruct H2 as [?|[_ H2]]; [lia|]. destruct H1 as [H1|[E1 H1]], H2 as [H2|[E2 H2]];
    [by destruct (str_lt_asym _ _ H1 H2)|destruct H1; congruence|destruct H2; congruence|].
  destruct H1 as [H1|[H1 _]], H2 as [H2|[H2 _]]; [by destruct (str_lt_asym _ _ H1 H2)|done..].
Qed.

Lemma catalog_sorted_unique l l' : l ≡ₚ l' -> NoDup (env_EnvironmentID <$> l) ->
  merge_sort env_not_after l = merge_sort env_not_after l'.
Proof.
  intros Hp Hnd. apply (StronglySorted_unique_strong env_not_after).
  - intros a b Ha Hb Hab Hba. rewrite merge_sort_Permutation in Ha, Hb. rewrite <- Hp in Hb.
    eapply NoDup_fmap_inj; [exact Hnd|done..|]. by apply env_not_after_ids.
  - apply (StronglySorted_merge_sort env_not_after).
  - apply (StronglySorted_merge_sort env_not_after).
  - by rewrite !merge_sort_Permutation.
Qed.

(** The catalog is a canonical snapshot: it does not depend on the order in
    which the attestations are given, it is valid, it holds exactly the given
    attestations, and every one of them is found by its digest. *)
Theorem NewEnvironmentCatalog_canonical l l' c : l ≡ₚ l' -> NewEnvironmentCatalog l = Ok c ->
  NewEnvironmentCatalog l' = Ok c /\ cat_Valid c = true /\ cat_environments c ≡ₚ l /\
  forall e, e ∈ l -> exists e', FindDigest c (env_Digest e) = Some e' /\ e' ∈ l /\ env_Digest e' = env_Digest e.
Proof.
  intros Hp H.
  assert (Hnew : forall k, l ≡ₚ k -> NewEnvironmentCatalog k = Ok c /\ cat_environments c = merge_sort env_not_after l).
  { intros k Hk. unfold NewEnvironmentCatalog in *. rewrite <- (Permutation_length Hk).
    destruct (_ || _); cbn [reject_if rbind] in *; [done|].
    destruct (check_catalog [] l) as [[]|] eqn:E; cbn [rbind] in H; [|done]. injection H as <-.
    apply check_catalog_spec in E as (Hf & Hnd & _). rewrite <- (catalog_sorted_unique l k) by done.
    assert (check_catalog [] k = Ok tt) as ->; [|done]. apply check_catalog_spec.
    split_and!; [by rewrite <- Hk|by rewrite <- Hk|]. intros e _. apply not_elem_of_nil. }
  destruct (Hnew l' Hp) as [Hl' Hc].
  assert (Hperm : cat_environments c ≡ₚ l) by (rewrite Hc; apply merge_sort_Permutation).
  assert (Hv : cat_Valid c = true).
  { unfold cat_Valid. destruct (Hnew (cat_environments c)) as [-> _]; [by symmetry|].
    rewrite (Permutation_length Hperm). unfold NewEnvironmentCatalog in H. destruct (_ || _) eqn:E; [done|].
    cbn [reject_if rbind] in H. destruct (check_catalog [] l) as [[]|]; cbn [rbind] in H; [|done]. injection H as <-.
    cbn [cat_digest cat_environments orb]. rewrite bool_decide_false by done. by apply bool_decide_eq_true. }
  split_and!; [done..|]. intros e He. unfold FindDigest. rewrite Hv. cbn [negb]. rewrite <- Hperm in He.
  destruct (list_find (fun e' => env_Digest e' = env_Digest e) (cat_environments c)) as [[i e']|] eqn:Ef.
  - apply list_find_Some in Ef as (Hi & Ed & _). exists e'. split_and!; [done| |done].
    rewrite <- Hperm. by eapply list_elem_of_lookup_2.
  - apply list_find_None in Ef. rewrite Forall_forall in Ef. by destruct (Ef e He).
Qed.

(** ** Witnesses *)
Definition demo_caps : CapabilitySet := {| set_ids := ["toolchain.go"; "toolchain.go.v1-26"] |}.
Definition demo_env1 : EnvironmentAttestation :=
  match NewEnvironmentAttestation " env-a " ClassWorkcell 3 demo_caps with
  | Ok a => a
  | Err _ => {| env_EnvironmentID := ""; env_Class := ""; env_Generation := 0; env_Capabilities := demo_caps; env_Digest := "" |}
  end.
Definition demo_env2 : EnvironmentAttestation :=
  match NewEnvironmentAttestation "env-b" ClassL3Sandbox 1 {| set_ids := [] |} with
  | Ok a => a
  | Err _ => {| env_EnvironmentID := ""; env_Class := ""; env_Generation := 0; env_Capabilities := demo_caps; env_Digest := "" |}
  end.
Definition demo_record : EnvironmentRecord :=
  {| er_EnvironmentID := env_EnvironmentID demo_env1; er_Class := env_Class demo_env1;
     er_Generation := env_Generation demo_env1; er_Capabilities := set_ids (env_Capabilities demo_env1);
     er_Digest := env_Digest demo_env1 |}.

Lemma attestation_roundtrip_witness :
  record_Attestation demo_record = Ok demo_env1 /\
  env_ok demo_env1 /\ er_Capabilities demo_record = set_ids (env_Capabilities demo_env1) /\
  er_Digest demo_record = attestationDigest demo_env1.
Proof.
  apply (attestation_roundtrip " env-a " ClassWorkcell 3 demo_caps demo_env1 demo_record demo_record demo_env1);
    vm_compute; reflexivity.
Defined.

Definition demo_catalog : EnvironmentCatalog :=
  {| cat_environments := [demo_env2; demo_env1]; cat_digest := environmentCatalogDigest [demo_env2; demo_env1] |}.

Lemma NewEnvironmentCatalog_canonical_witness :
  NewEnvironmentCatalog [demo_env2; demo_env1] = Ok demo_catalog /\ cat_Valid demo_catalog = true /\
  cat_environments demo_catalog ≡ₚ [demo_env1; demo_env2] /\
  forall e, e ∈ [demo_env1; demo_env2] ->
    exists e', FindDigest demo_catalog (env_Digest e) = Some e' /\ e' ∈ [demo_env1; demo_env2] /\ env_Digest e' = env_Digest e.
Proof.
  apply (NewEnvironmentCatalog_canonical [demo_env1; demo_env2] [demo_env2; demo_env1] demo_catalog).
  - constructor.
  - vm_compute. reflexivity.
Defined.
