(* ===== verification/DevResolver.v ===== *)
(** * Environment resolution: [internal/development/resolver.go]

    [Resolve] chooses one environment for a list of requirements inside the
    authority policy of an objective. *)

From S2P Require Import Prelude GoStrings GoRegexp Sha256 DevCapability.

Abbreviation ResolutionFailure := string (only parsing).
Definition ResolutionFailurePolicy : ResolutionFailure := "policy".
Definition ResolutionFailureCapabilities : ResolutionFailure := "capabilities".
Definition ErrNoCompatibleEnvironment : error := "no compatible development environment".

Record ResolutionError := { rerr_Reason : ResolutionFailure; rerr_Missing : list CapabilityID }.

(** [ResolutionError.Error] of a non-nil error; [%v] prints a slice in brackets. *)
Definition resolution_error_text (e : ResolutionError) : error :=
  match rerr_Missing e with
  | [] => ErrNoCompatibleEnvironment +:+ ": " +:+ rerr_Reason e
  | m => ErrNoCompatibleEnvironment +:+ ": " +:+ rerr_Reason e +:+ " missing=[" +:+ Join m " " +:+ "]"
  end.

Record Resolution := { res_Environment : EnvironmentAttestation; res_Migrated : bool }.

(** What [Resolve] returns: a resolution, a typed failure, or a plain error. *)
Inductive resolve_result :=
| Resolved (r : Resolution)
| Unresolved (e : ResolutionError)
| Rejected (e : error).

Definition resolve_error (r : resolve_result) : result Resolution :=
  match r with
  | Resolved r => Ok r
  | Unresolved e => Err (resolution_error_text e)
  | Rejected e => Err e
  end.

Record resolutionCandidate := {
  rc_environment : EnvironmentAttestation; rc_tier : AuthorityTier; rc_missing : list CapabilityID }.

Definition ErrRequirement : error := "development capability requirement is invalid".

Definition normalizeRequirementList (requirements : list Requirement) : result (list Requirement) :=
  check reject_if (existsb (fun r => negb (MatchString capabilityIDPattern (req_ID r))) requirements) ErrRequirement in
  let? set := capabilitySetFromIDs (req_ID <$> requirements) in
  Ok (Build_Requirement <$> set_ids set).

Definition requirementIDs (requirements : list Requirement) : list CapabilityID := req_ID <$> requirements.

Definition ErrCurrentInvalid : error := "current development environment attestation is invalid".
Definition ErrGenerationAmbiguous : error := "development environment generation is ambiguous".

(** The loop over the candidates; [seen] maps identities to digests. *)
Fixpoint collect (policy : ResolutionPolicy) (normalized : list Requirement) (seen : list (string * string))
    (candidates : list EnvironmentAttestation) : result (list resolutionCandidate) :=
  match candidates with
  | [] => Ok []
  | candidate :: rest =>
      if negb (env_Valid candidate) then Err ErrAttestation
      else match list_find (fun p => p.1 = env_EnvironmentID candidate) seen with
           | Some (_, (_, digest)) =>
               if digest <>? env_Digest candidate then Err ErrGenerationAmbiguous
               else collect policy normalized seen rest
           | None =>
               let seen := (env_EnvironmentID candidate, env_Digest candidate) :: seen in
               if negb (Allows policy candidate) then collect policy normalized seen rest
               else
                 let? eligible := collect policy normalized seen rest in
                 Ok ({| rc_environment := candidate; rc_tier := tier_of (env_Class candidate);
                        rc_missing := set_Missing (env_Capabilities candidate) normalized |} :: eligible)
           end
  end.

Definition candidate_before (l r : resolutionCandidate) : bool :=
  if bool_decide (length (rc_missing l) = length (rc_missing r)) then
    if rc_tier l <>? rc_tier r then rc_tier l <? rc_tier r
    else if env_Class (rc_environment l) <>? env_Class (rc_environment r) then
      str_lt (env_Class (rc_environment l)) (env_Class (rc_environment r))
    else str_lt (env_EnvironmentID (rc_environment l)) (env_EnvironmentID (rc_environment r))
  else bool_decide (length (rc_missing l) < length (rc_missing r))%nat.

Definition candidate_le (l r : resolutionCandidate) : Prop := candidate_before r l = false.
#[export] Instance candidate_le_dec l r : Decision (candidate_le l r).
Proof. unfold candidate_le. apply _. Defined.

Definition Resolve (requirements : list Requirement) (current : option EnvironmentAttestation)
    (candidates : list EnvironmentAttestation) (policy : ResolutionPolicy) : resolve_result :=
  if negb (policy_valid policy) then Rejected ErrResolutionPolicy
  else match normalizeRequirementList requirements with
  | Err e => Rejected e
  | Ok normalized =>
      let search :=
        match collect policy normalized [] candidates with
        | Err e => Rejected e
        | Ok [] => Unresolved {| rerr_Reason := ResolutionFailurePolicy; rerr_Missing := requirementIDs normalized |}
        | Ok eligible =>
            match merge_sort candidate_le eligible with
            | [] => Rejected ""
            | best :: _ =>
                match rc_missing best with
                | [] => Resolved {| res_Environment := rc_environment best;
                                    res_Migrated := match current with
                                                    | Some c => env_Digest c <>? env_Digest (rc_environment best)
                                                    | None => false
                                                    end |}
                | m => Unresolved {| rerr_Reason := ResolutionFailureCapabilities; rerr_Missing := m |}
                end
            end
        end in
      match current with
      | None => search
      | Some c =>
          if negb (env_Valid c) then Rejected ErrCurrentInvalid
          else if Allows policy c && bool_decide (set_Missing (env_Capabilities c) normalized = []) then
            Resolved {| res_Environment := c; res_Migrated := false |}
          else search
      end
  end.

(** ** Requirements *)
Definition canonical_reqs (l : list Requirement) : Prop := canonical_ids (req_ID <$> l).

Lemma fmap_req_ID (ids : list string) : req_ID <$> (Build_Requirement <$> ids) = ids.
Proof. induction ids as [|x ids IH]; [done|]. cbn. by f_equal. Qed.

Lemma fmap_Build_Requirement (l : list Requirement) : Build_Requirement <$> (req_ID <$> l) = l.
Proof. induction l as [|[x] l IH]; [done|]. cbn. by f_equal. Qed.

Lemma existsb_requirements l : existsb (fun r => negb (MatchString capabilityIDPattern (req_ID r))) l = false <->
  Forall is_capability (req_ID <$> l).
Proof.
  rewrite Forall_fmap. induction l as [|r l IH]; [done|]. cbn [existsb]. rewrite orb_false_iff, IH, Forall_cons.
  unfold is_capability. by rewrite negb_false_iff.
Qed.

Lemma normalizeRequirementList_spec l k : normalizeRequirementList l = Ok k ->
  canonical_reqs k /\ Forall is_capability (req_ID <$> l) /\ forall x, x ∈ req_ID <$> k <-> x ∈ req_ID <$> l.
Proof.
  unfold normalizeRequirementList. destruct (existsb _ l) eqn:E; cbn [reject_if rbind]; [done|].
  destruct (capabilitySetFromIDs _) as [s|] eqn:Es; cbn [rbind]; [|done]. intros [= <-].
  apply capabilitySetFromIDs_spec in Es as (Hc & Hf & Hx). unfold canonical_reqs. by rewrite fmap_req_ID.
Qed.

Lemma normalizeRequirementList_total l : Forall is_capability (req_ID <$> l) -> is_ok (normalizeRequirementList l).
Proof.
  intros Hf. unfold normalizeRequirementList. rewrite (proj2 (existsb_requirements l) Hf). cbn [reject_if rbind].
  pose proof (capabilitySetFromIDs_total _ Hf). by destruct (capabilitySetFromIDs _).
Qed.

Lemma normalizeRequirementList_canonical l : canonical_reqs l -> normalizeRequirementList l = Ok l.
Proof.
  intros Hc. pose proof Hc as (_ & _ & Hf). unfold normalizeRequirementList.
  rewrite (proj2 (existsb_requirements l) Hf). cbn [reject_if rbind].
  rewrite capabilitySetFromIDs_canonical by done. cbn [rbind set_ids]. by rewrite fmap_Build_Requirement.
Qed.

(** ** The order of candidates *)
Lemma candidate_le_spec l r : candidate_le l r <->
  (length (rc_missing l) < length (rc_missing r))%nat \/
  (length (rc_missing l) = length (rc_missing r) /\
   (rc_tier l < rc_tier r \/
    (rc_tier l = rc_tier r /\
     ((str_le (env_Class (rc_environment l)) (env_Class (rc_environment r)) /\
       env_Class (rc_environment l) <> env_Class (rc_environment r)) \/
      (env_Class (rc_environment l) = env_Class (rc_environment r) /\
       str_le (env_EnvironmentID (rc_environment l)) (env_EnvironmentID (rc_environment r))))))).
Proof.
  unfold candidate_le, candidate_before. case_bool_decide as E1.
  2:{ rewrite bool_decide_eq_false. split; [intros; left; lia|]. intros [?|[? _]]; [lia|congruence]. }
  case_bool_decide as E2; cbn [negb].
  2:{ rewrite Z.ltb_ge. split; [intros; right; split; [done|]; left; lia|]. intros [?|[_ [?|[? _]]]]; [lia|lia|congruence]. }
  case_bool_decide as E3; cbn [negb].
  2:{ rewrite str_lt_ge. split; [intros; right; split; [done|]; right; split; [done|]; left; split; [done|congruence]|].
      intros [?|[_ [?|[_ [[? _]|[? _]]]]]]; [lia|lia|done|congruence]. }
  rewrite str_lt_ge. split; [intros; right; split; [done|]; right; split; [done|]; by right|].
  intros [?|[_ [?|[_ [[_ ?]|[_ ?]]]]]]; [lia|lia|congruence|done].
Qed.

#[export] Instance candidate_le_total : Total candidate_le.
Proof.
  intros a b. rewrite !candidate_le_spec.
  destruct (Nat.lt_total (length (rc_missing a)) (length (rc_missing b))) as [?|[?|?]]; [by left; left| |by right; left].
  destruct (Z.lt_total (rc_tier a) (rc_tier b)) as [?|[?|?]]; [left; right; auto| |right; right; auto].
  destruct (decide (env_Class (rc_environment a) = env_Class (rc_environment b))).
  - destruct (total str_le (env_EnvironmentID (rc_environment a)) (env_EnvironmentID (rc_environment b)));
      [left|right]; right; (split; [done|]); right; (split; [done|]); by right.
  - destruct (total str_le (env_Class (rc_environment a)) (env_Class (rc_environment b)));
      [left|right]; right; (split; [done|]); right; (split; [done|]); left; by split.
Qed.

#[export] Instance candidate_le_trans : Transitive candidate_le.
Proof.
  intros a b c. rewrite !candidate_le_spec. intros [H1|[E1 H1]] [H2|[E2 H2]]; [left; lia..|].
  right. split; [congruence|]. destruct H1 as [H1|[F1 H1]], H2 as [H2|[F2 H2]]; [left; lia..|].
  right. split; [congruence|]. destruct H1 as [H1|[G1 H1]], H2 as [H2|[G2 H2]]; rewrite ?G1, ?G2 in *;
    [left; by eapply str_lt_trans_strict|by left|by left|right; split; [done|by etrans]].
Qed.

(** ** The candidates considered *)
(** The first candidate with its identity. *)
Definition first_of (candidates : list EnvironmentAttestation) (e : EnvironmentAttestation) : Prop :=
  exists l1 l2, candidates = l1 ++ e :: l2 /\ env_EnvironmentID e ∉ env_EnvironmentID <$> l1.

Definition candidate_of (normalized : list Requirement) (e : EnvironmentAttestation) : resolutionCandidate :=
  {| rc_environment := e; rc_tier := tier_of (env_Class e); rc_missing := set_Missing (env_Capabilities e) normalized |}.

Lemma first_of_cons e' cands e : first_of (e' :: cands) e <->
  e = e' \/ (first_of cands e /\ env_EnvironmentID e <> env_EnvironmentID e').
Proof.
  split.
  - intros ([|x l1] & l2 & E & Hni); injection E as -> ->; [by left|]. right. cbn in Hni. split; [|set_solver].
    exists l1, l2. set_solver.
  - intros [->|[(l1 & l2 & -> & Hni) Hne]]; [by exists [], cands; split; [|apply not_elem_of_nil]|].
    exists (e' :: l1), l2. split; [done|]. cbn. set_solver.
Qed.

Lemma seen_find id (seen : list (string * string)) :
  match list_find (fun p => p.1 = id) seen with
  | Some (_, p) => p.1 = id /\ p ∈ seen
  | None => id ∉ seen.*1
  end.
Proof.
  destruct (list_find _ seen) as [[i p]|] eqn:E.
  - apply list_find_Some in E as (Hi & Hp & _). split; [done|]. by eapply list_elem_of_lookup_2.
  - apply list_find_None in E. rewrite Forall_forall in E. intros (p & -> & Hp)%list_elem_of_fmap. by apply (E p).
Qed.

Lemma collect_spec policy normalized seen cands el : collect policy normalized seen cands = Ok el ->
  Forall (fun e => env_Valid e = true) cands /\
  forall k, k ∈ el <-> exists e, k = candidate_of normalized e /\ first_of cands e /\
    env_EnvironmentID e ∉ seen.*1 /\ Allows policy e = true.
Proof.
  revert seen el. induction cands as [|c cands IH]; intros seen el; cbn [collect].
  { intros [= <-]. split; [constructor|]. intros k. split; [by intros []%elem_of_nil|].
    intros (e & _ & ([|] & l2 & ? & _) & _); done. }
  destruct (env_Valid c) eqn:Ev; cbn [negb]; [|done]. pose proof (seen_find (env_EnvironmentID c) seen) as Hfind.
  destruct (list_find _ seen) as [[i [id digest]]|].
  - destruct Hfind as [E Hin]. cbn in E. subst id. case_bool_decide; cbn [negb]; [|done].
    intros (Hf & Hk)%IH. split; [by constructor|]. intros k. rewrite Hk. apply exist_proper. intros e.
    rewrite first_of_cons. assert (Hc : env_EnvironmentID c ∈ seen.*1) by (apply list_elem_of_fmap; by exists (env_EnvironmentID c, digest)).
    split; [intros (? & ? & ? & ?); split_and!; try done; right; split; [done|congruence]|].
    intros (? & [->|[? ?]] & ? & ?); [done|by split_and!].
  - assert (Hsplit : forall e, first_of (c :: cands) e /\ env_EnvironmentID e ∉ seen.*1 <->
      e = c \/ (first_of cands e /\ env_EnvironmentID e ∉ ((env_EnvironmentID c, env_Digest c) :: seen).*1)).
    { intros e. rewrite first_of_cons. cbn. rewrite not_elem_of_cons. split; [|intros [->|[? [? ?]]]; tauto]. tauto. }
    destruct (Allows policy c) eqn:Ea; cbn [negb].
    + destruct (collect _ _ _ cands) as [el'|] eqn:E; cbn [rbind]; [|done]. intros [= <-].
      apply IH in E as (Hf & Hk). split; [by constructor|]. intros k. rewrite elem_of_cons, Hk. split.
      * intros [->|(e & -> & H1 & H2 & H3)]; [exists c; destruct (proj2 (Hsplit c)); tauto|exists e; destruct (proj2 (Hsplit e)); tauto].
      * intros (e & -> & H1 & H2 & H3). destruct (proj1 (Hsplit e) (conj H1 H2)) as [->|[? ?]]; [by left|right].
        by exists e.
    + intros (Hf & Hk)%IH. split; [by constructor|]. intros k. rewrite Hk. apply exist_proper. intros e.
      specialize (Hsplit e). split; [tauto|]. intros (H1 & H2 & H3 & H4).
      destruct (proj1 Hsplit (conj H2 H3)) as [->|?]; [congruence|tauto].
Qed.

Definition unambiguous (cands : list EnvironmentAttestation) : Prop :=
  forall e e', e ∈ cands -> e' ∈ cands -> env_EnvironmentID e = env_EnvironmentID e' -> env_Digest e = env_Digest e'.

Lemma collect_total policy normalized seen cands : Forall (fun e => env_Valid e = true) cands -> unambiguous cands ->
  (forall p e, p ∈ seen -> e ∈ cands -> p.1 = env_EnvironmentID e -> p.2 = env_Digest e) ->
  is_ok (collect policy normalized seen cands).
Proof.
  revert seen. induction cands as [|c cands IH]; intros seen Hv Hu Hs; [done|]. cbn [collect].
  apply Forall_cons in Hv as [Hc Hv]. rewrite Hc. cbn [negb].
  assert (Hu' : unambiguous cands) by (intros e e' He He'; apply Hu; by right).
  pose proof (seen_find (env_EnvironmentID c) seen) as Hfind. destruct (list_find _ seen) as [[i [id digest]]|].
  - destruct Hfind as [E Hin]. specialize (Hs _ c Hin ltac:(left) E) as Hd. cbn in Hd. subst digest.
    rewrite bool_decide_true by done. cbn [negb]. apply IH; [done|done|]. intros p e Hp He. apply Hs; [done|by right].
  - assert (Hok : is_ok (collect policy normalized ((env_EnvironmentID c, env_Digest c) :: seen) cands)).
    { apply IH; [done|done|]. intros p e [->|Hp]%elem_of_cons He Ep; cbn in *.
      - apply Hu; [left|by right|done].
      - apply Hs; [done|by right|done]. }
    destruct (Allows policy c); cbn [negb]; [|done]. by destruct (collect policy normalized _ cands).
Qed.

(** ** What resolution promises *)
Definition satisfies (requirements : list Requirement) (policy : ResolutionPolicy) (e : EnvironmentAttestation) : Prop :=
  env_Valid e = true /\ env_Class e ∈ rp_allowed policy /\
  Forall (fun r => req_ID r ∈ set_ids (env_Capabilities e)) requirements.

(** At most the authority of: the tier, then the class, then the identity. *)
Definition authority_le (a b : EnvironmentAttestation) : Prop :=
  tier_of (env_Class a) < tier_of (env_Class b) \/
  (tier_of (env_Class a) = tier_of (env_Class b) /\
   (str_lt (env_Class a) (env_Class b) = true \/
    (env_Class a = env_Class b /\ str_le (env_EnvironmentID a) (env_EnvironmentID b)))).

Definition canonical_env (e : EnvironmentAttestation) : Prop := canonical_ids (set_ids (env_Capabilities e)).

Lemma Missing_requirements e reqs normalized : canonical_env e -> normalizeRequirementList reqs = Ok normalized ->
  set_Missing (env_Capabilities e) normalized = [] <-> Forall (fun r => req_ID r ∈ set_ids (env_Capabilities e)) reqs.
Proof.
  intros Hc Hn. rewrite set_Missing_nil by done. apply normalizeRequirementList_spec in Hn as (_ & _ & Hx).
  rewrite !Forall_forall. assert (Hin : forall l k : list Requirement, (forall x, x ∈ req_ID <$> l -> x ∈ req_ID <$> k) ->
    (forall r, r ∈ k -> req_ID r ∈ set_ids (env_Capabilities e)) -> forall r, r ∈ l -> req_ID r ∈ set_ids (env_Capabilities e)).
  { intros l k Hlk Hk r Hr. destruct (proj1 (list_elem_of_fmap req_ID k (req_ID r))) as (r' & -> & Hr'); [|by apply Hk].
    by apply Hlk, list_elem_of_fmap_2. }
  split; apply Hin; apply Hx.
Qed.

Lemma Allows_satisfies reqs normalized policy e : policy_ok policy -> canonical_env e ->
  normalizeRequirementList reqs = Ok normalized ->
  Allows policy e = true /\ set_Missing (env_Capabilities e) normalized = [] <-> satisfies reqs policy e.
Proof.
  intros Hp Hc Hn. unfold satisfies. rewrite Allows_spec by done. rewrite (Missing_requirements e reqs) by done. tauto.
Qed.

(** The best candidate. *)
Lemma best_candidate el best rest : merge_sort candidate_le el = best :: rest ->
  best ∈ el /\ forall k, k ∈ el -> candidate_le best k.
Proof.
  intros E. assert (Hp : best :: rest ≡ₚ el) by (rewrite <- E; apply merge_sort_Permutation). split.
  - rewrite <- Hp. left.
  - intros k Hk. rewrite <- Hp in Hk. pose proof (StronglySorted_merge_sort candidate_le el) as Hs. rewrite E in Hs.
    apply StronglySorted_inv in Hs as [_ Hall]. apply elem_of_cons in Hk as [->|Hk].
    + by destruct (total candidate_le best best).
    + rewrite Forall_forall in Hall. by apply Hall.
Qed.

Lemma search_resolved policy reqs normalized cands el best rest : policy_ok policy -> Forall canonical_env cands ->
  normalizeRequirementList reqs = Ok normalized -> collect policy normalized [] cands = Ok el ->
  merge_sort candidate_le el = best :: rest ->
  first_of cands (rc_environment best) /\ rc_missing best = set_Missing (env_Capabilities (rc_environment best)) normalized /\
  Allows policy (rc_environment best) = true /\
  forall e, first_of cands e -> satisfies reqs policy e ->
    rc_missing best = [] /\ authority_le (rc_environment best) e.
Proof.
  intros Hp Hcan Hn Hc Hs. apply collect_spec in Hc as (_ & Hk). apply best_candidate in Hs as [Hin Hbest].
  destruct (proj1 (Hk best) Hin) as (b & -> & Hfirst & _ & Hallow). cbn [rc_environment candidate_of rc_missing].
  split_and!; try done. intros e He Hsat.
  assert (Hce : canonical_env e).
  { destruct He as (l1 & l2 & -> & _). rewrite Forall_forall in Hcan. apply Hcan, elem_of_app. right. left. }
  apply (Allows_satisfies reqs normalized) in Hsat as [Ha Hm]; [|done..].
  specialize (Hbest (candidate_of normalized e)). rewrite candidate_le_spec in Hbest. cbn in Hbest. rewrite Hm in Hbest.
  destruct Hbest as [Hlt|[Hlen Hrank]]; [apply Hk; exists e; split_and!; try done; apply not_elem_of_nil|cbn in Hlt; lia|].
  cbn in Hlen. split; [by apply nil_length_inv|]. unfold authority_le.
  destruct Hrank as [?|[? [?|?]]]; [by left|right; split; [done|]; left; by apply str_lt_spec|right; split; [done|]; by right].
Qed.

(** Resolution stays inside the objective's authority and takes the least of it.
    What it returns is one valid environment of an allowed class that alone
    provides every requirement. The current environment is kept whenever it does;
    otherwise no candidate that provides every requirement has a lower authority
    (tier, then class, then identity), and the migration flag tells whether the
    attestation changed. *)
Theorem Resolve_least_authority reqs current cands policy r :
  Forall canonical_env cands -> (forall c, current = Some c -> canonical_env c) ->
  Resolve reqs current cands policy = Resolved r ->
  satisfies reqs policy (res_Environment r) /\
  ((current = Some (res_Environment r) /\ res_Migrated r = false) \/
   ((forall c, current = Some c -> ~ satisfies reqs policy c) /\
    first_of cands (res_Environment r) /\
    (forall e, first_of cands e -> satisfies reqs policy e -> authority_le (res_Environment r) e) /\
    (res_Migrated r = true <-> exists c, current = Some c /\ env_Digest c <> env_Digest (res_Environment r)))).
Proof.
  intros Hcan Hcur. unfold Resolve. destruct (policy_valid policy) eqn:Ep; cbn [negb]; [|done].
  apply policy_valid_spec in Ep. destruct (normalizeRequirementList reqs) as [normalized|] eqn:En; [|done].
  set (search := match collect policy normalized [] cands with Err e => _ | Ok _ => _ end).
  intros H.
  assert (Hsearch : (forall c, current = Some c -> ~ satisfies reqs policy c) -> search = Resolved r ->
    satisfies reqs policy (res_Environment r) /\ first_of cands (res_Environment r) /\
    (forall e, first_of cands e -> satisfies reqs policy e -> authority_le (res_Environment r) e) /\
    (res_Migrated r = true <-> exists c, current = Some c /\ env_Digest c <> env_Digest (res_Environment r))).
  { intros Hno. unfold search. destruct (collect policy normalized [] cands) as [el|] eqn:Ec; [|done].
    destruct el as [|x el]; [done|]. destruct (merge_sort candidate_le (x :: el)) as [|best rest] eqn:Es; [done|].
    destruct (search_resolved policy reqs normalized cands _ best rest Ep Hcan En Ec Es) as (H1 & H2 & H3 & H4).
    destruct (rc_missing best) eqn:Em; [|done]. intros [= <-]. cbn [res_Environment res_Migrated]. split_and!.
    - apply (Allows_satisfies reqs normalized); [done| |done|by split].
      destruct H1 as (l1 & l2 & -> & _). rewrite Forall_forall in Hcan. apply Hcan, elem_of_app. right. left.
    - done.
    - intros e He Hsat. by apply H4.
    - destruct current as [c|]; [|split; [done|by intros (? & ? & _)]]. rewrite negb_true_iff, bool_decide_eq_false.
      split; [by exists c|]. by intros (? & [= <-] & ?). }
  destruct current as [c|]; [|destruct Hsearch as (? & ? & ? & ?); [done|done|split; [done|by right]]].
  destruct (env_Valid c) eqn:Ev; cbn [negb] in H; [|done].
  destruct (Allows policy c && _) eqn:Ea; breflect.
  - injection H as <-. split; [|by left]. apply (Allows_satisfies reqs normalized); [done|by apply Hcur|done|by split].
  - destruct Hsearch as (? & ? & ? & ?); [|done|split; [done|right; split; [|done]]].
    all: intros c' [= <-] Hsat; apply (Allows_satisfies reqs normalized) in Hsat as [Hal Hmiss]; [|done|by apply Hcur|done];
      rewrite Hal, bool_decide_true in Ea by done; done.
Qed.

(** Resolution finds an environment whenever one will do: if the requirements
    are well-formed names, the attestations valid and unambiguous, and the current
    or some candidate environment is allowed and provides them all, [Resolve]
    succeeds. *)
Theorem Resolve_complete reqs current cands policy e :
  policy_valid policy = true -> Forall is_capability (req_ID <$> reqs) ->
  Forall env_ok cands -> unambiguous cands -> (forall c, current = Some c -> env_ok c) ->
  first_of cands e \/ current = Some e -> satisfies reqs policy e ->
  exists r, Resolve reqs current cands policy = Resolved r.
Proof.
  intros Hpv Hreq Hok Hun Hcur He Hsat. unfold Resolve. rewrite Hpv. cbn [negb]. apply policy_valid_spec in Hpv as Hp.
  pose proof (normalizeRequirementList_total reqs Hreq) as Hn.
  destruct (normalizeRequirementList reqs) as [normalized|] eqn:En; [|done]. clear Hn.
  assert (Hcan : Forall canonical_env cands) by (eapply Forall_impl; [exact Hok|]; by intros ? [_ ?]).
  assert (Hval : Forall (fun e => env_Valid e = true) cands) by (eapply Forall_impl; [exact Hok|]; by intros ? [? _]).
  pose proof (collect_total policy normalized [] cands Hval Hun) as Hc.
  destruct (collect policy normalized [] cands) as [el|] eqn:Ec; [|destruct Hc; by intros ? ? []%elem_of_nil].
  set (search := match el with [] => _ | _ => _ end).
  assert (Hsearch : first_of cands e -> exists r, search = Resolved r).
  { intros Hfirst. unfold search. destruct el as [|x el].
    - exfalso. apply (elem_of_nil (candidate_of normalized e)). apply (collect_spec _ _ _ _ _ Ec). exists e.
      split_and!; [done|done|apply not_elem_of_nil|]. apply Allows_spec; [done|]. by destruct Hsat as (? & ? & _).
    - destruct (merge_sort candidate_le (x :: el)) as [|best rest] eqn:Es.
      + pose proof (merge_sort_Permutation candidate_le (x :: el)) as Hperm. rewrite Es in Hperm.
        by apply Permutation_nil_l in Hperm.
      + destruct (search_resolved policy reqs normalized cands _ best rest Hp Hcan En Ec Es) as (_ & _ & _ & H4).
        destruct (H4 e Hfirst Hsat) as [-> _]. eauto. }
  destruct current as [c|]; [|destruct He as [?|?]; [by apply Hsearch|done]].
  destruct (Hcur c eq_refl) as [Hcv Hcc]. rewrite Hcv. cbn [negb].
  destruct (Allows policy c && _) eqn:Ea; [eauto|]. destruct He as [He|He]; [by apply Hsearch|].
  injection He as ->. apply (Allows_satisfies reqs normalized) in Hsat as [H1 H2]; [|done..].
  by rewrite H1, bool_decide_true in Ea.
Qed.

(** ** Witnesses *)
Definition demo_policy : ResolutionPolicy := {| rp_maxTier := TierToolbox; rp_allowed := [ClassL3Sandbox; ClassWorkcell] |}.
Definition demo_reqs : list Requirement := [{| req_ID := "toolchain.go" |}].
Definition demo_resolution : Resolution := {| res_Environment := demo_env1; res_Migrated := true |}.

Lemma demo_env1_ok : env_ok demo_env1.
Proof.
  apply (NewEnvironmentAttestation_ok " env-a " ClassWorkcell 3 demo_caps demo_env1). vm_compute. reflexivity.
Qed.
Lemma demo_env2_ok : env_ok demo_env2.
Proof.
  apply (NewEnvironmentAttestation_ok "env-b" ClassL3Sandbox 1 {| set_ids := [] |} demo_env2). vm_compute. reflexivity.
Qed.

Lemma Resolve_least_authority_witness :
  satisfies demo_reqs demo_policy demo_env1.
Proof.
  apply (Resolve_least_authority demo_reqs (Some demo_env2) [demo_env2; demo_env1] demo_policy demo_resolution).
  - constructor; [apply demo_env2_ok|]. constructor; [apply demo_env1_ok|constructor].
  - intros c [= <-]. apply demo_env2_ok.
  - vm_compute. reflexivity.
Defined.

Lemma Resolve_complete_witness : exists r, Resolve demo_reqs None [demo_env2; demo_env1] demo_policy = Resolved r.
Proof.
  apply (Resolve_complete demo_reqs None [demo_env2; demo_env1] demo_policy demo_env1).
  - vm_compute. reflexivity.
  - repeat constructor.
  - constructor; [apply demo_env2_ok|]. constructor; [apply demo_env1_ok|constructor].
  - intros e e' He He' E. apply list_elem_of_In in He, He'. destruct He as [<-|[<-|[]]], He' as [<-|[<-|[]]]; try reflexivity;
      vm_compute in E; discriminate.
  - intros c Hc. discriminate.
  - left. exists [demo_env2], []. split; [reflexivity|]. vm_compute. intros Hin. inversion Hin as [|? ? ? Hin']. inversion Hin'.
  - split; [vm_compute; reflexivity|]. split.
    + right. left.
    + repeat constructor.
Defined.
