(* ===== verification/DevAttempt.v ===== *)
(** * Execution attempts: [internal/development/attempt.go]

    An attempt binds one source and one environment to one step; failures are
    classified, and the class decides the only legal continuation. *)

From S2P Require Import Prelude GoStrings GoRegexp Sha256 DevCapability.

Abbreviation FailureClass := string (only parsing).
Definition FailureCode : FailureClass := "code_failure".
Definition FailureCapabilityMissing : FailureClass := "capability_missing".
Definition FailureCapabilityDrift : FailureClass := "capability_drift".
Definition FailureDependencyMissing : FailureClass := "dependency_missing".
Definition FailureServiceUnavailable : FailureClass := "service_unavailable".
Definition FailureKernelSemantics : FailureClass := "kernel_semantics_missing".
Definition FailureCIContract : FailureClass := "ci_contract_missing".
Definition FailureFilesystemMapping : FailureClass := "filesystem_mapping_missing".
Definition FailurePlatformMismatch : FailureClass := "platform_mismatch".
Definition FailureExternalTransient : FailureClass := "external_transient".
Definition FailurePolicyDenied : FailureClass := "policy_denied".
Definition FailureReconciliationNeeded : FailureClass := "reconciliation_required".

(** The [ContinuationAction] constants. *)
Inductive ContinuationAction :=
| ActionFixCode | ActionProvisionOrMigrate | ActionRetrySameEnvironment | ActionStopPolicy | ActionReconcile.
#[export] Instance ContinuationAction_eq_dec : EqDecision ContinuationAction.
Proof. solve_decision. Defined.

Definition ContinuationForFailure (class : FailureClass) : option ContinuationAction :=
  if class =? FailureCode then Some ActionFixCode
  else if bool_decide (class ∈ [FailureCapabilityMissing; FailureCapabilityDrift; FailureDependencyMissing;
                                FailureServiceUnavailable; FailureKernelSemantics; FailureCIContract;
                                FailureFilesystemMapping; FailurePlatformMismatch]) then Some ActionProvisionOrMigrate
  else if class =? FailureExternalTransient then Some ActionRetrySameEnvironment
  else if class =? FailurePolicyDenied then Some ActionStopPolicy
  else if class =? FailureReconciliationNeeded then Some ActionReconcile
  else None.

Abbreviation AttemptState := string (only parsing).
Definition AttemptPlanned : AttemptState := "planned".
Definition AttemptRunning : AttemptState := "running".
Definition AttemptSucceeded : AttemptState := "succeeded".
Definition AttemptFailed : AttemptState := "failed".
Definition AttemptCancelled : AttemptState := "cancelled".

Record ExecutionAttempt := {
  at_AttemptID : string; at_StepID : string; at_ParentAttemptID : string; at_SourceDigest : string;
  at_EnvironmentID : string; at_EnvironmentDigest : string; at_EnvironmentGeneration : Z;
  at_Class : ExecutionClass; at_Tier : AuthorityTier; at_State : AttemptState; at_Failure : FailureClass }.
#[export] Instance ExecutionAttempt_eq_dec : EqDecision ExecutionAttempt.
Proof. solve_decision. Defined.

(** Field updates on a copy. *)
Definition at_set_state (a : ExecutionAttempt) (state : AttemptState) (failure : FailureClass) : ExecutionAttempt :=
  {| at_AttemptID := at_AttemptID a; at_StepID := at_StepID a; at_ParentAttemptID := at_ParentAttemptID a;
     at_SourceDigest := at_SourceDigest a; at_EnvironmentID := at_EnvironmentID a;
     at_EnvironmentDigest := at_EnvironmentDigest a; at_EnvironmentGeneration := at_EnvironmentGeneration a;
     at_Class := at_Class a; at_Tier := at_Tier a; at_State := state; at_Failure := failure |}.
Definition at_set_parent (a : ExecutionAttempt) (parent : string) : ExecutionAttempt :=
  {| at_AttemptID := at_AttemptID a; at_StepID := at_StepID a; at_ParentAttemptID := parent;
     at_SourceDigest := at_SourceDigest a; at_EnvironmentID := at_EnvironmentID a;
     at_EnvironmentDigest := at_EnvironmentDigest a; at_EnvironmentGeneration := at_EnvironmentGeneration a;
     at_Class := at_Class a; at_Tier := at_Tier a; at_State := at_State a; at_Failure := at_Failure a |}.

Definition ErrAttempt : error := "development execution attempt is invalid".
Definition ErrAttemptTransition : error := "development execution attempt transition is invalid".
Definition ErrAttemptFailure : error := "development execution attempt failure is invalid".
Definition ErrAttemptPreflight : error := "development execution attempt preflight rejection is invalid".
Definition ErrAttemptContinue : error := "development execution attempt cannot continue".
Definition ErrAttemptMigrate : error := "development execution attempt cannot migrate".

Definition NewExecutionAttempt (attemptID stepID sourceDigest : string) (environment : EnvironmentAttestation) :
    result ExecutionAttempt :=
  let attemptID := TrimSpace attemptID in
  let stepID := TrimSpace stepID in
  let sourceDigest := ToLower (TrimSpace sourceDigest) in
  check reject_if (negb (MatchString identityPattern attemptID) || negb (MatchString identityPattern stepID) ||
                   negb (MatchString sourceDigestPattern sourceDigest) || negb (env_Valid environment)) ErrAttempt in
  Ok {| at_AttemptID := attemptID; at_StepID := stepID; at_ParentAttemptID := ""; at_SourceDigest := sourceDigest;
        at_EnvironmentID := env_EnvironmentID environment; at_EnvironmentDigest := env_Digest environment;
        at_EnvironmentGeneration := env_Generation environment; at_Class := env_Class environment;
        at_Tier := tier_of (env_Class environment); at_State := AttemptPlanned; at_Failure := "" |}.

Definition validIdentity (a : ExecutionAttempt) : bool :=
  if negb (MatchString identityPattern (at_AttemptID a)) || negb (MatchString identityPattern (at_StepID a)) ||
     negb (MatchString identityPattern (at_EnvironmentID a)) || negb (MatchString sourceDigestPattern (at_SourceDigest a)) ||
     (at_EnvironmentGeneration a =? 0) || negb (MatchString sourceDigestPattern (at_EnvironmentDigest a)) then false
  else match Tier (at_Class a) with Some tier => tier =? at_Tier a | None => false end.

(** [ExecutionAttempt.Transition] *)
Definition at_Transition (a : ExecutionAttempt) (next : AttemptState) : result ExecutionAttempt :=
  if negb (validIdentity a) then Err ErrAttempt
  else if next =? at_State a then Ok a
  else
    let allowed :=
      if at_State a =? AttemptPlanned then (next =? AttemptRunning) || (next =? AttemptCancelled)
      else if at_State a =? AttemptRunning then
        (next =? AttemptSucceeded) || (next =? AttemptFailed) || (next =? AttemptCancelled)
      else false in
    if negb allowed then Err ErrAttemptTransition
    else Ok (at_set_state a next (if next <>? AttemptFailed then "" else at_Failure a)).

(** [ExecutionAttempt.Fail] *)
Definition at_Fail (a : ExecutionAttempt) (class : FailureClass) : result ExecutionAttempt :=
  if bool_decide (ContinuationForFailure class = None) || (at_State a <>? AttemptRunning) then Err ErrAttemptFailure
  else Ok (at_set_state a AttemptFailed class).

Definition preflightFailureAllowed (class : FailureClass) : bool :=
  match ContinuationForFailure class with
  | Some action => (action =? ActionProvisionOrMigrate) || (action =? ActionStopPolicy) || (action =? ActionReconcile)
  | None => false
  end.

Definition RejectPreflight (a : ExecutionAttempt) (class : FailureClass) : result ExecutionAttempt :=
  if (at_State a <>? AttemptPlanned) || negb (preflightFailureAllowed class) then Err ErrAttemptPreflight
  else Ok (at_set_state a AttemptFailed class).

Definition ContinueExecutionAttempt (newAttemptID sourceDigest : string) (previous : ExecutionAttempt)
    (environment : EnvironmentAttestation) : result ExecutionAttempt :=
  check reject_if ((at_State previous <>? AttemptFailed) || negb (validIdentity previous) ||
                   negb (env_Valid environment)) ErrAttemptContinue in
  match ContinuationForFailure (at_Failure previous) with
  | None => Err ErrAttemptContinue
  | Some action =>
      let sourceDigest := ToLower (TrimSpace sourceDigest) in
      check reject_if (negb (MatchString sourceDigestPattern sourceDigest)) ErrAttemptContinue in
      check reject_if
        match action with
        | ActionFixCode =>
            (sourceDigest =? at_SourceDigest previous) || (env_Digest environment <>? at_EnvironmentDigest previous)
        | ActionProvisionOrMigrate => env_Digest environment =? at_EnvironmentDigest previous
        | ActionRetrySameEnvironment =>
            (sourceDigest <>? at_SourceDigest previous) || (env_Digest environment <>? at_EnvironmentDigest previous)
        | _ => true
        end ErrAttemptContinue in
      let? next := NewExecutionAttempt newAttemptID (at_StepID previous) sourceDigest environment in
      Ok (at_set_parent next (at_AttemptID previous))
  end.

Definition MigrateExecutionAttempt (newAttemptID sourceDigest : string) (previous : ExecutionAttempt)
    (environment : EnvironmentAttestation) : result ExecutionAttempt :=
  if ContinuationForFailure (at_Failure previous) <>? Some ActionProvisionOrMigrate then Err ErrAttemptMigrate
  else ContinueExecutionAttempt newAttemptID sourceDigest previous environment.

Definition validAttemptContinuation (previous next : ExecutionAttempt) : bool :=
  if (at_State previous <>? AttemptFailed) || (at_ParentAttemptID next <>? at_AttemptID previous) then false
  else match ContinuationForFailure (at_Failure previous) with
       | Some ActionFixCode =>
           (at_SourceDigest next <>? at_SourceDigest previous) && (at_EnvironmentDigest next =? at_EnvironmentDigest previous)
       | Some ActionProvisionOrMigrate => at_EnvironmentDigest next <>? at_EnvironmentDigest previous
       | Some ActionRetrySameEnvironment =>
           (at_SourceDigest next =? at_SourceDigest previous) && (at_EnvironmentDigest next =? at_EnvironmentDigest previous)
       | _ => false
       end.

(** ** Facts *)
Lemma digest_visible s : MatchString sourceDigestPattern s = true -> each_byte visible_lower s.
Proof.
  apply match_whole_bytes; [unfold visible_lower; lia|]. cbn [classes_in lit]. 
  assert (Hh : forall z, hexlow z = true -> visible_lower z).
  { intros z. unfold visible_lower. class_unfold. lia. }
  split; [|by apply classes_in_times].
  repeat (split; [intros z; unfold visible_lower; rewrite bool_decide_eq_true; intros ->; vm_compute; intuition congruence|]).
  done.
Qed.

Lemma normalize_digest s : MatchString sourceDigestPattern s = true -> ToLower (TrimSpace s) = s.
Proof.
  intros H. pose proof (digest_visible s H) as Hv. rewrite TrimSpace_visible by (by apply visible_lower_visible).
  by apply ToLower_visible.
Qed.

Lemma env_digest_pattern e : env_Valid e = true -> MatchString sourceDigestPattern (env_Digest e) = true.
Proof. intros (_ & _ & _ & ->)%env_Valid_inv. apply digest_string_matches. Qed.

Lemma NewExecutionAttempt_ok id stepID digest e a : NewExecutionAttempt id stepID digest e = Ok a ->
  validIdentity a = true /\ at_AttemptID a = TrimSpace id /\ at_StepID a = TrimSpace stepID /\
  at_ParentAttemptID a = "" /\ at_SourceDigest a = ToLower (TrimSpace digest) /\ at_State a = AttemptPlanned /\
  at_Failure a = "" /\ at_EnvironmentDigest a = env_Digest e /\ at_Class a = env_Class e /\ env_Valid e = true.
Proof.
  unfold NewExecutionAttempt. intros H. destruct (_ || _) eqn:E; cbn [reject_if rbind] in H; [done|]. injection H as <-.
  breflect. cbn. split_and!; try done. unfold validIdentity. cbn.
  match goal with Hv : env_Valid e = true |- _ => pose proof (env_digest_pattern e Hv) as Hd;
    apply env_Valid_inv in Hv as (Hi & Hg & (t & Ht) & _) end.
  rewrite Hd, Hi, (tier_of_Some _ _ Ht), Ht, (bool_decide_false _ Hg).
  repeat match goal with Hx : MatchString _ _ = true |- _ => rewrite Hx; clear Hx end.
  cbn. by apply bool_decide_eq_true.
Qed.

Lemma at_set_state_identity a s f : validIdentity (at_set_state a s f) = validIdentity a.
Proof. reflexivity. Qed.

Lemma ContinueExecutionAttempt_spec id digest previous e next :
  ContinueExecutionAttempt id digest previous e = Ok next ->
  validAttemptContinuation previous next = true /\ validIdentity next = true /\
  at_State previous = AttemptFailed /\ at_State next = AttemptPlanned /\ at_Failure next = "" /\
  at_StepID next = at_StepID previous /\ at_ParentAttemptID next = at_AttemptID previous /\
  at_EnvironmentDigest next = env_Digest e /\ at_Class next = env_Class e /\
  at_AttemptID next = TrimSpace id /\ at_SourceDigest next = ToLower (TrimSpace digest) /\
  exists action, ContinuationForFailure (at_Failure previous) = Some action /\
    match action with
    | ActionFixCode => at_SourceDigest next <> at_SourceDigest previous /\ at_EnvironmentDigest next = at_EnvironmentDigest previous
    | ActionProvisionOrMigrate => at_EnvironmentDigest next <> at_EnvironmentDigest previous
    | ActionRetrySameEnvironment => at_SourceDigest next = at_SourceDigest previous /\ at_EnvironmentDigest next = at_EnvironmentDigest previous
    | _ => False
    end.
Proof.
  unfold ContinueExecutionAttempt. intros H. destruct (_ || _) eqn:E0; cbn [reject_if rbind] in H; [done|]. breflect.
  destruct (ContinuationForFailure (at_Failure previous)) as [action|] eqn:Ea; [|done].
  destruct (MatchString sourceDigestPattern (ToLower (TrimSpace digest))) eqn:Ed; cbn [negb reject_if rbind] in H; [|done].
  match type of H with rbind (reject_if ?b _) _ = _ => destruct b eqn:Eg; cbn [reject_if rbind] in H; [done|] end.
  destruct (NewExecutionAttempt _ _ _ _) as [a|] eqn:En; cbn [rbind] in H; [|done]. injection H as <-.
  apply NewExecutionAttempt_ok in En as (Hv & Hid & Hstep & _ & Hsrc & Hst & Hf & Henv & Hcl & _).
  rewrite (normalize_digest _ Ed) in Hsrc.
  assert (Hstep' : at_StepID a = at_StepID previous).
  { rewrite Hstep. apply TrimSpace_identity. match goal with Hv : validIdentity previous = true |- _ => unfold validIdentity in Hv end.
    destruct (MatchString identityPattern (at_StepID previous)); [done|]. by rewrite orb_true_r in *. }
  unfold validAttemptContinuation. cbn [at_set_parent at_State at_ParentAttemptID at_AttemptID at_SourceDigest
    at_EnvironmentDigest at_StepID at_Failure at_Class]. rewrite Ea.
  repeat match goal with Hx : at_State previous = AttemptFailed |- _ => rewrite Hx; clear Hx end.
  rewrite !bool_decide_true by done. cbn [negb orb].
  destruct action; try done; breflect; rewrite <- Hsrc, <- Henv in *; split_and!; try done; try (eexists; split; [done|]; by split_and!).
  - rewrite bool_decide_false by congruence. cbn. by apply bool_decide_eq_true.
  - apply negb_true_iff, bool_decide_eq_false. congruence.
  - eexists. split; [done|]. cbn. congruence.
  - rewrite !bool_decide_true by congruence. done.
Qed.

(** The class of a failure fixes what the next attempt may change. A code failure
    is retried with changed source in exactly the same environment; a failure of the
    environment only in a different one; a transient failure with the same source in
    the same environment; after a policy denial or when reconciliation is needed no
    attempt follows. The new attempt is planned, its step is the old one's, and its
    parent is the failed attempt, whose record does not change. *)
Theorem ContinueExecutionAttempt_sound id digest previous e next :
  ContinueExecutionAttempt id digest previous e = Ok next ->
  validAttemptContinuation previous next = true /\ validIdentity next = true /\
  at_State previous = AttemptFailed /\ at_State next = AttemptPlanned /\ at_Failure next = "" /\
  at_StepID next = at_StepID previous /\ at_ParentAttemptID next = at_AttemptID previous /\
  at_EnvironmentDigest next = env_Digest e /\ at_Class next = env_Class e /\
  exists action, ContinuationForFailure (at_Failure previous) = Some action /\
    match action with
    | ActionFixCode => at_SourceDigest next <> at_SourceDigest previous /\ at_EnvironmentDigest next = at_EnvironmentDigest previous
    | ActionProvisionOrMigrate => at_EnvironmentDigest next <> at_EnvironmentDigest previous
    | ActionRetrySameEnvironment => at_SourceDigest next = at_SourceDigest previous /\ at_EnvironmentDigest next = at_EnvironmentDigest previous
    | _ => False
    end.
Proof. intros H. apply ContinueExecutionAttempt_spec in H. tauto. Qed.

Definition demo_failed : ExecutionAttempt :=
  {| at_AttemptID := "a1"; at_StepID := "s1"; at_ParentAttemptID := ""; at_SourceDigest := digest_string "v1";
     at_EnvironmentID := "env-b"; at_EnvironmentDigest := env_Digest demo_env2; at_EnvironmentGeneration := 1;
     at_Class := ClassL3Sandbox; at_Tier := 1; at_State := AttemptFailed; at_Failure := FailureCapabilityMissing |}.
Definition demo_continued : ExecutionAttempt :=
  {| at_AttemptID := "a2"; at_StepID := "s1"; at_ParentAttemptID := "a1"; at_SourceDigest := digest_string "v1";
     at_EnvironmentID := "env-a"; at_EnvironmentDigest := env_Digest demo_env1; at_EnvironmentGeneration := 3;
     at_Class := ClassWorkcell; at_Tier := 2; at_State := AttemptPlanned; at_Failure := "" |}.

Lemma ContinueExecutionAttempt_sound_witness :
  validAttemptContinuation demo_failed demo_continued = true.
Proof.
  apply (ContinueExecutionAttempt_sound "a2" (digest_string "v1") demo_failed demo_env1 demo_continued).
  vm_compute. reflexivity.
Defined.
