(* ===== verification/DevProvision.v ===== *)
(** * Provisioning attempts: [internal/development/provision.go]

    A provision plan is bound by its digest; a provisioning attempt moves from
    planned to queued (bound to a job of the queue, then to a lease fence) and to a
    terminal state. *)

From S2P Require Import Prelude GoStrings GoRegexp Sha256 DevCapability DevAttempt.

Definition ProvisionPlanVersion : Z := 1.
Definition MaxProvisioningAttemptsPerStep : nat := 16.
Definition provisionPlanDigestDomain : string := "aeontra-development-provision-plan-v1" +:+ nul.

(** [^[a-z][a-z0-9._-]{0,63}$] and [^wj_[a-f0-9]{32}$] *)
Definition provisionIdentityPattern : regexp :=
  whole (Seq (Class lower) (upto 63 (Class (lower ⊎ digit ⊎ one_of "._-")))).
Definition provisionJobIDPattern : regexp := whole (Seq (lit "wj_") (times 32 (Class hexlow))).

Record ProvisionPlan := {
  pl_Version : Z; pl_Provider : string; pl_Pool : string; pl_Profile : string; pl_OutputClass : ExecutionClass;
  pl_BaseEnvironmentDigest : string; pl_Capabilities : list CapabilityID; pl_Digest : string }.
#[export] Instance ProvisionPlan_eq_dec : EqDecision ProvisionPlan.
Proof. solve_decision. Defined.

Definition plan_text (provider pool profile : string) (outputClass : ExecutionClass) (base : string)
    (capabilities : list CapabilityID) : string :=
  provisionPlanDigestDomain +:+ nul_terminated [provider; pool; profile; outputClass; base] +:+ nul_terminated capabilities.

Definition provisionPlanDigest (p : ProvisionPlan) : string :=
  digest_string (plan_text (pl_Provider p) (pl_Pool p) (pl_Profile p) (pl_OutputClass p)
                           (pl_BaseEnvironmentDigest p) (pl_Capabilities p)).

Definition ErrPlanIdentity : error := "development provision plan identity is invalid".
Definition ErrPlanClass : error := "development provision plan execution class is invalid".
Definition ErrPlanBase : error := "development provision plan base environment is invalid".
Definition ErrPlanCapabilities : error := "development provision plan capabilities are invalid".

Definition NewProvisionPlan (provider pool profile : string) (outputClass : ExecutionClass) (base : string)
    (capabilities : list CapabilityID) : result ProvisionPlan :=
  let provider := ToLower (TrimSpace provider) in
  let pool := ToLower (TrimSpace pool) in
  let profile := ToLower (TrimSpace profile) in
  let base := ToLower (TrimSpace base) in
  check reject_if (negb (MatchString provisionIdentityPattern provider) || negb (MatchString provisionIdentityPattern pool) ||
                   negb (MatchString provisionIdentityPattern profile)) ErrPlanIdentity in
  check reject_if (bool_decide (Tier outputClass = None)) ErrPlanClass in
  check reject_if ((base <>? "") && negb (MatchString digestPattern base)) ErrPlanBase in
  match canonicalCapabilityIDs capabilities with
  | Err _ => Err ErrPlanCapabilities
  | Ok canonical =>
      check reject_if (bool_decide (length canonical = 0%nat) ||
                       bool_decide (MaxEnvironmentCatalogEntries < length canonical)%nat) ErrPlanCapabilities in
      Ok {| pl_Version := ProvisionPlanVersion; pl_Provider := provider; pl_Pool := pool; pl_Profile := profile;
            pl_OutputClass := outputClass; pl_BaseEnvironmentDigest := base; pl_Capabilities := canonical;
            pl_Digest := digest_string (plan_text provider pool profile outputClass base canonical) |}
  end.

(** [ProvisionPlan.Valid] *)
Definition plan_Valid (p : ProvisionPlan) : bool :=
  if (pl_Version p <>? ProvisionPlanVersion) || negb (MatchString provisionIdentityPattern (pl_Provider p)) ||
     negb (MatchString provisionIdentityPattern (pl_Pool p)) || negb (MatchString provisionIdentityPattern (pl_Profile p)) ||
     ((pl_BaseEnvironmentDigest p <>? "") && negb (MatchString digestPattern (pl_BaseEnvironmentDigest p))) ||
     negb (MatchString digestPattern (pl_Digest p)) then false
  else if bool_decide (Tier (pl_OutputClass p) = None) then false
  else match canonicalCapabilityIDs (pl_Capabilities p) with
       | Err _ => false
       | Ok canonical =>
           bool_decide (length canonical <> 0%nat) && bool_decide (length canonical <= MaxEnvironmentCatalogEntries)%nat &&
           (canonical =? pl_Capabilities p) && (pl_Digest p =? provisionPlanDigest p)
       end.

Definition Covers (p : ProvisionPlan) (requirements : list CapabilityID) : bool :=
  if negb (plan_Valid p) then false
  else forallb (fun requirement =>
    let index := SearchStrings (pl_Capabilities p) requirement in
    bool_decide (index < length (pl_Capabilities p))%nat && bool_decide (pl_Capabilities p !! index = Some requirement))
    requirements.

Abbreviation ProvisioningState := string (only parsing).
Definition ProvisioningPlanned : ProvisioningState := "planned".
Definition ProvisioningQueued : ProvisioningState := "queued".
Definition ProvisioningSucceeded : ProvisioningState := "succeeded".
Definition ProvisioningFailed : ProvisioningState := "failed".
Definition ProvisioningCancelled : ProvisioningState := "cancelled".

Record ProvisioningAttempt := {
  pv_ProvisionID : string; pv_SourceDigest : string; pv_Plan : ProvisionPlan; pv_State : ProvisioningState;
  pv_JobID : string; pv_JobFence : Z; pv_ReceiptDigest : string; pv_Failure : FailureClass }.
#[export] Instance ProvisioningAttempt_eq_dec : EqDecision ProvisioningAttempt.
Proof. solve_decision. Defined.

Definition pv_update (a : ProvisioningAttempt) (state : ProvisioningState) (jobID : string) (fence : Z)
    (receipt : string) (failure : FailureClass) : ProvisioningAttempt :=
  {| pv_ProvisionID := pv_ProvisionID a; pv_SourceDigest := pv_SourceDigest a; pv_Plan := pv_Plan a; pv_State := state;
     pv_JobID := jobID; pv_JobFence := fence; pv_ReceiptDigest := receipt; pv_Failure := failure |}.

Definition ErrProvision : error := "development provisioning attempt is invalid".
Definition ErrProvisionBind : error := "development provisioning job binding is invalid".
Definition ErrProvisionSuccess : error := "development provisioning success is invalid".
Definition ErrProvisionFailure : error := "development provisioning failure is invalid".
Definition ErrProvisionCancel : error := "development provisioning cancellation is invalid".
Definition ErrProvisionFence : error := "development provisioning fence binding is invalid".

Definition NewProvisioningAttempt (provisionID sourceDigest : string) (plan : ProvisionPlan) : result ProvisioningAttempt :=
  let provisionID := TrimSpace provisionID in
  check reject_if (negb (MatchString identityPattern provisionID) || negb (MatchString digestPattern sourceDigest) ||
                   negb (plan_Valid plan)) ErrProvision in
  Ok {| pv_ProvisionID := provisionID; pv_SourceDigest := sourceDigest; pv_Plan := plan; pv_State := ProvisioningPlanned;
        pv_JobID := ""; pv_JobFence := 0; pv_ReceiptDigest := ""; pv_Failure := "" |}.

(** [ProvisioningAttempt.Valid] *)
Definition pv_Valid (a : ProvisioningAttempt) : bool :=
  if negb (MatchString identityPattern (pv_ProvisionID a)) || negb (MatchString digestPattern (pv_SourceDigest a)) ||
     negb (plan_Valid (pv_Plan a)) then false
  else if pv_State a =? ProvisioningPlanned then
    (pv_JobID a =? "") && (pv_JobFence a =? 0) && (pv_ReceiptDigest a =? "") && (pv_Failure a =? "")
  else if pv_State a =? ProvisioningQueued then
    MatchString provisionJobIDPattern (pv_JobID a) && (pv_ReceiptDigest a =? "") && (pv_Failure a =? "")
  else if pv_State a =? ProvisioningSucceeded then
    MatchString provisionJobIDPattern (pv_JobID a) && (0 <? pv_JobFence a) &&
    MatchString digestPattern (pv_ReceiptDigest a) && (pv_Failure a =? "")
  else if pv_State a =? ProvisioningFailed then
    if negb (MatchString provisionJobIDPattern (pv_JobID a)) || (pv_ReceiptDigest a <>? "") then false
    else bool_decide (ContinuationForFailure (pv_Failure a) <> None)
  else if pv_State a =? ProvisioningCancelled then
    (pv_ReceiptDigest a =? "") && (pv_Failure a =? "") &&
    ((pv_JobID a =? "") && (pv_JobFence a =? 0) || MatchString provisionJobIDPattern (pv_JobID a))
  else false.

Definition BindJob (a : ProvisioningAttempt) (jobID : string) : result ProvisioningAttempt :=
  let jobID := TrimSpace jobID in
  check reject_if (negb (pv_Valid a) || (pv_State a <>? ProvisioningPlanned) ||
                   negb (MatchString provisionJobIDPattern jobID)) ErrProvisionBind in
  Ok (pv_update a ProvisioningQueued jobID (pv_JobFence a) (pv_ReceiptDigest a) (pv_Failure a)).

Definition Succeed (a : ProvisioningAttempt) (receiptDigest : string) : result ProvisioningAttempt :=
  let receiptDigest := ToLower (TrimSpace receiptDigest) in
  check reject_if (negb (pv_Valid a) || (pv_State a <>? ProvisioningQueued) || (pv_JobFence a =? 0) ||
                   negb (MatchString digestPattern receiptDigest)) ErrProvisionSuccess in
  Ok (pv_update a ProvisioningSucceeded (pv_JobID a) (pv_JobFence a) receiptDigest (pv_Failure a)).

(** [ProvisioningAttempt.Fail] and [ProvisioningAttempt.Cancel] *)
Definition pv_Fail (a : ProvisioningAttempt) (class : FailureClass) : result ProvisioningAttempt :=
  check reject_if (negb (pv_Valid a) || (pv_State a <>? ProvisioningQueued)) ErrProvisionFailure in
  check reject_if (bool_decide (ContinuationForFailure class = None)) ErrProvisionFailure in
  Ok (pv_update a ProvisioningFailed (pv_JobID a) (pv_JobFence a) (pv_ReceiptDigest a) class).

Definition pv_Cancel (a : ProvisioningAttempt) : result ProvisioningAttempt :=
  check reject_if (negb (pv_Valid a) || (pv_State a <>? ProvisioningPlanned) && (pv_State a <>? ProvisioningQueued))
    ErrProvisionCancel in
  Ok (pv_update a ProvisioningCancelled (pv_JobID a) (pv_JobFence a) "" "").

Definition BindFence (a : ProvisioningAttempt) (fence : Z) : result ProvisioningAttempt :=
  check reject_if (negb (pv_Valid a) || (pv_State a <>? ProvisioningQueued) || (fence =? 0) || (fence <? pv_JobFence a))
    ErrProvisionFence in
  Ok (pv_update a (pv_State a) (pv_JobID a) fence (pv_ReceiptDigest a) (pv_Failure a)).

Definition sameProvisionAttempt (l r : ProvisioningAttempt) : bool :=
  (pv_ProvisionID l =? pv_ProvisionID r) && (pv_SourceDigest l =? pv_SourceDigest r) &&
  (pl_Digest (pv_Plan l) =? pl_Digest (pv_Plan r)) && (pv_State l =? pv_State r) && (pv_JobID l =? pv_JobID r) &&
  (pv_JobFence l =? pv_JobFence r) && (pv_ReceiptDigest l =? pv_ReceiptDigest r) && (pv_Failure l =? pv_Failure r).

Definition validProvisionRevision (before after : ProvisioningAttempt) : bool :=
  if negb (pv_Valid before) || negb (pv_Valid after) || (pv_ProvisionID before <>? pv_ProvisionID after) ||
     (pv_SourceDigest before <>? pv_SourceDigest after) ||
     (pl_Digest (pv_Plan before) <>? pl_Digest (pv_Plan after)) then false
  else if sameProvisionAttempt before after then true
  else if pv_State before =? ProvisioningPlanned then
    (pv_State after =? ProvisioningQueued) && (pv_JobFence after =? 0) ||
    (pv_State after =? ProvisioningCancelled) && (pv_JobID after =? "") && (pv_JobFence after =? 0)
  else if (pv_State before <>? ProvisioningQueued) || (pv_JobID before <>? pv_JobID after) ||
          (pv_JobFence after <? pv_JobFence before) then false
  else if pv_State before =? pv_State after then pv_JobFence before <? pv_JobFence after
  else (pv_JobFence before =? pv_JobFence after) &&
       ((pv_State after =? ProvisioningSucceeded) || (pv_State after =? ProvisioningFailed) ||
        (pv_State after =? ProvisioningCancelled)).

(** ** Facts *)
Definition pv_active (a : ProvisioningAttempt) : Prop :=
  pv_State a = ProvisioningPlanned \/ pv_State a = ProvisioningQueued.

(** The identity part of validity, which no operation changes. *)
Definition pv_identity (a : ProvisioningAttempt) : bool :=
  MatchString identityPattern (pv_ProvisionID a) && MatchString digestPattern (pv_SourceDigest a) && plan_Valid (pv_Plan a).

Lemma pv_Valid_identity a : pv_Valid a = true -> pv_identity a = true.
Proof.
  unfold pv_Valid, pv_identity. destruct (MatchString identityPattern _), (MatchString digestPattern _), (plan_Valid _); done.
Qed.

Lemma sameProvisionAttempt_refl a : sameProvisionAttempt a a = true.
Proof. unfold sameProvisionAttempt. by rewrite !bool_decide_true. Qed.
