(* ===== verification/DevObjective.v ===== *)
(** * Objectives: [internal/development/objective.go], [anchor.go],
    [acceptance.go], [record.go] (the snapshot rules) and [provision_objective.go]

    An objective is a value: every operation returns the next revision or an error.
    Go's [clone] makes the returned revision share nothing with the old one, which
    is what a functional update is. *)

From S2P Require Import Prelude GoStrings GoRegexp Sha256 DevCapability DevResolver DevAttempt DevProvision.

Definition ObjectiveVersion : Z := 1.
Definition MaxObjectiveSteps : nat := 64.
Definition MaxAttemptsPerStep : nat := 32.

(** ** Scopes *)
Record WorkspaceAnchor := {
  wa_DeviceID : string; wa_WorkspaceID : string; wa_Generation : Z; wa_Owner : string; wa_Repository : string }.
#[export] Instance WorkspaceAnchor_eq_dec : EqDecision WorkspaceAnchor.
Proof. solve_decision. Defined.
Definition zero_anchor : WorkspaceAnchor :=
  {| wa_DeviceID := ""; wa_WorkspaceID := ""; wa_Generation := 0; wa_Owner := ""; wa_Repository := "" |}.

Definition anchorDevicePattern : regexp := whole (Seq (lit "ed_") (times 32 (Class hexlow))).
Definition anchorWorkspacePattern : regexp := whole (Seq (lit "ws_") (times 32 (Class hexlow))).
(** [^[A-Za-z0-9](?:[A-Za-z0-9-]{0,37}[A-Za-z0-9])?$] and [^[A-Za-z0-9][A-Za-z0-9._-]{0,99}$] *)
Definition anchorOwnerPattern : regexp :=
  whole (Seq (Class alnum) (opt (Seq (upto 37 (Class (alnum ⊎ one_of "-"))) (Class alnum)))).
Definition anchorRepositoryPattern : regexp := whole (Seq (Class alnum) (upto 99 (Class (alnum ⊎ one_of "._-")))).

Definition anchor_Valid (a : WorkspaceAnchor) : bool :=
  MatchString anchorDevicePattern (wa_DeviceID a) && MatchString anchorWorkspacePattern (wa_WorkspaceID a) &&
  (0 <? wa_Generation a) && (wa_Generation a <=? two63 - 1) && MatchString anchorOwnerPattern (wa_Owner a) &&
  MatchString anchorRepositoryPattern (wa_Repository a).

(** [^[a-z0-9](?:[a-z0-9-]{0,61}[a-z0-9])?$] and the same with 30 *)
Definition scope_pattern (n : nat) : regexp :=
  whole (Seq (Class lower_alnum) (opt (Seq (upto n (Class (lower_alnum ⊎ one_of "-"))) (Class lower_alnum)))).
Definition projectScopePattern : regexp := scope_pattern 61.
Definition targetScopePattern : regexp := scope_pattern 30.

Record ObjectiveScope := { sc_Project : string; sc_Target : string; sc_Anchor : WorkspaceAnchor }.
#[export] Instance ObjectiveScope_eq_dec : EqDecision ObjectiveScope.
Proof. solve_decision. Defined.
Definition zero_scope : ObjectiveScope := {| sc_Project := ""; sc_Target := ""; sc_Anchor := zero_anchor |}.

Definition Bound (s : ObjectiveScope) : bool :=
  MatchString projectScopePattern (sc_Project s) && MatchString targetScopePattern (sc_Target s) &&
  ((sc_Anchor s =? zero_anchor) || anchor_Valid (sc_Anchor s)).
Definition Pinned (s : ObjectiveScope) : bool := Bound s && anchor_Valid (sc_Anchor s).
Definition validOrEmpty (s : ObjectiveScope) : bool := (s =? zero_scope) || Bound s.

Definition ErrScope : error := "development objective scope is invalid".
Definition NewObjectiveScope (project target : string) : result ObjectiveScope :=
  let scope := {| sc_Project := ToLower (TrimSpace project); sc_Target := ToLower (TrimSpace target);
                  sc_Anchor := zero_anchor |} in
  if negb (Bound scope) then Err ErrScope else Ok scope.

(** ** Acceptance contracts and receipts *)
Definition commandDigestDomain : string := "aeontra-development-command-v1" +:+ nul.
Definition acceptanceDigestDomain : string := "aeontra-development-acceptance-contract-v1" +:+ nul.
Definition maxAcceptanceArgvCount : nat := 256.
Definition maxAcceptanceArgvBytes : Z := 65536.
Definition maxAcceptanceArtifactRef : nat := 32.

Definition privateGoalRefPattern : regexp := whole (Seq (lit "mb_") (times 32 (Class hexlow))).
Definition operationRefPattern : regexp := whole (Seq (lit "eo_") (times 32 (Class hexlow))).
Definition runnerEffectPattern : regexp := whole (times 64 (Class hexlow)).

Record CommandAcceptanceContract := {
  ct_CommandDigest : string; ct_SourceDigest : string; ct_PrivateBodyRef : string; ct_PrivateBodyDigest : string;
  ct_RequiredCapabilities : list Requirement; ct_ArtifactRefs : list string }.
#[export] Instance CommandAcceptanceContract_eq_dec : EqDecision CommandAcceptanceContract.
Proof. solve_decision. Defined.

Record CommandAcceptanceReceipt := {
  rt_OperationID : string; rt_EvidenceProvider : string; rt_RunnerEffectID : string; rt_RunnerRunID : Z;
  rt_RunnerReceiptDigest : string; rt_ObjectiveID : string; rt_StepID : string; rt_AttemptID : string;
  rt_ContractDigest : string; rt_CommandDigest : string; rt_SourceDigest : string; rt_EnvironmentDigest : string;
  rt_PrivateBodyRef : string; rt_PrivateBodyDigest : string; rt_ExitCode : Z; rt_ArtifactRefs : list string }.
#[export] Instance CommandAcceptanceReceipt_eq_dec : EqDecision CommandAcceptanceReceipt.
Proof. solve_decision. Defined.

Record CommandOperationEvidence := {
  ev_OperationID : string; ev_EvidenceProvider : string; ev_RunnerEffectID : string; ev_RunnerRunID : Z;
  ev_RunnerReceiptDigest : string; ev_CommandDigest : string; ev_SourceDigest : string; ev_EnvironmentDigest : string;
  ev_PrivateBodyRef : string; ev_PrivateBodyDigest : string; ev_ExitCode : Z; ev_ArtifactRefs : list string }.

(** [binary.BigEndian.PutUint64] *)
Definition be64 (z : Z) : string := string_of_bytes (be_bytes 8 z).

Definition command_text (argv : list string) : string :=
  commandDigestDomain +:+ foldr (fun a acc => be64 (Len a) +:+ a +:+ acc) "" argv.

Definition ErrArgv : error := "development command argv is invalid".

(** The loop that bounds argv; [total] is what was counted before. *)
Fixpoint check_argv (total : Z) (argv : list string) : result unit :=
  match argv with
  | [] => Ok tt
  | a :: rest =>
      check reject_if (ContainsByte a (chr 0) || (maxAcceptanceArgvBytes - total <? Len a)) ErrArgv in
      check_argv (total + Len a) rest
  end.

Definition CommandDigest (argv : list string) : result string :=
  check reject_if (bool_decide (length argv = 0%nat) || bool_decide (maxAcceptanceArgvCount < length argv)%nat) ErrArgv in
  check check_argv 0 argv in
  Ok (digest_string (command_text argv)).

Definition ErrArtifactBound : error := "development artifact reference bound exceeded".
Definition ErrArtifact : error := "development artifact reference is invalid".
Definition ErrArtifactDuplicate : error := "development artifact reference is duplicated".

Fixpoint adjacent_equal (l : list string) : bool :=
  match l with
  | x :: (y :: _) as rest => (y =? x) || adjacent_equal rest
  | _ => false
  end.

Definition normalizeOpaqueReferences (references : list string) : result (list string) :=
  check reject_if (bool_decide (maxAcceptanceArtifactRef < length references)%nat) ErrArtifactBound in
  check reject_if (existsb (fun r => negb (MatchString identityPattern r) || Contains r ".." || Contains r "://") references)
    ErrArtifact in
  let canonical := sort_strings references in
  check reject_if (adjacent_equal canonical) ErrArtifactDuplicate in
  Ok canonical.

Definition sameRequirements (l r : list Requirement) : bool :=
  bool_decide (length l = length r) && forallb (fun p => req_ID p.1 =? req_ID p.2) (zip l r).

(** [CommandAcceptanceContract.valid] *)
Definition contract_valid (c : CommandAcceptanceContract) : bool :=
  if negb (MatchString sourceDigestPattern (ct_CommandDigest c)) || negb (MatchString sourceDigestPattern (ct_SourceDigest c)) ||
     negb (MatchString privateGoalRefPattern (ct_PrivateBodyRef c)) ||
     negb (MatchString sourceDigestPattern (ct_PrivateBodyDigest c)) ||
     bool_decide (MaxEnvironmentCatalogEntries < length (ct_RequiredCapabilities c))%nat ||
     bool_decide (maxAcceptanceArtifactRef < length (ct_ArtifactRefs c))%nat then false
  else match normalizeRequirementList (ct_RequiredCapabilities c) with
       | Err _ => false
       | Ok requirements =>
           if negb (sameRequirements (ct_RequiredCapabilities c) requirements) then false
           else match normalizeOpaqueReferences (ct_ArtifactRefs c) with
                | Err _ => false
                | Ok artifacts => ct_ArtifactRefs c =? artifacts
                end
       end.

Definition contract_validFor (c : CommandAcceptanceContract) (policy : ResolutionPolicy) (requirements : list Requirement) : bool :=
  contract_valid c && policy_valid policy && sameRequirements (ct_RequiredCapabilities c) requirements.

Definition ErrContract : error := "development command acceptance contract is invalid".

Definition NewCommandAcceptanceContract (argv : list string) (sourceDigest privateBodyRef privateBodyDigest : string)
    (requiredCapabilities : list Requirement) (artifactRefs : list string) : result CommandAcceptanceContract :=
  let? commandDigest := CommandDigest argv in
  let? requirements := normalizeRequirementList requiredCapabilities in
  let? artifacts := normalizeOpaqueReferences artifactRefs in
  let contract := {| ct_CommandDigest := commandDigest; ct_SourceDigest := TrimSpace sourceDigest;
                     ct_PrivateBodyRef := TrimSpace privateBodyRef; ct_PrivateBodyDigest := TrimSpace privateBodyDigest;
                     ct_RequiredCapabilities := requirements; ct_ArtifactRefs := artifacts |} in
  if negb (contract_valid contract) then Err ErrContract else Ok contract.

(** [json.Marshal] of the strings below, which hold no character that is escaped:
    identifiers, digests, references, class and capability names. *)
Definition dquote : string := String (chr 34) "".
Definition json_string (s : string) : string := dquote +:+ s +:+ dquote.
Definition json_array (l : list string) : string := "[" +:+ Join (json_string <$> l) "," +:+ "]".
(** A nil slice is [null]. *)
Definition json_slice (l : list string) : string := match l with [] => "null" | _ => json_array l end.
Definition json_field (name value : string) : string := json_string name +:+ ":" +:+ value.

Definition contract_json (c : CommandAcceptanceContract) (objectiveID stepID : string) (policy : ResolutionPolicy) : string :=
  "{" +:+ Join
    [json_field "objective_id" (json_string objectiveID); json_field "step_id" (json_string stepID);
     json_field "max_tier" (FormatUint (rp_maxTier policy)); json_field "allowed_classes" (json_slice (rp_allowed policy));
     json_field "command_digest" (json_string (ct_CommandDigest c)); json_field "source_digest" (json_string (ct_SourceDigest c));
     json_field "private_body_ref" (json_string (ct_PrivateBodyRef c));
     json_field "private_body_digest" (json_string (ct_PrivateBodyDigest c));
     json_field "required_capabilities" (json_array (req_ID <$> ct_RequiredCapabilities c));
     json_field "artifact_refs" (json_slice (ct_ArtifactRefs c))] "," +:+ "}".

(** [CommandAcceptanceContract.digest] *)
Definition contract_digest (c : CommandAcceptanceContract) (objectiveID stepID : string) (policy : ResolutionPolicy) : string :=
  if negb (contract_valid c) || negb (MatchString identityPattern objectiveID) || negb (MatchString identityPattern stepID) ||
     negb (policy_valid policy) then ""
  else digest_string (acceptanceDigestDomain +:+ contract_json c objectiveID stepID policy).

(** ** Objectives *)
Abbreviation ObjectiveState := string (only parsing).
Definition ObjectivePlanned : ObjectiveState := "planned".
Definition ObjectiveRunning : ObjectiveState := "running".
Definition ObjectiveAcceptancePending : ObjectiveState := "acceptance_pending".
Definition ObjectiveAccepted : ObjectiveState := "accepted".
Definition ObjectiveReconciliationRequired : ObjectiveState := "reconciliation_required".
Definition ObjectiveFailed : ObjectiveState := "failed".
Definition ObjectiveCancelled : ObjectiveState := "cancelled".

Abbreviation StepState := string (only parsing).
Definition StepPlanned : StepState := "planned".
Definition StepRunning : StepState := "running".
Definition StepSucceeded : StepState := "succeeded".
Definition StepFailed : StepState := "failed".
Definition StepCancelled : StepState := "cancelled".

Record StepSpec := {
  sp_StepID : string; sp_Requirements : list Requirement; sp_AcceptanceContract : option CommandAcceptanceContract }.

Record ObjectiveStep := {
  st_StepID : string; st_Requirements : list Requirement; st_AcceptanceContract : option CommandAcceptanceContract;
  st_AcceptanceReceipt : option CommandAcceptanceReceipt; st_Attempts : list ExecutionAttempt;
  st_Provisioning : list ProvisioningAttempt; st_State : StepState }.
#[export] Instance ObjectiveStep_eq_dec : EqDecision ObjectiveStep.
Proof. solve_decision. Defined.

Record Objective := {
  ob_Version : Z; ob_ObjectiveID : string; ob_Revision : Z; ob_State : ObjectiveState; ob_Scope : ObjectiveScope;
  ob_Policy : ResolutionPolicy; ob_Steps : list ObjectiveStep }.
#[export] Instance Objective_eq_dec : EqDecision Objective.
Proof. solve_decision. Defined.

(** Updates of a clone; [Revision++] wraps at 64 bits. *)
Definition set_requirements (s : ObjectiveStep) (reqs : list Requirement) : ObjectiveStep :=
  {| st_StepID := st_StepID s; st_Requirements := reqs; st_AcceptanceContract := st_AcceptanceContract s;
     st_AcceptanceReceipt := st_AcceptanceReceipt s; st_Attempts := st_Attempts s; st_Provisioning := st_Provisioning s;
     st_State := st_State s |}.
Definition set_attempts (s : ObjectiveStep) (attempts : list ExecutionAttempt) (state : StepState) : ObjectiveStep :=
  {| st_StepID := st_StepID s; st_Requirements := st_Requirements s; st_AcceptanceContract := st_AcceptanceContract s;
     st_AcceptanceReceipt := st_AcceptanceReceipt s; st_Attempts := attempts; st_Provisioning := st_Provisioning s;
     st_State := state |}.
Definition set_provisioning (s : ObjectiveStep) (provisioning : list ProvisioningAttempt) : ObjectiveStep :=
  {| st_StepID := st_StepID s; st_Requirements := st_Requirements s; st_AcceptanceContract := st_AcceptanceContract s;
     st_AcceptanceReceipt := st_AcceptanceReceipt s; st_Attempts := st_Attempts s; st_Provisioning := provisioning;
     st_State := st_State s |}.
Definition set_receipt (s : ObjectiveStep) (receipt : CommandAcceptanceReceipt) : ObjectiveStep :=
  {| st_StepID := st_StepID s; st_Requirements := st_Requirements s; st_AcceptanceContract := st_AcceptanceContract s;
     st_AcceptanceReceipt := Some receipt; st_Attempts := st_Attempts s; st_Provisioning := st_Provisioning s;
     st_State := st_State s |}.
Definition revise (o : Objective) (state : ObjectiveState) (steps : list ObjectiveStep) : Objective :=
  {| ob_Version := ob_Version o; ob_ObjectiveID := ob_ObjectiveID o; ob_Revision := wrapU64 (ob_Revision o + 1);
     ob_State := state; ob_Scope := ob_Scope o; ob_Policy := ob_Policy o; ob_Steps := steps |}.
(** [xs[len(xs)-1] = x] *)
Definition set_last {A} (l : list A) (x : A) : list A := <[(length l - 1)%nat := x]> l.

Definition activeProvisioning (s : ObjectiveStep) : bool :=
  match last (st_Provisioning s) with
  | None => false
  | Some p => (pv_State p =? ProvisioningPlanned) || (pv_State p =? ProvisioningQueued)
  end.

Definition sameCommandAcceptanceContractMode (steps : list ObjectiveStep) : bool :=
  let contracted := length (filter (fun s => st_AcceptanceContract s <> None) steps) in
  bool_decide (contracted = 0%nat) || bool_decide (contracted = length steps).

(** [CommandAcceptanceReceipt.validExecutionIdentity] and [validFor] *)
Definition validExecutionIdentity (r : CommandAcceptanceReceipt) (class : ExecutionClass) : bool :=
  if rt_EvidenceProvider r =? "github-run" then
    (class =? ClassIsolatedRunner) && (rt_OperationID r =? "") && MatchString runnerEffectPattern (rt_RunnerEffectID r) &&
    (0 <? rt_RunnerRunID r) && MatchString sourceDigestPattern (rt_RunnerReceiptDigest r)
  else
    (rt_EvidenceProvider r =? "") && (class <>? ClassIsolatedRunner) && MatchString operationRefPattern (rt_OperationID r) &&
    (rt_RunnerEffectID r =? "") && (rt_RunnerRunID r =? 0) && (rt_RunnerReceiptDigest r =? "").

Definition receipt_validFor (r : CommandAcceptanceReceipt) (o : Objective) (stepIndex : nat) : bool :=
  match ob_Steps o !! stepIndex with
  | None => false
  | Some step =>
      if (rt_ObjectiveID r <>? ob_ObjectiveID o) || (rt_ExitCode r <>? 0) then false
      else match st_AcceptanceContract step, last (st_Attempts step) with
      | Some contract, Some attempt =>
          if st_StepID step <>? rt_StepID r then false
          else
            validExecutionIdentity r (at_Class attempt) && (at_State attempt =? AttemptSucceeded) &&
            (rt_AttemptID r =? at_AttemptID attempt) &&
            (rt_ContractDigest r =? contract_digest contract (ob_ObjectiveID o) (st_StepID step) (ob_Policy o)) &&
            (rt_CommandDigest r =? ct_CommandDigest contract) && (rt_SourceDigest r =? ct_SourceDigest contract) &&
            (rt_SourceDigest r =? at_SourceDigest attempt) && (rt_EnvironmentDigest r =? at_EnvironmentDigest attempt) &&
            (rt_PrivateBodyRef r =? ct_PrivateBodyRef contract) &&
            (rt_PrivateBodyDigest r =? ct_PrivateBodyDigest contract) && (rt_ArtifactRefs r =? ct_ArtifactRefs contract)
      | _, _ => false
      end
  end.

(** ** Snapshots: [record.go] *)
Definition ErrSnapshot : error := "development objective snapshot is invalid".
Definition ErrSnapshotAttempt : error := "development objective attempt snapshot is invalid".
Definition ErrSnapshotMode : error := "development objective acceptance mode is invalid".
Definition ErrSnapshotSource : error := "development command acceptance source changed".
Definition ErrSnapshotReceipt : error := "development command acceptance receipt is invalid".
Definition ErrSnapshotReceiptDup : error := "development command acceptance receipt is duplicated".
Definition ErrSnapshotAuthority : error := "development attempt exceeds authority policy".
Definition ErrSnapshotEarly : error := "development acceptance evidence is premature".
Definition ErrSnapshotEvidence : error := "development accepted objective lacks required evidence".
Definition ErrProvBound : error := "development provisioning bound exceeded".
Definition ErrProvSnapshot : error := "development provisioning snapshot is invalid".
Definition ErrProvDuplicate : error := "development provisioning identity duplicated".
Definition ErrProvActive : error := "development provisioning history is active".
Definition ErrProvOverlap : error := "development provisioning overlaps execution".
Definition ErrProvCover : error := "development provisioning no longer covers requirements".

Definition validObjectiveState (state : ObjectiveState) : bool :=
  bool_decide (state ∈ [ObjectivePlanned; ObjectiveRunning; ObjectiveAcceptancePending; ObjectiveAccepted;
                        ObjectiveReconciliationRequired; ObjectiveFailed; ObjectiveCancelled]).
Definition validStepState (state : StepState) : bool :=
  bool_decide (state ∈ [StepPlanned; StepRunning; StepSucceeded; StepFailed; StepCancelled]).

Definition stepStateMatchesAttempts (s : ObjectiveStep) : bool :=
  match last (st_Attempts s) with
  | None => (st_State s =? StepPlanned) || (st_State s =? StepCancelled)
  | Some a =>
      if at_State a =? AttemptPlanned then st_State s =? StepPlanned
      else if at_State a =? AttemptRunning then st_State s =? StepRunning
      else if at_State a =? AttemptSucceeded then st_State s =? StepSucceeded
      else if at_State a =? AttemptFailed then st_State s =? StepFailed
      else if at_State a =? AttemptCancelled then st_State s =? StepCancelled
      else false
  end.

(** [validateObjectiveAttempts]: [global] are the identifiers used so far, [previous]
    the attempt before. *)
Fixpoint validate_attempts (stepID : string) (previous : option ExecutionAttempt) (attempts : list ExecutionAttempt)
    (global : list string) : result (list string) :=
  match attempts with
  | [] => Ok global
  | a :: rest =>
      check reject_if (negb (validIdentity a) || (at_StepID a <>? stepID)) ErrSnapshotAttempt in
      check reject_if (bool_decide (at_AttemptID a ∈ global)) ErrSnapshotAttempt in
      check reject_if (match previous with
                       | None => at_ParentAttemptID a <>? ""
                       | Some p => negb (validAttemptContinuation p a)
                       end) ErrSnapshotAttempt in
      check reject_if (if at_State a =? AttemptFailed then bool_decide (ContinuationForFailure (at_Failure a) = None)
                       else at_Failure a <>? "") ErrSnapshotAttempt in
      validate_attempts stepID (Some a) rest (at_AttemptID a :: global)
  end.

Definition validateObjectiveAttempts (s : ObjectiveStep) (global : list string) : result (list string) :=
  validate_attempts (st_StepID s) None (st_Attempts s) global.

Fixpoint validate_provisions (policy : ResolutionPolicy) (provisions : list ProvisioningAttempt) (global : list string) :
    result (list string) :=
  match provisions with
  | [] => Ok global
  | p :: rest =>
      check reject_if (negb (pv_Valid p) || negb (AllowsClass policy (pl_OutputClass (pv_Plan p)))) ErrProvSnapshot in
      check reject_if (bool_decide (pv_ProvisionID p ∈ global)) ErrProvDuplicate in
      check reject_if (match rest with
                       | [] => false
                       | _ => (pv_State p =? ProvisioningPlanned) || (pv_State p =? ProvisioningQueued)
                       end) ErrProvActive in
      validate_provisions policy rest (pv_ProvisionID p :: global)
  end.

Definition validateObjectiveProvisioning (s : ObjectiveStep) (policy : ResolutionPolicy) (global : list string) :
    result (list string) :=
  check reject_if (bool_decide (MaxProvisioningAttemptsPerStep < length (st_Provisioning s))%nat) ErrProvBound in
  let? global := validate_provisions policy (st_Provisioning s) global in
  check reject_if (activeProvisioning s && ((st_State s =? StepRunning) || (st_State s =? StepSucceeded) ||
                                            (st_State s =? StepCancelled))) ErrProvOverlap in
  check reject_if (activeProvisioning s &&
                   match last (st_Provisioning s) with
                   | Some p => negb (Covers (pv_Plan p) (requirementIDs (st_Requirements s)))
                   | None => false
                   end) ErrProvCover in
  Ok global.

(** The maps and counters of [validateObjectiveSnapshot]. *)
Record snapshot_acc := {
  sn_stepIDs : list string; sn_attemptIDs : list string; sn_operationIDs : list string;
  sn_allSucceeded : bool; sn_receiptCount : nat }.

(** The parts of the loop body: requirements, contract and receipt of a step. *)
Definition validate_requirements (requirements : list Requirement) : result unit :=
  match normalizeRequirementList requirements with
  | Err _ => Err ErrSnapshot
  | Ok normalized => reject_if (negb (sameRequirements requirements normalized)) ErrSnapshot
  end.

Definition validate_contract (policy : ResolutionPolicy) (step : ObjectiveStep) : result unit :=
  match st_AcceptanceContract step with
  | None => Ok tt
  | Some c =>
      check reject_if (negb (contract_validFor c policy (st_Requirements step))) ErrContract in
      reject_if (existsb (fun a => at_SourceDigest a <>? ct_SourceDigest c) (st_Attempts step)) ErrSnapshotSource
  end.

Definition validate_receipt (o : Objective) (index : nat) (step : ObjectiveStep) (seen : list string) (count : nat) :
    result (list string * nat) :=
  match st_AcceptanceReceipt step with
  | None => Ok (seen, count)
  | Some r =>
      check reject_if (bool_decide (st_AcceptanceContract step = None) || (ob_State o <>? ObjectiveAccepted) ||
                       negb (receipt_validFor r o index)) ErrSnapshotReceipt in
      check reject_if (bool_decide (rt_OperationID r ∈ seen)) ErrSnapshotReceiptDup in
      Ok (rt_OperationID r :: seen, S count)
  end.

(** The loop body for one step. *)
Definition validate_step (o : Objective) (index : nat) (step : ObjectiveStep) (acc : snapshot_acc) : result snapshot_acc :=
  check reject_if (negb (MatchString identityPattern (st_StepID step)) || negb (validStepState (st_State step)) ||
                   bool_decide (MaxAttemptsPerStep < length (st_Attempts step))%nat) ErrSnapshot in
  check reject_if (bool_decide (st_StepID step ∈ sn_stepIDs acc)) ErrSnapshot in
  check validate_requirements (st_Requirements step) in
  let? attemptIDs := validateObjectiveAttempts step (sn_attemptIDs acc) in
  check validate_contract (ob_Policy o) step in
  let? ops := validate_receipt o index step (sn_operationIDs acc) (sn_receiptCount acc) in
  check reject_if (existsb (fun a => negb (AllowsClass (ob_Policy o) (at_Class a))) (st_Attempts step)) ErrSnapshotAuthority in
  let? attemptIDs := validateObjectiveProvisioning step (ob_Policy o) attemptIDs in
  check reject_if (negb (stepStateMatchesAttempts step)) ErrSnapshot in
  Ok {| sn_stepIDs := st_StepID step :: sn_stepIDs acc; sn_attemptIDs := attemptIDs; sn_operationIDs := ops.1;
        sn_allSucceeded := sn_allSucceeded acc && (st_State step =? StepSucceeded); sn_receiptCount := ops.2 |}.

Fixpoint validate_steps (o : Objective) (index : nat) (steps : list ObjectiveStep) (acc : snapshot_acc) : result snapshot_acc :=
  match steps with
  | [] => Ok acc
  | step :: rest => let? acc := validate_step o index step acc in validate_steps o (S index) rest acc
  end.

Definition objectiveHasFailureClass (o : Objective) (class : FailureClass) : bool :=
  existsb (fun s => existsb (fun a => (at_State a =? AttemptFailed) && (at_Failure a =? class)) (st_Attempts s)) (ob_Steps o).

(** The switch on the objective's state at the end of the snapshot check. *)
Definition validate_state (o : Objective) (acc : snapshot_acc) : result unit :=
  let contracted := match ob_Steps o with s :: _ => bool_decide (st_AcceptanceContract s <> None) | [] => false end in
  if ob_State o =? ObjectivePlanned then
    reject_if (existsb (fun s => (st_State s <>? StepPlanned) || bool_decide (length (st_Attempts s) <> 0%nat) ||
                                 bool_decide (length (st_Provisioning s) <> 0%nat)) (ob_Steps o)) ErrSnapshot
  else if ob_State o =? ObjectiveRunning then reject_if (sn_allSucceeded acc) ErrSnapshot
  else if (ob_State o =? ObjectiveAcceptancePending) || (ob_State o =? ObjectiveAccepted) then
    check reject_if (negb (sn_allSucceeded acc)) ErrSnapshot in
    check reject_if ((ob_State o =? ObjectiveAcceptancePending) && bool_decide (sn_receiptCount acc <> 0%nat)) ErrSnapshotEarly in
    reject_if ((ob_State o =? ObjectiveAccepted) &&
               ((contracted && bool_decide (sn_receiptCount acc <> length (ob_Steps o))) ||
                (negb contracted && bool_decide (sn_receiptCount acc <> 0%nat)))) ErrSnapshotEvidence
  else if ob_State o =? ObjectiveReconciliationRequired then
    reject_if (negb (objectiveHasFailureClass o FailureReconciliationNeeded)) ErrSnapshot
  else if ob_State o =? ObjectiveFailed then
    reject_if (negb (existsb (fun s => st_State s =? StepFailed) (ob_Steps o))) ErrSnapshot
  else if ob_State o =? ObjectiveCancelled then
    reject_if (existsb (fun s => (st_State s =? StepRunning) || (st_State s =? StepPlanned) || activeProvisioning s)
                       (ob_Steps o)) ErrSnapshot
  else Ok tt.

Definition snapshot_init : snapshot_acc :=
  {| sn_stepIDs := []; sn_attemptIDs := []; sn_operationIDs := []; sn_allSucceeded := true; sn_receiptCount := 0 |}.

Definition validateObjectiveSnapshot (o : Objective) : result unit :=
  check reject_if ((ob_Version o <>? ObjectiveVersion) || negb (MatchString identityPattern (ob_ObjectiveID o)) ||
                   (ob_Revision o =? 0) || negb (validOrEmpty (ob_Scope o)) || negb (policy_valid (ob_Policy o)) ||
                   bool_decide (length (ob_Steps o) = 0%nat) || bool_decide (MaxObjectiveSteps < length (ob_Steps o))%nat ||
                   negb (validObjectiveState (ob_State o))) ErrSnapshot in
  check reject_if (negb (sameCommandAcceptanceContractMode (ob_Steps o))) ErrSnapshotMode in
  let? acc := validate_steps o 0 (ob_Steps o) snapshot_init in
  validate_state o acc.

(** [Objective.Valid] *)
Definition ob_Valid (o : Objective) : bool := is_ok (validateObjectiveSnapshot o).
