(* ===== verification/DevOps.v ===== *)
(** * Operations on objectives: [internal/development/objective.go],
    [provision_objective.go] and [transition.go]

    Every operation is a function to the next revision or an error;
    [ValidateTransition] is the independent check a store makes before it replaces
    one revision by the next. *)

From S2P Require Import Prelude GoStrings GoRegexp Sha256 DevCapability DevResolver DevAttempt DevProvision DevObjective.

Definition ErrObjective : error := "development objective is invalid".
Definition ErrObjectiveStep : error := "development objective step is invalid".
Definition ErrObjectiveStepDup : error := "development objective step is duplicated".
Definition ErrContractMismatch : error := "development command acceptance contract does not match objective".
Definition ErrMixedAcceptance : error := "development objective cannot mix command and semantic acceptance".

(** The loop of [NewObjective]; [seen] are the step identifiers so far. *)
Fixpoint new_steps (policy : ResolutionPolicy) (seen : list string) (specs : list StepSpec) : result (list ObjectiveStep) :=
  match specs with
  | [] => Ok []
  | spec :: rest =>
      let stepID := TrimSpace (sp_StepID spec) in
      check reject_if (negb (MatchString identityPattern stepID)) ErrObjectiveStep in
      check reject_if (bool_decide (stepID ∈ seen)) ErrObjectiveStepDup in
      let? requirements := normalizeRequirementList (sp_Requirements spec) in
      check reject_if (match sp_AcceptanceContract spec with
                       | None => false
                       | Some c => negb (contract_validFor c policy requirements)
                       end) ErrContractMismatch in
      let? steps := new_steps policy (stepID :: seen) rest in
      Ok ({| st_StepID := stepID; st_Requirements := requirements; st_AcceptanceContract := sp_AcceptanceContract spec;
             st_AcceptanceReceipt := None; st_Attempts := []; st_Provisioning := []; st_State := StepPlanned |} :: steps)
  end.

Definition NewObjective (objectiveID : string) (policy : ResolutionPolicy) (specs : list StepSpec) : result Objective :=
  let objectiveID := TrimSpace objectiveID in
  check reject_if (negb (MatchString identityPattern objectiveID) || negb (policy_valid policy) ||
                   bool_decide (length specs = 0%nat) || bool_decide (MaxObjectiveSteps < length specs)%nat) ErrObjective in
  let? steps := new_steps policy [] specs in
  check reject_if (negb (sameCommandAcceptanceContractMode steps)) ErrMixedAcceptance in
  Ok {| ob_Version := ObjectiveVersion; ob_ObjectiveID := objectiveID; ob_Revision := 1; ob_State := ObjectivePlanned;
        ob_Scope := zero_scope; ob_Policy := policy; ob_Steps := steps |}.

Definition NewScopedObjective (objectiveID : string) (scope : ObjectiveScope) (policy : ResolutionPolicy)
    (specs : list StepSpec) : result Objective :=
  check reject_if (negb (Bound scope)) ErrScope in
  let? o := NewObjective objectiveID policy specs in
  Ok {| ob_Version := ob_Version o; ob_ObjectiveID := ob_ObjectiveID o; ob_Revision := ob_Revision o;
        ob_State := ob_State o; ob_Scope := scope; ob_Policy := ob_Policy o; ob_Steps := ob_Steps o |}.

(** [None] is [-1]. *)
Definition stepIndex (o : Objective) (stepID : string) : option nat :=
  fst <$> list_find (fun s => st_StepID s = TrimSpace stepID) (ob_Steps o).

Definition terminal (o : Objective) : bool :=
  (ob_State o =? ObjectiveAccepted) || (ob_State o =? ObjectiveFailed) || (ob_State o =? ObjectiveCancelled).

(** The common start of the operations: the step, unless it is unknown or the
    objective is terminal. *)
Definition find_step (o : Objective) (stepID : string) (e : error) : result (nat * ObjectiveStep) :=
  match stepIndex o stepID with
  | None => Err e
  | Some i =>
      if terminal o then Err e
      else match ob_Steps o !! i with Some s => Ok (i, s) | None => Err e end
  end.

Definition ErrRefine : error := "development objective cannot refine requirements".
Definition ErrRefineActive : error := "development objective cannot refine active or succeeded step".

Definition RefineRequirements (o : Objective) (stepID : string) (additional : list Requirement) : result Objective :=
  let? is_ := find_step o stepID ErrRefine in
  let '(i, step) := is_ in
  check reject_if ((st_State step =? StepRunning) || (st_State step =? StepSucceeded) || activeProvisioning step ||
                   bool_decide (st_AcceptanceContract step <> None)) ErrRefineActive in
  let? normalized := normalizeRequirementList (st_Requirements step ++ additional) in
  if sameRequirements (st_Requirements step) normalized then Ok o
  else Ok (revise o (ob_State o) (<[i := set_requirements step normalized]> (ob_Steps o))).

Definition exactEnvironmentByDigest (candidates : list EnvironmentAttestation) (digest : string) : option EnvironmentAttestation :=
  snd <$> list_find (fun c => env_Valid c = true /\ env_Digest c = digest) candidates.

Definition ErrPlan : error := "development objective cannot plan attempt".
Definition ErrPlanSource : error := "development command acceptance source digest changed".
Definition ErrPlanProvisioning : error := "development provisioning is still active".
Definition ErrPlanSucceeded : error := "development objective step already succeeded".
Definition ErrPlanBudget : error := "development objective attempt budget is exhausted".
Definition ErrPlanPrevious : error := "development objective previous attempt is not failed".
Definition ErrPlanExternal : error := "development objective failure requires external resolution".
Definition ErrPlanUnavailable : error := "development objective previous environment is unavailable".
Definition ErrPlanUnsatisfied : error := "development objective previous environment no longer satisfies requirements".

(** The environment and attempt of a step that has failed before. *)
Definition plan_continuation (o : Objective) (step : ObjectiveStep) (previous : ExecutionAttempt)
    (attemptID sourceDigest : string) (candidates : list EnvironmentAttestation) : result (ExecutionAttempt * Resolution) :=
  check reject_if (at_State previous <>? AttemptFailed) ErrPlanPrevious in
  let? resolution :=
    match ContinuationForFailure (at_Failure previous) with
    | None | Some ActionStopPolicy | Some ActionReconcile => Err ErrPlanExternal
    | Some ActionProvisionOrMigrate => resolve_error (Resolve (st_Requirements step) None candidates (ob_Policy o))
    | Some _ =>
        match exactEnvironmentByDigest candidates (at_EnvironmentDigest previous) with
        | None => Err ErrPlanUnavailable
        | Some environment =>
            check reject_if (negb (Allows (ob_Policy o) environment)) ErrPlanUnavailable in
            check reject_if (bool_decide (set_Missing (env_Capabilities environment) (st_Requirements step) <> []))
              ErrPlanUnsatisfied in
            Ok {| res_Environment := environment; res_Migrated := false |}
        end
    end in
  let? attempt := ContinueExecutionAttempt attemptID sourceDigest previous (res_Environment resolution) in
  Ok (attempt, {| res_Environment := res_Environment resolution;
                  res_Migrated := at_EnvironmentDigest previous <>? env_Digest (res_Environment resolution) |}).

Definition PlanAttempt (o : Objective) (stepID attemptID sourceDigest : string) (candidates : list EnvironmentAttestation) :
    result (Objective * Resolution) :=
  let? is_ := find_step o stepID ErrPlan in
  let '(i, step) := is_ in
  check reject_if (match st_AcceptanceContract step with
                   | Some c => TrimSpace sourceDigest <>? ct_SourceDigest c
                   | None => false
                   end) ErrPlanSource in
  check reject_if (activeProvisioning step) ErrPlanProvisioning in
  check reject_if (st_State step =? StepSucceeded) ErrPlanSucceeded in
  check reject_if (bool_decide (MaxAttemptsPerStep <= length (st_Attempts step))%nat) ErrPlanBudget in
  let? planned :=
    match last (st_Attempts step) with
    | None =>
        let? resolution := resolve_error (Resolve (st_Requirements step) None candidates (ob_Policy o)) in
        let? attempt := NewExecutionAttempt attemptID (st_StepID step) sourceDigest (res_Environment resolution) in
        Ok (attempt, resolution)
    | Some previous => plan_continuation o step previous attemptID sourceDigest candidates
    end in
  let '(attempt, resolution) := planned in
  Ok (revise o ObjectiveRunning (<[i := set_attempts step (st_Attempts step ++ [attempt]) StepPlanned]> (ob_Steps o)),
      resolution).

Definition ErrStart : error := "development objective cannot start attempt".
Definition ErrNoAttempt : error := "development objective attempt is missing".

Definition StartAttempt (o : Objective) (stepID : string) : result Objective :=
  let? is_ := find_step o stepID ErrStart in
  let '(i, step) := is_ in
  match last (st_Attempts step) with
  | None => Err ErrNoAttempt
  | Some a =>
      let? next := at_Transition a AttemptRunning in
      Ok (revise o ObjectiveRunning (<[i := set_attempts step (set_last (st_Attempts step) next) StepRunning]> (ob_Steps o)))
  end.

(** The objective's state after a failure whose continuation is [action]. *)
Definition state_after_failure (action : ContinuationAction) : ObjectiveState :=
  match action with
  | ActionReconcile => ObjectiveReconciliationRequired
  | ActionStopPolicy => ObjectiveFailed
  | _ => ObjectiveRunning
  end.

Definition ErrReject : error := "development objective cannot reject attempt".
Definition ErrRejectClass : error := "development objective preflight failure class is invalid".

Definition RejectAttempt (o : Objective) (stepID : string) (class : FailureClass) : result (Objective * ContinuationAction) :=
  let? is_ := find_step o stepID ErrReject in
  let '(i, step) := is_ in
  match ContinuationForFailure class with
  | None => Err ErrRejectClass
  | Some action =>
      check reject_if (negb (preflightFailureAllowed class)) ErrRejectClass in
      match last (st_Attempts step) with
      | None => Err ErrNoAttempt
      | Some a =>
          let? failed := RejectPreflight a class in
          Ok (revise o (state_after_failure action)
                (<[i := set_attempts step (set_last (st_Attempts step) failed) StepFailed]> (ob_Steps o)), action)
      end
  end.

Definition ErrFail : error := "development objective cannot fail attempt".
Definition ErrFailClass : error := "development objective failure class is invalid".

Definition FailAttempt (o : Objective) (stepID : string) (class : FailureClass) : result (Objective * ContinuationAction) :=
  let? is_ := find_step o stepID ErrFail in
  let '(i, step) := is_ in
  match ContinuationForFailure class with
  | None => Err ErrFailClass
  | Some action =>
      match last (st_Attempts step) with
      | None => Err ErrNoAttempt
      | Some a =>
          let? failed := at_Fail a class in
          Ok (revise o (state_after_failure action)
                (<[i := set_attempts step (set_last (st_Attempts step) failed) StepFailed]> (ob_Steps o)), action)
      end
  end.

Definition ErrComplete : error := "development objective cannot complete attempt".

Definition CompleteAttempt (o : Objective) (stepID : string) : result Objective :=
  let? is_ := find_step o stepID ErrComplete in
  let '(i, step) := is_ in
  match last (st_Attempts step) with
  | None => Err ErrNoAttempt
  | Some a =>
      let? completed := at_Transition a AttemptSucceeded in
      let steps := <[i := set_attempts step (set_last (st_Attempts step) completed) StepSucceeded]> (ob_Steps o) in
      let allSucceeded := forallb (fun s => st_State s =? StepSucceeded) steps in
      Ok (revise o (if allSucceeded then ObjectiveAcceptancePending else ObjectiveRunning) steps)
  end.

Definition ErrAccept : error := "development objective is not ready for acceptance".

Definition Accept (o : Objective) : result Objective :=
  if (ob_State o <>? ObjectiveAcceptancePending) || negb (sameCommandAcceptanceContractMode (ob_Steps o)) ||
     match ob_Steps o with [] => true | s :: _ => bool_decide (st_AcceptanceContract s <> None) end
  then Err ErrAccept
  else Ok (revise o ObjectiveAccepted (ob_Steps o)).

Definition ErrEvidenceNotReady : error := "development objective is not ready for command acceptance".
Definition ErrEvidenceIncomplete : error := "development command acceptance evidence is incomplete".
Definition ErrEvidenceMismatch : error := "development command acceptance evidence does not match objective".
Definition ErrEvidenceDup : error := "development command acceptance evidence is duplicated".
Definition ErrEvidenceInvalid : error := "development command acceptance evidence is invalid".

(** The loop of [AcceptWithEvidence]: [steps] are the steps of the clone. *)
Fixpoint accept_receipts (o : Objective) (seen : list string) (receipts : list CommandAcceptanceReceipt)
    (steps : list ObjectiveStep) : result (list ObjectiveStep) :=
  match receipts with
  | [] => Ok steps
  | r :: rest =>
      match stepIndex o (rt_StepID r) with
      | None => Err ErrEvidenceMismatch
      | Some i =>
          check reject_if (negb (receipt_validFor r o i)) ErrEvidenceMismatch in
          check reject_if (bool_decide (rt_OperationID r ∈ seen)) ErrEvidenceDup in
          accept_receipts o (rt_OperationID r :: seen) rest (alter (fun s => set_receipt s r) i steps)
      end
  end.

Definition AcceptWithEvidence (o : Objective) (receipts : list CommandAcceptanceReceipt) : result Objective :=
  check reject_if (negb (ob_Valid o) || (ob_State o <>? ObjectiveAcceptancePending) ||
                   negb (sameCommandAcceptanceContractMode (ob_Steps o)) ||
                   match ob_Steps o with [] => true | s :: _ => bool_decide (st_AcceptanceContract s = None) end)
    ErrEvidenceNotReady in
  check reject_if (bool_decide (length receipts <> length (ob_Steps o))) ErrEvidenceIncomplete in
  let? steps := accept_receipts o [] receipts (ob_Steps o) in
  let next := revise o ObjectiveAccepted steps in
  if negb (ob_Valid next) then Err ErrEvidenceInvalid else Ok next.

Definition NewCommandAcceptanceReceipt (o : Objective) (stepID : string) (e : CommandOperationEvidence) :
    result CommandAcceptanceReceipt :=
  check reject_if (negb (ob_Valid o) || (ob_State o <>? ObjectiveAcceptancePending) || (ev_ExitCode e <>? 0)) ErrEvidenceInvalid in
  match stepIndex o stepID with
  | None => Err ErrEvidenceInvalid
  | Some i =>
      match ob_Steps o !! i with
      | None => Err ErrEvidenceInvalid
      | Some step =>
          match st_AcceptanceContract step, last (st_Attempts step) with
          | Some contract, Some attempt =>
              check reject_if (at_State attempt <>? AttemptSucceeded) ErrEvidenceInvalid in
              let receipt := {|
                rt_OperationID := ev_OperationID e; rt_EvidenceProvider := ev_EvidenceProvider e;
                rt_RunnerEffectID := ev_RunnerEffectID e; rt_RunnerRunID := ev_RunnerRunID e;
                rt_RunnerReceiptDigest := ev_RunnerReceiptDigest e; rt_ObjectiveID := ob_ObjectiveID o;
                rt_StepID := st_StepID step; rt_AttemptID := at_AttemptID attempt;
                rt_ContractDigest := contract_digest contract (ob_ObjectiveID o) (st_StepID step) (ob_Policy o);
                rt_CommandDigest := ev_CommandDigest e; rt_SourceDigest := ev_SourceDigest e;
                rt_EnvironmentDigest := ev_EnvironmentDigest e; rt_PrivateBodyRef := ev_PrivateBodyRef e;
                rt_PrivateBodyDigest := ev_PrivateBodyDigest e; rt_ExitCode := ev_ExitCode e;
                rt_ArtifactRefs := ev_ArtifactRefs e |} in
              if negb (receipt_validFor receipt o i) then Err ErrEvidenceInvalid else Ok receipt
          | _, _ => Err ErrEvidenceInvalid
          end
      end
  end.

Definition ErrTerminal : error := "development objective is terminal".
Definition ErrCancelAttempt : error := "development objective cannot cancel attempt".

(** The loop body of [Cancel] for one step. *)
Definition cancel_provisioning (s : ObjectiveStep) : result ObjectiveStep :=
  match last (st_Provisioning s) with
  | None => Ok s
  | Some p =>
      if (pv_State p =? ProvisioningPlanned) || (pv_State p =? ProvisioningQueued) then
        let? cancelled := pv_Cancel p in
        Ok (set_provisioning s (set_last (st_Provisioning s) cancelled))
      else Ok s
  end.

Definition cancel_step (s : ObjectiveStep) : result ObjectiveStep :=
  let? s := cancel_provisioning s in
  if (st_State s =? StepSucceeded) || (st_State s =? StepFailed) || (st_State s =? StepCancelled) then Ok s
  else match last (st_Attempts s) with
       | None => Ok (set_attempts s (st_Attempts s) StepCancelled)
       | Some a =>
           check reject_if ((at_State a <>? AttemptPlanned) && (at_State a <>? AttemptRunning)) ErrCancelAttempt in
           let? cancelled := at_Transition a AttemptCancelled in
           Ok (set_attempts s (set_last (st_Attempts s) cancelled) StepCancelled)
       end.

Fixpoint cancel_steps (steps : list ObjectiveStep) : result (list ObjectiveStep) :=
  match steps with
  | [] => Ok []
  | s :: rest =>
      let? s := cancel_step s in
      let? rest := cancel_steps rest in
      Ok (s :: rest)
  end.

(** [Objective.Cancel] *)
Definition ob_Cancel (o : Objective) : result Objective :=
  check reject_if (terminal o) ErrTerminal in
  let? steps := cancel_steps (ob_Steps o) in
  Ok (revise o ObjectiveCancelled steps).

(** ** Provisioning *)
Definition canPlanProvisioning (s : ObjectiveStep) : bool :=
  if (st_State s <>? StepPlanned) && (st_State s <>? StepFailed) || activeProvisioning s then false
  else if match last (st_Attempts s) with
          | None => false
          | Some a => (at_State a <>? AttemptFailed) ||
                      (ContinuationForFailure (at_Failure a) <>? Some ActionProvisionOrMigrate)
          end then false
  else match last (st_Provisioning s) with
       | None => true
       | Some p =>
           if pv_State p =? ProvisioningCancelled then false
           else if pv_State p =? ProvisioningFailed then
             (ContinuationForFailure (pv_Failure p) =? Some ActionProvisionOrMigrate) ||
             (ContinuationForFailure (pv_Failure p) =? Some ActionRetrySameEnvironment)
           else true
       end.

Definition ErrCannotProvision : error := "development objective cannot provision".
Definition ErrProvisionContract : error := "development objective provisioning contract is invalid".
Definition ErrProvisionAuthorize : error := "development objective failure does not authorize provisioning".
Definition ErrProvisionUnavailable : error := "development provisioning is unavailable".
Definition ErrProvisionIdentity : error := "development provisioning identity mismatch".
Definition ErrProvisionTransition : error := "development provisioning transition is invalid".

Definition PlanProvisioning (o : Objective) (stepID provisionID sourceDigest : string) (plan : ProvisionPlan) : result Objective :=
  match stepIndex o stepID with
  | None => Err ErrCannotProvision
  | Some i =>
      check reject_if (negb (ob_Valid o) || terminal o || negb (Bound (ob_Scope o)) ||
                       negb (AllowsClass (ob_Policy o) (pl_OutputClass plan))) ErrCannotProvision in
      match ob_Steps o !! i with
      | None => Err ErrCannotProvision
      | Some step =>
          check reject_if ((st_State step <>? StepPlanned) && (st_State step <>? StepFailed) || activeProvisioning step ||
                           bool_decide (MaxProvisioningAttemptsPerStep <= length (st_Provisioning step))%nat ||
                           negb (Covers plan (requirementIDs (st_Requirements step)))) ErrProvisionContract in
          check reject_if (negb (canPlanProvisioning step)) ErrProvisionAuthorize in
          let? provision := NewProvisioningAttempt provisionID sourceDigest plan in
          let next := revise o ObjectiveRunning
                        (<[i := set_provisioning step (st_Provisioning step ++ [provision])]> (ob_Steps o)) in
          if negb (ob_Valid next) then Err ErrProvSnapshot else Ok next
      end
  end.

Definition advanceProvision (o : Objective) (stepID provisionID : string)
    (change : ProvisioningAttempt -> result ProvisioningAttempt) : result Objective :=
  match stepIndex o stepID with
  | None => Err ErrProvisionUnavailable
  | Some i =>
      check reject_if (negb (ob_Valid o) || terminal o) ErrProvisionUnavailable in
      match ob_Steps o !! i with
      | None => Err ErrProvisionUnavailable
      | Some step =>
          match last (st_Provisioning step) with
          | None => Err ErrProvisionUnavailable
          | Some p =>
              check reject_if (pv_ProvisionID p <>? provisionID) ErrProvisionIdentity in
              match change p with
              | Err _ => Err ErrProvisionTransition
              | Ok advanced =>
                  check reject_if (negb (validProvisionRevision p advanced)) ErrProvisionTransition in
                  if sameProvisionAttempt p advanced then Ok o
                  else
                    let next := revise o (ob_State o)
                                  (<[i := set_provisioning step (set_last (st_Provisioning step) advanced)]> (ob_Steps o)) in
                    if negb (ob_Valid next) then Err ErrProvSnapshot else Ok next
              end
          end
      end
  end.

Definition BindProvisionJob (o : Objective) (stepID provisionID jobID : string) : result Objective :=
  advanceProvision o stepID provisionID (fun p => BindJob p jobID).
Definition BindProvisionFence (o : Objective) (stepID provisionID : string) (fence : Z) : result Objective :=
  advanceProvision o stepID provisionID (fun p => BindFence p fence).
Definition CompleteProvision (o : Objective) (stepID provisionID receiptDigest : string) : result Objective :=
  advanceProvision o stepID provisionID (fun p => Succeed p receiptDigest).
Definition FailProvision (o : Objective) (stepID provisionID : string) (class : FailureClass) : result Objective :=
  advanceProvision o stepID provisionID (fun p => pv_Fail p class).

(** ** Transitions: [transition.go] *)
Definition ErrTransition : error := "development objective transition is invalid".
Definition ErrTransitionContract : error := "development active provisioning contract is immutable".
Definition ErrTransitionHistory : error := "development provisioning history transition is invalid".
Definition ErrTransitionAuthorize : error := "development failure does not authorize provisioning".

Definition validObjectiveStateTransition (before after : ObjectiveState) : bool :=
  if before =? after then true
  else if before =? ObjectivePlanned then (after =? ObjectiveRunning) || (after =? ObjectiveCancelled)
  else if before =? ObjectiveRunning then
    (after =? ObjectiveAcceptancePending) || (after =? ObjectiveReconciliationRequired) || (after =? ObjectiveFailed) ||
    (after =? ObjectiveCancelled)
  else if before =? ObjectiveAcceptancePending then (after =? ObjectiveAccepted) || (after =? ObjectiveCancelled)
  else if before =? ObjectiveReconciliationRequired then
    (after =? ObjectiveRunning) || (after =? ObjectiveFailed) || (after =? ObjectiveCancelled)
  else false.

Definition validStepStateTransition (before after : StepState) : bool :=
  if before =? after then true
  else if before =? StepPlanned then (after =? StepRunning) || (after =? StepFailed) || (after =? StepCancelled)
  else if before =? StepRunning then (after =? StepSucceeded) || (after =? StepFailed) || (after =? StepCancelled)
  else if before =? StepFailed then after =? StepPlanned
  else false.

Definition validAttemptRevision (before after : ExecutionAttempt) : bool :=
  if at_set_state before "" "" <>? at_set_state after "" "" then false
  else if (at_State before =? at_State after) && (at_Failure before =? at_Failure after) then true
  else if at_State before =? AttemptPlanned then
    if ((at_State after =? AttemptRunning) || (at_State after =? AttemptCancelled)) && (at_Failure after =? "") then true
    else (at_State after =? AttemptFailed) && preflightFailureAllowed (at_Failure after)
  else if at_State before =? AttemptRunning then
    if (at_State after =? AttemptSucceeded) && (at_Failure after =? "") then true
    else if at_State after =? AttemptFailed then bool_decide (ContinuationForFailure (at_Failure after) <> None)
    else (at_State after =? AttemptCancelled) && (at_Failure after =? "")
  else false.

(** [requirementsSubset]: the names of [before] are passed in order. *)
Fixpoint requirementsSubset (before after : list Requirement) : bool :=
  match after with
  | [] => bool_decide (length before = 0%nat)
  | r :: rest =>
      match before with
      | b :: bs => if req_ID b =? req_ID r then requirementsSubset bs rest else requirementsSubset before rest
      | [] => true
      end
  end.

(** [validProvisionHistory] *)
Fixpoint provision_prefix (before after : list ProvisioningAttempt) (grown : bool) : bool :=
  match before, after with
  | [], _ => true
  | b :: bs, a :: rest =>
      (if bool_decide (length bs = 0%nat) && negb grown then validProvisionRevision b a else sameProvisionAttempt b a) &&
      provision_prefix bs rest grown
  | _ :: _, [] => false
  end.

Definition validProvisionHistory (before after : list ProvisioningAttempt) : bool :=
  if bool_decide (length after < length before)%nat || bool_decide (length before + 1 < length after)%nat then false
  else
    let grown := bool_decide (length after = length before + 1)%nat in
    if negb (provision_prefix before after grown) then false
    else if grown then
      if match last before with
         | Some b => (pv_State b =? ProvisioningPlanned) || (pv_State b =? ProvisioningQueued)
         | None => false
         end then false
      else match last after with Some a => pv_State a =? ProvisioningPlanned | None => false end
    else true.

Definition sameCommandAcceptanceContract (l r : option CommandAcceptanceContract) : bool :=
  match l, r with
  | Some l, Some r =>
      (ct_CommandDigest l =? ct_CommandDigest r) && (ct_SourceDigest l =? ct_SourceDigest r) &&
      (ct_PrivateBodyRef l =? ct_PrivateBodyRef r) && (ct_PrivateBodyDigest l =? ct_PrivateBodyDigest r) &&
      sameRequirements (ct_RequiredCapabilities l) (ct_RequiredCapabilities r) && (ct_ArtifactRefs l =? ct_ArtifactRefs r)
  | None, None => true
  | _, _ => false
  end.

Definition sameCommandAcceptanceReceipt (l r : CommandAcceptanceReceipt) : bool :=
  (rt_OperationID l =? rt_OperationID r) && (rt_ObjectiveID l =? rt_ObjectiveID r) && (rt_StepID l =? rt_StepID r) &&
  (rt_AttemptID l =? rt_AttemptID r) && (rt_ContractDigest l =? rt_ContractDigest r) &&
  (rt_CommandDigest l =? rt_CommandDigest r) && (rt_SourceDigest l =? rt_SourceDigest r) &&
  (rt_EnvironmentDigest l =? rt_EnvironmentDigest r) && (rt_PrivateBodyRef l =? rt_PrivateBodyRef r) &&
  (rt_PrivateBodyDigest l =? rt_PrivateBodyDigest r) && (rt_ExitCode l =? rt_ExitCode r) &&
  (rt_ArtifactRefs l =? rt_ArtifactRefs r).

Definition validAcceptanceReceiptTransition (previousState nextState : ObjectiveState) (before after : ObjectiveStep) : bool :=
  match st_AcceptanceReceipt before, st_AcceptanceReceipt after with
  | None, None => true
  | None, Some _ => bool_decide (st_AcceptanceContract before <> None) &&
                    (previousState =? ObjectiveAcceptancePending) && (nextState =? ObjectiveAccepted)
  | Some _, None => false
  | Some l, Some r => sameCommandAcceptanceReceipt l r
  end.

(** The attempts part of the step loop. *)
Definition valid_attempts_transition (before after : list ExecutionAttempt) : bool :=
  if bool_decide (length after = length before + 1)%nat then
    bool_decide (take (length before) after = before) &&
    match last before, last after with
    | Some p, Some a => (at_State p =? AttemptFailed) && (at_ParentAttemptID a =? at_AttemptID p) && (at_State a =? AttemptPlanned)
    | None, Some a => (at_ParentAttemptID a =? "") && (at_State a =? AttemptPlanned)
    | _, None => false
    end
  else match last before, last after with
       | None, _ => true
       | Some b, Some a =>
           bool_decide (take (length before - 1) after = take (length before - 1) before) && validAttemptRevision b a
       | Some _, None => false
       end.

Definition validate_step_transition (previous next : Objective) (before after : ObjectiveStep) : result unit :=
  check reject_if (activeProvisioning before && negb (sameRequirements (st_Requirements before) (st_Requirements after)))
    ErrTransitionContract in
  check reject_if (negb (validProvisionHistory (st_Provisioning before) (st_Provisioning after))) ErrTransitionHistory in
  check reject_if (bool_decide (length (st_Provisioning before) < length (st_Provisioning after))%nat &&
                   negb (canPlanProvisioning before)) ErrTransitionAuthorize in
  check reject_if ((st_StepID before <>? st_StepID after) ||
                   negb (sameCommandAcceptanceContract (st_AcceptanceContract before) (st_AcceptanceContract after)) ||
                   negb (validAcceptanceReceiptTransition (ob_State previous) (ob_State next) before after) ||
                   negb (requirementsSubset (st_Requirements before) (st_Requirements after)) ||
                   negb (validStepStateTransition (st_State before) (st_State after)) ||
                   bool_decide (length (st_Attempts after) < length (st_Attempts before))%nat ||
                   bool_decide (length (st_Attempts before) + 1 < length (st_Attempts after))%nat) ErrTransition in
  reject_if (negb (valid_attempts_transition (st_Attempts before) (st_Attempts after))) ErrTransition.

Fixpoint validate_steps_transition (previous next : Objective) (before after : list ObjectiveStep) : result unit :=
  match before, after with
  | b :: bs, a :: rest =>
      check validate_step_transition previous next b a in
      validate_steps_transition previous next bs rest
  | _, _ => Ok tt
  end.

Definition ValidateTransition (previous next : Objective) : result unit :=
  check reject_if (negb (ob_Valid previous) || negb (ob_Valid next) || terminal previous ||
                   (ob_Version previous <>? ob_Version next) || (ob_ObjectiveID previous <>? ob_ObjectiveID next) ||
                   (ob_Scope previous <>? ob_Scope next) || (ob_Revision next <>? wrapU64 (ob_Revision previous + 1)) ||
                   (rp_maxTier (ob_Policy previous) <>? rp_maxTier (ob_Policy next)) ||
                   (rp_allowed (ob_Policy previous) <>? rp_allowed (ob_Policy next)) ||
                   bool_decide (length (ob_Steps previous) <> length (ob_Steps next)) ||
                   negb (validObjectiveStateTransition (ob_State previous) (ob_State next))) ErrTransition in
  validate_steps_transition previous next (ob_Steps previous) (ob_Steps next).
