(* ===== verification/DevInv.v ===== *)
(** * What a valid objective is

    The snapshot check of [record.go] runs loops over maps and counters; here it is
    shown to decide a declarative predicate: properties of single steps, three
    uniqueness conditions, and a condition on the objective's state. *)

From S2P Require Import Prelude GoStrings GoRegexp Sha256 DevCapability DevResolver DevAttempt DevProvision DevObjective DevOps.

(** ** Control flow *)
Lemma rbind_ok {A B} (m : result A) (f : A -> result B) x : rbind m f = Ok x <-> exists a, m = Ok a /\ f a = Ok x.
Proof.
  destruct m as [a|e]; cbn; [|split; [done|by intros (? & ? & _)]].
  split; [by exists a|]. by intros (? & [= <-] & ?).
Qed.

Lemma reject_ok {A} b e (f : unit -> result A) x : rbind (reject_if b e) f = Ok x <-> b = false /\ f tt = Ok x.
Proof. destruct b; cbn; split; try done; by intros [? ?]. Qed.

(** ** Single steps *)
(** A step's attempts: well-formed, of this step, each the legal continuation of
    the one before, and a failure class exactly on failed ones. *)
Definition attempt_ok (stepID : string) (previous : option ExecutionAttempt) (a : ExecutionAttempt) : Prop :=
  validIdentity a = true /\ at_StepID a = stepID /\
  (match previous with None => at_ParentAttemptID a = "" | Some p => validAttemptContinuation p a = true end) /\
  (if at_State a =? AttemptFailed then ContinuationForFailure (at_Failure a) <> None else at_Failure a = "").

Fixpoint attempts_ok (stepID : string) (previous : option ExecutionAttempt) (l : list ExecutionAttempt) : Prop :=
  match l with
  | [] => True
  | a :: rest => attempt_ok stepID previous a /\ attempts_ok stepID (Some a) rest
  end.

(** Provisioning: valid, inside the policy, and only the last one active. *)
Fixpoint provisions_ok (policy : ResolutionPolicy) (l : list ProvisioningAttempt) : Prop :=
  match l with
  | [] => True
  | p :: rest =>
      pv_Valid p = true /\ AllowsClass policy (pl_OutputClass (pv_Plan p)) = true /\
      (rest <> [] -> ~ pv_active p) /\ provisions_ok policy rest
  end.

Record step_ok (policy : ResolutionPolicy) (s : ObjectiveStep) : Prop := {
  so_id : MatchString identityPattern (st_StepID s) = true;
  so_state : validStepState (st_State s) = true;
  so_budget : (length (st_Attempts s) <= MaxAttemptsPerStep)%nat;
  so_reqs : canonical_reqs (st_Requirements s);
  so_attempts : attempts_ok (st_StepID s) None (st_Attempts s);
  so_contract : forall c, st_AcceptanceContract s = Some c ->
    contract_validFor c policy (st_Requirements s) = true /\
    Forall (fun a => at_SourceDigest a = ct_SourceDigest c) (st_Attempts s);
  so_class : Forall (fun a => AllowsClass policy (at_Class a) = true) (st_Attempts s);
  so_prov_budget : (length (st_Provisioning s) <= MaxProvisioningAttemptsPerStep)%nat;
  so_prov : provisions_ok policy (st_Provisioning s);
  so_overlap : activeProvisioning s = true ->
    st_State s <> StepRunning /\ st_State s <> StepSucceeded /\ st_State s <> StepCancelled;
  so_cover : activeProvisioning s = true -> forall p, last (st_Provisioning s) = Some p ->
    Covers (pv_Plan p) (requirementIDs (st_Requirements s)) = true;
  so_match : stepStateMatchesAttempts s = true }.

Definition receipt_ok (o : Objective) (index : nat) (s : ObjectiveStep) : Prop :=
  forall r, st_AcceptanceReceipt s = Some r ->
    st_AcceptanceContract s <> None /\ ob_State o = ObjectiveAccepted /\ receipt_validFor r o index = true.

(** The identifiers a step uses, in the order the check meets them. *)
Definition step_ids (s : ObjectiveStep) : list string := (at_AttemptID <$> st_Attempts s) ++ (pv_ProvisionID <$> st_Provisioning s).
Definition step_ops (s : ObjectiveStep) : list string :=
  match st_AcceptanceReceipt s with Some r => [rt_OperationID r] | None => [] end.

Definition disjoint_from (l seen : list string) : Prop := forall x, x ∈ l -> x ∉ seen.

Lemma disjoint_from_cons x l seen : disjoint_from (x :: l) seen <-> x ∉ seen /\ disjoint_from l seen.
Proof. unfold disjoint_from. set_solver. Qed.

Lemma NoDup_disjoint_cons x l seen :
  x ∉ seen /\ (NoDup l /\ disjoint_from l (x :: seen)) <-> NoDup (x :: l) /\ disjoint_from (x :: l) seen.
Proof.
  rewrite NoDup_cons, disjoint_from_cons. unfold disjoint_from. split.
  - intros (Hx & Hnd & Hd). split_and!; try done; [intros Hin; specialize (Hd x Hin); set_solver|].
    intros y Hy. specialize (Hd y Hy). set_solver.
  - intros ([Hni Hnd] & Hx & Hd). split_and!; try done. intros y Hy. specialize (Hd y Hy). set_solver.
Qed.

Lemma validate_attempts_spec stepID previous l global g : validate_attempts stepID previous l global = Ok g <->
  attempts_ok stepID previous l /\ (NoDup (at_AttemptID <$> l) /\ disjoint_from (at_AttemptID <$> l) global) /\
  g = rev (at_AttemptID <$> l) ++ global.
Proof.
  revert previous global. induction l as [|a l IH]; intros previous global; cbn [validate_attempts attempts_ok fmap list_fmap].
  { split; [intros [= <-]; split_and!; try done; [constructor|by intros x []%elem_of_nil]|by intros (_ & _ & ->)]. }
  rewrite !reject_ok, IH, <- NoDup_disjoint_cons. unfold attempt_ok.
  rewrite orb_false_iff, negb_false_iff, negb_false_iff, bool_decide_eq_true, bool_decide_eq_false.
  cbn [rev]. rewrite <- app_assoc. cbn [app].
  assert (E1 : (match previous with None => at_ParentAttemptID a <>? "" | Some p => negb (validAttemptContinuation p a) end = false) <->
    match previous with None => at_ParentAttemptID a = "" | Some p => validAttemptContinuation p a = true end).
  { destruct previous; rewrite negb_false_iff; [done|]. by rewrite bool_decide_eq_true. }
  assert (E2 : ((if at_State a =? AttemptFailed then bool_decide (ContinuationForFailure (at_Failure a) = None) else at_Failure a <>? "") = false) <->
    (if at_State a =? AttemptFailed then ContinuationForFailure (at_Failure a) <> None else at_Failure a = "")).
  { destruct (bool_decide_reflect (at_State a = AttemptFailed)); [by rewrite bool_decide_eq_false|]. by rewrite negb_false_iff, bool_decide_eq_true. }
  rewrite E1, E2. tauto.
Qed.

Lemma pv_active_bool p : (pv_State p =? ProvisioningPlanned) || (pv_State p =? ProvisioningQueued) = false <-> ~ pv_active p.
Proof. unfold pv_active. rewrite orb_false_iff, !bool_decide_eq_false. tauto. Qed.

Lemma validate_provisions_spec policy l global g : validate_provisions policy l global = Ok g <->
  provisions_ok policy l /\ (NoDup (pv_ProvisionID <$> l) /\ disjoint_from (pv_ProvisionID <$> l) global) /\
  g = rev (pv_ProvisionID <$> l) ++ global.
Proof.
  revert global. induction l as [|p l IH]; intros global; cbn [validate_provisions provisions_ok fmap list_fmap].
  { split; [intros [= <-]; split_and!; try done; [constructor|by intros x []%elem_of_nil]|by intros (_ & _ & ->)]. }
  rewrite !reject_ok, IH, <- NoDup_disjoint_cons, orb_false_iff, !negb_false_iff, bool_decide_eq_false.
  cbn [rev]. rewrite <- app_assoc. cbn [app].
  assert (E : (match l with [] => false | _ => (pv_State p =? ProvisioningPlanned) || (pv_State p =? ProvisioningQueued) end = false) <->
    (l <> [] -> ~ pv_active p)).
  { destruct l as [|q l]; [split; [by intros _ ?|done]|]. rewrite pv_active_bool. split; [by intros ? _|by intros H; apply H]. }
  rewrite E. tauto.
Qed.

Lemma sameRequirements_spec l r : sameRequirements l r = true <-> l = r.
Proof.
  unfold sameRequirements. rewrite andb_true_iff, bool_decide_eq_true. revert r.
  induction l as [|[x] l IH]; intros [|[y] r]; cbn [zip zip_with forallb length]; try (split; [by intros [? _]|done]).
  rewrite andb_true_iff, bool_decide_eq_true. cbn [fst snd req_ID]. specialize (IH r). split.
  - intros (Hlen & -> & Hf). f_equal. apply IH. split; [congruence|done].
  - intros [= -> ->]. destruct (proj2 IH eq_refl). done.
Qed.

Lemma canonical_check l : validate_requirements l = Ok tt <-> canonical_reqs l.
Proof.
  unfold validate_requirements. split.
  - destruct (normalizeRequirementList l) as [k|] eqn:E; [|done]. rewrite reject_if_ok, negb_false_iff, sameRequirements_spec.
    intros ->. by apply normalizeRequirementList_spec in E as [? _].
  - intros Hc. rewrite normalizeRequirementList_canonical by done. rewrite reject_if_ok, negb_false_iff.
    by apply sameRequirements_spec.
Qed.

Lemma existsb_false_Forall {A} (f : A -> bool) l : existsb f l = false <-> Forall (fun x => f x = false) l.
Proof. induction l as [|x l IH]; cbn; [done|]. by rewrite orb_false_iff, Forall_cons, IH. Qed.

Lemma existsb_negb_Forall {A} (f : A -> bool) l : existsb (fun x => negb (f x)) l = false <-> Forall (fun x => f x = true) l.
Proof.
  rewrite existsb_false_Forall. split; intros H; (eapply Forall_impl; [exact H|]); cbn; intros x; apply negb_false_iff.
Qed.

(** The state of the loop after a step. *)
Definition acc_step (s : ObjectiveStep) (acc : snapshot_acc) : snapshot_acc :=
  {| sn_stepIDs := st_StepID s :: sn_stepIDs acc; sn_attemptIDs := rev (step_ids s) ++ sn_attemptIDs acc;
     sn_operationIDs := step_ops s ++ sn_operationIDs acc;
     sn_allSucceeded := sn_allSucceeded acc && (st_State s =? StepSucceeded);
     sn_receiptCount := (length (step_ops s) + sn_receiptCount acc)%nat |}.

Lemma contract_check policy s : validate_contract policy s = Ok tt <->
  forall c, st_AcceptanceContract s = Some c ->
    contract_validFor c policy (st_Requirements s) = true /\ Forall (fun a => at_SourceDigest a = ct_SourceDigest c) (st_Attempts s).
Proof.
  unfold validate_contract.
  destruct (st_AcceptanceContract s) as [c|]; [|by split].
  rewrite reject_ok, reject_if_ok, negb_false_iff, existsb_negb_Forall.
  assert (E : Forall (fun a => (at_SourceDigest a =? ct_SourceDigest c) = true) (st_Attempts s) <->
              Forall (fun a => at_SourceDigest a = ct_SourceDigest c) (st_Attempts s)).
  { split; intros H; (eapply Forall_impl; [exact H|]); cbn; intros a; apply bool_decide_eq_true. }
  rewrite E. split; [by intros ? ? [= <-]|]. intros H. by apply H.
Qed.

Lemma receipt_check o index s seen count x : validate_receipt o index s seen count = Ok x <->
  receipt_ok o index s /\ disjoint_from (step_ops s) seen /\ x = (step_ops s ++ seen, (length (step_ops s) + count)%nat).
Proof.
  unfold validate_receipt, receipt_ok, step_ops. destruct (st_AcceptanceReceipt s) as [r|]; cbn [app length].
  - rewrite !reject_ok, !orb_false_iff, !negb_false_iff, !bool_decide_eq_false, bool_decide_eq_true. split.
    + intros ([[H1 H2] H3] & H4 & [= <-]). split_and!; [by intros ? [= <-]| |done].
      intros y Hy. apply list_elem_of_singleton in Hy. by subst.
    + intros (H1 & H2 & ->). destruct (H1 r eq_refl) as (? & ? & ?). split_and!; try done. apply H2. left.
  - split; [intros [= <-]; split_and!; [done|by intros y []%elem_of_nil|done]|]. by intros (_ & _ & ->).
Qed.

Lemma provisioning_check s policy global g : validateObjectiveProvisioning s policy global = Ok g <->
  (length (st_Provisioning s) <= MaxProvisioningAttemptsPerStep)%nat /\ provisions_ok policy (st_Provisioning s) /\
  (activeProvisioning s = true -> st_State s <> StepRunning /\ st_State s <> StepSucceeded /\ st_State s <> StepCancelled) /\
  (activeProvisioning s = true -> forall p, last (st_Provisioning s) = Some p ->
    Covers (pv_Plan p) (requirementIDs (st_Requirements s)) = true) /\
  (NoDup (pv_ProvisionID <$> st_Provisioning s) /\ disjoint_from (pv_ProvisionID <$> st_Provisioning s) global) /\
  g = rev (pv_ProvisionID <$> st_Provisioning s) ++ global.
Proof.
  unfold validateObjectiveProvisioning. rewrite reject_ok, rbind_ok. setoid_rewrite validate_provisions_spec.
  setoid_rewrite reject_ok. setoid_rewrite reject_ok. rewrite bool_decide_eq_false, Nat.nlt_ge.
  assert (E1 : activeProvisioning s && ((st_State s =? StepRunning) || (st_State s =? StepSucceeded) || (st_State s =? StepCancelled)) = false <->
    (activeProvisioning s = true -> st_State s <> StepRunning /\ st_State s <> StepSucceeded /\ st_State s <> StepCancelled)).
  { destruct (activeProvisioning s); cbn [andb]; [|done]. rewrite !orb_false_iff, !bool_decide_eq_false. tauto. }
  assert (E2 : activeProvisioning s && (match last (st_Provisioning s) with
      | Some p => negb (Covers (pv_Plan p) (requirementIDs (st_Requirements s))) | None => false end) = false <->
    (activeProvisioning s = true -> forall p, last (st_Provisioning s) = Some p ->
      Covers (pv_Plan p) (requirementIDs (st_Requirements s)) = true)).
  { destruct (activeProvisioning s); cbn [andb]; [|done]. destruct (last (st_Provisioning s)) as [p|]; [|done].
    rewrite negb_false_iff. split; [by intros ? _ ? [= <-]|]. intros H. by apply H. }
  setoid_rewrite E1. setoid_rewrite E2. split.
  - intros (H1 & a & (H2 & H3 & ->) & H4 & H5 & [= <-]). tauto.
  - intros (H1 & H2 & H4 & H5 & [H3 H6] & ->). split; [done|]. eexists. by split_and!.
Qed.

Lemma NoDup_disjoint_app l k seen :
  (NoDup l /\ disjoint_from l seen) /\ (NoDup k /\ disjoint_from k (rev l ++ seen)) <->
  NoDup (l ++ k) /\ disjoint_from (l ++ k) seen.
Proof.
  rewrite NoDup_app. unfold disjoint_from. split.
  - intros ([H1 H2] & H3 & H4). split_and!; try done.
    + intros x Hl Hk. specialize (H4 x Hk). apply H4, elem_of_app. left. by rewrite <- Permutation_rev.
    + intros x [Hx|Hx]%elem_of_app; [by apply H2|]. specialize (H4 x Hx). set_solver.
  - intros ((H1 & H2 & H3) & H4). split_and!; try done; [set_solver|].
    intros x Hk [Hl|Hs]%elem_of_app; [rewrite <- Permutation_rev in Hl; by apply (H2 x)|set_solver].
Qed.

Lemma validate_step_spec o index s acc acc' : validate_step o index s acc = Ok acc' <->
  step_ok (ob_Policy o) s /\ receipt_ok o index s /\ st_StepID s ∉ sn_stepIDs acc /\
  (NoDup (step_ids s) /\ disjoint_from (step_ids s) (sn_attemptIDs acc)) /\
  disjoint_from (step_ops s) (sn_operationIDs acc) /\ acc' = acc_step s acc.
Proof.
  unfold validate_step, step_ids. rewrite <- NoDup_disjoint_app, !reject_ok, rbind_ok, !orb_false_iff, !negb_false_iff, !bool_decide_eq_false.
  rewrite Nat.nlt_ge. split.
  - intros ([[H1 H2] H3] & H4 & [] & H5%canonical_check & H6). apply rbind_ok in H6 as (ids & H6 & H7).
    apply validate_attempts_spec in H6 as (H6 & H8 & ->). apply rbind_ok in H7 as ([] & H9 & H7). pose proof (proj1 (contract_check _ _) H9) as H9c.
    apply rbind_ok in H7 as (ops & H10 & H7).
    apply receipt_check in H10 as (H10 & H11 & ->).
    apply reject_ok in H7 as [H12%existsb_negb_Forall H7]. apply rbind_ok in H7 as (ids & H13 & H7).
    apply provisioning_check in H13 as (H13 & H14 & H15 & H16 & H17 & ->).
    apply reject_ok in H7 as [H18%negb_false_iff [= <-]]. destruct H8, H17.
    split; [by constructor|]. split_and!; try done.
    unfold acc_step, step_ids. cbn [fst snd]. rewrite rev_app_distr. by rewrite app_assoc.
  - intros ([H1 H2 H3 H5 H6 H9c H12 H13 H14 H15 H16 H18] & H10 & H4 & [[H8 H8'] [H17 H17']] & H11 & ->).
    split_and!; try done. exists tt. split; [by apply canonical_check|]. apply rbind_ok. eexists. split; [by apply validate_attempts_spec|].
    apply rbind_ok. exists tt. split; [by apply (proj2 (contract_check _ _) H9c)|]. apply rbind_ok. eexists.
    split; [by apply receipt_check|].
    apply reject_ok. split; [by apply existsb_negb_Forall|]. apply rbind_ok. eexists.
    split; [by apply provisioning_check|]. apply reject_ok. split; [by apply negb_false_iff|].
    unfold acc_step, step_ids. cbn [fst snd]. rewrite rev_app_distr. by rewrite app_assoc.
Qed.

(** ** All steps *)
Definition all_ids (steps : list ObjectiveStep) : list string := concat (step_ids <$> steps).
Definition all_ops (steps : list ObjectiveStep) : list string := concat (step_ops <$> steps).

Definition steps_ok (o : Objective) (index : nat) (steps : list ObjectiveStep) : Prop :=
  forall k s, steps !! k = Some s -> step_ok (ob_Policy o) s /\ receipt_ok o (index + k) s.

Definition acc_steps (steps : list ObjectiveStep) (acc : snapshot_acc) : snapshot_acc := fold_left (flip acc_step) steps acc.

Lemma steps_ok_cons o index s steps : steps_ok o index (s :: steps) <->
  (step_ok (ob_Policy o) s /\ receipt_ok o index s) /\ steps_ok o (S index) steps.
Proof.
  unfold steps_ok. split.
  - intros H. split; [specialize (H O s eq_refl); by rewrite Nat.add_0_r in H|].
    intros k s' Hk. specialize (H (S k) s' Hk). by rewrite Nat.add_succ_r in H.
  - intros [H1 H2] [|k] s' Hk; [injection Hk as <-; by rewrite Nat.add_0_r|]. rewrite Nat.add_succ_r. by apply H2.
Qed.

Lemma validate_steps_spec o index steps acc acc' : validate_steps o index steps acc = Ok acc' <->
  steps_ok o index steps /\
  (NoDup (st_StepID <$> steps) /\ disjoint_from (st_StepID <$> steps) (sn_stepIDs acc)) /\
  (NoDup (all_ids steps) /\ disjoint_from (all_ids steps) (sn_attemptIDs acc)) /\
  (NoDup (all_ops steps) /\ disjoint_from (all_ops steps) (sn_operationIDs acc)) /\
  acc' = acc_steps steps acc.
Proof.
  revert index acc. induction steps as [|s steps IH]; intros index acc; cbn [validate_steps].
  { split; [|by intros (_ & _ & _ & _ & ->)]. intros [= <-]. unfold all_ids, all_ops, steps_ok, disjoint_from. cbn.
    split_and!; try (by apply NoDup_nil_2); try done; by intros ? []%elem_of_nil. }
  rewrite rbind_ok. unfold all_ids, all_ops. cbn [fmap list_fmap concat].
  rewrite steps_ok_cons, <- NoDup_disjoint_cons, <- !NoDup_disjoint_app.
  assert (Hops : NoDup (step_ops s)) by (unfold step_ops; destruct (st_AcceptanceReceipt s); repeat constructor; set_solver).
  assert (Hrev : rev (step_ops s) = step_ops s) by (unfold step_ops; by destruct (st_AcceptanceReceipt s)).
  rewrite Hrev. change (acc_steps (s :: steps) acc) with (acc_steps steps (acc_step s acc)). split.
  - intros (a & (H1 & H2 & H3 & H4 & H5 & ->)%validate_step_spec & (H6 & H7 & H8 & H9 & ->)%IH). tauto.
  - intros ([[H1 H2] H6] & [H3 H7] & [H4 H8] & [H5 H9] & ->).
    exists (acc_step s acc). rewrite validate_step_spec, IH. tauto.
Qed.

Lemma acc_steps_fields steps acc :
  sn_allSucceeded (acc_steps steps acc) = sn_allSucceeded acc && forallb (fun s => st_State s =? StepSucceeded) steps /\
  sn_receiptCount (acc_steps steps acc) = (length (all_ops steps) + sn_receiptCount acc)%nat.
Proof.
  revert acc. induction steps as [|s steps IH]; intros acc; [cbn; by rewrite andb_true_r|].
  change (acc_steps (s :: steps) acc) with (acc_steps steps (acc_step s acc)).
  destruct (IH (acc_step s acc)) as [-> ->]. cbn [acc_step sn_allSucceeded sn_receiptCount forallb]. split; [by rewrite andb_assoc|].
  unfold all_ops. cbn [fmap list_fmap concat]. rewrite length_app. lia.
Qed.

(** ** Objectives *)
Definition header_ok (o : Objective) : Prop :=
  ob_Version o = ObjectiveVersion /\ MatchString identityPattern (ob_ObjectiveID o) = true /\ ob_Revision o <> 0 /\
  validOrEmpty (ob_Scope o) = true /\ policy_ok (ob_Policy o) /\
  (0 < length (ob_Steps o) <= MaxObjectiveSteps)%nat /\ validObjectiveState (ob_State o) = true.

Definition all_succeeded (steps : list ObjectiveStep) : bool := forallb (fun s => st_State s =? StepSucceeded) steps.

(** The condition on the objective's state. *)
Definition state_acc (steps : list ObjectiveStep) : snapshot_acc :=
  {| sn_stepIDs := []; sn_attemptIDs := []; sn_operationIDs := []; sn_allSucceeded := all_succeeded steps;
     sn_receiptCount := length (all_ops steps) |}.
Definition state_ok (o : Objective) : Prop := validate_state o (state_acc (ob_Steps o)) = Ok tt.

Record objective_ok (o : Objective) : Prop := {
  oo_header : header_ok o;
  oo_mode : sameCommandAcceptanceContractMode (ob_Steps o) = true;
  oo_steps : steps_ok o 0 (ob_Steps o);
  oo_stepIDs : NoDup (st_StepID <$> ob_Steps o);
  oo_ids : NoDup (all_ids (ob_Steps o));
  oo_ops : NoDup (all_ops (ob_Steps o));
  oo_state : state_ok o }.

Lemma disjoint_nil l : disjoint_from l [].
Proof. intros x _. apply not_elem_of_nil. Qed.

(** The snapshot check decides the predicate. *)
Lemma ob_Valid_spec o : ob_Valid o = true <-> objective_ok o.
Proof.
  unfold ob_Valid. assert (Hok : forall r : result unit, is_ok r = true <-> r = Ok tt) by (intros [[]|]; done).
  rewrite Hok. unfold validateObjectiveSnapshot. rewrite !reject_ok, rbind_ok, !orb_false_iff, !negb_false_iff, !bool_decide_eq_false.
  setoid_rewrite validate_steps_spec. rewrite bool_decide_eq_true, policy_valid_spec, Nat.nlt_ge.
  assert (Hst : validate_state o (acc_steps (ob_Steps o) snapshot_init) = validate_state o (state_acc (ob_Steps o))).
  { destruct (acc_steps_fields (ob_Steps o) snapshot_init) as [E1 E2]. unfold validate_state, state_acc, all_succeeded.
    cbn [sn_allSucceeded sn_receiptCount]. rewrite E1, E2. cbn [snapshot_init sn_allSucceeded sn_receiptCount andb].
    by rewrite Nat.add_0_r. }
  split.
  - intros ([[[[[[[H1 H2] H3] H4] H5] H6] H7] H8] & H9 & acc & (H10 & [H11 _] & [H12 _] & [H13 _] & ->) & H14).
    constructor; try done; [unfold header_ok; split_and!; try done; lia|]. unfold state_ok. by rewrite <- Hst.
  - intros [(H1 & H2 & H3 & H4 & H5 & [H6 H7] & H8) H9 H10 H11 H12 H13 H14].
    split_and!; try done; [lia|]. eexists. split; [split_and!; try done; apply disjoint_nil|]. by rewrite Hst.
Qed.
