(* ===== verification/DevPreserve.v ===== *)
(** * Operations keep objectives valid

    The invariant of reachable objectives, and the lemmas that carry it through an
    update of one step. *)

From S2P Require Import Prelude GoStrings GoRegexp Sha256 DevCapability DevResolver DevAttempt DevProvision DevObjective DevOps DevInv.

(** ** Updating one step *)
Lemma insert_split {A} (l : list A) i x y : l !! i = Some x ->
  exists l1 l2, l = l1 ++ x :: l2 /\ <[i := y]> l = l1 ++ y :: l2 /\ length l1 = i.
Proof.
  intros H. exists (take i l), (drop (S i) l). pose proof (lookup_lt_Some _ _ _ H) as Hlt. split_and!.
  - by rewrite take_drop_middle.
  - by apply insert_take_drop.
  - rewrite length_take. lia.
Qed.

Lemma Forall_insert_lookup {A} (P : A -> Prop) (l : list A) (i : nat) x : Forall P l -> P x -> Forall P (<[i := x]> l).
Proof. intros. by apply Forall_insert. Qed.

Lemma fmap_insert_same {A B} (f : A -> B) (l : list A) (i : nat) x y : l !! i = Some x -> f y = f x -> f <$> <[i := y]> l = f <$> l.
Proof. intros H E. rewrite list_fmap_insert, E. apply list_insert_id. by rewrite list_lookup_fmap, H. Qed.

Lemma existsb_insert_same {A} (f : A -> bool) (l : list A) (i : nat) x y : l !! i = Some x -> f y = f x -> existsb f (<[i := y]> l) = existsb f l.
Proof.
  intros H E. destruct (insert_split l i x y H) as (l1 & l2 & El & -> & _). rewrite El, !existsb_app. cbn. by rewrite E.
Qed.

Lemma forallb_insert_same {A} (f : A -> bool) (l : list A) (i : nat) x y : l !! i = Some x -> f y = f x -> forallb f (<[i := y]> l) = forallb f l.
Proof.
  intros H E. destruct (insert_split l i x y H) as (l1 & l2 & El & -> & _). rewrite El, !forallb_app. cbn. by rewrite E.
Qed.

Lemma forallb_insert_false {A} (f : A -> bool) (l : list A) (i : nat) x y : l !! i = Some x -> f y = false -> forallb f (<[i := y]> l) = false.
Proof.
  intros H E. destruct (insert_split l i x y H) as (l1 & l2 & El & -> & _). rewrite forallb_app. cbn. by rewrite E, andb_false_r.
Qed.

Lemma existsb_insert_true {A} (f : A -> bool) (l : list A) (i : nat) x y : l !! i = Some x -> f y = true -> existsb f (<[i := y]> l) = true.
Proof.
  intros H E. destruct (insert_split l i x y H) as (l1 & l2 & El & -> & _). rewrite existsb_app. cbn. by rewrite E, orb_true_r.
Qed.

Lemma all_ids_app l k : all_ids (l ++ k) = all_ids l ++ all_ids k.
Proof. unfold all_ids. by rewrite fmap_app, concat_app. Qed.

Lemma all_ids_insert steps i s s' : steps !! i = Some s -> NoDup (all_ids steps) -> NoDup (step_ids s') ->
  (forall x, x ∈ step_ids s' -> x ∈ step_ids s \/ x ∉ all_ids steps) -> NoDup (all_ids (<[i := s']> steps)).
Proof.
  intros H Hnd Hs' Hx. destruct (insert_split steps i s s' H) as (l1 & l2 & El & -> & _). subst steps.
  rewrite all_ids_app in *. change (all_ids (s :: l2)) with (step_ids s ++ all_ids l2) in *.
  change (all_ids (s' :: l2)) with (step_ids s' ++ all_ids l2).
  rewrite !NoDup_app in *. destruct Hnd as (H1 & H2 & H3 & H4 & H5). split_and!; try done.
  - intros x Hx1 [Hx2|Hx2]%elem_of_app; [|apply (H2 x Hx1), elem_of_app; by right].
    destruct (Hx x Hx2) as [?|Hno]; [apply (H2 x Hx1), elem_of_app; by left|]. apply Hno, elem_of_app. by left.
  - intros x Hx1 Hx2. destruct (Hx x Hx1) as [?|Hno]; [by apply (H4 x)|].
    apply Hno. rewrite !elem_of_app. by right; right.
Qed.

Definition no_receipts (steps : list ObjectiveStep) : Prop := Forall (fun s => st_AcceptanceReceipt s = None) steps.

Lemma objective_no_receipts o : objective_ok o -> ob_State o <> ObjectiveAccepted -> no_receipts (ob_Steps o).
Proof.
  intros Ho Hst. apply Forall_lookup. intros i s Hi. destruct (oo_steps o Ho i s Hi) as [_ Hr].
  destruct (st_AcceptanceReceipt s) as [r|] eqn:E; [|done]. by destruct (Hr r E) as (_ & ? & _).
Qed.

Lemma all_ops_none steps : no_receipts steps -> all_ops steps = [].
Proof.
  induction 1 as [|s steps Hs _ IH]; [done|]. unfold all_ops. cbn [fmap list_fmap concat]. unfold step_ops at 1.
  rewrite Hs. exact IH.
Qed.

Lemma not_terminal o : terminal o = false -> ob_State o <> ObjectiveAccepted /\ ob_State o <> ObjectiveFailed /\ ob_State o <> ObjectiveCancelled.
Proof. unfold terminal. rewrite !orb_false_iff, !bool_decide_eq_false. tauto. Qed.

Lemma mode_spec steps : sameCommandAcceptanceContractMode steps = true <->
  Forall (fun s => st_AcceptanceContract s = None) steps \/ Forall (fun s => st_AcceptanceContract s <> None) steps.
Proof.
  unfold sameCommandAcceptanceContractMode. rewrite orb_true_iff, !bool_decide_eq_true.
  assert (H0 : length (filter (fun s => st_AcceptanceContract s <> None) steps) = 0%nat <-> Forall (fun s => st_AcceptanceContract s = None) steps).
  { induction steps as [|s steps IH]; [done|]. rewrite filter_cons, Forall_cons.
    destruct (decide (st_AcceptanceContract s <> None)) as [Hs|Hs]; cbn [length]; [split; [done|intros [? _]; congruence]|].
    rewrite IH. split; [|tauto]. intros ?. split; [|done]. by destruct (st_AcceptanceContract s); [destruct Hs|]. }
  assert (H1 : length (filter (fun s => st_AcceptanceContract s <> None) steps) = length steps <-> Forall (fun s => st_AcceptanceContract s <> None) steps).
  { clear H0. induction steps as [|s steps IH]; [done|]. rewrite filter_cons, Forall_cons.
    pose proof (length_filter (fun s => st_AcceptanceContract s <> None) steps).
    destruct (decide (st_AcceptanceContract s <> None)) as [Hs|Hs]; cbn [length]; [rewrite <- IH; split; [split; [done|lia]|intros [_ ?]; lia]|].
    split; [lia|by intros [? _]]. }
  by rewrite H0, H1.
Qed.

Lemma mode_insert steps i s s' : steps !! i = Some s -> st_AcceptanceContract s' = st_AcceptanceContract s ->
  sameCommandAcceptanceContractMode steps = true -> sameCommandAcceptanceContractMode (<[i := s']> steps) = true.
Proof.
  intros H E. rewrite !mode_spec. intros [Hf|Hf]; [left|right]; apply Forall_insert_lookup; try done; rewrite E;
    rewrite Forall_lookup in Hf; by eapply Hf.
Qed.

Lemma next_revision r : 0 < r -> r + 1 < two64 -> wrapU64 (r + 1) = r + 1.
Proof. intros. apply wrapU64_id. unfold in_uint64. lia. Qed.

(** An objective stays valid when one step is replaced by a valid one with the same
    identity and fresh identifiers, and the new state fits. *)
Lemma revise_ok o i s s' state : objective_ok o -> ob_State o <> ObjectiveAccepted -> 0 < ob_Revision o -> ob_Revision o + 1 < two64 ->
  ob_Steps o !! i = Some s -> step_ok (ob_Policy o) s' -> st_StepID s' = st_StepID s ->
  st_AcceptanceContract s' = st_AcceptanceContract s -> st_AcceptanceReceipt s' = st_AcceptanceReceipt s ->
  NoDup (step_ids s') -> (forall x, x ∈ step_ids s' -> x ∈ step_ids s \/ x ∉ all_ids (ob_Steps o)) ->
  validObjectiveState state = true -> state_ok (revise o state (<[i := s']> (ob_Steps o))) ->
  objective_ok (revise o state (<[i := s']> (ob_Steps o))).
Proof.
  intros Ho Hacc Hr1 Hr2 Hi Hs' Eid Ect Ert Hnd Hx Hst Hstate.
  pose proof (objective_no_receipts o Ho Hacc) as Hno.
  assert (Hno' : no_receipts (<[i := s']> (ob_Steps o))).
  { apply Forall_insert_lookup; [done|]. rewrite Ert. unfold no_receipts in Hno. rewrite Forall_lookup in Hno. by eapply Hno. }
  destruct Ho as [(H1 & H2 & H3 & H4 & H5 & H6 & H7) Hmode Hsteps Hids Hall Hops Hso].
  constructor; cbn [revise ob_Steps ob_Version ob_ObjectiveID ob_Revision ob_Scope ob_Policy ob_State]; try done.
  - unfold header_ok. cbn [revise ob_Steps ob_Version ob_ObjectiveID ob_Revision ob_Scope ob_Policy ob_State].
    rewrite next_revision, length_insert by done. split_and!; try done; lia.
  - by apply (mode_insert _ i s).
  - intros k t Hk. split.
    + cbn. destruct (decide (k = i)) as [->|Hne].
      * rewrite list_lookup_insert_eq in Hk by (by eapply lookup_lt_Some). by injection Hk as <-.
      * rewrite list_lookup_insert_ne in Hk by done. by apply (Hsteps k t).
    + intros r Er. unfold no_receipts in Hno'. rewrite Forall_lookup in Hno'. specialize (Hno' k t Hk). cbn in Hno'. congruence.
  - by rewrite (fmap_insert_same _ _ _ s).
  - by apply (all_ids_insert _ i s).
  - rewrite all_ops_none by done. constructor.
Qed.

(** ** Transitions of single steps *)
Lemma pv_revision_refl p : pv_Valid p = true -> validProvisionRevision p p = true.
Proof.
  intros H. unfold validProvisionRevision. rewrite H, !bool_decide_true, sameProvisionAttempt_refl by done. done.
Qed.

Lemma provisions_ok_lookup policy l p : provisions_ok policy l -> p ∈ l -> pv_Valid p = true.
Proof.
  induction l as [|q l IH]; cbn; [by intros _ []%elem_of_nil|]. intros (Hv & _ & _ & Hl) [->|Hp]%elem_of_cons; auto.
Qed.

Lemma provision_prefix_app l k q grown : Forall (fun p => pv_Valid p = true) l -> k <> [] \/ grown = true ->
  provision_prefix (l ++ k) (l ++ q) grown = provision_prefix k q grown.
Proof.
  intros Hl Hk. induction Hl as [|p l Hp Hl IH]; [done|]. cbn [app provision_prefix]. rewrite IH, sameProvisionAttempt_refl.
  destruct (bool_decide (length (l ++ k) = 0%nat)) eqn:E; cbn [andb]; [|done].
  apply bool_decide_eq_true in E. rewrite length_app in E. destruct Hk as [Hk| ->]; [|done].
  destruct k; [done|]. cbn in E. lia.
Qed.

Lemma provision_prefix_refl l grown : Forall (fun p => pv_Valid p = true) l -> provision_prefix l l grown = true.
Proof.
  intros Hl. destruct l as [|p l _] using rev_ind; [done|]. apply Forall_app in Hl as [Hl [Hp _]%Forall_cons].
  rewrite provision_prefix_app by (done || by left). cbn. rewrite sameProvisionAttempt_refl, pv_revision_refl by done. by destruct grown.
Qed.

Lemma validProvisionHistory_refl l : Forall (fun p => pv_Valid p = true) l -> validProvisionHistory l l = true.
Proof.
  intros Hl. unfold validProvisionHistory. rewrite !bool_decide_false by lia. cbn [orb].
  by rewrite provision_prefix_refl.
Qed.

Lemma validProvisionHistory_snoc l p : Forall (fun p => pv_Valid p = true) l ->
  (forall q, last l = Some q -> ~ pv_active q) -> pv_State p = ProvisioningPlanned -> validProvisionHistory l (l ++ [p]) = true.
Proof.
  intros Hl Hlast Hp. unfold validProvisionHistory. rewrite length_app. cbn [length].
  rewrite (bool_decide_false (length l + 1 < length l)%nat), (bool_decide_false (length l + 1 < length l + 1)%nat) by lia.
  rewrite bool_decide_true by done. cbn [orb]. rewrite <- (app_nil_r l) at 1. rewrite provision_prefix_app by (done || by right).
  cbn [negb provision_prefix]. rewrite last_snoc, Hp.
  destruct (last l) as [q|]; [|by rewrite bool_decide_true].
  rewrite (proj2 (pv_active_bool q) (Hlast q eq_refl)). by rewrite bool_decide_true.
Qed.

Lemma set_last_snoc {A} (l : list A) x y : set_last (l ++ [x]) y = l ++ [y].
Proof.
  unfold set_last. rewrite length_app. cbn [length]. replace (length l + 1 - 1)%nat with (length l + 0)%nat by lia.
  by rewrite insert_app_r.
Qed.

Lemma last_split {A} (l : list A) x : last l = Some x -> exists l', l = l' ++ [x].
Proof. intros H. apply last_Some in H as [l' ->]. by exists l'. Qed.

Lemma validProvisionHistory_last l p q : Forall (fun p => pv_Valid p = true) l -> last l = Some p ->
  validProvisionRevision p q = true -> validProvisionHistory l (set_last l q) = true.
Proof.
  intros Hl [l' ->]%last_split Hr. rewrite set_last_snoc. apply Forall_app in Hl as [Hl _].
  unfold validProvisionHistory. rewrite !length_app. cbn [length]. rewrite !bool_decide_false by lia. cbn [orb].
  rewrite provision_prefix_app by (done || by left). cbn. by rewrite Hr.
Qed.

Lemma validAttemptRevision_refl a : validAttemptRevision a a = true.
Proof.
  unfold validAttemptRevision. by rewrite (bool_decide_true (at_set_state a "" "" = _)), (bool_decide_true (at_State a = at_State a)),
    (bool_decide_true (at_Failure a = at_Failure a)).
Qed.

Lemma valid_attempts_refl l : valid_attempts_transition l l = true.
Proof.
  unfold valid_attempts_transition. rewrite bool_decide_false by lia. destruct (last l); [|done].
  by rewrite bool_decide_true, validAttemptRevision_refl.
Qed.

Lemma valid_attempts_snoc l a :
  (match last l with
   | Some p => at_State p = AttemptFailed /\ at_ParentAttemptID a = at_AttemptID p
   | None => at_ParentAttemptID a = ""
   end) -> at_State a = AttemptPlanned -> valid_attempts_transition l (l ++ [a]) = true.
Proof.
  intros Hp Ha. unfold valid_attempts_transition. rewrite length_app. cbn [length]. rewrite bool_decide_true by done.
  rewrite take_app_length, bool_decide_true, last_snoc, Ha by done. cbn [andb].
  destruct (last l) as [p|]; [destruct Hp as [-> ->]|rewrite Hp]; by rewrite !bool_decide_true.
Qed.

Lemma valid_attempts_last l a b : last l = Some a -> validAttemptRevision a b = true ->
  valid_attempts_transition l (set_last l b) = true.
Proof.
  intros [l' ->]%last_split Hr. rewrite set_last_snoc. unfold valid_attempts_transition. rewrite !length_app. cbn [length].
  rewrite bool_decide_false by lia. rewrite !last_snoc. rewrite Nat.add_sub, !take_app_length, bool_decide_true by done. by rewrite Hr.
Qed.

Lemma requirementsSubset_canonical b a : canonical_reqs b -> canonical_reqs a ->
  (forall x, x ∈ req_ID <$> b -> x ∈ req_ID <$> a) -> requirementsSubset b a = true.
Proof.
  unfold canonical_reqs, canonical_ids. revert b. induction a as [|r a IH]; intros b (Hs & Hnd & Hf) (Hs' & Hnd' & Hf') Hx.
  { destruct b as [|x b]; [done|]. exfalso. apply (elem_of_nil (req_ID x)). apply (Hx (req_ID x)). left. }
  cbn [requirementsSubset]. destruct b as [|x b]; [done|]. cbn [fmap list_fmap] in *.
  apply StronglySorted_inv in Hs as [Hs Hall], Hs' as [Hs' Hall']. apply NoDup_cons in Hnd as [Hni Hnd], Hnd' as [Hni' Hnd'].
  apply Forall_cons in Hf as [_ Hf], Hf' as [_ Hf']. rewrite Forall_forall in Hall, Hall'. case_bool_decide as E.
  - apply IH; [done|done|]. intros y Hy. destruct (proj1 (elem_of_cons _ _ _) (Hx y ltac:(by right))) as [->|?]; [|done].
    congruence.
  - assert (Hxa : req_ID x ∈ req_ID <$> a).
    { destruct (proj1 (elem_of_cons _ _ _) (Hx (req_ID x) ltac:(left))) as [?|?]; done. }
    apply (IH (x :: b)); cbn [fmap list_fmap].
    + split_and!; [constructor; [done|by apply Forall_forall]|by constructor|]. constructor; [|done].
      rewrite Forall_forall in Hf'. by apply Hf'.
    + done.
    + intros y Hy. destruct (proj1 (elem_of_cons _ _ _) (Hx y Hy)) as [->|?]; [|done]. exfalso.
      apply elem_of_cons in Hy as [Hy|Hy]; [by destruct E|]. apply E. apply (anti_symm str_le); [by apply Hall|by apply Hall'].
Qed.

Lemma sameContract_refl c : sameCommandAcceptanceContract c c = true.
Proof.
  destruct c as [c|]; [|done]. cbn. rewrite !bool_decide_true by done. rewrite (proj2 (sameRequirements_spec _ _)) by done. done.
Qed.

(** The conditions of a step transition. *)
Lemma step_transition o o' s s' :
  (activeProvisioning s = true -> st_Requirements s' = st_Requirements s) ->
  validProvisionHistory (st_Provisioning s) (st_Provisioning s') = true ->
  ((length (st_Provisioning s) < length (st_Provisioning s'))%nat -> canPlanProvisioning s = true) ->
  st_StepID s' = st_StepID s -> st_AcceptanceContract s' = st_AcceptanceContract s ->
  validAcceptanceReceiptTransition (ob_State o) (ob_State o') s s' = true ->
  requirementsSubset (st_Requirements s) (st_Requirements s') = true ->
  validStepStateTransition (st_State s) (st_State s') = true ->
  (length (st_Attempts s) <= length (st_Attempts s') <= length (st_Attempts s) + 1)%nat ->
  valid_attempts_transition (st_Attempts s) (st_Attempts s') = true ->
  validate_step_transition o o' s s' = Ok tt.
Proof.
  intros H1 H2 H3 H4 H5 H6 H8 H9 H10 H11. unfold validate_step_transition.
  apply reject_ok. split.
  { destruct (activeProvisioning s); [|done]. rewrite H1 by done. by rewrite (proj2 (sameRequirements_spec _ _)). }
  apply reject_ok. split; [by rewrite H2|]. apply reject_ok. split.
  { case_bool_decide; [|done]. by rewrite H3. }
  apply reject_ok. split; [|by rewrite H11]. rewrite H4, H5, H6, H8, H9, sameContract_refl.
  rewrite bool_decide_true by done. rewrite !bool_decide_false by lia. done.
Qed.

Lemma no_receipt_transition previous next s s' : st_AcceptanceReceipt s = None -> st_AcceptanceReceipt s' = None ->
  validAcceptanceReceiptTransition previous next s s' = true.
Proof. unfold validAcceptanceReceiptTransition. by intros -> ->. Qed.

Lemma requirementsSubset_refl l : requirementsSubset l l = true.
Proof. induction l as [|r l IH]; [done|]. cbn. by rewrite bool_decide_true. Qed.

Lemma validStepStateTransition_refl s : validStepStateTransition s s = true.
Proof. unfold validStepStateTransition. by rewrite (bool_decide_true (s = s)). Qed.

Lemma provisions_valid policy l : provisions_ok policy l -> Forall (fun p => pv_Valid p = true) l.
Proof. intros H. apply Forall_forall. intros p. by apply (provisions_ok_lookup policy). Qed.

Lemma step_transition_refl o o' policy s : step_ok policy s -> st_AcceptanceReceipt s = None ->
  validate_step_transition o o' s s = Ok tt.
Proof.
  intros Hs Hr. apply step_transition; try done; try lia; [|by apply no_receipt_transition|..].
  - eapply validProvisionHistory_refl, provisions_valid, (so_prov _ _ Hs).
  - apply requirementsSubset_refl.
  - apply validStepStateTransition_refl.
  - apply valid_attempts_refl.
Qed.

Lemma steps_transition_pointwise o o' l k : length l = length k ->
  (forall i s s', l !! i = Some s -> k !! i = Some s' -> validate_step_transition o o' s s' = Ok tt) ->
  validate_steps_transition o o' l k = Ok tt.
Proof.
  revert k. induction l as [|s l IH]; intros [|s' k] Hlen H; try done. cbn [validate_steps_transition].
  rewrite (H O s s') by done. cbn [rbind]. apply IH; [cbn in Hlen; lia|]. intros i t t' Hi Hk. by apply (H (S i)).
Qed.

(** The check of a whole revision whose steps are related pointwise. *)
Lemma ValidateTransition_intro o state steps : objective_ok o -> objective_ok (revise o state steps) -> terminal o = false ->
  validObjectiveStateTransition (ob_State o) state = true -> length steps = length (ob_Steps o) ->
  (forall i s s', ob_Steps o !! i = Some s -> steps !! i = Some s' -> validate_step_transition o (revise o state steps) s s' = Ok tt) ->
  ValidateTransition o (revise o state steps) = Ok tt.
Proof.
  intros Ho Ho' Ht Hst Hlen H. unfold ValidateTransition. apply reject_ok. split.
  - rewrite (proj2 (ob_Valid_spec _) Ho), (proj2 (ob_Valid_spec _) Ho'), Ht. cbn [revise ob_Version ob_ObjectiveID ob_Scope
      ob_Revision ob_Policy ob_Steps ob_State]. rewrite Hst, !bool_decide_true by done. rewrite bool_decide_false by lia. done.
  - apply steps_transition_pointwise; cbn [revise ob_Steps]; [lia|done].
Qed.

(** ** The invariant of reachable objectives *)
(** Beyond validity: provisioning is active only before the first or after a failed
    attempt, cancelled steps belong to cancelled objectives, and fences and the
    revision are unsigned numbers. *)
Record step_inv (s : ObjectiveStep) : Prop := {
  si_prov : activeProvisioning s = true ->
    match last (st_Attempts s) with None => True | Some a => at_State a = AttemptFailed end;
  si_fence : Forall (fun p => 0 <= pv_JobFence p) (st_Provisioning s) }.

Record inv (o : Objective) : Prop := {
  inv_ok : objective_ok o;
  inv_rev : 0 < ob_Revision o < two64;
  inv_step : Forall step_inv (ob_Steps o);
  inv_cancel : ob_State o <> ObjectiveCancelled -> Forall (fun s => st_State s <> StepCancelled) (ob_Steps o) }.

Lemma inv_lookup o i s : inv o -> ob_Steps o !! i = Some s -> step_ok (ob_Policy o) s /\ step_inv s.
Proof.
  intros Ho Hi. split; [by apply (oo_steps o (inv_ok o Ho) i s Hi)|]. eapply Forall_lookup_1; [apply (inv_step o Ho)|done].
Qed.

(** What an operation owes: the store's check passes and the invariant holds. *)
Definition good_revision (o o' : Objective) : Prop := ValidateTransition o o' = Ok tt /\ inv o'.

(** A revision of one step that is known to be valid. *)
Lemma update_step_checked o i s s' state : inv o -> ob_Revision o + 1 < two64 -> terminal o = false -> ob_Steps o !! i = Some s ->
  step_inv s' -> objective_ok (revise o state (<[i := s']> (ob_Steps o))) ->
  validObjectiveStateTransition (ob_State o) state = true -> state <> ObjectiveCancelled -> st_State s' <> StepCancelled ->
  (st_AcceptanceReceipt s = None -> validate_step_transition o (revise o state (<[i := s']> (ob_Steps o))) s s' = Ok tt) ->
  good_revision o (revise o state (<[i := s']> (ob_Steps o))).
Proof.
  intros [Hok Hrev Hstep Hcan] Hr Ht Hi Hsi Hok' Hobj Hnc Hsc Htr.
  destruct (not_terminal o Ht) as (Hacc & _ & Hoc). pose proof (objective_no_receipts o Hok Hacc) as Hno.
  unfold no_receipts in Hno. rewrite Forall_lookup in Hno. split.
  - apply ValidateTransition_intro; try done; [by rewrite length_insert|]. intros k t t' Hk Hk'.
    destruct (decide (k = i)) as [->|Hne].
    + rewrite list_lookup_insert_eq in Hk' by (by eapply lookup_lt_Some). simplify_eq. by apply Htr, (Hno i).
    + rewrite list_lookup_insert_ne in Hk' by done. simplify_eq. eapply step_transition_refl; [|by apply (Hno k)].
      by apply (oo_steps o Hok k t).
  - constructor; cbn [revise ob_Revision ob_Steps ob_State]; [done|rewrite next_revision by lia; lia|..].
    + by apply Forall_insert_lookup.
    + intros _. apply Forall_insert_lookup; [by apply Hcan|done].
Qed.

Lemma update_step o i s s' state : inv o -> ob_Revision o + 1 < two64 -> terminal o = false -> ob_Steps o !! i = Some s ->
  step_ok (ob_Policy o) s' -> step_inv s' -> st_StepID s' = st_StepID s ->
  st_AcceptanceContract s' = st_AcceptanceContract s -> st_AcceptanceReceipt s' = st_AcceptanceReceipt s ->
  NoDup (step_ids s') -> (forall x, x ∈ step_ids s' -> x ∈ step_ids s \/ x ∉ all_ids (ob_Steps o)) ->
  validObjectiveState state = true -> state_ok (revise o state (<[i := s']> (ob_Steps o))) ->
  validObjectiveStateTransition (ob_State o) state = true -> state <> ObjectiveCancelled -> st_State s' <> StepCancelled ->
  (st_AcceptanceReceipt s = None -> validate_step_transition o (revise o state (<[i := s']> (ob_Steps o))) s s' = Ok tt) ->
  good_revision o (revise o state (<[i := s']> (ob_Steps o))).
Proof.
  intros Ho Hr Ht Hi Hs' Hsi Eid Ect Ert Hnd Hx Hvs Hst Hobj Hnc Hsc Htr. apply (update_step_checked o i s); try done.
  destruct (not_terminal o Ht) as (Hacc & _). destruct Ho as [Hok Hrev _ _]. apply (revise_ok o i s); try done; lia.
Qed.

Lemma Forall2_fmap_same {A B} (f : A -> B) (l k : list A) : Forall2 (fun x y => f y = f x) l k -> f <$> k = f <$> l.
Proof. induction 1 as [|x y l k E _ IH]; [done|]. cbn. by rewrite E, IH. Qed.

(** A revision of all steps that keeps identities, contracts and identifiers. *)
Lemma revise_all_ok o state steps : objective_ok o -> ob_State o <> ObjectiveAccepted -> 0 < ob_Revision o -> ob_Revision o + 1 < two64 ->
  Forall2 (fun s s' => step_ok (ob_Policy o) s' /\ st_StepID s' = st_StepID s /\
    st_AcceptanceContract s' = st_AcceptanceContract s /\ st_AcceptanceReceipt s' = st_AcceptanceReceipt s /\
    step_ids s' = step_ids s) (ob_Steps o) steps ->
  validObjectiveState state = true -> state_ok (revise o state steps) -> objective_ok (revise o state steps).
Proof.
  intros Ho Hacc Hr1 Hr2 Hall Hst Hstate. pose proof (objective_no_receipts o Ho Hacc) as Hno.
  assert (Hno' : no_receipts steps).
  { clear -Hall Hno. induction Hall as [|s s' l l' (_ & _ & _ & E & _) _ IH]; [constructor|].
    apply Forall_cons in Hno as [Hs Hno]. constructor; [by rewrite E|by apply IH]. }
  destruct Ho as [(H1 & H2 & H3 & H4 & H5 & H6 & H7) Hmode Hsteps Hids Hnd Hops Hso].
  constructor; cbn [revise ob_Steps ob_Version ob_ObjectiveID ob_Revision ob_Scope ob_Policy ob_State]; try done.
  - unfold header_ok. cbn [revise ob_Steps ob_Version ob_ObjectiveID ob_Revision ob_Scope ob_Policy ob_State].
    rewrite next_revision by done. rewrite <- (Forall2_length _ _ _ Hall). split_and!; try done; lia.
  - apply mode_spec in Hmode. apply mode_spec. rewrite !Forall_lookup in Hmode. rewrite !Forall_lookup.
    destruct Hmode as [Hm|Hm]; [left|right]; intros k t Hk;
      destruct (Forall2_lookup_r _ _ _ _ _ Hall Hk) as (s & Hks & _ & _ & -> & _); by apply (Hm k s).
  - intros k t Hk. destruct (Forall2_lookup_r _ _ _ _ _ Hall Hk) as (s & Hks & Hs & _ & _ & Er & _). split; [done|].
    intros r Htr. unfold no_receipts in Hno'. rewrite Forall_lookup in Hno'. specialize (Hno' k t Hk). cbn in Hno'. congruence.
  - rewrite (Forall2_fmap_same _ (ob_Steps o)); [done|]. eapply Forall2_impl; [exact Hall|]. by intros s s' (_ & ? & _).
  - unfold all_ids. rewrite (Forall2_fmap_same _ (ob_Steps o)); [done|]. eapply Forall2_impl; [exact Hall|]. by intros s s' (_ & _ & _ & _ & ?).
  - rewrite all_ops_none by done. constructor.
Qed.
