(* ===== verification/DevSteps.v ===== *)
(** * The operations of an objective, one by one

    Each operation on an objective that satisfies the invariant returns the
    objective unchanged or a revision that the store's check accepts and that
    satisfies the invariant again. *)

From S2P Require Import Prelude GoStrings GoRegexp Sha256 DevCapability DevResolver DevAttempt DevProvision DevObjective DevOps DevInv DevPreserve.

Lemma find_step_ok o stepID e i s : find_step o stepID e = Ok (i, s) ->
  terminal o = false /\ ob_Steps o !! i = Some s /\ st_StepID s = TrimSpace stepID.
Proof.
  unfold find_step, stepIndex. destruct (list_find _ (ob_Steps o)) as [[k t]|] eqn:E; cbn [fmap option_fmap option_map]; [|done].
  destruct (terminal o); [done|]. cbn [fst]. apply list_find_Some in E as (Hk & Hid & _). rewrite Hk. by intros [= <- <-].
Qed.

(** ** Attempts of a step *)
Lemma attempts_ok_snoc_gen stepID previous l a : attempts_ok stepID previous (l ++ [a]) <->
  attempts_ok stepID previous l /\ attempt_ok stepID (match last l with Some x => Some x | None => previous end) a.
Proof.
  revert previous. induction l as [|b l IH]; intros previous; cbn [attempts_ok app]; [cbn; tauto|]. rewrite IH.
  destruct l as [|c l]; [cbn; tauto|]. rewrite (last_cons b (c :: l)). destruct (last (c :: l)) eqn:E; [tauto|].
  by apply last_None in E.
Qed.

Lemma attempts_ok_snoc stepID l a : attempts_ok stepID None (l ++ [a]) <-> attempts_ok stepID None l /\ attempt_ok stepID (last l) a.
Proof. rewrite attempts_ok_snoc_gen. by destruct (last l). Qed.

(** [b] is [a] with another state or failure class. *)
Definition same_attempt (a b : ExecutionAttempt) : Prop := at_set_state a "" "" = at_set_state b "" "".

Lemma attempt_ok_same stepID previous a b : same_attempt a b -> attempt_ok stepID previous a ->
  (if at_State b =? AttemptFailed then ContinuationForFailure (at_Failure b) <> None else at_Failure b = "") ->
  attempt_ok stepID previous b.
Proof.
  destruct a as [i st p src ei ed eg c t sa fa], b as [i' st' p' src' ei' ed' eg' c' t' sb fb]. unfold same_attempt.
  cbn. intros [= -> -> -> -> -> -> -> -> ->] (H1 & H2 & H3 & _) H4. split_and!; try done.
Qed.

(** The failure rule of the attempts of a valid step. *)
Definition failure_rule (a : ExecutionAttempt) : Prop :=
  if at_State a =? AttemptFailed then ContinuationForFailure (at_Failure a) <> None else at_Failure a = "".

Lemma at_Transition_ok a next b : next <> AttemptFailed -> failure_rule a -> at_Transition a next = Ok b ->
  same_attempt a b /\ at_State b = next /\ validAttemptRevision a b = true /\ failure_rule b /\
  (at_State a = next \/ (at_State a = AttemptPlanned /\ (next = AttemptRunning \/ next = AttemptCancelled)) \/
   (at_State a = AttemptRunning /\ (next = AttemptSucceeded \/ next = AttemptCancelled))).
Proof.
  intros Hnf Hfr. unfold at_Transition. destruct (validIdentity a); cbn [negb]; [|done]. case_bool_decide as E1.
  { intros [= <-]. split_and!; try done; [apply validAttemptRevision_refl|by left]. }
  destruct (negb _) eqn:E2; [done|]. intros [= <-]. apply negb_false_iff in E2.
  assert (Hcase : (at_State a = AttemptPlanned /\ (next = AttemptRunning \/ next = AttemptCancelled)) \/
                  (at_State a = AttemptRunning /\ (next = AttemptSucceeded \/ next = AttemptCancelled))).
  { destruct (bool_decide_reflect (at_State a = AttemptPlanned)).
    - rewrite orb_true_iff, !bool_decide_eq_true in E2. by left.
    - destruct (bool_decide_reflect (at_State a = AttemptRunning)); [|done].
      rewrite !orb_true_iff, !bool_decide_eq_true in E2. right. tauto. }
  assert (Hf : failure_rule (at_set_state a next (if next <>? AttemptFailed then "" else at_Failure a))).
  { unfold failure_rule. cbn [at_set_state at_State at_Failure]. by rewrite bool_decide_false. }
  split_and!; try done; [|by right]. unfold validAttemptRevision.
  rewrite (bool_decide_true (at_set_state a "" "" = _)) by done. cbn [negb at_set_state at_State at_Failure].
  rewrite (bool_decide_false (at_State a = next)) by congruence. rewrite (bool_decide_false (next = AttemptFailed)) by done. cbn [andb negb].
  destruct Hcase as [[-> [-> | ->]]|[-> [-> | ->]]]; reflexivity.
Qed.

Lemma at_Fail_ok a class b : at_Fail a class = Ok b ->
  same_attempt a b /\ at_State b = AttemptFailed /\ at_Failure b = class /\ at_State a = AttemptRunning /\
  validAttemptRevision a b = true /\ failure_rule b.
Proof.
  unfold at_Fail. destruct (_ || _) eqn:E; [done|]. intros [= <-]. breflect. split_and!; try done.
  - unfold validAttemptRevision. rewrite (bool_decide_true (at_set_state a "" "" = _)) by done.
    cbn [negb at_set_state at_State at_Failure]. repeat match goal with H : at_State a = _ |- _ => rewrite H end. cbn.
    by apply bool_decide_eq_true.
Qed.

Lemma RejectPreflight_ok a class b : RejectPreflight a class = Ok b ->
  same_attempt a b /\ at_State b = AttemptFailed /\ at_Failure b = class /\ at_State a = AttemptPlanned /\
  validAttemptRevision a b = true /\ failure_rule b.
Proof.
  unfold RejectPreflight. destruct (_ || _) eqn:E; [done|]. intros [= <-]. breflect. split_and!; try done.
  - unfold validAttemptRevision. rewrite (bool_decide_true (at_set_state a "" "" = _)) by done.
    cbn [negb at_set_state at_State at_Failure]. repeat match goal with H : at_State a = _ |- _ => rewrite H end. cbn. done.
  - unfold failure_rule. cbn. match goal with H : preflightFailureAllowed _ = true |- _ => unfold preflightFailureAllowed in H end.
    by destruct (ContinuationForFailure class).
Qed.

Lemma attempts_ok_last stepID l a b : attempts_ok stepID None l -> last l = Some a -> same_attempt a b -> failure_rule b ->
  attempts_ok stepID None (set_last l b).
Proof.
  intros Hl [l' ->]%last_split Hs Hf. rewrite set_last_snoc. apply attempts_ok_snoc in Hl as [Hl Ha].
  apply attempts_ok_snoc. split; [done|]. by eapply attempt_ok_same.
Qed.

Lemma attempts_ok_last_rule stepID l a : attempts_ok stepID None l -> last l = Some a -> failure_rule a.
Proof. intros Hl [l' ->]%last_split. by apply attempts_ok_snoc in Hl as [_ (_ & _ & _ & ?)]. Qed.

Lemma same_attempt_fields a b : same_attempt a b ->
  at_AttemptID b = at_AttemptID a /\ at_SourceDigest b = at_SourceDigest a /\ at_Class b = at_Class a.
Proof. unfold same_attempt. destruct a, b. cbn. by intros [= -> -> -> -> -> -> -> -> ->]. Qed.

Lemma set_last_fmap {A B} (f : A -> B) l a b : last l = Some a -> f b = f a -> f <$> set_last l b = f <$> l.
Proof. intros [l' ->]%last_split E. rewrite set_last_snoc, !fmap_app. cbn. by rewrite E. Qed.

Lemma set_last_Forall {A} (P : A -> Prop) l b : Forall P l -> P b -> Forall P (set_last l b).
Proof. intros. unfold set_last. by apply Forall_insert. Qed.

Lemma last_set_last {A} (l : list A) a b : last l = Some a -> last (set_last l b) = Some b.
Proof. intros [l' ->]%last_split. rewrite set_last_snoc. apply last_snoc. Qed.

(** The step state that goes with an attempt state. *)
Definition attempt_step_state (at_state : AttemptState) (state : StepState) : Prop :=
  (at_state = AttemptPlanned /\ state = StepPlanned) \/ (at_state = AttemptRunning /\ state = StepRunning) \/
  (at_state = AttemptSucceeded /\ state = StepSucceeded) \/ (at_state = AttemptFailed /\ state = StepFailed) \/
  (at_state = AttemptCancelled /\ state = StepCancelled).

Lemma stepStateMatches_last s a : last (st_Attempts s) = Some a ->
  stepStateMatchesAttempts s = true <-> attempt_step_state (at_State a) (st_State s).
Proof.
  intros Ha. unfold stepStateMatchesAttempts, attempt_step_state. rewrite Ha.
  destruct (bool_decide_reflect (at_State a = AttemptPlanned)) as [E|N1];
    [rewrite E, bool_decide_eq_true; split; [by left; split|intros H; by naive_solver]|].
  destruct (bool_decide_reflect (at_State a = AttemptRunning)) as [E|N2];
    [rewrite E, bool_decide_eq_true; split; [by right; left|intros H; by naive_solver]|].
  destruct (bool_decide_reflect (at_State a = AttemptSucceeded)) as [E|N3];
    [rewrite E, bool_decide_eq_true; split; [by right; right; left|intros H; by naive_solver]|].
  destruct (bool_decide_reflect (at_State a = AttemptFailed)) as [E|N4];
    [rewrite E, bool_decide_eq_true; split; [by right; right; right; left|intros H; by naive_solver]|].
  destruct (bool_decide_reflect (at_State a = AttemptCancelled)) as [E|N5];
    [rewrite E, bool_decide_eq_true; split; [by right; right; right; right|intros H; by naive_solver]|].
  split; [done|]. tauto.
Qed.

Lemma attempt_step_state_valid x state : attempt_step_state x state -> validStepState state = true.
Proof. by intros [[_ ->]|[[_ ->]|[[_ ->]|[[_ ->]|[_ ->]]]]]. Qed.

Lemma activeProvisioning_attempts s l state : activeProvisioning (set_attempts s l state) = activeProvisioning s.
Proof. reflexivity. Qed.

Lemma step_ok_last policy s a b state : step_ok policy s -> last (st_Attempts s) = Some a -> same_attempt a b ->
  failure_rule b -> attempt_step_state (at_State b) state -> activeProvisioning s = false ->
  step_ok policy (set_attempts s (set_last (st_Attempts s) b) state).
Proof.
  intros [H1 H2 H3 H4 H5 H6 H7 H8 H9 H10 H11 H12] Ha Hs Hf Hst Hact. destruct (same_attempt_fields a b Hs) as (Ei & Es & Ec).
  assert (Hin : a ∈ st_Attempts s) by (apply last_split in Ha as [l ->]; apply elem_of_app; right; left).
  constructor; cbn [set_attempts st_StepID st_State st_Attempts st_Requirements st_AcceptanceContract st_Provisioning];
    rewrite ?activeProvisioning_attempts, ?Hact; try done.
  - by eapply attempt_step_state_valid.
  - unfold set_last. by rewrite length_insert.
  - by eapply attempts_ok_last.
  - intros c Hc. destruct (H6 c Hc) as [? Hsrc]. split; [done|]. apply set_last_Forall; [done|].
    rewrite Forall_forall in Hsrc. rewrite Es. by apply Hsrc.
  - apply set_last_Forall; [done|]. rewrite Forall_forall in H7. rewrite Ec. by apply H7.
  - rewrite (stepStateMatches_last _ b); [done|]. by eapply last_set_last.
Qed.

Lemma step_ids_last s a b state : last (st_Attempts s) = Some a -> same_attempt a b ->
  step_ids (set_attempts s (set_last (st_Attempts s) b) state) = step_ids s.
Proof.
  intros Ha Hs. unfold step_ids. cbn [set_attempts st_Attempts st_Provisioning]. f_equal.
  eapply set_last_fmap; [done|]. by apply same_attempt_fields.
Qed.

Lemma step_ids_NoDup steps i s : NoDup (all_ids steps) -> steps !! i = Some s -> NoDup (step_ids s).
Proof.
  intros Hnd Hi. apply list_elem_of_split_length in Hi as (l1 & l2 & -> & _). rewrite all_ids_app in Hnd.
  apply NoDup_app in Hnd as (_ & _ & Hnd). change (all_ids (s :: l2)) with (step_ids s ++ all_ids l2) in Hnd.
  by apply NoDup_app in Hnd as (? & _).
Qed.

Lemma step_ids_all steps i s x : steps !! i = Some s -> x ∈ step_ids s -> x ∈ all_ids steps.
Proof.
  intros Hi Hx. apply list_elem_of_split_length in Hi as (l1 & l2 & -> & _). rewrite all_ids_app.
  change (all_ids (s :: l2)) with (step_ids s ++ all_ids l2). rewrite !elem_of_app. auto.
Qed.

(** An operation that replaces the last attempt of a step. *)
Lemma replace_last o i s a b state ostate : inv o -> ob_Revision o + 1 < two64 -> terminal o = false ->
  ob_Steps o !! i = Some s -> last (st_Attempts s) = Some a -> at_State a <> AttemptFailed -> same_attempt a b -> failure_rule b ->
  validAttemptRevision a b = true -> attempt_step_state (at_State b) state ->
  validStepStateTransition (st_State s) state = true -> state <> StepCancelled ->
  validObjectiveState ostate = true -> ostate <> ObjectiveCancelled ->
  validObjectiveStateTransition (ob_State o) ostate = true ->
  let steps := <[i := set_attempts s (set_last (st_Attempts s) b) state]> (ob_Steps o) in
  state_ok (revise o ostate steps) -> good_revision o (revise o ostate steps).
Proof.
  intros Ho Hr Ht Hi Ha Hnf Hsame Hfr Hrev Hst Hsst Hsc Hvo Hoc Hov steps Hok.
  destruct (inv_lookup o i s Ho Hi) as [Hs Hsi].
  assert (Hact : activeProvisioning s = false).
  { destruct (activeProvisioning s) eqn:E; [|done]. apply (si_prov s Hsi) in E. by rewrite Ha in E. }
  assert (Hlen : length (set_last (st_Attempts s) b) = length (st_Attempts s)) by apply length_insert.
  apply (update_step o i s); try done.
  - by eapply step_ok_last.
  - constructor; [by rewrite activeProvisioning_attempts, Hact|apply (si_fence s Hsi)].
  - rewrite (step_ids_last s a) by done. eapply step_ids_NoDup; [apply (oo_ids o (inv_ok o Ho))|done].
  - intros x. rewrite (step_ids_last s a) by done. by left.
  - intros Hrec. apply step_transition; cbn [set_attempts st_StepID st_State st_Attempts st_Requirements st_AcceptanceContract
      st_Provisioning st_AcceptanceReceipt]; try done; try lia; [|by apply no_receipt_transition|..].
    + eapply validProvisionHistory_refl, provisions_valid, (so_prov _ _ Hs).
    + apply requirementsSubset_refl.
    + by eapply valid_attempts_last.
Qed.

(** ** The state of the objective *)
Lemma open_states o : objective_ok o -> terminal o = false ->
  ob_State o = ObjectivePlanned \/ ob_State o = ObjectiveRunning \/ ob_State o = ObjectiveAcceptancePending \/
  ob_State o = ObjectiveReconciliationRequired.
Proof.
  intros Ho (H1 & H2 & H3)%not_terminal. destruct (oo_header o Ho) as (_ & _ & _ & _ & _ & _ & Hv).
  unfold validObjectiveState in Hv. apply bool_decide_eq_true in Hv.
  repeat (apply elem_of_cons in Hv as [Hv|Hv]; [tauto|]). by apply elem_of_nil in Hv.
Qed.

(** A planned objective has no attempts, a pending one only succeeded steps. *)
Lemma planned_no_attempts o i s : objective_ok o -> ob_State o = ObjectivePlanned -> ob_Steps o !! i = Some s ->
  st_Attempts s = [] /\ st_Provisioning s = [].
Proof.
  intros Ho Hst Hi. pose proof (oo_state o Ho) as Hs. unfold state_ok, validate_state in Hs. rewrite Hst in Hs.
  rewrite bool_decide_true in Hs by done. rewrite reject_if_ok, existsb_false_Forall, Forall_lookup in Hs.
  specialize (Hs i s Hi). cbn in Hs. rewrite !orb_false_iff, !bool_decide_eq_false in Hs. destruct Hs as [[_ H1] H2].
  split; apply nil_length_inv; lia.
Qed.

Lemma pending_succeeded o i s : objective_ok o -> ob_State o = ObjectiveAcceptancePending -> ob_Steps o !! i = Some s ->
  st_State s = StepSucceeded.
Proof.
  intros Ho Hst Hi. pose proof (oo_state o Ho) as Hs. unfold state_ok, validate_state in Hs. rewrite Hst in Hs. cbn -[all_succeeded] in Hs.
  apply reject_ok in Hs as [Hs _]. apply negb_false_iff in Hs. unfold all_succeeded in Hs. rewrite forallb_forall in Hs.
  assert (Hin : In s (ob_Steps o)) by (apply list_elem_of_In; by eapply list_elem_of_lookup_2).
  specialize (Hs s Hin). by apply bool_decide_eq_true in Hs.
Qed.

Lemma to_running o i s : objective_ok o -> terminal o = false -> ob_Steps o !! i = Some s -> st_State s <> StepSucceeded ->
  validObjectiveStateTransition (ob_State o) ObjectiveRunning = true.
Proof.
  intros Ho Ht Hi Hns. destruct (open_states o Ho Ht) as [E|[E|[E|E]]]; rewrite E; try reflexivity.
  by destruct Hns; eapply pending_succeeded.
Qed.

Lemma state_ok_open o steps : all_succeeded steps = false -> state_ok (revise o ObjectiveRunning steps).
Proof.
  intros H. unfold state_ok, validate_state. cbn [revise ob_State ob_Steps state_acc sn_allSucceeded].
  rewrite (bool_decide_false (ObjectiveRunning = ObjectivePlanned)), bool_decide_true by done. by apply reject_if_ok.
Qed.

Lemma state_ok_running o steps i s s' : steps !! i = Some s -> st_State s' <> StepSucceeded ->
  state_ok (revise o ObjectiveRunning (<[i := s']> steps)).
Proof.
  intros Hi Hns. apply state_ok_open. eapply forallb_insert_false; [done|]. by apply bool_decide_eq_false.
Qed.

Lemma state_ok_reconcile o steps i s s' a : steps !! i = Some s -> last (st_Attempts s') = Some a -> at_State a = AttemptFailed ->
  at_Failure a = FailureReconciliationNeeded -> state_ok (revise o ObjectiveReconciliationRequired (<[i := s']> steps)).
Proof.
  intros Hi Ha Hs Hf. unfold state_ok, validate_state. cbn [revise ob_State ob_Steps].
  rewrite !(bool_decide_false (ObjectiveReconciliationRequired = _)) by done. cbn [orb].
  rewrite bool_decide_true by done. apply reject_if_ok, negb_false_iff. unfold objectiveHasFailureClass. cbn [revise ob_Steps].
  eapply existsb_insert_true; [done|]. apply existsb_exists. exists a. split.
  - apply list_elem_of_In. apply last_split in Ha as [l ->]. apply elem_of_app. right. left.
  - by rewrite Hs, Hf.
Qed.

Lemma state_ok_failed o steps i s s' : steps !! i = Some s -> st_State s' = StepFailed ->
  state_ok (revise o ObjectiveFailed (<[i := s']> steps)).
Proof.
  intros Hi Hs. unfold state_ok, validate_state. cbn [revise ob_State ob_Steps].
  rewrite !(bool_decide_false (ObjectiveFailed = _)) by done. cbn [orb]. rewrite bool_decide_true by done.
  apply reject_if_ok, negb_false_iff. eapply existsb_insert_true; [done|]. by apply bool_decide_eq_true.
Qed.

Lemma reconcile_class class : ContinuationForFailure class = Some ActionReconcile -> class = FailureReconciliationNeeded.
Proof. unfold ContinuationForFailure. repeat case_bool_decide; try done. Qed.

(** After a failure: the state the action asks for fits, and may be entered. *)
Lemma state_after_failure_ok o i s s' a class action : objective_ok o -> terminal o = false -> ob_Steps o !! i = Some s ->
  st_Attempts s <> [] -> st_State s <> StepSucceeded -> st_State s' = StepFailed -> last (st_Attempts s') = Some a ->
  at_State a = AttemptFailed -> at_Failure a = class -> ContinuationForFailure class = Some action ->
  validObjectiveState (state_after_failure action) = true /\ state_after_failure action <> ObjectiveCancelled /\
  validObjectiveStateTransition (ob_State o) (state_after_failure action) = true /\
  state_ok (revise o (state_after_failure action) (<[i := s']> (ob_Steps o))).
Proof.
  intros Ho Ht Hi Hne Hns Hs' Ha Hst Hcl Hact. pose proof (to_running o i s Ho Ht Hi Hns) as Hrun.
  assert (Hopen : ob_State o = ObjectiveRunning \/ ob_State o = ObjectiveReconciliationRequired).
  { destruct (open_states o Ho Ht) as [E|[E|[E|E]]]; try tauto; [by destruct (planned_no_attempts o i s Ho E Hi)|].
    by destruct Hns; eapply pending_succeeded. }
  assert (Hsr : state_ok (revise o ObjectiveRunning (<[i := s']> (ob_Steps o)))).
  { eapply state_ok_running; [done|]. by rewrite Hs'. }
  destruct action; cbn [state_after_failure]; split_and!; try done.
  - destruct Hopen as [-> | ->]; reflexivity.
  - eapply state_ok_failed; done.
  - destruct Hopen as [-> | ->]; reflexivity.
  - eapply state_ok_reconcile; [done..|]. rewrite Hcl. by apply reconcile_class.
Qed.

Lemma step_attempt_state policy s a : step_ok policy s -> last (st_Attempts s) = Some a -> attempt_step_state (at_State a) (st_State s).
Proof. intros Hs Ha. apply stepStateMatches_last; [done|]. apply (so_match _ _ Hs). Qed.

(** The state of a step with a planned or running last attempt. *)
Lemma step_state_planned policy s a : step_ok policy s -> last (st_Attempts s) = Some a ->
  (at_State a = AttemptPlanned -> st_State s = StepPlanned) /\ (at_State a = AttemptRunning -> st_State s = StepRunning) /\
  (at_State a = AttemptSucceeded -> st_State s = StepSucceeded).
Proof.
  intros Hs Ha. pose proof (step_attempt_state policy s a Hs Ha) as H. unfold attempt_step_state in H.
  split_and!; intros E; rewrite E in H; destruct H as [[? ?]|[[? ?]|[[? ?]|[[? ?]|[? ?]]]]]; done.
Qed.

Lemma last_nonempty {A} (l : list A) a : last l = Some a -> l <> [].
Proof. by intros H ->. Qed.

Lemma StartAttempt_good o stepID o' : inv o -> ob_Revision o + 1 < two64 -> StartAttempt o stepID = Ok o' -> good_revision o o'.
Proof.
  intros Ho Hr. unfold StartAttempt. intros ([i s] & (Ht & Hi & _)%find_step_ok & H)%rbind_ok.
  destruct (last (st_Attempts s)) as [a|] eqn:Ha; [|done]. apply rbind_ok in H as (b & Hb & [= <-]).
  destruct (inv_lookup o i s Ho Hi) as [Hs _]. pose proof (attempts_ok_last_rule _ _ _ (so_attempts _ _ Hs) Ha) as Hfr.
  apply at_Transition_ok in Hb as (Hsame & Hst & Hrev & Hf & Hcase); [|done|done].
  destruct (step_state_planned _ s a Hs Ha) as (Hp & Hru & _).
  assert (Hss : (at_State a = AttemptPlanned /\ st_State s = StepPlanned) \/ (at_State a = AttemptRunning /\ st_State s = StepRunning)).
  { destruct Hcase as [E|[[E _]|[E _]]]; [right|left|right]; auto. }
  apply (replace_last o i s a b StepRunning ObjectiveRunning); try done.
  - intros E. rewrite E in Hss. destruct Hss as [[? _]|[? _]]; done.
  - rewrite Hst. right. left. done.
  - destruct Hss as [[_ ->]|[_ ->]]; reflexivity.
  - eapply to_running; [apply (inv_ok o Ho)|done|done|]. by destruct Hss as [[_ ->]|[_ ->]].
  - by eapply state_ok_running.
Qed.

Lemma fail_good o i s a b class action : inv o -> ob_Revision o + 1 < two64 -> terminal o = false -> ob_Steps o !! i = Some s ->
  last (st_Attempts s) = Some a -> same_attempt a b -> at_State b = AttemptFailed -> at_Failure b = class ->
  at_State a = AttemptPlanned \/ at_State a = AttemptRunning -> validAttemptRevision a b = true -> failure_rule b ->
  ContinuationForFailure class = Some action ->
  good_revision o (revise o (state_after_failure action)
    (<[i := set_attempts s (set_last (st_Attempts s) b) StepFailed]> (ob_Steps o))).
Proof.
  intros Ho Hr Ht Hi Ha Hsame Hst Hcl Hor Hrev Hfr Hact. destruct (inv_lookup o i s Ho Hi) as [Hs _].
  destruct (step_state_planned _ s a Hs Ha) as (Hp & Hru & _).
  assert (Hss : st_State s = StepPlanned \/ st_State s = StepRunning) by tauto.
  destruct (state_after_failure_ok o i s (set_attempts s (set_last (st_Attempts s) b) StepFailed) b class action)
    as (H1 & H2 & H3 & H4); try done; [apply (inv_ok o Ho)|by eapply last_nonempty|by destruct Hss as [-> | ->]|by eapply last_set_last|].
  apply (replace_last o i s a b StepFailed (state_after_failure action)); try done.
  - by destruct Hor as [-> | ->].
  - rewrite Hst. right. right. right. by left.
  - destruct Hss as [-> | ->]; reflexivity.
Qed.

Lemma FailAttempt_good o stepID class o' action : inv o -> ob_Revision o + 1 < two64 ->
  FailAttempt o stepID class = Ok (o', action) -> good_revision o o'.
Proof.
  intros Ho Hr. unfold FailAttempt. intros ([i s] & (Ht & Hi & _)%find_step_ok & H)%rbind_ok.
  destruct (ContinuationForFailure class) as [act|] eqn:Eact; [|done].
  destruct (last (st_Attempts s)) as [a|] eqn:Ha; [|done]. apply rbind_ok in H as (b & Hb & [= <- <-]).
  apply at_Fail_ok in Hb as (H1 & H2 & H3 & H4 & H5 & H6). apply (fail_good o i s a b class); try done. by right.
Qed.

Lemma RejectAttempt_good o stepID class o' action : inv o -> ob_Revision o + 1 < two64 ->
  RejectAttempt o stepID class = Ok (o', action) -> good_revision o o'.
Proof.
  intros Ho Hr. unfold RejectAttempt. intros ([i s] & (Ht & Hi & _)%find_step_ok & H)%rbind_ok.
  destruct (ContinuationForFailure class) as [act|] eqn:Eact; [|done]. apply reject_ok in H as [_ H].
  destruct (last (st_Attempts s)) as [a|] eqn:Ha; [|done]. apply rbind_ok in H as (b & Hb & [= <- <-]).
  apply RejectPreflight_ok in Hb as (H1 & H2 & H3 & H4 & H5 & H6). apply (fail_good o i s a b class); try done. by left.
Qed.

(** A failure that needs reconciliation ends the step's history. *)
Lemma reconcile_last stepID previous l x : attempts_ok stepID previous l -> x ∈ l -> at_State x = AttemptFailed ->
  at_Failure x = FailureReconciliationNeeded -> last l = Some x.
Proof.
  revert previous. induction l as [|a l IH]; intros previous; [by intros _ []%elem_of_nil|]. cbn [attempts_ok].
  intros [_ Hl] [->|Hin]%elem_of_cons Hs Hf.
  - destruct l as [|b l]; [done|]. exfalso. destruct Hl as [(_ & _ & Hc & _) _].
    unfold validAttemptContinuation in Hc. rewrite Hs, Hf in Hc. destruct (_ || _); done.
  - rewrite last_cons. by rewrite (IH (Some a) Hl Hin Hs Hf).
Qed.

Lemma state_ok_pending o steps : no_receipts steps -> all_succeeded steps = true ->
  state_ok (revise o ObjectiveAcceptancePending steps).
Proof.
  intros Hno Hall. unfold state_ok, validate_state. cbn [revise ob_State ob_Steps state_acc sn_allSucceeded sn_receiptCount].
  rewrite Hall, all_ops_none by done. reflexivity.
Qed.

Lemma reconciliation_step o : objective_ok o -> ob_State o = ObjectiveReconciliationRequired ->
  exists k t x, ob_Steps o !! k = Some t /\ last (st_Attempts t) = Some x /\ at_State x = AttemptFailed /\ st_State t = StepFailed.
Proof.
  intros Ho Hst. pose proof (oo_state o Ho) as Hs. unfold state_ok, validate_state in Hs. rewrite Hst in Hs.
  cbn -[objectiveHasFailureClass] in Hs. apply reject_if_ok, negb_false_iff in Hs. unfold objectiveHasFailureClass in Hs.
  apply existsb_exists in Hs as (t & Ht & Hx). apply list_elem_of_In, list_elem_of_lookup in Ht as [k Hk].
  apply existsb_exists in Hx as (x & Hx & Hc). apply list_elem_of_In in Hx. apply andb_true_iff in Hc as [H1 H2].
  apply bool_decide_eq_true in H1, H2. destruct (oo_steps o Ho k t Hk) as [Hok _].
  pose proof (reconcile_last _ _ _ x (so_attempts _ _ Hok) Hx H1 H2) as Hl. exists k, t, x. split_and!; try done.
  pose proof (step_attempt_state _ t x Hok Hl) as Hm. rewrite H1 in Hm. unfold attempt_step_state in Hm.
  destruct Hm as [[? ?]|[[? ?]|[[? ?]|[[? ?]|[? ?]]]]]; done.
Qed.

Lemma all_succeeded_lookup steps k t : all_succeeded steps = true -> steps !! k = Some t -> st_State t = StepSucceeded.
Proof.
  unfold all_succeeded. rewrite forallb_forall. intros H Hk. assert (Hin : In t steps) by (apply list_elem_of_In; by eapply list_elem_of_lookup_2).
  specialize (H t Hin). by apply bool_decide_eq_true in H.
Qed.

Lemma all_succeeded_insert steps i s s' : all_succeeded steps = true -> steps !! i = Some s -> st_State s' = StepSucceeded ->
  all_succeeded (<[i := s']> steps) = true.
Proof.
  intros H Hi Hs'. unfold all_succeeded. rewrite (forallb_insert_same _ _ _ s); [done|done|].
  by rewrite Hs', (all_succeeded_lookup steps i s H Hi).
Qed.

Lemma CompleteAttempt_good o stepID o' : inv o -> ob_Revision o + 1 < two64 -> CompleteAttempt o stepID = Ok o' -> good_revision o o'.
Proof.
  intros Ho Hr. unfold CompleteAttempt. intros ([i s] & (Ht & Hi & _)%find_step_ok & H)%rbind_ok.
  destruct (last (st_Attempts s)) as [a|] eqn:Ha; [|done]. apply rbind_ok in H as (b & Hb & [= <-]).
  pose proof (inv_ok o Ho) as Hok. destruct (inv_lookup o i s Ho Hi) as [Hs _].
  pose proof (attempts_ok_last_rule _ _ _ (so_attempts _ _ Hs) Ha) as Hfr.
  apply at_Transition_ok in Hb as (Hsame & Hst & Hrev & Hf & Hcase); [|done|done].
  destruct (step_state_planned _ s a Hs Ha) as (_ & Hru & Hsu).
  assert (Hss : (at_State a = AttemptRunning /\ st_State s = StepRunning) \/ (at_State a = AttemptSucceeded /\ st_State s = StepSucceeded)).
  { destruct Hcase as [E|[[E [?|?]]|[E _]]]; [right|done|done|left]; auto. }
  assert (Hanf : at_State a <> AttemptFailed) by (by destruct Hss as [[-> _]|[-> _]]).
  set (s' := set_attempts s (set_last (st_Attempts s) b) StepSucceeded). set (steps := <[i := s']> (ob_Steps o)).
  change (forallb (fun s => st_State s =? StepSucceeded) steps) with (all_succeeded steps).
  assert (Hgood : forall ostate, validObjectiveState ostate = true -> ostate <> ObjectiveCancelled ->
    validObjectiveStateTransition (ob_State o) ostate = true -> state_ok (revise o ostate steps) ->
    good_revision o (revise o ostate steps)).
  { intros ostate H1 H2 H3 H4. apply (replace_last o i s a b StepSucceeded ostate); try done.
    - rewrite Hst. right. right. by left.
    - by destruct Hss as [[_ ->]|[_ ->]]. }
  destruct (open_states o Hok Ht) as [E|[E|[E|E]]].
  - destruct (planned_no_attempts o i s Hok E Hi) as [En _]. by rewrite En in Ha.
  - destruct (all_succeeded steps) eqn:Eall; apply Hgood; rewrite ?E; try done.
    + apply state_ok_pending; [|done]. apply Forall_insert_lookup; [by apply objective_no_receipts; [|rewrite E]|].
      pose proof (objective_no_receipts o Hok) as Hno. rewrite E in Hno. specialize (Hno ltac:(done)).
      unfold no_receipts in Hno. rewrite Forall_lookup in Hno. exact (Hno i s Hi).
    + by apply state_ok_open.
  - assert (Eall : all_succeeded steps = true).
    { apply (all_succeeded_insert _ i s); [|done|done]. unfold all_succeeded. apply forallb_forall. intros t Htin.
      apply list_elem_of_In, list_elem_of_lookup in Htin as [k Hk]. apply bool_decide_eq_true. by eapply pending_succeeded. }
    rewrite Eall. apply Hgood; rewrite ?E; try done. apply state_ok_pending; [|done].
    apply Forall_insert_lookup; [by apply objective_no_receipts; [|rewrite E]|].
    pose proof (objective_no_receipts o Hok) as Hno. rewrite E in Hno. specialize (Hno ltac:(done)).
    unfold no_receipts in Hno. rewrite Forall_lookup in Hno. exact (Hno i s Hi).
  - destruct (reconciliation_step o Hok E) as (k & t & x & Hk & Hx & Hxf & Htf).
    assert (Eall : all_succeeded steps = false).
    { destruct (all_succeeded steps) eqn:Eall; [|done]. exfalso. destruct (decide (k = i)) as [->|Hne].
      - rewrite Hk in Hi. injection Hi as <-. rewrite Ha in Hx. injection Hx as <-. done.
      - assert (Htk : steps !! k = Some t) by (unfold steps; by rewrite list_lookup_insert_ne).
        pose proof (all_succeeded_lookup steps k t Eall Htk) as Hts. by rewrite Htf in Hts. }
    rewrite Eall. apply Hgood; rewrite ?E; try done. by apply state_ok_open.
Qed.
