(* ===== verification/DevPlan.v ===== *)
(** * Planning, refining, provisioning and ending an objective

    The remaining operations: they keep the invariant and pass the store's check,
    as the operations of [DevSteps] do. *)

From S2P Require Import Prelude GoStrings GoRegexp Sha256 DevCapability DevResolver DevAttempt DevProvision DevObjective DevOps DevInv DevPreserve DevSteps.

(** ** Requirements *)
Lemma contracted_insert steps i s s' : steps !! i = Some s -> st_AcceptanceContract s' = st_AcceptanceContract s ->
  match <[i := s']> steps with t :: _ => bool_decide (st_AcceptanceContract t <> None) | [] => false end =
  match steps with t :: _ => bool_decide (st_AcceptanceContract t <> None) | [] => false end.
Proof. intros Hi E. destruct steps as [|t steps]; [done|]. destruct i as [|i]; [|done]. injection Hi as ->. cbn. by rewrite E. Qed.

Lemma all_ops_insert steps i s s' : steps !! i = Some s -> st_AcceptanceReceipt s' = st_AcceptanceReceipt s ->
  all_ops (<[i := s']> steps) = all_ops steps.
Proof.
  intros Hi E. unfold all_ops. f_equal. apply (fmap_insert_same _ _ _ s); [done|]. unfold step_ops. by rewrite E.
Qed.

Lemma state_ok_requirements o i s reqs : state_ok o -> ob_Steps o !! i = Some s ->
  state_ok (revise o (ob_State o) (<[i := set_requirements s reqs]> (ob_Steps o))).
Proof.
  intros H Hi. unfold state_ok, validate_state in *. cbn [revise ob_State ob_Steps state_acc sn_allSucceeded sn_receiptCount].
  cbn [state_acc sn_allSucceeded sn_receiptCount] in H. unfold all_succeeded, objectiveHasFailureClass in *. cbn [revise ob_Steps].
  rewrite (contracted_insert _ i s), (all_ops_insert _ i s), length_insert, (forallb_insert_same _ _ i s) by done.
  rewrite !(existsb_insert_same _ _ i s) by done. exact H.
Qed.

Lemma canonical_check_false l k : sameRequirements l k = false -> l <> k.
Proof. intros H ->. by rewrite (proj2 (sameRequirements_spec k k)) in H. Qed.

Lemma RefineRequirements_good o stepID additional o' : inv o -> ob_Revision o + 1 < two64 ->
  RefineRequirements o stepID additional = Ok o' -> o' = o \/ good_revision o o'.
Proof.
  intros Ho Hr. unfold RefineRequirements. intros ([i s] & (Ht & Hi & _)%find_step_ok & H)%rbind_ok.
  apply reject_ok in H as [Hg H]. rewrite !orb_false_iff, !bool_decide_eq_false in Hg. destruct Hg as [[[_ _] Hact] Hct].
  apply rbind_ok in H as (k & Hk & H). destruct (sameRequirements _ k) eqn:Es; injection H as <-; [by left|right].
  apply normalizeRequirementList_spec in Hk as (Hc & _ & Hmem).
  destruct (inv_lookup o i s Ho Hi) as [Hs Hsi]. pose proof (inv_ok o Ho) as Hok.
  apply (update_step o i s); try done.
  - destruct Hs. constructor; try done; cbn [set_requirements st_AcceptanceContract st_Requirements].
    + intros c Hc'. destruct Hct. by rewrite Hc'.
    + intros E. change (activeProvisioning (set_requirements s k)) with (activeProvisioning s) in E. congruence.
  - destruct Hsi. by constructor.
  - exact (step_ids_NoDup _ _ _ (oo_ids o Hok) Hi).
  - by left.
  - by destruct (oo_header o Hok) as (_ & _ & _ & _ & _ & _ & ?).
  - apply state_ok_requirements; [apply (oo_state o Hok)|done].
  - unfold validObjectiveStateTransition. by rewrite (bool_decide_true (ob_State o = ob_State o)).
  - by apply not_terminal in Ht as (_ & _ & ?).
  - apply not_terminal in Ht as (_ & _ & Hn). pose proof (inv_cancel o Ho Hn) as Hc'. rewrite Forall_lookup in Hc'.
    by apply (Hc' i s).
  - intros Hrec. apply step_transition; cbn [set_requirements st_StepID st_State st_Attempts st_Requirements st_AcceptanceContract
      st_Provisioning st_AcceptanceReceipt]; try done; try lia; [by rewrite Hact| |by apply no_receipt_transition|..].
    + eapply validProvisionHistory_refl, provisions_valid, (so_prov _ _ Hs).
    + apply requirementsSubset_canonical; [apply (so_reqs _ _ Hs)|done|]. intros x Hx. apply Hmem. rewrite fmap_app.
      apply elem_of_app. by left.
    + apply validStepStateTransition_refl.
    + apply valid_attempts_refl.
Qed.

(** ** Planning an attempt *)
Lemma Allows_AllowsClass policy e : Allows policy e = true -> AllowsClass policy (env_Class e) = true.
Proof.
  unfold Allows, AllowsClass. destruct (env_Valid e) eqn:Ev; cbn [negb]; [|done].
  apply env_Valid_inv in Ev as (_ & _ & (t & Ht) & _). by rewrite (tier_of_Some _ _ Ht), Ht.
Qed.

Lemma Resolve_allowed reqs cands policy r : resolve_error (Resolve reqs None cands policy) = Ok r ->
  Allows policy (res_Environment r) = true.
Proof.
  unfold Resolve. destruct (policy_valid policy); cbn [negb]; [|done].
  destruct (normalizeRequirementList reqs) as [k|]; [|done]. destruct (collect policy k [] cands) as [el|] eqn:Ec; [|done].
  apply collect_spec in Ec as (_ & Hk). destruct el as [|c el]; [done|].
  destruct (merge_sort candidate_le (c :: el)) as [|best rest] eqn:Es; [done|].
  destruct (rc_missing best); [|done]. intros [= <-]. cbn [res_Environment].
  apply best_candidate in Es as [Hin _]. by destruct (proj1 (Hk best) Hin) as (e & -> & _ & _ & ?).
Qed.

(** What both ways of planning give: a planned attempt that may follow the last one. *)
Definition planned_attempt (o : Objective) (s : ObjectiveStep) (attemptID sourceDigest : string) (a : ExecutionAttempt) : Prop :=
  attempt_ok (st_StepID s) (last (st_Attempts s)) a /\ at_State a = AttemptPlanned /\ at_AttemptID a = TrimSpace attemptID /\
  at_SourceDigest a = ToLower (TrimSpace sourceDigest) /\ AllowsClass (ob_Policy o) (at_Class a) = true /\
  match last (st_Attempts s) with
  | Some p => at_State p = AttemptFailed /\ at_ParentAttemptID a = at_AttemptID p
  | None => at_ParentAttemptID a = ""
  end.

Lemma plan_first o s attemptID sourceDigest e a : step_ok (ob_Policy o) s -> last (st_Attempts s) = None ->
  Allows (ob_Policy o) e = true -> NewExecutionAttempt attemptID (st_StepID s) sourceDigest e = Ok a ->
  planned_attempt o s attemptID sourceDigest a.
Proof.
  intros Hs Hl Hal (H1 & H2 & H3 & H4 & H5 & H6 & H7 & H8 & H9 & _)%NewExecutionAttempt_ok.
  rewrite TrimSpace_identity in H3 by apply (so_id _ _ Hs). unfold planned_attempt, attempt_ok.
  rewrite Hl, H6, bool_decide_false by done. split_and!; try done. rewrite H9. by apply Allows_AllowsClass.
Qed.

Lemma plan_next o s previous attemptID sourceDigest e a : step_ok (ob_Policy o) s -> last (st_Attempts s) = Some previous ->
  Allows (ob_Policy o) e = true -> ContinueExecutionAttempt attemptID sourceDigest previous e = Ok a ->
  planned_attempt o s attemptID sourceDigest a.
Proof.
  intros Hs Hl Hal (H1 & H2 & H3 & H4 & H5 & H6 & H7 & H8 & H9 & H10 & H11 & _)%ContinueExecutionAttempt_spec.
  assert (Hstep : at_StepID previous = st_StepID s).
  { pose proof (so_attempts _ _ Hs) as Hat. apply last_split in Hl as [l El]. rewrite El in Hat.
    by apply attempts_ok_snoc in Hat as [_ (_ & ? & _)]. }
  unfold planned_attempt, attempt_ok. rewrite Hl, H4, bool_decide_false by done. split_and!; try done; [congruence|].
  rewrite H9. by apply Allows_AllowsClass.
Qed.

Lemma plan_continuation_ok o s previous attemptID sourceDigest cands a r : step_ok (ob_Policy o) s ->
  last (st_Attempts s) = Some previous -> plan_continuation o s previous attemptID sourceDigest cands = Ok (a, r) ->
  planned_attempt o s attemptID sourceDigest a.
Proof.
  intros Hs Hl. unfold plan_continuation. intros [_ (res & Hres & (b & Hb & [= <- _])%rbind_ok)%rbind_ok]%reject_ok.
  eapply plan_next; [done..| |exact Hb]. destruct (ContinuationForFailure _) as [[]|]; try done.
  - destruct (exactEnvironmentByDigest _ _) as [e|]; [|done]. apply reject_ok in Hres as [Ha Hres].
    apply reject_ok in Hres as [_ [= <-]]. by apply negb_false_iff.
  - by eapply Resolve_allowed.
  - destruct (exactEnvironmentByDigest _ _) as [e|]; [|done]. apply reject_ok in Hres as [Ha Hres].
    apply reject_ok in Hres as [_ [= <-]]. by apply negb_false_iff.
Qed.

(** The step after planning. *)
Lemma step_ok_plan o s attemptID sourceDigest a : step_ok (ob_Policy o) s -> planned_attempt o s attemptID sourceDigest a ->
  (length (st_Attempts s) < MaxAttemptsPerStep)%nat -> activeProvisioning s = false ->
  (forall c, st_AcceptanceContract s = Some c -> TrimSpace sourceDigest = ct_SourceDigest c) ->
  step_ok (ob_Policy o) (set_attempts s (st_Attempts s ++ [a]) StepPlanned).
Proof.
  intros [H1 H2 H3 H4 H5 H6 H7 H8 H9 H10 H11 H12] (P1 & P2 & P3 & P4 & P5 & P6) Hlen Hact Hsrc.
  constructor; cbn [set_attempts st_StepID st_State st_Attempts st_Requirements st_AcceptanceContract st_Provisioning];
    rewrite ?activeProvisioning_attempts, ?Hact; try done.
  - rewrite length_app. cbn. lia.
  - by apply attempts_ok_snoc.
  - intros c Hc. destruct (H6 c Hc) as [Hv Hall]. split; [done|]. apply Forall_app. split; [done|]. constructor; [|constructor].
    rewrite P4, (Hsrc c Hc). apply ToLower_visible, digest_visible.
    unfold contract_validFor, contract_valid in Hv. destruct (MatchString sourceDigestPattern (ct_SourceDigest c)); [done|].
    by rewrite orb_true_r in Hv.
  - apply Forall_app. split; [done|]. by constructor.
  - rewrite (stepStateMatches_last _ a) by apply last_snoc. rewrite P2. by left.
Qed.

Lemma step_ids_plan s a state : step_ids (set_attempts s (st_Attempts s ++ [a]) state) ≡ₚ at_AttemptID a :: step_ids s.
Proof.
  unfold step_ids. cbn [set_attempts st_Attempts st_Provisioning]. rewrite fmap_app, <- app_assoc. cbn.
  by rewrite <- Permutation_middle.
Qed.

(** The step may be planned: it has no attempt or its last one failed. *)
Lemma plan_step_state o i s attemptID sourceDigest a : inv o -> terminal o = false -> ob_Steps o !! i = Some s ->
  planned_attempt o s attemptID sourceDigest a -> st_State s = StepPlanned \/ st_State s = StepFailed.
Proof.
  intros Ho Ht Hi (_ & _ & _ & _ & _ & Hp). destruct (inv_lookup o i s Ho Hi) as [Hs _].
  destruct (last (st_Attempts s)) as [p|] eqn:El.
  - right. pose proof (step_attempt_state _ s p Hs El) as H. unfold attempt_step_state in H. destruct Hp as [Ep _].
    rewrite Ep in H. destruct H as [[? ?]|[[? ?]|[[? ?]|[[? ?]|[? ?]]]]]; done.
  - left. pose proof (so_match _ _ Hs) as Hm. unfold stepStateMatchesAttempts in Hm. rewrite El in Hm.
    apply orb_true_iff in Hm. rewrite !bool_decide_eq_true in Hm. destruct Hm as [?|Hc]; [done|].
    apply not_terminal in Ht as (_ & _ & Hn). pose proof (inv_cancel o Ho Hn) as Hall. rewrite Forall_lookup in Hall.
    by destruct (Hall i s Hi).
Qed.

Lemma plan_update o i s attemptID sourceDigest a : inv o -> ob_Revision o + 1 < two64 -> terminal o = false ->
  ob_Steps o !! i = Some s -> planned_attempt o s attemptID sourceDigest a ->
  (length (st_Attempts s) < MaxAttemptsPerStep)%nat -> activeProvisioning s = false ->
  (forall c, st_AcceptanceContract s = Some c -> TrimSpace sourceDigest = ct_SourceDigest c) ->
  TrimSpace attemptID ∉ all_ids (ob_Steps o) ->
  good_revision o (revise o ObjectiveRunning (<[i := set_attempts s (st_Attempts s ++ [a]) StepPlanned]> (ob_Steps o))).
Proof.
  intros Ho Hr Ht Hi Hp Hlen Hact Hsrc Hfresh. destruct (inv_lookup o i s Ho Hi) as [Hs Hsi].
  pose proof (plan_step_state o i s _ _ a Ho Ht Hi Hp) as Hst. pose proof (inv_ok o Ho) as Hok.
  assert (Hns : st_State s <> StepSucceeded) by (by destruct Hst as [-> | ->]).
  assert (Hid : at_AttemptID a ∉ all_ids (ob_Steps o)) by (by destruct Hp as (_ & _ & -> & _)).
  apply (update_step o i s); try done.
  - by eapply step_ok_plan.
  - constructor; [by rewrite activeProvisioning_attempts, Hact|apply (si_fence s Hsi)].
  - rewrite step_ids_plan. constructor; [|eapply step_ids_NoDup; [apply (oo_ids o Hok)|done]].
    intros Hin. by eapply Hid, step_ids_all.
  - intros x. rewrite step_ids_plan. intros [->|Hx]%elem_of_cons; [by right|by left].
  - by eapply state_ok_running.
  - by eapply to_running.
  - intros Hrec. apply step_transition; cbn [set_attempts st_StepID st_State st_Attempts st_Requirements st_AcceptanceContract
      st_Provisioning st_AcceptanceReceipt]; try done; try lia; [|by apply no_receipt_transition|..].
    + eapply validProvisionHistory_refl, provisions_valid, (so_prov _ _ Hs).
    + apply requirementsSubset_refl.
    + by destruct Hst as [-> | ->].
    + rewrite length_app. cbn. lia.
    + apply valid_attempts_snoc; [by destruct Hp as (_ & _ & _ & _ & _ & ?)|by destruct Hp as (_ & ? & _)].
Qed.

Lemma PlanAttempt_good o stepID attemptID sourceDigest cands o' r : inv o -> ob_Revision o + 1 < two64 ->
  TrimSpace attemptID ∉ all_ids (ob_Steps o) ->
  PlanAttempt o stepID attemptID sourceDigest cands = Ok (o', r) -> good_revision o o'.
Proof.
  intros Ho Hr Hfresh. unfold PlanAttempt. intros ([i s] & (Ht & Hi & _)%find_step_ok & H)%rbind_ok.
  apply reject_ok in H as [Hsrc H]. apply reject_ok in H as [Hact H]. apply reject_ok in H as [_ H].
  apply reject_ok in H as [Hlen H]. apply bool_decide_eq_false in Hlen. apply rbind_ok in H as ([a res] & Ha & [= <- _]).
  destruct (inv_lookup o i s Ho Hi) as [Hs _]. apply (plan_update o i s attemptID sourceDigest a); try done; [|lia|].
  - destruct (last (st_Attempts s)) as [p|] eqn:El; [by eapply plan_continuation_ok|].
    apply rbind_ok in Ha as (r1 & Hr1 & (b & Hb & [= <- _])%rbind_ok). eapply plan_first; [done..| |exact Hb].
    by eapply Resolve_allowed.
  - intros c Hc. rewrite Hc in Hsrc. by apply negb_false_iff, bool_decide_eq_true in Hsrc.
Qed.
