(* ===== verification/DevFinish.v ===== *)
(** * Provisioning, accepting and cancelling an objective

    The operations that follow or end the work on an objective keep the invariant
    and pass the store's check. *)

From S2P Require Import Prelude GoStrings GoRegexp Sha256 DevCapability DevResolver DevAttempt DevProvision DevObjective DevOps DevInv DevPreserve DevSteps DevPlan.

(** ** Provisioning *)
Lemma activeProvisioning_spec s : activeProvisioning s = true <-> exists p, last (st_Provisioning s) = Some p /\ pv_active p.
Proof.
  unfold activeProvisioning, pv_active. destruct (last (st_Provisioning s)) as [p|].
  - rewrite orb_true_iff, !bool_decide_eq_true. split; [intros; by exists p|]. by intros (q & [= <-] & ?).
  - split; [done|]. by intros (p & ? & _).
Qed.

Lemma stepIndex_lookup o stepID i : stepIndex o stepID = Some i -> exists s, ob_Steps o !! i = Some s /\ st_StepID s = TrimSpace stepID.
Proof.
  unfold stepIndex. destruct (list_find _ (ob_Steps o)) as [[k t]|] eqn:E; cbn; [|done]. intros [= <-].
  apply list_find_Some in E as (Hk & Hid & _). by exists t.
Qed.

Lemma no_cancelled_step o i s : inv o -> terminal o = false -> ob_Steps o !! i = Some s -> st_State s <> StepCancelled.
Proof.
  intros Ho (_ & _ & Hn)%not_terminal Hi. pose proof (inv_cancel o Ho Hn) as H. rewrite Forall_lookup in H. by apply (H i).
Qed.

(** A revision that changes only the provisioning of a step. *)
Lemma provisioning_transition o o' s l policy : step_ok policy s -> st_AcceptanceReceipt s = None ->
  validProvisionHistory (st_Provisioning s) l = true ->
  ((length (st_Provisioning s) < length l)%nat -> canPlanProvisioning s = true) ->
  validate_step_transition o o' s (set_provisioning s l) = Ok tt.
Proof.
  intros Hs Hrec Hh Hg. apply step_transition; cbn [set_provisioning st_StepID st_State st_Attempts st_Requirements
    st_AcceptanceContract st_Provisioning st_AcceptanceReceipt]; try done; try lia; [by apply no_receipt_transition|..].
  - apply requirementsSubset_refl.
  - apply validStepStateTransition_refl.
  - apply valid_attempts_refl.
Qed.

Lemma canPlan_attempts s a : canPlanProvisioning s = true -> last (st_Attempts s) = Some a -> at_State a = AttemptFailed.
Proof.
  unfold canPlanProvisioning. destruct (_ || activeProvisioning s); [done|]. intros H Ha. rewrite Ha in H.
  destruct (bool_decide_reflect (at_State a = AttemptFailed)); [done|]. done.
Qed.

Lemma NewProvisioningAttempt_ok id digest plan p : NewProvisioningAttempt id digest plan = Ok p ->
  pv_State p = ProvisioningPlanned /\ pv_JobFence p = 0.
Proof. unfold NewProvisioningAttempt. by intros [_ [= <-]]%reject_ok. Qed.

Lemma PlanProvisioning_good o stepID provisionID sourceDigest plan o' : inv o -> ob_Revision o + 1 < two64 ->
  PlanProvisioning o stepID provisionID sourceDigest plan = Ok o' -> good_revision o o'.
Proof.
  intros Ho Hr. unfold PlanProvisioning. destruct (stepIndex o stepID) as [i|] eqn:Ei; [|done].
  intros [Hg H]%reject_ok. rewrite !orb_false_iff in Hg. destruct Hg as [[[_ Ht] _] _].
  destruct (ob_Steps o !! i) as [s|] eqn:Hi; [|done]. apply reject_ok in H as [Hc H]. apply reject_ok in H as [Hcan H].
  apply negb_false_iff in Hcan. apply rbind_ok in H as (p & Hp & H). apply NewProvisioningAttempt_ok in Hp as [Hps Hpf].
  destruct (ob_Valid _) eqn:Hv; cbn [negb] in H; [|done]. injection H as <-. apply ob_Valid_spec in Hv.
  rewrite !orb_false_iff in Hc. destruct Hc as [[[Hst Hact] _] _].
  assert (Hst' : st_State s = StepPlanned \/ st_State s = StepFailed).
  { destruct (bool_decide_reflect (st_State s = StepPlanned)); [by left|].
    destruct (bool_decide_reflect (st_State s = StepFailed)); [by right|done]. }
  destruct (inv_lookup o i s Ho Hi) as [Hs Hsi]. apply (update_step_checked o i s); try done.
  - constructor; cbn [set_provisioning st_Attempts st_Provisioning].
    + intros _. destruct (last (st_Attempts s)) as [a|] eqn:El; [|done]. by eapply canPlan_attempts.
    + apply Forall_app. split; [apply (si_fence s Hsi)|]. constructor; [lia|constructor].
  - eapply to_running; [apply (inv_ok o Ho)|done|done|by destruct Hst' as [-> | ->]].
  - by apply (no_cancelled_step o i s).
  - intros Hrec. eapply provisioning_transition; [done|done| |done].
    apply validProvisionHistory_snoc; [eapply provisions_valid, (so_prov _ _ Hs)| |done].
    intros q Hq Hqa. assert (activeProvisioning s = true) by (apply activeProvisioning_spec; by exists q). congruence.
Qed.

(** A revision of a provisioning attempt starts from an active one and does not
    lower the fence, unless it changes nothing. *)
Lemma provision_revision_fence p q : validProvisionRevision p q = true -> sameProvisionAttempt p q = false ->
  0 <= pv_JobFence p -> pv_active p /\ 0 <= pv_JobFence q.
Proof.
  unfold validProvisionRevision, pv_active. destruct (_ || _); [done|]. intros H Hs Hf. rewrite Hs in H.
  destruct (bool_decide_reflect (pv_State p = ProvisioningPlanned)) as [E|_].
  - split; [by left|]. apply orb_true_iff in H. rewrite !andb_true_iff, !bool_decide_eq_true in H. destruct H as [[_ ?]|[_ ?]]; lia.
  - destruct (bool_decide_reflect (pv_State p = ProvisioningQueued)) as [E|_]; [|done]. cbn [negb orb] in H.
    destruct (negb _ || _) eqn:Eg; [done|]. apply orb_false_iff in Eg as [_ Eg]. split; [by right|]. lia.
Qed.

Lemma advanceProvision_good o stepID provisionID change o' : inv o -> ob_Revision o + 1 < two64 ->
  advanceProvision o stepID provisionID change = Ok o' -> o' = o \/ good_revision o o'.
Proof.
  intros Ho Hr. unfold advanceProvision. destruct (stepIndex o stepID) as [i|] eqn:Ei; [|done].
  intros [Hg H]%reject_ok. rewrite orb_false_iff in Hg. destruct Hg as [_ Ht].
  destruct (ob_Steps o !! i) as [s|] eqn:Hi; [|done]. destruct (last (st_Provisioning s)) as [p|] eqn:Hl; [|done].
  apply reject_ok in H as [_ H]. destruct (change p) as [q|]; [|done]. apply reject_ok in H as [Hrev H].
  apply negb_false_iff in Hrev. destruct (sameProvisionAttempt p q) eqn:Es; [injection H as <-; by left|right].
  destruct (ob_Valid _) eqn:Hv; cbn [negb] in H; [|done]. injection H as <-. apply ob_Valid_spec in Hv.
  destruct (inv_lookup o i s Ho Hi) as [Hs Hsi].
  assert (Hfp : 0 <= pv_JobFence p).
  { pose proof (si_fence s Hsi) as Hf. rewrite Forall_forall in Hf. apply Hf. apply last_split in Hl as [l ->].
    apply elem_of_app. right. left. }
  destruct (provision_revision_fence p q Hrev Es Hfp) as [Hpa Hfq].
  apply (update_step_checked o i s); try done.
  - constructor; cbn [set_provisioning st_Attempts st_Provisioning].
    + intros _. apply (si_prov s Hsi), activeProvisioning_spec. by exists p.
    + by apply set_last_Forall; [apply (si_fence s Hsi)|].
  - unfold validObjectiveStateTransition. by rewrite (bool_decide_true (ob_State o = ob_State o)).
  - by apply not_terminal in Ht as (_ & _ & ?).
  - by apply (no_cancelled_step o i s).
  - intros Hrec. eapply provisioning_transition; [done|done| |].
    + eapply validProvisionHistory_last; [eapply provisions_valid, (so_prov _ _ Hs)|done|done].
    + unfold set_last. rewrite length_insert. lia.
Qed.

(** ** Revisions of all steps *)
(** What a revision of every step owes for each of them. *)
Definition step_revision (o o' : Objective) (s s' : ObjectiveStep) : Prop :=
  step_inv s' /\ validate_step_transition o o' s s' = Ok tt.

Lemma revise_all_good o state steps : inv o -> ob_Revision o + 1 < two64 -> terminal o = false ->
  Forall2 (step_revision o (revise o state steps)) (ob_Steps o) steps ->
  objective_ok (revise o state steps) -> validObjectiveStateTransition (ob_State o) state = true ->
  (state <> ObjectiveCancelled -> Forall (fun s => st_State s <> StepCancelled) steps) ->
  good_revision o (revise o state steps).
Proof.
  intros Ho Hr Ht Hall Hok Hst Hcan. split.
  - apply ValidateTransition_intro; try done; [apply (inv_ok o Ho)|by rewrite (Forall2_length _ _ _ Hall)|].
    intros i s s' Hi Hi'. destruct (Forall2_lookup_lr _ _ _ _ _ _ Hall Hi Hi') as [_ ?]. done.
  - constructor; cbn [revise ob_Revision ob_Steps ob_State]; [done| |..].
    + destruct (inv_rev o Ho). rewrite next_revision by lia. lia.
    + apply Forall_lookup. intros i s' Hi'. by destruct (Forall2_lookup_r _ _ _ _ _ Hall Hi') as (s & _ & ? & _).
    + done.
Qed.

Lemma step_revision_refl o o' i s : inv o -> terminal o = false -> ob_Steps o !! i = Some s -> step_revision o o' s s.
Proof.
  intros Ho Ht Hi. destruct (inv_lookup o i s Ho Hi) as [Hs Hsi]. split; [done|]. eapply step_transition_refl; [done|].
  destruct (not_terminal o Ht) as (Hacc & _). pose proof (objective_no_receipts o (inv_ok o Ho) Hacc) as Hno.
  unfold no_receipts in Hno. rewrite Forall_lookup in Hno. by apply (Hno i).
Qed.

(** ** Accepting *)
Lemma pending_not_terminal o : ob_State o = ObjectiveAcceptancePending -> terminal o = false.
Proof. intros E. unfold terminal. by rewrite E. Qed.

Lemma pending_all_succeeded o : objective_ok o -> ob_State o = ObjectiveAcceptancePending -> all_succeeded (ob_Steps o) = true.
Proof.
  intros Ho E. unfold all_succeeded. apply forallb_forall. intros s Hs. apply list_elem_of_In, list_elem_of_lookup in Hs as [i Hi].
  apply bool_decide_eq_true. by eapply pending_succeeded.
Qed.

Lemma Accept_good o o' : inv o -> ob_Revision o + 1 < two64 -> Accept o = Ok o' -> good_revision o o'.
Proof.
  intros Ho Hr. unfold Accept. destruct (_ || _) eqn:Eg; [done|]. intros [= <-].
  rewrite !orb_false_iff, negb_false_iff, bool_decide_eq_true in Eg. destruct Eg as [[Est Hmode] Hfirst].
  pose proof (inv_ok o Ho) as Hok. pose proof (pending_not_terminal o Est) as Ht.
  assert (Hacc : ob_State o <> ObjectiveAccepted) by (by rewrite Est).
  pose proof (objective_no_receipts o Hok Hacc) as Hno.
  apply revise_all_good; try done; [| |by rewrite Est|].
  - apply Forall2_same_length_lookup_2; [done|]. intros i s s' Hi Hi'. simplify_eq. by eapply step_revision_refl.
  - destruct (inv_rev o Ho). apply revise_all_ok; try done.
    + apply Forall2_same_length_lookup_2; [done|]. intros i s s' Hi Hi'. simplify_eq. split_and!; try done.
      by apply (inv_lookup o i s).
    + unfold state_ok, validate_state. cbn [revise ob_State ob_Steps state_acc sn_allSucceeded sn_receiptCount].
      rewrite pending_all_succeeded, all_ops_none by done. cbn. destruct (ob_Steps o) as [|t l]; [done|]. by rewrite Hfirst.
  - intros _. apply Forall_lookup. intros i s Hi. by rewrite (pending_succeeded o i s).
Qed.

(** Accepting with evidence only adds receipts. *)
Lemma accept_receipts_steps o seen receipts steps steps' : accept_receipts o seen receipts steps = Ok steps' ->
  Forall2 (fun s s' => s' = s \/ exists r, s' = set_receipt s r) steps steps'.
Proof.
  revert seen steps. induction receipts as [|r receipts IH]; intros seen steps; cbn [accept_receipts].
  { intros [= <-]. apply Forall2_same_length_lookup_2; [done|]. intros i s s' ? ?. simplify_eq. by left. }
  destruct (stepIndex o (rt_StepID r)) as [i|]; [|done]. intros [_ [_ H]%reject_ok]%reject_ok. apply IH in H.
  apply Forall2_same_length_lookup_2; [by rewrite <- (Forall2_length _ _ _ H), length_alter|].
  intros k s s' Hk Hk'. destruct (decide (k = i)) as [->|Hne].
  - assert (Hk2 : alter (fun s => set_receipt s r) i steps !! i = Some (set_receipt s r)) by (by rewrite list_lookup_alter_eq, Hk).
    destruct (Forall2_lookup_lr _ _ _ _ _ _ H Hk2 Hk') as [->|[r' ->]]; right; [by exists r|by exists r'].
  - assert (Hk2 : alter (fun s => set_receipt s r) i steps !! k = Some s) by (by rewrite list_lookup_alter_ne).
    exact (Forall2_lookup_lr _ _ _ _ _ _ H Hk2 Hk').
Qed.

Lemma AcceptWithEvidence_good o receipts o' : inv o -> ob_Revision o + 1 < two64 -> AcceptWithEvidence o receipts = Ok o' ->
  good_revision o o'.
Proof.
  intros Ho Hr. unfold AcceptWithEvidence. intros [Hg H]%reject_ok. apply reject_ok in H as [_ H].
  apply rbind_ok in H as (steps & Hsteps & H). destruct (ob_Valid (revise _ _ _)) eqn:Hv; cbn [negb] in H; [|done].
  injection H as <-. apply ob_Valid_spec in Hv. apply accept_receipts_steps in Hsteps.
  rewrite !orb_false_iff, !negb_false_iff, bool_decide_eq_true in Hg. destruct Hg as [[[_ Est] Hmode] Hfirst].
  pose proof (inv_ok o Ho) as Hok. pose proof (pending_not_terminal o Est) as Ht.
  assert (Hct : Forall (fun s => st_AcceptanceContract s <> None) (ob_Steps o)).
  { apply mode_spec in Hmode as [Hm|Hm]; [|done]. destruct (ob_Steps o) as [|t l]; [done|].
    apply Forall_cons in Hm as [Hm _]. by rewrite Hm in Hfirst. }
  rewrite Forall_lookup in Hct. apply revise_all_good; try done; [|by rewrite Est|].
  - apply Forall2_same_length_lookup_2; [by apply (Forall2_length _ _ _ Hsteps)|]. intros i s s' Hi Hi'.
    destruct (step_revision_refl o (revise o ObjectiveAccepted steps) i s Ho Ht Hi) as [Hsi Htr].
    destruct (Forall2_lookup_lr _ _ _ _ _ _ Hsteps Hi Hi') as [->|[r ->]]; [done|]. split; [by destruct Hsi|].
    destruct (inv_lookup o i s Ho Hi) as [Hs _]. apply step_transition; cbn [set_receipt st_StepID st_State st_Attempts
      st_Requirements st_AcceptanceContract st_Provisioning st_AcceptanceReceipt]; try done; try lia.
    + eapply validProvisionHistory_refl, provisions_valid, (so_prov _ _ Hs).
    + unfold validAcceptanceReceiptTransition. cbn [set_receipt st_AcceptanceReceipt].
      assert (Hacc : ob_State o <> ObjectiveAccepted) by (by rewrite Est).
      pose proof (objective_no_receipts o Hok Hacc) as Hno. unfold no_receipts in Hno. rewrite Forall_lookup in Hno.
      rewrite (Hno i s Hi), Est, bool_decide_true by (by apply (Hct i)). done.
    + apply requirementsSubset_refl.
    + apply validStepStateTransition_refl.
    + apply valid_attempts_refl.
  - intros _. apply Forall_lookup. intros i s' Hi'. destruct (Forall2_lookup_r _ _ _ _ _ Hsteps Hi') as (s & Hi & Hx).
    pose proof (pending_succeeded o i s Hok Est Hi) as E. by destruct Hx as [->|[r ->]]; cbn [set_receipt st_State]; rewrite E.
Qed.

(** ** Cancelling *)
Lemma pv_Valid_active p : pv_Valid p = true ->
  (pv_State p = ProvisioningPlanned -> pv_JobID p = "" /\ pv_JobFence p = 0) /\
  (pv_State p = ProvisioningQueued -> MatchString provisionJobIDPattern (pv_JobID p) = true).
Proof.
  unfold pv_Valid. destruct (_ || _); [done|]. intros Hv. split; intros E; rewrite E in Hv.
  - rewrite (bool_decide_true (ProvisioningPlanned = _)), !andb_true_iff, !bool_decide_eq_true in Hv by done. tauto.
  - rewrite (bool_decide_false (ProvisioningQueued = ProvisioningPlanned)), (bool_decide_true (ProvisioningQueued = _)),
      !andb_true_iff in Hv by done. tauto.
Qed.

Lemma pv_Cancel_ok p q : pv_Valid p = true -> pv_Cancel p = Ok q ->
  pv_Valid q = true /\ validProvisionRevision p q = true /\ pv_ProvisionID q = pv_ProvisionID p /\ pv_Plan q = pv_Plan p /\
  pv_State q = ProvisioningCancelled /\ pv_JobFence q = pv_JobFence p.
Proof.
  intros Hv. unfold pv_Cancel. intros [Hg [= <-]]%reject_ok. rewrite Hv in Hg. cbn [negb orb] in Hg.
  apply andb_false_iff in Hg. rewrite !negb_false_iff, !bool_decide_eq_true in Hg.
  pose proof (pv_Valid_identity p Hv) as Hid. unfold pv_identity in Hid. rewrite !andb_true_iff in Hid. destruct Hid as [[H1 H2] H3].
  destruct (pv_Valid_active p Hv) as [Hpl Hqu].
  assert (Hq : pv_Valid (pv_update p ProvisioningCancelled (pv_JobID p) (pv_JobFence p) "" "") = true).
  { unfold pv_Valid. cbn [pv_update pv_ProvisionID pv_SourceDigest pv_Plan pv_State pv_JobID pv_JobFence pv_ReceiptDigest pv_Failure].
    rewrite H1, H2, H3. rewrite !(bool_decide_false (ProvisioningCancelled = _)) by done.
    rewrite (bool_decide_true (ProvisioningCancelled = _)), !(bool_decide_true (@eq string "" "")) by done. cbn [negb orb andb].
    destruct Hg as [E|E]; [destruct (Hpl E) as [-> ->]|rewrite (Hqu E), orb_true_r]; done. }
  split_and!; try done. unfold validProvisionRevision. rewrite Hv, Hq.
  cbn [pv_update pv_ProvisionID pv_SourceDigest pv_Plan pv_State pv_JobID pv_JobFence pv_ReceiptDigest pv_Failure].
  rewrite (bool_decide_true (pv_ProvisionID p = _)), (bool_decide_true (pv_SourceDigest p = _)),
    (bool_decide_true (pl_Digest (pv_Plan p) = _)), (bool_decide_true (pv_JobID p = pv_JobID p)),
    (bool_decide_true (pv_JobFence p = pv_JobFence p)), Z.ltb_irrefl by done.
  cbn [negb orb]. destruct (sameProvisionAttempt _ _); [done|].
  destruct Hg as [E|E]; rewrite E; [destruct (Hpl E) as [-> ->]|]; done.
Qed.

Lemma provisions_ok_last policy l p q : provisions_ok policy l -> last l = Some p -> pv_Valid q = true -> pv_Plan q = pv_Plan p ->
  provisions_ok policy (set_last l q).
Proof.
  intros Hl [k ->]%last_split Hq Ep. rewrite set_last_snoc. induction k as [|x k IH]; cbn in Hl |- *.
  - destruct Hl as (_ & Hc & _ & _). rewrite Ep. by split_and!.
  - destruct Hl as (H1 & H2 & H3 & H4). split_and!; try done; [|by apply IH]. intros _. apply H3. by destruct k.
Qed.

Lemma step_ok_provisioning policy s l : step_ok policy s -> provisions_ok policy l ->
  (length l <= MaxProvisioningAttemptsPerStep)%nat -> activeProvisioning (set_provisioning s l) = false ->
  step_ok policy (set_provisioning s l).
Proof. intros [] Hl Hlen Hact. constructor; try done; by rewrite Hact. Qed.

(** The provisioning part of a cancelled step. *)
Lemma cancel_provisioning_ok policy s s1 : step_ok policy s -> step_inv s -> cancel_provisioning s = Ok s1 ->
  exists l, s1 = set_provisioning s l /\ step_ok policy s1 /\ activeProvisioning s1 = false /\
    Forall (fun p => 0 <= pv_JobFence p) l /\ pv_ProvisionID <$> l = pv_ProvisionID <$> st_Provisioning s /\
    validProvisionHistory (st_Provisioning s) l = true /\ length l = length (st_Provisioning s).
Proof.
  intros Hs Hsi. pose proof (provisions_valid _ _ (so_prov _ _ Hs)) as Hval. pose proof (si_fence s Hsi) as Hf.
  assert (Hid : activeProvisioning s = false -> exists l, s = set_provisioning s l /\ step_ok policy s /\
    activeProvisioning s = false /\ Forall (fun p => 0 <= pv_JobFence p) l /\
    pv_ProvisionID <$> l = pv_ProvisionID <$> st_Provisioning s /\
    validProvisionHistory (st_Provisioning s) l = true /\ length l = length (st_Provisioning s)).
  { intros Ha. exists (st_Provisioning s). split_and!; try done; [by destruct s|by apply validProvisionHistory_refl]. }
  unfold cancel_provisioning. destruct (last (st_Provisioning s)) as [p|] eqn:El.
  - destruct (_ || _) eqn:Ea; intros H; [|injection H as <-; apply Hid; unfold activeProvisioning; by rewrite El].
    apply rbind_ok in H as (q & Hq & [= <-]).
    assert (Hvp : pv_Valid p = true).
    { rewrite Forall_forall in Hval. apply Hval. apply last_split in El as [l ->]. apply elem_of_app. right. left. }
    destruct (pv_Cancel_ok p q Hvp Hq) as (Hvq & Hrev & Eid & Epl & Est & Ef).
    assert (Hact : activeProvisioning (set_provisioning s (set_last (st_Provisioning s) q)) = false).
    { unfold activeProvisioning. cbn [set_provisioning st_Provisioning]. by rewrite (last_set_last _ p), Est. }
    assert (Hlen : length (set_last (st_Provisioning s) q) = length (st_Provisioning s)) by apply length_insert.
    exists (set_last (st_Provisioning s) q). split_and!; try done.
    + apply step_ok_provisioning; try done; [by eapply provisions_ok_last; [apply (so_prov _ _ Hs)|..]|].
      rewrite Hlen. apply (so_prov_budget _ _ Hs).
    + apply set_last_Forall; [done|]. rewrite Ef. rewrite Forall_forall in Hf. apply Hf.
      apply last_split in El as [l ->]. apply elem_of_app. right. left.
    + by eapply set_last_fmap.
    + by eapply validProvisionHistory_last.
  - intros [= <-]. apply Hid. unfold activeProvisioning. by rewrite El.
Qed.

(** The attempts part of a cancelled step. *)
Lemma cancel_attempts_ok policy s s' : step_ok policy s -> activeProvisioning s = false -> st_State s <> StepCancelled ->
  (if (st_State s =? StepSucceeded) || (st_State s =? StepFailed) || (st_State s =? StepCancelled) then Ok s
   else match last (st_Attempts s) with
        | None => Ok (set_attempts s (st_Attempts s) StepCancelled)
        | Some a =>
            check reject_if ((at_State a <>? AttemptPlanned) && (at_State a <>? AttemptRunning)) ErrCancelAttempt in
            let? cancelled := at_Transition a AttemptCancelled in
            Ok (set_attempts s (set_last (st_Attempts s) cancelled) StepCancelled)
        end) = Ok s' ->
  exists l state, s' = set_attempts s l state /\ step_ok policy s' /\ at_AttemptID <$> l = at_AttemptID <$> st_Attempts s /\
    valid_attempts_transition (st_Attempts s) l = true /\ length l = length (st_Attempts s) /\
    validStepStateTransition (st_State s) state = true /\ (state = StepSucceeded \/ state = StepFailed \/ state = StepCancelled).
Proof.
  intros Hs Hact Hnc. destruct (_ || _) eqn:Est.
  { intros [= <-]. exists (st_Attempts s), (st_State s). rewrite !orb_true_iff, !bool_decide_eq_true in Est.
    split_and!; try done; [by destruct s|apply valid_attempts_refl|apply validStepStateTransition_refl|tauto]. }
  rewrite !orb_false_iff, !bool_decide_eq_false in Est. destruct Est as [[Hn1 Hn2] _].
  assert (Hopen : st_State s = StepPlanned \/ st_State s = StepRunning).
  { pose proof (so_state _ _ Hs) as Hv. unfold validStepState in Hv. apply bool_decide_eq_true in Hv.
    repeat (apply elem_of_cons in Hv as [Hv|Hv]; [tauto|]). by apply elem_of_nil in Hv. }
  assert (Hstt : validStepStateTransition (st_State s) StepCancelled = true) by (by destruct Hopen as [-> | ->]).
  destruct (last (st_Attempts s)) as [a|] eqn:El.
  - intros [_ (b & Hb & [= <-])%rbind_ok]%reject_ok.
    pose proof (attempts_ok_last_rule _ _ _ (so_attempts _ _ Hs) El) as Hfr.
    apply at_Transition_ok in Hb as (Hsame & Hst & Hrev & Hf & _); [|done|done].
    exists (set_last (st_Attempts s) b), StepCancelled. split_and!; try done; [|..|tauto].
    + eapply step_ok_last; try done. rewrite Hst. by right; right; right; right.
    + eapply set_last_fmap; [done|]. by apply same_attempt_fields.
    + by eapply valid_attempts_last.
    + apply length_insert.
  - intros [= <-]. exists (st_Attempts s), StepCancelled. split_and!; try done; [|apply valid_attempts_refl|tauto].
    destruct Hs. constructor; try done; rewrite ?activeProvisioning_attempts, ?Hact; try done.
    unfold stepStateMatchesAttempts. cbn [set_attempts st_Attempts st_State]. rewrite El. by rewrite orb_true_r.
Qed.

(** What cancelling a step does. *)
Definition cancelled_step (policy : ResolutionPolicy) (s s' : ObjectiveStep) : Prop :=
  step_ok policy s' /\ st_StepID s' = st_StepID s /\ st_AcceptanceContract s' = st_AcceptanceContract s /\
  st_AcceptanceReceipt s' = st_AcceptanceReceipt s /\ step_ids s' = step_ids s /\ step_inv s' /\ activeProvisioning s' = false /\
  (st_State s' = StepSucceeded \/ st_State s' = StepFailed \/ st_State s' = StepCancelled) /\
  forall o o', st_AcceptanceReceipt s = None -> validate_step_transition o o' s s' = Ok tt.

Lemma cancel_step_ok policy s s' : step_ok policy s -> step_inv s -> st_State s <> StepCancelled -> cancel_step s = Ok s' ->
  cancelled_step policy s s'.
Proof.
  intros Hs Hsi Hnc. unfold cancel_step. intros (s1 & H1 & H2)%rbind_ok.
  destruct (cancel_provisioning_ok policy s s1 Hs Hsi H1) as (l & -> & Hs1 & Hact & Hf & Hids & Hh & Hlen).
  apply (cancel_attempts_ok policy) in H2 as (m & state & -> & Hs2 & Hatt & Hva & Hlm & Hst & Hfin); [|done..].
  cbn [set_provisioning st_Attempts st_State] in Hatt, Hva, Hlm, Hst.
  unfold cancelled_step. split_and!; try done.
  - unfold step_ids. cbn [set_attempts set_provisioning st_Attempts st_Provisioning]. by rewrite Hatt, Hids.
  - constructor; [rewrite activeProvisioning_attempts; by rewrite Hact|done].
  - intros o o' Hrec. apply step_transition; cbn [set_attempts set_provisioning st_StepID st_State st_Attempts st_Requirements
      st_AcceptanceContract st_Provisioning st_AcceptanceReceipt]; try done; try lia; [by apply no_receipt_transition|].
    apply requirementsSubset_refl.
Qed.

Lemma cancel_steps_ok policy steps steps' : Forall (step_ok policy) steps -> Forall step_inv steps ->
  Forall (fun s => st_State s <> StepCancelled) steps -> cancel_steps steps = Ok steps' ->
  Forall2 (cancelled_step policy) steps steps'.
Proof.
  intros Hs. revert steps'. induction Hs as [|s steps Hs _ IH]; intros steps' Hi Hc; cbn [cancel_steps].
  { intros [= <-]. constructor. }
  apply Forall_cons in Hi as [Hi Hi'], Hc as [Hc Hc']. intros (s' & Hs' & (r & Hr & [= <-])%rbind_ok)%rbind_ok.
  constructor; [by apply cancel_step_ok|by apply IH].
Qed.

Lemma state_ok_cancelled o steps policy : Forall (fun s' => exists s, cancelled_step policy s s') steps ->
  state_ok (revise o ObjectiveCancelled steps).
Proof.
  intros H. unfold state_ok, validate_state. cbn [revise ob_State ob_Steps].
  rewrite !(bool_decide_false (ObjectiveCancelled = _)) by done. cbn [orb]. rewrite bool_decide_true by done.
  apply reject_if_ok, existsb_false_Forall. eapply Forall_impl; [exact H|]. cbn.
  intros s' (s & _ & _ & _ & _ & _ & _ & Ha & Hst & _). rewrite Ha. by destruct Hst as [-> |[-> | ->]].
Qed.

Lemma ob_Cancel_good o o' : inv o -> ob_Revision o + 1 < two64 -> ob_Cancel o = Ok o' -> good_revision o o'.
Proof.
  intros Ho Hr. unfold ob_Cancel. intros [Ht (steps & Hsteps & [= <-])%rbind_ok]%reject_ok.
  pose proof (inv_ok o Ho) as Hok. destruct (not_terminal o Ht) as (Hacc & Hfl & Hcn). destruct (inv_rev o Ho).
  pose proof (objective_no_receipts o Hok Hacc) as Hno. unfold no_receipts in Hno. rewrite Forall_lookup in Hno.
  assert (Hsok : Forall (step_ok (ob_Policy o)) (ob_Steps o)) by (apply Forall_lookup; intros i s Hi; by apply (inv_lookup o i s)).
  pose proof (cancel_steps_ok _ _ _ Hsok (inv_step o Ho) (inv_cancel o Ho Hcn) Hsteps) as Hall.
  apply revise_all_good; try done.
  - apply Forall2_same_length_lookup_2; [by apply (Forall2_length _ _ _ Hall)|]. intros i s s' Hi Hi'.
    destruct (Forall2_lookup_lr _ _ _ _ _ _ Hall Hi Hi') as (_ & _ & _ & _ & _ & Hsi & _ & _ & Htr). split; [done|].
    apply Htr. by apply (Hno i).
  - apply revise_all_ok; try done.
    + eapply Forall2_impl; [exact Hall|]. intros s s' (H1 & H2 & H3 & H4 & H5 & _). done.
    + apply (state_ok_cancelled o steps (ob_Policy o)). apply Forall_lookup. intros i s' Hi'.
      destruct (Forall2_lookup_r _ _ _ _ _ Hall Hi') as (s & _ & ?). by exists s.
  - destruct (open_states o Hok Ht) as [-> |[-> |[-> | ->]]]; reflexivity.
Qed.
