(* ===== verification/DevHistory.v ===== *)
(** * What the transition check preserves

    [ValidateTransition] is what stands between a stored objective and the next
    revision, whoever computed it. A pair of revisions that it accepts keeps the
    identity, the scope and the authority of the objective, only adds requirements,
    and never rewrites the history of a step.  Then what an acceptance receipt is bound
    to, and that a command digest determines the command. *)

From stdpp Require Import relations.
From S2P Require Import Prelude GoStrings GoRegexp Sha256 DevCapability DevResolver DevAttempt DevProvision DevObjective DevOps DevInv DevPreserve DevSteps.

(** ** Histories *)
(** An attempt that ran to an end. *)
Definition closed_attempt (a : ExecutionAttempt) : Prop :=
  at_State a <> AttemptPlanned /\ at_State a <> AttemptRunning.

(** Every attempt stays where it is, for the same source in the same environment,
    and one that has ended stays as it is. *)
Definition attempts_extend (l k : list ExecutionAttempt) : Prop :=
  forall i a, l !! i = Some a -> exists b, k !! i = Some b /\ same_attempt a b /\ (closed_attempt a -> b = a).

(** Provisioning keeps its identity, source and plan, and its fence never falls. *)
Definition same_provision (p q : ProvisioningAttempt) : Prop :=
  pv_ProvisionID q = pv_ProvisionID p /\ pv_SourceDigest q = pv_SourceDigest p /\
  pl_Digest (pv_Plan q) = pl_Digest (pv_Plan p) /\ pv_JobFence p <= pv_JobFence q.

Definition provisions_extend (l k : list ProvisioningAttempt) : Prop :=
  forall i p, l !! i = Some p -> exists q, k !! i = Some q /\ same_provision p q.

Record step_extends (s s' : ObjectiveStep) : Prop := {
  se_id : st_StepID s' = st_StepID s;
  se_contract : st_AcceptanceContract s' = st_AcceptanceContract s;
  se_reqs : forall x, x ∈ req_ID <$> st_Requirements s -> x ∈ req_ID <$> st_Requirements s';
  se_attempts : attempts_extend (st_Attempts s) (st_Attempts s');
  se_provisions : provisions_extend (st_Provisioning s) (st_Provisioning s') }.

Record extends (o o' : Objective) : Prop := {
  ex_version : ob_Version o' = ob_Version o;
  ex_id : ob_ObjectiveID o' = ob_ObjectiveID o;
  ex_scope : ob_Scope o' = ob_Scope o;
  ex_policy : ob_Policy o' = ob_Policy o;
  ex_steps : Forall2 step_extends (ob_Steps o) (ob_Steps o') }.

(** ** They compose *)
Lemma same_attempt_trans a b c : same_attempt a b -> same_attempt b c -> same_attempt a c.
Proof. unfold same_attempt. congruence. Qed.

#[export] Instance attempts_extend_preorder : PreOrder attempts_extend.
Proof.
  split.
  - intros l i a Hi. by exists a.
  - intros l k m H1 H2 i a Hi. destruct (H1 i a Hi) as (b & Hb & Hs & Hc). destruct (H2 i b Hb) as (c & Hc' & Hs' & Hcc).
    exists c. split_and!; [done|by eapply same_attempt_trans|]. intros Hcl. pose proof (Hc Hcl) as ->. by apply Hcc.
Qed.

#[export] Instance provisions_extend_preorder : PreOrder provisions_extend.
Proof.
  split.
  - intros l i p Hi. exists p. split; [done|]. unfold same_provision. by split_and!.
  - intros l k m H1 H2 i p Hi. destruct (H1 i p Hi) as (q & Hq & E1 & E2 & E3 & E4).
    destruct (H2 i q Hq) as (r & Hr & F1 & F2 & F3 & F4). exists r. split; [done|]. split_and!; [congruence..|lia].
Qed.

#[export] Instance step_extends_preorder : PreOrder step_extends.
Proof.
  split.
  - intros s. by constructor.
  - intros s t u [] []. constructor; [congruence|congruence|auto|by etrans|by etrans].
Qed.

#[export] Instance extends_preorder : PreOrder extends.
Proof.
  split.
  - intros o. by constructor.
  - intros a b c [] []. constructor; [congruence..|]. by etrans.
Qed.

(** ** The check implies them *)
Lemma validAttemptRevision_same a b : validAttemptRevision a b = true -> same_attempt a b /\ (closed_attempt a -> b = a).
Proof.
  unfold validAttemptRevision, same_attempt, closed_attempt. destruct (bool_decide_reflect (at_set_state a "" "" = at_set_state b "" "")) as [E|];
    cbn [negb]; [|done]. intros H. split; [done|]. intros [Hp Hr]. rewrite (bool_decide_false (at_State a = AttemptPlanned)), (bool_decide_false (at_State a = AttemptRunning)) in H by done.
  destruct ((at_State a =? at_State b) && (at_Failure a =? at_Failure b)) eqn:Es; [|done].
  apply andb_true_iff in Es as [E1%bool_decide_eq_true E2%bool_decide_eq_true].
  destruct a, b. cbn in E, E1, E2. injection E as -> -> -> -> -> -> -> -> ->. by subst.
Qed.

Lemma valid_attempts_extend l k : (length l <= length k <= length l + 1)%nat -> valid_attempts_transition l k = true ->
  attempts_extend l k.
Proof.
  intros Hlen. unfold valid_attempts_transition. case_bool_decide as E.
  - intros [Hp%bool_decide_eq_true _]%andb_true_iff. rewrite <- (take_drop (length l) k), Hp.
    intros i a Hi. exists a. split; [|done]. rewrite lookup_app_l; [done|]. by eapply lookup_lt_Some.
  - destruct (last l) as [b|] eqn:El; [|by apply last_None in El as ->; intros _ i a].
    destruct (last k) as [c|] eqn:Ek; [|done]. intros [Hp%bool_decide_eq_true Hr]%andb_true_iff.
    apply last_split in El as [l' ->], Ek as [k' ->]. rewrite !length_app in *. cbn [length] in *.
    rewrite Nat.add_sub, take_app_length, take_app_le in Hp by lia. rewrite take_ge in Hp by lia. subst k'.
    apply validAttemptRevision_same in Hr as [Hs Hc]. intros i a Hi. apply lookup_app_Some in Hi as [Hi|[Hge Hi]].
    + exists a. split; [|done]. by apply lookup_app_l_Some.
    + destruct (i - length l')%nat eqn:Ei; [|done]. injection Hi as <-. exists c. split; [|done].
      rewrite lookup_app_r by done. by rewrite Ei.
Qed.

Lemma sameProvision_same p q : sameProvisionAttempt p q = true -> same_provision p q.
Proof.
  unfold sameProvisionAttempt, same_provision. rewrite !andb_true_iff, !bool_decide_eq_true.
  intros [[[[[[[-> ->] ->] _] _] ->] _] _]. by split_and!.
Qed.

Lemma provision_revision_same p q : validProvisionRevision p q = true -> same_provision p q.
Proof.
  unfold validProvisionRevision. destruct (_ || _) eqn:Eg; [done|]. rewrite !orb_false_iff, !negb_false_iff, !bool_decide_eq_true in Eg.
  destruct Eg as [[[[Hv _] E1] E2] E3]. destruct (sameProvisionAttempt p q) eqn:Es; [intros _; by apply sameProvision_same|].
  intros H. unfold same_provision. split_and!; try done. revert H. unfold pv_Valid in Hv. destruct (_ || _) in Hv; [done|].
  destruct (bool_decide_reflect (pv_State p = ProvisioningPlanned)) as [E|_].
  - rewrite !andb_true_iff, !bool_decide_eq_true in Hv. destruct Hv as [[[_ ->] _] _].
    rewrite orb_true_iff, !andb_true_iff, !bool_decide_eq_true. intros [[_ ?]|[_ ?]]; lia.
  - clear Hv. destruct (bool_decide_reflect (pv_State p = ProvisioningQueued)); [|done]. cbn [negb orb].
    destruct (negb _ || _) eqn:Eg; [done|]. apply orb_false_iff in Eg as [_ Eg]. lia.
Qed.

Lemma provision_prefix_extend l k grown : provision_prefix l k grown = true -> provisions_extend l k.
Proof.
  revert k. induction l as [|p l IH]; intros [|q k]; cbn [provision_prefix]; try done; try (by intros _ i p ?).
  intros [Hp Hl]%andb_true_iff [|i] r Hr; [|by apply (IH k Hl)]. injection Hr as <-. exists q. split; [done|].
  destruct (_ && negb grown); [by apply provision_revision_same|by apply sameProvision_same].
Qed.

Lemma validProvisionHistory_extend l k : validProvisionHistory l k = true -> provisions_extend l k.
Proof.
  unfold validProvisionHistory. destruct (_ || _); [done|].
  destruct (provision_prefix l k _) eqn:E; cbn [negb]; [|done]. intros _. by eapply provision_prefix_extend.
Qed.

Lemma requirementsSubset_spec l k : requirementsSubset l k = true -> forall x, x ∈ req_ID <$> l -> x ∈ req_ID <$> k.
Proof.
  revert l. induction k as [|r k IH]; intros l; cbn [requirementsSubset].
  - intros H%bool_decide_eq_true. apply nil_length_inv in H as ->. done.
  - destruct l as [|b l]; [by intros _ x []%elem_of_nil|]. case_bool_decide as E; intros H x Hx.
    + apply elem_of_cons in Hx as [->|Hx]; [rewrite E; left|right; by apply (IH l)].
    + right. by apply (IH (b :: l)).
Qed.

Lemma sameContract_eq c d : sameCommandAcceptanceContract c d = true -> d = c.
Proof.
  destruct c as [c|], d as [d|]; try done. cbn. rewrite !andb_true_iff, !bool_decide_eq_true, sameRequirements_spec.
  destruct c, d. cbn. intros [[[[[-> ->] ->] ->] ->] ->]. done.
Qed.

Lemma step_transition_extends o o' s s' : validate_step_transition o o' s s' = Ok tt -> step_extends s s'.
Proof.
  unfold validate_step_transition. intros [_ [H2 [_ [H4 H5]%reject_ok]%reject_ok]%reject_ok]%reject_ok.
  apply negb_false_iff in H2. apply reject_if_ok, negb_false_iff in H5.
  rewrite !orb_false_iff, !negb_false_iff, bool_decide_eq_true, !bool_decide_eq_false in H4.
  destruct H4 as [[[[[[E1 E2] _] E3] _] L1] L2]. constructor.
  - done.
  - by apply sameContract_eq.
  - by apply requirementsSubset_spec.
  - apply valid_attempts_extend; [lia|done].
  - by apply validProvisionHistory_extend.
Qed.

Lemma steps_transition_extends o o' l k : length l = length k -> validate_steps_transition o o' l k = Ok tt -> Forall2 step_extends l k.
Proof.
  revert k. induction l as [|s l IH]; intros [|s' k] Hlen; try done. cbn [validate_steps_transition].
  intros ([] & Hs & Hl)%rbind_ok. constructor; [by eapply step_transition_extends|]. apply IH; [cbn in Hlen; lia|done].
Qed.

Lemma ValidateTransition_extends o o' : ValidateTransition o o' = Ok tt ->
  terminal o = false /\ ob_Valid o' = true /\ ob_Revision o' = wrapU64 (ob_Revision o + 1) /\
  validObjectiveStateTransition (ob_State o) (ob_State o') = true /\ extends o o'.
Proof.
  unfold ValidateTransition. intros [Hg H]%reject_ok.
  rewrite !orb_false_iff, !negb_false_iff, !bool_decide_eq_true, bool_decide_eq_false in Hg.
  destruct Hg as [[[[[[[[[[_ Hv] Ht] E1] E2] E3] E4] E5] E6] E7] E8]. split_and!; try done.
  constructor; try done.
  - destruct (ob_Policy o), (ob_Policy o'). cbn in *. congruence.
  - apply (steps_transition_extends o o'); [|done]. destruct (decide (length (ob_Steps o) = length (ob_Steps o'))); [done|].
    by destruct E7.
Qed.

(** Any number of accepted revisions. *)
Definition stored_revisions : relation Objective := rtc (fun o o' => ValidateTransition o o' = Ok tt).

Lemma stored_revisions_extend o o' : stored_revisions o o' -> extends o o'.
Proof.
  induction 1 as [o|o o1 o' H _ IH]; [done|]. etrans; [|exact IH]. by apply ValidateTransition_extends.
Qed.

Lemma stored_revisions_terminal o o' : stored_revisions o o' -> terminal o = true -> o' = o.
Proof.
  intros H Ht. inversion H as [|? o1 ? Hs]; [done|]. subst. apply ValidateTransition_extends in Hs as [Hn _]. congruence.
Qed.

(** * Receipts and command digests *)
(** ** Receipts *)
Lemma all_ops_length steps : (length (all_ops steps) <= length steps)%nat.
Proof.
  induction steps as [|s steps IH]; [done|]. unfold all_ops in *. cbn [fmap list_fmap concat]. rewrite length_app.
  unfold step_ops at 1. destruct (st_AcceptanceReceipt s); cbn; lia.
Qed.

Lemma all_ops_full steps i s : length (all_ops steps) = length steps -> steps !! i = Some s -> st_AcceptanceReceipt s <> None.
Proof.
  revert i. induction steps as [|t steps IH]; intros i; [done|]. pose proof (all_ops_length steps) as Hle.
  unfold all_ops in *. cbn [fmap list_fmap concat]. rewrite length_app. unfold step_ops at 1.
  destruct (st_AcceptanceReceipt t) as [r|] eqn:E; cbn [length]; intros Hlen; [|lia].
  destruct i as [|i]; cbn; [intros [= <-]; by rewrite E|]. apply IH. lia.
Qed.

(** What a receipt binds together. *)
Record evidence (o : Objective) (s : ObjectiveStep) (c : CommandAcceptanceContract) (a : ExecutionAttempt)
    (r : CommandAcceptanceReceipt) : Prop := {
  ed_exit : rt_ExitCode r = 0;
  ed_objective : rt_ObjectiveID r = ob_ObjectiveID o;
  ed_step : rt_StepID r = st_StepID s;
  ed_attempt : rt_AttemptID r = at_AttemptID a;
  ed_succeeded : at_State a = AttemptSucceeded;
  ed_contract : rt_ContractDigest r = contract_digest c (ob_ObjectiveID o) (st_StepID s) (ob_Policy o);
  ed_command : rt_CommandDigest r = ct_CommandDigest c;
  ed_source : rt_SourceDigest r = ct_SourceDigest c /\ at_SourceDigest a = ct_SourceDigest c;
  ed_environment : rt_EnvironmentDigest r = at_EnvironmentDigest a;
  ed_body : rt_PrivateBodyRef r = ct_PrivateBodyRef c /\ rt_PrivateBodyDigest r = ct_PrivateBodyDigest c;
  ed_artifacts : rt_ArtifactRefs r = ct_ArtifactRefs c;
  ed_runner : at_Class a = ClassIsolatedRunner <-> rt_EvidenceProvider r = "github-run";
  ed_operation : rt_EvidenceProvider r = "github-run" -> rt_OperationID r = "" }.

Lemma validExecutionIdentity_spec r class : validExecutionIdentity r class = true ->
  (class = ClassIsolatedRunner <-> rt_EvidenceProvider r = "github-run") /\
  (rt_EvidenceProvider r = "github-run" -> rt_OperationID r = "").
Proof.
  unfold validExecutionIdentity. case_bool_decide as E; rewrite !andb_true_iff, ?negb_true_iff, ?bool_decide_eq_true, ?bool_decide_eq_false.
  - intros [[[[H1 H2] _] _] _]. done.
  - intros [[[[[H1 H2] _] _] _] _]. done.
Qed.

Lemma receipt_validFor_evidence r o i s : receipt_validFor r o i = true -> ob_Steps o !! i = Some s ->
  exists c a, st_AcceptanceContract s = Some c /\ last (st_Attempts s) = Some a /\ evidence o s c a r.
Proof.
  unfold receipt_validFor. intros H Hi. rewrite Hi in H. destruct (_ || _) eqn:E0; [done|].
  rewrite orb_false_iff, !negb_false_iff, !bool_decide_eq_true in E0. destruct E0 as [E1 E2].
  destruct (st_AcceptanceContract s) as [c|]; [|done]. destruct (last (st_Attempts s)) as [a|]; [|done].
  destruct (bool_decide_reflect (st_StepID s = rt_StepID r)) as [E3|]; cbn [negb] in H; [|done].
  rewrite !andb_true_iff, !bool_decide_eq_true in H. destruct H as [[[[[[[[[[H1 H2] H3] H4] H5] H6] H7] H8] H9] H10] H11].
  apply validExecutionIdentity_spec in H1 as [H1 H1']. exists c, a. split_and!; try done. constructor; try done.
  split; [done|congruence].
Qed.

Lemma accepted_receipts o : objective_ok o -> ob_State o = ObjectiveAccepted ->
  Exists (fun s => st_AcceptanceContract s <> None) (ob_Steps o) ->
  length (all_ops (ob_Steps o)) = length (ob_Steps o).
Proof.
  intros Ho Hst Hex. pose proof (oo_state o Ho) as Hs. unfold state_ok, validate_state in Hs. rewrite Hst in Hs.
  rewrite !(bool_decide_false (ObjectiveAccepted = ObjectivePlanned)), !(bool_decide_false (ObjectiveAccepted = ObjectiveRunning)),
    !(bool_decide_false (ObjectiveAccepted = ObjectiveAcceptancePending)), !(bool_decide_true (ObjectiveAccepted = _)) in Hs by done.
  cbn [orb andb] in Hs. apply reject_ok in Hs as [_ Hs]. cbn [rbind reject_if] in Hs. apply reject_if_ok in Hs.
  apply orb_false_iff in Hs as [Hs _]. cbn [state_acc sn_receiptCount] in Hs.
  pose proof (oo_mode o Ho) as Hmode. apply mode_spec in Hmode as [Hm|Hm].
  - apply Exists_exists in Hex as (s & Hin & Hs'). rewrite Forall_forall in Hm. by destruct (Hs' (Hm s Hin)).
  - destruct (ob_Steps o) as [|t l]; [done|]. apply Forall_cons in Hm as [Hm _].
    rewrite (bool_decide_true (st_AcceptanceContract t <> None)) in Hs by done. cbn [andb] in Hs.
    apply bool_decide_eq_false in Hs. by destruct (decide (length (all_ops (t :: l)) = length (t :: l))).
Qed.

(** Every step of an accepted objective with contracts carries evidence. *)
Lemma accepted_evidence_step o i s : objective_ok o -> ob_State o = ObjectiveAccepted -> ob_Steps o !! i = Some s ->
  st_AcceptanceContract s <> None ->
  exists c a r, st_AcceptanceContract s = Some c /\ last (st_Attempts s) = Some a /\ st_AcceptanceReceipt s = Some r /\
    evidence o s c a r.
Proof.
  intros Ho Hst Hi Hc. assert (Hex : Exists (fun s => st_AcceptanceContract s <> None) (ob_Steps o)).
  { apply Exists_exists. exists s. split; [by eapply list_elem_of_lookup_2|done]. }
  pose proof (all_ops_full _ i s (accepted_receipts o Ho Hst Hex) Hi) as Hr.
  destruct (st_AcceptanceReceipt s) as [r|] eqn:Er; [|done]. destruct (oo_steps o Ho i s Hi) as [_ Hro].
  destruct (Hro r Er) as (_ & _ & Hv). destruct (receipt_validFor_evidence r o i s Hv Hi) as (c & a & H1 & H2 & H3).
  by exists c, a, r.
Qed.

Lemma all_ops_two steps i j s t x : steps !! i = Some s -> steps !! j = Some t -> (i < j)%nat ->
  step_ops s = [x] -> step_ops t = [x] -> ~ NoDup (all_ops steps).
Proof.
  intros Hi Hj Hlt Es Et Hnd. apply list_elem_of_split_length in Hi as (l1 & l2 & -> & Hl).
  rewrite lookup_app_r in Hj by lia. destruct (j - length l1)%nat as [|k] eqn:Ek; [lia|]. cbn in Hj.
  unfold all_ops in Hnd. rewrite fmap_app, concat_app in Hnd. apply NoDup_app in Hnd as (_ & _ & Hnd).
  cbn [fmap list_fmap concat] in Hnd. rewrite Es in Hnd. cbn in Hnd. apply NoDup_cons in Hnd as [Hx _]. apply Hx.
  apply list_elem_of_In, in_concat. exists [x]. split; [|by left]. rewrite <- Et. apply list_elem_of_In, list_elem_of_fmap.
  exists t. split; [done|]. by eapply list_elem_of_lookup_2.
Qed.

(** ** Command digests *)
Lemma be_bytes_inj n x y : 0 <= x < 2 ^ (8 * Z.of_nat n) -> 0 <= y < 2 ^ (8 * Z.of_nat n) -> be_bytes n x = be_bytes n y -> x = y.
Proof.
  revert x y. induction n as [|n IH]; intros x y Hx Hy; [cbn in Hx, Hy; lia|]. cbn [be_bytes].
  intros [H1 [= H2]]%app_inj_2; [|done].
  replace (8 * Z.of_nat (S n)) with (8 * Z.of_nat n + 8) in Hx, Hy by lia. rewrite Z.pow_add_r in Hx, Hy by lia.
  change (2 ^ 8) with 256 in Hx, Hy. change 255 with (Z.ones 8) in H2. rewrite !Z.land_ones in H2 by lia. change (2 ^ 8) with 256 in H2.
  apply IH in H1; rewrite ?Z.shiftr_div_pow2 in * by lia; change (2 ^ 8) with 256 in *; Z.to_euclidean_division_equations; nia.
Qed.

Lemma be_bytes_range n z : Forall (fun b => 0 <= b < 256) (be_bytes n z).
Proof.
  revert z. induction n as [|n IH]; intros z; cbn [be_bytes]; [constructor|]. apply Forall_app. split; [done|].
  constructor; [|constructor]. change 255 with (Z.ones 8). rewrite Z.land_ones by lia. change (2 ^ 8) with 256. by apply Z.mod_pos_bound.
Qed.

Lemma chr_inj a b : 0 <= a < 256 -> 0 <= b < 256 -> chr a = chr b -> a = b.
Proof.
  intros Ha Hb E%(f_equal N_of_ascii). unfold chr in E. rewrite !N_ascii_embedding in E by lia. lia.
Qed.

Lemma string_of_bytes_inj l k : Forall (fun b => 0 <= b < 256) l -> Forall (fun b => 0 <= b < 256) k ->
  string_of_bytes l = string_of_bytes k -> l = k.
Proof.
  unfold string_of_bytes. intros Hl. revert k. induction Hl as [|a l Ha Hl IH]; intros [|b k] Hk; cbn; try done.
  apply Forall_cons in Hk as [Hb Hk]. intros [= H1%chr_inj H2]; [|done|done]. f_equal; [done|]. by apply IH.
Qed.

Lemma be64_inj x y : in_uint64 x -> in_uint64 y -> be64 x = be64 y -> x = y.
Proof.
  unfold in_uint64. intros Hx Hy E%string_of_bytes_inj; [|apply be_bytes_range..].
  apply (be_bytes_inj 8); [by change (2 ^ (8 * Z.of_nat 8)) with two64..|done].
Qed.

Lemma string_app_split a b c d : String.length a = String.length b -> a +:+ c = b +:+ d -> a = b /\ c = d.
Proof.
  revert b. induction a as [|x a IH]; intros [|y b] Hlen; try done. rewrite !string_app_cons. cbn in Hlen.
  intros [= -> H]. destruct (IH b) as [-> ->]; [lia|done|done].
Qed.

Definition argv_text (argv : list string) : string := foldr (fun a acc => be64 (Len a) +:+ a +:+ acc) "" argv.

Lemma argv_text_inj l k : Forall (fun a => in_uint64 (Len a)) l -> Forall (fun a => in_uint64 (Len a)) k ->
  argv_text l = argv_text k -> l = k.
Proof.
  assert (Hbe : forall z, String.length (be64 z) = 8%nat) by (intros z; unfold be64; by rewrite length_string_of_bytes, length_be_bytes).
  intros Hl. revert k. induction Hl as [|a l Ha Hl IH]; intros [|b k] Hk; cbn [argv_text foldr]; try done.
  apply Forall_cons in Hk as [Hb Hk]. intros [E1%be64_inj E2]%string_app_split; [|done|done|by rewrite !Hbe].
  apply string_app_split in E2 as [-> E2]; [|unfold Len in E1; lia]. f_equal. by apply IH.
Qed.

Lemma check_argv_bound total argv : 0 <= total -> check_argv total argv = Ok tt -> Forall (fun a => in_uint64 (Len a)) argv.
Proof.
  revert total. induction argv as [|a argv IH]; intros total Ht; cbn [check_argv]; [constructor|].
  intros [Hg H]%reject_ok. apply orb_false_iff in Hg as [_ Hg]. unfold in_uint64, Len, two64, maxAcceptanceArgvBytes in *.
  constructor; [lia|]. apply (IH (total + Z.of_nat (String.length a))); [lia|done].
Qed.

Lemma CommandDigest_ok argv d : CommandDigest argv = Ok d ->
  Forall (fun a => in_uint64 (Len a)) argv /\ d = digest_string (command_text argv).
Proof.
  unfold CommandDigest. intros [_ ([] & H & [= <-])%rbind_ok]%reject_ok. split; [|done]. by eapply check_argv_bound.
Qed.

Lemma command_text_inj l k : Forall (fun a => in_uint64 (Len a)) l -> Forall (fun a => in_uint64 (Len a)) k ->
  command_text l = command_text k -> l = k.
Proof. intros Hl Hk E%string_app_inj. by apply argv_text_inj. Qed.
