(* ===== verification/DevRecord.v ===== *)
(** * The stored form of an objective: [internal/development/record.go]

    The record types with their JSON tags, [MarshalRecord], [ParseObjectiveRecord]
    and the record's digest. Integers are read at their Go width; a slice field
    tells nil from empty where the program writes it out ([goslice]), and the
    types that are stored as they are ([WorkspaceAnchor], [ProvisioningAttempt],
    [CommandAcceptanceReceipt]) are written from their copies. *)

From S2P Require Import Prelude GoStrings GoRegexp GoJson GoReflect GoRecord Sha256 DevCapability DevResolver DevAttempt DevProvision DevObjective DevOps DevInv.

Definition objectiveRecordDigestDomain : string := "aeontra-development-objective-record-v1" +:+ nul.
Definition MaxObjectiveRecordBytes : Z := Z.shiftl 256 10.

(** ** The record types *)
Record objectiveAttemptRecord := {
  ar_AttemptID : string; ar_ParentAttemptID : string; ar_SourceDigest : string; ar_EnvironmentID : string;
  ar_EnvironmentDigest : string; ar_EnvironmentGeneration : Z; ar_Class : ExecutionClass; ar_Tier : AuthorityTier;
  ar_State : AttemptState; ar_Failure : FailureClass }.

Record commandAcceptanceContractRecord := {
  cr_CommandDigest : string; cr_SourceDigest : string; cr_PrivateBodyRef : string; cr_PrivateBodyDigest : string;
  cr_RequiredCapabilities : goslice string; cr_ArtifactRefs : goslice string }.

Record objectiveStepRecord := {
  sr_StepID : string; sr_State : StepState; sr_Requirements : goslice string;
  sr_Attempts : goslice objectiveAttemptRecord; sr_Provisioning : goslice ProvisioningAttempt;
  sr_AcceptanceContract : option commandAcceptanceContractRecord;
  sr_AcceptanceReceipt : option CommandAcceptanceReceipt }.

Record objectivePolicyRecord := { pr_MaxTier : AuthorityTier; pr_AllowedClasses : goslice ExecutionClass }.

Record objectiveScopeRecord := { scr_Project : string; scr_Target : string; scr_Anchor : option WorkspaceAnchor }.

Record objectiveRecord := {
  or_Version : Z; or_ObjectiveID : string; or_Revision : Z; or_State : ObjectiveState;
  or_Scope : option objectiveScopeRecord; or_Policy : objectivePolicyRecord; or_Steps : goslice objectiveStepRecord }.

(** ** Their JSON *)
Definition anchor_type : gtype :=
  TStruct [req "device_id" c_string; req "workspace_id" c_string; req "generation" c_uint64; req "owner" c_string;
           req "repository" c_string].
Definition anchor_to (a : WorkspaceAnchor) : gval :=
  VStruct [c_to c_string (wa_DeviceID a); c_to c_string (wa_WorkspaceID a); c_to c_uint64 (wa_Generation a);
           c_to c_string (wa_Owner a); c_to c_string (wa_Repository a)].
Definition anchor_of (v : gval) : option WorkspaceAnchor :=
  match v with
  | VStruct [device; workspace; generation; owner; repository] =>
      device ← c_of c_string device; workspace ← c_of c_string workspace; generation ← c_of c_uint64 generation;
      owner ← c_of c_string owner; repository ← c_of c_string repository;
      Some {| wa_DeviceID := device; wa_WorkspaceID := workspace; wa_Generation := generation; wa_Owner := owner;
              wa_Repository := repository |}
  | _ => None
  end.
Lemma anchor_law a : anchor_of (anchor_to a) = Some a.
Proof. destruct a. cbn -[c_to c_of]. by rewrite !c_law. Qed.
Definition c_anchor : codec WorkspaceAnchor :=
  {| c_type := anchor_type; c_to := anchor_to; c_of := anchor_of; c_law := anchor_law |}.

Definition plan_type : gtype :=
  TStruct [req "version" c_int64; req "provider" c_string; req "pool" c_string; req "profile" c_string;
           req "output_class" c_string; omit "base_environment_digest" c_string; req "capabilities" (c_list c_string);
           req "digest" c_string].
Definition plan_to (p : ProvisionPlan) : gval :=
  VStruct [c_to c_int64 (pl_Version p); c_to c_string (pl_Provider p); c_to c_string (pl_Pool p);
           c_to c_string (pl_Profile p); c_to c_string (pl_OutputClass p); c_to c_string (pl_BaseEnvironmentDigest p);
           c_to (c_list c_string) (pl_Capabilities p); c_to c_string (pl_Digest p)].
Definition plan_of (v : gval) : option ProvisionPlan :=
  match v with
  | VStruct [version; provider; pool; profile; class; base; capabilities; digest] =>
      version ← c_of c_int64 version; provider ← c_of c_string provider; pool ← c_of c_string pool;
      profile ← c_of c_string profile; class ← c_of c_string class; base ← c_of c_string base;
      capabilities ← c_of (c_list c_string) capabilities; digest ← c_of c_string digest;
      Some {| pl_Version := version; pl_Provider := provider; pl_Pool := pool; pl_Profile := profile;
              pl_OutputClass := class; pl_BaseEnvironmentDigest := base; pl_Capabilities := capabilities;
              pl_Digest := digest |}
  | _ => None
  end.
Lemma plan_law p : plan_of (plan_to p) = Some p.
Proof. destruct p. cbn -[c_to c_of]. by rewrite !c_law. Qed.
Definition c_plan : codec ProvisionPlan :=
  {| c_type := plan_type; c_to := plan_to; c_of := plan_of; c_law := plan_law |}.

Definition provision_type : gtype :=
  TStruct [req "provision_id" c_string; req "source_digest" c_string; req "plan" c_plan; req "state" c_string;
           omit "job_id" c_string; omit "job_fence" c_uint64; omit "receipt_digest" c_string; omit "failure_class" c_string].
Definition provision_to (p : ProvisioningAttempt) : gval :=
  VStruct [c_to c_string (pv_ProvisionID p); c_to c_string (pv_SourceDigest p); c_to c_plan (pv_Plan p);
           c_to c_string (pv_State p); c_to c_string (pv_JobID p); c_to c_uint64 (pv_JobFence p);
           c_to c_string (pv_ReceiptDigest p); c_to c_string (pv_Failure p)].
Definition provision_of (v : gval) : option ProvisioningAttempt :=
  match v with
  | VStruct [id; source; plan; state; job; fence; receipt; failure] =>
      id ← c_of c_string id; source ← c_of c_string source; plan ← c_of c_plan plan; state ← c_of c_string state;
      job ← c_of c_string job; fence ← c_of c_uint64 fence; receipt ← c_of c_string receipt; failure ← c_of c_string failure;
      Some {| pv_ProvisionID := id; pv_SourceDigest := source; pv_Plan := plan; pv_State := state; pv_JobID := job;
              pv_JobFence := fence; pv_ReceiptDigest := receipt; pv_Failure := failure |}
  | _ => None
  end.
Lemma provision_law p : provision_of (provision_to p) = Some p.
Proof. destruct p. cbn -[c_to c_of]. by rewrite !c_law. Qed.
Definition c_provision : codec ProvisioningAttempt :=
  {| c_type := provision_type; c_to := provision_to; c_of := provision_of; c_law := provision_law |}.

Definition receipt_type : gtype :=
  TStruct [req "operation_id" c_string; omit "evidence_provider" c_string; omit "runner_effect_id" c_string;
           omit "runner_run_id" c_int64; omit "runner_receipt_digest" c_string; req "objective_id" c_string;
           req "step_id" c_string; req "attempt_id" c_string; req "contract_digest" c_string; req "command_digest" c_string;
           req "source_digest" c_string; req "environment_digest" c_string; req "private_body_ref" c_string;
           req "private_body_digest" c_string; req "exit_code" c_int64; omit "artifact_refs" (c_list c_string)].
Definition receipt_to (r : CommandAcceptanceReceipt) : gval :=
  VStruct [c_to c_string (rt_OperationID r); c_to c_string (rt_EvidenceProvider r); c_to c_string (rt_RunnerEffectID r);
           c_to c_int64 (rt_RunnerRunID r); c_to c_string (rt_RunnerReceiptDigest r); c_to c_string (rt_ObjectiveID r);
           c_to c_string (rt_StepID r); c_to c_string (rt_AttemptID r); c_to c_string (rt_ContractDigest r);
           c_to c_string (rt_CommandDigest r); c_to c_string (rt_SourceDigest r); c_to c_string (rt_EnvironmentDigest r);
           c_to c_string (rt_PrivateBodyRef r); c_to c_string (rt_PrivateBodyDigest r); c_to c_int64 (rt_ExitCode r);
           c_to (c_list c_string) (rt_ArtifactRefs r)].
Definition receipt_of (v : gval) : option CommandAcceptanceReceipt :=
  match v with
  | VStruct [operation; provider; effect; run; runner; objective; step; attempt; contract; command; source; environment;
             body; bodyDigest; exit; artifacts] =>
      operation ← c_of c_string operation; provider ← c_of c_string provider; effect ← c_of c_string effect;
      run ← c_of c_int64 run; runner ← c_of c_string runner; objective ← c_of c_string objective;
      step ← c_of c_string step; attempt ← c_of c_string attempt; contract ← c_of c_string contract;
      command ← c_of c_string command; source ← c_of c_string source; environment ← c_of c_string environment;
      body ← c_of c_string body; bodyDigest ← c_of c_string bodyDigest; exit ← c_of c_int64 exit;
      artifacts ← c_of (c_list c_string) artifacts;
      Some {| rt_OperationID := operation; rt_EvidenceProvider := provider; rt_RunnerEffectID := effect;
              rt_RunnerRunID := run; rt_RunnerReceiptDigest := runner; rt_ObjectiveID := objective; rt_StepID := step;
              rt_AttemptID := attempt; rt_ContractDigest := contract; rt_CommandDigest := command;
              rt_SourceDigest := source; rt_EnvironmentDigest := environment; rt_PrivateBodyRef := body;
              rt_PrivateBodyDigest := bodyDigest; rt_ExitCode := exit; rt_ArtifactRefs := artifacts |}
  | _ => None
  end.
Lemma receipt_law r : receipt_of (receipt_to r) = Some r.
Proof. destruct r. cbn -[c_to c_of]. by rewrite !c_law. Qed.
Definition c_receipt : codec CommandAcceptanceReceipt :=
  {| c_type := receipt_type; c_to := receipt_to; c_of := receipt_of; c_law := receipt_law |}.

Definition attempt_type : gtype :=
  TStruct [req "attempt_id" c_string; omit "parent_attempt_id" c_string; req "source_digest" c_string;
           req "environment_id" c_string; req "environment_digest" c_string; req "environment_generation" c_uint64;
           req "execution_class" c_string; req "authority_tier" c_uint8; req "state" c_string; omit "failure_class" c_string].
Definition attempt_to (a : objectiveAttemptRecord) : gval :=
  VStruct [c_to c_string (ar_AttemptID a); c_to c_string (ar_ParentAttemptID a); c_to c_string (ar_SourceDigest a);
           c_to c_string (ar_EnvironmentID a); c_to c_string (ar_EnvironmentDigest a);
           c_to c_uint64 (ar_EnvironmentGeneration a); c_to c_string (ar_Class a); c_to c_uint8 (ar_Tier a);
           c_to c_string (ar_State a); c_to c_string (ar_Failure a)].
Definition attempt_of (v : gval) : option objectiveAttemptRecord :=
  match v with
  | VStruct [id; parent; source; environment; digest; generation; class; tier; state; failure] =>
      id ← c_of c_string id; parent ← c_of c_string parent; source ← c_of c_string source;
      environment ← c_of c_string environment; digest ← c_of c_string digest; generation ← c_of c_uint64 generation;
      class ← c_of c_string class; tier ← c_of c_uint8 tier; state ← c_of c_string state; failure ← c_of c_string failure;
      Some {| ar_AttemptID := id; ar_ParentAttemptID := parent; ar_SourceDigest := source; ar_EnvironmentID := environment;
              ar_EnvironmentDigest := digest; ar_EnvironmentGeneration := generation; ar_Class := class; ar_Tier := tier;
              ar_State := state; ar_Failure := failure |}
  | _ => None
  end.
Lemma attempt_law a : attempt_of (attempt_to a) = Some a.
Proof. destruct a. cbn -[c_to c_of]. by rewrite !c_law. Qed.
Definition c_attempt : codec objectiveAttemptRecord :=
  {| c_type := attempt_type; c_to := attempt_to; c_of := attempt_of; c_law := attempt_law |}.

Definition contract_type : gtype :=
  TStruct [req "command_digest" c_string; req "source_digest" c_string; req "private_body_ref" c_string;
           req "private_body_digest" c_string; req "required_capabilities" (c_slice c_string);
           omit "artifact_refs" (c_slice c_string)].
Definition contract_to (c : commandAcceptanceContractRecord) : gval :=
  VStruct [c_to c_string (cr_CommandDigest c); c_to c_string (cr_SourceDigest c); c_to c_string (cr_PrivateBodyRef c);
           c_to c_string (cr_PrivateBodyDigest c); c_to (c_slice c_string) (cr_RequiredCapabilities c);
           c_to (c_slice c_string) (cr_ArtifactRefs c)].
Definition contract_of (v : gval) : option commandAcceptanceContractRecord :=
  match v with
  | VStruct [command; source; body; bodyDigest; required; artifacts] =>
      command ← c_of c_string command; source ← c_of c_string source; body ← c_of c_string body;
      bodyDigest ← c_of c_string bodyDigest; required ← c_of (c_slice c_string) required;
      artifacts ← c_of (c_slice c_string) artifacts;
      Some {| cr_CommandDigest := command; cr_SourceDigest := source; cr_PrivateBodyRef := body;
              cr_PrivateBodyDigest := bodyDigest; cr_RequiredCapabilities := required; cr_ArtifactRefs := artifacts |}
  | _ => None
  end.
Lemma contract_law c : contract_of (contract_to c) = Some c.
Proof. destruct c. cbn -[c_to c_of]. by rewrite !c_law. Qed.
Definition c_contract : codec commandAcceptanceContractRecord :=
  {| c_type := contract_type; c_to := contract_to; c_of := contract_of; c_law := contract_law |}.

Definition step_type : gtype :=
  TStruct [req "step_id" c_string; req "state" c_string; req "requirements" (c_slice c_string);
           req "attempts" (c_slice c_attempt); omit "provisioning" (c_slice c_provision);
           omit "acceptance_contract" (c_ptr c_contract); omit "acceptance_receipt" (c_ptr c_receipt)].
Definition step_to (s : objectiveStepRecord) : gval :=
  VStruct [c_to c_string (sr_StepID s); c_to c_string (sr_State s); c_to (c_slice c_string) (sr_Requirements s);
           c_to (c_slice c_attempt) (sr_Attempts s); c_to (c_slice c_provision) (sr_Provisioning s);
           c_to (c_ptr c_contract) (sr_AcceptanceContract s); c_to (c_ptr c_receipt) (sr_AcceptanceReceipt s)].
Definition step_of (v : gval) : option objectiveStepRecord :=
  match v with
  | VStruct [id; state; requirements; attempts; provisioning; contract; receipt] =>
      id ← c_of c_string id; state ← c_of c_string state; requirements ← c_of (c_slice c_string) requirements;
      attempts ← c_of (c_slice c_attempt) attempts; provisioning ← c_of (c_slice c_provision) provisioning;
      contract ← c_of (c_ptr c_contract) contract; receipt ← c_of (c_ptr c_receipt) receipt;
      Some {| sr_StepID := id; sr_State := state; sr_Requirements := requirements; sr_Attempts := attempts;
              sr_Provisioning := provisioning; sr_AcceptanceContract := contract; sr_AcceptanceReceipt := receipt |}
  | _ => None
  end.
Lemma step_law s : step_of (step_to s) = Some s.
Proof. destruct s. cbn -[c_to c_of]. by rewrite !c_law. Qed.
Definition c_step : codec objectiveStepRecord :=
  {| c_type := step_type; c_to := step_to; c_of := step_of; c_law := step_law |}.

Definition policy_type : gtype := TStruct [req "max_tier" c_uint8; req "allowed_classes" (c_slice c_string)].
Definition policy_to (p : objectivePolicyRecord) : gval :=
  VStruct [c_to c_uint8 (pr_MaxTier p); c_to (c_slice c_string) (pr_AllowedClasses p)].
Definition policy_of (v : gval) : option objectivePolicyRecord :=
  match v with
  | VStruct [tier; classes] =>
      tier ← c_of c_uint8 tier; classes ← c_of (c_slice c_string) classes;
      Some {| pr_MaxTier := tier; pr_AllowedClasses := classes |}
  | _ => None
  end.
Lemma policy_law p : policy_of (policy_to p) = Some p.
Proof. destruct p. cbn -[c_to c_of]. by rewrite !c_law. Qed.
Definition c_policy : codec objectivePolicyRecord :=
  {| c_type := policy_type; c_to := policy_to; c_of := policy_of; c_law := policy_law |}.

Definition scope_type : gtype := TStruct [req "project" c_string; req "target" c_string; omit "anchor" (c_ptr c_anchor)].
Definition scope_to (s : objectiveScopeRecord) : gval :=
  VStruct [c_to c_string (scr_Project s); c_to c_string (scr_Target s); c_to (c_ptr c_anchor) (scr_Anchor s)].
Definition scope_of (v : gval) : option objectiveScopeRecord :=
  match v with
  | VStruct [project; target; anchor] =>
      project ← c_of c_string project; target ← c_of c_string target; anchor ← c_of (c_ptr c_anchor) anchor;
      Some {| scr_Project := project; scr_Target := target; scr_Anchor := anchor |}
  | _ => None
  end.
Lemma scope_law s : scope_of (scope_to s) = Some s.
Proof. destruct s. cbn -[c_to c_of]. by rewrite !c_law. Qed.
Definition c_scope : codec objectiveScopeRecord :=
  {| c_type := scope_type; c_to := scope_to; c_of := scope_of; c_law := scope_law |}.

Definition record_type : gtype :=
  TStruct [req "version" c_int64; req "objective_id" c_string; req "revision" c_uint64; req "state" c_string;
           omit "scope" (c_ptr c_scope); req "policy" c_policy; req "steps" (c_slice c_step)].
Definition record_to (r : objectiveRecord) : gval :=
  VStruct [c_to c_int64 (or_Version r); c_to c_string (or_ObjectiveID r); c_to c_uint64 (or_Revision r);
           c_to c_string (or_State r); c_to (c_ptr c_scope) (or_Scope r); c_to c_policy (or_Policy r);
           c_to (c_slice c_step) (or_Steps r)].
Definition record_of (v : gval) : option objectiveRecord :=
  match v with
  | VStruct [version; id; revision; state; scope; policy; steps] =>
      version ← c_of c_int64 version; id ← c_of c_string id; revision ← c_of c_uint64 revision; state ← c_of c_string state;
      scope ← c_of (c_ptr c_scope) scope; policy ← c_of c_policy policy; steps ← c_of (c_slice c_step) steps;
      Some {| or_Version := version; or_ObjectiveID := id; or_Revision := revision; or_State := state; or_Scope := scope;
              or_Policy := policy; or_Steps := steps |}
  | _ => None
  end.
Lemma record_law r : record_of (record_to r) = Some r.
Proof. destruct r. cbn -[c_to c_of]. by rewrite !c_law. Qed.
Definition c_record : codec objectiveRecord :=
  {| c_type := record_type; c_to := record_to; c_of := record_of; c_law := record_law |}.

(** ** [MarshalRecord] *)
Definition attempt_record (a : ExecutionAttempt) : objectiveAttemptRecord :=
  {| ar_AttemptID := at_AttemptID a; ar_ParentAttemptID := at_ParentAttemptID a; ar_SourceDigest := at_SourceDigest a;
     ar_EnvironmentID := at_EnvironmentID a; ar_EnvironmentDigest := at_EnvironmentDigest a;
     ar_EnvironmentGeneration := at_EnvironmentGeneration a; ar_Class := at_Class a; ar_Tier := at_Tier a;
     ar_State := at_State a; ar_Failure := at_Failure a |}.

Definition contract_record (c : CommandAcceptanceContract) : commandAcceptanceContractRecord :=
  {| cr_CommandDigest := ct_CommandDigest c; cr_SourceDigest := ct_SourceDigest c; cr_PrivateBodyRef := ct_PrivateBodyRef c;
     cr_PrivateBodyDigest := ct_PrivateBodyDigest c;
     cr_RequiredCapabilities := Some (req_ID <$> ct_RequiredCapabilities c);
     cr_ArtifactRefs := append_nil (ct_ArtifactRefs c) |}.

Definition step_record (s : ObjectiveStep) : objectiveStepRecord :=
  {| sr_StepID := st_StepID s; sr_State := st_State s; sr_Requirements := Some (req_ID <$> st_Requirements s);
     sr_Attempts := Some (attempt_record <$> st_Attempts s); sr_Provisioning := append_nil (st_Provisioning s);
     sr_AcceptanceContract := contract_record <$> st_AcceptanceContract s;
     sr_AcceptanceReceipt := st_AcceptanceReceipt s |}.

Definition scope_record (s : ObjectiveScope) : option objectiveScopeRecord :=
  if Bound s then
    Some {| scr_Project := sc_Project s; scr_Target := sc_Target s;
            scr_Anchor := if anchor_Valid (sc_Anchor s) then Some (sc_Anchor s) else None |}
  else None.

Definition objective_record (o : Objective) : objectiveRecord :=
  {| or_Version := ob_Version o; or_ObjectiveID := ob_ObjectiveID o; or_Revision := ob_Revision o; or_State := ob_State o;
     or_Scope := scope_record (ob_Scope o);
     or_Policy := {| pr_MaxTier := rp_maxTier (ob_Policy o); pr_AllowedClasses := append_nil (rp_allowed (ob_Policy o)) |};
     or_Steps := Some (step_record <$> ob_Steps o) |}.

Definition objectiveRecordDigest (body : string) : string := digest_string (objectiveRecordDigestDomain +:+ body).

Definition body_bounded (body : string) : bool := negb ((Len body =? 0) || (MaxObjectiveRecordBytes <? Len body)).

Definition ObjectiveRecordDigest (body : string) : string :=
  if body_bounded body then objectiveRecordDigest body else "".

Definition ErrRecordUnavailable : error := "development objective record is unavailable".
Definition ErrRecord : error := "development objective record is invalid".
Definition ErrRecordAnchor : error := "development workspace anchor is invalid".

Definition MarshalRecord (o : Objective) : result (string * string) :=
  check validateObjectiveSnapshot o in
  let body := Marshal c_record (objective_record o) in
  check reject_if (negb (body_bounded body)) ErrRecordUnavailable in
  Ok (body, objectiveRecordDigest body).

(** ** [ParseObjectiveRecord] *)
Definition sameExecutionClasses (l r : list ExecutionClass) : bool :=
  bool_decide (length l = length r) && forallb (fun p => p.1 =? p.2) (zip l r).
Definition sameRequirementStrings (raw : list string) (requirements : list Requirement) : bool :=
  bool_decide (length raw = length requirements) && forallb (fun p => p.1 =? req_ID p.2) (zip raw requirements).

(** [Requirements] of the strings read, which must be canonical already. *)
Definition read_requirements (raw : list string) : result (list Requirement) :=
  match Requirements raw with
  | Err _ => Err ErrRecord
  | Ok requirements => check reject_if (negb (sameRequirementStrings raw requirements)) ErrRecord in Ok requirements
  end.

Definition read_attempt (stepID : string) (a : objectiveAttemptRecord) : ExecutionAttempt :=
  {| at_AttemptID := ar_AttemptID a; at_StepID := stepID; at_ParentAttemptID := ar_ParentAttemptID a;
     at_SourceDigest := ar_SourceDigest a; at_EnvironmentID := ar_EnvironmentID a;
     at_EnvironmentDigest := ar_EnvironmentDigest a; at_EnvironmentGeneration := ar_EnvironmentGeneration a;
     at_Class := ar_Class a; at_Tier := ar_Tier a; at_State := ar_State a; at_Failure := ar_Failure a |}.

Definition read_contract (c : option commandAcceptanceContractRecord) : result (option CommandAcceptanceContract) :=
  match c with
  | None => Ok None
  | Some c =>
      let? requirements := read_requirements (range (cr_RequiredCapabilities c)) in
      Ok (Some {| ct_CommandDigest := cr_CommandDigest c; ct_SourceDigest := cr_SourceDigest c;
                  ct_PrivateBodyRef := cr_PrivateBodyRef c; ct_PrivateBodyDigest := cr_PrivateBodyDigest c;
                  ct_RequiredCapabilities := requirements; ct_ArtifactRefs := range (cr_ArtifactRefs c) |})
  end.

Definition read_step (s : objectiveStepRecord) : result ObjectiveStep :=
  let? requirements := read_requirements (range (sr_Requirements s)) in
  let? contract := read_contract (sr_AcceptanceContract s) in
  Ok {| st_StepID := sr_StepID s; st_Requirements := requirements; st_AcceptanceContract := contract;
        st_AcceptanceReceipt := sr_AcceptanceReceipt s; st_Attempts := read_attempt (sr_StepID s) <$> range (sr_Attempts s);
        st_Provisioning := range (sr_Provisioning s); st_State := sr_State s |}.

Fixpoint read_steps (l : list objectiveStepRecord) : result (list ObjectiveStep) :=
  match l with
  | [] => Ok []
  | s :: l => let? step := read_step s in let? steps := read_steps l in Ok (step :: steps)
  end.

Definition read_scope (r : option objectiveScopeRecord) : result ObjectiveScope :=
  match r with
  | None => Ok zero_scope
  | Some r =>
      match NewObjectiveScope (scr_Project r) (scr_Target r) with
      | Err _ => Err ErrRecord
      | Ok scope =>
          check reject_if ((sc_Project scope <>? scr_Project r) || (sc_Target scope <>? scr_Target r)) ErrRecord in
          match scr_Anchor r with
          | None => Ok scope
          | Some a =>
              check reject_if (negb (anchor_Valid a)) ErrRecordAnchor in
              Ok {| sc_Project := sc_Project scope; sc_Target := sc_Target scope; sc_Anchor := a |}
          end
      end
  end.

Definition read_policy (r : objectivePolicyRecord) : result ResolutionPolicy :=
  match NewResolutionPolicy (pr_MaxTier r) (range (pr_AllowedClasses r)) with
  | Err _ => Err ErrRecord
  | Ok policy => check reject_if (negb (sameExecutionClasses (range (pr_AllowedClasses r)) (rp_allowed policy))) ErrRecord in Ok policy
  end.

Definition ParseObjectiveRecord (body : string) : result Objective :=
  check reject_if (negb (body_bounded body)) ErrRecord in
  match Unmarshal c_record body with
  | None => Err ErrRecord
  | Some record =>
      let? policy := read_policy (or_Policy record) in
      let? scope := read_scope (or_Scope record) in
      let? steps := read_steps (range (or_Steps record)) in
      let objective :=
        {| ob_Version := or_Version record; ob_ObjectiveID := or_ObjectiveID record; ob_Revision := or_Revision record;
           ob_State := or_State record; ob_Scope := scope; ob_Policy := policy; ob_Steps := steps |} in
      match validateObjectiveSnapshot objective with
      | Err _ => Err ErrRecord
      | Ok _ => Ok objective
      end
  end.
