(* ===== verification/DevRoundtrip.v ===== *)
(** * Stored objectives are read back

    Every string of a valid objective is written without escapes and every integer
    fits its Go type, so that [ParseObjectiveRecord] returns exactly the objective
    that [MarshalRecord] wrote. *)

From S2P Require Import Prelude GoStrings GoRegexp GoJson GoReflect GoRecord Sha256 DevCapability DevResolver DevAttempt DevProvision DevObjective DevOps DevInv DevPreserve DevRecord.

(** ** Plain strings of objectives *)
Lemma plain_identity s : MatchString identityPattern s = true -> plain s.
Proof. plain_pattern. Qed.
Lemma plain_capability s : is_capability s -> plain s.
Proof. plain_pattern. Qed.
Lemma plain_digest s : MatchString sourceDigestPattern s = true -> plain s.
Proof. plain_pattern. Qed.
Lemma plain_digest_pattern s : MatchString digestPattern s = true -> plain s.
Proof. apply plain_digest. Qed.
Lemma plain_body_ref s : MatchString privateGoalRefPattern s = true -> plain s.
Proof. plain_pattern. Qed.
Lemma plain_operation s : MatchString operationRefPattern s = true -> plain s.
Proof. plain_pattern. Qed.
Lemma plain_effect s : MatchString runnerEffectPattern s = true -> plain s.
Proof. plain_pattern. Qed.
Lemma plain_provision_id s : MatchString provisionIdentityPattern s = true -> plain s.
Proof. plain_pattern. Qed.
Lemma plain_job s : MatchString provisionJobIDPattern s = true -> plain s.
Proof. plain_pattern. Qed.
Lemma plain_device s : MatchString anchorDevicePattern s = true -> plain s.
Proof. plain_pattern. Qed.
Lemma plain_workspace s : MatchString anchorWorkspacePattern s = true -> plain s.
Proof. plain_pattern. Qed.
Lemma plain_owner s : MatchString anchorOwnerPattern s = true -> plain s.
Proof. plain_pattern. Qed.
Lemma plain_repository s : MatchString anchorRepositoryPattern s = true -> plain s.
Proof. plain_pattern. Qed.
Lemma plain_scope n s : MatchString (scope_pattern n) s = true -> plain s.
Proof. plain_pattern. Qed.
#[export] Hint Resolve plain_identity plain_capability plain_digest plain_digest_pattern plain_body_ref plain_operation plain_effect : plain.
#[export] Hint Resolve plain_provision_id plain_job plain_device plain_workspace plain_owner plain_repository plain_scope : plain.

Lemma plain_tier class t : Tier class = Some t -> plain class /\ 1 <= t <= 7.
Proof.
  unfold Tier. repeat (case_bool_decide as E; [subst; intros [= <-]; split; [plain_const|vm_compute; intuition congruence]|clear E]).
  done.
Qed.

Lemma plain_failure class : ContinuationForFailure class <> None -> plain class.
Proof.
  unfold ContinuationForFailure. intros H.
  assert (Hin : class ∈ [FailureCode; FailureCapabilityMissing; FailureCapabilityDrift; FailureDependencyMissing;
    FailureServiceUnavailable; FailureKernelSemantics; FailureCIContract; FailureFilesystemMapping; FailurePlatformMismatch;
    FailureExternalTransient; FailurePolicyDenied; FailureReconciliationNeeded]).
  { repeat (case_bool_decide; [subst; set_solver|]). done. }
  clear H. repeat (apply elem_of_cons in Hin as [->|Hin]; [plain_const|]). by apply elem_of_nil in Hin.
Qed.

Ltac plain_listed H := apply bool_decide_eq_true in H; repeat (apply elem_of_cons in H as [->|H]; [plain_const|]); by apply elem_of_nil in H.

Lemma plain_objective_state state : validObjectiveState state = true -> plain state.
Proof. intros H. plain_listed H. Qed.
Lemma plain_step_state state : validStepState state = true -> plain state.
Proof. intros H. plain_listed H. Qed.
#[export] Hint Resolve plain_failure plain_objective_state plain_step_state : plain.

(** ** The integers of an objective, at their Go types *)
Definition step_widths (s : ObjectiveStep) : Prop :=
  Forall (fun a => in_uint64 (at_EnvironmentGeneration a)) (st_Attempts s) /\
  Forall (fun p => in_uint64 (pv_JobFence p)) (st_Provisioning s) /\
  (forall r, st_AcceptanceReceipt s = Some r -> in_int64 (rt_RunnerRunID r)).
Definition widths (o : Objective) : Prop := in_uint64 (ob_Revision o) /\ Forall step_widths (ob_Steps o).

Lemma strings_ok l : Forall plain l -> val_ok (c_type (c_list c_string)) (c_to (c_list c_string) l).
Proof. intros H. apply c_list_ok. by apply Forall_forall. Qed.

(** ** Well-formed records *)
Lemma anchor_ok a : anchor_Valid a = true -> val_ok (c_type c_anchor) (c_to c_anchor a).
Proof.
  unfold anchor_Valid. intros H. breflect. cbn [c_type c_to c_anchor]. unfold anchor_type, anchor_to. each_field. apply uint64_ok. unfold in_uint64, two63, two64 in *. lia.
Qed.

Lemma canonical_capabilities l : canonicalCapabilityIDs l = Ok l -> Forall is_capability l.
Proof.
  unfold canonicalCapabilityIDs. destruct (capabilitySetFromIDs l) as [s|] eqn:E; cbn [rbind]; [|done].
  intros _. by apply capabilitySetFromIDs_spec in E as (_ & ? & _).
Qed.

Lemma plain_capabilities l : Forall is_capability l -> Forall plain l.
Proof. intros H. eapply Forall_impl; [exact H|]. apply plain_capability. Qed.

Lemma plan_ok p : plan_Valid p = true -> val_ok (c_type c_plan) (c_to c_plan p).
Proof.
  unfold plan_Valid. destruct (_ || _) eqn:E; [done|]. breflect.
  destruct (bool_decide_reflect (Tier (pl_OutputClass p) = None)) as [|Ht]; [done|].
  destruct (canonicalCapabilityIDs (pl_Capabilities p)) as [canonical|] eqn:Ec; [|done]. intros Hc. breflect. subst canonical.
  destruct (Tier (pl_OutputClass p)) as [t|] eqn:Et; [|done].
  cbn [c_type c_to c_plan]. unfold plan_type, plan_to. each_field.
  - apply int64_ok; [unfold in_int64|]; rewrite ?H; vm_compute; intuition congruence.
  - by apply plain_tier in Et as [? _].
  - destruct (bool_decide_reflect (pl_BaseEnvironmentDigest p = "")) as [->|Hne]; [exact plain_empty|].
    cbn in *. by apply plain_digest, negb_false_iff.
  - by apply strings_ok, plain_capabilities, canonical_capabilities.
Qed.

Ltac plain_all :=
  breflect; repeat match goal with H : _ = "" |- _ => rewrite H; clear H end;
  split_and!; first [solve [eauto 2 with plain nocore] | plain_const].

Lemma provision_strings p : pv_Valid p = true ->
  plain (pv_State p) /\ plain (pv_JobID p) /\ plain (pv_ReceiptDigest p) /\ plain (pv_Failure p) /\
  MatchString identityPattern (pv_ProvisionID p) = true /\ MatchString digestPattern (pv_SourceDigest p) = true /\
  plan_Valid (pv_Plan p) = true.
Proof.
  unfold pv_Valid. destruct (_ || _) eqn:E; [done|]. breflect. intros Hs.
  assert (plain (pv_State p) /\ plain (pv_JobID p) /\ plain (pv_ReceiptDigest p) /\ plain (pv_Failure p)); [|by intuition].
  repeat match type of Hs with (if ?s =? ?c then _ else _) = true =>
    destruct (bool_decide_reflect (s = c)) as [->|_] end; [..|done].
  1-3: plain_all.
  - destruct (_ || _) eqn:E2; [done|]. plain_all.
  - breflect. match goal with H : _ || _ = true |- _ => apply orb_true_iff in H as [H|H] end; plain_all.
Qed.

Lemma provision_ok p : pv_Valid p = true -> in_uint64 (pv_JobFence p) -> val_ok (c_type c_provision) (c_to c_provision p).
Proof.
  intros (H1 & H2 & H3 & H4 & H5 & H6 & H7)%provision_strings Hf. cbn [c_type c_to c_provision].
  unfold provision_type, provision_to. each_field; [by apply plan_ok|by apply uint64_ok].
Qed.

Lemma valid_identity a : validIdentity a = true ->
  MatchString identityPattern (at_AttemptID a) = true /\ MatchString identityPattern (at_EnvironmentID a) = true /\
  MatchString sourceDigestPattern (at_SourceDigest a) = true /\ MatchString sourceDigestPattern (at_EnvironmentDigest a) = true /\
  plain (at_Class a) /\ 1 <= at_Tier a <= 7.
Proof.
  unfold validIdentity. destruct (_ || _) eqn:E; [done|]. breflect. destruct (Tier (at_Class a)) as [t|] eqn:Et; [|done].
  intros <-%bool_decide_eq_true. by apply plain_tier in Et as [? ?].
Qed.

Lemma attempt_record_ok a : validIdentity a = true -> in_uint64 (at_EnvironmentGeneration a) ->
  plain (at_ParentAttemptID a) -> plain (at_State a) -> plain (at_Failure a) ->
  val_ok (c_type c_attempt) (c_to c_attempt (attempt_record a)).
Proof.
  intros (H1 & H2 & H3 & H4 & H5 & H6)%valid_identity Hg Hp Hs Hf. cbn [c_type c_to c_attempt].
  unfold attempt_type, attempt_to. cbn [attempt_record ar_AttemptID ar_ParentAttemptID ar_SourceDigest ar_EnvironmentID
    ar_EnvironmentDigest ar_EnvironmentGeneration ar_Class ar_Tier ar_State ar_Failure].
  each_field; [by apply uint64_ok|cbn; lia].
Qed.

(** Attempts before the last one have failed, so that every state is a known one. *)
Lemma attempts_known stepID previous l a : attempts_ok stepID previous l -> a ∈ l ->
  (match previous with Some p => plain (at_AttemptID p) | None => True end) ->
  validIdentity a = true /\ plain (at_ParentAttemptID a) /\ plain (at_Failure a) /\ at_StepID a = stepID /\
  (last l = Some a \/ at_State a = AttemptFailed).
Proof.
  revert previous. induction l as [|x l IH]; intros previous Hok Ha Hprev; [by apply elem_of_nil in Ha|].
  destruct Hok as [(Hid & Hs & Hp & Hf) Hl].
  pose proof (proj1 (valid_identity x Hid)) as Hx. apply elem_of_cons in Ha as [->|Ha].
  - split_and!; try done.
    + destruct previous as [p|]; [|rewrite Hp; exact plain_empty]. unfold validAttemptContinuation in Hp.
      destruct (_ || _) eqn:E; [done|]. breflect. congruence.
    + destruct (bool_decide_reflect (at_State x = AttemptFailed)); [by apply plain_failure|]. rewrite Hf. exact plain_empty.
    + destruct l as [|y l]; [by left|]. right. destruct Hl as [(_ & _ & Hc & _) _]. unfold validAttemptContinuation in Hc.
      destruct (_ || _) eqn:E; [done|]. by breflect.
  - destruct (IH (Some x) Hl Ha) as (H1 & H2 & H3 & H4 & H5); [by apply plain_identity|]. split_and!; try done.
    destruct H5 as [H5|H5]; [left|by right]. destruct l; [done|]. done.
Qed.

Lemma step_attempts_ok policy s : step_ok policy s -> step_widths s ->
  forall a, a ∈ st_Attempts s -> val_ok (c_type c_attempt) (c_to c_attempt (attempt_record a)).
Proof.
  intros Hs (Hw & _) a Ha. rewrite Forall_forall in Hw.
  destruct (attempts_known _ _ _ a (so_attempts _ _ Hs) Ha I) as (H1 & H2 & H3 & _ & H5).
  apply attempt_record_ok; [done|by apply Hw|done| |done]. destruct H5 as [H5|H5]; [|rewrite H5; plain_const].
  pose proof (so_match _ _ Hs) as Hm. unfold stepStateMatchesAttempts in Hm. rewrite H5 in Hm.
  repeat match type of Hm with (if ?s =? ?c then _ else _) = true =>
    destruct (bool_decide_reflect (s = c)) as [->|_]; [plain_const|] end. done.
Qed.

Lemma plain_requirements l : canonical_reqs l -> Forall plain (req_ID <$> l).
Proof. intros (_ & _ & H). by apply plain_capabilities. Qed.

Lemma slice_strings_ok l : Forall plain (range l) -> val_ok (c_type (c_slice c_string)) (c_to (c_slice c_string) l).
Proof. intros H. apply c_slice_ok. by apply Forall_forall. Qed.

Lemma contract_valid_inv c : contract_valid c = true ->
  MatchString sourceDigestPattern (ct_CommandDigest c) = true /\ MatchString sourceDigestPattern (ct_SourceDigest c) = true /\
  MatchString privateGoalRefPattern (ct_PrivateBodyRef c) = true /\ MatchString sourceDigestPattern (ct_PrivateBodyDigest c) = true /\
  canonical_reqs (ct_RequiredCapabilities c) /\ Forall plain (ct_ArtifactRefs c).
Proof.
  unfold contract_valid. destruct (_ || _) eqn:E; [done|]. breflect.
  destruct (normalizeRequirementList (ct_RequiredCapabilities c)) as [reqs|] eqn:Er; [|done].
  destruct (sameRequirements _ _) eqn:Es; [cbn [negb]|done]. apply sameRequirements_spec in Es. subst reqs.
  destruct (normalizeOpaqueReferences (ct_ArtifactRefs c)) as [arts|] eqn:Ea; [|done]. intros _.
  split_and!; try done; [by apply normalizeRequirementList_spec in Er as [? _]|].
  unfold normalizeOpaqueReferences in Ea. apply reject_ok in Ea as [_ Ea]. apply reject_ok in Ea as [Ea _].
  rewrite existsb_false_Forall in Ea. eapply Forall_impl; [exact Ea|]. cbn beta. intros r Hr. breflect. by apply plain_identity.
Qed.

Lemma contract_ok c : contract_valid c = true -> val_ok (c_type c_contract) (c_to c_contract (contract_record c)).
Proof.
  intros (H1 & H2 & H3 & H4 & H5 & H6)%contract_valid_inv. cbn [c_type c_to c_contract]. unfold contract_type, contract_to.
  cbn [contract_record cr_CommandDigest cr_SourceDigest cr_PrivateBodyRef cr_PrivateBodyDigest cr_RequiredCapabilities cr_ArtifactRefs].
  each_field; apply slice_strings_ok; [by apply plain_requirements|by rewrite range_append_nil].
Qed.

Lemma execution_identity_plain r class : validExecutionIdentity r class = true ->
  plain (rt_OperationID r) /\ plain (rt_EvidenceProvider r) /\ plain (rt_RunnerEffectID r) /\ plain (rt_RunnerReceiptDigest r) /\
  0 <= rt_RunnerRunID r.
Proof.
  unfold validExecutionIdentity. destruct (bool_decide_reflect (rt_EvidenceProvider r = "github-run")) as [->|_]; intros H; breflect.
  - assert (0 <= rt_RunnerRunID r) by lia. plain_all.
  - assert (0 <= rt_RunnerRunID r) by lia. plain_all.
Qed.

Lemma contract_digest_plain c objectiveID stepID policy : plain (contract_digest c objectiveID stepID policy).
Proof. unfold contract_digest. destruct (_ || _); [exact plain_empty|]. apply plain_digest, digest_string_matches. Qed.

Lemma receipt_record_ok o k s r : objective_ok o -> ob_Steps o !! k = Some s -> st_AcceptanceReceipt s = Some r -> step_widths s ->
  val_ok (c_type c_receipt) (c_to c_receipt r).
Proof.
  intros Ho Hk Hr (_ & _ & Hw). destruct (oo_steps o Ho k s Hk) as [Hs Hrec]. destruct (Hrec r Hr) as (_ & _ & Hv).
  destruct (oo_header o Ho) as (_ & Hoid & _). rewrite Nat.add_0_l in Hv. unfold receipt_validFor in Hv. rewrite Hk in Hv.
  destruct (_ || _) eqn:E; [done|]. breflect. destruct (st_AcceptanceContract s) as [c|] eqn:Ec; [|done].
  destruct (last (st_Attempts s)) as [a|] eqn:Ea; [|done].
  destruct (bool_decide_reflect (st_StepID s = rt_StepID r)) as [Eid|]; [cbn [negb] in Hv|done].
  destruct (so_contract _ _ Hs c Ec) as [Hc _]. unfold contract_validFor in Hc. apply andb_true_iff in Hc as [[Hc _]%andb_true_iff _].
  apply contract_valid_inv in Hc as (H1 & H2 & H3 & H4 & _ & H6). apply last_Some_elem_of in Ea.
  destruct (attempts_known _ _ _ a (so_attempts _ _ Hs) Ea I) as (Hid & _). apply valid_identity in Hid as (I1 & _ & _ & I4 & _).
  pose proof (so_id _ _ Hs) as Hsid. breflect.
  match goal with H : validExecutionIdentity _ _ = true |- _ => apply execution_identity_plain in H as (J1 & J2 & J3 & J4 & J5) end.
  assert (Hcd : plain (rt_ContractDigest r)).
  { match goal with H : rt_ContractDigest r = _ |- _ => rewrite H end. apply contract_digest_plain. }
  specialize (Hw r Hr). cbn [c_type c_to c_receipt]. unfold receipt_type, receipt_to.
  repeat match goal with H : rt_AttemptID r = _ |- _ => rewrite H; clear H | H : rt_CommandDigest r = _ |- _ => rewrite H; clear H
    | H : rt_EnvironmentDigest r = _ |- _ => rewrite H; clear H | H : rt_PrivateBodyRef r = _ |- _ => rewrite H; clear H
    | H : rt_PrivateBodyDigest r = _ |- _ => rewrite H; clear H | H : rt_ArtifactRefs r = _ |- _ => rewrite H; clear H
    | H : rt_ObjectiveID r = _ |- _ => rewrite H; clear H | H : rt_ExitCode r = _ |- _ => rewrite H; clear H
    | H : rt_SourceDigest r = ct_SourceDigest c |- _ => rewrite H; clear H end.
  rewrite <- Eid. each_field; [by apply int64_ok|by apply int64_ok|by apply strings_ok].
Qed.

Lemma step_record_ok o k s : objective_ok o -> ob_Steps o !! k = Some s -> step_widths s ->
  val_ok (c_type c_step) (c_to c_step (step_record s)).
Proof.
  intros Ho Hk Hw. destruct (oo_steps o Ho k s Hk) as [Hs _]. cbn [c_type c_to c_step]. unfold step_type, step_to.
  cbn [step_record sr_StepID sr_State sr_Requirements sr_Attempts sr_Provisioning sr_AcceptanceContract sr_AcceptanceReceipt].
  pose proof (so_id _ _ Hs). pose proof (so_state _ _ Hs). each_field.
  - apply slice_strings_ok, plain_requirements, (so_reqs _ _ Hs).
  - apply c_slice_ok. cbn [range default]. intros x (a & -> & Ha)%list_elem_of_fmap. by eapply step_attempts_ok.
  - apply c_slice_ok. rewrite range_append_nil. intros p Hp. destruct Hw as (_ & Hw & _). rewrite Forall_forall in Hw.
    apply provision_ok; [|by apply Hw].
    by eapply (proj1 (Forall_forall _ _) (provisions_valid _ _ (so_prov _ _ Hs))).
  - apply c_ptr_ok. intros x Hx. destruct (st_AcceptanceContract s) as [c|] eqn:Ec; [|done]. injection Hx as <-.
    apply contract_ok. destruct (so_contract _ _ Hs c Ec) as [Hc _]. unfold contract_validFor in Hc. by breflect.
  - apply c_ptr_ok. intros r Hr. by eapply receipt_record_ok.
Qed.

Lemma scope_record_ok s r : scope_record s = Some r -> val_ok (c_type c_scope) (c_to c_scope r).
Proof.
  unfold scope_record. destruct (Bound s) eqn:Hb; [|done]. intros [= <-]. unfold Bound in Hb.
  apply andb_true_iff in Hb as [[Hp Ht]%andb_true_iff _]. apply plain_scope in Hp, Ht.
  cbn [c_type c_to c_scope]. unfold scope_type, scope_to. cbn [scr_Project scr_Target scr_Anchor]. each_field.
  apply c_ptr_ok. intros a Ha. destruct (anchor_Valid (sc_Anchor s)) eqn:Ev; [|done]. injection Ha as <-. by apply anchor_ok.
Qed.

Lemma policy_record_ok p : policy_ok p -> val_ok (c_type c_policy)
  (c_to c_policy {| pr_MaxTier := rp_maxTier p; pr_AllowedClasses := append_nil (rp_allowed p) |}).
Proof.
  intros ([H1 H2] & _ & _ & _ & Hf). cbn [c_type c_to c_policy]. unfold policy_type, policy_to. cbn [pr_MaxTier pr_AllowedClasses].
  each_field.
  - change (0 <= rp_maxTier p /\ 0 <= rp_maxTier p <= 255). unfold TierL3Sandbox, TierIsolatedRunner in *. lia.
  - apply slice_strings_ok. rewrite range_append_nil. eapply Forall_impl; [exact Hf|]. cbn beta. intros c (t & Ht & _).
    by apply plain_tier in Ht as [? _].
Qed.

Lemma record_ok o : objective_ok o -> widths o -> val_ok (c_type c_record) (c_to c_record (objective_record o)).
Proof.
  intros Ho [Hr Hw]. destruct (oo_header o Ho) as (Hv & Hid & _ & _ & Hp & _ & Hst). cbn [c_type c_to c_record].
  unfold record_type, record_to.
  cbn [objective_record or_Version or_ObjectiveID or_Revision or_State or_Scope or_Policy or_Steps]. each_field.
  - rewrite Hv. apply int64_ok; vm_compute; intuition congruence.
  - by apply uint64_ok.
  - apply c_ptr_ok. intros r Hrec. by eapply scope_record_ok.
  - by apply policy_record_ok.
  - apply c_slice_ok. cbn [range default]. intros x (s & -> & Hs)%list_elem_of_fmap. apply list_elem_of_lookup in Hs as [k Hk].
    eapply step_record_ok; [done|exact Hk|]. rewrite Forall_forall in Hw. by eapply Hw, list_elem_of_lookup_2.
Qed.

Lemma record_type_ok : type_ok record_type = true.
Proof. vm_compute. reflexivity. Qed.

(** ** Reading back *)
Lemma sameExecutionClasses_refl l : sameExecutionClasses l l = true.
Proof.
  unfold sameExecutionClasses. rewrite bool_decide_true by done. induction l as [|x l IH]; [done|].
  cbn [zip zip_with forallb fst snd]. by rewrite bool_decide_true by done.
Qed.

Lemma sameRequirementStrings_ids l : sameRequirementStrings (req_ID <$> l) l = true.
Proof.
  unfold sameRequirementStrings. rewrite length_fmap, bool_decide_true by done. induction l as [|x l IH]; [done|].
  rewrite fmap_cons. cbn [zip zip_with forallb fst snd]. by rewrite bool_decide_true by done.
Qed.

Lemma read_requirements_ids l : canonical_reqs l -> read_requirements (req_ID <$> l) = Ok l.
Proof.
  intros H. pose proof H as (_ & _ & Hf). unfold read_requirements, Requirements. rewrite normalize_all_id by done. cbn [rbind].
  rewrite capabilitySetFromIDs_canonical by done. cbn [rbind set_ids]. rewrite fmap_Build_Requirement, sameRequirementStrings_ids.
  done.
Qed.

Lemma read_contract_record c : (forall x, c = Some x -> contract_valid x = true) -> read_contract (contract_record <$> c) = Ok c.
Proof.
  intros H. destruct c as [c|]; [|done]. specialize (H c eq_refl). apply contract_valid_inv in H as (_ & _ & _ & _ & Hr & _).
  change (read_contract (contract_record <$> Some c)) with
    (let? requirements := read_requirements (req_ID <$> ct_RequiredCapabilities c) in
     Ok (Some {| ct_CommandDigest := ct_CommandDigest c; ct_SourceDigest := ct_SourceDigest c;
                 ct_PrivateBodyRef := ct_PrivateBodyRef c; ct_PrivateBodyDigest := ct_PrivateBodyDigest c;
                 ct_RequiredCapabilities := requirements; ct_ArtifactRefs := range (append_nil (ct_ArtifactRefs c)) |})).
  rewrite read_requirements_ids by done. cbn [rbind]. destruct c. cbn. by rewrite range_append_nil.
Qed.

Lemma read_step_record policy s : step_ok policy s -> read_step (step_record s) = Ok s.
Proof.
  intros Hs. unfold read_step. change (range (sr_Requirements (step_record s))) with (req_ID <$> st_Requirements s).
  change (sr_AcceptanceContract (step_record s)) with (contract_record <$> st_AcceptanceContract s).
  rewrite read_requirements_ids by (exact (so_reqs _ _ Hs)). cbn [rbind]. rewrite read_contract_record.
  - cbn [rbind]. change (range (sr_Attempts (step_record s))) with (attempt_record <$> st_Attempts s).
    change (sr_StepID (step_record s)) with (st_StepID s).
    change (sr_Provisioning (step_record s)) with (append_nil (st_Provisioning s)). rewrite <- list_fmap_compose.
    assert (Ha : (read_attempt (st_StepID s) ∘ attempt_record) <$> st_Attempts s = st_Attempts s).
    { rewrite <- (list_fmap_id (st_Attempts s)) at 2. apply list_fmap_ext. intros i a Ha. apply list_elem_of_lookup_2 in Ha.
      destruct (attempts_known _ _ _ a (so_attempts _ _ Hs) Ha I) as (_ & _ & _ & Hid & _). destruct a. cbn in *. by rewrite Hid. }
    rewrite Ha, range_append_nil. by destruct s.
  - intros c Hc. destruct (so_contract _ _ Hs c Hc) as [Hv _]. unfold contract_validFor in Hv. by breflect.
Qed.

Lemma read_steps_record o : objective_ok o -> read_steps (step_record <$> ob_Steps o) = Ok (ob_Steps o).
Proof.
  intros Ho. assert (H : Forall (step_ok (ob_Policy o)) (ob_Steps o)).
  { apply Forall_forall. intros s [k Hk]%list_elem_of_lookup. by apply (oo_steps o Ho k s Hk). }
  induction H as [|s l Hs Hl IH]; [done|]. rewrite fmap_cons. cbn [read_steps]. rewrite (read_step_record _ _ Hs). cbn [rbind].
  by rewrite IH.
Qed.

Lemma scope_lower n s : MatchString (scope_pattern n) s = true -> ToLower (TrimSpace s) = s.
Proof.
  intros H. assert (Hv : each_byte visible_lower s).
  { revert H. apply match_whole_bytes; [unfold visible_lower; lia|]. cbn [classes_in opt].
    assert (Ha : forall z, lower_alnum z = true -> visible_lower z) by (intros z; unfold visible_lower, lower_alnum; class_unfold; lia).
    split_and!; try done. apply classes_in_upto. intros z. unfold cunion. rewrite orb_true_iff. intros [?|Hz]; [by apply Ha|].
    revert Hz. unfold visible_lower. class_unfold. intuition (lia || done). }
  rewrite TrimSpace_visible by (by apply visible_lower_visible). by apply ToLower_visible.
Qed.

Lemma read_scope_record s : validOrEmpty s = true -> read_scope (scope_record s) = Ok s.
Proof.
  unfold validOrEmpty, scope_record. intros [->%bool_decide_eq_true|Hb]%orb_true_iff; [vm_compute; reflexivity|].
  rewrite Hb. cbn [read_scope scr_Project scr_Target scr_Anchor]. unfold Bound in Hb.
  apply andb_true_iff in Hb as [[Hp Ht]%andb_true_iff Ha]. unfold NewObjectiveScope.
  rewrite (scope_lower _ _ Hp), (scope_lower _ _ Ht). unfold Bound. cbn [sc_Project sc_Target sc_Anchor].
  rewrite Hp, Ht, !(bool_decide_true (_ = _)) by done. cbn [andb orb negb reject_if rbind sc_Project sc_Target].
  rewrite !(bool_decide_true (_ = _)) by done. cbn [orb negb reject_if rbind].
  destruct (anchor_Valid (sc_Anchor s)) eqn:Ev; [rewrite Ev; cbn [negb reject_if rbind]; by destruct s|].
  rewrite orb_false_r in Ha. apply bool_decide_eq_true in Ha. destruct s. cbn in *. by rewrite Ha.
Qed.

Lemma dedup_classes_id maxTier seen l : Forall (fun c => exists t, Tier c = Some t /\ t <= maxTier) l -> NoDup l ->
  (forall c, c ∈ l -> c ∉ seen) -> dedup_classes maxTier seen l = Ok l.
Proof.
  intros H. revert seen. induction H as [|c l (t & Ht & Hle) Hl IH]; intros seen Hnd Hs; [done|]. apply NoDup_cons in Hnd as [Hc Hnd].
  cbn [dedup_classes]. rewrite Ht, (proj2 (Z.ltb_ge _ _)) by done. rewrite bool_decide_false by (apply Hs; left).
  rewrite IH; [done|done|]. intros x Hx [->|Hin]%elem_of_cons; [done|]. by apply (Hs x); [right|].
Qed.

Lemma read_policy_record p : policy_ok p ->
  read_policy {| pr_MaxTier := rp_maxTier p; pr_AllowedClasses := append_nil (rp_allowed p) |} = Ok p.
Proof.
  intros ([H1 H2] & Hne & Hs & Hnd & Hf). unfold read_policy. cbn [pr_MaxTier pr_AllowedClasses]. rewrite range_append_nil.
  unfold NewResolutionPolicy. rewrite (proj2 (Z.ltb_ge _ _) H1), (proj2 (Z.ltb_ge _ _) H2), bool_decide_false by (by destruct (rp_allowed p)).
  cbn [orb reject_if rbind]. rewrite dedup_classes_id by (done || set_solver). cbn [rbind rp_allowed].
  rewrite sort_strings_id by done. rewrite sameExecutionClasses_refl. by destruct p.
Qed.

Lemma validate_ok o : validateObjectiveSnapshot o = Ok tt <-> objective_ok o.
Proof. rewrite <- ob_Valid_spec. unfold ob_Valid. by destruct (validateObjectiveSnapshot o) as [[]|]. Qed.

Lemma marshal_inv o body digest : MarshalRecord o = Ok (body, digest) ->
  objective_ok o /\ body = Marshal c_record (objective_record o) /\ body_bounded body = true /\ digest = objectiveRecordDigest body.
Proof.
  unfold MarshalRecord. intros H. apply rbind_ok in H as ([] & Hv & H). apply reject_ok in H as [Hb%negb_false_iff H].
  injection H as <- <-. by apply validate_ok in Hv.
Qed.

Lemma parse_marshal o body digest : widths o -> MarshalRecord o = Ok (body, digest) -> ParseObjectiveRecord body = Ok o.
Proof.
  intros Hw (Ho & -> & Hb & _)%marshal_inv. unfold ParseObjectiveRecord. rewrite Hb. cbn [negb reject_if rbind].
  rewrite (unmarshal_marshal c_record _ I record_type_ok (record_ok o Ho Hw)).
  destruct (oo_header o Ho) as (_ & _ & _ & Hsc & Hp & _).
  cbn [objective_record or_Policy or_Scope or_Version or_ObjectiveID or_Revision or_State].
  rewrite read_policy_record by done. cbn [rbind]. rewrite read_scope_record by done. cbn [rbind].
  change (range (or_Steps (objective_record o))) with (step_record <$> ob_Steps o).
  rewrite read_steps_record by done. cbn [rbind].
  assert (E : {| ob_Version := ob_Version o; ob_ObjectiveID := ob_ObjectiveID o; ob_Revision := ob_Revision o; ob_State := ob_State o;
    ob_Scope := ob_Scope o; ob_Policy := ob_Policy o; ob_Steps := ob_Steps o |} = o) by (by destruct o).
  rewrite E. by rewrite (proj2 (validate_ok o) Ho).
Qed.

(** ** What is read fits its Go types *)
Ltac invert_struct v H :=
  destruct v as [| | | |?vs| |]; try done;
  repeat match type of H with context [match ?l with [] => _ | _ :: _ => _ end] => destruct l as [|? ?]; try done end;
  repeat match type of H with mbind _ _ = Some _ => let x := fresh "x" in let E := fresh "E" in
    apply bind_Some in H as (x & E & H) end;
  injection H as <-.

Lemma uint64_of v z : c_of c_uint64 v = Some z -> well_typed (c_type c_uint64) v -> in_uint64 z.
Proof. destruct v; try done. intros [= ->]. cbn. unfold in_uint64, two64. lia. Qed.
Lemma int64_of v z : c_of c_int64 v = Some z -> well_typed (c_type c_int64) v -> in_int64 z.
Proof. destruct v; try done. intros [= ->]. cbn. unfold in_int64, two63. lia. Qed.

Lemma attempt_of_width v a : attempt_of v = Some a -> well_typed attempt_type v -> in_uint64 (ar_EnvironmentGeneration a).
Proof.
  unfold attempt_of. intros H Hf. invert_struct v H. cbn [ar_EnvironmentGeneration].
  destruct Hf as (_ & _ & _ & _ & _ & Hf & _). by eapply uint64_of.
Qed.
Lemma provision_of_width v p : provision_of v = Some p -> well_typed provision_type v -> in_uint64 (pv_JobFence p).
Proof.
  unfold provision_of. intros H Hf. invert_struct v H. cbn [pv_JobFence].
  destruct Hf as (_ & _ & _ & _ & _ & Hf & _). by eapply uint64_of.
Qed.
Lemma receipt_of_width v r : receipt_of v = Some r -> well_typed receipt_type v -> in_int64 (rt_RunnerRunID r).
Proof.
  unfold receipt_of. intros H Hf. invert_struct v H. cbn [rt_RunnerRunID].
  destruct Hf as (_ & _ & _ & Hf & _). by eapply int64_of.
Qed.

Lemma step_of_widths v s s' : step_of v = Some s -> well_typed step_type v -> read_step s = Ok s' -> step_widths s'.
Proof.
  unfold step_of. intros H Hf. invert_struct v H. destruct Hf as (_ & _ & _ & Ha & Hp & _ & Hr & _). unfold read_step.
  intros (reqs & _ & (con & _ & [= <-])%rbind_ok)%rbind_ok. unfold step_widths.
  cbn [st_Attempts st_Provisioning st_AcceptanceReceipt sr_Attempts sr_Provisioning sr_AcceptanceReceipt sr_StepID]. split_and!.
  - apply Forall_fmap, Forall_forall. intros a Hin. destruct (slice_of_elem c_attempt _ _ a E2 Ha Hin) as (w & Hw & Hfw).
    by apply (attempt_of_width w a Hw Hfw).
  - apply Forall_forall. intros p Hin. destruct (slice_of_elem c_provision _ _ p E3 Hp Hin) as (w & Hw & Hfw).
    by apply (provision_of_width w p Hw Hfw).
  - intros r Er. subst. destruct g5 as [| |[w|]| | | |]; try done. cbn in E5. apply fmap_Some in E5 as (r' & Hr' & [= ->]).
    by apply (receipt_of_width w r' Hr' Hr).
Qed.

Lemma read_steps_inv l steps s : read_steps l = Ok steps -> s ∈ steps -> exists r, r ∈ l /\ read_step r = Ok s.
Proof.
  revert steps. induction l as [|x l IH]; intros steps; cbn [read_steps]; [intros [= <-] []%elem_of_nil|].
  intros (st & Hst & (rest & Hrest & [= <-])%rbind_ok)%rbind_ok [->|Hs]%elem_of_cons; [exists x; split; [left|done]|].
  destruct (IH rest Hrest Hs) as (r & Hr & E). exists r. split; [by right|done].
Qed.

Lemma record_type_zero : has_zero record_type = true.
Proof. vm_compute. reflexivity. Qed.

Lemma parse_widths body o : ParseObjectiveRecord body = Ok o -> objective_ok o /\ widths o.
Proof.
  unfold ParseObjectiveRecord. intros [_ H]%reject_ok. destruct (Unmarshal c_record body) as [r|] eqn:Eu; [|done].
  apply rbind_ok in H as (policy & _ & H). apply rbind_ok in H as (scope & _ & H). apply rbind_ok in H as (steps & Hsteps & H).
  destruct (validateObjectiveSnapshot _) as [[]|] eqn:Ev in H; [|done]. injection H as <-. split; [by apply validate_ok|].
  destruct (unmarshal_fits c_record body r record_type_zero Eu) as (v & Hv & Hf).
  change (record_of v = Some r) in Hv. change (well_typed record_type v) in Hf. unfold record_of in Hv. invert_struct v Hv.
  destruct Hf as (_ & _ & Hrev & _ & _ & _ & Hst & _). unfold widths. cbn [ob_Revision ob_Steps or_Revision or_Steps] in *. split.
  - by eapply uint64_of.
  - apply Forall_forall. intros s Hs. destruct (read_steps_inv _ _ _ Hsteps Hs) as (sr & Hin & Hread).
    destruct (slice_of_elem c_step _ _ sr E5 Hst Hin) as (w & Hw & Hfw). by eapply step_of_widths.
Qed.

(** C31 Round trip of stored objectives: every valid objective whose integers are of
    their Go types and whose JSON well_typed in 256 KiB is marshalled, with the digest of the
    body that [ObjectiveRecordDigest] computes, and parsing the body gives back exactly
    that objective. *)
Theorem record_roundtrip o : ob_Valid o = true -> widths o ->
  Len (Marshal c_record (objective_record o)) <= MaxObjectiveRecordBytes ->
  exists body, MarshalRecord o = Ok (body, ObjectiveRecordDigest body) /\ ParseObjectiveRecord body = Ok o.
Proof.
  intros Ho%ob_Valid_spec Hw Hlen. exists (Marshal c_record (objective_record o)).
  assert (Hb : body_bounded (Marshal c_record (objective_record o)) = true).
  { assert (Hn : (1 <= String.length (Marshal c_record (objective_record o)))%nat).
    { unfold Marshal. rewrite <- (write_compact _ 0). apply write_nonempty, (json_in_mono _ _ plain_text), encode_plain; [exact record_type_ok|by apply record_ok]. }
    unfold body_bounded, Len in *. rewrite bool_decide_false by lia. rewrite (proj2 (Z.ltb_ge _ _)) by lia. done. }
  assert (Hm : MarshalRecord o = Ok (Marshal c_record (objective_record o), ObjectiveRecordDigest (Marshal c_record (objective_record o)))).
  { unfold MarshalRecord, ObjectiveRecordDigest. rewrite (proj2 (validate_ok o) Ho). cbn [rbind]. by rewrite Hb. }
  split; [done|]. by eapply parse_marshal.
Qed.

(** C32 Parsing is a check: whatever text [ParseObjectiveRecord] accepts, with fields in
    any order, repeated, misspelt in case or written with escapes, the result is a valid
    objective with every integer inside its Go type, and marshalling it gives a
    record that parses to the same objective. *)
Theorem parsed_record_canonical body o : ParseObjectiveRecord body = Ok o ->
  ob_Valid o = true /\ widths o /\
  forall body' digest, MarshalRecord o = Ok (body', digest) -> ParseObjectiveRecord body' = Ok o.
Proof.
  intros [Ho Hw]%parse_widths. split_and!; [by apply ob_Valid_spec|done|]. intros body' digest Hm. by eapply parse_marshal.
Qed.
