(* ===== verification/DevBootstrap.v ===== *)
(** * Toolchain bootstrap and Go commands: [bootstrap_record.go] and [go_command.go]

    The server-selected identity of a toolchain bootstrap with its check and its
    digest, and the inspection evidence of the registered Go command. *)

From S2P Require Import Prelude GoStrings GoRegexp GoJson GoReflect GoRecord Sha256 DevCapability DevResolver DevAttempt DevProvision DevObjective DevOps DevInv DevRecord DevRoundtrip.

(** ** Bootstrap resolutions *)
Definition bootstrapArtifactSizeLimit : Z := Z.shiftl 256 20.
(** [^[a-f0-9]{64}$] and [^(0|[1-9][0-9]{0,5})$] *)
Definition bootstrapRecordSHA256 : regexp := whole (times 64 (Class hexlow)).
Definition bootstrapRecordNumber : regexp := whole (Alt (lit "0") (Seq (Class (rng "1" "9")) (upto 5 (Class digit)))).

Record BootstrapResolution := {
  bs_CapabilityID : CapabilityID; bs_Toolchain : string; bs_Version : string; bs_Platform : string; bs_ArtifactFile : string;
  bs_ArtifactSHA256 : string; bs_ArtifactSize : Z; bs_InstallerSHA256 : string; bs_ManifestSHA256 : string }.
#[export] Instance BootstrapResolution_eq_dec : EqDecision BootstrapResolution.
Proof. solve_decision. Defined.

Definition ErrBootUnsupported : error := "development bootstrap capability is unsupported".
Definition ErrBootPrecision : error := "development bootstrap capability precision is unsupported".
Definition ErrBootNumeric : error := "development bootstrap capability is not canonical numeric data".
Definition ErrBootMajor : error := "go bootstrap major version is unsupported".
Definition ErrBootVersionPrecision : error := "development bootstrap version precision is invalid".
Definition ErrBootVersionCanonical : error := "development bootstrap version is not canonical".
Definition ErrBootVersionRange : error := "development bootstrap version is out of range".
Definition ErrBootBinding : error := "development bootstrap capability binding is invalid".
Definition ErrBootVersion : error := "development bootstrap version is invalid".
Definition ErrBootMatch : error := "development bootstrap version does not match capability".
Definition ErrBootGoPlatform : error := "go bootstrap platform or major version is unsupported".
Definition ErrBootGoArtifact : error := "go bootstrap artifact metadata is invalid".
Definition ErrBootRustPlatform : error := "rust bootstrap platform or version is unsupported".
Definition ErrBootRustChecksum : error := "rust bootstrap checksum metadata is invalid".
Definition ErrBootToolchain : error := "development bootstrap toolchain is unsupported".

Definition dash : ascii := "-".
Definition dot : ascii := ".".

Definition parseBootstrapCapability (id : CapabilityID) : result (string * list string) :=
  let? p :=
    if HasPrefix id "toolchain.go.v" then Ok ("go", TrimPrefix id "toolchain.go.v")
    else if HasPrefix id "toolchain.rust.v" then Ok ("rust", TrimPrefix id "toolchain.rust.v")
    else Err ErrBootUnsupported in
  let '(toolchain, suffix) := p in
  let parts := Split suffix dash in
  check reject_if ((toolchain =? "go") && (bool_decide (length parts < 2)%nat || bool_decide (3 < length parts)%nat) ||
                   (toolchain =? "rust") && bool_decide (length parts <> 3%nat)) ErrBootPrecision in
  check reject_if (existsb (fun part => negb (MatchString bootstrapRecordNumber part)) parts) ErrBootNumeric in
  check reject_if ((toolchain =? "go") && bool_decide (head parts <> Some "1")) ErrBootMajor in
  Ok (toolchain, parts).

Definition BootstrapCapabilitySupported (id : CapabilityID) : bool := is_ok (parseBootstrapCapability id).

(** [strconv.Atoi] on texts of digits *)
Definition Atoi (part : string) : option Z := parse_int (- 2 ^ 63) (2 ^ 63 - 1) part.

Fixpoint check_version_parts (parts : list string) : result unit :=
  match parts with
  | [] => Ok tt
  | part :: rest =>
      check reject_if (negb (MatchString bootstrapRecordNumber part)) ErrBootVersionCanonical in
      check reject_if (bool_decide (Atoi part = None)) ErrBootVersionRange in
      check_version_parts rest
  end.

Definition parseBootstrapVersion (raw : string) (precision : nat) : result (list string) :=
  let parts := Split raw dot in
  check reject_if (bool_decide (length parts <> precision)) ErrBootVersionPrecision in
  check check_version_parts parts in
  Ok parts.

(** The selector's parts against the first parts of the version. *)
Definition selects (selector version : list string) : bool := forallb (fun p => p.1 =? p.2) (zip selector version).

Definition ValidateBootstrapResolution (r : BootstrapResolution) : result unit :=
  match parseBootstrapCapability (bs_CapabilityID r) with
  | Err _ => Err ErrBootBinding
  | Ok (toolchain, selector) =>
      check reject_if (toolchain <>? bs_Toolchain r) ErrBootBinding in
      match parseBootstrapVersion (bs_Version r) 3 with
      | Err _ => Err ErrBootVersion
      | Ok versionParts =>
          check reject_if (bool_decide (length versionParts < length selector)%nat) ErrBootVersion in
          check reject_if (negb (selects selector versionParts)) ErrBootMatch in
          if bs_Toolchain r =? "go" then
            check reject_if (bool_decide (head selector <> Some "1") ||
                             (bs_Platform r <>? "amd64") && (bs_Platform r <>? "arm64")) ErrBootGoPlatform in
            let wantFile := "go" +:+ bs_Version r +:+ ".linux-" +:+ bs_Platform r +:+ ".tar.gz" in
            reject_if ((bs_ArtifactFile r <>? wantFile) || negb (MatchString bootstrapRecordSHA256 (bs_ArtifactSHA256 r)) ||
                       (bs_ArtifactSize r <? 1) || (bootstrapArtifactSizeLimit <? bs_ArtifactSize r) ||
                       (bs_InstallerSHA256 r <>? "") || (bs_ManifestSHA256 r <>? "")) ErrBootGoArtifact
          else if bs_Toolchain r =? "rust" then
            check reject_if (bool_decide (length selector <> 3%nat) || (bs_Version r <>? Join selector ".") ||
                             (bs_Platform r <>? "x86_64-unknown-linux-gnu") && (bs_Platform r <>? "aarch64-unknown-linux-gnu"))
              ErrBootRustPlatform in
            reject_if ((bs_ArtifactFile r <>? "") || (bs_ArtifactSHA256 r <>? "") || (bs_ArtifactSize r <>? 0) ||
                       negb (MatchString bootstrapRecordSHA256 (bs_InstallerSHA256 r)) ||
                       negb (MatchString bootstrapRecordSHA256 (bs_ManifestSHA256 r))) ErrBootRustChecksum
          else Err ErrBootToolchain
      end
  end.

Definition bootstrap_type : gtype :=
  TStruct [req "capability_id" c_string; req "toolchain" c_string; req "version" c_string; req "platform" c_string;
           omit "artifact_file" c_string; omit "artifact_sha256" c_string; omit "artifact_size" c_int64;
           omit "installer_sha256" c_string; omit "manifest_sha256" c_string].
Definition bootstrap_to (r : BootstrapResolution) : gval :=
  VStruct [c_to c_string (bs_CapabilityID r); c_to c_string (bs_Toolchain r); c_to c_string (bs_Version r);
           c_to c_string (bs_Platform r); c_to c_string (bs_ArtifactFile r); c_to c_string (bs_ArtifactSHA256 r);
           c_to c_int64 (bs_ArtifactSize r); c_to c_string (bs_InstallerSHA256 r); c_to c_string (bs_ManifestSHA256 r)].
Definition bootstrap_of (v : gval) : option BootstrapResolution :=
  match v with
  | VStruct [id; toolchain; version; platform; file; sha; size; installer; manifest] =>
      id ← c_of c_string id; toolchain ← c_of c_string toolchain; version ← c_of c_string version;
      platform ← c_of c_string platform; file ← c_of c_string file; sha ← c_of c_string sha; size ← c_of c_int64 size;
      installer ← c_of c_string installer; manifest ← c_of c_string manifest;
      Some {| bs_CapabilityID := id; bs_Toolchain := toolchain; bs_Version := version; bs_Platform := platform;
              bs_ArtifactFile := file; bs_ArtifactSHA256 := sha; bs_ArtifactSize := size; bs_InstallerSHA256 := installer;
              bs_ManifestSHA256 := manifest |}
  | _ => None
  end.
Lemma bootstrap_law r : bootstrap_of (bootstrap_to r) = Some r.
Proof. destruct r. cbn -[c_to c_of]. by rewrite !c_law. Qed.
Definition c_bootstrap : codec BootstrapResolution :=
  {| c_type := bootstrap_type; c_to := bootstrap_to; c_of := bootstrap_of; c_law := bootstrap_law |}.

Definition BootstrapResolutionDigest (r : BootstrapResolution) : result string :=
  check ValidateBootstrapResolution r in
  Ok (digest_string (Marshal c_bootstrap r)).

(** ** Go commands *)
Record GoMinimum := { gm_Manifest : string; gm_Version : string }.
Record GoCommandRequirements := {
  gr_Version : Z; gr_SourceDigest : string; gr_ExactRequirements : list CapabilityID; gr_MinimumVersions : list GoMinimum }.

(** [gover.cutInt]: a number without leading zeros at the head of a text. *)
Definition cutInt (x : string) : option (string * string) :=
  let '(digits, rest) := scan_digits x in
  if (digits =? "") || leading_zero digits then None else Some (digits, rest).

(** The letters of a prerelease, as [gover.Parse] reads them. *)
Fixpoint cut_kind (x : string) : option (string * string) :=
  match x with
  | String c rest =>
      if is_digit c then Some ("", x)
      else if (97 <=? byte_val c) && (byte_val c <=? 122) then p ← cut_kind rest; Some (String c p.1, p.2)
      else None
  | EmptyString => Some ("", x)
  end.

(** [gover.IsValid]: [Parse] gives a version. *)
Definition gover_valid (x : string) : bool :=
  match cutInt x with
  | None => false
  | Some (_, x) =>
      match x with
      | EmptyString => true
      | String c x =>
          if byte_val c <>? 46 then false
          else match cutInt x with
               | None => false
               | Some (_, x) =>
                   match x with
                   | EmptyString => true
                   | String c rest =>
                       if byte_val c =? 46 then
                         match cutInt rest with Some (_, x) => x =? "" | None => false end
                       else match cut_kind x with
                            | None => false
                            | Some (kind, x) =>
                                if kind =? "" then false
                                else if x =? "" then true
                                else match cutInt x with Some (_, x) => x =? "" | None => false end
                            end
                   end
               end
      end
  end.

(** [version.IsValid]: what follows [go] up to a dash is a version. *)
Definition version_IsValid (x : string) : bool :=
  if HasPrefix x "go" then gover_valid (drop_bytes 2 (default "" (head (Split x dash)))) else false.

(** [strings.Count] of one byte *)
Definition CountByte (s : string) (c : ascii) : nat := (length (Split s c) - 1)%nat.

Definition CanonicalGoVersion (value : string) : bool :=
  if (32 <? Len value) || HasPrefix value "0." || bool_decide (CountByte value dot < 1)%nat ||
     bool_decide (2 < CountByte value dot)%nat || negb (version_IsValid ("go" +:+ value)) ||
     negb (MatchString capabilityVersionPattern value) || HasPrefix value "v" then false
  else is_ok (canonicalCapabilityVersion value).

(** The two loops of [Valid] that collect what explains the Go requirements. *)
Fixpoint cover_exact (before : option CapabilityID) (conservative exact : list CapabilityID) : option (list CapabilityID) :=
  match exact with
  | [] => Some []
  | id :: rest =>
      if match before with Some b => negb (str_lt b id) | None => false end then None
      else if negb (HasPrefix id "toolchain.go.v") ||
              negb (CanonicalGoVersion (ReplaceByte (TrimPrefix id "toolchain.go.v") dash dot)) ||
              negb (bool_decide (id ∈ conservative)) then None
      else covered ← cover_exact (Some id) conservative rest; Some (id :: covered)
  end.

Fixpoint cover_minimums (before : option GoMinimum) (conservative : list CapabilityID) (minimums : list GoMinimum)
    : option (list CapabilityID) :=
  match minimums with
  | [] => Some []
  | m :: rest =>
      if (gm_Manifest m <>? "go.mod") && (gm_Manifest m <>? "go.work") ||
         match before with Some b => negb (str_lt (gm_Manifest b) (gm_Manifest m)) | None => false end ||
         negb (CanonicalGoVersion (gm_Version m)) then None
      else match VersionRequirement "toolchain.go" (gm_Version m) with
           | Err _ => None
           | Ok requirement =>
               here ← (if gm_Manifest m =? "go.mod" then
                         if bool_decide (req_ID requirement ∈ conservative) then Some [req_ID requirement]
                         else if bool_decide ("toolchain.go" ∈ conservative) then Some ["toolchain.go"]
                         else None
                       else Some []);
               covered ← cover_minimums (Some m) conservative rest;
               Some (here ++ covered)
           end
  end.

Definition go_requirement (id : CapabilityID) : bool := (id =? "toolchain.go") || HasPrefix id "toolchain.go.".

(** [GoCommandRequirements.Valid] *)
Definition gr_Valid (e : GoCommandRequirements) (source : string) (conservative : list CapabilityID) : bool :=
  if (gr_Version e <>? 1) || negb (MatchString sourceDigestPattern source) || (gr_SourceDigest e <>? source) ||
     bool_decide (1 < length (gr_ExactRequirements e))%nat || bool_decide (length (gr_MinimumVersions e) < 1)%nat ||
     bool_decide (2 < length (gr_MinimumVersions e))%nat then false
  else match cover_exact None conservative (gr_ExactRequirements e), cover_minimums None conservative (gr_MinimumVersions e) with
       | Some exact, Some minimums =>
           forallb (fun id => negb (go_requirement id) || bool_decide (id ∈ exact ++ minimums)) conservative
       | _, _ => false
       end.

Example go_versions : CanonicalGoVersion <$> ["1.26"; "1.26.0"; "1"; "01.2"; "1.26.1.1"; "v1.2"; "0.1"; "1.21rc1"] =
  [true; true; false; false; false; false; false; false].
Proof. vm_compute. reflexivity. Qed.

(** ** Bootstrap resolutions are plain text *)
Lemma plain_sha s : MatchString bootstrapRecordSHA256 s = true -> plain s.
Proof. plain_pattern. Qed.
Lemma plain_number s : MatchString bootstrapRecordNumber s = true -> plain s.
Proof. plain_pattern. Qed.

Lemma Split_nonempty s sep : Split s sep <> [].
Proof. destruct s; cbn; [done|]. destruct (ascii_dec _ _); [done|]. by destruct (Split s sep). Qed.

Lemma plain_Split s sep : plain_byte (byte_val sep) -> Forall plain (Split s sep) -> plain s.
Proof.
  intros Hsep. induction s as [|c s IH]; [intros _; constructor|]. cbn [Split]. destruct (ascii_dec c sep) as [->|].
  - intros [_ H]%Forall_cons. apply plain_cons. auto.
  - pose proof (Split_nonempty s sep). destruct (Split s sep) as [|w ws]; [done|]. intros [Hw Hws]%Forall_cons.
    apply plain_cons in Hw as [Hc Hw]. apply plain_cons. split; [done|]. apply IH. by constructor.
Qed.

Lemma prefix_split s p : HasPrefix s p = true -> s = p +:+ TrimPrefix s p.
Proof.
  intros H. unfold TrimPrefix. rewrite H. revert s H. induction p as [|c p IH]; intros s H; [by destruct s|].
  destruct s as [|d s]; [done|]. cbn in H. destruct (ascii_dec c d) as [->|]; [|done]. rewrite string_app_cons. f_equal. by apply IH.
Qed.

Definition boot_prefix (toolchain : string) : string := "toolchain." +:+ toolchain +:+ ".v".

Lemma capability_parts id tc parts : parseBootstrapCapability id = Ok (tc, parts) ->
  Forall plain parts /\ id = boot_prefix tc +:+ TrimPrefix id (boot_prefix tc) /\
  parts = Split (TrimPrefix id (boot_prefix tc)) dash /\ (tc = "go" \/ tc = "rust").
Proof.
  unfold parseBootstrapCapability. intros (p & Hp & H)%rbind_ok. destruct p as [t suffix].
  apply reject_ok in H as [_ H]. apply reject_ok in H as [Hn H]. apply reject_ok in H as [_ [= <- <-]].
  rewrite existsb_negb_Forall in Hn. split; [eapply Forall_impl; [exact Hn|apply plain_number]|].
  destruct (HasPrefix id "toolchain.go.v") eqn:E1; [injection Hp as <- <-; split_and!; [exact (prefix_split _ _ E1)|done|by left]|].
  destruct (HasPrefix id "toolchain.rust.v") eqn:E2; [|done]. injection Hp as <- <-. split_and!; [exact (prefix_split _ _ E2)|done|by right].
Qed.

Lemma plain_capability_id id tc parts : parseBootstrapCapability id = Ok (tc, parts) -> plain id /\ plain tc.
Proof.
  intros (Hp & Hid & -> & Htc)%capability_parts. assert (plain tc) by (destruct Htc as [->| ->]; plain_const).
  split; [|done]. rewrite Hid. apply plain_app; [repeat apply plain_app; [plain_const|done|plain_const]|]. eapply plain_Split; [|exact Hp]. plain_const.
Qed.

Lemma version_parts raw n parts : parseBootstrapVersion raw n = Ok parts -> plain raw.
Proof.
  unfold parseBootstrapVersion. intros [_ H]%reject_ok. apply rbind_ok in H as ([] & Hc & [= <-]).
  apply (plain_Split raw dot); [plain_const|]. revert Hc. induction (Split raw dot) as [|x l IH]; [constructor|].
  cbn [check_version_parts]. intros [Hx [_ Hl]%reject_ok]%reject_ok. constructor; [by apply plain_number, negb_false_iff|by apply IH].
Qed.

Lemma bootstrap_ok r : ValidateBootstrapResolution r = Ok tt -> val_ok (c_type c_bootstrap) (c_to c_bootstrap r).
Proof.
  unfold ValidateBootstrapResolution. destruct (parseBootstrapCapability (bs_CapabilityID r)) as [[tc selector]|] eqn:Ec; [|done].
  apply plain_capability_id in Ec as [Hid Htc]. intros [->%negb_false_iff%bool_decide_eq_true H]%reject_ok.
  destruct (parseBootstrapVersion (bs_Version r) 3) as [parts|] eqn:Ev; [|done]. apply version_parts in Ev.
  apply reject_ok in H as [_ H]. apply reject_ok in H as [_ H].
  assert (Hall : plain (bs_Platform r) /\ plain (bs_ArtifactFile r) /\ plain (bs_ArtifactSHA256 r) /\ plain (bs_InstallerSHA256 r) /\
    plain (bs_ManifestSHA256 r) /\ 0 <= bs_ArtifactSize r <= bootstrapArtifactSizeLimit).
  { destruct (_ =? "go") in H; [|destruct (_ =? "rust") in H; [|done]]; apply reject_ok in H as [Hp H]; apply reject_if_ok in H.
    - assert (Hpl : plain (bs_Platform r)).
      { apply orb_false_iff in Hp as [_ Hp]. apply andb_false_iff in Hp as [Hp|Hp]; breflect; rewrite Hp; plain_const. }
      breflect. repeat match goal with H : _ = "" |- _ => rewrite H; clear H end. split_and!; try done; try exact plain_empty; try lia.
      + match goal with H : bs_ArtifactFile r = _ |- _ => rewrite H end. repeat apply plain_app; try done; plain_const.
      + by apply plain_sha.
    - assert (Hpl : plain (bs_Platform r)).
      { apply orb_false_iff in Hp as [_ Hp]. apply andb_false_iff in Hp as [Hp|Hp]; breflect; rewrite Hp; plain_const. }
      breflect. repeat match goal with H : _ = "" |- _ => rewrite H; clear H end.
      assert (0 <= bs_ArtifactSize r <= bootstrapArtifactSizeLimit).
      { match goal with H : bs_ArtifactSize r = 0 |- _ => rewrite H end. vm_compute. intuition congruence. }
      split_and!; try done; try exact plain_empty; try lia; by apply plain_sha. }
  destruct Hall as (H1 & H2 & H3 & H4 & H5 & H6). cbn [c_type c_to c_bootstrap]. unfold bootstrap_type, bootstrap_to. each_field.
  apply int64_ok; [|lia]. unfold in_int64, two63. change bootstrapArtifactSizeLimit with 268435456 in H6. lia.
Qed.

Lemma bootstrap_text_inj r r' : ValidateBootstrapResolution r = Ok tt -> ValidateBootstrapResolution r' = Ok tt ->
  Marshal c_bootstrap r = Marshal c_bootstrap r' -> r = r'.
Proof.
  intros Hr%bootstrap_ok Hr'%bootstrap_ok E.
  assert (Ht : type_ok (c_type c_bootstrap) = true) by (vm_compute; reflexivity).
  pose proof (unmarshal_marshal c_bootstrap r I Ht Hr) as U. rewrite E in U.
  rewrite (unmarshal_marshal c_bootstrap r' I Ht Hr') in U. congruence.
Qed.

(** A bootstrap digest identifies the selection: two resolutions with the same digest
    are equal in every field, or their JSON texts exhibit a collision of SHA-256. *)
Theorem BootstrapResolutionDigest_binds r r' d : BootstrapResolutionDigest r = Ok d -> BootstrapResolutionDigest r' = Ok d ->
  r = r' \/ (Marshal c_bootstrap r <> Marshal c_bootstrap r' /\ Sum256 (Marshal c_bootstrap r) = Sum256 (Marshal c_bootstrap r')).
Proof.
  intros ([] & Hr & Ed)%rbind_ok ([] & Hr' & Ed')%rbind_ok.
  assert (E : digest_string (Marshal c_bootstrap r) = digest_string (Marshal c_bootstrap r')) by congruence.
  apply digest_string_inj in E.
  destruct (decide (Marshal c_bootstrap r = Marshal c_bootstrap r')) as [Et|Hn]; [left; by apply bootstrap_text_inj|right].
  by split.
Qed.

Definition demo_bootstrap : BootstrapResolution :=
  {| bs_CapabilityID := "toolchain.go.v1-26"; bs_Toolchain := "go"; bs_Version := "1.26.3"; bs_Platform := "arm64";
     bs_ArtifactFile := "go1.26.3.linux-arm64.tar.gz"; bs_ArtifactSHA256 := drop_bytes 7 (digest_string "artifact");
     bs_ArtifactSize := 65536; bs_InstallerSHA256 := ""; bs_ManifestSHA256 := "" |}.

Lemma BootstrapResolutionDigest_binds_witness : demo_bootstrap = demo_bootstrap \/
  (Marshal c_bootstrap demo_bootstrap <> Marshal c_bootstrap demo_bootstrap /\
   Sum256 (Marshal c_bootstrap demo_bootstrap) = Sum256 (Marshal c_bootstrap demo_bootstrap)).
Proof.
  apply (BootstrapResolutionDigest_binds demo_bootstrap demo_bootstrap (digest_string (Marshal c_bootstrap demo_bootstrap)));
    vm_compute; reflexivity.
Defined.
