(* ===== verification/Development.v ===== *)
(** * Objectives as a system

    The operations of an objective as one step function, the objectives they can
    reach, and what holds of them: validity, the store's transition check, the
    history of attempts, and the evidence behind acceptance. *)

From S2P Require Import Prelude GoStrings GoRegexp Sha256 DevCapability DevResolver DevAttempt DevProvision DevObjective DevOps DevInv DevPreserve DevSteps DevPlan DevFinish DevHistory.

(** ** Steps of the system *)
Inductive obj_op :=
| OpRefine (stepID : string) (additional : list Requirement)
| OpPlan (stepID attemptID sourceDigest : string) (candidates : list EnvironmentAttestation)
| OpStart (stepID : string)
| OpReject (stepID : string) (class : FailureClass)
| OpFail (stepID : string) (class : FailureClass)
| OpComplete (stepID : string)
| OpAccept
| OpAcceptWithEvidence (receipts : list CommandAcceptanceReceipt)
| OpCancel
| OpPlanProvisioning (stepID provisionID sourceDigest : string) (plan : ProvisionPlan)
| OpBindJob (stepID provisionID jobID : string)
| OpBindFence (stepID provisionID : string) (fence : Z)
| OpCompleteProvision (stepID provisionID receiptDigest : string)
| OpFailProvision (stepID provisionID : string) (class : FailureClass).

Definition apply_op (o : Objective) (op : obj_op) : result Objective :=
  match op with
  | OpRefine stepID additional => RefineRequirements o stepID additional
  | OpPlan stepID attemptID sourceDigest candidates =>
      let? planned := PlanAttempt o stepID attemptID sourceDigest candidates in Ok planned.1
  | OpStart stepID => StartAttempt o stepID
  | OpReject stepID class => let? rejected := RejectAttempt o stepID class in Ok rejected.1
  | OpFail stepID class => let? failed := FailAttempt o stepID class in Ok failed.1
  | OpComplete stepID => CompleteAttempt o stepID
  | OpAccept => Accept o
  | OpAcceptWithEvidence receipts => AcceptWithEvidence o receipts
  | OpCancel => ob_Cancel o
  | OpPlanProvisioning stepID provisionID sourceDigest plan => PlanProvisioning o stepID provisionID sourceDigest plan
  | OpBindJob stepID provisionID jobID => BindProvisionJob o stepID provisionID jobID
  | OpBindFence stepID provisionID fence => BindProvisionFence o stepID provisionID fence
  | OpCompleteProvision stepID provisionID receiptDigest => CompleteProvision o stepID provisionID receiptDigest
  | OpFailProvision stepID provisionID class => FailProvision o stepID provisionID class
  end.

(** [PlanAttempt] leaves it to its caller to draw an attempt identifier that the
    objective does not use yet. *)
Definition fresh_op (o : Objective) (op : obj_op) : Prop :=
  match op with OpPlan _ attemptID _ _ => TrimSpace attemptID ∉ all_ids (ob_Steps o) | _ => True end.

Inductive reachable : Objective -> Prop :=
| reach_new objectiveID policy specs o : NewObjective objectiveID policy specs = Ok o -> reachable o
| reach_scoped objectiveID scope policy specs o : NewScopedObjective objectiveID scope policy specs = Ok o -> reachable o
| reach_step o op o' : reachable o -> ob_Revision o + 1 < two64 -> fresh_op o op -> apply_op o op = Ok o' -> reachable o'.

(** ** New objectives *)
Definition fresh_step (policy : ResolutionPolicy) (s : ObjectiveStep) : Prop :=
  step_ok policy s /\ st_Attempts s = [] /\ st_Provisioning s = [] /\ st_State s = StepPlanned /\ st_AcceptanceReceipt s = None.

Lemma new_steps_ok policy seen specs steps : new_steps policy seen specs = Ok steps ->
  Forall (fresh_step policy) steps /\ NoDup (st_StepID <$> steps) /\ (forall x, x ∈ st_StepID <$> steps -> x ∉ seen) /\
  length steps = length specs.
Proof.
  revert seen steps. induction specs as [|spec specs IH]; intros seen steps; cbn [new_steps].
  { intros [= <-]. split_and!; [constructor|constructor|by intros x []%elem_of_nil|done]. }
  intros [H1 [H2 (reqs & Hreqs & H)%rbind_ok]%reject_ok]%reject_ok. apply negb_false_iff in H1. apply bool_decide_eq_false in H2.
  apply reject_ok in H as [Hct (rest & (Hall & Hnd & Hseen & Hlen)%IH & [= <-])%rbind_ok].
  apply normalizeRequirementList_spec in Hreqs as (Hc & _ & _). split_and!.
  - constructor; [|done]. split_and!; try done. constructor; try done; cbn.
    + unfold MaxAttemptsPerStep. lia.
    + intros c Ec. rewrite Ec in Hct. apply negb_false_iff in Hct. by split.
    + unfold MaxProvisioningAttemptsPerStep. lia.
  - cbn. constructor; [|done]. intros Hin. by apply (Hseen _ Hin), list_elem_of_here.
  - intros x [->|Hx]%elem_of_cons; [done|]. intros Hs. apply (Hseen x Hx). by right.
  - cbn. by rewrite Hlen.
Qed.

Lemma fresh_ids policy steps : Forall (fresh_step policy) steps -> all_ids steps = [].
Proof.
  induction 1 as [|s steps (_ & Ha & Hp & _) _ IH]; [done|]. unfold all_ids. cbn [fmap list_fmap concat]. unfold step_ids at 1.
  rewrite Ha, Hp. exact IH.
Qed.

Lemma new_inv objectiveID scope policy steps : MatchString identityPattern objectiveID = true -> validOrEmpty scope = true ->
  policy_ok policy -> (0 < length steps <= MaxObjectiveSteps)%nat -> Forall (fresh_step policy) steps ->
  NoDup (st_StepID <$> steps) -> sameCommandAcceptanceContractMode steps = true ->
  inv {| ob_Version := ObjectiveVersion; ob_ObjectiveID := objectiveID; ob_Revision := 1; ob_State := ObjectivePlanned;
         ob_Scope := scope; ob_Policy := policy; ob_Steps := steps |}.
Proof.
  intros H1 H2 H3 H4 Hf H6 H7. pose proof Hf as Hl. rewrite Forall_lookup in Hl.
  assert (Hno : no_receipts steps) by (eapply Forall_impl; [exact Hf|]; by intros s (_ & _ & _ & _ & ?)).
  constructor; cbn [ob_Revision ob_Steps ob_State].
  - constructor; cbn [ob_Steps]; try done.
    + intros k s Hk. destruct (Hl k s Hk) as (Hs & _ & _ & _ & Hr). split; [done|]. intros r Er. congruence.
    + rewrite (fresh_ids policy) by done. constructor.
    + rewrite all_ops_none by done. constructor.
    + unfold state_ok, validate_state. cbn [ob_State]. rewrite bool_decide_true by done. apply reject_if_ok, existsb_false_Forall.
      eapply Forall_impl; [exact Hf|]. cbn. intros s (_ & -> & -> & -> & _). done.
  - unfold two64. lia.
  - eapply Forall_impl; [exact Hf|]. intros s (_ & Ha & Hp & _). constructor; [by rewrite Ha|rewrite Hp; constructor].
  - intros _. eapply Forall_impl; [exact Hf|]. by intros s (_ & _ & _ & -> & _).
Qed.

Lemma NewObjective_shape objectiveID policy specs o : NewObjective objectiveID policy specs = Ok o ->
  exists steps, o = {| ob_Version := ObjectiveVersion; ob_ObjectiveID := TrimSpace objectiveID; ob_Revision := 1;
    ob_State := ObjectivePlanned; ob_Scope := zero_scope; ob_Policy := policy; ob_Steps := steps |} /\
  MatchString identityPattern (TrimSpace objectiveID) = true /\ policy_ok policy /\
  (0 < length steps <= MaxObjectiveSteps)%nat /\ Forall (fresh_step policy) steps /\
  NoDup (st_StepID <$> steps) /\ sameCommandAcceptanceContractMode steps = true.
Proof.
  unfold NewObjective. intros [Hg (steps & (H1 & H2 & _ & H3)%new_steps_ok & [Hm [= <-]]%reject_ok)%rbind_ok]%reject_ok.
  rewrite !orb_false_iff, !negb_false_iff, !bool_decide_eq_false in Hg. destruct Hg as [[[Hid Hp%policy_valid_spec] Hn] Hx].
  apply negb_false_iff in Hm. exists steps. split_and!; try done; lia.
Qed.

Lemma apply_op_good o op o' : inv o -> ob_Revision o + 1 < two64 -> fresh_op o op -> apply_op o op = Ok o' ->
  o' = o \/ good_revision o o'.
Proof.
  intros Ho Hr Hf. destruct op; cbn [apply_op fresh_op] in *.
  - by apply RefineRequirements_good.
  - intros ([o1 r] & H & [= <-])%rbind_ok. right. by eapply PlanAttempt_good.
  - right. by eapply StartAttempt_good.
  - intros ([o1 r] & H & [= <-])%rbind_ok. right. by eapply RejectAttempt_good.
  - intros ([o1 r] & H & [= <-])%rbind_ok. right. by eapply FailAttempt_good.
  - right. by eapply CompleteAttempt_good.
  - right. by eapply Accept_good.
  - right. by eapply AcceptWithEvidence_good.
  - right. by eapply ob_Cancel_good.
  - right. by eapply PlanProvisioning_good.
  - by apply advanceProvision_good.
  - by apply advanceProvision_good.
  - by apply advanceProvision_good.
  - by apply advanceProvision_good.
Qed.

Lemma reachable_inv o : reachable o -> inv o.
Proof.
  induction 1 as [id policy specs o H|id scope policy specs o H|o op o' _ IH Hr Hf H].
  - apply NewObjective_shape in H as (steps & -> & H1 & H2 & H3 & H4 & H5 & H6). by apply new_inv.
  - unfold NewScopedObjective in H. apply reject_ok in H as [Hb (o1 & H & [= <-])%rbind_ok]. apply negb_false_iff in Hb.
    apply NewObjective_shape in H as (steps & -> & H1 & H2 & H3 & H4 & H5 & H6). apply new_inv; try done.
    unfold validOrEmpty. by rewrite Hb, orb_true_r.
  - by destruct (apply_op_good o op o' IH Hr Hf H) as [->|[_ ?]].
Qed.

(** A planned attempt with an identifier in use makes an invalid objective. *)
Lemma all_ids_plan steps i s a state : steps !! i = Some s ->
  all_ids (<[i := set_attempts s (st_Attempts s ++ [a]) state]> steps) ≡ₚ at_AttemptID a :: all_ids steps.
Proof.
  intros Hi. destruct (insert_split steps i s (set_attempts s (st_Attempts s ++ [a]) state) Hi) as (l1 & l2 & -> & -> & _).
  rewrite !all_ids_app. unfold all_ids at 2 4. cbn [fmap list_fmap concat]. rewrite step_ids_plan. cbn.
  by rewrite <- Permutation_middle.
Qed.

Lemma PlanAttempt_reused o stepID attemptID sourceDigest cands o' r :
  PlanAttempt o stepID attemptID sourceDigest cands = Ok (o', r) -> inv o ->
  TrimSpace attemptID ∈ all_ids (ob_Steps o) -> ob_Valid o' = false.
Proof.
  intros H Ho Hused. destruct (ob_Valid o') eqn:Hv; [|done]. exfalso. apply ob_Valid_spec, oo_ids in Hv. revert H.
  unfold PlanAttempt. intros ([i s] & (Ht & Hi & _)%find_step_ok & H)%rbind_ok. destruct (inv_lookup o i s Ho Hi) as [Hs _].
  apply reject_ok in H as [_ H]. apply reject_ok in H as [_ H]. apply reject_ok in H as [_ H].
  apply reject_ok in H as [_ ([a res] & Ha & [= <- _])%rbind_ok].
  assert (Hid : at_AttemptID a = TrimSpace attemptID).
  { destruct (last (st_Attempts s)) as [p|] eqn:El.
    - by apply plan_continuation_ok in Ha as (_ & _ & ? & _).
    - apply rbind_ok in Ha as (r1 & Hr1 & (b & Hb & [= <- _])%rbind_ok). by apply NewExecutionAttempt_ok in Hb as (_ & ? & _). }
  cbn [revise ob_Steps] in Hv. rewrite (all_ids_plan _ _ s) in Hv by done. apply NoDup_cons in Hv as [Hv _].
  by rewrite Hid in Hv.
Qed.

Lemma invalid_transition o o' : ob_Valid o' = false -> ValidateTransition o o' = Err ErrTransition.
Proof. intros E. unfold ValidateTransition. by rewrite E, orb_true_r. Qed.

(** An open objective can be cancelled. *)
Lemma cancel_step_total policy s : step_ok policy s -> is_ok (cancel_step s) = true.
Proof.
  intros Hs. unfold cancel_step. assert (Hp : exists l, cancel_provisioning s = Ok (set_provisioning s l)).
  { unfold cancel_provisioning. destruct (last (st_Provisioning s)) as [p|] eqn:El; [|exists (st_Provisioning s); by destruct s].
    destruct (_ || _) eqn:Ea; [|exists (st_Provisioning s); by destruct s].
    assert (Hv : pv_Valid p = true).
    { apply (provisions_ok_lookup _ _ _ (so_prov _ _ Hs)). apply last_split in El as [l ->]. apply elem_of_app. right. left. }
    unfold pv_Cancel. rewrite Hv. destruct (pv_State p =? ProvisioningPlanned), (pv_State p =? ProvisioningQueued); try done;
      cbn [negb orb andb reject_if rbind]; by eexists. }
  destruct Hp as (l & ->). cbn [rbind]. change (st_State (set_provisioning s l)) with (st_State s).
  destruct (_ || _) eqn:Est; [done|]. rewrite !orb_false_iff, !bool_decide_eq_false in Est. destruct Est as [[H1 H2] H3].
  change (st_Attempts (set_provisioning s l)) with (st_Attempts s). destruct (last (st_Attempts s)) as [a|] eqn:El; [|done].
  pose proof (step_attempt_state _ s a Hs El) as Hm. unfold attempt_step_state in Hm.
  assert (Ha : at_State a = AttemptPlanned \/ at_State a = AttemptRunning) by tauto.
  assert (Hv : validIdentity a = true).
  { pose proof (so_attempts _ _ Hs) as Hat. apply last_split in El as [k Ek]. rewrite Ek in Hat.
    by apply attempts_ok_snoc in Hat as [_ (? & _)]. }
  unfold at_Transition. rewrite Hv. by destruct Ha as [-> | ->].
Qed.

Lemma cancel_steps_total policy steps : Forall (step_ok policy) steps -> is_ok (cancel_steps steps) = true.
Proof.
  induction 1 as [|s steps Hs _ IH]; [done|]. cbn [cancel_steps]. pose proof (cancel_step_total policy s Hs) as H.
  destruct (cancel_step s); [|done]. cbn [rbind]. by destruct (cancel_steps steps).
Qed.

(** ** Theorems *)
(** C13 The objectives that operations reach, as long as every planned attempt gets an
    identifier the objective does not use yet (one in use gives an objective that fails
    the snapshot check, [PlanAttempt_reused]), satisfy the snapshot check, stay within
    their authority and keep execution and provisioning apart: every attempt runs in a
    class that the policy lists, provisioning is active only before the first attempt or
    after a failed one, and only a cancelled objective has cancelled steps. *)
Theorem objective_invariant o : reachable o ->
  ob_Valid o = true /\ 0 < ob_Revision o < two64 /\
  forall i s, ob_Steps o !! i = Some s ->
    (forall a, a ∈ st_Attempts s -> at_Class a ∈ rp_allowed (ob_Policy o)) /\
    (activeProvisioning s = true -> match last (st_Attempts s) with None => True | Some a => at_State a = AttemptFailed end) /\
    (st_State s = StepCancelled -> ob_State o = ObjectiveCancelled).
Proof.
  intros Ho%reachable_inv. pose proof (inv_ok o Ho) as Hok. split_and!; [by apply ob_Valid_spec|apply (inv_rev o Ho)..|].
  intros i s Hi. destruct (inv_lookup o i s Ho Hi) as [Hs Hsi]. split_and!.
  - intros a Ha. pose proof (so_class _ _ Hs) as Hc. rewrite Forall_forall in Hc. apply AllowsClass_spec; [|by apply Hc].
    by destruct (oo_header o Hok) as (_ & _ & _ & _ & ? & _).
  - apply (si_prov s Hsi).
  - intros E. destruct (decide (ob_State o = ObjectiveCancelled)) as [|Hn]; [done|]. pose proof (inv_cancel o Ho Hn) as Hc.
    rewrite Forall_lookup in Hc. by destruct (Hc i s Hi).
Qed.

(** C12 The operations implement the store's contract: on a reachable objective an
    operation returns the objective unchanged, or the next revision, and the
    independent transition check accepts that revision exactly when a planned attempt
    got an identifier the objective does not use yet. *)
Theorem operations_refine_transition o op o' : reachable o -> ob_Revision o + 1 < two64 -> apply_op o op = Ok o' ->
  o' = o \/ (ValidateTransition o o' = Ok tt <-> fresh_op o op).
Proof.
  intros Ho%reachable_inv Hr H. destruct op as [|stepID attemptID sourceDigest cands| | | | | | | | | | | |].
  2: { right. cbn [apply_op fresh_op] in *. apply rbind_ok in H as ([o1 r] & H & [= <-]). cbn [fst]. split.
       - intros Hv Hused. by rewrite (invalid_transition o o1 (PlanAttempt_reused _ _ _ _ _ _ _ H Ho Hused)) in Hv.
       - intros Hf. by apply (PlanAttempt_good _ _ _ _ _ _ _ Ho Hr Hf H). }
  all: edestruct (apply_op_good o) as [->|[Hv _]]; [exact Ho|exact Hr| |exact H|by left|by right]; exact I.
Qed.

(** C11 History is append-only. Whatever computed them, revisions that pass the
    transition check one after another keep the identity, the scope and the policy of
    the objective and the contract of every step, only add requirements, and leave
    every attempt at its place with its source and environment; an attempt that has
    ended never changes, a fence never falls, and a finished objective never changes
    at all. *)
Theorem history_append_only o o' : stored_revisions o o' -> extends o o' /\ (terminal o = true -> o' = o).
Proof. intros H. split; [by apply stored_revisions_extend|by apply stored_revisions_terminal]. Qed.

(** C27 Acceptance by command rests on evidence: in a valid accepted objective every
    step with a contract carries a receipt of a run that exited with 0, for exactly
    that objective, step, successful attempt, contract, command, source and
    environment, and no two steps use the same operation. *)
Theorem accepted_evidence o i s : ob_Valid o = true -> ob_State o = ObjectiveAccepted -> ob_Steps o !! i = Some s ->
  st_AcceptanceContract s <> None ->
  NoDup (all_ops (ob_Steps o)) /\
  exists c a r, st_AcceptanceContract s = Some c /\ last (st_Attempts s) = Some a /\ st_AcceptanceReceipt s = Some r /\
    evidence o s c a r.
Proof. intros Ho%ob_Valid_spec Hst Hi Hc. split; [apply (oo_ops o Ho)|by eapply accepted_evidence_step]. Qed.

(** An open objective can always be cancelled: cancellation never gets stuck on a
    step, and the result is valid and finished, with every step closed. *)
Theorem Cancel_total o : reachable o -> terminal o = false -> ob_Revision o + 1 < two64 ->
  exists o', ob_Cancel o = Ok o' /\ ob_State o' = ObjectiveCancelled /\ ob_Valid o' = true /\
    Forall (fun s => st_State s <> StepPlanned /\ st_State s <> StepRunning /\ activeProvisioning s = false) (ob_Steps o').
Proof.
  intros Ho%reachable_inv Ht Hr.
  assert (Hs : Forall (step_ok (ob_Policy o)) (ob_Steps o)) by (apply Forall_lookup; intros i s Hi; by apply (inv_lookup o i s)).
  pose proof (cancel_steps_total _ _ Hs) as Htot. destruct (cancel_steps (ob_Steps o)) as [steps|] eqn:E; [|done].
  assert (H : ob_Cancel o = Ok (revise o ObjectiveCancelled steps)) by (unfold ob_Cancel; by rewrite Ht, E).
  destruct (not_terminal o Ht) as (_ & _ & Hn).
  pose proof (cancel_steps_ok _ _ _ Hs (inv_step o Ho) (inv_cancel o Ho Hn) E) as Hall.
  destruct (ob_Cancel_good o _ Ho Hr H) as [_ Hinv]. eexists. split_and!; [done|done|by apply ob_Valid_spec, (inv_ok _ Hinv)|].
  cbn [revise ob_Steps]. apply Forall_lookup. intros i s' Hi'. destruct (Forall2_lookup_r _ _ _ _ _ Hall Hi') as (s & _ & Hc).
  destruct Hc as (_ & _ & _ & _ & _ & _ & Ha & Hst & _). by destruct Hst as [-> |[-> | ->]].
Qed.

(** A command digest identifies the command: two argument vectors with the same
    digest are equal, however their arguments are cut, or they exhibit a collision
    of SHA-256. *)
Theorem CommandDigest_binds argv argv' d : CommandDigest argv = Ok d -> CommandDigest argv' = Ok d ->
  argv = argv' \/ (command_text argv <> command_text argv' /\ Sum256 (command_text argv) = Sum256 (command_text argv')).
Proof.
  intros [Ha ->]%CommandDigest_ok [Hb E]%CommandDigest_ok. apply digest_string_inj in E.
  destruct (decide (command_text argv = command_text argv')) as [Et|Hn]; [left|by right].
  by apply command_text_inj.
Qed.

(** Two steps whose attempts ran on the isolated runner can never be accepted
    together: their receipts carry no operation, and the check for repeated
    operations takes the two empty identifiers for the same one. *)
Theorem isolated_steps_never_accepted o receipts i j s t a b : i <> j ->
  ob_Steps o !! i = Some s -> ob_Steps o !! j = Some t -> last (st_Attempts s) = Some a -> last (st_Attempts t) = Some b ->
  at_Class a = ClassIsolatedRunner -> at_Class b = ClassIsolatedRunner -> is_ok (AcceptWithEvidence o receipts) = false.
Proof.
  intros Hne Hi Hj Ha Hb Hca Hcb. destruct (AcceptWithEvidence o receipts) as [o'|] eqn:H; [|done]. exfalso. revert H.
  unfold AcceptWithEvidence. intros [Hg H]%reject_ok. apply reject_ok in H as [_ H].
  apply rbind_ok in H as (steps & Hsteps%accept_receipts_steps & H). destruct (ob_Valid (revise _ _ _)) eqn:Hv; [|done].
  clear H. apply ob_Valid_spec in Hv. rewrite !orb_false_iff, !negb_false_iff in Hg. destruct Hg as [[[_ _] Hmode] Hfirst].
  assert (Hop : forall k u c, ob_Steps o !! k = Some u -> last (st_Attempts u) = Some c -> at_Class c = ClassIsolatedRunner ->
    exists u', steps !! k = Some u' /\ step_ops u' = [""]).
  { intros k u c Hk Hl Hc. destruct (Forall2_lookup_l _ _ _ _ _ Hsteps Hk) as (u' & Hk' & Hu'). exists u'. split; [done|].
    assert (Hct : st_AcceptanceContract u' <> None).
    { assert (E : st_AcceptanceContract u' = st_AcceptanceContract u) by (by destruct Hu' as [->|[r ->]]). rewrite E.
      apply mode_spec in Hmode as [Hm|Hm]; [|rewrite Forall_lookup in Hm; by apply (Hm k)].
      destruct (ob_Steps o) as [|v l]; [done|]. apply Forall_cons in Hm as [Hm _]. by rewrite Hm in Hfirst. }
    destruct (accepted_evidence_step _ k u' Hv eq_refl Hk' Hct) as (c1 & a1 & r1 & _ & Hl1 & Hr1 & Hed).
    assert (a1 = c) as -> by (destruct Hu' as [->|[r ->]]; cbn [set_receipt st_Attempts] in Hl1; congruence).
    unfold step_ops. rewrite Hr1. f_equal. by apply (ed_operation _ _ _ _ _ Hed), (ed_runner _ _ _ _ _ Hed). }
  destruct (Hop i s a Hi Ha Hca) as (s' & Hi' & Es), (Hop j t b Hj Hb Hcb) as (t' & Hj' & Et).
  pose proof (oo_ops _ Hv) as Hnd. cbn [revise ob_Steps] in Hnd.
  destruct (Nat.lt_total i j) as [Hlt|[Heq|Hlt]]; [by eapply (all_ops_two steps i j)|done|by eapply (all_ops_two steps j i)].
Qed.
