(* ===== verification/DevelopmentExamples.v ===== *)
(** * A run of an objective

    One command objective from its creation to its acceptance, and the theorems of
    [Development] at its states. *)

From stdpp Require Import relations.
From S2P Require Import Prelude GoStrings GoRegexp GoJson GoReflect Sha256 DevCapability DevResolver DevAttempt DevProvision DevObjective DevOps DevInv DevPreserve DevSteps DevFinish DevHistory DevRecord DevRoundtrip Development.

(** Operations one after another, with the conditions of [reach_step] checked. *)
Definition step_checked (acc : option Objective) (op : obj_op) : option Objective :=
  match acc with
  | None => None
  | Some o =>
      let fresh := match op with OpPlan _ attemptID _ _ => bool_decide (TrimSpace attemptID ∉ all_ids (ob_Steps o)) | _ => true end in
      if fresh && (ob_Revision o + 1 <? two64) then match apply_op o op with Ok o' => Some o' | Err _ => None end else None
  end.

Lemma run_reachable ops o o' : reachable o -> fold_left step_checked ops (Some o) = Some o' -> reachable o'.
Proof.
  assert (Hnone : forall ops, fold_left step_checked ops None = None) by (intros l; by induction l).
  revert o. induction ops as [|op ops IH]; intros o Ho; cbn [fold_left]; [by intros [= <-]|].
  unfold step_checked at 2. destruct (_ && (_ <? _)) eqn:Eg; [|by rewrite Hnone]. apply andb_true_iff in Eg as [Ef Er%Z.ltb_lt].
  destruct (apply_op o op) as [o1|] eqn:E; [|by rewrite Hnone]. intros H. apply (IH o1); [|done].
  eapply reach_step; [exact Ho|done| |exact E]. destruct op; try done. by apply bool_decide_eq_true in Ef.
Qed.

(** ** The run *)
Definition demo_scope : ObjectiveScope := {| sc_Project := "aeontra"; sc_Target := "main"; sc_Anchor := zero_anchor |}.
Definition demo_source : string := digest_string "v1".
Definition demo_body : string := "mb_" +:+ "00112233445566778899aabbccddeeff".
Definition demo_argv : list string := ["go"; "test"; "./..."].
Definition demo_contract : CommandAcceptanceContract :=
  match NewCommandAcceptanceContract demo_argv demo_source demo_body (digest_string "goal") demo_reqs ["log-1"] with
  | Ok c => c
  | Err _ => {| ct_CommandDigest := ""; ct_SourceDigest := ""; ct_PrivateBodyRef := ""; ct_PrivateBodyDigest := "";
                ct_RequiredCapabilities := []; ct_ArtifactRefs := [] |}
  end.
Definition demo_specs : list StepSpec :=
  [{| sp_StepID := "s1"; sp_Requirements := demo_reqs; sp_AcceptanceContract := Some demo_contract |}].
Definition demo_objective : Objective := Eval vm_compute in
  match NewScopedObjective "obj-1" demo_scope demo_policy demo_specs with
  | Ok o => o
  | Err _ => {| ob_Version := 0; ob_ObjectiveID := ""; ob_Revision := 0; ob_State := ""; ob_Scope := zero_scope;
                ob_Policy := demo_policy; ob_Steps := [] |}
  end.
Definition demo_ops : list obj_op :=
  [OpPlan "s1" "a1" demo_source [demo_env2; demo_env1]; OpStart "s1"; OpComplete "s1"].
Definition demo_running : Objective := Eval vm_compute in
  default demo_objective (fold_left step_checked (take 2 demo_ops) (Some demo_objective)).
Definition demo_pending : Objective := Eval vm_compute in
  default demo_objective (fold_left step_checked demo_ops (Some demo_objective)).
Definition demo_evidence : CommandOperationEvidence :=
  {| ev_OperationID := "eo_" +:+ "00112233445566778899aabbccddeeff"; ev_EvidenceProvider := ""; ev_RunnerEffectID := "";
     ev_RunnerRunID := 0; ev_RunnerReceiptDigest := ""; ev_CommandDigest := ct_CommandDigest demo_contract;
     ev_SourceDigest := demo_source; ev_EnvironmentDigest := env_Digest demo_env1; ev_PrivateBodyRef := demo_body;
     ev_PrivateBodyDigest := digest_string "goal"; ev_ExitCode := 0; ev_ArtifactRefs := ["log-1"] |}.
Definition demo_accepted : Objective := Eval vm_compute in
  match NewCommandAcceptanceReceipt demo_pending "s1" demo_evidence with
  | Ok r => match AcceptWithEvidence demo_pending [r] with Ok o => o | Err _ => demo_objective end
  | Err _ => demo_objective
  end.

Example demo_states :
  (ob_State demo_objective, ob_State demo_running, ob_State demo_pending, ob_State demo_accepted) =
  (ObjectivePlanned, ObjectiveRunning, ObjectiveAcceptancePending, ObjectiveAccepted).
Proof. reflexivity. Qed.

Lemma demo_objective_reachable : reachable demo_objective.
Proof. apply (reach_scoped "obj-1" demo_scope demo_policy demo_specs). vm_compute. reflexivity. Qed.
Lemma demo_running_reachable : reachable demo_running.
Proof. apply (run_reachable (take 2 demo_ops) demo_objective); [apply demo_objective_reachable|]. vm_compute. reflexivity. Qed.

(** ** Witnesses *)
Lemma objective_invariant_witness : ob_Valid demo_running = true.
Proof. apply (objective_invariant demo_running). apply demo_running_reachable. Defined.

Lemma operations_refine_transition_witness : ValidateTransition demo_running demo_pending = Ok tt <-> fresh_op demo_running (OpComplete "s1").
Proof.
  destruct (operations_refine_transition demo_running (OpComplete "s1") demo_pending) as [E|E].
  - apply demo_running_reachable.
  - vm_compute. reflexivity.
  - vm_compute. reflexivity.
  - discriminate (f_equal ob_State E).
  - exact E.
Defined.

Lemma demo_stored : stored_revisions demo_running demo_accepted.
Proof.
  apply (rtc_l _ _ demo_pending); [vm_compute; reflexivity|]. apply rtc_once. vm_compute. reflexivity.
Qed.

Lemma history_append_only_witness : extends demo_running demo_accepted /\ (terminal demo_running = true -> demo_accepted = demo_running).
Proof. apply (history_append_only demo_running demo_accepted). apply demo_stored. Defined.

Definition demo_step : ObjectiveStep := Eval vm_compute in
  default {| st_StepID := ""; st_Requirements := []; st_AcceptanceContract := None; st_AcceptanceReceipt := None;
             st_Attempts := []; st_Provisioning := []; st_State := "" |} (ob_Steps demo_accepted !! 0%nat).

Lemma accepted_evidence_witness : exists c a r, st_AcceptanceContract demo_step = Some c /\ last (st_Attempts demo_step) = Some a /\
  st_AcceptanceReceipt demo_step = Some r /\ evidence demo_accepted demo_step c a r.
Proof.
  apply (accepted_evidence demo_accepted 0 demo_step).
  - vm_compute. reflexivity.
  - reflexivity.
  - reflexivity.
  - discriminate.
Defined.

Lemma Cancel_total_witness : exists o', ob_Cancel demo_running = Ok o' /\ ob_State o' = ObjectiveCancelled.
Proof.
  destruct (Cancel_total demo_running) as (o' & H1 & H2 & _).
  - apply demo_running_reachable.
  - reflexivity.
  - reflexivity.
  - exists o'. split; [exact H1|exact H2].
Defined.

Lemma CommandDigest_binds_witness : demo_argv = demo_argv \/
  (command_text demo_argv <> command_text demo_argv /\ Sum256 (command_text demo_argv) = Sum256 (command_text demo_argv)).
Proof.
  apply (CommandDigest_binds demo_argv demo_argv (digest_string (command_text demo_argv))); vm_compute; reflexivity.
Defined.

(** ** Stored records *)
Lemma demo_widths : widths demo_accepted.
Proof.
  unfold widths, demo_accepted, in_uint64, two64. cbn [ob_Revision ob_Steps]. split; [lia|]. apply Forall_singleton.
  unfold step_widths. cbn [st_Attempts st_Provisioning st_AcceptanceReceipt]. split_and!; [|constructor|].
  - apply Forall_singleton. cbn [at_EnvironmentGeneration]. unfold in_uint64, two64. lia.
  - intros r [= <-]. cbn [rt_RunnerRunID]. unfold in_int64, two63. lia.
Qed.

Lemma record_roundtrip_witness :
  exists body, MarshalRecord demo_accepted = Ok (body, ObjectiveRecordDigest body) /\ ParseObjectiveRecord body = Ok demo_accepted.
Proof.
  apply record_roundtrip; [vm_compute; reflexivity|exact demo_widths|vm_compute; congruence].
Defined.

(** A record with white space, a member in capitals and a repeated one. *)
Definition demo_text : string := Eval vm_compute in
  "{" +:+ dquote +:+ "VERSION" +:+ dquote +:+ " : 7, " +:+ drop_bytes 1 (Marshal c_record (objective_record demo_objective)) +:+ " ".

Lemma parsed_record_canonical_witness : ParseObjectiveRecord demo_text = Ok demo_objective /\ ob_Valid demo_objective = true.
Proof.
  assert (H : ParseObjectiveRecord demo_text = Ok demo_objective) by (vm_compute; reflexivity).
  split; [exact H|]. exact (proj1 (parsed_record_canonical demo_text demo_objective H)).
Defined.
