(* ===== verification/DevRequest.v ===== *)
(** * Development requests: [internal/workqueue/development_request.go], the record

    The lifecycle metadata of a development request, its check, the transitions
    between revisions, and its stored form with the digest. The tables are in
    [DevTables]. *)

From S2P Require Import Prelude GoStrings GoRegexp GoJson GoReflect GoRecord Sha256 DevCapability DevAttempt DevProvision DevObjective DevOps DevInv DevRecord DevRoundtrip.

Definition MaxDevelopmentRequests : Z := 1024.
Definition MaxDevelopmentRequestRecordBytes : Z := 4096.
Definition developmentRequestDigestDomain : string := "aeontra-development-request-v1" +:+ nul.
Definition maxDevelopmentRequestRevision : Z := Z.shiftl 1 20.
Definition DevelopmentRequestIdempotencyTTL : duration := 30 * 24 * Hour.

Definition developmentRequestIDPattern : regexp := whole (Seq (lit "dr_") (times 32 (Class hexlow))).
Definition developmentRequestDevice : regexp := whole (Seq (lit "ed_") (times 32 (Class hexlow))).
Definition developmentRequestGoal : regexp := whole (Seq (lit "mb_") (times 32 (Class hexlow))).
Definition developmentRequestOp : regexp := whole (Seq (lit "eo_") (times 32 (Class hexlow))).
Definition developmentRequestProcess : regexp := whole (Seq (lit "pr_") (times 32 (Class hexlow))).
Definition developmentRequestDigest : regexp := whole (Seq (lit "sha256:") (times 64 (Class hexlow))).
(** [taskProjectPattern] and [taskTargetPattern] of task.go *)
Definition taskProjectPattern : regexp := scope_pattern 61.
Definition taskTargetPattern : regexp := scope_pattern 30.

Abbreviation DevelopmentRequestState := string (only parsing).
Definition DevelopmentRequestPreparing : DevelopmentRequestState := "preparing".
Definition DevelopmentRequestActive : DevelopmentRequestState := "active".
Definition DevelopmentRequestCancelling : DevelopmentRequestState := "cancelling".
Definition DevelopmentRequestCompleted : DevelopmentRequestState := "completed".
Definition DevelopmentRequestFailed : DevelopmentRequestState := "failed".
Definition DevelopmentRequestCancelled : DevelopmentRequestState := "cancelled".
Definition DevelopmentRequestAwaitingReasoning : DevelopmentRequestState := "awaiting_reasoning".

Abbreviation DevelopmentRequestReason := string (only parsing).
Definition DevelopmentRequestReasonNone : DevelopmentRequestReason := "".
Definition DevelopmentRequestReasonInspectionPending : DevelopmentRequestReason := "inspection_pending".
Definition DevelopmentRequestReasonCapabilityMissing : DevelopmentRequestReason := "capability_missing".
Definition DevelopmentRequestReasonSourceChanged : DevelopmentRequestReason := "source_changed".
Definition DevelopmentRequestReasonCodeFailure : DevelopmentRequestReason := "code_failure".
Definition DevelopmentRequestReasonNewRequirement : DevelopmentRequestReason := "new_requirement".
Definition DevelopmentRequestReasonOperationFailed : DevelopmentRequestReason := "operation_failed".
Definition DevelopmentRequestReasonOperationUnknown : DevelopmentRequestReason := "operation_unknown".
Definition DevelopmentRequestReasonReconciliationRequired : DevelopmentRequestReason := "reconciliation_required".
Definition DevelopmentRequestReasonSemanticAcceptancePending : DevelopmentRequestReason := "semantic_acceptance_pending".
Definition DevelopmentRequestReasonCancellationRequested : DevelopmentRequestReason := "cancellation_requested".

Record DevelopmentRequest := {
  dr_ID : string; dr_Revision : Z; dr_KeyDigest : string; dr_Alias : string; dr_Target : string; dr_DeviceID : string;
  dr_BodyRef : string; dr_BodyDigest : string; dr_InspectionOperationID : string; dr_ObjectiveID : string;
  dr_ActiveOperationID : string; dr_ProcessID : string; dr_State : DevelopmentRequestState;
  dr_Reason : DevelopmentRequestReason }.
#[export] Instance DevelopmentRequest_eq_dec : EqDecision DevelopmentRequest.
Proof. solve_decision. Defined.

Definition validDevelopmentRequestState (state : DevelopmentRequestState) : bool :=
  bool_decide (state ∈ [DevelopmentRequestPreparing; DevelopmentRequestActive; DevelopmentRequestCancelling;
                        DevelopmentRequestCompleted; DevelopmentRequestFailed; DevelopmentRequestCancelled;
                        DevelopmentRequestAwaitingReasoning]).

Definition validDevelopmentRequestReason (reason : DevelopmentRequestReason) : bool :=
  bool_decide (reason ∈ [DevelopmentRequestReasonNone; DevelopmentRequestReasonInspectionPending;
                         DevelopmentRequestReasonCapabilityMissing; DevelopmentRequestReasonSourceChanged;
                         DevelopmentRequestReasonCodeFailure; DevelopmentRequestReasonNewRequirement;
                         DevelopmentRequestReasonOperationFailed; DevelopmentRequestReasonOperationUnknown;
                         DevelopmentRequestReasonReconciliationRequired; DevelopmentRequestReasonSemanticAcceptancePending;
                         DevelopmentRequestReasonCancellationRequested]).

Definition validDevelopmentRequestReasonForState (state : DevelopmentRequestState) (reason : DevelopmentRequestReason) : bool :=
  if state =? DevelopmentRequestAwaitingReasoning then
    (reason =? DevelopmentRequestReasonSemanticAcceptancePending) || (reason =? DevelopmentRequestReasonCodeFailure) ||
    (reason =? DevelopmentRequestReasonNewRequirement) || (reason =? DevelopmentRequestReasonSourceChanged)
  else if state =? DevelopmentRequestCancelling then
    (reason =? DevelopmentRequestReasonCancellationRequested) || (reason =? DevelopmentRequestReasonReconciliationRequired)
  else if state =? DevelopmentRequestCancelled then
    (reason =? DevelopmentRequestReasonNone) || (reason =? DevelopmentRequestReasonCancellationRequested)
  else if state =? DevelopmentRequestCompleted then reason =? DevelopmentRequestReasonNone
  else if state =? DevelopmentRequestFailed then
    (reason <>? DevelopmentRequestReasonNone) && (reason <>? DevelopmentRequestReasonSemanticAcceptancePending) &&
    (reason <>? DevelopmentRequestReasonCancellationRequested)
  else (reason <>? DevelopmentRequestReasonSemanticAcceptancePending) &&
       (reason <>? DevelopmentRequestReasonCancellationRequested).

Definition ValidObjectiveID (value : string) : bool := MatchString identityPattern (TrimSpace value).
Definition validDevelopmentRequestObjectiveID (value : string) : bool :=
  (value =? TrimSpace value) && ValidObjectiveID value.

(** [DevelopmentRequest.Valid] *)
Definition dr_Valid (r : DevelopmentRequest) : bool :=
  if negb (MatchString developmentRequestIDPattern (dr_ID r)) || (dr_Revision r =? 0) ||
     (maxDevelopmentRequestRevision <? dr_Revision r) || negb (MatchString developmentRequestDigest (dr_KeyDigest r)) ||
     negb (MatchString taskProjectPattern (dr_Alias r)) || negb (MatchString taskTargetPattern (dr_Target r)) ||
     negb (MatchString developmentRequestDevice (dr_DeviceID r)) || negb (MatchString developmentRequestGoal (dr_BodyRef r)) ||
     negb (MatchString developmentRequestDigest (dr_BodyDigest r)) || negb (validDevelopmentRequestState (dr_State r)) ||
     negb (validDevelopmentRequestReason (dr_Reason r)) then false
  else if (dr_InspectionOperationID r <>? "") && negb (MatchString developmentRequestOp (dr_InspectionOperationID r)) ||
          (dr_ObjectiveID r <>? "") && negb (validDevelopmentRequestObjectiveID (dr_ObjectiveID r)) ||
          (dr_ActiveOperationID r <>? "") && negb (MatchString developmentRequestOp (dr_ActiveOperationID r)) ||
          (dr_ProcessID r <>? "") && negb (MatchString developmentRequestProcess (dr_ProcessID r)) then false
  else if (dr_State r =? DevelopmentRequestCancelling) && (dr_Reason r =? DevelopmentRequestReasonReconciliationRequired) &&
          (dr_ProcessID r =? "") then false
  else validDevelopmentRequestReasonForState (dr_State r) (dr_Reason r).

Definition validInitialDevelopmentRequest (r : DevelopmentRequest) : bool :=
  dr_Valid r && (dr_Revision r =? 1) && (dr_State r =? DevelopmentRequestPreparing) &&
  (dr_Reason r =? DevelopmentRequestReasonNone) && (dr_InspectionOperationID r =? "") && (dr_ObjectiveID r =? "") &&
  (dr_ActiveOperationID r =? "") && (dr_ProcessID r =? "").

Definition developmentRequestTerminal (state : DevelopmentRequestState) : bool :=
  (state =? DevelopmentRequestCompleted) || (state =? DevelopmentRequestFailed) || (state =? DevelopmentRequestCancelled).

Definition setOnceDevelopmentRequestID (before after : string) (valid : string -> bool) : bool :=
  if before =? "" then true else (before =? after) && valid after.

Definition validDevelopmentRequestStateTransition (before after : DevelopmentRequestState) : bool :=
  if before =? after then true
  else if before =? DevelopmentRequestPreparing then
    (after =? DevelopmentRequestActive) || (after =? DevelopmentRequestCancelling) || (after =? DevelopmentRequestFailed) ||
    (after =? DevelopmentRequestCancelled)
  else if before =? DevelopmentRequestActive then
    (after =? DevelopmentRequestCancelling) || (after =? DevelopmentRequestCompleted) || (after =? DevelopmentRequestFailed) ||
    (after =? DevelopmentRequestCancelled) || (after =? DevelopmentRequestAwaitingReasoning)
  else if before =? DevelopmentRequestCancelling then
    (after =? DevelopmentRequestCompleted) || (after =? DevelopmentRequestFailed) || (after =? DevelopmentRequestCancelled)
  else if before =? DevelopmentRequestAwaitingReasoning then
    (after =? DevelopmentRequestCancelling) || (after =? DevelopmentRequestCompleted) || (after =? DevelopmentRequestFailed) ||
    (after =? DevelopmentRequestCancelled)
  else false.

Definition sameDevelopmentRequestBinding (l r : DevelopmentRequest) : bool :=
  (dr_KeyDigest l =? dr_KeyDigest r) && (dr_Alias l =? dr_Alias r) && (dr_Target l =? dr_Target r) &&
  (dr_DeviceID l =? dr_DeviceID r) && (dr_BodyRef l =? dr_BodyRef r) && (dr_BodyDigest l =? dr_BodyDigest r).

Definition validDevelopmentRequestTransition (before after : DevelopmentRequest) : bool :=
  if negb (dr_Valid before) || negb (dr_Valid after) || developmentRequestTerminal (dr_State before) ||
     (dr_ID before <>? dr_ID after) || (dr_KeyDigest before <>? dr_KeyDigest after) || (dr_Alias before <>? dr_Alias after) ||
     (dr_Target before <>? dr_Target after) || (dr_DeviceID before <>? dr_DeviceID after) ||
     (dr_BodyRef before <>? dr_BodyRef after) || (dr_BodyDigest before <>? dr_BodyDigest after) ||
     (dr_Revision after <>? wrapU64 (dr_Revision before + 1)) ||
     negb (validDevelopmentRequestStateTransition (dr_State before) (dr_State after)) ||
     negb (setOnceDevelopmentRequestID (dr_InspectionOperationID before) (dr_InspectionOperationID after)
             (MatchString developmentRequestOp)) ||
     negb (setOnceDevelopmentRequestID (dr_ObjectiveID before) (dr_ObjectiveID after) validDevelopmentRequestObjectiveID) ||
     negb (setOnceDevelopmentRequestID (dr_ProcessID before) (dr_ProcessID after) (MatchString developmentRequestProcess))
  then false
  else negb ((dr_State before =? DevelopmentRequestCancelling) &&
             (dr_Reason before =? DevelopmentRequestReasonReconciliationRequired) &&
             (dr_State after =? DevelopmentRequestCancelling) &&
             (dr_Reason after <>? DevelopmentRequestReasonReconciliationRequired)).

(** ** The stored form *)
Definition request_type : gtype :=
  TStruct [req "request_id" c_string; req "revision" c_uint64; req "key_digest" c_string; req "alias" c_string;
           req "target" c_string; req "device_id" c_string; req "body_ref" c_string; req "body_digest" c_string;
           omit "inspection_operation_id" c_string; omit "objective_id" c_string; omit "active_operation_id" c_string;
           omit "process_id" c_string; req "state" c_string; omit "reason" c_string].
Definition request_to (r : DevelopmentRequest) : gval :=
  VStruct [c_to c_string (dr_ID r); c_to c_uint64 (dr_Revision r); c_to c_string (dr_KeyDigest r); c_to c_string (dr_Alias r);
           c_to c_string (dr_Target r); c_to c_string (dr_DeviceID r); c_to c_string (dr_BodyRef r);
           c_to c_string (dr_BodyDigest r); c_to c_string (dr_InspectionOperationID r); c_to c_string (dr_ObjectiveID r);
           c_to c_string (dr_ActiveOperationID r); c_to c_string (dr_ProcessID r); c_to c_string (dr_State r);
           c_to c_string (dr_Reason r)].
Definition request_of (v : gval) : option DevelopmentRequest :=
  match v with
  | VStruct [id; revision; key; alias; target; device; body; bodyDigest; inspection; objective; active; process; state; reason] =>
      id ← c_of c_string id; revision ← c_of c_uint64 revision; key ← c_of c_string key; alias ← c_of c_string alias;
      target ← c_of c_string target; device ← c_of c_string device; body ← c_of c_string body;
      bodyDigest ← c_of c_string bodyDigest; inspection ← c_of c_string inspection; objective ← c_of c_string objective;
      active ← c_of c_string active; process ← c_of c_string process; state ← c_of c_string state;
      reason ← c_of c_string reason;
      Some {| dr_ID := id; dr_Revision := revision; dr_KeyDigest := key; dr_Alias := alias; dr_Target := target;
              dr_DeviceID := device; dr_BodyRef := body; dr_BodyDigest := bodyDigest; dr_InspectionOperationID := inspection;
              dr_ObjectiveID := objective; dr_ActiveOperationID := active; dr_ProcessID := process; dr_State := state;
              dr_Reason := reason |}
  | _ => None
  end.
Lemma request_law r : request_of (request_to r) = Some r.
Proof. destruct r. cbn -[c_to c_of]. by rewrite !c_law. Qed.
Definition c_request : codec DevelopmentRequest :=
  {| c_type := request_type; c_to := request_to; c_of := request_of; c_law := request_law |}.

Definition request_body_bounded (body : string) : bool :=
  negb ((Len body =? 0) || (MaxDevelopmentRequestRecordBytes <? Len body)).

Definition ErrRequest : error := "workqueue: development request is invalid".
Definition ErrRequestUnavailable : error := "workqueue: development request record is unavailable".
Definition ErrRequestCorrupt : error := "workqueue: development request record is corrupt".

Definition marshalDevelopmentRequest (r : DevelopmentRequest) : result (string * string) :=
  check reject_if (negb (dr_Valid r)) ErrRequest in
  let body := Marshal c_request r in
  check reject_if (negb (request_body_bounded body)) ErrRequestUnavailable in
  Ok (body, digest_string (developmentRequestDigestDomain +:+ body)).

Definition developmentRequestRecordDigest (body : string) : string :=
  if request_body_bounded body then digest_string (developmentRequestDigestDomain +:+ body) else "".

(** A row of [development_requests], without its primary key. *)
Record RequestRow := {
  rq_key_digest : string; rq_revision : Z; rq_state : string; rq_record_digest : string; rq_record_json : string;
  rq_created_at : Z; rq_updated_at : Z }.

(** [scanDevelopmentRequest] on a row: its columns must agree with the record and the
    record must be canonical. *)
Definition scanDevelopmentRequest (id : string) (row : RequestRow) : result DevelopmentRequest :=
  check reject_if ((rq_revision row <? 1) || (maxDevelopmentRequestRevision <? rq_revision row) ||
                   (rq_record_digest row =? "") ||
                   (developmentRequestRecordDigest (rq_record_json row) <>? rq_record_digest row)) ErrRequestCorrupt in
  match Unmarshal c_request (rq_record_json row) with
  | None => Err ErrRequestCorrupt
  | Some request =>
      check reject_if (negb (dr_Valid request) || (dr_ID request <>? id) || (dr_Revision request <>? rq_revision row) ||
                       (dr_State request <>? rq_state row) || (dr_KeyDigest request <>? rq_key_digest row)) ErrRequestCorrupt in
      match marshalDevelopmentRequest request with
      | Err _ => Err ErrRequestCorrupt
      | Ok (canonicalBody, canonicalDigest) =>
          check reject_if ((canonicalDigest <>? rq_record_digest row) || (canonicalBody <>? rq_record_json row))
            ErrRequestCorrupt in
          Ok request
      end
  end.

(** ** Requests are read back *)
Lemma plain_objective_id s : validDevelopmentRequestObjectiveID s = true -> plain s.
Proof.
  unfold validDevelopmentRequestObjectiveID, ValidObjectiveID. intros [Es%bool_decide_eq_true H]%andb_true_iff.
  rewrite <- Es in H. by apply plain_identity.
Qed.

Lemma request_ok r : dr_Valid r = true -> 0 <= dr_Revision r -> val_ok (c_type c_request) (c_to c_request r).
Proof.
  unfold dr_Valid. intros H Hr. destruct (_ || _) eqn:E1 in H; [done|]. destruct (_ || _) eqn:E2 in H; [done|]. clear H.
  apply orb_false_iff in E2 as [[[E2 E3]%orb_false_iff E4]%orb_false_iff E5].
  apply plain_optional in E2; [|apply (plain_hex_id "eo_"); plain_const].
  apply plain_optional in E3; [|apply plain_objective_id].
  apply plain_optional in E4; [|apply (plain_hex_id "eo_"); plain_const].
  apply plain_optional in E5; [|apply (plain_hex_id "pr_"); plain_const]. breflect.
  repeat match goal with
  | H : MatchString developmentRequestIDPattern _ = true |- _ => apply (plain_hex_id "dr_") in H; [|plain_const]
  | H : MatchString developmentRequestDevice _ = true |- _ => apply (plain_hex_id "ed_") in H; [|plain_const]
  | H : MatchString developmentRequestGoal _ = true |- _ => apply (plain_hex_id "mb_") in H; [|plain_const]
  | H : MatchString developmentRequestDigest _ = true |- _ => apply (plain_hex_id "sha256:") in H; [|plain_const]
  | H : MatchString taskProjectPattern _ = true |- _ => apply plain_scope in H
  | H : MatchString taskTargetPattern _ = true |- _ => apply plain_scope in H
  end.
  assert (plain (dr_State r)) by (match goal with H : validDevelopmentRequestState _ = true |- _ => plain_listed H end).
  assert (plain (dr_Reason r)) by (match goal with H : validDevelopmentRequestReason _ = true |- _ => plain_listed H end).
  cbn [c_type c_to c_request]. unfold request_type, request_to. each_field. apply uint64_ok.
  unfold in_uint64, two64, maxDevelopmentRequestRevision in *. change (Z.shiftl 1 20) with 1048576 in *. lia.
Qed.

Lemma request_type_ok : type_ok request_type = true.
Proof. vm_compute. reflexivity. Qed.

Lemma marshal_request_inv r body digest : marshalDevelopmentRequest r = Ok (body, digest) ->
  dr_Valid r = true /\ body = Marshal c_request r /\ request_body_bounded body = true /\
  digest = developmentRequestRecordDigest body /\ digest <> "".
Proof.
  unfold marshalDevelopmentRequest. intros [Hv%negb_false_iff [Hb%negb_false_iff [= <- <-]]%reject_ok]%reject_ok.
  unfold developmentRequestRecordDigest. rewrite Hb. done.
Qed.

Lemma request_revision r : dr_Valid r = true -> dr_Revision r <> 0 /\ dr_Revision r <= maxDevelopmentRequestRevision.
Proof. unfold dr_Valid. intros H. destruct (_ || _) eqn:E in H; [done|]. by breflect. Qed.

(** The row that is written for a request. *)
Definition request_row (r : DevelopmentRequest) (body digest : string) (created updated : Z) : RequestRow :=
  {| rq_key_digest := dr_KeyDigest r; rq_revision := dr_Revision r; rq_state := dr_State r; rq_record_digest := digest;
     rq_record_json := body; rq_created_at := created; rq_updated_at := updated |}.

(** Reading a row gives a request exactly when the row is the one written for it. *)
Lemma scan_request_spec id row r : scanDevelopmentRequest id row = Ok r <->
  1 <= dr_Revision r /\ dr_ID r = id /\ marshalDevelopmentRequest r = Ok (rq_record_json row, rq_record_digest row) /\
  row = request_row r (rq_record_json row) (rq_record_digest row) (rq_created_at row) (rq_updated_at row).
Proof.
  unfold scanDevelopmentRequest. rewrite reject_ok. split.
  - intros [Hcols Hrest]. breflect. destruct (Unmarshal c_request (rq_record_json row)) as [r'|]; [|done].
    apply reject_ok in Hrest as [Hsame Hrest]. breflect.
    destruct (marshalDevelopmentRequest r') as [[body digest]|] eqn:Em; [|done].
    apply reject_ok in Hrest as [Hcanon [= <-]]. breflect. subst body digest. split_and!; [lia|done|done|].
    destruct row. unfold request_row. cbn in *. by subst.
  - intros (Hr & Hid & Hm & Hrow). pose proof (marshal_request_inv _ _ _ Hm) as (Hv & Hb & Hbound & Hd & Hne).
    pose proof (request_revision r Hv) as [_ Hmax].
    assert (Hu : Unmarshal c_request (rq_record_json row) = Some r).
    { rewrite Hb. apply unmarshal_marshal; [done|exact request_type_ok|apply request_ok; [done|lia]]. }
    rewrite Hu, Hm. rewrite Hrow. cbn [request_row rq_revision rq_record_digest rq_record_json rq_state rq_key_digest].
    rewrite <- Hd, (bool_decide_false (rq_record_digest row = "")), !(bool_decide_true (_ = _)) by done.
    rewrite (proj2 (Z.ltb_ge _ _) Hr), (proj2 (Z.ltb_ge _ _) Hmax), Hv. done.
Qed.
