(* ===== verification/DevTables.v ===== *)
(** * The development tables of the queue database

    [internal/workqueue/development_request.go] and [development_objective.go]: the
    tables of requests and objectives beside the jobs of the queue, and the
    operations on them as computations of [Effects]. Requests and objectives are
    replaced by compare-and-swap on their revision and record digest; old ones are
    pruned when a new one is admitted. The clock is an argument. The queries that
    filter on a JSON path of the record ([ProjectDevelopmentRequests],
    [DevelopmentProvisionOwner]) are read-only and left out. *)

From S2P Require Import Prelude GoStrings GoRegexp GoJson GoReflect Sha256 Effects PolicyScan WorkqueueTypes WorkqueueRows WorkqueueStore.
From S2P Require Import DevCapability DevAttempt DevProvision DevObjective DevOps DevInv DevRecord DevRoundtrip DevRequest.

Definition MaxDevelopmentObjectives : Z := 1024.
Definition DevelopmentObjectiveRetentionTTL : duration := 30 * 24 * Hour.

(** A row of [development_objectives], without its primary key. *)
Record ObjectiveRow := {
  ow_revision : Z; ow_state : string; ow_record_digest : string; ow_record_json : string;
  ow_created_at : Z; ow_updated_at : Z }.

Record DevDB := {
  dd_requests : gmap string RequestRow;
  dd_objectives : gmap string ObjectiveRow;
  dd_queue : DB;
}.
Definition with_requests (requests : gmap string RequestRow) (db : DevDB) : DevDB :=
  {| dd_requests := requests; dd_objectives := dd_objectives db; dd_queue := dd_queue db |}.
Definition with_objectives (objectives : gmap string ObjectiveRow) (db : DevDB) : DevDB :=
  {| dd_requests := dd_requests db; dd_objectives := objectives; dd_queue := dd_queue db |}.

(** ** Transactions *)
(** The statements of a transaction, on a copy of the database. *)
Definition on_copy {A} (db : DevDB) (body : M DevDB A) : M DevDB (A * DevDB) :=
  fun s fs =>
    match body db fs with
    | (Ok a, db', fs') => (Ok (a, db'), s, fs')
    | (Err e, _, fs') => (Err e, s, fs')
    end.

(** [Begin], the statements, and a [Commit] where they ask for one ([inr]); a method
    that returns without it ([inl]) is rolled back. *)
Definition in_transaction {A} (begin_error commit_error : error) (body : M DevDB (A + A)) : M DevDB A :=
  let! s := mget in
  let! db := driver begin_error (Some s) in
  let! (outcome, db) := on_copy db body in
  match outcome with
  | inl a => mret a
  | inr a => do! driver commit_error (Some tt) in do! mput db in mret a
  end.

(** A read of the jobs table. *)
Definition on_queue {A} (m : M DB A) : M DevDB A :=
  fun s fs => let '(r, _, fs') := m (dd_queue s) fs in (r, s, fs').

(** ** Requests *)
Definition ErrRequestRead : error := "workqueue: development request read failed".

Definition read_request (row : option (string * RequestRow)) : M DevDB (option DevelopmentRequest) :=
  let! found := driver ErrRequestRead (Some row) in
  match found with
  | None => mret None
  | Some (id, r) => let! request := mlift (scanDevelopmentRequest id r) in mret (Some request)
  end.

Definition developmentRequestByID (id : string) : M DevDB (option DevelopmentRequest) :=
  let! db := mget in read_request (pair id <$> dd_requests db !! id).

(** At most one row matches: the column is unique. *)
Definition request_with_key (key : string) (db : DevDB) : option (string * RequestRow) :=
  head (filter (fun e => rq_key_digest (snd e) = key) (map_to_list (dd_requests db))).
Definition developmentRequestByKey (key : string) : M DevDB (option DevelopmentRequest) :=
  let! db := mget in read_request (request_with_key key db).

(** [DELETE FROM development_requests WHERE state IN (..) AND updated_at<=?] *)
Definition request_expired (cutoff : Z) (r : RequestRow) : bool :=
  developmentRequestTerminal (rq_state r) && (rq_updated_at r <=? cutoff).
Definition pruneExpiredDevelopmentRequests (now : time) : M DevDB unit :=
  let cutoff := UnixNano (TimeAdd now (- DevelopmentRequestIdempotencyTTL)) in
  let! db := mget in
  do! driver "workqueue: expired development request pruning failed" (Some tt) in
  mput (with_requests (filter (fun e => request_expired cutoff (snd e) = false) (dd_requests db)) db).

Definition active_requests (db : DevDB) : Z :=
  Z.of_nat (size (filter (fun e => developmentRequestTerminal (rq_state (snd e)) = false) (dd_requests db))).

(** [INSERT INTO development_requests]: refused when the id or the key is taken. *)
Definition sql_insert_request (id : string) (row : RequestRow) (db : DevDB) : option DevDB :=
  if bool_decide (is_Some (dd_requests db !! id)) || bool_decide (request_with_key (rq_key_digest row) db <> None)
  then None else Some (with_requests (<[id := row]> (dd_requests db)) db).

Definition nextDevelopmentRequestUpdatedAt (id : string) (observed : Z) : M DevDB Z :=
  let! db := mget in
  let! previous := driver "workqueue: development request update timestamp unavailable"
    (rq_updated_at <$> dd_requests db !! id) in
  if observed <=? previous then
    do! mguard (previous =? two63 - 1) "workqueue: development request update timestamp exhausted" in
    mret (previous + 1)
  else mret observed.

(** [UPDATE development_requests SET .. WHERE request_id=? AND revision=? AND
    record_digest=?], and that exactly one row was affected. *)
Definition sql_update_request (id : string) (revision : Z) (digest : string) (set : RequestRow -> RequestRow)
    (requests : gmap string RequestRow) : gmap string RequestRow * Z :=
  match requests !! id with
  | Some r => if (rq_revision r =? revision) && (rq_record_digest r =? digest) then (<[id := set r]> requests, 1)
              else (requests, 0)
  | None => (requests, 0)
  end.
Definition update_request (exec_error affected_error : error) (id : string) (revision : Z) (digest : string)
    (set : RequestRow -> RequestRow) : M DevDB unit :=
  let! db := mget in
  let! r := driver exec_error (Some (sql_update_request id revision digest set (dd_requests db))) in
  do! mput (with_requests (fst r) db) in
  let! affected := driver affected_error (Some (snd r)) in
  mguard (affected <>? 1) affected_error.

(** [SET revision=?,state=?,record_digest=?,record_json=?,updated_at=?]; a touch leaves
    the state out, which the record does not change. *)
Definition set_request (state : option string) (revision : Z) (digest body : string) (updated : Z) (r : RequestRow) : RequestRow :=
  {| rq_key_digest := rq_key_digest r; rq_revision := revision; rq_state := default (rq_state r) state;
     rq_record_digest := digest; rq_record_json := body; rq_created_at := rq_created_at r; rq_updated_at := updated |}.

Definition ErrRequestConflict : error := "workqueue: development request revision conflict".
Definition ErrRequestPersistence : error := "workqueue: development request persistence failed".

Definition SaveDevelopmentRequest_tx (request : DevelopmentRequest) (body digest : string) (now : time)
    : M DevDB ((DevelopmentRequest * bool) + (DevelopmentRequest * bool)) :=
  do! pruneExpiredDevelopmentRequests now in
  let! existing := developmentRequestByID (dr_ID request) in
  match existing with
  | None =>
      let! byKey := developmentRequestByKey (dr_KeyDigest request) in
      match byKey with
      | Some byKey =>
          do! mguard (negb (sameDevelopmentRequestBinding request byKey))
                "workqueue: development request idempotency key conflicts" in
          mret (inl (byKey, false))
      | None =>
          do! mguard (negb (validInitialDevelopmentRequest request))
                "workqueue: development request must begin at revision one" in
          let! db := mget in
          let! activeCount := driver "workqueue: development request capacity unavailable" (Some (active_requests db)) in
          do! mguard ((activeCount <? 0) || (MaxDevelopmentRequests <=? activeCount))
                "workqueue: active development request bound exceeded" in
          let nowUnix := UnixNano now in
          let! db := driver ErrRequestPersistence
            (sql_insert_request (dr_ID request) (request_row request body digest nowUnix nowUnix) db) in
          do! mput db in
          mret (inr (request, true))
      end
  | Some existing =>
      do! mguard (negb (sameDevelopmentRequestBinding request existing)) "workqueue: development request identity conflicts" in
      match marshalDevelopmentRequest existing with
      | Err _ => mfail ErrRequestCorrupt
      | Ok (_, existingDigest) =>
          if (dr_Revision request =? dr_Revision existing) && (digest =? existingDigest) then mret (inl (existing, false))
          else
            do! mguard ((dr_Revision request <>? wrapU64 (dr_Revision existing + 1)) ||
                        negb (validDevelopmentRequestTransition existing request)) ErrRequestConflict in
            let! nowUnix := nextDevelopmentRequestUpdatedAt (dr_ID request) (UnixNano now) in
            do! update_request ErrRequestPersistence ErrRequestConflict (dr_ID request) (dr_Revision existing) existingDigest
                  (set_request (Some (dr_State request)) (dr_Revision request) digest body nowUnix) in
            mret (inr (request, false))
      end
  end.

Definition SaveDevelopmentRequest (request : DevelopmentRequest) (now : time) : M DevDB (DevelopmentRequest * bool) :=
  do! mguard (negb (dr_Valid request)) ErrRequest in
  match marshalDevelopmentRequest request with
  | Err _ => mfail ErrRequest
  | Ok (body, digest) =>
      in_transaction "workqueue: development request transaction failed" ErrRequestPersistence
        (SaveDevelopmentRequest_tx request body digest now)
  end.

Definition bump_revision (r : DevelopmentRequest) : DevelopmentRequest :=
  {| dr_ID := dr_ID r; dr_Revision := wrapU64 (dr_Revision r + 1); dr_KeyDigest := dr_KeyDigest r; dr_Alias := dr_Alias r;
     dr_Target := dr_Target r; dr_DeviceID := dr_DeviceID r; dr_BodyRef := dr_BodyRef r; dr_BodyDigest := dr_BodyDigest r;
     dr_InspectionOperationID := dr_InspectionOperationID r; dr_ObjectiveID := dr_ObjectiveID r;
     dr_ActiveOperationID := dr_ActiveOperationID r; dr_ProcessID := dr_ProcessID r; dr_State := dr_State r;
     dr_Reason := dr_Reason r |}.

Definition ErrTouchConflict : error := "workqueue: development request touch conflict".

Definition TouchDevelopmentRequest_tx (requestID : string) (expectedRevision : Z) (now : time)
    : M DevDB (DevelopmentRequest + DevelopmentRequest) :=
  let! found := mtry (developmentRequestByID requestID) in
  match found with
  | Err _ | Ok None => mfail ErrTouchConflict
  | Ok (Some request) =>
      do! mguard ((dr_Revision request <>? expectedRevision) || (dr_State request =? DevelopmentRequestAwaitingReasoning) ||
                  developmentRequestTerminal (dr_State request)) ErrTouchConflict in
      match marshalDevelopmentRequest request with
      | Err _ => mfail "workqueue: development request touch record is corrupt"
      | Ok (_, oldDigest) =>
          let request := bump_revision request in
          match marshalDevelopmentRequest request with
          | Err _ => mfail "workqueue: development request touch record is invalid"
          | Ok (body, digest) =>
              let! updatedAt := nextDevelopmentRequestUpdatedAt (dr_ID request) (UnixNano now) in
              do! update_request "workqueue: development request touch persistence failed" ErrTouchConflict
                    (dr_ID request) expectedRevision oldDigest
                    (set_request None (dr_Revision request) digest body updatedAt) in
              mret (inr request)
          end
      end
  end.

Definition TouchDevelopmentRequest (requestID : string) (expectedRevision : Z) (now : time) : M DevDB DevelopmentRequest :=
  do! mguard (negb (MatchString developmentRequestIDPattern requestID) || (expectedRevision =? 0) ||
              (maxDevelopmentRequestRevision <=? expectedRevision)) "workqueue: development request touch is invalid" in
  in_transaction "workqueue: development request touch transaction failed"
    "workqueue: development request touch persistence failed" (TouchDevelopmentRequest_tx requestID expectedRevision now).

(** [Store.DevelopmentRequest] and [Store.DevelopmentRequestByKey] *)
Definition GetDevelopmentRequest (requestID : string) : M DevDB (option DevelopmentRequest) :=
  do! mguard (negb (MatchString developmentRequestIDPattern requestID)) "workqueue: development request id is invalid" in
  developmentRequestByID requestID.

Definition DevelopmentRequestByKey (keyDigest : string) (now : time) : M DevDB (option DevelopmentRequest) :=
  do! mguard (negb (MatchString developmentRequestDigest keyDigest)) "workqueue: development request key digest is invalid" in
  let! found := developmentRequestByKey keyDigest in
  match found with
  | None => mret None
  | Some request =>
      if negb (developmentRequestTerminal (dr_State request)) then mret (Some request)
      else
        let! db := mget in
        let! updatedAt := driver "workqueue: development request key lookup failed"
          (rq_updated_at ∘ snd <$> request_with_key keyDigest db) in
        if updatedAt <=? UnixNano (TimeAdd now (- DevelopmentRequestIdempotencyTTL)) then mret None else mret (Some request)
  end.

(** [ORDER BY updated_at ASC,request_id ASC] *)
Definition request_le (a b : string * RequestRow) : Prop :=
  rq_updated_at (snd a) < rq_updated_at (snd b) \/ (rq_updated_at (snd a) = rq_updated_at (snd b) /\ str_le (fst a) (fst b)).
#[export] Instance request_le_dec a b : Decision (request_le a b).
Proof. unfold request_le. apply _. Defined.

(** The rows of a query, scanned one by one; the first bad one ends the loop. *)
Fixpoint scan_requests (e : error) (rows : list (string * RequestRow)) : M DevDB (list DevelopmentRequest) :=
  match rows with
  | [] => mret []
  | (id, row) :: rows =>
      do! driver e (Some tt) in
      match scanDevelopmentRequest id row with
      | Err _ => mfail e
      | Ok request => let! rest := scan_requests e rows in mret (request :: rest)
      end
  end.

Definition listDevelopmentRequests (limit : Z) (includeAwaitingReasoning : bool) : M DevDB (list DevelopmentRequest) :=
  let! db := mget in
  let! rows := driver "workqueue: development request list failed"
    (Some (take (Z.to_nat limit) (merge_sort request_le
      (filter (fun e => developmentRequestTerminal (rq_state (snd e)) = false /\
                        (includeAwaitingReasoning = true \/ rq_state (snd e) <> DevelopmentRequestAwaitingReasoning))
              (map_to_list (dd_requests db)))))) in
  let! (rows, failed) := fetch rows in
  let! requests := scan_requests "workqueue: development request list result is invalid" rows in
  do! mguard failed "workqueue: development request list failed" in
  mret requests.

Definition DevelopmentRequests (limit : Z) : M DevDB (list DevelopmentRequest) :=
  do! mguard ((limit <? 1) || (MaxListResults <? limit)) "workqueue: development request list limit is invalid" in
  listDevelopmentRequests limit false.

(** [modelturn.TaskGoalOwner]: the owner's digest and its one reference. *)
Definition DevelopmentGoalOwners : M DevDB (list (string * (string * string))) :=
  let! requests := listDevelopmentRequests (MaxDevelopmentRequests + 1) true in
  do! mguard (MaxDevelopmentRequests <? Z.of_nat (length requests)) "workqueue: development goal owner bound exceeded" in
  mret ((fun r => (dr_KeyDigest r, (dr_BodyRef r, dr_BodyDigest r))) <$> requests).

Definition developmentRequestIntegrity : M DevDB unit :=
  let! db := mget in
  let! rows := driver "workqueue: development request integrity scan failed"
    (Some (merge_sort (fun a b => str_le (fst a) (fst b)) (map_to_list (dd_requests db)))) in
  let! (rows, failed) := fetch rows in
  do! scan_requests "workqueue: development request integrity failed" rows in
  mguard failed "workqueue: development request integrity scan failed".

(** ** Objectives *)
Definition ErrObjectiveCorrupt : error := "workqueue: development objective record is corrupt".
Definition ErrObjectiveInvalid : error := "workqueue: development objective is invalid".
Definition ErrObjectiveConflict : error := "workqueue: development objective revision conflict".
Definition ErrObjectivePersistence : error := "workqueue: development objective persistence failed".

Definition scanDevelopmentObjective (id : string) (row : ObjectiveRow) : result Objective :=
  check reject_if ((ow_revision row <? 1) || negb (ValidObjectiveID id) || (ow_record_digest row =? "") ||
                   (ObjectiveRecordDigest (ow_record_json row) <>? ow_record_digest row)) ErrObjectiveCorrupt in
  match ParseObjectiveRecord (ow_record_json row) with
  | Err _ => Err ErrObjectiveCorrupt
  | Ok objective =>
      check reject_if ((ob_ObjectiveID objective <>? id) || (ob_Revision objective <>? ow_revision row) ||
                       (ob_State objective <>? ow_state row)) ErrObjectiveCorrupt in
      match MarshalRecord objective with
      | Err _ => Err ErrObjectiveCorrupt
      | Ok (canonicalBody, canonicalDigest) =>
          check reject_if ((canonicalDigest <>? ow_record_digest row) || (canonicalBody <>? ow_record_json row))
            ErrObjectiveCorrupt in
          Ok objective
      end
  end.

Definition developmentObjectiveByID (id : string) : M DevDB (option Objective) :=
  let! db := mget in
  let! found := driver "workqueue: development objective read failed" (Some (dd_objectives db !! id)) in
  match found with
  | None => mret None
  | Some row => let! objective := mlift (scanDevelopmentObjective id row) in mret (Some objective)
  end.

(** [Store.DevelopmentObjective] *)
Definition GetDevelopmentObjective (id : string) : M DevDB (option Objective) :=
  do! mguard (negb (ValidObjectiveID id)) "workqueue: development objective id is invalid" in
  developmentObjectiveByID id.

(** *** Retention *)
Definition ErrRetentionRecord : error := "workqueue: development objective retention record is corrupt".
Definition ErrRetentionScan : error := "workqueue: development objective retention scan failed".
Definition ErrRetentionRequest : error := "workqueue: development objective retention request is corrupt".
Definition ErrRetentionRequestScan : error := "workqueue: development objective retention request scan failed".
Definition ErrRetentionJob : error := "workqueue: development objective retention job is corrupt".

Definition objective_terminal (state : ObjectiveState) : bool :=
  (state =? ObjectiveAccepted) || (state =? ObjectiveFailed) || (state =? ObjectiveCancelled).
Definition objective_expired (cutoff : Z) (r : ObjectiveRow) : bool :=
  objective_terminal (ow_state r) && (ow_updated_at r <? cutoff).

(** [SELECT .. WHERE state IN (..) AND updated_at<? ORDER BY objective_id LIMIT ?] *)
Definition id_le {A} (a b : string * A) : Prop := str_le (fst a) (fst b).
#[export] Instance id_le_dec {A} (a b : string * A) : Decision (id_le a b).
Proof. unfold id_le. apply _. Defined.
Definition expired_objectives (cutoff : Z) (db : DevDB) : list (string * ObjectiveRow) :=
  take (Z.to_nat (MaxDevelopmentObjectives + 1))
       (merge_sort id_le (filter (fun e => objective_expired cutoff (snd e) = true) (map_to_list (dd_objectives db)))).

Fixpoint check_expired (rows : list (string * ObjectiveRow)) : M DevDB (list string) :=
  match rows with
  | [] => mret []
  | (id, row) :: rows =>
      do! driver ErrRetentionRecord (Some tt) in
      do! mguard (negb (ValidObjectiveID id) || (ow_updated_at row <? ow_created_at row)) ErrRetentionRecord in
      let! ids := check_expired rows in
      mret (id :: ids)
  end.

Fixpoint load_objectives (ids : list string) : M DevDB (list Objective) :=
  match ids with
  | [] => mret []
  | id :: ids =>
      let! found := mtry (developmentObjectiveByID id) in
      match found with
      | Ok (Some objective) => let! rest := load_objectives ids in mret (objective :: rest)
      | _ => mfail ErrRetentionRecord
      end
  end.

(** Whether a job is still live: by the key of its provisioning, and by its id. *)
Definition live_job (found : option Job) : bool :=
  match found with Some job => negb (WorkqueueTypes.terminal (j_State job)) | None => false end.

Definition provision_live (p : ProvisioningAttempt) : M DevDB bool :=
  let! byKey := mtry (on_queue (jobByIdempotency ("development:" +:+ pv_ProvisionID p))) in
  match byKey with
  | Err _ => mfail ErrRetentionJob
  | Ok found =>
      if pv_JobID p =? "" then mret (live_job found)
      else
        let! byID := mtry (on_queue (jobByID (pv_JobID p))) in
        match byID with
        | Ok (Some job) => mret (live_job found || live_job (Some job))
        | _ => mfail ErrRetentionJob
        end
  end.

Definition objective_provisions (o : Objective) : list ProvisioningAttempt := concat (st_Provisioning <$> ob_Steps o).

Definition pin_live (pinned : gset string) (o : Objective) : M DevDB (gset string) :=
  mfold (fun pinned p => let! live := provision_live p in mret (if live then {[ob_ObjectiveID o]} ∪ pinned else pinned))
        pinned (objective_provisions o).

Definition delete_unpinned (pinned : gset string) (_ : unit) (o : Objective) : M DevDB unit :=
  if bool_decide (ob_ObjectiveID o ∈ pinned) then mret tt
  else
    let! db := mget in
    do! driver "workqueue: expired development objective pruning failed" (Some tt) in
    mput (with_objectives (delete (ob_ObjectiveID o) (dd_objectives db)) db).

Definition pruneExpiredDevelopmentObjectives (now : time) : M DevDB unit :=
  let cutoff := UnixNano (TimeAdd now (- DevelopmentObjectiveRetentionTTL)) in
  let! db := mget in
  let! rows := driver ErrRetentionScan (Some (expired_objectives cutoff db)) in
  let! (rows, failed) := fetch rows in
  let! ids := check_expired rows in
  do! driver ErrRetentionScan (Some tt) in
  do! mguard (failed || (MaxDevelopmentObjectives <? Z.of_nat (length ids))) ErrRetentionScan in
  match ids with
  | [] => mret tt
  | _ =>
      let! objectives := load_objectives ids in
      let! rows := driver ErrRetentionRequestScan (Some (map_to_list (dd_requests db))) in
      let! (rows, failed) := fetch rows in
      let! requests := scan_requests ErrRetentionRequest rows in
      do! driver ErrRetentionRequestScan (Some tt) in
      do! mguard failed ErrRetentionRequestScan in
      let pinned : gset string := list_to_set (filter (fun id => id ∈ ids) (dr_ObjectiveID <$> requests)) in
      let! pinned := mfold pin_live pinned objectives in
      mfold (delete_unpinned pinned) tt objectives
  end.

(** *** Saving *)
Definition objective_row (o : Objective) (body digest : string) (created updated : Z) : ObjectiveRow :=
  {| ow_revision := ob_Revision o; ow_state := ob_State o; ow_record_digest := digest; ow_record_json := body;
     ow_created_at := created; ow_updated_at := updated |}.

(** The driver refuses an unsigned value with the high bit set. *)
Definition sql_uint64 {A} (z : Z) (outcome : option A) : option A := if z <? two63 then outcome else None.

Definition sql_insert_objective (id : string) (row : ObjectiveRow) (db : DevDB) : option DevDB :=
  if bool_decide (is_Some (dd_objectives db !! id)) then None
  else Some (with_objectives (<[id := row]> (dd_objectives db)) db).

Definition sql_update_objective (id : string) (revision : Z) (digest : string) (set : ObjectiveRow -> ObjectiveRow)
    (objectives : gmap string ObjectiveRow) : gmap string ObjectiveRow * Z :=
  match objectives !! id with
  | Some r => if (ow_revision r =? revision) && (ow_record_digest r =? digest) then (<[id := set r]> objectives, 1)
              else (objectives, 0)
  | None => (objectives, 0)
  end.

Definition SaveDevelopmentObjective_tx (objective : Objective) (body digest : string) (now : time)
    : M DevDB ((Objective * bool) + (Objective * bool)) :=
  let! existing := developmentObjectiveByID (ob_ObjectiveID objective) in
  match existing with
  | None =>
      do! mguard ((ob_Revision objective <>? 1) || (ob_State objective <>? ObjectivePlanned)) ErrObjectiveConflict in
      do! pruneExpiredDevelopmentObjectives now in
      let! db := mget in
      let! count := driver "workqueue: development objective capacity unavailable"
        (Some (Z.of_nat (size (dd_objectives db)))) in
      do! mguard ((count <? 0) || (MaxDevelopmentObjectives <=? count)) "workqueue: development objective row bound exceeded" in
      let! db := driver ErrObjectivePersistence (sql_uint64 (ob_Revision objective)
        (sql_insert_objective (ob_ObjectiveID objective) (objective_row objective body digest (UnixNano now) (UnixNano now)) db)) in
      do! mput db in
      mret (inr (objective, true))
  | Some existing =>
      match MarshalRecord existing with
      | Err _ => mfail ErrObjectiveCorrupt
      | Ok (_, existingDigest) =>
          do! mguard (existingDigest =? "") ErrObjectiveCorrupt in
          if (ob_Revision objective =? ob_Revision existing) && (digest =? existingDigest) then mret (inl (existing, false))
          else
            do! mguard ((ob_Revision objective <>? wrapU64 (ob_Revision existing + 1)) ||
                        negb (is_ok (ValidateTransition existing objective))) ErrObjectiveConflict in
            let! db := mget in
            let! r := driver ErrObjectivePersistence (sql_uint64 (ob_Revision objective)
              (Some (sql_update_objective (ob_ObjectiveID objective) (ob_Revision existing) existingDigest
                 (fun r => objective_row objective body digest (ow_created_at r) (UnixNano now)) (dd_objectives db)))) in
            do! mput (with_objectives (fst r) db) in
            let! affected := driver ErrObjectiveConflict (Some (snd r)) in
            do! mguard (affected <>? 1) ErrObjectiveConflict in
            mret (inr (objective, false))
      end
  end.

Definition SaveDevelopmentObjective (objective : Objective) (now : time) : M DevDB (Objective * bool) :=
  do! mguard (negb (ob_Valid objective)) ErrObjectiveInvalid in
  match MarshalRecord objective with
  | Err _ => mfail ErrObjectiveInvalid
  | Ok (body, digest) =>
      in_transaction "workqueue: development objective transaction failed" ErrObjectivePersistence
        (SaveDevelopmentObjective_tx objective body digest now)
  end.

(** *** Listing *)
Record DevelopmentObjectiveSummary := {
  sm_ObjectiveID : string; sm_Revision : Z; sm_State : ObjectiveState; sm_UpdatedAt : time }.

(** [ORDER BY updated_at DESC,objective_id DESC] *)
Definition recent_le (a b : string * ObjectiveRow) : Prop :=
  ow_updated_at (snd b) < ow_updated_at (snd a) \/ (ow_updated_at (snd a) = ow_updated_at (snd b) /\ str_le (fst b) (fst a)).
#[export] Instance recent_le_dec a b : Decision (recent_le a b).
Proof. unfold recent_le. apply _. Defined.

Definition ErrSummary : error := "workqueue: development objective list result is invalid".

Fixpoint summarize (index : list (string * Z)) : M DevDB (list DevelopmentObjectiveSummary) :=
  match index with
  | [] => mret []
  | (id, updatedAt) :: index =>
      let! found := mtry (developmentObjectiveByID id) in
      match found with
      | Ok (Some o) =>
          let! rest := summarize index in
          mret ({| sm_ObjectiveID := ob_ObjectiveID o; sm_Revision := ob_Revision o; sm_State := ob_State o;
                   sm_UpdatedAt := updatedAt |} :: rest)
      | _ => mfail ErrSummary
      end
  end.

Fixpoint check_index (rows : list (string * ObjectiveRow)) : M DevDB (list (string * Z)) :=
  match rows with
  | [] => mret []
  | (id, row) :: rows =>
      do! driver ErrSummary (Some tt) in
      do! mguard (negb (ValidObjectiveID id)) ErrSummary in
      let! index := check_index rows in
      mret ((id, ow_updated_at row) :: index)
  end.

Definition DevelopmentObjectiveSummaries (limit : Z) : M DevDB (list DevelopmentObjectiveSummary) :=
  do! mguard ((limit <? 1) || (MaxListResults <? limit)) "workqueue: development objective list limit is invalid" in
  let! db := mget in
  let! rows := driver "workqueue: development objective list failed"
    (Some (take (Z.to_nat limit) (merge_sort recent_le (map_to_list (dd_objectives db))))) in
  let! (rows, failed) := fetch rows in
  let! index := check_index rows in
  do! mguard failed "workqueue: development objective list failed" in
  do! driver "workqueue: development objective list failed" (Some tt) in
  summarize index.

(** *** Integrity *)
(** The part of [Store.Integrity] on objectives. [rows.Err()] is not consulted: a
    failure while rows are fetched ends the loop early, like the last row. *)
Definition ErrObjectiveScan : error := "workqueue: development objective semantic scan failed".

Fixpoint scan_objective_ids (seen : Z) (rows : list (string * ObjectiveRow)) : M DevDB (list string) :=
  match rows with
  | [] => mret []
  | (id, _) :: rows =>
      do! driver ErrObjectiveScan (Some tt) in
      do! mguard (MaxDevelopmentObjectives <? seen + 1) "workqueue: development objective row bound exceeded" in
      let! ids := scan_objective_ids (seen + 1) rows in
      mret (id :: ids)
  end.

Fixpoint check_objectives (ids : list string) : M DevDB unit :=
  match ids with
  | [] => mret tt
  | id :: ids =>
      let! found := mtry (developmentObjectiveByID id) in
      match found with
      | Ok (Some _) => check_objectives ids
      | _ => mfail "workqueue: development objective semantic integrity failed"
      end
  end.

Definition objectiveIntegrity : M DevDB unit :=
  let! db := mget in
  let! rows := driver ErrObjectiveScan (Some (merge_sort id_le (map_to_list (dd_objectives db)))) in
  let! (rows, _) := fetch rows in
  let! ids := scan_objective_ids 0 rows in
  do! driver ErrObjectiveScan (Some tt) in
  check_objectives ids.
