(* ===== verification/DevStore.v ===== *)
(** * What the operations on the development tables do

    Successful runs are inverted into changes of the two tables: creation,
    compare-and-swap, touch and pruning. Failed and replayed operations leave the
    tables alone. *)

From S2P Require Import Prelude GoStrings GoRegexp GoJson GoReflect Sha256 Effects PolicyScan WorkqueueTypes WorkqueueRows WorkqueueStore.
From S2P Require Import DevCapability DevAttempt DevProvision DevObjective DevOps DevInv DevHistory DevRecord DevRoundtrip DevRequest DevTables.

(** ** Inverting successful runs *)
Section runs.
Context {S : Type}.

Lemma bind_run {A B} (m : M S A) (k : A -> M S B) s fs b s' fs' : mbind m k s fs = (Ok b, s', fs') ->
  exists a s1 fs1, m s fs = (Ok a, s1, fs1) /\ k a s1 fs1 = (Ok b, s', fs').
Proof. unfold mbind. destruct (m s fs) as [[[a|e] s1] fs1] eqn:E; [|done]. intros H. by exists a, s1, fs1. Qed.

Lemma driver_run {A} e (o : option A) s fs a s' fs' : @driver S A e o s fs = (Ok a, s', fs') -> o = Some a /\ s' = s.
Proof. unfold driver. destruct (next_fault fs) as [[] ?]; [done|]. destruct o; [|done]. by intros [= -> -> _]. Qed.

Lemma guard_run c e s fs x s' fs' : @mguard S c e s fs = (Ok x, s', fs') -> c = false /\ s' = s.
Proof. unfold mguard, mlift, reject_if. destruct c; [done|]. by intros [= _ -> _]. Qed.

Lemma lift_run {A} (r : result A) s fs a s' fs' : @mlift S A r s fs = (Ok a, s', fs') -> r = Ok a /\ s' = s.
Proof. unfold mlift. by intros [= -> -> _]. Qed.

Lemma fetch_run {A} (rows : list A) s fs l s' fs' : @fetch S A rows s fs = (Ok (l, false), s', fs') -> l = rows /\ s' = s.
Proof.
  revert s fs l s' fs'. induction rows as [|a rows IH]; intros s fs l s' fs'; cbn [fetch];
    destruct (next_fault fs) as [[] fs1]; try done; [by intros [= <- <- _]|].
  destruct (fetch rows s fs1) as [[[[l1 b]|e] s1] fs2] eqn:E; [|done]. intros [= <- -> <- _]. by apply IH in E as [-> ->].
Qed.

Lemma fetch_state {A} (rows : list A) s fs p s' fs' : @fetch S A rows s fs = (Ok p, s', fs') -> s' = s.
Proof.
  revert s fs p s' fs'. induction rows as [|a rows IH]; intros s fs p s' fs'; cbn [fetch];
    destruct (next_fault fs) as [[] fs1]; try (by intros [= _ <- _]).
  destruct (fetch rows s fs1) as [[[[l1 b]|e] s1] fs2] eqn:E; [|done]. intros [= _ <- _]. by apply IH in E.
Qed.

Lemma mfold_run {A B} (f : A -> B -> M S A) (I : list B -> A -> S -> Prop) l a s fs a' s' fs' :
  (forall b l a s fs a' s' fs', I (b :: l) a s -> f a b s fs = (Ok a', s', fs') -> I l a' s') ->
  I l a s -> mfold f a l s fs = (Ok a', s', fs') -> I [] a' s'.
Proof.
  intros Hf. revert a s fs. induction l as [|b l IH]; intros a s fs HI; cbn [mfold]; [by intros [= <- <- _]|].
  intros (a1 & s1 & fs1 & H1 & H2)%bind_run. eapply IH; [|exact H2]. by eapply Hf.
Qed.
End runs.

(** One construct of a run at a time. *)
Ltac run_step :=
  match goal with
  | H : mbind mget _ _ _ = (Ok _, _, _) |- _ => unfold mbind at 1, mget at 1 in H
  | H : mbind (mput _) _ _ _ = (Ok _, _, _) |- _ => unfold mbind at 1, mput at 1 in H
  | H : mbind (mret _) _ _ _ = (Ok _, _, _) |- _ => unfold mbind at 1, mret at 1 in H
  | H : mbind (driver _ _) _ _ _ = (Ok _, _, _) |- _ =>
      let E := fresh "E" in apply bind_run in H as (? & ? & ? & E & H); apply driver_run in E as [E ->]
  | H : mbind (mguard _ _) _ _ _ = (Ok _, _, _) |- _ =>
      let E := fresh "E" in apply bind_run in H as (? & ? & ? & E & H); apply guard_run in E as [E ->]
  | H : mbind (mlift _) _ _ _ = (Ok _, _, _) |- _ =>
      let E := fresh "E" in apply bind_run in H as (? & ? & ? & E & H); apply lift_run in E as [E ->]
  | H : mret _ _ _ = (Ok _, _, _) |- _ => first [injection H as <- <- _ | injection H as <- _ | injection H as ?H ?H _; subst]
  | H : mfail _ _ _ = (Ok _, _, _) |- _ => discriminate H
  end; cbv beta in *.

(** ** Transactions *)
Lemma in_transaction_run {A} e1 e2 (body : M DevDB (A + A)) s fs r s' fs' :
  in_transaction e1 e2 body s fs = (r, s', fs') ->
  (exists a fs1 fs2, r = Ok a /\ body s fs1 = (Ok (inr a), s', fs2)) \/
  (s' = s /\ (forall a, r = Ok a -> exists fs1 db fs2, body s fs1 = (Ok (inl a), db, fs2))).
Proof.
  unfold in_transaction, mbind, mget. unfold driver at 1. destruct (next_fault fs) as [[] fs1]; [intros [= <- <- _]; by right|].
  unfold on_copy. destruct (body s fs1) as [[[[a|a]|e] db] fs2] eqn:E.
  - intros [= <- <- _]. right. split; [done|]. intros ? [= <-]. by eexists _, _, _.
  - unfold driver. destruct (next_fault fs2) as [[] fs3]; [intros [= <- <- _]; by right|].
    intros [= <- <- _]. left. by eexists _, _, _.
  - intros [= <- <- _]. by right.
Qed.

(** ** Reading *)
Lemma read_request_run row s fs r s' fs' : read_request row s fs = (Ok r, s', fs') ->
  s' = s /\ match row with Some (id, x) => exists q, r = Some q /\ scanDevelopmentRequest id x = Ok q | None => r = None end.
Proof.
  unfold read_request. intros H. run_step. injection E as <-. destruct row as [[id x]|]; repeat run_step; [|done].
  split; [done|]. by eexists.
Qed.

Lemma request_by_id_run id s fs r s' fs' : developmentRequestByID id s fs = (Ok r, s', fs') ->
  s' = s /\ match dd_requests s !! id with Some x => exists q, r = Some q /\ scanDevelopmentRequest id x = Ok q | None => r = None end.
Proof.
  unfold developmentRequestByID. intros H. run_step. apply read_request_run in H as [-> H]. split; [done|].
  by destruct (dd_requests s !! id).
Qed.

Lemma objective_by_id_run id s fs r s' fs' : developmentObjectiveByID id s fs = (Ok r, s', fs') ->
  s' = s /\ match dd_objectives s !! id with Some x => exists o, r = Some o /\ scanDevelopmentObjective id x = Ok o | None => r = None end.
Proof.
  unfold developmentObjectiveByID. intros H. do 2 run_step. injection E as <-.
  destruct (dd_objectives s !! id); repeat run_step; [|done]. split; [done|]. by eexists.
Qed.

(** ** Requests *)
(** What pruning leaves: rows that are open or young. *)
Definition pruned_requests (now : time) (db : DevDB) : DevDB :=
  with_requests (filter (fun e => request_expired (UnixNano (TimeAdd now (- DevelopmentRequestIdempotencyTTL))) (snd e) = false)
                        (dd_requests db)) db.

(** A committed change of the request table. *)
Inductive request_change (now : time) (db : DevDB) : DevDB -> Prop :=
| request_created r body digest :
    validInitialDevelopmentRequest r = true -> marshalDevelopmentRequest r = Ok (body, digest) ->
    dd_requests (pruned_requests now db) !! dr_ID r = None ->
    request_with_key (dr_KeyDigest r) (pruned_requests now db) = None ->
    active_requests (pruned_requests now db) < MaxDevelopmentRequests ->
    request_change now db (with_requests (<[dr_ID r := request_row r body digest (UnixNano now) (UnixNano now)]>
                                            (dd_requests (pruned_requests now db))) db)
| request_advanced r body digest row before updated :
    dd_requests (pruned_requests now db) !! dr_ID r = Some row -> scanDevelopmentRequest (dr_ID r) row = Ok before ->
    validDevelopmentRequestTransition before r = true -> marshalDevelopmentRequest r = Ok (body, digest) ->
    rq_updated_at row < updated ->
    request_change now db (with_requests (<[dr_ID r := request_row r body digest (rq_created_at row) updated]>
                                            (dd_requests (pruned_requests now db))) db)
| request_touched body digest row before updated :
    dd_requests db !! dr_ID before = Some row -> scanDevelopmentRequest (dr_ID before) row = Ok before ->
    developmentRequestTerminal (dr_State before) = false -> dr_State before <> DevelopmentRequestAwaitingReasoning ->
    marshalDevelopmentRequest (bump_revision before) = Ok (body, digest) -> rq_updated_at row < updated ->
    request_change now db (with_requests (<[dr_ID before := request_row (bump_revision before) body digest (rq_created_at row) updated]>
                                            (dd_requests db)) db).

Lemma prune_requests_run now s fs x s' fs' : pruneExpiredDevelopmentRequests now s fs = (Ok x, s', fs') -> s' = pruned_requests now s.
Proof. unfold pruneExpiredDevelopmentRequests. intros H. repeat run_step. by injection H as _ <- _. Qed.

Lemma next_updated_run id observed s fs u s' fs' : nextDevelopmentRequestUpdatedAt id observed s fs = (Ok u, s', fs') ->
  s' = s /\ exists row, dd_requests s !! id = Some row /\ rq_updated_at row < u.
Proof.
  unfold nextDevelopmentRequestUpdatedAt. intros H. repeat run_step. apply fmap_Some in E as (row & Hrow & ->).
  destruct (Z.leb_spec observed (rq_updated_at row)); repeat run_step; (split; [done|]); exists row; (split; [done|]); lia.
Qed.

Lemma update_request_run e1 e2 id revision digest set s fs x s' fs' :
  update_request e1 e2 id revision digest set s fs = (Ok x, s', fs') ->
  exists row, dd_requests s !! id = Some row /\ s' = with_requests (<[id := set row]> (dd_requests s)) s.
Proof.
  unfold update_request. intros H. repeat run_step. injection E as <-. injection E0 as <-. apply guard_run in H as [Hone ->].
  unfold sql_update_request in *. destruct (dd_requests s !! id) as [row|]; [|done]. destruct (_ && _); [|done].
  by exists row.
Qed.

Lemma set_request_row r row body digest updated key :
  rq_key_digest row = key -> key = dr_KeyDigest r ->
  set_request (Some (dr_State r)) (dr_Revision r) digest body updated row = request_row r body digest (rq_created_at row) updated.
Proof. intros E1 E2. unfold set_request, request_row. by rewrite E1, E2. Qed.

Lemma save_request_tx_run now r body digest s fs out s' fs' : marshalDevelopmentRequest r = Ok (body, digest) ->
  SaveDevelopmentRequest_tx r body digest now s fs = (Ok (inr out), s', fs') -> request_change now s s'.
Proof.
  intros Hm H. unfold SaveDevelopmentRequest_tx in H. apply bind_run in H as ([] & s1 & fs1 & Hp & H).
  apply prune_requests_run in Hp as ->. apply bind_run in H as (existing & s1 & fs2 & Hex & H).
  apply request_by_id_run in Hex as [-> Hex]. destruct (dd_requests (pruned_requests now s) !! dr_ID r) as [row|] eqn:Erow.
  - destruct Hex as (before & -> & Hscan). run_step. destruct (marshalDevelopmentRequest before) as [[b0 d0]|] eqn:Em0; [|done].
    destruct (_ && _); [done|]. run_step. apply orb_false_iff in E0 as [_ Et%negb_false_iff].
    apply bind_run in H as (u & s1 & fs5 & Hu & H). apply next_updated_run in Hu as [-> (row' & Hrow' & Hlt)].
    apply bind_run in H as (? & s1 & fs6 & Hupd & H). apply update_request_run in Hupd as (row'' & Hrow'' & ->).
    repeat run_step. assert (row' = row) by congruence. assert (row'' = row) by congruence. subst row' row''.
    apply scan_request_spec in Hscan as Hs2. destruct Hs2 as (_ & _ & _ & Hrow).
    apply negb_false_iff in E. unfold sameDevelopmentRequestBinding in E. breflect.
    rewrite (set_request_row r row _ _ _ (dr_KeyDigest before)); [|by rewrite Hrow|congruence].
    change (with_requests ?x (pruned_requests now s)) with (with_requests x s). by eapply request_advanced.
  - subst existing. apply bind_run in H as (byKey & s1 & fs3 & Hk & H). unfold developmentRequestByKey in Hk.
    run_step. apply read_request_run in Hk as [-> Hk].
    destruct (request_with_key (dr_KeyDigest r) (pruned_requests now s)) as [[kid krow]|] eqn:Ekey.
    + destruct Hk as (q & -> & _). repeat run_step. done.
    + subst byKey. repeat run_step. apply negb_false_iff in E. injection E0 as <-. apply orb_false_iff in E1 as [_ Hcap].
      apply Z.leb_gt in Hcap. unfold sql_insert_request in E2. destruct (_ || _); [done|]. injection E2 as <-.
      change (with_requests ?x (pruned_requests now s)) with (with_requests x s). by apply request_created.
Qed.

Lemma save_request_run now r s fs res s' fs' : SaveDevelopmentRequest r now s fs = (res, s', fs') -> s' = s \/ request_change now s s'.
Proof.
  unfold SaveDevelopmentRequest. intros H. unfold mbind at 1, mguard, mlift, reject_if in H. destruct (negb _); [left; by injection H|].
  destruct (marshalDevelopmentRequest r) as [[body digest]|] eqn:Em; [|left; by injection H].
  apply in_transaction_run in H as [(a & fs1 & fs2 & _ & H)|[-> _]]; [right|by left]. by eapply save_request_tx_run.
Qed.

Lemma touch_request_run now id revision s fs res s' fs' :
  TouchDevelopmentRequest id revision now s fs = (res, s', fs') -> s' = s \/ request_change now s s'.
Proof.
  unfold TouchDevelopmentRequest. intros H. unfold mbind at 1, mguard, mlift, reject_if in H.
  destruct (_ || _); [left; by injection H|].
  apply in_transaction_run in H as [(a & fs1 & fs2 & _ & H)|[-> _]]; [right|by left]. unfold TouchDevelopmentRequest_tx in H.
  apply bind_run in H as (found & s1 & fs3 & Hf & H). unfold mtry in Hf.
  destruct (developmentRequestByID id s fs1) as [[r1 s2] fs4] eqn:Er. injection Hf as <- <- _.
  destruct r1 as [[before|]|]; [|done..]. apply request_by_id_run in Er as [-> Er].
  destruct (dd_requests s !! id) as [row|] eqn:Erow; [|done]. destruct Er as (q & [= <-] & Hscan). run_step. breflect.
  pose proof (proj1 (scan_request_spec _ _ _) Hscan) as (_ & Hid & _ & Hrow). subst id.
  destruct (marshalDevelopmentRequest before) as [[b0 d0]|] eqn:Em0; [|done].
  destruct (marshalDevelopmentRequest (bump_revision before)) as [[body digest]|] eqn:Em; [|done].
  apply bind_run in H as (u & s1 & fs6 & Hu & H). apply next_updated_run in Hu as [-> (row' & Hrow' & Hlt)].
  apply bind_run in H as (? & s1 & fs7 & Hupd & H). apply update_request_run in Hupd as (row'' & Hrow'' & ->).
  repeat run_step. change (dr_ID (bump_revision before)) with (dr_ID before) in *.
  assert (row' = row) by congruence. assert (row'' = row) by congruence. subst row' row''.
  assert (Eset : set_request None (wrapU64 (dr_Revision before + 1)) digest body u row =
                 request_row (bump_revision before) body digest (rq_created_at row) u).
  { unfold set_request, request_row. cbn [default]. by rewrite Hrow. }
  rewrite Eset. by eapply request_touched.
Qed.

(** ** Objectives *)
(** A row is read as an objective exactly when it is the one written for it. *)
Lemma scan_objective_inv id row o : scanDevelopmentObjective id row = Ok o ->
  ob_ObjectiveID o = id /\ 1 <= ob_Revision o /\ widths o /\ MarshalRecord o = Ok (ow_record_json row, ow_record_digest row) /\
  row = objective_row o (ow_record_json row) (ow_record_digest row) (ow_created_at row) (ow_updated_at row).
Proof.
  unfold scanDevelopmentObjective. intros [Hcols Hrest]%reject_ok. breflect.
  destruct (ParseObjectiveRecord (ow_record_json row)) as [o'|] eqn:Ep; [|done]. apply reject_ok in Hrest as [Hsame Hrest]. breflect.
  destruct (MarshalRecord o') as [[body digest]|] eqn:Em; [|done]. apply reject_ok in Hrest as [Hcanon [= <-]]. breflect.
  subst body digest. split_and!; [done|lia|by apply parse_widths in Ep as [_ ?]|done|].
  destruct row. unfold objective_row. cbn in *. by subst.
Qed.

Lemma scan_objective_written o body digest created updated : MarshalRecord o = Ok (body, digest) -> widths o ->
  1 <= ob_Revision o -> scanDevelopmentObjective (ob_ObjectiveID o) (objective_row o body digest created updated) = Ok o.
Proof.
  intros Hm Hw Hr. pose proof (marshal_inv _ _ _ Hm) as (Ho & _ & Hb & Hd). unfold scanDevelopmentObjective.
  cbn [objective_row ow_revision ow_record_digest ow_record_json ow_state].
  destruct (oo_header o Ho) as (_ & Hid & _). rewrite (proj2 (Z.ltb_ge _ _) Hr).
  unfold ValidObjectiveID. rewrite TrimSpace_identity, Hid by done. unfold ObjectiveRecordDigest. rewrite Hb, <- Hd.
  rewrite (bool_decide_false (digest = "")) by (by rewrite Hd). rewrite bool_decide_true by done. cbn [orb negb reject_if rbind].
  rewrite (parse_marshal o body digest Hw Hm). rewrite !(bool_decide_true (_ = _)) by done. cbn [orb negb reject_if rbind].
  rewrite Hm. by rewrite !(bool_decide_true (_ = _)) by done.
Qed.

(** The jobs of a provisioning attempt are over. *)
Definition job_over (id : string) (row : JobRow) : Prop :=
  exists job, scanJob id row = Ok job /\ j_State job ∈ [StateSucceeded; StateFailed; StateCancelled].
Lemma job_over_terminal id row job : scanJob id row = Ok job -> WorkqueueTypes.terminal (j_State job) = true -> job_over id row.
Proof. intros Hs Ht. exists job. split; [done|]. destruct (j_State job); try done; set_solver. Qed.
Definition provision_settled (queue : DB) (p : ProvisioningAttempt) : Prop :=
  (forall id row, head (filter (fun e => i_idempotency_key (r_ident (snd e)) = "development:" +:+ pv_ProvisionID p)
                               (map_to_list (db_jobs queue))) = Some (id, row) -> job_over id row) /\
  (pv_JobID p <> "" -> exists row, db_jobs queue !! pv_JobID p = Some row /\ job_over (pv_JobID p) row).

(** An objective that may be pruned: accepted, failed or cancelled, not updated for thirty
    days, named by no request, and without a live job. *)
Definition prunable (now : time) (db : DevDB) (id : string) : Prop :=
  exists row o, dd_objectives db !! id = Some row /\ scanDevelopmentObjective id row = Ok o /\
    ow_state row ∈ [ObjectiveAccepted; ObjectiveFailed; ObjectiveCancelled] /\ ow_updated_at row < UnixNano (TimeAdd now (- (30 * 24 * Hour))) /\
    (forall rid rrow, dd_requests db !! rid = Some rrow -> exists q, scanDevelopmentRequest rid rrow = Ok q /\ dr_ObjectiveID q <> id) /\
    Forall (provision_settled (dd_queue db)) (objective_provisions o).

Lemma objective_expired_spec cutoff row : objective_expired cutoff row = true ->
  ow_state row ∈ [ObjectiveAccepted; ObjectiveFailed; ObjectiveCancelled] /\ ow_updated_at row < cutoff.
Proof.
  unfold objective_expired, objective_terminal. rewrite andb_true_iff, !orb_true_iff, !bool_decide_eq_true, Z.ltb_lt.
  intros [Hs ?]. split; [|done]. set_solver.
Qed.

Lemma read_job_run row s fs r s' fs' : read_job row s fs = (Ok r, s', fs') ->
  match row with Some (id, x) => exists j, r = Some j /\ scanJob id x = Ok j | None => r = None end.
Proof.
  unfold read_job. intros H. run_step. injection E as <-. destruct row as [[id x]|].
  - destruct (scanJob id x) as [j|]; run_step. by exists j.
  - by run_step.
Qed.

Lemma on_queue_run {A} (m : M DB A) s fs r s' fs' : on_queue m s fs = (r, s', fs') ->
  s' = s /\ exists q' , m (dd_queue s) fs = (r, q', fs').
Proof. unfold on_queue. destruct (m (dd_queue s) fs) as [[r0 q] fs0]. intros [= <- <- <-]. split; [done|]. by exists q. Qed.

Lemma provision_live_run p s fs b s' fs' : provision_live p s fs = (Ok b, s', fs') ->
  s' = s /\ (b = false -> provision_settled (dd_queue s) p).
Proof.
  unfold provision_live. intros (r1 & s1 & fs1 & H1 & H)%bind_run. unfold mtry in H1.
  destruct (on_queue _ s fs) as [[r0 s0] fs0] eqn:E1. injection H1 as <- <- <-. apply on_queue_run in E1 as [-> (q1 & E1)].
  destruct r0 as [found|]; [|by run_step].
  assert (Hkey : live_job found = false -> forall id row, head (filter (fun e => i_idempotency_key (r_ident (snd e)) = "development:" +:+ pv_ProvisionID p)
    (map_to_list (db_jobs (dd_queue s)))) = Some (id, row) -> job_over id row).
  { intros Hl id row Hh. unfold jobByIdempotency in E1. unfold mbind at 1, mget at 1 in E1. apply read_job_run in E1.
    rewrite Hh in E1. destruct E1 as (j & -> & Hj). apply (job_over_terminal id row j); [done|]. cbn in Hl. by apply negb_false_iff. }
  destruct (bool_decide_reflect (pv_JobID p = "")) as [Ej|Hj].
  - run_step. split; [done|]. intros Hl. split; [by apply Hkey|done].
  - apply bind_run in H as (r2 & s2 & fs2 & H2 & H). unfold mtry in H2.
    destruct (on_queue _ s fs0) as [[r3 s3] fs3] eqn:E2. injection H2 as <- <- <-. apply on_queue_run in E2 as [-> (q2 & E2)].
    destruct r3 as [[job|]|]; run_step. split; [done|]. intros [Hl1 Hl2]%orb_false_iff. split; [by apply Hkey|]. intros _.
    unfold jobByID in E2. unfold mbind at 1, mget at 1 in E2. apply read_job_run in E2.
    destruct (db_jobs (dd_queue s) !! pv_JobID p) as [row|]; [|done]. cbn in E2. destruct E2 as (j & [= <-] & Hj2).
    exists row. split; [done|]. apply (job_over_terminal _ row job); [done|]. cbn in Hl2. by apply negb_false_iff.
Qed.

Lemma pin_live_run pinned o s fs pinned' s' fs' : pin_live pinned o s fs = (Ok pinned', s', fs') ->
  s' = s /\ pinned ⊆ pinned' /\ (ob_ObjectiveID o ∉ pinned' -> Forall (provision_settled (dd_queue s)) (objective_provisions o)).
Proof.
  unfold pin_live. intros H.
  assert (HI : s' = s /\ pinned ⊆ pinned' /\ exists seen, objective_provisions o = seen ++ [] /\
    (ob_ObjectiveID o ∉ pinned' -> Forall (provision_settled (dd_queue s)) seen)).
  { revert H. apply (mfold_run _ (fun l acc t => t = s /\ pinned ⊆ acc /\ exists seen, objective_provisions o = seen ++ l /\
      (ob_ObjectiveID o ∉ acc -> Forall (provision_settled (dd_queue s)) seen))).
    - intros p l acc t fs0 acc' t' fs1 (-> & Hsub & seen & Hl & Hs) (live & t1 & fs2 & Hp & Hr)%bind_run.
      apply provision_live_run in Hp as [-> Hp]. run_step. split; [done|]. split; [destruct live; set_solver|].
      exists (seen ++ [p]). rewrite <- app_assoc. split; [done|]. intros Hni. apply Forall_app. destruct live; [set_solver|].
      split; [by apply Hs|]. constructor; [by apply Hp|constructor].
    - split; [done|]. split; [done|]. exists []. split; [done|]. constructor. }
  destruct HI as (-> & Hsub & seen & Hl & Hs). rewrite app_nil_r in Hl. subst seen. done.
Qed.

Lemma load_objectives_run ids s fs l s' fs' : load_objectives ids s fs = (Ok l, s', fs') ->
  s' = s /\ forall o, o ∈ l -> ob_ObjectiveID o ∈ ids /\
    exists row, dd_objectives s !! ob_ObjectiveID o = Some row /\ scanDevelopmentObjective (ob_ObjectiveID o) row = Ok o.
Proof.
  revert s fs l s' fs'. induction ids as [|id ids IH]; intros s fs l s' fs'; cbn [load_objectives]; intros H.
  { run_step. split; [done|]. by intros o ?%elem_of_nil. }
  apply bind_run in H as (found & s1 & fs1 & Hf & H). unfold mtry in Hf.
  destruct (developmentObjectiveByID id s fs) as [[r0 s0] fs0] eqn:E. injection Hf as <- <- <-.
  destruct r0 as [[o|]|]; [|run_step|run_step]. apply objective_by_id_run in E as [-> E].
  destruct (dd_objectives s !! id) as [row|] eqn:Erow; [|done]. destruct E as (o' & [= <-] & Hscan).
  apply bind_run in H as (rest & s1 & fs2 & Hr & H). apply IH in Hr as [-> Hr]. run_step. split; [done|].
  pose proof (scan_objective_inv _ _ _ Hscan) as (Hid & _). intros x [->|Hx]%elem_of_cons.
  - split; [rewrite Hid; left|]. exists row. by rewrite Hid.
  - apply Hr in Hx as [Hin Hx]. split; [by right|done].
Qed.

Lemma check_expired_run rows s fs ids s' fs' : check_expired rows s fs = (Ok ids, s', fs') -> s' = s /\ ids = rows.*1.
Proof.
  revert s fs ids s' fs'. induction rows as [|[id row] rows IH]; intros s fs ids s' fs'; cbn [check_expired]; intros H; [by run_step|].
  do 2 run_step. apply bind_run in H as (rest & s1 & fs2 & Hr & H). apply IH in Hr as [-> ->]. by run_step.
Qed.

Lemma scan_requests_run e rows s fs l s' fs' : scan_requests e rows s fs = (Ok l, s', fs') ->
  s' = s /\ forall id row, (id, row) ∈ rows -> exists q, scanDevelopmentRequest id row = Ok q /\ q ∈ l.
Proof.
  revert s fs l s' fs'. induction rows as [|[id row] rows IH]; intros s fs l s' fs'; cbn [scan_requests]; intros H.
  { run_step. split; [done|]. by intros ? ? ?%elem_of_nil. }
  run_step. destruct (scanDevelopmentRequest id row) as [q|] eqn:Eq; [|run_step].
  apply bind_run in H as (rest & s1 & fs2 & Hr & H). apply IH in Hr as [-> Hr]. run_step. split; [done|].
  intros id' row' [[= -> ->]|Hin]%elem_of_cons; [exists q; split; [done|left]|].
  destruct (Hr _ _ Hin) as (q' & Hq & Hl). exists q'. split; [done|by right].
Qed.

Lemma expired_objectives_elem cutoff db id row : (id, row) ∈ expired_objectives cutoff db ->
  dd_objectives db !! id = Some row /\ objective_expired cutoff row = true.
Proof.
  unfold expired_objectives. intros H. apply elem_of_take in H as (i & Hi & _). apply list_elem_of_lookup_2 in Hi.
  rewrite merge_sort_Permutation in Hi. apply list_elem_of_filter in Hi as [He Hi]. by apply elem_of_map_to_list in Hi.
Qed.

(** Pruning removes prunable objectives and nothing else. *)
Definition prunes (now : time) (db : DevDB) (kept : gmap string ObjectiveRow) : Prop :=
  kept ⊆ dd_objectives db /\ forall id, kept !! id = None -> dd_objectives db !! id = None \/ prunable now db id.

Lemma prunes_refl now db : prunes now db (dd_objectives db).
Proof. split; [done|]. by left. Qed.

Lemma with_objectives_id db : with_objectives (dd_objectives db) db = db.
Proof. by destruct db. Qed.

Lemma delete_unpinned_run now pinned o s kept fs x s' fs' : prunes now s kept ->
  (ob_ObjectiveID o ∉ pinned -> prunable now s (ob_ObjectiveID o)) ->
  delete_unpinned pinned x o (with_objectives kept s) fs = (Ok tt, s', fs') ->
  exists kept', s' = with_objectives kept' s /\ prunes now s kept'.
Proof.
  intros [Hsub Hk] Hp. unfold delete_unpinned. case_bool_decide as Hin; intros H; [run_step; by exists kept|]. do 2 run_step.
  injection H as <- _. exists (delete (ob_ObjectiveID o) kept). split; [done|]. split; [etrans; [apply delete_subseteq|done]|].
  intros id. rewrite lookup_delete_None. intros [<-|Hn]; [right; by apply Hp|by apply Hk].
Qed.

Lemma prune_objectives_run now s fs x s' fs' : pruneExpiredDevelopmentObjectives now s fs = (Ok x, s', fs') ->
  exists kept, s' = with_objectives kept s /\ prunes now s kept.
Proof.
  unfold pruneExpiredDevelopmentObjectives. intros H. do 2 run_step. injection E as <-.
  apply bind_run in H as ([rows failed] & s1 & fs1 & Hf & H). pose proof (fetch_state _ _ _ _ _ _ Hf) as ->. cbv beta iota in H.
  apply bind_run in H as (ids & s1 & fs2 & Hc & H). apply check_expired_run in Hc as [-> ->]. do 2 run_step.
  apply orb_false_iff in E0 as [-> _]. apply fetch_run in Hf as [-> _].
  destruct ((expired_objectives _ s).*1) as [|id0 ids0] eqn:Eids; [run_step; exists (dd_objectives s); split; [by rewrite with_objectives_id|apply prunes_refl]|].
  apply bind_run in H as (objectives & s1 & fs3 & Hl & H). apply load_objectives_run in Hl as [-> Hl]. run_step. injection E0 as <-.
  apply bind_run in H as ([rrows rfailed] & s1 & fs4 & Hrf & H). pose proof (fetch_state _ _ _ _ _ _ Hrf) as ->. cbv beta iota in H.
  apply bind_run in H as (requests & s1 & fs5 & Hr & H). apply scan_requests_run in Hr as [-> Hr]. do 2 run_step. subst rfailed.
  apply fetch_run in Hrf as [-> _]. apply bind_run in H as (pinned & s1 & fs6 & Hp & H).
  set (pinned0 := list_to_set _) in Hp.
  assert (HP : s1 = s /\ pinned0 ⊆ pinned /\ exists seen, objectives = seen ++ [] /\
    forall o, o ∈ seen -> ob_ObjectiveID o ∉ pinned -> Forall (provision_settled (dd_queue s)) (objective_provisions o)).
  { revert Hp. apply (mfold_run _ (fun l acc t => t = s /\ pinned0 ⊆ acc /\ exists seen, objectives = seen ++ l /\
      forall o, o ∈ seen -> ob_ObjectiveID o ∉ acc -> Forall (provision_settled (dd_queue s)) (objective_provisions o))).
    - intros o l acc t fs0 acc' t' fs7 (-> & Hsub & seen & Hs & Hset) (-> & Hsub' & Ho)%pin_live_run. split; [done|].
      split; [by etrans|]. exists (seen ++ [o]). rewrite <- app_assoc. split; [done|].
      intros o' [Ho'|Ho'%list_elem_of_singleton]%elem_of_app Hni; [apply Hset; [done|set_solver]|subst o'; by apply Ho].
    - split; [done|]. split; [done|]. exists []. split; [done|]. by intros ? ?%elem_of_nil. }
  destruct HP as (-> & Hsub & seen & Hseen & Hset). rewrite app_nil_r in Hseen. subst seen.
  assert (Hprun : forall o, o ∈ objectives -> ob_ObjectiveID o ∉ pinned -> prunable now s (ob_ObjectiveID o)).
  { intros o Ho Hni. destruct (Hl o Ho) as [Hin (row & Hrow & Hscan)]. exists row, o. split; [done|]. split; [done|].
    pose proof Hin as Hids. rewrite <- Eids in Hids. apply list_elem_of_fmap in Hids as ([id row'] & Eid & Hids).
    cbn in Eid. subst id. apply expired_objectives_elem in Hids as [Hrow' He]. assert (row' = row) by congruence. subst row'.
    apply objective_expired_spec in He as [He1 He2]. split_and!; [done|done| |by apply Hset].
    - intros rid rrow Hrr. destruct (Hr rid rrow) as (q & Hq & Hin'); [by apply elem_of_map_to_list|]. exists q. split; [done|].
      intros Heq. apply Hni, Hsub. unfold pinned0. apply elem_of_list_to_set, list_elem_of_filter. split; [done|].
      rewrite <- Heq. by apply list_elem_of_fmap_2. }
  destruct x. assert (HF : (forall o, o ∈ [] -> o ∈ objectives) /\ exists kept, s' = with_objectives kept s /\ prunes now s kept).
  { revert H. apply (mfold_run (delete_unpinned pinned) (fun l _ t => (forall o, o ∈ l -> o ∈ objectives) /\
      exists kept, t = with_objectives kept s /\ prunes now s kept)).
    - intros o l [] t fs0 [] t' fs7 (Hin & kept & -> & Hk) Hd. split; [set_solver|]. eapply delete_unpinned_run; [done| |exact Hd].
      intros Hni. apply Hprun; [|done]. apply Hin. left.
    - split; [done|]. exists (dd_objectives s). split; [by rewrite with_objectives_id|apply prunes_refl]. }
  by destruct HF.
Qed.

(** A committed change of the objective table. *)
Inductive objective_change (now : time) (db : DevDB) : DevDB -> Prop :=
| objective_created o body digest kept :
    widths o -> MarshalRecord o = Ok (body, digest) -> ob_Revision o = 1 -> ob_State o = ObjectivePlanned ->
    dd_objectives db !! ob_ObjectiveID o = None -> prunes now db kept -> Z.of_nat (size kept) < MaxDevelopmentObjectives ->
    objective_change now db (with_objectives (<[ob_ObjectiveID o := objective_row o body digest (UnixNano now) (UnixNano now)]> kept) db)
| objective_advanced o body digest row before :
    dd_objectives db !! ob_ObjectiveID o = Some row -> scanDevelopmentObjective (ob_ObjectiveID o) row = Ok before ->
    ValidateTransition before o = Ok tt -> ob_Revision o = wrapU64 (ob_Revision before + 1) ->
    widths o -> MarshalRecord o = Ok (body, digest) ->
    objective_change now db (with_objectives (<[ob_ObjectiveID o := objective_row o body digest (ow_created_at row) (UnixNano now)]>
                                                (dd_objectives db)) db).

Lemma save_objective_tx_run now o body digest s fs out s' fs' : widths o -> MarshalRecord o = Ok (body, digest) ->
  SaveDevelopmentObjective_tx o body digest now s fs = (Ok (inr out), s', fs') -> objective_change now s s'.
Proof.
  intros Hw Hm H. unfold SaveDevelopmentObjective_tx in H. apply bind_run in H as (existing & s1 & fs1 & Hex & H).
  apply objective_by_id_run in Hex as [-> Hex]. destruct (dd_objectives s !! ob_ObjectiveID o) as [row|] eqn:Erow.
  - destruct Hex as (before & -> & Hscan). destruct (MarshalRecord before) as [[b0 d0]|] eqn:Em0; [|run_step]. run_step.
    destruct (_ && _); [done|]. run_step. apply orb_false_iff in E0 as [E0%negb_false_iff%bool_decide_eq_true E1%negb_false_iff].
    do 5 run_step. unfold sql_uint64 in E2. destruct (_ <? two63); [|done]. injection E2 as <-. injection E3 as <-.
    unfold sql_update_objective in *. rewrite Erow in *. destruct (_ && _); [|done]. run_step. cbn [fst].
    eapply objective_advanced; try done. by destruct (ValidateTransition before o) as [[]|].
  - subst existing. run_step. apply orb_false_iff in E as [E1%negb_false_iff%bool_decide_eq_true E2%negb_false_iff%bool_decide_eq_true].
    apply bind_run in H as (? & s1 & fs2 & Hp & H). apply prune_objectives_run in Hp as (kept & -> & Hk). repeat run_step.
    injection E as <-. apply orb_false_iff in E0 as [_ Hcap%Z.leb_gt]. unfold sql_uint64 in E3. destruct (_ <? two63); [|done].
    unfold sql_insert_objective in E3. destruct (bool_decide _); [done|]. injection E3 as <-.
    change (with_objectives ?x (with_objectives kept s)) with (with_objectives x s). by apply objective_created.
Qed.

Lemma save_objective_run now o s fs res s' fs' : widths o -> SaveDevelopmentObjective o now s fs = (res, s', fs') ->
  s' = s \/ objective_change now s s'.
Proof.
  unfold SaveDevelopmentObjective. intros Hw H. unfold mbind at 1, mguard, mlift, reject_if in H. destruct (negb _); [left; by injection H|].
  destruct (MarshalRecord o) as [[body digest]|] eqn:Em; [|left; by injection H].
  apply in_transaction_run in H as [(a & fs1 & fs2 & _ & H)|[-> _]]; [right|by left]. by eapply save_objective_tx_run.
Qed.
