(* ===== verification/DevQueue.v ===== *)
(** * The development tables over time

    Histories of the development tables: operations with arbitrary driver faults,
    interleaved with any change of the job tables. The theorems compose the record
    format, the transition checks of objectives and requests, and the queue. *)

From stdpp Require Import relations.
From S2P Require Import Prelude GoStrings GoRegexp GoJson GoReflect Sha256 Effects PolicyScan WorkqueueTypes WorkqueueRows WorkqueueStore.
From S2P Require Import DevCapability DevAttempt DevProvision DevObjective DevOps DevInv DevHistory DevRecord DevRoundtrip DevRequest DevTables DevStore.

(** ** Histories *)
Inductive dev_op :=
| DoSaveRequest (r : DevelopmentRequest)
| DoTouchRequest (id : string) (revision : Z)
| DoSaveObjective (o : Objective).

Definition exec_op (op : dev_op) (now : time) (s : DevDB) (fs : list bool) : DevDB :=
  match op with
  | DoSaveRequest r => (run (SaveDevelopmentRequest r now) s fs).2
  | DoTouchRequest id revision => (run (TouchDevelopmentRequest id revision now) s fs).2
  | DoSaveObjective o => (run (SaveDevelopmentObjective o now) s fs).2
  end.

(** The arguments of a call are Go values. *)
Definition op_typed (op : dev_op) : Prop := match op with DoSaveObjective o => widths o | _ => True end.

Inductive dev_step (now : time) (s : DevDB) : DevDB -> Prop :=
| step_op op fs : op_typed op -> dev_step now s (exec_op op now s fs)
| step_jobs queue : dev_step now s {| dd_requests := dd_requests s; dd_objectives := dd_objectives s; dd_queue := queue |}.

Inductive dev_reachable : DevDB -> Prop :=
| dev_initial queue : dev_reachable {| dd_requests := ∅; dd_objectives := ∅; dd_queue := queue |}
| dev_next now s s' : dev_reachable s -> dev_step now s s' -> dev_reachable s'.

(** ** The invariant *)
Record tables_ok (s : DevDB) : Prop := {
  tk_requests : forall id row, dd_requests s !! id = Some row -> exists r, scanDevelopmentRequest id row = Ok r;
  tk_keys : forall id id' row row', dd_requests s !! id = Some row -> dd_requests s !! id' = Some row' ->
    rq_key_digest row = rq_key_digest row' -> id = id';
  tk_active : active_requests s <= MaxDevelopmentRequests;
  tk_objectives : forall id row, dd_objectives s !! id = Some row -> exists o, scanDevelopmentObjective id row = Ok o;
  tk_count : Z.of_nat (size (dd_objectives s)) <= MaxDevelopmentObjectives }.

(** Rows that are open. *)
Definition open_rows (m : gmap string RequestRow) : gmap string RequestRow :=
  filter (fun e => developmentRequestTerminal (rq_state (snd e)) = false) m.

Lemma open_rows_insert i x m : open_rows (<[i := x]> m) ⊆ <[i := x]> (open_rows m).
Proof.
  apply map_subseteq_spec. intros j y. unfold open_rows. rewrite map_lookup_filter_Some. intros [Hj Hy].
  destruct (decide (i = j)) as [->|Hne]; [by rewrite lookup_insert_eq in *|]. rewrite lookup_insert_ne in * by done.
  by apply map_lookup_filter_Some.
Qed.

Lemma open_rows_pruned now s : open_rows (dd_requests (pruned_requests now s)) = open_rows (dd_requests s).
Proof.
  apply map_eq. intros i. unfold open_rows. cbn [pruned_requests with_requests dd_requests]. apply option_eq. intros x.
  rewrite !map_lookup_filter_Some. unfold request_expired. cbn [snd]. split; [by intros [[? _] ?]|].
  intros [Hi Hx]. by rewrite Hx.
Qed.

Lemma pruned_lookup now s id row : dd_requests (pruned_requests now s) !! id = Some row -> dd_requests s !! id = Some row.
Proof. cbn [pruned_requests with_requests dd_requests]. by intros [? _]%map_lookup_filter_Some. Qed.

Lemma key_absent key s id row : request_with_key key s = None -> dd_requests s !! id = Some row -> rq_key_digest row <> key.
Proof.
  unfold request_with_key. intros H Hi Hk.
  assert (Hin : (id, row) ∈ filter (fun e => rq_key_digest (snd e) = key) (map_to_list (dd_requests s))).
  { apply list_elem_of_filter. split; [done|]. by apply elem_of_map_to_list. }
  destruct (filter _ _); [by apply elem_of_nil in Hin|done].
Qed.

Lemma row_columns id row r : scanDevelopmentRequest id row = Ok r ->
  dr_ID r = id /\ rq_key_digest row = dr_KeyDigest r /\ rq_state row = dr_State r /\ rq_revision row = dr_Revision r /\ dr_Valid r = true.
Proof.
  intros (_ & Hid & Hm & Hrow)%scan_request_spec. apply marshal_request_inv in Hm as (Hv & _). by rewrite Hrow.
Qed.

Lemma scan_request_row r body digest created updated : marshalDevelopmentRequest r = Ok (body, digest) -> 1 <= dr_Revision r ->
  scanDevelopmentRequest (dr_ID r) (request_row r body digest created updated) = Ok r.
Proof. intros Hm Hr. by apply scan_request_spec. Qed.

Lemma revision_bounds r : dr_Valid r = true -> 0 <= dr_Revision r -> 1 <= dr_Revision r <= 1048576.
Proof.
  intros [H1 H2]%request_revision H. change maxDevelopmentRequestRevision with 1048576 in H2. lia.
Qed.

(** The next revision of a stored request does not wrap. *)
Lemma next_request_revision r : dr_Valid r = true -> 1 <= dr_Revision r -> wrapU64 (dr_Revision r + 1) = dr_Revision r + 1.
Proof.
  intros Hv Hr. pose proof (revision_bounds r Hv ltac:(lia)). unfold wrapU64, two64. rewrite Z.mod_small; lia.
Qed.

(** *** Requests *)
(** Every change writes one row: a new one, or the next revision of an open one. *)
Lemma request_change_writes now db db' : request_change now db db' ->
  exists r body digest created updated base,
    db' = with_requests (<[dr_ID r := request_row r body digest created updated]> base) db /\
    base ⊆ dd_requests db /\ open_rows base = open_rows (dd_requests db) /\
    marshalDevelopmentRequest r = Ok (body, digest) /\ 1 <= dr_Revision r /\
    ((base !! dr_ID r = None /\ (forall id row, base !! id = Some row -> rq_key_digest row <> dr_KeyDigest r) /\
      Z.of_nat (size (open_rows base)) < MaxDevelopmentRequests) \/
     exists row, base !! dr_ID r = Some row /\ rq_key_digest row = dr_KeyDigest r /\ developmentRequestTerminal (rq_state row) = false).
Proof.
  destruct 1 as [r body digest Hi Hm Hn Hk Ha | r body digest row before u Hrow Hs Ht Hm Hu | body digest row before u Hrow Hs Ht _ Hm Hu];
    [exists r | exists r | exists (bump_revision before)]; eexists body, digest, _, _, _; (split; [reflexivity|]).
  - split_and!; [apply map_subseteq_spec, pruned_lookup|apply open_rows_pruned|done| |].
    + unfold validInitialDevelopmentRequest in Hi. breflect. lia.
    + left. split_and!; [done| |done]. intros id row. by apply key_absent.
  - apply row_columns in Hs as (Hid & Hkey & Hst & Hrev & Hv). unfold validDevelopmentRequestTransition in Ht.
    destruct (_ || _) eqn:E in Ht; [done|]. breflect.
    split_and!; [apply map_subseteq_spec, pruned_lookup|apply open_rows_pruned|done| |right; exists row; split_and!; [done|congruence|congruence]].
    pose proof (marshal_request_inv _ _ _ Hm) as (Hvr & _).
    apply (revision_bounds r Hvr).
    match goal with H : dr_Revision r = _ |- _ => rewrite H end. apply Z.mod_pos_bound. unfold two64. lia.
  - pose proof (proj1 (scan_request_spec _ _ _) Hs) as (Hr1 & _).
    apply row_columns in Hs as (Hid & Hkey & Hst & Hrev & Hv).
    split_and!; [done|done|done|cbn [bump_revision dr_Revision]; rewrite next_request_revision by done; lia|].
    right. exists row. split_and!; [done|done|congruence].
Qed.

Lemma tables_requests_ok now s s' : request_change now s s' -> tables_ok s -> tables_ok s'.
Proof.
  intros (r & body & digest & created & updated & base & -> & Hsub & Hopen & Hm & Hr & Hcase)%request_change_writes [Hreq Hkeys Hact Hobj Hcnt].
  pose proof (fun i x H => lookup_weaken _ _ i x H Hsub) as Hbase. split; cbn [with_requests dd_requests dd_objectives]; [| | |done..].
  - intros id row [[<- <-]|[_ Hid]]%lookup_insert_Some; [exists r; by apply scan_request_row|]. by eapply Hreq, Hbase.
  - assert (Hother : forall id row, id <> dr_ID r -> base !! id = Some row -> rq_key_digest row <> dr_KeyDigest r).
    { intros id row Hne Hid. destruct Hcase as [(_ & Hfresh & _)|(row0 & Hrow0 & Hkey & _)]; [by eapply Hfresh|].
      intros Hk. apply Hne. eapply Hkeys; [by apply Hbase|by apply Hbase|congruence]. }
    intros id id' row row' [[<- <-]|[Hne Hid]]%lookup_insert_Some [[<- <-]|[Hne' Hid']]%lookup_insert_Some Hk; cbn in Hk; [done| | |].
    + by destruct (Hother id' row').
    + by destruct (Hother id row).
    + eapply Hkeys; [by apply Hbase|by apply Hbase|done].
  - unfold active_requests in *. cbn [with_requests dd_requests]. fold (open_rows (dd_requests s)) in Hact.
    change (filter _ ?m) with (open_rows m). etrans; [apply inj_le, map_subseteq_size, open_rows_insert|].
    destruct Hcase as [(Hn & _ & Hlt)|(row & Hrow & _ & Hst)].
    + rewrite map_size_insert. destruct (open_rows base !! dr_ID r); unfold id; lia.
    + rewrite map_size_insert_Some; [by rewrite Hopen|]. exists row. unfold open_rows. by apply map_lookup_filter_Some.
Qed.

(** *** Objectives *)
Lemma valid_objective_revision o body digest : MarshalRecord o = Ok (body, digest) -> widths o -> 1 <= ob_Revision o.
Proof.
  intros (Ho & _)%marshal_inv [[Hr _] _]. destruct (oo_header o Ho) as (_ & _ & Hne & _). lia.
Qed.

Lemma tables_objectives_ok now s s' : objective_change now s s' -> tables_ok s -> tables_ok s'.
Proof.
  destruct 1 as [o body digest kept Hw Hm _ _ Hn [Hsub _] Hsize | o body digest row before Hrow Hs Ht _ Hw Hm];
    intros [Hreq Hkeys Hact Hobj Hcnt]; pose proof (valid_objective_revision _ _ _ Hm Hw) as Hr;
    (split; [done|done|done| |]); cbn [with_objectives dd_objectives].
  - intros id row [[<- <-]|[_ Hid]]%lookup_insert_Some; [exists o; by apply scan_objective_written|].
    eapply Hobj, lookup_weaken; eauto.
  - rewrite map_size_insert. destruct (kept !! _); unfold id; lia.
  - intros id row' [[<- <-]|[_ Hid]]%lookup_insert_Some; [exists o; by apply scan_objective_written|]. by eapply Hobj.
  - rewrite map_size_insert_Some; [done|]. by exists row.
Qed.

(** ** Steps *)
Lemma dev_step_cases now s s' : dev_step now s s' ->
  (dd_requests s' = dd_requests s /\ dd_objectives s' = dd_objectives s) \/ request_change now s s' \/ objective_change now s s'.
Proof.
  destruct 1 as [[r|id revision|o] fs Hty | queue]; [| | |by left]; cbn [exec_op]; unfold run.
  - destruct (SaveDevelopmentRequest r now s fs) as [[res s'] fs'] eqn:E. apply save_request_run in E as [->|H]; auto.
  - destruct (TouchDevelopmentRequest id revision now s fs) as [[res s'] fs'] eqn:E. apply touch_request_run in E as [->|H]; auto.
  - destruct (SaveDevelopmentObjective o now s fs) as [[res s'] fs'] eqn:E. apply save_objective_run in E as [->|H]; auto.
Qed.

Lemma tables_ok_same s s' : dd_requests s' = dd_requests s -> dd_objectives s' = dd_objectives s -> tables_ok s -> tables_ok s'.
Proof. destruct s, s'; cbn. intros -> -> []. by split. Qed.

Lemma dev_step_ok now s s' : dev_step now s s' -> tables_ok s -> tables_ok s'.
Proof.
  intros [[H1 H2]|[H|H]]%dev_step_cases; [by apply tables_ok_same|by eapply tables_requests_ok|by eapply tables_objectives_ok].
Qed.

Lemma tables_ok_initial queue : tables_ok {| dd_requests := ∅; dd_objectives := ∅; dd_queue := queue |}.
Proof. by split; cbn; try set_solver. Qed.

Lemma dev_reachable_ok s : dev_reachable s -> tables_ok s.
Proof. induction 1 as [queue|now s s' _ IH H]; [apply tables_ok_initial|by eapply dev_step_ok]. Qed.
