(* ===== verification/DevLedger.v ===== *)
(** * What the development tables guarantee

    The theorems about the tables of requests and objectives over any history of
    operations, driver faults and changes of the job tables. *)

From stdpp Require Import relations.
From S2P Require Import Prelude GoStrings GoRegexp GoJson GoReflect Sha256 Effects PolicyScan WorkqueueTypes WorkqueueRows WorkqueueStore.
From S2P Require Import DevCapability DevAttempt DevProvision DevObjective DevOps DevInv DevHistory DevRecord DevRoundtrip DevRequest DevTables DevStore DevQueue.

(** ** The life of a request *)
(** An identity that is set once and then kept. *)
Definition set_once (before after : string) : Prop := before = "" \/ after = before.

Record request_next (r r' : DevelopmentRequest) : Prop := {
  rn_id : dr_ID r' = dr_ID r;
  rn_binding : sameDevelopmentRequestBinding r r' = true;
  rn_open : developmentRequestTerminal (dr_State r) = false;
  rn_revision : dr_Revision r' = dr_Revision r + 1;
  rn_state : validDevelopmentRequestStateTransition (dr_State r) (dr_State r') = true;
  rn_inspection : set_once (dr_InspectionOperationID r) (dr_InspectionOperationID r');
  rn_objective : set_once (dr_ObjectiveID r) (dr_ObjectiveID r');
  rn_process : set_once (dr_ProcessID r) (dr_ProcessID r') }.

Lemma set_once_spec before after valid : setOnceDevelopmentRequestID before after valid = true -> set_once before after.
Proof.
  unfold setOnceDevelopmentRequestID, set_once. destruct (bool_decide_reflect (before = "")); [by left|]. intros H. breflect. by right.
Qed.
#[local] Hint Resolve set_once_spec : core.

Lemma transition_next r r' : 1 <= dr_Revision r -> validDevelopmentRequestTransition r r' = true -> request_next r r'.
Proof.
  unfold validDevelopmentRequestTransition. intros Hr H. destruct (_ || _) eqn:E in H; [done|]. clear H. breflect.
  rewrite next_request_revision in * by done. split; eauto; try congruence.
  unfold sameDevelopmentRequestBinding. repeat (rewrite andb_true_iff; split); by apply bool_decide_eq_true.
Qed.

Lemma bump_next r : 1 <= dr_Revision r -> dr_Valid r = true -> developmentRequestTerminal (dr_State r) = false ->
  request_next r (bump_revision r).
Proof.
  intros Hr Hv Ht. split; cbn [bump_revision dr_Revision dr_ID dr_State dr_InspectionOperationID dr_ObjectiveID dr_ProcessID];
    [done| |done|by apply next_request_revision| |by right..].
  - unfold sameDevelopmentRequestBinding. cbn. by rewrite !bool_decide_true.
  - unfold validDevelopmentRequestStateTransition. by rewrite bool_decide_true.
Qed.

(** What a step may do to a stored request. *)
Inductive request_fate (now : time) (s' : DevDB) (id : string) (row : RequestRow) (r : DevelopmentRequest) : Prop :=
| request_kept : dd_requests s' !! id = Some row -> request_fate now s' id row r
| request_moved row' r' : dd_requests s' !! id = Some row' -> scanDevelopmentRequest id row' = Ok r' -> request_next r r' ->
    rq_created_at row' = rq_created_at row -> rq_updated_at row < rq_updated_at row' -> request_fate now s' id row r
| request_gone : rq_state row ∈ [DevelopmentRequestCompleted; DevelopmentRequestFailed; DevelopmentRequestCancelled] ->
    rq_updated_at row <= UnixNano (TimeAdd now (- (30 * 24 * Hour))) ->
    (dd_requests s' !! id = None \/
     exists row' r', dd_requests s' !! id = Some row' /\ scanDevelopmentRequest id row' = Ok r' /\ validInitialDevelopmentRequest r' = true) ->
    request_fate now s' id row r.

Lemma pruned_cases now s id row : dd_requests s !! id = Some row ->
  dd_requests (pruned_requests now s) !! id = Some row \/
  (dd_requests (pruned_requests now s) !! id = None /\
   rq_state row ∈ [DevelopmentRequestCompleted; DevelopmentRequestFailed; DevelopmentRequestCancelled] /\
   rq_updated_at row <= UnixNano (TimeAdd now (- (30 * 24 * Hour)))).
Proof.
  intros H. cbn [pruned_requests with_requests dd_requests].
  destruct (request_expired (UnixNano (TimeAdd now (- DevelopmentRequestIdempotencyTTL))) row) eqn:E.
  - right. split; [apply map_lookup_filter_None_2; right; intros x Hx; cbn; assert (x = row) by congruence; subst; by rewrite E|].
    unfold request_expired, developmentRequestTerminal in E. rewrite andb_true_iff, !orb_true_iff, !bool_decide_eq_true, Z.leb_le in E.
    destruct E as [Es ?]. split; [|done]. set_solver.
  - left. by apply map_lookup_filter_Some.
Qed.

Lemma initial_revision r : validInitialDevelopmentRequest r = true -> 1 <= dr_Revision r.
Proof. unfold validInitialDevelopmentRequest. intros H. breflect. lia. Qed.

Lemma request_change_fate now s s' id row r : request_change now s s' -> dd_requests s !! id = Some row ->
  scanDevelopmentRequest id row = Ok r -> request_fate now s' id row r.
Proof.
  intros H Hrow Hscan. pose proof (proj1 (scan_request_spec _ _ _) Hscan) as (Hr & Hid & _). pose proof (row_columns _ _ _ Hscan) as (_ & _ & _ & _ & Hv).
  destruct H as [q body digest Hi Hm Hn Hk Ha | q body digest row0 before u Hrow0 Hs Ht Hm Hu | body digest row0 before u Hrow0 Hs Ht _ Hm Hu].
  - destruct (pruned_cases now s id row Hrow) as [Hp|(Hp & He1 & He2)].
    + apply request_kept. cbn [with_requests dd_requests]. rewrite lookup_insert_ne; [done|]. intros <-. congruence.
    + apply request_gone; [done|done|]. cbn [with_requests dd_requests]. destruct (decide (dr_ID q = id)) as [<-|Hne].
      * right. rewrite lookup_insert_eq. eexists _, q. split_and!; [done|by apply scan_request_row; [|apply initial_revision]|done].
      * left. by rewrite lookup_insert_ne.
  - destruct (decide (dr_ID q = id)) as [<-|Hne].
    + pose proof (pruned_lookup _ _ _ _ Hrow0) as Hsame. assert (row0 = row) by congruence. subst row0. assert (before = r) by congruence. subst before.
      apply transition_next in Ht as Hnext; [|done].
      eapply (request_moved _ _ _ _ _ (request_row q body digest (rq_created_at row) u) q); [by apply lookup_insert_eq| |done..].
      apply scan_request_row; [done|]. rewrite (rn_revision _ _ Hnext). lia.
    + destruct (pruned_cases now s id row Hrow) as [Hp|(Hp & He1 & He2)].
      * apply request_kept. cbn [with_requests dd_requests]. by rewrite lookup_insert_ne.
      * apply request_gone; [done|done|]. left. cbn [with_requests dd_requests]. by rewrite lookup_insert_ne.
  - destruct (decide (dr_ID before = id)) as [<-|Hne].
    + assert (row0 = row) by congruence. subst row0. assert (before = r) by congruence. subst before.
      pose proof (bump_next r Hr Hv Ht) as Hnext.
      eapply (request_moved _ _ _ _ _ (request_row (bump_revision r) body digest (rq_created_at row) u) (bump_revision r));
        [by apply lookup_insert_eq| |done..].
      apply (scan_request_row (bump_revision r)); [done|]. rewrite (rn_revision _ _ Hnext). lia.
    + apply request_kept. cbn [with_requests dd_requests]. by rewrite lookup_insert_ne.
Qed.

(** ** Reads without driver faults *)
Lemma scan_requests_quiet e rows s : (forall id row, (id, row) ∈ rows -> exists r, scanDevelopmentRequest id row = Ok r) ->
  exists l, scan_requests e rows s [] = (Ok l, s, []).
Proof.
  induction rows as [|[id row] rows IH]; intros H; cbn [scan_requests]; [by exists []|].
  destruct (H id row) as [r Hr]; [left|]. destruct IH as [l Hl]; [intros; apply H; by right|].
  unfold mbind, driver. cbn [next_fault]. rewrite Hr, Hl. by eexists.
Qed.

Lemma integrity_quiet s : tables_ok s -> run developmentRequestIntegrity s [] = (Ok tt, s).
Proof.
  intros Hs. unfold run, developmentRequestIntegrity. unfold mbind at 1, mget at 1.
  match goal with |- context [Some (merge_sort ?R ?l)] => set (rows := merge_sort R l) end.
  destruct (scan_requests_quiet "workqueue: development request integrity failed" rows s) as [l Hl].
  { intros id row Hin. unfold rows in Hin. rewrite merge_sort_Permutation in Hin. by apply elem_of_map_to_list, (tk_requests s Hs) in Hin. }
  unfold mbind at 1, driver at 1. cbn [next_fault]. unfold mbind at 1. rewrite fetch_quiet. unfold mbind. by rewrite Hl.
Qed.

Lemma scan_ids_quiet seen rows s : seen + Z.of_nat (length rows) <= MaxDevelopmentObjectives ->
  scan_objective_ids seen rows s [] = (Ok rows.*1, s, []).
Proof.
  revert seen. induction rows as [|[id row] rows IH]; intros seen H; cbn [scan_objective_ids length] in *; [done|].
  unfold mbind, driver, mguard, mlift. cbn [next_fault]. rewrite (proj2 (Z.ltb_ge _ _)) by lia. cbn [reject_if].
  rewrite IH by lia. done.
Qed.

Lemma check_objectives_quiet ids s :
  (forall id, id ∈ ids -> exists row o, dd_objectives s !! id = Some row /\ scanDevelopmentObjective id row = Ok o) ->
  check_objectives ids s [] = (Ok tt, s, []).
Proof.
  induction ids as [|id ids IH]; intros H; cbn [check_objectives]; [done|]. destruct (H id) as (row & o & Hrow & Ho); [left|].
  unfold mbind, mtry, developmentObjectiveByID, mget, driver, mlift. unfold mbind. cbn [next_fault]. rewrite Hrow, Ho.
  apply IH. intros. apply H. by right.
Qed.

Lemma objective_integrity_quiet s : tables_ok s -> run objectiveIntegrity s [] = (Ok tt, s).
Proof.
  intros Hs. unfold run, objectiveIntegrity. unfold mbind at 1, mget at 1. set (rows := merge_sort id_le (map_to_list (dd_objectives s))).
  assert (Hperm : rows ≡ₚ map_to_list (dd_objectives s)) by apply merge_sort_Permutation.
  unfold mbind at 1, driver at 1. cbn [next_fault]. unfold mbind at 1. rewrite fetch_quiet. unfold mbind at 1.
  rewrite scan_ids_quiet; [|rewrite Hperm, length_map_to_list; exact (tk_count s Hs)].
  unfold mbind, driver. cbn [next_fault]. rewrite check_objectives_quiet; [done|].
  intros id ([id' row] & -> & Hin)%list_elem_of_fmap. rewrite Hperm, elem_of_map_to_list in Hin. cbn.
  destruct (tk_objectives s Hs id' row Hin) as [o Ho]. by exists row, o.
Qed.

(** ** The life of an objective *)
Definition reads (s : DevDB) (id : string) (o : Objective) : Prop :=
  exists row, dd_objectives s !! id = Some row /\ scanDevelopmentObjective id row = Ok o.

Lemma objective_change_fate now s s' id o : objective_change now s s' -> reads s id o ->
  (exists o', reads s' id o' /\ stored_revisions o o' /\ ob_Revision o <= ob_Revision o') \/ (prunable now s id /\ dd_objectives s' !! id = None).
Proof.
  intros H (row & Hrow & Hscan). destruct H as [q body digest kept Hw Hm _ _ Hn [Hsub Hk] Hsize | q body digest row0 before Hrow0 Hs Ht Hrev Hw Hm].
  - assert (Hne : ob_ObjectiveID q <> id) by (intros <-; congruence). unfold reads. cbn [with_objectives dd_objectives].
    rewrite lookup_insert_ne by done. destruct (kept !! id) as [row'|] eqn:E.
    + left. exists o. split_and!; [exists row'; split; [done|]|apply rtc_refl|done].
      pose proof (lookup_weaken _ _ _ _ E Hsub) as Hrow'. assert (row' = row) by congruence. by subst.
    + right. destruct (Hk id E) as [Habs|Hp]; [congruence|done].
  - left. destruct (decide (ob_ObjectiveID q = id)) as [<-|Hne].
    + assert (row0 = row) by congruence. subst row0. assert (before = o) by congruence. subst before. exists q.
      pose proof (valid_objective_revision _ _ _ Hm Hw). split_and!.
      * exists (objective_row q body digest (ow_created_at row) (UnixNano now)). split; [apply lookup_insert_eq|by apply scan_objective_written].
      * by apply rtc_once.
      * apply scan_objective_inv in Hscan as (_ & _ & [[? Hlt] _] & _). unfold wrapU64, two64 in *.
        destruct (decide (ob_Revision o + 1 = 18446744073709551616)) as [E|]; [rewrite E, Z.mod_same in Hrev by done; lia|].
        rewrite Z.mod_small in Hrev by lia. lia.
    + exists o. split_and!; [exists row; split; [|done]|apply rtc_refl|done]. cbn [with_objectives dd_objectives]. by rewrite lookup_insert_ne.
Qed.

Definition dev_steps : relation DevDB := rtc (fun s s' => exists now, dev_step now s s').

Lemma dev_step_fate now s s' id o : dev_step now s s' -> reads s id o ->
  (exists o', reads s' id o' /\ stored_revisions o o' /\ ob_Revision o <= ob_Revision o') \/ (prunable now s id /\ dd_objectives s' !! id = None).
Proof.
  intros H Hr. apply dev_step_cases in H as [[_ E]|[H|H]].
  - left. exists o. unfold reads. rewrite E. split_and!; [done|apply rtc_refl|done].
  - left. exists o. assert (dd_objectives s' = dd_objectives s) as E by (by destruct H). unfold reads. rewrite E.
    split_and!; [done|apply rtc_refl|done].
  - by eapply objective_change_fate.
Qed.

(** How the stored versions of an objective continue over a history: they are
    revisions of it, up to a sweep that was allowed to remove it. *)
Inductive objective_fate (s s' : DevDB) (id : string) (o : Objective) : Prop :=
| objective_stored o' : reads s' id o' -> stored_revisions o o' -> ob_Revision o <= ob_Revision o' -> extends o o' ->
    (terminal o = true -> o' = o) -> objective_fate s s' id o
| objective_swept now s1 s2 o1 : dev_steps s s1 -> reads s1 id o1 -> stored_revisions o o1 -> prunable now s1 id ->
    dev_step now s1 s2 -> dd_objectives s2 !! id = None -> dev_steps s2 s' -> objective_fate s s' id o.

Lemma stored_trans o o1 o' : stored_revisions o o1 -> stored_revisions o1 o' -> stored_revisions o o'.
Proof. unfold stored_revisions. by etrans. Qed.

(** ** Saving and reading back *)
(** [o'] is the version of [o] that a save reports: the stored one has its revision
    and its record digest. *)
Definition same_version (o o' : Objective) : Prop :=
  ob_Revision o' = ob_Revision o /\
  exists body body' digest, MarshalRecord o = Ok (body, digest) /\ MarshalRecord o' = Ok (body', digest).

Lemma save_tx_committed now o body digest s fs o' created s' fs' : widths o -> MarshalRecord o = Ok (body, digest) ->
  SaveDevelopmentObjective_tx o body digest now s fs = (Ok (inr (o', created)), s', fs') -> o' = o /\ reads s' (ob_ObjectiveID o) o.
Proof.
  intros Hw Hm H. pose proof (valid_objective_revision _ _ _ Hm Hw) as Hr. unfold SaveDevelopmentObjective_tx in H.
  assert (Hreads : forall m c u, reads (with_objectives (<[ob_ObjectiveID o := objective_row o body digest c u]> m) s) (ob_ObjectiveID o) o).
  { intros m c u. eexists. split; [apply lookup_insert_eq|by apply scan_objective_written]. }
  apply bind_run in H as (existing & s1 & fs1 & Hex & H). apply objective_by_id_run in Hex as [-> Hex].
  destruct (dd_objectives s !! ob_ObjectiveID o) as [row|] eqn:Erow.
  - destruct Hex as (before & -> & _). destruct (MarshalRecord before) as [[b0 d0]|]; [|run_step]. run_step.
    destruct (_ && _); [done|]. do 6 run_step. unfold sql_uint64, sql_update_objective in *. rewrite Erow in *.
    destruct (_ <? two63); [|done]. injection E1 as <-. injection E2 as <-.
    destruct (_ && _); [|done]. injection H as <- _ <- _. split; [done|]. apply Hreads.
  - subst existing. run_step. apply bind_run in H as (? & s1 & fs2 & Hp & H).
    apply prune_objectives_run in Hp as (kept & -> & _). do 5 run_step. unfold mret in H. injection H as <- _ <- _.
    match goal with H : sql_uint64 _ _ = Some _ |- _ => rename H into Hins end. unfold sql_uint64, sql_insert_objective in Hins.
    destruct (_ <? two63) in Hins; [|done]. destruct (bool_decide _) in Hins; [done|]. injection Hins as <-. split; [done|]. apply Hreads.
Qed.

Lemma save_tx_replayed now o body digest s fs o' created db fs' : MarshalRecord o = Ok (body, digest) ->
  SaveDevelopmentObjective_tx o body digest now s fs = (Ok (inl (o', created)), db, fs') ->
  reads s (ob_ObjectiveID o) o' /\ same_version o o'.
Proof.
  intros Hm H. unfold SaveDevelopmentObjective_tx in H. apply bind_run in H as (existing & s1 & fs1 & Hex & H).
  apply objective_by_id_run in Hex as [-> Hex]. destruct (dd_objectives s !! ob_ObjectiveID o) as [row|] eqn:Erow.
  - destruct Hex as (before & -> & Hs). destruct (MarshalRecord before) as [[b0 d0]|] eqn:Em; [|run_step]. run_step.
    destruct (_ && _) eqn:Eq.
    + run_step. breflect. subst d0. split; [by exists row|]. split; [done|]. by eexists _, _, _.
    + repeat run_step. done.
  - subst existing. run_step. apply bind_run in H as (? & s1 & fs2 & Hp & H). repeat run_step. done.
Qed.

Lemma save_objective_result now o s fs o' created s' fs' : widths o -> SaveDevelopmentObjective o now s fs = (Ok (o', created), s', fs') ->
  ob_Valid o = true /\ reads s' (ob_ObjectiveID o) o' /\ same_version o o' /\ (o' = o \/ s' = s).
Proof.
  unfold SaveDevelopmentObjective. intros Hw H. run_step. apply negb_false_iff in E. split; [done|].
  destruct (MarshalRecord o) as [[body digest]|] eqn:Em; [|run_step].
  apply in_transaction_run in H as [([o1 c1] & fs1 & fs2 & [= <- <-] & H)|[-> H]].
  - apply save_tx_committed in H as [-> Hr]; [|done..]. split_and!; [done| |by left]. split; [done|]. by eexists _, _, _.
  - destruct (H (o', created) eq_refl) as (fs1 & db & fs2 & Htx). apply save_tx_replayed in Htx as [Hr Hsame]; [|done].
    split_and!; [done..|by right].
Qed.

Lemma reads_id s id o : reads s id o -> ob_ObjectiveID o = id /\ ValidObjectiveID id = true.
Proof.
  intros (row & _ & Hs). split; [by apply scan_objective_inv in Hs as (? & _)|]. unfold scanDevelopmentObjective in Hs.
  apply reject_ok in Hs as [Hc _]. by breflect.
Qed.

Lemma by_id_quiet s id o : reads s id o -> developmentObjectiveByID id s [] = (Ok (Some o), s, []).
Proof.
  intros (row & Hrow & Hs). unfold developmentObjectiveByID, mbind, mget, driver. cbn [next_fault]. rewrite Hrow.
  unfold mlift. by rewrite Hs.
Qed.

Lemma get_quiet s id o : reads s id o -> run (GetDevelopmentObjective id) s [] = (Ok (Some o), s).
Proof.
  intros Hr. unfold run, GetDevelopmentObjective, mbind, mguard, mlift. destruct (reads_id _ _ _ Hr) as [_ ->]. cbn [negb reject_if].
  by rewrite (by_id_quiet _ _ _ Hr).
Qed.

Lemma replay_quiet now o s o' : ob_Valid o = true -> reads s (ob_ObjectiveID o) o' -> same_version o o' ->
  run (SaveDevelopmentObjective o now) s [] = (Ok (o', false), s).
Proof.
  intros Hv Hr [Hrev (body & body' & digest & Hm & Hm')]. unfold run, SaveDevelopmentObjective.
  unfold mbind at 1, mguard at 1, mlift at 1. rewrite Hv, Hm. cbn [negb reject_if]. unfold in_transaction.
  unfold mbind at 1, mget at 1. unfold mbind at 1, driver at 1. cbn [next_fault]. unfold mbind at 1, on_copy.
  unfold SaveDevelopmentObjective_tx. unfold mbind at 1. rewrite (by_id_quiet _ _ _ Hr), Hm'.
  pose proof (marshal_inv _ _ _ Hm') as (_ & _ & _ & Hd). unfold mbind at 1, mguard at 1, mlift at 1.
  rewrite (bool_decide_false (digest = "")) by (by rewrite Hd). cbn [reject_if].
  rewrite Hrev, !bool_decide_true by done. done.
Qed.

(** ** The theorems *)
(** C29 In every state the development tables can reach, whatever driver calls failed
    on the way and whatever the job tables did, every stored request and objective is
    read back (its columns and digest agree with its canonical record), every stored
    objective is well formed, no two requests share an idempotency key, at most 1024
    requests are open and at most 1024 objectives are kept; and the integrity scans of
    both tables pass. *)
Theorem development_tables_sound s : dev_reachable s ->
  tables_ok s /\ run developmentRequestIntegrity s [] = (Ok tt, s) /\ run objectiveIntegrity s [] = (Ok tt, s) /\
  forall id, is_Some (dd_objectives s !! id) -> exists o, reads s id o /\ ob_Valid o = true.
Proof.
  intros Hs%dev_reachable_ok. split_and!; [done|by apply integrity_quiet|by apply objective_integrity_quiet|]. intros id [row Hrow].
  destruct (tk_objectives s Hs id row Hrow) as [o Ho]. exists o. split; [by exists row|].
  apply scan_objective_inv in Ho as (_ & _ & _ & (Hok & _)%marshal_inv & _). by apply ob_Valid_spec.
Qed.

(** C30 A step of the tables leaves a stored request as it is, or replaces it by its
    next revision (same identity and binding, revision one higher without wrapping, a
    permitted change of state out of an open state, identities of its inspection,
    objective and process set once, a later time stamp), or removes it, which only
    happens to a finished request older than the idempotency time; only then its
    identity can be used for a new request. *)
Theorem request_lifecycle now s s' id row r : dev_step now s s' -> dd_requests s !! id = Some row ->
  scanDevelopmentRequest id row = Ok r -> request_fate now s' id row r.
Proof.
  intros H Hrow Hscan. apply dev_step_cases in H as [[E _]|[H|H]].
  - apply request_kept. by rewrite E.
  - by eapply request_change_fate.
  - apply request_kept. by destruct H.
Qed.

(** C28 Over any history the stored versions of an objective are accepted revisions of
    one another, with a revision number that never falls, until a sweep removes it; a
    sweep removes an objective only when it is finished, older than the retention time,
    named by no stored request and without a provisioning job that is still live. What
    was recorded is therefore never rewritten: attempts and provisions only extend, and
    a finished objective stays as it is. *)
Theorem objective_store_history s s' id o : dev_steps s s' -> reads s id o -> objective_fate s s' id o.
Proof.
  intros H. revert o. induction H as [s|s s1 s' [now H] Hrest IH]; intros o Hr; [by eapply objective_stored; [done|apply rtc_refl|..]|].
  destruct (dev_step_fate _ _ _ _ _ H Hr) as [(o1 & Hr1 & Hs1 & Hle)|[Hp Hn]].
  - destruct (IH o1 Hr1) as [o' Hr' Hs' Hle' _ _|now1 s2 s3 o2 Hst Hr2 Hs2 Hp2 Hstep Hn2 Hend].
    + pose proof (stored_trans _ _ _ Hs1 Hs') as Hs.
      eapply objective_stored; [done|done|lia|by apply stored_revisions_extend|by apply stored_revisions_terminal].
    + eapply objective_swept; [eapply rtc_l; [by exists now|done]|done|by eapply stored_trans|done..].
  - eapply objective_swept; [apply rtc_refl|done|apply rtc_refl|done..].
Qed.

(** A save that reports success is durable and may be repeated: the objective it
    reports has the revision and record digest of the one that was passed, is the one
    passed unless nothing was written, is returned by the next read, and the same save
    made again succeeds without changing the tables. *)
Theorem save_objective_durable now o s fs o' created s' : widths o ->
  run (SaveDevelopmentObjective o now) s fs = (Ok (o', created), s') ->
  same_version o o' /\ (o' = o \/ s' = s) /\
  run (GetDevelopmentObjective (ob_ObjectiveID o)) s' [] = (Ok (Some o'), s') /\
  forall now', run (SaveDevelopmentObjective o now') s' [] = (Ok (o', false), s').
Proof.
  unfold run at 1. intros Hw H. destruct (SaveDevelopmentObjective o now s fs) as [[res t] fs'] eqn:E. cbn in H. injection H as -> ->.
  apply save_objective_result in E as (Hv & Hr & Hsame & Hor); [|done]. split_and!; [done..|by apply get_quiet|].
  intros now'. by apply replay_quiet.
Qed.
