(* ===== verification/DevLedgerExamples.v ===== *)
(** * The development tables on concrete data

    A request and an objective are saved, advanced and read back. *)

From stdpp Require Import relations.
From S2P Require Import Prelude GoStrings GoRegexp GoJson GoReflect Sha256 Effects PolicyScan WorkqueueTypes WorkqueueRows WorkqueueStore Workqueue.
From S2P Require Import DevCapability DevAttempt DevProvision DevObjective DevOps DevInv DevHistory DevRecord DevRoundtrip DevelopmentExamples DevRequest DevTables DevStore DevQueue DevLedger.

Definition demo_now : time := 1700000000000000000.
Definition tables0 : DevDB := {| dd_requests := ∅; dd_objectives := ∅; dd_queue := empty_db |}.

Definition demo_request : DevelopmentRequest := Eval vm_compute in
  {| dr_ID := "dr_00112233445566778899aabbccddeeff"; dr_Revision := 1; dr_KeyDigest := digest_string "key"; dr_Alias := "aeontra";
     dr_Target := "main"; dr_DeviceID := "ed_00112233445566778899aabbccddeeff"; dr_BodyRef := demo_body;
     dr_BodyDigest := digest_string "goal"; dr_InspectionOperationID := ""; dr_ObjectiveID := ""; dr_ActiveOperationID := "";
     dr_ProcessID := ""; dr_State := DevelopmentRequestPreparing; dr_Reason := DevelopmentRequestReasonNone |}.

(** A request is created and touched. *)
Definition tables1 : DevDB := Eval vm_compute in exec_op (DoSaveRequest demo_request) demo_now tables0 [].
Definition tables2 : DevDB := Eval vm_compute in exec_op (DoTouchRequest (dr_ID demo_request) 1) demo_now tables1 [].
(** An objective is created and advanced. *)
Definition tables3 : DevDB := Eval vm_compute in exec_op (DoSaveObjective demo_objective) demo_now tables2 [].
Definition demo_next : Objective := Eval vm_compute in default demo_objective (fold_left step_checked (take 1 demo_ops) (Some demo_objective)).
Definition tables4 : DevDB := Eval vm_compute in exec_op (DoSaveObjective demo_next) demo_now tables3 [].

Example tables_contents :
  (size (dd_requests tables1), size (dd_objectives tables3)) = (1%nat, 1%nat) /\
  (rq_revision <$> dd_requests tables2 !! dr_ID demo_request) = Some 2 /\
  (ow_revision <$> dd_objectives tables4 !! ob_ObjectiveID demo_objective) = Some 2.
Proof. by vm_compute. Qed.

Lemma demo_objective_widths : widths demo_objective /\ widths demo_next.
Proof.
  unfold widths, demo_objective, demo_next, in_uint64, two64. cbn [ob_Revision ob_Steps].
  split; (split; [lia|]); apply Forall_singleton; unfold step_widths; cbn [st_Attempts st_Provisioning st_AcceptanceReceipt];
    (split_and!; [|constructor|done]); [constructor|apply Forall_singleton; cbn [at_EnvironmentGeneration]; unfold in_uint64, two64; lia].
Qed.

Lemma demo_step1 : dev_step demo_now tables0 tables1.
Proof.
  replace tables1 with (exec_op (DoSaveRequest demo_request) demo_now tables0 []) by (vm_compute; reflexivity). apply step_op. done.
Qed.
Lemma demo_step2 : dev_step demo_now tables1 tables2.
Proof.
  replace tables2 with (exec_op (DoTouchRequest (dr_ID demo_request) 1) demo_now tables1 []) by (vm_compute; reflexivity). apply step_op. done.
Qed.
Lemma demo_step3 : dev_step demo_now tables2 tables3.
Proof.
  replace tables3 with (exec_op (DoSaveObjective demo_objective) demo_now tables2 []) by (vm_compute; reflexivity). apply step_op. apply demo_objective_widths.
Qed.
Lemma demo_step4 : dev_step demo_now tables3 tables4.
Proof.
  replace tables4 with (exec_op (DoSaveObjective demo_next) demo_now tables3 []) by (vm_compute; reflexivity). apply step_op. apply demo_objective_widths.
Qed.

Lemma demo_tables_reachable : dev_reachable tables4.
Proof.
  eapply dev_next; [|exact demo_step4]. eapply dev_next; [|exact demo_step3]. eapply dev_next; [|exact demo_step2].
  eapply dev_next; [|exact demo_step1]. apply dev_initial.
Qed.

Lemma development_tables_sound_witness : tables_ok tables4 /\ run developmentRequestIntegrity tables4 [] = (Ok tt, tables4) /\
  run objectiveIntegrity tables4 [] = (Ok tt, tables4) /\
  forall id, is_Some (dd_objectives tables4 !! id) -> exists o, reads tables4 id o /\ ob_Valid o = true.
Proof. apply (development_tables_sound tables4). exact demo_tables_reachable. Defined.

Definition demo_request_row : RequestRow := Eval vm_compute in
  match dd_requests tables1 !! dr_ID demo_request with
  | Some row => row
  | None => request_row demo_request "" "" 0 0
  end.

Lemma request_lifecycle_witness : request_fate demo_now tables2 (dr_ID demo_request) demo_request_row demo_request.
Proof.
  apply (request_lifecycle demo_now tables1 tables2); [exact demo_step2|vm_compute; reflexivity|vm_compute; reflexivity].
Defined.

Lemma objective_store_history_witness : objective_fate tables3 tables4 (ob_ObjectiveID demo_objective) demo_objective.
Proof.
  apply (objective_store_history tables3 tables4).
  - apply rtc_once. exists demo_now. exact demo_step4.
  - eexists. split; [vm_compute; reflexivity|vm_compute; reflexivity].
Defined.

Lemma save_objective_durable_witness :
  same_version demo_next demo_next /\ (demo_next = demo_next \/ tables4 = tables3) /\
  run (GetDevelopmentObjective (ob_ObjectiveID demo_next)) tables4 [] = (Ok (Some demo_next), tables4) /\
  forall now', run (SaveDevelopmentObjective demo_next now') tables4 [] = (Ok (demo_next, false), tables4).
Proof.
  apply (save_objective_durable demo_now demo_next tables3 [] demo_next false tables4).
  - apply demo_objective_widths.
  - vm_compute. reflexivity.
Defined.

(** A driver failure at the first row of the objective scan hides a corrupt row from
    the integrity check, which passes. *)
Definition corrupt_tables : DevDB := with_objectives {[ob_ObjectiveID demo_objective := objective_row demo_objective "" "" 0 0]} tables0.
Example objective_scan_fault_hidden :
  (run objectiveIntegrity corrupt_tables []).1 = Err "workqueue: development objective semantic integrity failed" /\
  (run objectiveIntegrity corrupt_tables [false; true]).1 = Ok tt.
Proof. by vm_compute. Qed.
