(* ===== verification/OAuthTypes.v ===== *)
(** * OAuth: the token store's data and its files

    [internal/oauth/store.go] and [access_store.go]: grants, authorization codes and
    client registrations as the store keeps them in memory, the records of its three
    JSON files with their codecs, and the world its methods run in: the files, the
    readings of the clock and of the random source so far, and the store itself. *)

From S2P Require Import Prelude Effects GoStrings GoRegexp GoJson GoTime GoReflect GoRecord Sha256 GoUrl.

(** ** The store in memory *)
Record accessGrant := {
  ag_clientID : string;
  ag_resource : string;
  ag_scope : string;
  ag_expiresAt : time }.
Record authCode := {
  ac_clientID : string;
  ac_redirectURI : string;
  ac_codeChallenge : string;
  ac_scope : string;
  ac_resource : string;
  ac_expiresAt : time }.
Record refreshGrant := {
  rg_clientID : string;
  rg_scope : string;
  rg_resource : string;
  rg_expiresAt : time }.
Record clientReg := {
  cr_redirectURIs : list string;
  cr_createdAt : time;
  cr_activated : bool }.
#[global] Instance accessGrant_eq_dec : EqDecision accessGrant.
Proof. solve_decision. Defined.
#[global] Instance authCode_eq_dec : EqDecision authCode.
Proof. solve_decision. Defined.
#[global] Instance refreshGrant_eq_dec : EqDecision refreshGrant.
Proof. solve_decision. Defined.
#[global] Instance clientReg_eq_dec : EqDecision clientReg.
Proof. solve_decision. Defined.

Definition maxClients : nat := 100.
Definition maxRegistrationsPerWindow : nat := 20.
Definition registrationWindow : duration := Minute.
Definition unactivatedClientTTL : duration := 10 * Minute.
Definition maxPassphraseFailures : nat := 5.
Definition passphraseWindow : duration := Minute.
Definition passphraseGlobalKey : string := "*".
Definition maxAccessGrants : nat := 1024.
#[global] Arguments maxAccessGrants : simpl never.
#[global] Arguments maxClients : simpl never.
Definition maxAccessStoreSize : Z := 2 ^ 20.
Definition maxAccessClientID : Z := 256.
Definition maxAccessScope : Z := 256.
Definition maxAccessResource : Z := 4096.
Definition accessTokenTTL : duration := Hour.
Definition refreshTokenTTL : duration := 30 * 24 * Hour.
Definition authCodeTTL : duration := 60 * Second.

Record tokenStore := {
  access : gmap string accessGrant;
  codes : gmap string authCode;
  refresh : gmap string refreshGrant;
  clients : gmap string clientReg;
  clientStorePath : string;
  accessStorePath : string;
  refreshStorePath : string;
  regTimes : list time;
  failTimes : gmap string (list time) }.

Definition newTokenStore : tokenStore :=
  {| access := ∅; codes := ∅; refresh := ∅; clients := ∅; clientStorePath := ""; accessStorePath := "";
     refreshStorePath := ""; regTimes := []; failTimes := ∅ |}.

(** Field updates. *)
Definition with_access v s := {| access := v; codes := codes s; refresh := refresh s; clients := clients s;
  clientStorePath := clientStorePath s; accessStorePath := accessStorePath s; refreshStorePath := refreshStorePath s;
  regTimes := regTimes s; failTimes := failTimes s |}.
Definition with_codes v s := {| access := access s; codes := v; refresh := refresh s; clients := clients s;
  clientStorePath := clientStorePath s; accessStorePath := accessStorePath s; refreshStorePath := refreshStorePath s;
  regTimes := regTimes s; failTimes := failTimes s |}.
Definition with_refresh v s := {| access := access s; codes := codes s; refresh := v; clients := clients s;
  clientStorePath := clientStorePath s; accessStorePath := accessStorePath s; refreshStorePath := refreshStorePath s;
  regTimes := regTimes s; failTimes := failTimes s |}.
Definition with_clients v s := {| access := access s; codes := codes s; refresh := refresh s; clients := v;
  clientStorePath := clientStorePath s; accessStorePath := accessStorePath s; refreshStorePath := refreshStorePath s;
  regTimes := regTimes s; failTimes := failTimes s |}.
Definition with_clientStorePath v s := {| access := access s; codes := codes s; refresh := refresh s; clients := clients s;
  clientStorePath := v; accessStorePath := accessStorePath s; refreshStorePath := refreshStorePath s;
  regTimes := regTimes s; failTimes := failTimes s |}.
Definition with_accessStorePath v s := {| access := access s; codes := codes s; refresh := refresh s; clients := clients s;
  clientStorePath := clientStorePath s; accessStorePath := v; refreshStorePath := refreshStorePath s;
  regTimes := regTimes s; failTimes := failTimes s |}.
Definition with_refreshStorePath v s := {| access := access s; codes := codes s; refresh := refresh s; clients := clients s;
  clientStorePath := clientStorePath s; accessStorePath := accessStorePath s; refreshStorePath := v;
  regTimes := regTimes s; failTimes := failTimes s |}.
Definition with_regTimes v s := {| access := access s; codes := codes s; refresh := refresh s; clients := clients s;
  clientStorePath := clientStorePath s; accessStorePath := accessStorePath s; refreshStorePath := refreshStorePath s;
  regTimes := v; failTimes := failTimes s |}.
Definition with_failTimes v s := {| access := access s; codes := codes s; refresh := refresh s; clients := clients s;
  clientStorePath := clientStorePath s; accessStorePath := accessStorePath s; refreshStorePath := refreshStorePath s;
  regTimes := regTimes s; failTimes := v |}.

(** ** The files *)
Record clientStoreRecord := { cs_ID : string; cs_RedirectURIs : list string; cs_CreatedAt : time; cs_Activated : bool }.
Record clientStoreFile := { cf_Version : Z; cf_Clients : goslice clientStoreRecord }.
Record accessStoreRecord := { as_Digest : string; as_ClientID : string; as_Scope : string; as_Resource : string; as_ExpiresAt : time }.
Record accessStoreFile := { af_Version : Z; af_Access : goslice accessStoreRecord }.
Record refreshStoreRecord := { rs_Token : string; rs_ClientID : string; rs_Scope : string; rs_Resource : string; rs_ExpiresAt : time }.
Record refreshStoreFile := { rf_Version : Z; rf_Refresh : goslice refreshStoreRecord }.

Definition client_record_type : gtype :=
  TStruct [req "id" c_string; req "redirect_uris" (c_list c_string); req "created_at" c_time; omit "activated" c_bool].
Definition client_record_to (r : clientStoreRecord) : gval :=
  VStruct [c_to c_string (cs_ID r); c_to (c_list c_string) (cs_RedirectURIs r); c_to c_time (cs_CreatedAt r); c_to c_bool (cs_Activated r)].
Definition client_record_of (v : gval) : option clientStoreRecord :=
  match v with
  | VStruct [x0; x1; x2; x3] =>
      x0 ← c_of c_string x0; x1 ← c_of (c_list c_string) x1; x2 ← c_of c_time x2; x3 ← c_of c_bool x3;
      Some {| cs_ID := x0; cs_RedirectURIs := x1; cs_CreatedAt := x2; cs_Activated := x3 |}
  | _ => None
  end.
Lemma client_record_law r : client_record_of (client_record_to r) = Some r.
Proof. destruct r. cbn -[c_to c_of]. by rewrite !c_law. Qed.
Definition c_client_record : codec clientStoreRecord :=
  {| c_type := client_record_type; c_to := client_record_to; c_of := client_record_of; c_law := client_record_law |}.

Definition client_file_type : gtype := TStruct [req "version" c_int64; req "clients" (c_slice c_client_record)].
Definition client_file_to (f : clientStoreFile) : gval :=
  VStruct [c_to c_int64 (cf_Version f); c_to (c_slice c_client_record) (cf_Clients f)].
Definition client_file_of (v : gval) : option clientStoreFile :=
  match v with
  | VStruct [x0; x1] =>
      x0 ← c_of c_int64 x0; x1 ← c_of (c_slice c_client_record) x1; Some {| cf_Version := x0; cf_Clients := x1 |}
  | _ => None
  end.
Lemma client_file_law f : client_file_of (client_file_to f) = Some f.
Proof. destruct f. cbn -[c_to c_of]. by rewrite !c_law. Qed.
Definition c_client_file : codec clientStoreFile :=
  {| c_type := client_file_type; c_to := client_file_to; c_of := client_file_of; c_law := client_file_law |}.

Definition access_record_type : gtype :=
  TStruct [req "digest" c_string; req "client_id" c_string; req "scope" c_string; req "resource" c_string; req "expires_at" c_time].
Definition access_record_to (r : accessStoreRecord) : gval :=
  VStruct [c_to c_string (as_Digest r); c_to c_string (as_ClientID r); c_to c_string (as_Scope r); c_to c_string (as_Resource r);
    c_to c_time (as_ExpiresAt r)].
Definition access_record_of (v : gval) : option accessStoreRecord :=
  match v with
  | VStruct [x0; x1; x2; x3; x4] =>
      x0 ← c_of c_string x0; x1 ← c_of c_string x1; x2 ← c_of c_string x2; x3 ← c_of c_string x3; x4 ← c_of c_time x4;
      Some {| as_Digest := x0; as_ClientID := x1; as_Scope := x2; as_Resource := x3; as_ExpiresAt := x4 |}
  | _ => None
  end.
Lemma access_record_law r : access_record_of (access_record_to r) = Some r.
Proof. destruct r. cbn -[c_to c_of]. by rewrite !c_law. Qed.
Definition c_access_record : codec accessStoreRecord :=
  {| c_type := access_record_type; c_to := access_record_to; c_of := access_record_of; c_law := access_record_law |}.

Definition access_file_type : gtype := TStruct [req "version" c_int64; req "access" (c_slice c_access_record)].
Definition access_file_to (f : accessStoreFile) : gval :=
  VStruct [c_to c_int64 (af_Version f); c_to (c_slice c_access_record) (af_Access f)].
Definition access_file_of (v : gval) : option accessStoreFile :=
  match v with
  | VStruct [x0; x1] =>
      x0 ← c_of c_int64 x0; x1 ← c_of (c_slice c_access_record) x1; Some {| af_Version := x0; af_Access := x1 |}
  | _ => None
  end.
Lemma access_file_law f : access_file_of (access_file_to f) = Some f.
Proof. destruct f. cbn -[c_to c_of]. by rewrite !c_law. Qed.
Definition c_access_file : codec accessStoreFile :=
  {| c_type := access_file_type; c_to := access_file_to; c_of := access_file_of; c_law := access_file_law |}.

Definition refresh_record_type : gtype :=
  TStruct [req "token" c_string; req "client_id" c_string; req "scope" c_string; req "resource" c_string; req "expires_at" c_time].
Definition refresh_record_to (r : refreshStoreRecord) : gval :=
  VStruct [c_to c_string (rs_Token r); c_to c_string (rs_ClientID r); c_to c_string (rs_Scope r); c_to c_string (rs_Resource r);
    c_to c_time (rs_ExpiresAt r)].
Definition refresh_record_of (v : gval) : option refreshStoreRecord :=
  match v with
  | VStruct [x0; x1; x2; x3; x4] =>
      x0 ← c_of c_string x0; x1 ← c_of c_string x1; x2 ← c_of c_string x2; x3 ← c_of c_string x3; x4 ← c_of c_time x4;
      Some {| rs_Token := x0; rs_ClientID := x1; rs_Scope := x2; rs_Resource := x3; rs_ExpiresAt := x4 |}
  | _ => None
  end.
Lemma refresh_record_law r : refresh_record_of (refresh_record_to r) = Some r.
Proof. destruct r. cbn -[c_to c_of]. by rewrite !c_law. Qed.
Definition c_refresh_record : codec refreshStoreRecord :=
  {| c_type := refresh_record_type; c_to := refresh_record_to; c_of := refresh_record_of; c_law := refresh_record_law |}.

Definition refresh_file_type : gtype := TStruct [req "version" c_int64; req "refresh" (c_slice c_refresh_record)].
Definition refresh_file_to (f : refreshStoreFile) : gval :=
  VStruct [c_to c_int64 (rf_Version f); c_to (c_slice c_refresh_record) (rf_Refresh f)].
Definition refresh_file_of (v : gval) : option refreshStoreFile :=
  match v with
  | VStruct [x0; x1] =>
      x0 ← c_of c_int64 x0; x1 ← c_of (c_slice c_refresh_record) x1; Some {| rf_Version := x0; rf_Refresh := x1 |}
  | _ => None
  end.
Lemma refresh_file_law f : refresh_file_of (refresh_file_to f) = Some f.
Proof. destruct f. cbn -[c_to c_of]. by rewrite !c_law. Qed.
Definition c_refresh_file : codec refreshStoreFile :=
  {| c_type := refresh_file_type; c_to := refresh_file_to; c_of := refresh_file_of; c_law := refresh_file_law |}.

(** ** The world of a method *)
(** The successive readings of [time.Now], and the successive reads of 32 bytes from
    [crypto/rand] ([None]: it failed). *)
Class Environment := {
  clock : nat -> time;
  random : nat -> option string }.

Record World := {
  disk : gmap string string;  (* the files, by path *)
  ticks : nat;                (* readings of the clock so far *)
  draws : nat;                (* reads of the random source so far *)
  store : tokenStore }.

Definition with_store s w := {| disk := disk w; ticks := ticks w; draws := draws w; store := s |}.
Definition with_disk d w := {| disk := d; ticks := ticks w; draws := draws w; store := store w |}.

(** [s.field = ...] under the mutex. *)
Definition modify (f : tokenStore -> tokenStore) : M World unit := fun w fs => (Ok tt, with_store (f (store w)) w, fs).
Definition self : M World tokenStore := fun w fs => (Ok (store w), w, fs).

Section World.
Context {E : Environment}.

Definition Now : M World time :=
  fun w fs => (Ok (clock (ticks w)), {| disk := disk w; ticks := S (ticks w); draws := draws w; store := store w |}, fs).

Definition randToken : M World string :=
  fun w fs =>
    (Ok (match random (draws w) with Some b => RawURLEncode b | None => "" end),
     {| disk := disk w; ticks := ticks w; draws := S (draws w); store := store w |}, fs).
End World.
