(* ===== verification/OAuthStore.v ===== *)
(** * OAuth: the token store's methods

    [internal/oauth/store.go], [access_store.go], [console_store.go] and
    [access_lock_linux.go]: every method of [tokenStore], as a computation on the
    world.  A method holds the store's mutex from its first access to its end, so
    it is one step of its process.  Every call of the file system consumes a fault bit
    and may fail; a replaced file changes at the final [Rename] and not before. *)

From S2P Require Import Prelude Effects GoStrings GoRegexp GoJson GoTime GoReflect GoRecord Sha256 GoPath GoUrl OAuthTypes.

(** ** Digests *)
Definition accessTokenDigest (token : string) : string := EncodeToString (Sum256 token).
Definition validAccessDigest (digest : string) : bool := (Len digest =? 64) && str_forall ishex digest.

(** ** Redirect URIs *)
Definition isLoopbackHost (host : string) : bool := (host =? "localhost") || (host =? "127.0.0.1") || (host =? "::1").

Definition validateRedirectURI (raw : string) : result unit :=
  if ContainsByte raw "*" then Err "redirect_uri must not contain a wildcard"
  else
    match Parse raw with
    | None => Err "redirect_uri is not a valid URL"
    | Some u =>
        if (Fragment u <>? "") || ContainsByte raw "#" then Err "redirect_uri must not contain a fragment"
        else if Host u =? "" then Err "redirect_uri must include a host"
        else if Scheme u =? "https" then Ok tt
        else if Scheme u =? "http" then
          if isLoopbackHost (Hostname u) then Ok tt else Err "redirect_uri must use https (only localhost may use http)"
        else Err "redirect_uri must be an http(s) URL"
    end.

(** ** Files *)
Definition io (e : error) : M World unit := driver e (Some tt).

(** [os.ReadFile]: [None] where there is no such file. *)
Definition ReadFile (path : string) : M World (option string) :=
  let! w := mget in driver "read" (Some (disk w !! path)).

(** [os.MkdirAll], [CreateTemp], [Write], [Chmod], [Close], [Rename]. *)
Definition writeFileAtomic0600 (path body : string) : M World unit :=
  do! io "mkdir" in
  do! io "create" in
  do! io "write" in
  do! io "chmod" in
  do! io "close" in
  do! io "rename" in
  let! w := mget in
  mput (with_disk (<[path := body]> (disk w)) w).

(** [os.MkdirAll], [OpenFile], [Chmod], [Flock]. *)
Definition withAccessStoreFileLock {A} (path : string) (fn : M World A) : M World A :=
  if path =? "" then fn
  else
    do! io "mkdir" in
    do! io "open" in
    do! io "chmod" in
    do! io "flock" in
    fn.

(** [json.MarshalIndent(doc, "", "  ")] *)
Definition marshal_indent {A} (c : codec A) (doc : A) : M World string :=
  do! mguard (negb (encodable (c_to c doc))) "marshal" in mret (MarshalIndent c doc).

(** [x, err := m; if err != nil { undo; return err }] *)
Definition on_error {A} (m : M World A) (undo : M World unit) : M World A :=
  let! r := mtry m in
  match r with
  | Ok a => mret a
  | Err e => do! undo in mfail e
  end.

(** ** Clients *)
Definition client_not_after (a b : clientStoreRecord) : Prop := str_le (cs_ID a) (cs_ID b).
#[global] Instance client_not_after_dec a b : Decision (client_not_after a b).
Proof. unfold client_not_after. apply _. Defined.
Definition client_record (e : string * clientReg) : clientStoreRecord :=
  {| cs_ID := e.1; cs_RedirectURIs := cr_redirectURIs e.2; cs_CreatedAt := cr_createdAt e.2; cs_Activated := cr_activated e.2 |}.
Definition client_file (m : gmap string clientReg) : clientStoreFile :=
  {| cf_Version := 2; cf_Clients := Some (merge_sort client_not_after (client_record <$> map_to_list m)) |}.

Definition load_client (version : Z) (loaded : gmap string clientReg) (c : clientStoreRecord) : result (gmap string clientReg) :=
  check reject_if (cs_ID c =? "") "client store contains an empty client id" in
  check reject_if (bool_decide (length (cs_RedirectURIs c) = 0%nat)) "client has no redirect URIs" in
  check foldr (fun redirect k => check validateRedirectURI redirect in k) (Ok tt) (cs_RedirectURIs c) in
  check reject_if (IsZero (cs_CreatedAt c)) "client has an empty created_at" in
  check reject_if (bool_decide (is_Some (loaded !! cs_ID c))) "client store contains duplicate client id" in
  Ok (<[cs_ID c := {| cr_redirectURIs := cs_RedirectURIs c; cr_createdAt := cs_CreatedAt c;
                      cr_activated := if version =? 1 then true else cs_Activated c |}]> loaded).
Fixpoint load_clients (version : Z) (loaded : gmap string clientReg) (l : list clientStoreRecord) : result (gmap string clientReg) :=
  match l with
  | [] => Ok loaded
  | c :: l => let? loaded := load_client version loaded c in load_clients version loaded l
  end.

Definition loadClientsLocked : M World unit :=
  let! s := self in
  let! body := ReadFile (clientStorePath s) in
  match body with
  | None => mret tt
  | Some body =>
      match UnmarshalLoose c_client_file body with
      | None => mfail "decode"
      | Some doc =>
          do! mguard ((cf_Version doc <>? 1) && (cf_Version doc <>? 2)) "unsupported client store version" in
          do! mguard (maxClients <? length (range (cf_Clients doc)))%nat "client store has too many clients" in
          let! loaded := mlift (load_clients (cf_Version doc) ∅ (range (cf_Clients doc))) in
          modify (with_clients loaded)
      end
  end.

Definition persistClientsLocked : M World unit :=
  let! s := self in
  if clientStorePath s =? "" then mret tt
  else let! body := marshal_indent c_client_file (client_file (clients s)) in writeFileAtomic0600 (clientStorePath s) body.

(** The path of a store: what the three [enable] methods check. *)
Definition store_path (path : string) : result string :=
  let path := Clean path in
  check reject_if ((path =? ".") || (path =? "")) "path is required" in
  check reject_if (negb (IsAbs path)) "path must be absolute" in
  Ok path.

Definition enableClientPersistence (path : string) : M World unit :=
  let! path := mlift (store_path path) in
  do! modify (with_clientStorePath path) in
  loadClientsLocked.

Definition errRegLimited : error := "registration limit reached".

Section Methods.
Context {E : Environment}.

(** The registrations that expired without an authorization. *)
Definition stale (now : time) (c : clientReg) : bool := negb (cr_activated c) && (unactivatedClientTTL <=? TimeSub now (cr_createdAt c)).
Definition drop_stale (now : time) (s : tokenStore) : tokenStore :=
  let gone id := match clients s !! id with Some c => stale now c | None => false end in
  with_failTimes (filter (fun e => gone e.1 = false) (failTimes s)) (with_clients (filter (fun e => stale now e.2 = false) (clients s)) s).
Definition recent (window : duration) (now : time) (l : list time) : list time := filter (fun t => TimeSub now t < window) l.

Definition registerClient (redirectURIs : list string) : M World string :=
  let! now := Now in
  do! modify (drop_stale now) in
  do! modify (fun s => with_regTimes (recent registrationWindow now (regTimes s)) s) in
  let! s := self in
  do! mguard ((maxClients <=? size (clients s)) || (maxRegistrationsPerWindow <=? length (regTimes s)))%nat errRegLimited in
  let! id := randToken in
  do! modify (fun s => with_clients (<[id := {| cr_redirectURIs := redirectURIs; cr_createdAt := now; cr_activated := false |}]> (clients s)) s) in
  do! on_error persistClientsLocked (modify (fun s => with_clients (delete id (clients s)) s)) in
  do! modify (fun s => with_regTimes (regTimes s ++ [now]) s) in
  mret id.

Definition getClient (id : string) : M World (option clientReg) :=
  if id =? "" then mret None
  else
    let! s := self in
    match clients s !! id with
    | None => mret None
    | Some c =>
        if cr_activated c then mret (Some c)
        else
          let! now := Now in
          if unactivatedClientTTL <=? TimeSub now (cr_createdAt c) then
            do! modify (fun s => with_failTimes (delete id (failTimes s)) (with_clients (delete id (clients s)) s)) in
            do! mtry persistClientsLocked in
            mret None
          else mret (Some c)
    end.

(** [ensureFixedClient], the console's own registration. *)
Definition ensureFixedClient (clientID redirectURI : string) : M World unit :=
  do! mguard ((clientID =? "") || (redirectURI =? "")) "oauth: console client configuration is invalid" in
  let! s := self in
  match clients s !! clientID with
  | Some existing =>
      mguard (negb (bool_decide (cr_redirectURIs existing = [redirectURI]))) "oauth: console client registration conflicts with persisted state"
  | None =>
      do! mguard (maxClients <=? size (clients s))%nat "oauth: client registration limit reached" in
      let! now := Now in
      do! modify (fun s => with_clients (<[clientID := {| cr_redirectURIs := [redirectURI]; cr_createdAt := now; cr_activated := false |}]> (clients s)) s) in
      on_error persistClientsLocked (modify (fun s => with_clients (delete clientID (clients s)) s))
  end.

(** ** Authorization codes *)
Definition activated_client (c : clientReg) : clientReg :=
  {| cr_redirectURIs := cr_redirectURIs c; cr_createdAt := cr_createdAt c; cr_activated := true |}.

Definition putCode (code : string) (c : authCode) : M World unit :=
  let! s := self in
  do! match clients s !! ac_clientID c with
      | Some client =>
          if cr_activated client then mret tt
          else
            do! modify (fun s => with_clients (<[ac_clientID c := activated_client client]> (clients s)) s) in
            on_error persistClientsLocked (modify (fun s => with_clients (<[ac_clientID c := client]> (clients s)) s))
      | None => mret tt
      end in
  modify (fun s => with_codes (<[code := c]> (codes s)) s).

Definition consumeCode (code : string) : M World (option authCode) :=
  if code =? "" then mret None
  else
    let! s := self in
    match codes s !! code with
    | None => mret None
    | Some c =>
        do! modify (fun s => with_codes (delete code (codes s)) s) in
        let! now := Now in
        if After now (ac_expiresAt c) then mret None else mret (Some c)
    end.

(** ** The passphrase throttle *)
Definition failures (s : tokenStore) (clientID : string) : list time := default [] (failTimes s !! clientID).

Definition pruneFailuresLocked (clientID : string) : M World unit :=
  let! now := Now in
  modify (fun s =>
    let kept := recent passphraseWindow now (failures s clientID) in
    with_failTimes (match kept with [] => delete clientID (failTimes s) | _ => <[clientID := kept]> (failTimes s) end) s).

Definition passphraseThrottled (clientID : string) : M World bool :=
  do! pruneFailuresLocked clientID in
  do! pruneFailuresLocked passphraseGlobalKey in
  let! s := self in
  mret ((maxPassphraseFailures <=? length (failures s clientID)) || (maxPassphraseFailures <=? length (failures s passphraseGlobalKey)))%nat.

Definition add_failure (clientID : string) : M World unit :=
  let! now := Now in
  modify (fun s => with_failTimes (<[clientID := failures s clientID ++ [now]]> (failTimes s)) s).

Definition recordPassphraseFailure (clientID : string) : M World unit :=
  do! pruneFailuresLocked clientID in
  do! pruneFailuresLocked passphraseGlobalKey in
  do! add_failure clientID in
  add_failure passphraseGlobalKey.

Definition resetPassphraseFailures (clientID : string) : M World unit :=
  modify (fun s => with_failTimes (delete clientID (failTimes s)) s).

(** ** Refresh grants *)
Definition refresh_not_after (a b : refreshStoreRecord) : Prop := str_le (rs_Token a) (rs_Token b).
#[global] Instance refresh_not_after_dec a b : Decision (refresh_not_after a b).
Proof. unfold refresh_not_after. apply _. Defined.
Definition refresh_record (e : string * refreshGrant) : refreshStoreRecord :=
  {| rs_Token := e.1; rs_ClientID := rg_clientID e.2; rs_Scope := rg_scope e.2; rs_Resource := rg_resource e.2; rs_ExpiresAt := rg_expiresAt e.2 |}.
Definition refresh_file (m : gmap string refreshGrant) : refreshStoreFile :=
  {| rf_Version := 1; rf_Refresh := Some (merge_sort refresh_not_after (refresh_record <$> map_to_list m)) |}.

Definition load_refresh (now : time) (loaded : gmap string refreshGrant) (r : refreshStoreRecord) : gmap string refreshGrant :=
  if (rs_Token r =? "") || After now (rs_ExpiresAt r) then loaded
  else <[rs_Token r := {| rg_clientID := rs_ClientID r; rg_scope := rs_Scope r; rg_resource := rs_Resource r; rg_expiresAt := rs_ExpiresAt r |}]> loaded.

Definition loadRefreshLocked : M World unit :=
  let! s := self in
  let! body := ReadFile (refreshStorePath s) in
  match body with
  | None => mret tt
  | Some body =>
      match UnmarshalLoose c_refresh_file body with
      | None => mfail "decode"
      | Some doc =>
          do! mguard (rf_Version doc <>? 1) "unsupported refresh store version" in
          let! now := Now in
          modify (with_refresh (fold_left (load_refresh now) (range (rf_Refresh doc)) ∅))
      end
  end.

Definition persistRefreshLocked : M World unit :=
  let! s := self in
  if refreshStorePath s =? "" then mret tt
  else let! body := marshal_indent c_refresh_file (refresh_file (refresh s)) in writeFileAtomic0600 (refreshStorePath s) body.

(** [if s.refreshStorePath != "" { if err := s.loadRefreshLocked(); ... }] *)
Definition reloadRefresh : M World unit :=
  let! s := self in if refreshStorePath s =? "" then mret tt else loadRefreshLocked.

Definition enableRefreshPersistence (path : string) : M World unit :=
  let! path := mlift (store_path path) in
  do! modify (with_refreshStorePath path) in
  loadRefreshLocked.

Definition set_refresh (token : string) (g : refreshGrant) : M World unit := modify (fun s => with_refresh (<[token := g]> (refresh s)) s).
Definition drop_refresh (token : string) : M World unit := modify (fun s => with_refresh (delete token (refresh s)) s).

Definition putRefresh (token : string) (g : refreshGrant) : M World unit :=
  let! s := self in
  withAccessStoreFileLock (refreshStorePath s) (
    do! reloadRefresh in
    do! set_refresh token g in
    on_error persistRefreshLocked (drop_refresh token)).

Definition consumeRefresh (token : string) : M World (option refreshGrant) :=
  if token =? "" then mret None
  else
    let! s := self in
    withAccessStoreFileLock (refreshStorePath s) (
      do! reloadRefresh in
      let! s := self in
      match refresh s !! token with
      | None => mret None
      | Some g =>
          do! drop_refresh token in
          do! on_error persistRefreshLocked (set_refresh token g) in
          let! now := Now in
          if After now (rg_expiresAt g) then mret None else mret (Some g)
      end).

(** [revokeRefresh]: no file lock and no reload. *)
Definition revokeRefresh (token : string) : M World unit :=
  if token =? "" then mret tt
  else
    do! drop_refresh token in
    do! mtry persistRefreshLocked in
    mret tt.

(** ** Access grants *)
Definition access_not_after (a b : accessStoreRecord) : Prop := str_le (as_Digest a) (as_Digest b).
#[global] Instance access_not_after_dec a b : Decision (access_not_after a b).
Proof. unfold access_not_after. apply _. Defined.
Definition access_record (e : string * accessGrant) : accessStoreRecord :=
  {| as_Digest := e.1; as_ClientID := ag_clientID e.2; as_Scope := ag_scope e.2; as_Resource := ag_resource e.2; as_ExpiresAt := ag_expiresAt e.2 |}.
Definition access_file (m : gmap string accessGrant) : accessStoreFile :=
  {| af_Version := 1; af_Access := Some (merge_sort access_not_after (access_record <$> map_to_list m)) |}.

Definition access_record_invalid (r : accessStoreRecord) : bool :=
  negb (validAccessDigest (as_Digest r)) || (as_ClientID r =? "") || (maxAccessClientID <? Len (as_ClientID r)) ||
  (maxAccessScope <? Len (as_Scope r)) || (as_Resource r =? "") || (maxAccessResource <? Len (as_Resource r)) || IsZero (as_ExpiresAt r).

Fixpoint load_access (now : time) (loaded : gmap string accessGrant) (l : list accessStoreRecord) : result (gmap string accessGrant) :=
  match l with
  | [] => Ok loaded
  | r :: l =>
      if After now (as_ExpiresAt r) then load_access now loaded l
      else
        check reject_if (access_record_invalid r) "access store contains an invalid grant" in
        check reject_if (bool_decide (is_Some (loaded !! as_Digest r))) "access store contains a duplicate digest" in
        load_access now (<[as_Digest r := {| ag_clientID := as_ClientID r; ag_resource := as_Resource r; ag_scope := as_Scope r;
          ag_expiresAt := as_ExpiresAt r |}]> loaded) l
  end.

(** [os.Stat], then [os.ReadFile]. *)
Definition loadAccessLocked : M World unit :=
  let! s := self in
  let! info := ReadFile (accessStorePath s) in
  match info with
  | None => mret tt
  | Some info =>
      do! mguard (maxAccessStoreSize <? Len info) "access store is too large" in
      let! body := ReadFile (accessStorePath s) in
      match body ≫= UnmarshalLoose c_access_file with
      | None => mfail "decode"
      | Some doc =>
          do! mguard (af_Version doc <>? 1) "unsupported access store version" in
          do! mguard (maxAccessGrants <? length (range (af_Access doc)))%nat "access store has too many grants" in
          let! now := Now in
          let! loaded := mlift (load_access now ∅ (range (af_Access doc))) in
          modify (with_access loaded)
      end
  end.

Definition pruneAccessLocked (now : time) : M World unit :=
  modify (fun s => with_access (filter (fun e => After now (ag_expiresAt e.2) = false) (access s)) s).

Definition persistAccessLocked : M World unit :=
  let! s := self in
  if accessStorePath s =? "" then mret tt
  else
    let! now := Now in
    do! pruneAccessLocked now in
    let! s := self in
    let! body := marshal_indent c_access_file (access_file (access s)) in
    writeFileAtomic0600 (accessStorePath s) body.

Definition reloadAccess : M World unit :=
  let! s := self in if accessStorePath s =? "" then mret tt else loadAccessLocked.

Definition enableAccessPersistence (path : string) : M World unit :=
  let! path := mlift (store_path path) in
  do! modify (with_accessStorePath path) in
  withAccessStoreFileLock path loadAccessLocked.

Definition set_access (digest : string) (g : accessGrant) : M World unit := modify (fun s => with_access (<[digest := g]> (access s)) s).
Definition drop_access (digest : string) : M World unit := modify (fun s => with_access (delete digest (access s)) s).

Definition putAccess (token : string) (grant : accessGrant) : M World unit :=
  do! mguard (token =? "") "access token is empty" in
  let digest := accessTokenDigest token in
  let! s := self in
  withAccessStoreFileLock (accessStorePath s) (
    do! reloadAccess in
    let! now := Now in
    do! pruneAccessLocked now in
    let! s := self in
    do! mguard (negb (bool_decide (is_Some (access s !! digest))) && (maxAccessGrants <=? size (access s))%nat) "access grant limit reached" in
    do! set_access digest grant in
    on_error persistAccessLocked (drop_access digest)).

Definition getAccess (token : string) : M World (option accessGrant) :=
  if token =? "" then mret None
  else
    let digest := accessTokenDigest token in
    let! s := self in
    let! r := mtry (withAccessStoreFileLock (accessStorePath s) (
      do! (if (accessStorePath s <>? "") && negb (bool_decide (is_Some (access s !! digest))) then loadAccessLocked else mret tt) in
      let! s := self in
      match access s !! digest with
      | None => mret None
      | Some grant =>
          let! now := Now in
          if After now (ag_expiresAt grant) then
            do! drop_access digest in
            do! mtry persistAccessLocked in
            mret None
          else mret (Some grant)
      end)) in
    mret (match r with Ok grant => grant | Err _ => None end).

Definition revokeAccess (token : string) : M World unit :=
  if token =? "" then mret tt
  else
    let! s := self in
    do! mtry (withAccessStoreFileLock (accessStorePath s) (
      do! reloadAccess in
      do! drop_access (accessTokenDigest token) in
      persistAccessLocked)) in
    mret tt.

(** ** Rotation *)
Definition restore (before : tokenStore) : M World unit :=
  modify (fun s => with_refresh (refresh before) (with_access (access before) s)).

(** The two grants of a rotation: the old grant's client, resource and scope, and new
    expiry times. *)
Definition rotated_access (old : refreshGrant) (now : time) : accessGrant :=
  {| ag_clientID := rg_clientID old; ag_resource := rg_resource old; ag_scope := rg_scope old; ag_expiresAt := TimeAdd now accessTokenTTL |}.
Definition rotated_refresh (old : refreshGrant) (now : time) : refreshGrant :=
  {| rg_clientID := rg_clientID old; rg_scope := rg_scope old; rg_resource := rg_resource old; rg_expiresAt := TimeAdd now refreshTokenTTL |}.

Definition persistRotation (before : tokenStore) : M World unit :=
  do! on_error persistAccessLocked (restore before) in
  on_error persistRefreshLocked (do! restore before in persistAccessLocked).

Definition rotateLocked (oldToken newToken accessToken : string) (now : time) : M World (option refreshGrant) :=
  do! reloadAccess in
  do! reloadRefresh in
  let! s := self in
  match refresh s !! oldToken with
  | None => mret None
  | Some oldGrant =>
      if After now (rg_expiresAt oldGrant) then
        do! drop_refresh oldToken in
        do! on_error persistRefreshLocked (set_refresh oldToken oldGrant) in
        mret None
      else
        do! mguard (bool_decide (is_Some (refresh s !! newToken))) "refresh token collision" in
        let digest := accessTokenDigest accessToken in
        do! pruneAccessLocked now in
        let! s := self in
        do! mguard (bool_decide (is_Some (access s !! digest))) "access token collision" in
        do! mguard (maxAccessGrants <=? size (access s))%nat "access grant limit reached" in
        do! set_access digest (rotated_access oldGrant now) in
        do! drop_refresh oldToken in
        do! set_refresh newToken (rotated_refresh oldGrant now) in
        do! persistRotation s in
        mret (Some oldGrant)
  end.

Definition rotateRefresh (oldToken newToken accessToken : string) (now : time) : M World (option refreshGrant) :=
  if (oldToken =? "") || (newToken =? "") || (accessToken =? "") then mret None
  else
    let! s := self in
    withAccessStoreFileLock (accessStorePath s) (
      withAccessStoreFileLock (refreshStorePath s) (rotateLocked oldToken newToken accessToken now)).
End Methods.
