(* ===== verification/OAuthProvider.v ===== *)
(** * OAuth: the provider and its handlers

    [internal/oauth/provider.go], [register.go], [authorize.go], [token.go],
    [resource.go], [console_client.go] and [endpoints.go].  A handler is a program over
    the store's methods ([prog]): between two calls other requests of the process, and
    other processes, may run, since only the methods hold the store's mutex.  What a
    handler answers is a value of [response]. *)

From S2P Require Import Prelude Effects GoStrings GoRegexp GoJson GoTime GoReflect GoRecord Sha256 GoPath GoUrl OAuthTypes OAuthStore.

(** ** Programs over the store *)
Inductive call : Type -> Type :=
| CRand : call string
| CNow : call time
| CRegister (redirectURIs : list string) : call (result string)
| CGetClient (id : string) : call (option clientReg)
| CEnsureFixed (clientID redirectURI : string) : call (result unit)
| CPutCode (code : string) (c : authCode) : call (result unit)
| CConsumeCode (code : string) : call (option authCode)
| CThrottled (clientID : string) : call bool
| CRecordFailure (clientID : string) : call unit
| CResetFailures (clientID : string) : call unit
| CPutAccess (token : string) (g : accessGrant) : call (result unit)
| CGetAccess (token : string) : call (option accessGrant)
| CRevokeAccess (token : string) : call unit
| CPutRefresh (token : string) (g : refreshGrant) : call (result unit)
| CConsumeRefresh (token : string) : call (result (option refreshGrant))
| CRotateRefresh (oldToken newToken accessToken : string) (now : time) : call (result (option refreshGrant))
| CRevokeRefresh (token : string) : call unit.

Inductive prog (R : Type) : Type :=
| Ret (r : R)
| Do {A} (c : call A) (k : A -> prog R).
Arguments Ret {R} r.
Arguments Do {R A} c k.

Fixpoint pbind {A B} (p : prog A) (f : A -> prog B) : prog B :=
  match p with
  | Ret a => f a
  | Do c k => Do c (fun a => pbind (k a) f)
  end.

Notation "'let*' x ':=' c 'in' k" := (Do c (fun x => k))
  (at level 10, x pattern, c at level 100, k at level 200) : go_scope.
Notation "'run*' c 'in' k" := (Do c (fun _ => k))
  (at level 10, c at level 100, k at level 200) : go_scope.
Notation "'bind*' x ':=' p 'in' k" := (pbind p (fun x => k))
  (at level 10, x pattern, p at level 100, k at level 200) : go_scope.

(** ** The provider *)
Record Provider := { issuer : string; resource : string; passphrase : string }.

Record Config := {
  Issuer : string;
  Resource : string;
  Passphrase : string;
  ClientStorePath : string;
  AccessStorePath : string;
  RefreshStorePath : string }.

Definition validatePublicURL (raw : string) : result unit :=
  match Parse raw with
  | None => Err "invalid URL"
  | Some u =>
      if (Scheme u <>? "http") && (Scheme u <>? "https") then Err "must be an http(s) URL"
      else if Fragment u <>? "" then Err "must not contain a fragment"
      else if Host u =? "" then Err "must include a host"
      else if (Scheme u <>? "https") && negb (isLoopbackHost (Hostname u)) then Err "must use https (only localhost may use http)"
      else Ok tt
  end.

Section Start.
(** The symbolic links when the provider starts, and the file a path names
    ([os.Stat] and [os.SameFile]; [None] where there is none). *)
Context (tree : FS) (identity : string -> option Z).

Definition resolve_store (path : string) : string :=
  let clean := Clean path in
  match EvalSymlinks tree clean with
  | Ok resolved => resolved
  | Err _ =>
      match EvalSymlinks tree (PathDir clean) with
      | Ok resolved => PathJoin resolved (PathBase clean)
      | Err _ => clean
      end
  end.

Definition notDistinct : error := "client, access, and refresh stores must use distinct files".

Fixpoint distinct_stores (seen : gset string) (seenFiles : list Z) (paths : list string) : result unit :=
  match paths with
  | [] => Ok tt
  | path :: paths =>
      let path := TrimSpace path in
      if path =? "" then distinct_stores seen seenFiles paths
      else
        let clean := resolve_store path in
        check reject_if (bool_decide (clean ∈ seen)) notDistinct in
        match identity clean with
        | Some file =>
            check reject_if (bool_decide (file ∈ seenFiles)) notDistinct in
            distinct_stores ({[clean]} ∪ seen) (seenFiles ++ [file]) paths
        | None => distinct_stores ({[clean]} ∪ seen) seenFiles paths
        end
  end.
Definition validateDistinctStorePaths (paths : list string) : result unit := distinct_stores ∅ [] paths.

Context {E : Environment}.

(** [if strings.TrimSpace(path) != "" { store.enable...(path) }] *)
Definition when_set (path : string) (enable : string -> M World unit) : M World unit :=
  if TrimSpace path =? "" then mret tt else enable path.

Definition NewProvider (cfg : Config) : M World Provider :=
  let issuer := TrimRightByte (TrimSpace (Issuer cfg)) "/" in
  let resource := TrimSpace (Resource cfg) in
  do! mguard (issuer =? "") "oauth: issuer (public URL) is required" in
  do! mguard (resource =? "") "oauth: resource (canonical MCP URL) is required" in
  do! mguard (TrimSpace (Passphrase cfg) =? "") "oauth: passphrase is required" in
  do! mlift (validatePublicURL issuer) in
  do! mlift (validatePublicURL resource) in
  do! mlift (validateDistinctStorePaths [ClientStorePath cfg; AccessStorePath cfg; RefreshStorePath cfg]) in
  do! modify (fun _ => newTokenStore) in
  do! when_set (ClientStorePath cfg) enableClientPersistence in
  do! when_set (AccessStorePath cfg) enableAccessPersistence in
  do! when_set (RefreshStorePath cfg) enableRefreshPersistence in
  mret {| issuer := issuer; resource := resource; passphrase := Passphrase cfg |}.
End Start.

(** ** Responses *)
Record authorizeParams := {
  ap_clientID : string;
  ap_redirectURI : string;
  ap_codeChallenge : string;
  ap_state : string;
  ap_scope : string;
  ap_resource : string }.

Inductive response :=
| HttpError (status : Z) (message : string)
| MethodNotAllowed (allow : string)
| TokenError (status : Z) (code desc : string)
| RegistrationError (status : Z) (code desc : string)
| LoginPage (csp : string) (params : authorizeParams) (message : string) (status : Z)
| Redirect (csp : string) (location : URL)
| TokenPair (access_token refresh_token scope : string) (expires_in : Z)
| Registered (client_id : string) (issued_at : Z) (redirect_uris : list string) (client_name : string)
| Document (body : json).

(** ** Authorization *)
Definition safeRedirectOrigin (raw : string) : string :=
  match Parse raw with
  | None => ""
  | Some u =>
      if bool_decide (is_Some (User u)) || (Host u =? "") then ""
      else if (Scheme u <>? "https") && (Scheme u <>? "http") then ""
      else Scheme u +:+ "://" +:+ Host u
  end.
Definition authorizationCSP (params : authorizeParams) : string :=
  let origin := safeRedirectOrigin (ap_redirectURI params) in
  let form_action := "form-action 'self'" +:+ (if origin =? "" then "" else " " +:+ origin) in
  Join ["default-src 'none'"; "style-src 'self'"; form_action; "frame-ancestors 'none'"; "base-uri 'none'"] "; ".

Definition registeredRedirect (c : clientReg) (uri : string) : bool := existsb (fun u => u =? uri) (cr_redirectURIs c).

Definition validateAuthorizeRequest (p : Provider) (v : Values) : prog (result authorizeParams) :=
  let clientID := Get v "client_id" in
  let* client := CGetClient clientID in
  Ret (match client with
  | None => Err "unknown client_id"
  | Some client =>
      let redirectURI := Get v "redirect_uri" in
      check reject_if (negb (registeredRedirect client redirectURI)) "redirect_uri does not match a registered value" in
      check reject_if (Get v "response_type" <>? "code") "response_type must be code" in
      check reject_if (Get v "code_challenge" =? "") "code_challenge is required (PKCE)" in
      check reject_if (Get v "code_challenge_method" <>? "S256") "code_challenge_method must be S256" in
      check reject_if (Get v "resource" <>? resource p) "resource must match this MCP server's canonical URI" in
      check reject_if (Get v "scope" <>? "mcp") "scope must be mcp" in
      Ok {| ap_clientID := clientID; ap_redirectURI := redirectURI; ap_codeChallenge := Get v "code_challenge";
            ap_state := Get v "state"; ap_scope := Get v "scope"; ap_resource := Get v "resource" |}
  end).

Definition with_query (u : URL) (query : string) : URL :=
  {| Scheme := Scheme u; Opaque := Opaque u; User := User u; Host := Host u; Path := Path u; ForceQuery := ForceQuery u;
     RawQuery := query; Fragment := Fragment u |}.

Definition redirectWithCode (params : authorizeParams) (code : string) : response :=
  match Parse (ap_redirectURI params) with
  | None => HttpError 400 "invalid redirect_uri"
  | Some u =>
      let q := Set_ (Query u) "code" code in
      let q := if ap_state params =? "" then q else Set_ q "state" (ap_state params) in
      Redirect (authorizationCSP params) (with_query u (Encode q))
  end.

Definition loginPage (params : authorizeParams) (message : string) (status : Z) : response :=
  LoginPage (authorizationCSP params) params message status.

Definition code_of (params : authorizeParams) (now : time) : authCode :=
  {| ac_clientID := ap_clientID params; ac_redirectURI := ap_redirectURI params; ac_codeChallenge := ap_codeChallenge params;
     ac_scope := ap_scope params; ac_resource := ap_resource params; ac_expiresAt := TimeAdd now authCodeTTL |}.

(** The POST, once its form is parsed. *)
Definition submitLogin (p : Provider) (form : Values) : prog response :=
  bind* params := validateAuthorizeRequest p form in
  match params with
  | Err e => Ret (HttpError 400 ("invalid authorization request: " +:+ e))
  | Ok params =>
      let* throttled := CThrottled (ap_clientID params) in
      if (throttled : bool) then Ret (loginPage params "Too many attempts. Authorization is temporarily locked." 429)
      else if Get form "passphrase" <>? passphrase p then
        run* CRecordFailure (ap_clientID params) in
        Ret (loginPage params "Incorrect passphrase." 401)
      else
        run* CResetFailures (ap_clientID params) in
        let* code := CRand in
        let* now := CNow in
        let* stored := CPutCode code (code_of params now) in
        match stored with
        | Err _ => Ret (HttpError 503 "authorization storage is temporarily unavailable")
        | Ok _ => Ret (redirectWithCode params code)
        end
  end.

Definition handleAuthorize (p : Provider) (r : Request) : prog response :=
  if Method r =? "GET" then
    bind* params := validateAuthorizeRequest p (ParseQuery (URLQuery r)).1 in
    Ret (match params with
         | Err e => HttpError 400 ("invalid authorization request: " +:+ e)
         | Ok params => loginPage params "" 200
         end)
  else if Method r =? "POST" then
    match ParseForm r with
    | None => Ret (HttpError 400 "bad form")
    | Some form => submitLogin p form
    end
  else Ret (MethodNotAllowed "GET, POST").

(** ** Tokens *)
Definition verifyPKCE (verifier challenge : string) : bool :=
  if (verifier =? "") || (challenge =? "") then false
  else RawURLEncode (Sum256 verifier) =? challenge.

(** [issueAccessToken]: the empty token where it fails. *)
Definition issueAccessToken (clientID res scope : string) (ttl : duration) : prog string :=
  let* token := CRand in
  if token =? "" then Ret ""
  else
    let* now := CNow in
    let* stored := CPutAccess token {| ag_clientID := clientID; ag_resource := res; ag_scope := scope; ag_expiresAt := TimeAdd now ttl |} in
    match stored with Err _ => Ret "" | Ok _ => Ret token end.

Definition expires_in : Z := accessTokenTTL / Second.

Definition issueTokenPair (clientID res scope : string) : prog response :=
  bind* access := issueAccessToken clientID res scope accessTokenTTL in
  if access =? "" then Ret (TokenError 503 "temporarily_unavailable" "access token storage is temporarily unavailable")
  else
    let* refresh := CRand in
    let* now := CNow in
    let* stored := CPutRefresh refresh {| rg_clientID := clientID; rg_scope := scope; rg_resource := res; rg_expiresAt := TimeAdd now refreshTokenTTL |} in
    match stored with
    | Err _ =>
        run* CRevokeAccess access in
        Ret (TokenError 503 "temporarily_unavailable" "refresh token storage is temporarily unavailable")
    | Ok _ => Ret (TokenPair access refresh scope expires_in)
    end.

Definition grantAuthorizationCode (form : Values) : prog response :=
  let* code := CConsumeCode (Get form "code") in
  match code with
  | None => Ret (TokenError 400 "invalid_grant" "authorization code is invalid or expired")
  | Some code =>
      if Get form "client_id" <>? ac_clientID code then Ret (TokenError 400 "invalid_grant" "client_id mismatch")
      else if Get form "redirect_uri" <>? ac_redirectURI code then Ret (TokenError 400 "invalid_grant" "redirect_uri mismatch")
      else if Get form "resource" <>? ac_resource code then Ret (TokenError 400 "invalid_target" "resource mismatch")
      else if negb (verifyPKCE (Get form "code_verifier") (ac_codeChallenge code)) then
        Ret (TokenError 400 "invalid_grant" "PKCE verification failed")
      else issueTokenPair (ac_clientID code) (ac_resource code) (ac_scope code)
  end.

Definition grantRefreshToken (form : Values) : prog response :=
  let oldRefresh := Get form "refresh_token" in
  let* access := CRand in
  let* refresh := CRand in
  if (access =? "") || (refresh =? "") then
    Ret (TokenError 503 "temporarily_unavailable" "token generation is temporarily unavailable")
  else
    let* now := CNow in
    let* rotated := CRotateRefresh oldRefresh refresh access now in
    match rotated with
    | Err _ => Ret (TokenError 503 "temporarily_unavailable" "token storage is temporarily unavailable")
    | Ok None => Ret (TokenError 400 "invalid_grant" "refresh token is invalid or expired")
    | Ok (Some g) => Ret (TokenPair access refresh (rg_scope g) expires_in)
    end.

Definition handleToken (r : Request) : prog response :=
  if Method r <>? "POST" then Ret (MethodNotAllowed "POST")
  else
    match ParseForm r with
    | None => Ret (TokenError 400 "invalid_request" "malformed form body")
    | Some form =>
        if Get form "grant_type" =? "authorization_code" then grantAuthorizationCode form
        else if Get form "grant_type" =? "refresh_token" then grantRefreshToken form
        else Ret (TokenError 400 "unsupported_grant_type" "grant_type must be authorization_code or refresh_token")
    end.

(** ** The resource server *)
(** [Principal]: the connector a bearer token stands for. *)
Definition Principal (p : Provider) (r : Request) : prog (option string) :=
  if negb (HasPrefix (Authorization r) "Bearer ") then Ret None
  else
    let token := TrimSpace (drop_bytes 7 (Authorization r)) in
    let* grant := CGetAccess token in
    Ret (match grant with
         | None => None
         | Some g =>
             if (ag_resource g <>? resource p) || (TrimSpace (ag_clientID g) =? "") then None
             else Some ("oauth-client:" +:+ ag_clientID g)
         end).
Definition Authorize (p : Provider) (r : Request) : prog bool :=
  bind* principal := Principal p r in Ret (bool_decide (is_Some principal)).

(** The [WWW-Authenticate] value of a refusal. *)
Definition pathPRMResource : string := "/.well-known/oauth-protected-resource/mcp".
Definition quote (s : string) : string := String dquote (s +:+ String dquote "").
Definition ChallengeHeader (p : Provider) : string :=
  "Bearer realm=" +:+ quote "mcp-devbox" +:+ ", resource_metadata=" +:+ quote (issuer p +:+ pathPRMResource).

(** ** Registration *)
Record registrationRequest := {
  rq_ClientName : string;
  rq_RedirectURIs : list string;
  rq_GrantTypes : list string;
  rq_ResponseTypes : list string }.
Definition registration_type : gtype :=
  TStruct [req "client_name" c_string; req "redirect_uris" (c_list c_string); req "grant_types" (c_list c_string);
    req "response_types" (c_list c_string)].
Definition registration_to (r : registrationRequest) : gval :=
  VStruct [c_to c_string (rq_ClientName r); c_to (c_list c_string) (rq_RedirectURIs r); c_to (c_list c_string) (rq_GrantTypes r);
    c_to (c_list c_string) (rq_ResponseTypes r)].
Definition registration_of (v : gval) : option registrationRequest :=
  match v with
  | VStruct [x0; x1; x2; x3] =>
      x0 ← c_of c_string x0; x1 ← c_of (c_list c_string) x1; x2 ← c_of (c_list c_string) x2; x3 ← c_of (c_list c_string) x3;
      Some {| rq_ClientName := x0; rq_RedirectURIs := x1; rq_GrantTypes := x2; rq_ResponseTypes := x3 |}
  | _ => None
  end.
Lemma registration_law r : registration_of (registration_to r) = Some r.
Proof. destruct r. cbn -[c_to c_of]. by rewrite !c_law. Qed.
Definition c_registration : codec registrationRequest :=
  {| c_type := registration_type; c_to := registration_to; c_of := registration_of; c_law := registration_law |}.

Definition maxRegistrationBody : nat := Z.to_nat 16384.

(** [json.NewDecoder(http.MaxBytesReader(w, r.Body, 16<<10)).Decode(&req)]: the first
    value of the text, of which no more than the limit is read. *)
Definition decode_registration (body : string) : option registrationRequest :=
  let text := take_bytes maxRegistrationBody body in
  '(j, _) ← read_value (2 * String.length text + 2) text;
  v ← decode false j registration_type (zero registration_type);
  registration_of v.

Definition validate_redirects (uris : list string) : result unit :=
  foldr (fun u k => check validateRedirectURI u in k) (Ok tt) uris.

Definition handleRegister (r : Request) : prog response :=
  if Method r <>? "POST" then Ret (MethodNotAllowed "POST")
  else
    match decode_registration (Body r) with
    | None => Ret (RegistrationError 400 "invalid_client_metadata" "malformed registration body")
    | Some rq =>
        match rq_RedirectURIs rq with
        | [] => Ret (RegistrationError 400 "invalid_redirect_uri" "at least one redirect_uri is required")
        | uris =>
            match validate_redirects uris with
            | Err e => Ret (RegistrationError 400 "invalid_redirect_uri" e)
            | Ok _ =>
                let* id := CRegister uris in
                match id with
                | Err e =>
                    if e <>? errRegLimited then Ret (RegistrationError 500 "server_error" "could not store client registration")
                    else Ret (RegistrationError 429 "temporarily_unavailable" "registration limit reached")
                | Ok id =>
                    let* now := CNow in
                    Ret (Registered id (now / Second) uris (rq_ClientName rq))
                end
            end
        end
    end.

(** ** The embedded console's client *)
Record ConsoleClient := { cc_clientID : string; cc_redirectURI : string }.
Definition consoleClientScope : string := "mcp".
Definition pathAuthorize : string := "/oauth/authorize".
Definition pathToken : string := "/oauth/token".
Definition pathRegister : string := "/oauth/register".

Definition NewConsoleClient (p : Provider) (callbackPath : string) : prog (result ConsoleClient) :=
  let callbackPath := TrimSpace callbackPath in
  let bad := Err "oauth: console callback must be an absolute path without query or fragment" in
  match Parse callbackPath with
  | None => Ret bad
  | Some u =>
      if negb (HasPrefix callbackPath "/") || IsAbsURL u || (Host u <>? "") || (RawQuery u <>? "") || (Fragment u <>? "") then Ret bad
      else
        let redirectURI := issuer p +:+ callbackPath in
        match validateRedirectURI redirectURI with
        | Err _ => Ret (Err "oauth: console callback is invalid")
        | Ok _ =>
            let digest := Sum256 ("mcp-devbox-console-client" +:+ String (chr 0) redirectURI) in
            let clientID := "console-" +:+ RawURLEncode (take_bytes 18 digest) in
            let* ensured := CEnsureFixed clientID redirectURI in
            Ret (match ensured with
                 | Err e => Err e
                 | Ok _ => Ok {| cc_clientID := clientID; cc_redirectURI := redirectURI |}
                 end)
        end
  end.

Definition AuthorizationURL (p : Provider) (c : ConsoleClient) (state codeChallenge : string) : result string :=
  if (TrimSpace state =? "") || (TrimSpace codeChallenge =? "") then
    Err "oauth: console authorization state and PKCE challenge are required"
  else
    let query : Values := list_to_map [("response_type", ["code"]); ("client_id", [cc_clientID c]); ("redirect_uri", [cc_redirectURI c]);
      ("code_challenge", [codeChallenge]); ("code_challenge_method", ["S256"]); ("state", [state]);
      ("scope", [consoleClientScope]); ("resource", [resource p])] in
    Ok (issuer p +:+ pathAuthorize +:+ "?" +:+ Encode query).

Definition Complete (p : Provider) (c : ConsoleClient) (codeValue verifier : string) : prog bool :=
  if (codeValue =? "") || (verifier =? "") then Ret false
  else
    let* code := CConsumeCode codeValue in
    match code with
    | None => Ret false
    | Some code =>
        if (ac_clientID code <>? cc_clientID c) || (ac_redirectURI code <>? cc_redirectURI c) || (ac_resource code <>? resource p) ||
           (ac_scope code <>? consoleClientScope) || negb (verifyPKCE verifier (ac_codeChallenge code)) then Ret false
        else
          bind* access := issueAccessToken (cc_clientID c) (resource p) consoleClientScope Minute in
          let* refresh := CRand in
          if (access =? "") || (refresh =? "") then run* CRevokeAccess access in Ret false
          else
            let* now := CNow in
            let* stored := CPutRefresh refresh {| rg_clientID := cc_clientID c; rg_scope := consoleClientScope; rg_resource := resource p;
              rg_expiresAt := TimeAdd now Minute |} in
            match stored with
            | Err _ => run* CRevokeAccess access in Ret false
            | Ok _ =>
                run* CRevokeAccess access in
                run* CRevokeRefresh refresh in
                Ret true
            end
    end.

(** ** Discovery and routes *)
Definition strs (l : list string) : json := JArr (JStr <$> l).
Definition handleProtectedResourceMetadata (p : Provider) (r : Request) : prog response :=
  Ret (if Method r <>? "GET" then MethodNotAllowed "GET"
       else Document (JObj [("authorization_servers", strs [issuer p]); ("bearer_methods_supported", strs ["header"]);
         ("resource", JStr (resource p)); ("scopes_supported", strs ["mcp"])])).
Definition handleAuthServerMetadata (p : Provider) (r : Request) : prog response :=
  Ret (if Method r <>? "GET" then MethodNotAllowed "GET"
       else Document (JObj [("authorization_endpoint", JStr (issuer p +:+ pathAuthorize));
         ("code_challenge_methods_supported", strs ["S256"]);
         ("grant_types_supported", strs ["authorization_code"; "refresh_token"]); ("issuer", JStr (issuer p));
         ("registration_endpoint", JStr (issuer p +:+ pathRegister)); ("response_types_supported", strs ["code"]);
         ("scopes_supported", strs ["mcp"]); ("token_endpoint", JStr (issuer p +:+ pathToken));
         ("token_endpoint_auth_methods_supported", strs ["none"])])).

(** [RegisterRoutes] *)
Definition RegisterRoutes (p : Provider) (path : string) : option (Request -> prog response) :=
  if (path =? "/.well-known/oauth-protected-resource") || (path =? pathPRMResource) then
    Some (handleProtectedResourceMetadata p)
  else if (path =? "/.well-known/oauth-authorization-server") || (path =? "/.well-known/openid-configuration") then
    Some (handleAuthServerMetadata p)
  else if path =? pathRegister then Some handleRegister
  else if path =? pathAuthorize then Some (handleAuthorize p)
  else if path =? pathToken then Some handleToken
  else None.

(** ** Execution *)
Section Execution.
Context {E : Environment}.

Definition exec {A} (c : call A) : M World A :=
  match c with
  | CRand => randToken
  | CNow => Now
  | CRegister uris => mtry (registerClient uris)
  | CGetClient id => getClient id
  | CEnsureFixed id uri => mtry (ensureFixedClient id uri)
  | CPutCode code c => mtry (putCode code c)
  | CConsumeCode code => consumeCode code
  | CThrottled id => passphraseThrottled id
  | CRecordFailure id => recordPassphraseFailure id
  | CResetFailures id => resetPassphraseFailures id
  | CPutAccess t g => mtry (putAccess t g)
  | CGetAccess t => getAccess t
  | CRevokeAccess t => revokeAccess t
  | CPutRefresh t g => mtry (putRefresh t g)
  | CConsumeRefresh t => mtry (consumeRefresh t)
  | CRotateRefresh old new acc now => mtry (rotateRefresh old new acc now)
  | CRevokeRefresh t => revokeRefresh t
  end.

(** A program run to its end with nothing in between. *)
Fixpoint alone {R} (p : prog R) : M World R :=
  match p with
  | Ret r => mret r
  | Do c k => let! a := exec c in alone (k a)
  end.
End Execution.
