(* ===== verification/OAuthFacts.v ===== *)
(** * OAuth: how the token store's methods run

    Weakest preconditions over every fault of the file system ([wp]), with one rule
    per construct and one per helper of the store; and the round trips of the three
    files: what [persist...Locked] wrote, [load...Locked] reads back. *)

From S2P Require Import Prelude GoStrings GoPath GoRegexp Sha256 GoJson GoTime GoReflect GoRecord Effects GoUrl OAuthTypes OAuthStore.

(** ** Weakest preconditions *)
Definition wp {A} (m : M World A) (Q : A -> World -> Prop) (X : error -> World -> Prop) (w : World) : Prop :=
  forall fs, match m w fs with (Ok a, w', _) => Q a w' | (Err e, w', _) => X e w' end.

Section Rules.
Context {A B : Type}.
Implicit Types (w : World) (X : error -> World -> Prop).

Lemma wp_bind (m : M World A) (k : A -> M World B) Q X w : wp m (fun a => wp (k a) Q X) X w -> wp (mbind m k) Q X w.
Proof. intros H fs. unfold mbind. specialize (H fs). destruct (m w fs) as [[[a|e] w'] fs']; [apply H|done]. Qed.

Lemma wp_ret (a : A) Q X w : Q a w -> wp (mret a) Q X w.
Proof. by intros H fs. Qed.
Lemma wp_fail e (Q : A -> World -> Prop) X w : X e w -> wp (mfail e) Q X w.
Proof. by intros H fs. Qed.
Lemma wp_lift (r : result A) Q X w : (forall a, r = Ok a -> Q a w) -> (forall e, r = Err e -> X e w) -> wp (mlift r) Q X w.
Proof. intros H1 H2 fs. unfold mlift. destruct r; auto. Qed.
Lemma wp_try (m : M World A) Q X w : wp m (fun a => Q (Ok a)) (fun e => Q (Err e)) w -> wp (mtry m) Q X w.
Proof. intros H fs. unfold mtry. specialize (H fs). by destruct (m w fs) as [[[a|e] w'] fs']. Qed.
Lemma wp_mono (m : M World A) (Q Q' : A -> World -> Prop) (X X' : error -> World -> Prop) w :
  wp m Q X w -> (forall a w', Q a w' -> Q' a w') -> (forall e w', X e w' -> X' e w') -> wp m Q' X' w.
Proof. intros H HQ HX fs. specialize (H fs). destruct (m w fs) as [[[a|e] w'] fs']; auto. Qed.
Lemma wp_and (m : M World A) (Q Q' : A -> World -> Prop) (X X' : error -> World -> Prop) w :
  wp m Q X w -> wp m Q' X' w -> wp m (fun a w' => Q a w' /\ Q' a w') (fun e w' => X e w' /\ X' e w') w.
Proof. intros H H' fs. specialize (H fs). specialize (H' fs). by destruct (m w fs) as [[[a|e] w'] fs']. Qed.

Lemma wp_run (m : M World A) Q X w fs r w' : wp m Q X w -> run m w fs = (r, w') ->
  match r with Ok a => Q a w' | Err e => X e w' end.
Proof.
  unfold run. intros H. specialize (H fs). destruct (m w fs) as [[r' w''] fs']. cbn. intros [= -> ->]. by destruct r.
Qed.
End Rules.

Lemma wp_on_error {A} (m : M World A) undo Q (X : error -> World -> Prop) w : wp m Q (fun e => wp undo (fun _ => X e) X) w -> wp (on_error m undo) Q X w.
Proof.
  intros H. unfold on_error. apply wp_bind, wp_try. intros fs. specialize (H fs). destruct (m w fs) as [[[a|e] w'] fs']; [by apply wp_ret|].
  apply wp_bind. eapply wp_mono; [exact H| |done]. intros a w'' Hx. by apply wp_fail.
Qed.
Lemma wp_guard c e (Q : unit -> World -> Prop) X w : (c = false -> Q tt w) -> (c = true -> X e w) -> wp (mguard c e) Q X w.
Proof. intros H1 H2 fs. unfold mguard, mlift, reject_if. destruct c; auto. Qed.
Lemma wp_modify f Q X w : Q tt (with_store (f (store w)) w) -> wp (modify f) Q X w.
Proof. by intros H fs. Qed.
Lemma wp_self Q X w : Q (store w) w -> wp self Q X w.
Proof. by intros H fs. Qed.
Lemma wp_get Q X w : Q w w -> wp mget Q X w.
Proof. by intros H fs. Qed.
Lemma wp_put w' (Q : unit -> World -> Prop) X w : Q tt w' -> wp (mput w') Q X w.
Proof. by intros H fs. Qed.
Lemma wp_io e Q X w : Q tt w -> X e w -> wp (io e) Q X w.
Proof. intros H1 H2 fs. unfold io, driver. destruct (next_fault fs) as [[] fs']; auto. Qed.
Lemma wp_read path Q X w : Q (disk w !! path) w -> X "read" w -> wp (ReadFile path) Q X w.
Proof. intros H1 H2. apply wp_bind, wp_get. intros fs. unfold driver. destruct (next_fault fs) as [[] fs']; auto. Qed.
Lemma wp_lock {A} path (fn : M World A) Q X w : wp fn Q X w -> (path <> "" -> forall e, X e w) -> wp (withAccessStoreFileLock path fn) Q X w.
Proof.
  intros H1 H2. unfold withAccessStoreFileLock. case_bool_decide as Hp; [done|].
  do 4 (apply wp_bind, wp_io; [|by apply H2]). done.
Qed.
Lemma wp_write path body Q X w : Q tt (with_disk (<[path := body]> (disk w)) w) -> (forall e, X e w) -> wp (writeFileAtomic0600 path body) Q X w.
Proof.
  intros H1 H2. unfold writeFileAtomic0600. do 6 (apply wp_bind, wp_io; [|by apply H2]). by apply wp_bind, wp_get, wp_put.
Qed.
Lemma wp_marshal {A} (c : codec A) doc Q X w : (encodable (c_to c doc) = true -> Q (MarshalIndent c doc) w) -> X "marshal" w ->
  wp (marshal_indent c doc) Q X w.
Proof. intros H1 H2. apply wp_bind, wp_guard; [|done]. intros H%negb_false_iff. apply wp_ret. auto. Qed.

Definition tick (w : World) : World := {| disk := disk w; ticks := S (ticks w); draws := draws w; store := store w |}.
Definition draw (w : World) : World := {| disk := disk w; ticks := ticks w; draws := S (draws w); store := store w |}.

Lemma wp_Now {E : Environment} Q X w : Q (clock (ticks w)) (tick w) -> wp Now Q X w.
Proof. by intros H fs. Qed.
Definition drawn {E : Environment} (n : nat) : string := match random n with Some b => RawURLEncode b | None => "" end.
Lemma wp_rand {E : Environment} Q X w : Q (drawn (draws w)) (draw w) -> wp randToken Q X w.
Proof. by intros H fs. Qed.

(** One construct of a method. *)
Ltac wp_step :=
  match goal with
  | |- wp (mbind _ _) _ _ _ => apply wp_bind
  | |- wp (mret _) _ _ _ => apply wp_ret
  | |- wp (mfail _) _ _ _ => apply wp_fail
  | |- wp (mguard _ _) _ _ _ => apply wp_guard; intros
  | |- wp (mlift _) _ _ _ => apply wp_lift; intros
  | |- wp (mtry _) _ _ _ => apply wp_try
  | |- wp (on_error _ _) _ _ _ => apply wp_on_error
  | |- wp (modify _) _ _ _ => apply wp_modify
  | |- wp self _ _ _ => apply wp_self
  | |- wp Now _ _ _ => apply wp_Now
  | |- wp randToken _ _ _ => apply wp_rand
  | |- wp (withAccessStoreFileLock _ _) _ _ _ => apply wp_lock; [|intros]
  | |- wp (ReadFile _) _ _ _ => apply wp_read
  | |- wp (if ?b then _ else _) _ _ _ => destruct b eqn:?
  | |- wp (set_refresh _ _) _ _ _ => apply wp_modify
  | |- wp (drop_refresh _) _ _ _ => apply wp_modify
  | |- wp (set_access _ _) _ _ _ => apply wp_modify
  | |- wp (drop_access _) _ _ _ => apply wp_modify
  | |- wp (pruneAccessLocked _) _ _ _ => apply wp_modify
  | |- wp (restore _) _ _ _ => apply wp_modify
  | |- wp (add_failure _) _ _ _ => unfold add_failure
  | |- wp (pruneFailuresLocked _) _ _ _ => unfold pruneFailuresLocked
  end.

(** ** What a file holds *)
Definition clients_of_text (body : string) : option (gmap string clientReg) :=
  doc ← UnmarshalLoose c_client_file body;
  if (cf_Version doc <>? 1) && (cf_Version doc <>? 2) then None
  else if (maxClients <? length (range (cf_Clients doc)))%nat then None
  else match load_clients (cf_Version doc) ∅ (range (cf_Clients doc)) with Ok m => Some m | Err _ => None end.

Definition access_of_text (now : time) (body : string) : option (gmap string accessGrant) :=
  if maxAccessStoreSize <? Len body then None
  else
    doc ← UnmarshalLoose c_access_file body;
    if af_Version doc <>? 1 then None
    else if (maxAccessGrants <? length (range (af_Access doc)))%nat then None
    else match load_access now ∅ (range (af_Access doc)) with Ok m => Some m | Err _ => None end.

Definition refresh_of_text (now : time) (body : string) : option (gmap string refreshGrant) :=
  doc ← UnmarshalLoose c_refresh_file body;
  if rf_Version doc <>? 1 then None else Some (fold_left (load_refresh now) (range (rf_Refresh doc)) ∅).

Section Helpers.
Context {E : Environment}.
Implicit Types (w : World) (Q : unit -> World -> Prop) (X : error -> World -> Prop).

Lemma wp_loadClients Q X w :
  (disk w !! clientStorePath (store w) = None -> Q tt w) ->
  (forall body m, disk w !! clientStorePath (store w) = Some body -> clients_of_text body = Some m ->
     Q tt (with_store (with_clients m (store w)) w)) ->
  (forall e, X e w) -> wp loadClientsLocked Q X w.
Proof.
  intros H1 H2 H3. unfold loadClientsLocked. do 2 wp_step. wp_step. wp_step; [|done].
  destruct (disk w !! _) as [body|]; [|by apply wp_ret, H1]. specialize (H2 body).
  unfold clients_of_text in H2. destruct (UnmarshalLoose c_client_file body) as [doc|]; [|by apply wp_fail]. cbn [base.mbind option_bind] in H2.
  do 2 wp_step; [|done]. do 2 wp_step; [|done]. do 2 wp_step; [|done]. apply wp_modify, H2; [done|].
  replace ((cf_Version doc <>? 1) && _) with false by done. replace (maxClients <? _)%nat with false by done. by rewrite H4.
Qed.

Lemma wp_persistClients Q X w :
  (clientStorePath (store w) = "" -> Q tt w) ->
  (clientStorePath (store w) <> "" -> encodable (c_to c_client_file (client_file (clients (store w)))) = true ->
    Q tt (with_disk (<[clientStorePath (store w) := MarshalIndent c_client_file (client_file (clients (store w)))]> (disk w)) w)) ->
  (clientStorePath (store w) <> "" -> forall e, X e w) -> wp persistClientsLocked Q X w.
Proof.
  intros H1 H2 H3. unfold persistClientsLocked. do 2 wp_step. case_bool_decide as Hp; [by apply wp_ret, H1|].
  wp_step. apply wp_marshal; [|by apply H3]. intros He. apply wp_write; auto.
Qed.

Lemma wp_loadRefresh Q X w :
  (disk w !! refreshStorePath (store w) = None -> Q tt w) ->
  (forall body m, disk w !! refreshStorePath (store w) = Some body -> refresh_of_text (clock (ticks w)) body = Some m ->
     Q tt (with_store (with_refresh m (store w)) (tick w))) ->
  (forall e, X e w) -> wp loadRefreshLocked Q X w.
Proof.
  intros H1 H2 H3. unfold loadRefreshLocked. do 2 wp_step. wp_step. wp_step; [|done].
  destruct (disk w !! _) as [body|]; [|by apply wp_ret, H1]. specialize (H2 body).
  unfold refresh_of_text in H2. destruct (UnmarshalLoose c_refresh_file body) as [doc|]; [|by apply wp_fail]. cbn [base.mbind option_bind] in H2.
  do 2 wp_step; [|done]. do 2 wp_step. apply wp_modify, H2; [done|]. replace (rf_Version doc <>? 1) with false by done. done.
Qed.

Lemma wp_persistRefresh Q X w :
  (refreshStorePath (store w) = "" -> Q tt w) ->
  (refreshStorePath (store w) <> "" -> encodable (c_to c_refresh_file (refresh_file (refresh (store w)))) = true ->
    Q tt (with_disk (<[refreshStorePath (store w) := MarshalIndent c_refresh_file (refresh_file (refresh (store w)))]> (disk w)) w)) ->
  (refreshStorePath (store w) <> "" -> forall e, X e w) -> wp persistRefreshLocked Q X w.
Proof.
  intros H1 H2 H3. unfold persistRefreshLocked. do 2 wp_step. case_bool_decide as Hp; [by apply wp_ret, H1|].
  wp_step. apply wp_marshal; [|by apply H3]. intros He. apply wp_write; auto.
Qed.

Lemma wp_reloadRefresh Q X w :
  (refreshStorePath (store w) = "" \/ disk w !! refreshStorePath (store w) = None -> Q tt w) ->
  (refreshStorePath (store w) <> "" -> forall body m, disk w !! refreshStorePath (store w) = Some body ->
     refresh_of_text (clock (ticks w)) body = Some m -> Q tt (with_store (with_refresh m (store w)) (tick w))) ->
  (refreshStorePath (store w) <> "" -> forall e, X e w) -> wp reloadRefresh Q X w.
Proof.
  intros H1 H2 H3. unfold reloadRefresh. do 2 wp_step. case_bool_decide as Hp; [apply wp_ret; auto|].
  apply wp_loadRefresh; [auto|by apply H2|by apply H3].
Qed.

Lemma wp_loadAccess Q X w :
  (disk w !! accessStorePath (store w) = None -> Q tt w) ->
  (forall body m, disk w !! accessStorePath (store w) = Some body -> access_of_text (clock (ticks w)) body = Some m ->
     Q tt (with_store (with_access m (store w)) (tick w))) ->
  (forall e, X e w /\ X e (tick w)) -> wp loadAccessLocked Q X w.
Proof.
  intros H1 H2 H3. unfold loadAccessLocked. do 2 wp_step. wp_step. wp_step; [|by apply H3].
  destruct (disk w !! _) as [body|] eqn:Eb; [|by apply wp_ret, H1]. specialize (H2 body).
  unfold access_of_text in H2. do 2 wp_step; [|by apply H3]. do 2 wp_step; [|by apply H3]. rewrite Eb. cbn [base.mbind option_bind].
  replace (maxAccessStoreSize <? Len body) with false in H2 by done.
  destruct (UnmarshalLoose c_access_file body) as [doc|]; [|by apply wp_fail, H3]. cbn [base.mbind option_bind] in H2.
  do 2 wp_step; [|by apply H3]. do 2 wp_step; [|by apply H3]. do 2 wp_step. do 2 wp_step; [|by apply H3]. apply wp_modify, H2; [done|].
  replace (af_Version doc <>? 1) with false by done. replace (maxAccessGrants <? _)%nat with false by done. by rewrite H5.
Qed.

Definition pruned_access (now : time) (m : gmap string accessGrant) : gmap string accessGrant :=
  filter (fun e => After now (ag_expiresAt e.2) = false) m.

Lemma wp_persistAccess Q X w :
  let s' := with_access (pruned_access (clock (ticks w)) (access (store w))) (store w) in
  let w' := with_store s' (tick w) in
  (accessStorePath (store w) = "" -> Q tt w) ->
  (accessStorePath (store w) <> "" -> encodable (c_to c_access_file (access_file (access s'))) = true ->
    Q tt (with_disk (<[accessStorePath (store w) := MarshalIndent c_access_file (access_file (access s'))]> (disk w)) w')) ->
  (accessStorePath (store w) <> "" -> forall e, X e w') -> wp persistAccessLocked Q X w.
Proof.
  intros s' w' H1 H2 H3. unfold persistAccessLocked. do 2 wp_step. case_bool_decide as Hp; [by apply wp_ret, H1|].
  do 2 wp_step. do 2 wp_step. do 2 wp_step. wp_step. apply wp_marshal; [|by apply H3]. intros He. apply wp_write; [by apply H2|auto].
Qed.

Lemma wp_reloadAccess Q X w :
  (accessStorePath (store w) = "" \/ disk w !! accessStorePath (store w) = None -> Q tt w) ->
  (accessStorePath (store w) <> "" -> forall body m, disk w !! accessStorePath (store w) = Some body ->
     access_of_text (clock (ticks w)) body = Some m -> Q tt (with_store (with_access m (store w)) (tick w))) ->
  (accessStorePath (store w) <> "" -> forall e, X e w /\ X e (tick w)) -> wp reloadAccess Q X w.
Proof.
  intros H1 H2 H3. unfold reloadAccess. do 2 wp_step. case_bool_decide as Hp; [apply wp_ret; auto|].
  apply wp_loadAccess; [auto|by apply H2|by apply H3].
Qed.
End Helpers.

(** * The files *)
(** ** Entries whose strings are valid *)
Definition client_text (id : string) (c : clientReg) : Prop := text id /\ Forall text (cr_redirectURIs c).
Definition access_text (digest : string) (g : accessGrant) : Prop :=
  text digest /\ text (ag_clientID g) /\ text (ag_scope g) /\ text (ag_resource g).
Definition refresh_text (token : string) (g : refreshGrant) : Prop :=
  text token /\ text (rg_clientID g) /\ text (rg_scope g) /\ text (rg_resource g).

Lemma encodable_time t : (0 <=? year_of t) && (year_of t <=? 9999) = true -> dated t.
Proof. unfold dated. lia. Qed.

(** A document of a version and a slice of records. *)
Lemma document_ok {A} (c : codec A) (name : string) (version : Z) (l : list A) : 0 <= version <= 2 ->
  Forall (fun r => val_in text (c_type c) (c_to c r)) l ->
  val_in text (TStruct [req "version" c_int64; req name (c_slice c)]) (VStruct [c_to c_int64 version; c_to (c_slice c) (Some l)]).
Proof.
  intros Hv Hl. cbn [val_in fields_ok req]. split; [cbn; lia|]. split; [done|]. split; [|done].
  apply c_slice_ok. cbn. by apply Forall_forall.
Qed.

Lemma document_encodable {A} (c : codec A) (version : Z) (l : list A) :
  encodable (VStruct [c_to c_int64 version; c_to (c_slice c) (Some l)]) = true -> Forall (fun r => encodable (c_to c r) = true) l.
Proof.
  cbn. rewrite andb_true_r, forallb_forall. intros H. apply Forall_forall. intros r Hr. apply H, list_elem_of_In, list_elem_of_fmap. eauto.
Qed.

(** ** Clients *)
Lemma client_record_ok r : text (cs_ID r) -> Forall text (cs_RedirectURIs r) -> encodable (c_to c_client_record r) = true ->
  val_in text (c_type c_client_record) (c_to c_client_record r).
Proof.
  intros Hi Hu He. destruct r as [id uris created active]. cbn [cs_ID cs_RedirectURIs] in *.
  assert (Ht : dated created).
  { apply encodable_time. cbn [c_to c_client_record client_record_to encodable c_string c_list slice_to c_time c_bool forallb cs_CreatedAt] in He.
    rewrite !andb_true_iff in He. rewrite andb_true_iff. tauto. }
  cbn [c_type c_to c_client_record client_record_type client_record_to val_in fields_ok req omit]. split_and!; try done.
  - by apply (c_list_ok c_string), Forall_forall.
  - by destruct active.
Qed.

Lemma client_file_decodes m : map_Forall client_text m -> encodable (c_to c_client_file (client_file m)) = true ->
  UnmarshalLoose c_client_file (MarshalIndent c_client_file (client_file m)) = Some (client_file m).
Proof.
  intros Hm He. apply unmarshal_indented; [done|vm_compute; reflexivity|]. apply document_ok; [done|].
  apply document_encodable in He. rewrite Forall_forall in He. apply Forall_forall. intros r Hr. pose proof (He r Hr) as Her.
  rewrite merge_sort_Permutation in Hr. apply list_elem_of_fmap in Hr as ([id c] & -> & Hin%elem_of_map_to_list).
  apply client_record_ok; [apply (Hm id c Hin)|apply (Hm id c Hin)|done].
Qed.

Lemma load_client_spec version loaded c m : load_client version loaded c = Ok m ->
  cs_ID c <> "" /\ cs_RedirectURIs c <> [] /\ Forall (fun u => validateRedirectURI u = Ok tt) (cs_RedirectURIs c) /\ loaded !! cs_ID c = None /\
  m = <[cs_ID c := {| cr_redirectURIs := cs_RedirectURIs c; cr_createdAt := cs_CreatedAt c;
                      cr_activated := if version =? 1 then true else cs_Activated c |}]> loaded.
Proof.
  unfold load_client. rewrite !check_ok, !reject_if_ok, !bool_decide_eq_false.
  intros (H1 & H2 & H3 & _ & H5 & [= <-]). split_and!; try done.
  - by destruct (cs_RedirectURIs c).
  - clear -H3. induction (cs_RedirectURIs c) as [|u l IH]; [constructor|]. cbn in H3. apply check_ok in H3 as [? ?]. constructor; auto.
  - by apply eq_None_not_Some.
Qed.

Lemma load_clients_from version l loaded m : load_clients version loaded l = Ok m ->
  forall id c, m !! id = Some c -> loaded !! id = Some c \/
    (id <> "" /\ cr_redirectURIs c <> [] /\ Forall (fun u => validateRedirectURI u = Ok tt) (cr_redirectURIs c) /\
     exists r, r ∈ l /\ cs_ID r = id /\ cs_RedirectURIs r = cr_redirectURIs c /\ cs_CreatedAt r = cr_createdAt c /\
       (if version =? 1 then true else cs_Activated r) = cr_activated c).
Proof.
  revert loaded. induction l as [|r l IH]; intros loaded H id c Hc; cbn [load_clients] in H; [injection H as ->; by left|].
  destruct (load_client version loaded r) as [loaded'|] eqn:Er; [|done]. cbn [rbind] in H.
  apply load_client_spec in Er as (H1 & H2 & H3 & H4 & ->).
  destruct (IH _ H id c Hc) as [Hl|(? & ? & ? & r' & ? & ?)]; [|right; split_and!; try done; exists r'; split; [by apply list_elem_of_further|done]].
  destruct (decide (cs_ID r = id)) as [<-|Hne]; [|rewrite lookup_insert_ne in Hl by done; by left].
  rewrite lookup_insert_eq in Hl. injection Hl as <-. right. cbn. split_and!; try done. exists r. split_and!; try done. by left.
Qed.

Lemma load_clients_size version l loaded m : load_clients version loaded l = Ok m -> size m = (size loaded + length l)%nat.
Proof.
  revert loaded. induction l as [|r l IH]; intros loaded H; cbn [load_clients] in H; [injection H as ->; cbn; lia|].
  destruct (load_client version loaded r) as [loaded'|] eqn:Er; [|done]. cbn [rbind] in H.
  apply load_client_spec in Er as (_ & _ & _ & H4 & ->). rewrite (IH _ H), map_size_insert_None by done. cbn. lia.
Qed.

(** ** Access grants *)
Lemma grant_record_ok r : text (as_Digest r) -> text (as_ClientID r) -> text (as_Scope r) -> text (as_Resource r) ->
  encodable (c_to c_access_record r) = true -> val_in text (c_type c_access_record) (c_to c_access_record r).
Proof.
  intros H1 H2 H3 H4 He. destruct r as [digest client scope res t]. cbn in * |-. rewrite andb_true_r in He. apply encodable_time in He.
  cbn [c_type c_to c_access_record access_record_type access_record_to val_in fields_ok req]. by split_and!.
Qed.

Lemma access_file_decodes m : map_Forall access_text m -> encodable (c_to c_access_file (access_file m)) = true ->
  UnmarshalLoose c_access_file (MarshalIndent c_access_file (access_file m)) = Some (access_file m).
Proof.
  intros Hm He. apply unmarshal_indented; [done|vm_compute; reflexivity|]. apply document_ok; [done|].
  apply document_encodable in He. rewrite Forall_forall in He. apply Forall_forall. intros r Hr. pose proof (He r Hr) as Her.
  rewrite merge_sort_Permutation in Hr. apply list_elem_of_fmap in Hr as ([id c] & -> & Hin%elem_of_map_to_list).
  destruct (Hm id c Hin) as (? & ? & ? & ?). by apply grant_record_ok.
Qed.

Definition access_of_record (r : accessStoreRecord) : accessGrant :=
  {| ag_clientID := as_ClientID r; ag_resource := as_Resource r; ag_scope := as_Scope r; ag_expiresAt := as_ExpiresAt r |}.

Lemma load_access_from now l loaded m : load_access now loaded l = Ok m ->
  forall d g, m !! d = Some g -> loaded !! d = Some g \/
    exists r, r ∈ l /\ as_Digest r = d /\ access_of_record r = g /\ After now (as_ExpiresAt r) = false.
Proof.
  revert loaded. induction l as [|r l IH]; intros loaded H d g Hg; cbn [load_access] in H; [injection H as ->; by left|].
  destruct (After now (as_ExpiresAt r)) eqn:Ea.
  - destruct (IH _ H d g Hg) as [?|(r' & ? & ?)]; [by left|right; exists r'; split; [by apply list_elem_of_further|done]].
  - rewrite !check_ok in H. destruct H as (_ & _ & H).
    destruct (IH _ H d g Hg) as [Hl|(r' & ? & ?)]; [|right; exists r'; split; [by apply list_elem_of_further|done]].
    destruct (decide (as_Digest r = d)) as [<-|Hne]; [|rewrite lookup_insert_ne in Hl by done; by left].
    rewrite lookup_insert_eq in Hl. injection Hl as <-. right. exists r. split_and!; try done. by left.
Qed.

Lemma load_access_size now l loaded m : load_access now loaded l = Ok m -> (size m <= size loaded + length l)%nat.
Proof.
  revert loaded. induction l as [|r l IH]; intros loaded H; cbn [load_access] in H; [injection H as ->; cbn; lia|].
  destruct (After now (as_ExpiresAt r)).
  - specialize (IH _ H). cbn. lia.
  - rewrite !check_ok, !reject_if_ok, !bool_decide_eq_false in H. destruct H as (_ & Hn%eq_None_not_Some & H).
    specialize (IH _ H). rewrite map_size_insert_None in IH by done. cbn. lia.
Qed.

(** ** Refresh grants *)
Lemma refresh_record_ok r : text (rs_Token r) -> text (rs_ClientID r) -> text (rs_Scope r) -> text (rs_Resource r) ->
  encodable (c_to c_refresh_record r) = true -> val_in text (c_type c_refresh_record) (c_to c_refresh_record r).
Proof.
  intros H1 H2 H3 H4 He. destruct r as [digest client scope res t]. cbn in * |-. rewrite andb_true_r in He. apply encodable_time in He.
  cbn [c_type c_to c_refresh_record refresh_record_type refresh_record_to val_in fields_ok req]. by split_and!.
Qed.

Lemma refresh_file_decodes m : map_Forall refresh_text m -> encodable (c_to c_refresh_file (refresh_file m)) = true ->
  UnmarshalLoose c_refresh_file (MarshalIndent c_refresh_file (refresh_file m)) = Some (refresh_file m).
Proof.
  intros Hm He. apply unmarshal_indented; [done|vm_compute; reflexivity|]. apply document_ok; [done|].
  apply document_encodable in He. rewrite Forall_forall in He. apply Forall_forall. intros r Hr. pose proof (He r Hr) as Her.
  rewrite merge_sort_Permutation in Hr. apply list_elem_of_fmap in Hr as ([id c] & -> & Hin%elem_of_map_to_list).
  destruct (Hm id c Hin) as (? & ? & ? & ?). by apply refresh_record_ok.
Qed.

Definition refresh_of_record (r : refreshStoreRecord) : refreshGrant :=
  {| rg_clientID := rs_ClientID r; rg_scope := rs_Scope r; rg_resource := rs_Resource r; rg_expiresAt := rs_ExpiresAt r |}.
Definition refresh_live (now : time) (r : refreshStoreRecord) : Prop := rs_Token r <> "" /\ After now (rs_ExpiresAt r) = false.

Lemma load_refresh_case now loaded r :
  (refresh_live now r /\ load_refresh now loaded r = <[rs_Token r := refresh_of_record r]> loaded) \/
  (~ refresh_live now r /\ load_refresh now loaded r = loaded).
Proof.
  unfold load_refresh, refresh_live. destruct (bool_decide_reflect (rs_Token r = "")) as [H|H]; cbn [orb].
  - right. split; [tauto|done].
  - destruct (After now (rs_ExpiresAt r)); [right|left]; (split; [naive_solver|done]).
Qed.

Lemma load_refresh_from now l loaded t g : fold_left (load_refresh now) l loaded !! t = Some g ->
  loaded !! t = Some g \/ exists r, r ∈ l /\ rs_Token r = t /\ refresh_of_record r = g /\ refresh_live now r.
Proof.
  revert loaded. induction l as [|r l IH]; intros loaded H; [by left|]. cbn [fold_left] in H.
  destruct (IH _ H) as [Hl|(r' & ? & ?)]; [|right; exists r'; split; [by apply list_elem_of_further|done]].
  destruct (load_refresh_case now loaded r) as [[Hr E]|[_ E]]; rewrite E in Hl; [|by left].
  destruct (decide (rs_Token r = t)) as [<-|Hne]; [|rewrite lookup_insert_ne in Hl by done; by left].
  rewrite lookup_insert_eq in Hl. injection Hl as <-. right. exists r. split_and!; try done. by left.
Qed.

Lemma load_refresh_keeps now l loaded r : NoDup (rs_Token <$> l) -> r ∈ l -> refresh_live now r ->
  fold_left (load_refresh now) l loaded !! rs_Token r = Some (refresh_of_record r).
Proof.
  intros Hnd Hr Hlive. revert loaded. induction l as [|x l IH]; intros loaded; [by apply elem_of_nil in Hr|].
  rewrite fmap_cons in Hnd. apply NoDup_cons in Hnd as [Hx Hnd]. cbn [fold_left]. apply elem_of_cons in Hr as [<-|Hr]; [|by apply IH].
  destruct (load_refresh_case now loaded r) as [[_ E]|[? _]]; [|done]. rewrite E.
  assert (Hother : forall l m, rs_Token r ∉ rs_Token <$> l -> fold_left (load_refresh now) l m !! rs_Token r = m !! rs_Token r).
  { clear. intros l. induction l as [|y l IHl]; intros m Hn; [done|]. rewrite fmap_cons, not_elem_of_cons in Hn. destruct Hn as [Hn1 Hn2]. cbn [fold_left].
    rewrite IHl by done. destruct (load_refresh_case now m y) as [[_ E]|[_ E]]; rewrite E; [|done]. by rewrite lookup_insert_ne by done. }
  rewrite Hother by done. apply lookup_insert_eq.
Qed.

Lemma refresh_tokens_nodup (m : gmap string refreshGrant) : NoDup (rs_Token <$> merge_sort refresh_not_after (refresh_record <$> map_to_list m)).
Proof.
  rewrite merge_sort_Permutation, <- list_fmap_compose. change (rs_Token ∘ refresh_record) with (fst (A := string) (B := refreshGrant)).
  apply NoDup_fst_map_to_list.
Qed.

Lemma refresh_record_of (m : gmap string refreshGrant) r : r ∈ merge_sort refresh_not_after (refresh_record <$> map_to_list m) <->
  m !! rs_Token r = Some (refresh_of_record r).
Proof.
  rewrite merge_sort_Permutation, list_elem_of_fmap. split.
  - intros ([t g] & -> & Hin%elem_of_map_to_list). cbn. rewrite Hin. by destruct g.
  - intros H%elem_of_map_to_list. exists (rs_Token r, refresh_of_record r). split; [by destruct r|done].
Qed.

(** What a refresh file restores: the grants that have not expired. *)
Lemma refresh_restored now m : map_Forall refresh_text m -> encodable (c_to c_refresh_file (refresh_file m)) = true ->
  refresh_of_text now (MarshalIndent c_refresh_file (refresh_file m)) =
  Some (filter (fun e => e.1 <> "" /\ After now (rg_expiresAt e.2) = false) m).
Proof.
  intros Hm He. unfold refresh_of_text. rewrite refresh_file_decodes by done. cbn -[load_refresh]. f_equal. apply map_eq. intros t.
  apply option_eq. intros g. rewrite map_lookup_filter_Some. cbn [fst snd]. split.
  - intros [Hn|(r & Hr & <- & <- & Hl)]%load_refresh_from; [by rewrite lookup_empty in Hn|]. by apply refresh_record_of in Hr.
  - intros [Hin Hl]. set (r := refresh_record (t, g)).
    assert (E : refresh_of_record r = g) by (by destruct g). rewrite <- E. change t with (rs_Token r). apply load_refresh_keeps.
    + apply refresh_tokens_nodup.
    + apply refresh_record_of. by rewrite E.
    + exact Hl.
Qed.
