(* ===== verification/OAuthInv.v ===== *)
(** * OAuth: invariants of the store's entries

    A predicate on each kind of entry (clients, codes, access grants, refresh grants)
    that the callers' arguments satisfy is kept by every method: it holds of the
    entries in memory and of those a file would load, and of whatever a method
    returns ([exec_inv]).  The limits on clients and access grants are part of the
    invariant. *)

From S2P Require Import Prelude Effects GoStrings GoRegexp GoJson GoTime GoReflect GoRecord Sha256 GoPath GoUrl OAuthTypes OAuthStore OAuthProvider OAuthFacts.

(** A token of the random source. *)
Definition drawn_token {E : Environment} (s : string) : Prop := exists n, s = drawn n.

Lemma drawn_is_token {E : Environment} n : drawn_token (drawn n).
Proof. by exists n. Qed.

(** The three paths the processes of a deployment share. *)
Record Paths := { p_client : string; p_access : string; p_refresh : string }.
Definition paths_distinct (P : Paths) : Prop :=
  (p_client P <> "" -> p_client P <> p_access P /\ p_client P <> p_refresh P) /\ (p_access P <> "" -> p_access P <> p_refresh P).

Section Entries.
Context {E : Environment} (P : Paths) (distinct : paths_distinct P).
Context (PC : string -> clientReg -> Prop) (PK : string -> authCode -> Prop)
        (PA : string -> accessGrant -> Prop) (PR : string -> refreshGrant -> Prop).
Context (PC_text : forall id c, PC id c -> client_text id c) (PA_text : forall d g, PA d g -> access_text d g)
        (PR_text : forall t g, PR t g -> refresh_text t g).
Context (PC_activated : forall id c, PC id c -> PC id (activated_client c)).

(** What the files hold. *)
Record files_ok (d : gmap string string) : Prop := {
  fo_clients : forall body m, p_client P <> "" -> d !! p_client P = Some body -> clients_of_text body = Some m -> map_Forall PC m;
  fo_access : forall body now m, p_access P <> "" -> d !! p_access P = Some body -> access_of_text now body = Some m -> map_Forall PA m;
  fo_refresh : forall body now m, p_refresh P <> "" -> d !! p_refresh P = Some body -> refresh_of_text now body = Some m -> map_Forall PR m }.

(** What the memory holds. *)
Record entries_ok (s : tokenStore) : Prop := {
  eo_clients : map_Forall PC (clients s);
  eo_codes : map_Forall PK (codes s);
  eo_access : map_Forall PA (access s);
  eo_refresh : map_Forall PR (refresh s);
  eo_nclients : (size (clients s) <= maxClients)%nat;
  eo_naccess : (size (access s) <= maxAccessGrants)%nat }.

Definition paths_of (s : tokenStore) : Prop :=
  clientStorePath s = p_client P /\ accessStorePath s = p_access P /\ refreshStorePath s = p_refresh P.

Definition Inv (w : World) : Prop := paths_of (store w) /\ entries_ok (store w) /\ files_ok (disk w).

Lemma entries_new : entries_ok newTokenStore.
Proof. split; cbn; [apply map_Forall_empty..| |]; rewrite map_size_empty; apply Nat.le_0_l. Qed.

Lemma files_empty : files_ok ∅.
Proof. split; intros *; by rewrite lookup_empty. Qed.

(** *** Loaded entries *)
Lemma clients_loaded body m : clients_of_text body = Some m -> (size m <= maxClients)%nat.
Proof.
  intros (doc & _ & H)%bind_Some. destruct (_ && _); [done|]. destruct (maxClients <? _)%nat eqn:El; [done|].
  destruct (load_clients _ _ _) as [m'|] eqn:Em; [|done]. injection H as ->. apply load_clients_size in Em.
  rewrite map_size_empty in Em. apply Nat.ltb_ge in El. lia.
Qed.
Lemma access_loaded now body m : access_of_text now body = Some m -> (size m <= maxAccessGrants)%nat.
Proof.
  unfold access_of_text. destruct (_ <? _); [done|]. intros (doc & _ & H)%bind_Some. destruct (_ <>? _); [done|].
  destruct (maxAccessGrants <? _)%nat eqn:El; [done|].
  destruct (load_access _ _ _) as [m'|] eqn:Em; [|done]. injection H as ->. apply load_access_size in Em.
  rewrite map_size_empty in Em. apply Nat.ltb_ge in El. lia.
Qed.

(** *** Persisted entries *)
Lemma persisted_clients m m' : map_Forall PC m -> encodable (c_to c_client_file (client_file m)) = true ->
  clients_of_text (MarshalIndent c_client_file (client_file m)) = Some m' -> map_Forall PC m'.
Proof.
  intros Hm He. unfold clients_of_text.
  rewrite client_file_decodes; [|by intros id c Hc; apply PC_text, Hm|done]. cbn -[load_clients Nat.ltb length].
  destruct (maxClients <? _)%nat; [done|]. destruct (load_clients _ _ _) as [l|] eqn:El; [|done]. intros [= <-] id c Hc.
  destruct (load_clients_from _ _ _ _ El id c Hc) as [H|(_ & _ & _ & r & Hr & Hid & Hu & Hd & Ha)]; [by rewrite lookup_empty in H|].
  rewrite merge_sort_Permutation in Hr. apply list_elem_of_fmap in Hr as ([id' c'] & -> & Hin%elem_of_map_to_list). cbn in *. subst id'.
  rewrite bool_decide_false in Ha by done. replace c with c' by (destruct c, c'; cbn in *; congruence). by apply Hm.
Qed.
Lemma persisted_access m now m' : map_Forall PA m -> encodable (c_to c_access_file (access_file m)) = true ->
  access_of_text now (MarshalIndent c_access_file (access_file m)) = Some m' -> map_Forall PA m'.
Proof.
  intros Hm He. unfold access_of_text. destruct (_ <? _); [done|].
  rewrite access_file_decodes; [|by intros id c Hc; apply PA_text, Hm|done]. cbn -[load_access Nat.ltb length].
  destruct (maxAccessGrants <? _)%nat; [done|]. destruct (load_access _ _ _) as [l|] eqn:El; [|done]. intros [= <-] d g Hg.
  destruct (load_access_from _ _ _ _ El d g Hg) as [H|(r & Hr & Hd & Eg & _)]; [by rewrite lookup_empty in H|].
  rewrite merge_sort_Permutation in Hr. apply list_elem_of_fmap in Hr as ([d' g'] & -> & Hin%elem_of_map_to_list). cbn in *. subst d'.
  replace g with g' by (destruct g'; by rewrite <- Eg). by apply Hm.
Qed.
Lemma persisted_refresh m now m' : map_Forall PR m -> encodable (c_to c_refresh_file (refresh_file m)) = true ->
  refresh_of_text now (MarshalIndent c_refresh_file (refresh_file m)) = Some m' -> map_Forall PR m'.
Proof.
  intros Hm He. rewrite refresh_restored; [|by intros id c Hc; apply PR_text, Hm|done]. intros [= <-].
  intros t g [Hg _]%map_lookup_filter_Some. by apply Hm.
Qed.

Lemma files_client body d : files_ok d -> p_client P <> "" -> (forall m, clients_of_text body = Some m -> map_Forall PC m) ->
  files_ok (<[p_client P := body]> d).
Proof.
  intros Hd Hp Hb. destruct distinct as [D1 _]. destruct (D1 Hp) as [D2 D3]. split; intros *.
  - rewrite lookup_insert_eq. intros _ [= <-]. auto.
  - rewrite lookup_insert_ne by done. apply Hd.
  - rewrite lookup_insert_ne by done. apply Hd.
Qed.
Lemma files_access body d : files_ok d -> p_access P <> "" -> (forall now m, access_of_text now body = Some m -> map_Forall PA m) ->
  files_ok (<[p_access P := body]> d).
Proof.
  intros Hd Hp Hb. destruct distinct as [D1 D2]. split; intros *.
  - intros Hc. rewrite lookup_insert_ne by (symmetry; by apply D1). by apply Hd.
  - rewrite lookup_insert_eq. intros _ [= <-]. apply Hb.
  - rewrite lookup_insert_ne by (by apply D2). apply Hd.
Qed.
Lemma files_refresh body d : files_ok d -> p_refresh P <> "" -> (forall now m, refresh_of_text now body = Some m -> map_Forall PR m) ->
  files_ok (<[p_refresh P := body]> d).
Proof.
  intros Hd Hp Hb. destruct distinct as [D1 D2]. split; intros *.
  - intros Hc. rewrite lookup_insert_ne by (symmetry; by apply D1). by apply Hd.
  - intros Ha. rewrite lookup_insert_ne by (symmetry; by apply D2). by apply Hd.
  - rewrite lookup_insert_eq. intros _ [= <-]. apply Hb.
Qed.

(** *** The helpers keep the invariant *)
Implicit Types (w : World) (Q : unit -> World -> Prop) (X : error -> World -> Prop).

Lemma inv_persistClients Q X w : Inv w ->
  (forall w', Inv w' -> store w' = store w -> Q tt w') -> (forall e, X e w) -> wp persistClientsLocked Q X w.
Proof.
  intros (Hp & He & Hf) HQ HX. apply wp_persistClients; [intros; by apply HQ| |intros; by apply HX].
  intros Hne Henc. apply HQ; [|done]. split_and!; [done|done|]. cbn. destruct Hp as (Ep & _). rewrite Ep in *. apply files_client; [done|done|].
  intros m. apply persisted_clients; [apply He|done].
Qed.

(** [on_error persistClientsLocked undo] *)
Lemma inv_persistRefresh Q X w : Inv w ->
  (forall w', Inv w' -> store w' = store w -> Q tt w') -> (forall e, X e w) -> wp persistRefreshLocked Q X w.
Proof.
  intros (Hp & He & Hf) HQ HX. apply wp_persistRefresh; [intros; by apply HQ| |intros; by apply HX].
  intros Hne Henc. apply HQ; [|done]. split_and!; [done|done|]. cbn. destruct Hp as (_ & _ & Ep). rewrite Ep in *. apply files_refresh; [done|done|].
  intros now m. apply persisted_refresh; [apply He|done].
Qed.

Lemma inv_pruneAccess now w : Inv w -> Inv (with_store (with_access (pruned_access now (access (store w))) (store w)) w).
Proof.
  intros (Hp & He & Hf). split_and!; [done| |done]. destruct He as [? ? HA ? ? Hn]. split; try done.
  - intros d g [Hg _]%map_lookup_filter_Some. by apply HA.
  - etrans; [|exact Hn]. apply map_subseteq_size, map_filter_subseteq.
Qed.

Lemma inv_persistAccess Q X w : Inv w ->
  (forall w', Inv w' -> Q tt w') -> (forall e w', Inv w' -> X e w') -> wp persistAccessLocked Q X w.
Proof.
  intros Hw HQ HX. pose proof (inv_pruneAccess (clock (ticks w)) w Hw) as Hw'. apply wp_persistAccess; [intros; by apply HQ| |intros; by apply HX].
  intros Hne Henc. apply HQ. destruct Hw' as (Hp & He & Hf). split_and!; [done|done|]. cbn in Hp |- *. destruct Hp as (_ & Ep & _). cbn in Ep. rewrite Ep in *.
  apply files_access; [done|done|]. intros now m. apply persisted_access; [apply He|done].
Qed.

Lemma inv_reloadRefresh Q X w : Inv w ->
  (forall w', Inv w' -> access (store w') = access (store w) -> codes (store w') = codes (store w) -> Q tt w') -> (forall e, X e w) -> wp reloadRefresh Q X w.
Proof.
  intros (Hp & He & Hf) HQ HX. apply wp_reloadRefresh; [intros; by apply HQ| |intros; by apply HX].
  intros Hne body m Hb Hm. apply HQ; [|done|done]. destruct Hp as (? & ? & Ep). rewrite Ep in *. split_and!; [done| |done]. destruct He. split; try done.
  cbn. by eapply fo_refresh.
Qed.

Lemma inv_loadAccess Q X w : Inv w -> p_access P <> "" -> (forall w', Inv w' -> Q tt w') -> (forall e w', Inv w' -> X e w') -> wp loadAccessLocked Q X w.
Proof.
  intros (Hp & He & Hf) Hne HQ HX. apply wp_loadAccess; [intros; by apply HQ| |intros; split; by apply HX].
  intros body m Hb Hm. apply HQ. destruct Hp as (? & Ep & ?). rewrite Ep in *. split_and!; [done| |done]. destruct He. split; try done; cbn.
  - by eapply fo_access.
  - by eapply access_loaded.
Qed.

Lemma inv_reloadAccess Q X w : Inv w -> (forall w', Inv w' -> Q tt w') -> (forall e w', Inv w' -> X e w') -> wp reloadAccess Q X w.
Proof.
  intros Hw HQ HX. unfold reloadAccess. do 2 wp_step. case_bool_decide as Hp; [apply wp_ret; auto|].
  apply inv_loadAccess; try done. destruct Hw as ((_ & <- & _) & _). done.
Qed.

Lemma Inv_same w w' : Inv w -> disk w' = disk w -> store w' = store w -> Inv w'.
Proof. unfold Inv. by intros H -> ->. Qed.
(** *** Updates *)
Lemma Inv_store s w : Inv w -> paths_of s -> entries_ok s -> Inv (with_store s w).
Proof. intros (_ & _ & Hf) Hp He. by split_and!. Qed.

Lemma Inv_with_clients m w : Inv w -> map_Forall PC m -> (size m <= maxClients)%nat -> Inv (with_store (with_clients m (store w)) w).
Proof. intros Hw Hm Hn. apply Inv_store; [done|apply Hw|]. destruct Hw as (_ & [] & _). by split. Qed.
Lemma Inv_with_codes m w : Inv w -> map_Forall PK m -> Inv (with_store (with_codes m (store w)) w).
Proof. intros Hw Hm. apply Inv_store; [done|apply Hw|]. destruct Hw as (_ & [] & _). by split. Qed.
Lemma Inv_with_access m w : Inv w -> map_Forall PA m -> (size m <= maxAccessGrants)%nat -> Inv (with_store (with_access m (store w)) w).
Proof. intros Hw Hm Hn. apply Inv_store; [done|apply Hw|]. destruct Hw as (_ & [] & _). by split. Qed.
Lemma Inv_with_refresh m w : Inv w -> map_Forall PR m -> Inv (with_store (with_refresh m (store w)) w).
Proof. intros Hw Hm. apply Inv_store; [done|apply Hw|]. destruct Hw as (_ & [] & _). by split. Qed.
Lemma Inv_with_times f r w : Inv w -> Inv (with_store (with_failTimes f (with_regTimes r (store w))) w).
Proof. intros Hw. apply Inv_store; [done|apply Hw|]. destruct Hw as (_ & [] & _). by split. Qed.
Lemma Inv_with_failTimes f w : Inv w -> Inv (with_store (with_failTimes f (store w)) w).
Proof. intros Hw. apply Inv_store; [done|apply Hw|]. destruct Hw as (_ & [] & _). by split. Qed.
Lemma Inv_with_regTimes r w : Inv w -> Inv (with_store (with_regTimes r (store w)) w).
Proof. intros Hw. apply Inv_store; [done|apply Hw|]. destruct Hw as (_ & [] & _). by split. Qed.
Lemma Inv_tick w : Inv w -> Inv (tick w).
Proof. intros Hw. by eapply Inv_same. Qed.
Lemma Inv_draw w : Inv w -> Inv (draw w).
Proof. intros Hw. by eapply Inv_same. Qed.

Lemma drop_client id w : Inv w -> Inv (with_store (with_clients (delete id (clients (store w))) (store w)) w).
Proof.
  intros Hw. pose proof Hw as (_ & [HC _ _ _ Hn _] & _). apply Inv_with_clients; [done|by apply map_Forall_delete|].
  etrans; [|exact Hn]. apply map_subseteq_size, delete_subseteq.
Qed.
Lemma replace_client id c c' w : Inv w -> clients (store w) !! id = Some c' -> PC id c ->
  Inv (with_store (with_clients (<[id := c]> (clients (store w))) (store w)) w).
Proof.
  intros Hw Hc Hp. pose proof Hw as (_ & [HC _ _ _ Hn _] & _). apply Inv_with_clients; [done|by apply map_Forall_insert_2|].
  rewrite map_size_insert_Some by done. exact Hn.
Qed.
Lemma drop_grant d w : Inv w -> Inv (with_store (with_access (delete d (access (store w))) (store w)) w).
Proof.
  intros Hw. pose proof Hw as (_ & [_ _ HA _ _ Hn] & _). apply Inv_with_access; [done|by apply map_Forall_delete|].
  etrans; [|exact Hn]. apply map_subseteq_size, delete_subseteq.
Qed.
Lemma drop_token t w : Inv w -> Inv (with_store (with_refresh (delete t (refresh (store w))) (store w)) w).
Proof. intros Hw. pose proof Hw as (_ & [_ _ _ HR _ _] & _). apply Inv_with_refresh; [done|by apply map_Forall_delete]. Qed.
Lemma set_token t g w : Inv w -> PR t g -> Inv (with_store (with_refresh (<[t := g]> (refresh (store w))) (store w)) w).
Proof. intros Hw Hg. pose proof Hw as (_ & [_ _ _ HR _ _] & _). apply Inv_with_refresh; [done|by apply map_Forall_insert_2]. Qed.

Lemma drop_stale_ok now w : Inv w -> Inv (with_store (drop_stale now (store w)) w).
Proof.
  intros Hw. unfold drop_stale. pose proof Hw as (_ & [HC ? ? ? Hn ?] & _). apply Inv_store; [done|apply Hw|]. split; try done; cbn.
  - intros id c [Hc _]%map_lookup_filter_Some. by apply HC.
  - etrans; [|exact Hn]. apply map_subseteq_size, map_filter_subseteq.
Qed.

#[local] Create HintDb oauth.
#[local] Hint Resolve Inv_tick Inv_draw Inv_with_failTimes Inv_with_regTimes drop_client drop_grant drop_token drop_stale_ok : oauth.

(** *** Clients and codes *)
(** A registration inserted and then persisted. *)
Lemma add_client id c w : Inv w -> (size (clients (store w)) < maxClients)%nat -> PC id c ->
  Inv (with_store (with_clients (<[id := c]> (clients (store w))) (store w)) w).
Proof.
  intros Hw Hn Hc. pose proof Hw as (_ & [HC _ _ _ _ _] & _). apply Inv_with_clients; [done|by apply map_Forall_insert_2|].
  rewrite map_size_insert. destruct (clients (store w) !! id); [by apply Nat.lt_le_incl|exact Hn].
Qed.

Lemma inv_registerClient uris w : Inv w ->
  (forall id now, drawn_token id -> PC id {| cr_redirectURIs := uris; cr_createdAt := now; cr_activated := false |}) ->
  wp (registerClient uris) (fun id w' => Inv w' /\ drawn_token id) (fun _ w' => Inv w') w.
Proof.
  intros Hw Hu. unfold registerClient. do 2 wp_step. do 2 wp_step. do 2 wp_step. do 2 wp_step.
  assert (Hw1 : Inv (with_store (with_regTimes (recent registrationWindow (clock (ticks w)) (regTimes (drop_stale (clock (ticks w)) (store w))))
    (drop_stale (clock (ticks w)) (store w))) (tick w))).
  { apply (Inv_with_regTimes _ (with_store (drop_stale (clock (ticks w)) (store w)) (tick w))), (drop_stale_ok _ (tick w)). auto with oauth. }
  do 2 wp_step; [|exact Hw1]. apply orb_false_iff in H as [Hn%Nat.leb_gt _]. do 2 wp_step. do 2 wp_step.
  assert (Hw2 := add_client _ _ _ (Inv_draw _ Hw1) Hn (Hu _ (clock (ticks w)) (drawn_is_token (draws w)))).
  wp_step. wp_step. apply inv_persistClients; [exact Hw2| |].
  - intros w' Hw' _. do 2 wp_step. apply wp_ret. split; [by apply Inv_with_regTimes|apply drawn_is_token].
  - intros e. wp_step. by apply (drop_client _ (with_store _ _)).
Qed.

Lemma inv_getClient id w : Inv w ->
  wp (getClient id) (fun c w' => Inv w' /\ forall r, c = Some r -> PC id r) (fun _ _ => False) w.
Proof.
  intros Hw. unfold getClient. wp_step; [by apply wp_ret|]. do 2 wp_step.
  destruct (clients (store w) !! id) as [c|] eqn:Ec; [|by apply wp_ret].
  assert (Hc : PC id c) by (by apply (eo_clients _ (proj1 (proj2 Hw)))).
  wp_step; [apply wp_ret; split; [done|by intros r [= <-]]|]. do 2 wp_step.
  wp_step; [|apply wp_ret; split; [by apply Inv_tick|by intros r [= <-]]]. do 2 wp_step. wp_step. wp_step.
  assert (Hw1 : Inv (with_store (with_failTimes (delete id (failTimes (store w))) (with_clients (delete id (clients (store w))) (store w))) (tick w))).
  { apply (Inv_with_failTimes _ (with_store (with_clients (delete id (clients (store w))) (store w)) (tick w))), (drop_client _ (tick w)). auto with oauth. }
  apply inv_persistClients; [exact Hw1| |]; intros; apply wp_ret; done.
Qed.

Lemma inv_ensureFixedClient id uri w : Inv w ->
  (forall now, PC id {| cr_redirectURIs := [uri]; cr_createdAt := now; cr_activated := false |}) ->
  wp (ensureFixedClient id uri) (fun _ w' => Inv w') (fun _ w' => Inv w') w.
Proof.
  intros Hw Hu. unfold ensureFixedClient. do 2 wp_step; [|done]. do 2 wp_step.
  destruct (clients (store w) !! id) as [c|] eqn:Ec; [by wp_step|].
  do 2 wp_step; [|done]. apply Nat.leb_gt in H0. do 2 wp_step. do 2 wp_step. wp_step.
  assert (Hw2 := add_client id _ _ (Inv_tick _ Hw) H0 (Hu (clock (ticks w)))).
  apply inv_persistClients; [exact Hw2|done|]. intros e. wp_step. by apply (drop_client _ (with_store _ _)).
Qed.

Lemma inv_putCode code c w : Inv w -> PK code c -> wp (putCode code c) (fun _ w' => Inv w') (fun _ w' => Inv w') w.
Proof.
  intros Hw Hc. unfold putCode. do 2 wp_step. wp_step.
  assert (Hset : forall w', Inv w' -> wp (modify (fun s => with_codes (<[code := c]> (codes s)) s)) (fun _ w' => Inv w') (fun _ w' => Inv w') w').
  { intros w' Hw'. wp_step. pose proof Hw' as (_ & [_ HK _ _ _ _] & _). apply Inv_with_codes; [done|by apply map_Forall_insert_2]. }
  destruct (clients (store w) !! ac_clientID c) as [cl|] eqn:Ec; [|by apply wp_ret, Hset].
  wp_step; [by apply wp_ret, Hset|].
  assert (Hcl : PC (ac_clientID c) cl) by (by apply (eo_clients _ (proj1 (proj2 Hw)))).
  do 2 wp_step. wp_step.
  assert (Hw1 := replace_client _ _ _ w Hw Ec (PC_activated _ _ Hcl)).
  apply inv_persistClients; [exact Hw1|intros; by apply Hset|]. intros e. wp_step. eapply (replace_client _ _ _ (with_store _ w)); [done| |done].
  cbn. apply lookup_insert_eq.
Qed.

Lemma inv_consumeCode code w : Inv w ->
  wp (consumeCode code) (fun c w' => Inv w' /\ forall k, c = Some k -> PK code k) (fun _ _ => False) w.
Proof.
  intros Hw. unfold consumeCode. wp_step; [by apply wp_ret|]. do 2 wp_step.
  destruct (codes (store w) !! code) as [c|] eqn:Ec; [|by apply wp_ret].
  assert (HK := eo_codes _ (proj1 (proj2 Hw))). assert (Hc : PK code c) by (by apply HK).
  do 2 wp_step. do 2 wp_step.
  assert (Hw1 : Inv (tick (with_store (with_codes (delete code (codes (store w))) (store w)) w))).
  { apply Inv_tick, Inv_with_codes; [done|by apply map_Forall_delete]. }
  wp_step; apply wp_ret; (split; [done|]); [done|by intros k [= <-]].
Qed.

(** *** The throttle *)
Lemma inv_pruneFailures id Q X w : Inv w -> (forall w', Inv w' -> Q tt w') -> wp (pruneFailuresLocked id) Q X w.
Proof. intros Hw HQ. unfold pruneFailuresLocked. do 2 wp_step. wp_step. apply HQ. apply (Inv_with_failTimes _ (tick w)). auto with oauth. Qed.
Lemma inv_addFailure id Q X w : Inv w -> (forall w', Inv w' -> Q tt w') -> wp (add_failure id) Q X w.
Proof. intros Hw HQ. unfold add_failure. do 2 wp_step. wp_step. apply HQ. apply (Inv_with_failTimes _ (tick w)). auto with oauth. Qed.

Lemma inv_throttled id w : Inv w -> wp (passphraseThrottled id) (fun _ w' => Inv w') (fun _ _ => False) w.
Proof.
  intros Hw. unfold passphraseThrottled. apply wp_bind, inv_pruneFailures; [done|]. intros w1 Hw1. apply wp_bind, inv_pruneFailures; [done|].
  intros w2 Hw2. do 2 wp_step. by apply wp_ret.
Qed.
Lemma inv_recordFailure id w : Inv w -> wp (recordPassphraseFailure id) (fun _ w' => Inv w') (fun _ _ => False) w.
Proof.
  intros Hw. unfold recordPassphraseFailure. apply wp_bind, inv_pruneFailures; [done|]. intros w1 Hw1. apply wp_bind, inv_pruneFailures; [done|].
  intros w2 Hw2. apply wp_bind, inv_addFailure; [done|]. intros w3 Hw3. by apply inv_addFailure.
Qed.

(** *** Refresh grants *)
Lemma inv_putRefresh t g w : Inv w -> PR t g -> wp (putRefresh t g) (fun _ w' => Inv w') (fun _ w' => Inv w') w.
Proof.
  intros Hw Hg. unfold putRefresh. do 2 wp_step. wp_step; [|done]. wp_step. apply inv_reloadRefresh; [done| |done]. intros w1 Hw1 _ _.
  do 2 wp_step. wp_step. assert (Hw2 := set_token t g w1 Hw1 Hg). apply inv_persistRefresh; [exact Hw2|done|].
  intros e. wp_step. by apply (drop_token _ (with_store _ _)).
Qed.

Lemma inv_consumeRefresh t w : Inv w ->
  wp (consumeRefresh t) (fun o w' => Inv w' /\ forall g, o = Some g -> PR t g) (fun _ w' => Inv w') w.
Proof.
  intros Hw. unfold consumeRefresh. wp_step; [by apply wp_ret|]. do 2 wp_step. wp_step; [|done]. wp_step.
  apply inv_reloadRefresh; [done| |done]. intros w1 Hw1 _ _. do 2 wp_step.
  destruct (refresh (store w1) !! t) as [g|] eqn:Eg; [|by apply wp_ret].
  assert (Hg : PR t g) by (by apply (eo_refresh _ (proj1 (proj2 Hw1)))).
  do 2 wp_step. wp_step. wp_step. apply inv_persistRefresh; [by apply drop_token| |].
  - intros w2 Hw2 _. do 2 wp_step. wp_step; apply wp_ret; (split; [by apply Inv_tick|]); [done|by intros ? [= <-]].
  - intros e. wp_step. apply (set_token _ _ (with_store _ w1)); [by apply drop_token|done].
Qed.

Lemma inv_revokeRefresh t w : Inv w -> wp (revokeRefresh t) (fun _ w' => Inv w') (fun _ _ => False) w.
Proof.
  intros Hw. unfold revokeRefresh. wp_step; [by apply wp_ret|]. do 2 wp_step. do 2 wp_step.
  assert (Hw1 := drop_token t w Hw). apply inv_persistRefresh; [exact Hw1| |]; intros; by apply wp_ret.
Qed.

(** *** Access grants *)
Lemma inv_putAccess t g w : Inv w -> PA (accessTokenDigest t) g -> wp (putAccess t g) (fun _ w' => Inv w') (fun _ w' => Inv w') w.
Proof.
  intros Hw Hg. unfold putAccess. do 2 wp_step; [|done]. do 2 wp_step. wp_step; [|done]. wp_step. apply inv_reloadAccess; [done| |done].
  intros w1 Hw1. do 2 wp_step. do 2 wp_step. assert (Hw2 := inv_pruneAccess (clock (ticks w1)) (tick w1) (Inv_tick _ Hw1)). do 2 wp_step.
  do 2 wp_step; [|exact Hw2]. do 2 wp_step. wp_step.
  assert (Hw3 : Inv (with_store (with_access (<[accessTokenDigest t := g]> (pruned_access (clock (ticks w1)) (access (store w1)))) (store w1)) (tick w1))).
  { pose proof Hw2 as (_ & [_ _ HA _ _ Hn] & _). apply (Inv_with_access _ (tick w1)); [by apply Inv_tick|by apply map_Forall_insert_2|].
    rewrite map_size_insert. apply andb_false_iff in H0. cbn -[pruned_access] in H0, Hn. unfold pruned_access in *.
    destruct (filter _ _ !! accessTokenDigest t) eqn:Ed; [done|]. destruct H0 as [Hs|Hs%Nat.leb_gt]; [|lia].
    apply negb_false_iff, bool_decide_eq_true in Hs. destruct Hs as [g' Hs]. by pose proof (eq_trans (eq_sym Hs) Ed). }
  apply inv_persistAccess; [exact Hw3|done|]. intros e w' Hw'. wp_step. by apply drop_grant.
Qed.

Lemma inv_getAccess t w : Inv w ->
  wp (getAccess t) (fun o w' => Inv w' /\ forall g, o = Some g -> PA (accessTokenDigest t) g) (fun _ _ => False) w.
Proof.
  intros Hw. unfold getAccess. wp_step; [by apply wp_ret|]. do 2 wp_step. wp_step. wp_step. wp_step; [|by apply wp_ret]. wp_step.
  assert (Hread : forall w1, Inv w1 -> wp (
    let! s := self in
    match access s !! accessTokenDigest t with
    | None => mret None
    | Some grant =>
        let! now := Now in
        if After now (ag_expiresAt grant) then
          do! drop_access (accessTokenDigest t) in do! mtry persistAccessLocked in mret None
        else mret (Some grant)
    end)
    (fun o => wp (mret match Ok o with Ok grant => grant | Err _ => None end)
      (fun o w' => Inv w' /\ forall g, o = Some g -> PA (accessTokenDigest t) g) (fun _ _ => False)) 
    (fun e => wp (mret match Err e with Ok grant => grant | Err _ => None end)
      (fun o w' => Inv w' /\ forall g, o = Some g -> PA (accessTokenDigest t) g) (fun _ _ => False)) w1).
  { intros w1 Hw1. do 2 wp_step. destruct (access (store w1) !! _) as [g|] eqn:Eg; [|by do 2 apply wp_ret].
    assert (Hg : PA (accessTokenDigest t) g) by (by apply (eo_access _ (proj1 (proj2 Hw1)))).
    do 2 wp_step. wp_step; [|do 2 apply wp_ret; split; [by apply Inv_tick|by intros ? [= <-]]].
    do 2 wp_step. do 2 wp_step. assert (Hw2 := drop_grant (accessTokenDigest t) (tick w1) (Inv_tick _ Hw1)).
    apply inv_persistAccess; [exact Hw2| |]; intros; by do 2 apply wp_ret. }
  wp_step; [|by apply wp_ret, Hread]. apply andb_true_iff in Heqb0 as [Hp%negb_true_iff%bool_decide_eq_false _].
  apply inv_loadAccess; [done| |done|].
  - destruct Hw as ((_ & <- & _) & _). done.
  - intros e w1 Hw1. by apply wp_ret.
Qed.

Lemma inv_revokeAccess t w : Inv w -> wp (revokeAccess t) (fun _ w' => Inv w') (fun _ _ => False) w.
Proof.
  intros Hw. unfold revokeAccess. wp_step; [by apply wp_ret|]. do 2 wp_step. wp_step. wp_step. wp_step; [|by apply wp_ret]. wp_step.
  apply inv_reloadAccess; [done| |intros; by apply wp_ret]. intros w1 Hw1. do 2 wp_step.
  apply inv_persistAccess; [by apply drop_grant| |]; intros; by apply wp_ret.
Qed.

(** *** Rotation *)
Definition rotation_ok (old new acc : string) (now : time) : Prop :=
  forall g, PR old g -> PA (accessTokenDigest acc) (rotated_access g now) /\ PR new (rotated_refresh g now).

Lemma inv_restore s w : Inv w -> entries_ok s -> Inv (with_store (with_refresh (refresh s) (with_access (access s) (store w))) w).
Proof. intros Hw [? ? ? ? ? ?]. apply Inv_store; [done|apply Hw|]. destruct Hw as (_ & [] & _). by split. Qed.

Lemma inv_rotateLocked old new acc now w : Inv w -> rotation_ok old new acc now ->
  wp (rotateLocked old new acc now) (fun o w' => Inv w' /\ forall g, o = Some g -> PR old g) (fun _ w' => Inv w') w.
Proof.
  intros Hw Hrot. unfold rotateLocked. wp_step. apply inv_reloadAccess; [done| |done]. intros w1 Hw1. wp_step.
  apply inv_reloadRefresh; [done| |done]. intros w2 Hw2 _ _. do 2 wp_step.
  destruct (refresh (store w2) !! old) as [g|] eqn:Eg; [|by apply wp_ret].
  assert (Hg : PR old g) by (by apply (eo_refresh _ (proj1 (proj2 Hw2)))). destruct (Hrot g Hg) as [HA HR].
  wp_step.
  - do 2 wp_step. wp_step. wp_step. apply inv_persistRefresh; [by apply drop_token| |].
    + intros w3 Hw3 _. by apply wp_ret.
    + intros e. wp_step. apply (set_token _ _ (with_store _ w2)); [by apply drop_token|done].
  - do 2 wp_step; [|done]. do 2 wp_step. assert (Hw3 := inv_pruneAccess now w2 Hw2). do 2 wp_step.
    do 2 wp_step; [|exact Hw3]. do 2 wp_step; [|exact Hw3]. apply Nat.leb_gt in H1. do 2 wp_step. do 2 wp_step. do 2 wp_step. wp_step.
    pose proof (proj1 (proj2 Hw3)) as He3. unfold persistRotation. wp_step. wp_step.
    match goal with |- wp _ _ _ ?w => assert (Hw4 : Inv w) end.
    { destruct Hw3 as (Hp3 & _ & Hf3). destruct He3 as [HC3 HK3 HA3 HR3 Hc3 Hn3]. split_and!; [exact Hp3| |exact Hf3].
      split; [exact HC3|exact HK3|by apply map_Forall_insert_2|by apply map_Forall_insert_2; [|apply map_Forall_delete]|exact Hc3|].
      cbn. rewrite map_size_insert. destruct (filter _ _ !! _); [exact Hn3|exact H1]. }
    apply inv_persistAccess; [exact Hw4| |].
    + intros w5 Hw5. wp_step. apply inv_persistRefresh; [done| |].
      * intros w6 Hw6 _. apply wp_ret. split; [done|]. by intros ? [= <-].
      * intros e. do 2 wp_step. apply inv_persistAccess; [by apply inv_restore|done|done].
    + intros e w5 Hw5. wp_step. by apply inv_restore.
Qed.

Lemma inv_rotateRefresh old new acc now w : Inv w -> rotation_ok old new acc now ->
  wp (rotateRefresh old new acc now) (fun o w' => Inv w' /\ forall g, o = Some g -> PR old g) (fun _ w' => Inv w') w.
Proof.
  intros Hw Hrot. unfold rotateRefresh. wp_step; [by apply wp_ret|]. do 2 wp_step. wp_step; [|done]. wp_step; [|done]. by apply inv_rotateLocked.
Qed.

(** *** Every call *)
Definition call_ok {A} (c : call A) : Prop :=
  match c with
  | CRegister uris => forall id now, drawn_token id -> PC id {| cr_redirectURIs := uris; cr_createdAt := now; cr_activated := false |}
  | CEnsureFixed id uri => forall now, PC id {| cr_redirectURIs := [uri]; cr_createdAt := now; cr_activated := false |}
  | CPutCode code c => PK code c
  | CPutAccess t g => PA (accessTokenDigest t) g
  | CPutRefresh t g => PR t g
  | CRotateRefresh old new acc now => rotation_ok old new acc now
  | _ => True
  end.
Definition answer_ok {A} (c : call A) : A -> Prop :=
  match c with
  | CRand => drawn_token
  | CRegister _ => fun r => forall id, r = Ok id -> drawn_token id
  | CGetClient id => fun o => forall r, o = Some r -> PC id r
  | CConsumeCode code => fun o => forall k, o = Some k -> PK code k
  | CGetAccess t => fun o => forall g, o = Some g -> PA (accessTokenDigest t) g
  | CConsumeRefresh t => fun r => forall g, r = Ok (Some g) -> PR t g
  | CRotateRefresh old _ _ _ => fun r => forall g, r = Ok (Some g) -> PR old g
  | _ => fun _ => True
  end.

Lemma exec_inv {A} (c : call A) w : call_ok c -> Inv w -> wp (exec c) (fun a w' => Inv w' /\ answer_ok c a) (fun _ _ => False) w.
Proof.
  intros Hc Hw. destruct c; cbn [exec call_ok answer_ok] in *; try wp_step.
  - split; [by apply Inv_draw|apply drawn_is_token].
  - split; [by apply Inv_tick|done].
  - eapply wp_mono; [by apply inv_registerClient| |done]. intros id w' [? ?]. split; [done|]. by intros ? [= <-].
  - by apply inv_getClient.
  - eapply wp_mono; [by apply inv_ensureFixedClient|done|done].
  - eapply wp_mono; [by apply inv_putCode|done|done].
  - by apply inv_consumeCode.
  - eapply wp_mono; [by apply inv_throttled|done|done].
  - eapply wp_mono; [by apply inv_recordFailure|done|done].
  - unfold resetPassphraseFailures. wp_step. split; [by apply Inv_with_failTimes|done].
  - eapply wp_mono; [by apply inv_putAccess|done|done].
  - by apply inv_getAccess.
  - eapply wp_mono; [by apply inv_revokeAccess|done|done].
  - eapply wp_mono; [by apply inv_putRefresh|done|done].
  - eapply wp_mono; [by apply inv_consumeRefresh| |done]. intros o w' [? Ho]. split; [done|]. intros g [= ->]. by apply Ho.
  - eapply wp_mono; [by apply inv_rotateRefresh| |done]. intros o w' [? Ho]. split; [done|]. intros g [= ->]. by apply Ho.
  - eapply wp_mono; [by apply inv_revokeRefresh|done|done].
Qed.
End Entries.
