(* ===== verification/OAuthSystem.v ===== *)
(** * OAuth: processes, requests and their interleavings

    A deployment: processes that share the store's files, each with its memory and the
    requests it is serving.  A request is a program over the store's methods; an event
    starts a process, stops one, lets a request arrive, or runs the next method of
    a request with the faults it meets.  Any list of events is an execution, so the
    theorems cover every interleaving of requests and processes, restarts, and every
    failure of the file system. *)

From S2P Require Import Prelude Effects GoStrings GoRegexp GoJson GoTime GoReflect GoRecord Sha256 GoPath GoUrl OAuthTypes OAuthStore OAuthProvider OAuthFacts OAuthInv.

(** ** Requests *)
Inductive reply :=
| Answer (r : response)
| PrincipalIs (principal : option string)
| Completed (ok : bool)
| ConsoleReady (r : result ConsoleClient).

(** A request of the mux, the check of a request to the MCP endpoint, the console's
    callback and its start. *)
Inductive job :=
| JHttp (path : string) (r : Request)
| JPrincipal (r : Request)
| JComplete (c : ConsoleClient) (code verifier : string)
| JConsole.

Definition oauthCallbackPath : string := "/console/auth/callback".

Definition serve (p : Provider) (j : job) : prog reply :=
  match j with
  | JHttp path r =>
      match RegisterRoutes p path with
      | Some handler => bind* x := handler r in Ret (Answer x)
      | None => Ret (Answer (HttpError 404 "404 page not found"))
      end
  | JPrincipal r => bind* x := Principal p r in Ret (PrincipalIs x)
  | JComplete c code verifier => bind* x := Complete p c code verifier in Ret (Completed x)
  | JConsole => bind* x := NewConsoleClient p oauthCallbackPath in Ret (ConsoleReady x)
  end.

(** ** The deployment *)
Record process := { pr_provider : Provider; pr_store : tokenStore; pr_requests : gmap nat (job * prog reply) }.

(** A call of a store method and what it returned. *)
Inductive logged :=
| Logged {A} (c : call A) (a : A).

Record system := {
  sy_disk : gmap string string;
  sy_ticks : nat;
  sy_draws : nat;
  sy_procs : gmap nat process;
  sy_log : list (nat * logged) }.  (* by process, newest first *)

Definition initial (d : gmap string string) : system := {| sy_disk := d; sy_ticks := 0; sy_draws := 0; sy_procs := ∅; sy_log := [] |}.

Inductive event :=
| Start (pid : nat) (faults : list bool)
| Stop (pid : nat)
| Arrive (pid rid : nat) (j : job)
| Run (pid rid : nat) (faults : list bool).

Section Deployment.
Context {E : Environment} (tree : FS) (identity : string -> option Z) (cfg : Config).

Definition world (σ : system) (s : tokenStore) : World :=
  {| disk := sy_disk σ; ticks := sy_ticks σ; draws := sy_draws σ; store := s |}.
Definition with_procs (procs : gmap nat process) (σ : system) : system :=
  {| sy_disk := sy_disk σ; sy_ticks := sy_ticks σ; sy_draws := sy_draws σ; sy_procs := procs; sy_log := sy_log σ |}.
Definition after (w : World) (procs : gmap nat process) (log : list (nat * logged)) : system :=
  {| sy_disk := disk w; sy_ticks := ticks w; sy_draws := draws w; sy_procs := procs; sy_log := log |}.

Definition step (σ : system) (ev : event) : system :=
  match ev with
  | Start pid faults =>
      match run (NewProvider tree identity cfg) (world σ newTokenStore) faults with
      | (Ok p, w) => after w (<[pid := {| pr_provider := p; pr_store := store w; pr_requests := ∅ |}]> (sy_procs σ)) (sy_log σ)
      | (Err _, w) => after w (delete pid (sy_procs σ)) (sy_log σ)
      end
  | Stop pid => with_procs (delete pid (sy_procs σ)) σ
  | Arrive pid rid j =>
      match sy_procs σ !! pid with
      | Some pr =>
          with_procs (<[pid := {| pr_provider := pr_provider pr; pr_store := pr_store pr;
            pr_requests := <[rid := (j, serve (pr_provider pr) j)]> (pr_requests pr) |}]> (sy_procs σ)) σ
      | None => σ
      end
  | Run pid rid faults =>
      match sy_procs σ !! pid with
      | Some pr =>
          match pr_requests pr !! rid with
          | Some (j, Do c k) =>
              match run (exec c) (world σ (pr_store pr)) faults with
              | (Ok a, w) =>
                  after w (<[pid := {| pr_provider := pr_provider pr; pr_store := store w; pr_requests := <[rid := (j, k a)]> (pr_requests pr) |}]>
                    (sy_procs σ)) ((pid, Logged c a) :: sy_log σ)
              | (Err _, w) => σ
              end
          | _ => σ
          end
      | None => σ
      end
  end.
Definition runs (σ : system) (evs : list event) : system := fold_left step evs σ.

(** The answer a request has got. *)
Definition replied (σ : system) (pid rid : nat) (j : job) (r : reply) : Prop :=
  exists pr, sy_procs σ !! pid = Some pr /\ pr_requests pr !! rid = Some (j, Ret r).

(** ** A start *)
Definition enabled_path (path : string) : string := if TrimSpace path =? "" then "" else Clean path.
Definition paths : Paths :=
  {| p_client := enabled_path (ClientStorePath cfg); p_access := enabled_path (AccessStorePath cfg); p_refresh := enabled_path (RefreshStorePath cfg) |}.
Definition provider : Provider :=
  {| issuer := TrimRightByte (TrimSpace (Issuer cfg)) "/"; resource := TrimSpace (Resource cfg); passphrase := Passphrase cfg |}.

Lemma store_path_ok path path' : store_path path = Ok path' -> path' = Clean path /\ path' <> "".
Proof.
  unfold store_path. rewrite !check_ok, !reject_if_ok. intros (H & _ & [= <-]). split; [done|].
  apply orb_false_iff in H as [_ H]. by apply bool_decide_eq_false in H.
Qed.

Section Invariant.
Context (distinct : paths_distinct paths).
Context (PC : string -> clientReg -> Prop) (PK : string -> authCode -> Prop)
        (PA : string -> accessGrant -> Prop) (PR : string -> refreshGrant -> Prop).
Context (PC_text : forall id c, PC id c -> client_text id c) (PA_text : forall d g, PA d g -> access_text d g)
        (PR_text : forall t g, PR t g -> refresh_text t g).
Context (PC_activated : forall id c, PC id c -> PC id (activated_client c)).
#[local] Abbreviation files := (files_ok paths PC PA PR).
#[local] Abbreviation entries := (entries_ok PC PK PA PR).

(** A new process: its entries are what its files hold. *)
Lemma start_ok w : files (disk w) ->
  wp (NewProvider tree identity cfg) (fun p w' => p = provider /\ paths_of paths (store w') /\ entries (store w') /\ disk w' = disk w)
    (fun _ w' => disk w' = disk w) w.
Proof.
  intros Hf.
  set (part s a b c := clientStorePath s = a /\ accessStorePath s = b /\ refreshStorePath s = c).
  assert (HC : forall w1, disk w1 = disk w -> entries (store w1) -> part (store w1) "" "" "" ->
    wp (when_set (ClientStorePath cfg) enableClientPersistence)
      (fun _ w2 => disk w2 = disk w /\ entries (store w2) /\ part (store w2) (p_client paths) "" "") (fun _ w2 => disk w2 = disk w) w1).
  { intros w1 Hd He (H1 & H2 & H3). unfold when_set, paths, enabled_path. cbn [p_client]. case_bool_decide as Hp; [by apply wp_ret|].
    unfold enableClientPersistence. do 2 wp_step; [|done]. apply store_path_ok in H as [-> Hne]. do 2 wp_step.
    apply wp_loadClients; [intros; split; [done|split; [destruct He; by split|by unfold part]]| |done]. cbn. intros body m Hb Hm. split_and!; [done| |done].
    destruct He. split; try done; cbn; [|exact (clients_loaded _ _ Hm)]. eapply (fo_clients _ _ _ _ _ Hf); [| |exact Hm]; unfold paths, enabled_path; cbn;
      rewrite bool_decide_false by done; [done|]. by rewrite <- Hd. }
  assert (HA : forall w1, disk w1 = disk w -> entries (store w1) -> part (store w1) (p_client paths) "" "" ->
    wp (when_set (AccessStorePath cfg) enableAccessPersistence)
      (fun _ w2 => disk w2 = disk w /\ entries (store w2) /\ part (store w2) (p_client paths) (p_access paths) "") (fun _ w2 => disk w2 = disk w) w1).
  { intros w1 Hd He (H1 & H2 & H3). unfold when_set, paths, enabled_path. cbn [p_access]. case_bool_decide as Hp; [by apply wp_ret|].
    unfold enableAccessPersistence. do 2 wp_step; [|done]. apply store_path_ok in H as [-> Hne]. do 2 wp_step. wp_step; [|done].
    apply wp_loadAccess; [intros; split; [done|split; [destruct He; by split|by unfold part]]| |done]. cbn. intros body m Hb Hm. split_and!; [done| |done].
    destruct He. split; try done; cbn; [|by eapply access_loaded]. eapply (fo_access _ _ _ _ _ Hf); [| |exact Hm]; unfold paths, enabled_path; cbn;
      rewrite bool_decide_false by done; [done|]. by rewrite <- Hd. }
  assert (HR : forall w1, disk w1 = disk w -> entries (store w1) -> part (store w1) (p_client paths) (p_access paths) "" ->
    wp (when_set (RefreshStorePath cfg) enableRefreshPersistence)
      (fun _ w2 => disk w2 = disk w /\ entries (store w2) /\ part (store w2) (p_client paths) (p_access paths) (p_refresh paths))
      (fun _ w2 => disk w2 = disk w) w1).
  { intros w1 Hd He (H1 & H2 & H3). unfold when_set, paths, enabled_path. cbn [p_refresh]. case_bool_decide as Hp; [by apply wp_ret|].
    unfold enableRefreshPersistence. do 2 wp_step; [|done]. apply store_path_ok in H as [-> Hne]. do 2 wp_step.
    apply wp_loadRefresh; [intros; split; [done|split; [destruct He; by split|by unfold part]]| |done]. cbn. intros body m Hb Hm. split_and!; [done| |done].
    destruct He. split; try done; cbn. eapply (fo_refresh _ _ _ _ _ Hf); [| |exact Hm]; unfold paths, enabled_path; cbn;
      rewrite bool_decide_false by done; [done|]. by rewrite <- Hd. }
  unfold NewProvider. do 3 (do 2 wp_step; [|done]). do 3 (do 2 wp_step; [|done]). do 2 wp_step.
  wp_step. eapply wp_mono; [apply HC; [done|apply entries_new|done]| |done]. intros _ w2 (Hd2 & He2 & Hp2). wp_step.
  eapply wp_mono; [by apply HA| |done]. intros _ w3 (Hd3 & He3 & Hp3). wp_step.
  eapply wp_mono; [by apply HR| |done]. intros _ w4 (Hd4 & He4 & Hp4). by apply wp_ret.
Qed.

(** ** Programs that keep the invariant *)
Fixpoint psafe {R} (Q : R -> Prop) (p : prog R) : Prop :=
  match p with
  | Ret r => Q r
  | Do c k => call_ok PC PK PA PR c /\ forall a, answer_ok PC PK PA PR c a -> psafe Q (k a)
  end.

Lemma psafe_bind {A B} (Q : B -> Prop) (p : prog A) (f : A -> prog B) : psafe (fun a => psafe Q (f a)) p -> psafe Q (pbind p f).
Proof.
  induction p as [a|T c k IH]; cbn; [done|]. intros [Hc Hk]. split; [done|]. intros a Ha. by apply IH, Hk.
Qed.
Lemma psafe_mono {R} (Q Q' : R -> Prop) (p : prog R) : psafe Q p -> (forall r, Q r -> Q' r) -> psafe Q' p.
Proof. intros Hp HQ. induction p as [a|T c k IH]; cbn in *; [auto|]. destruct Hp as [Hc Hk]. split; auto. Qed.

(** ** The system keeps it *)
Context (Q : job -> reply -> Prop).

Record sys_ok (σ : system) : Prop := {
  so_files : files (sy_disk σ);
  so_procs : forall pid pr, sy_procs σ !! pid = Some pr ->
    pr_provider pr = provider /\ paths_of paths (pr_store pr) /\ entries (pr_store pr) /\ map_Forall (fun _ r => psafe (Q r.1) r.2) (pr_requests pr) }.

Definition event_ok (ev : event) : Prop := match ev with Arrive _ _ j => psafe (Q j) (serve provider j) | _ => True end.

Lemma step_ok σ ev : sys_ok σ -> event_ok ev -> sys_ok (step σ ev).
Proof.
  intros [Hf Hp] Hev. destruct ev as [pid faults|pid|pid rid j|pid rid faults]; cbn [step].
  - destruct (run _ _ _) as [[p|e] w] eqn:Er; apply (wp_run _ _ _ _ _ _ _ (start_ok (world σ newTokenStore) Hf)) in Er.
    + destruct Er as (-> & Hps & He & Hd). split; cbn; [by rewrite Hd|]. intros pid' pr [[<- <-]|[? ?]]%lookup_insert_Some; [|by eapply Hp].
      by split_and!.
    + split; cbn; [by rewrite Er|]. intros pid' pr [_ ?]%lookup_delete_Some. by eapply Hp.
  - split; [done|]. cbn. intros pid' pr [_ ?]%lookup_delete_Some. by eapply Hp.
  - destruct (sy_procs σ !! pid) as [pr|] eqn:Epr; [|by split]. destruct (Hp pid pr Epr) as (Epv & Hps & He & Hr).
    split; [done|]. cbn. intros pid' pr' [[<- <-]|[? ?]]%lookup_insert_Some; [|by eapply Hp]. split_and!; try done. cbn.
    apply map_Forall_insert_2; [|done]. cbn. by rewrite Epv.
  - destruct (sy_procs σ !! pid) as [pr|] eqn:Epr; [|by split]. destruct (Hp pid pr Epr) as (Epv & Hps & He & Hr).
    destruct (pr_requests pr !! rid) as [[j [r|A c k]]|] eqn:Ereq; [by split| |by split].
    destruct (Hr _ _ Ereq) as [Hc Hk]. destruct (run _ _ _) as [[a|e] w] eqn:Er; [|by split].
    assert (Hi : Inv paths PC PK PA PR (world σ (pr_store pr))) by (by split_and!).
    apply (wp_run _ _ _ _ _ _ _ (exec_inv paths distinct PC PK PA PR PC_text PA_text PR_text PC_activated c _ Hc Hi)) in Er.
    destruct Er as ((Hps' & He' & Hf') & Ha). split; [done|]. cbn.
    intros pid' pr' [[<- <-]|[? ?]]%lookup_insert_Some; [|by eapply Hp]. split_and!; try done. cbn.
    apply map_Forall_insert_2; [by apply Hk|done].
Qed.

Lemma runs_ok evs σ : sys_ok σ -> Forall event_ok evs -> sys_ok (runs σ evs).
Proof.
  intros Hs Hev. unfold runs. revert σ Hs. induction Hev as [|ev evs Hev _ IH]; intros σ Hs; [done|]. cbn. by apply IH, step_ok.
Qed.

Lemma initial_ok d : files d -> sys_ok (initial d).
Proof. intros Hd. split; [done|]. cbn. intros pid pr. by rewrite lookup_empty. Qed.

Lemma replied_ok σ pid rid j r : sys_ok σ -> replied σ pid rid j r -> Q j r.
Proof. intros [_ Hp] (pr & Hpr & Hreq). destruct (Hp pid pr Hpr) as (_ & _ & _ & Hr). exact (Hr _ _ Hreq). Qed.
End Invariant.
End Deployment.

(** ** Distinct store files *)
Section Distinct.
Context (tree : FS) (identity : string -> option Z).

Lemma distinct_stores_spec seen files l : distinct_stores tree identity seen files l = Ok tt ->
  Forall (fun path => TrimSpace path = "" \/ resolve_store tree (TrimSpace path) ∉ seen) l.
Proof.
  revert seen files. induction l as [|path l IH]; intros seen files H; [constructor|]. cbn [distinct_stores] in H.
  case_bool_decide as Hp; [constructor; [by left|by eapply IH]|]. apply check_ok in H as [Hs%reject_if_ok%bool_decide_eq_false H].
  assert (Hrest : exists files', distinct_stores tree identity ({[resolve_store tree (TrimSpace path)]} ∪ seen) files' l = Ok tt).
  { destruct (identity _); [apply check_ok in H as [_ H]|]; eauto. }
  destruct Hrest as [files' Hr%IH]. constructor; [by right|]. eapply Forall_impl; [exact Hr|]. intros path' [?|?]; [by left|right; set_solver].
Qed.

(** The paths a provider checked name distinct files after [Clean]. *)
Lemma distinct_pair a b l seen files : distinct_stores tree identity seen files (a :: l) = Ok tt -> b ∈ l ->
  TrimSpace a = a -> TrimSpace b = b -> enabled_path a <> "" -> enabled_path a <> enabled_path b.
Proof.
  intros H Hb Ha Htb Hne He. unfold enabled_path in *. rewrite Ha, Htb in *. cbn [distinct_stores] in H. rewrite Ha in H.
  case_bool_decide as Ea; [done|]. apply check_ok in H as [_ H].
  assert (Hrest : exists files', distinct_stores tree identity ({[resolve_store tree a]} ∪ seen) files' l = Ok tt).
  { destruct (identity _); [apply check_ok in H as [_ H]|]; eauto. }
  destruct Hrest as [files' Hr%distinct_stores_spec]. rewrite Forall_forall in Hr. specialize (Hr b Hb). rewrite Htb in Hr.
  case_bool_decide as Eb; [done|]. destruct Hr as [?|Hr]; [done|]. apply Hr. unfold resolve_store. rewrite He. set_solver.
Qed.

Lemma distinct_tail seen files a l : distinct_stores tree identity seen files (a :: l) = Ok tt ->
  exists seen' files', distinct_stores tree identity seen' files' l = Ok tt.
Proof.
  cbn [distinct_stores]. destruct (TrimSpace a =? ""); [eauto|]. intros [_ H]%check_ok. destruct (identity _); [apply check_ok in H as [_ H]|]; eauto.
Qed.

Theorem checked_paths_distinct cfg : validateDistinctStorePaths tree identity [ClientStorePath cfg; AccessStorePath cfg; RefreshStorePath cfg] = Ok tt ->
  TrimSpace (ClientStorePath cfg) = ClientStorePath cfg -> TrimSpace (AccessStorePath cfg) = AccessStorePath cfg ->
  TrimSpace (RefreshStorePath cfg) = RefreshStorePath cfg -> paths_distinct (paths cfg).
Proof.
  intros H Hc Ha Hr. assert (Htail := distinct_tail _ _ _ _ H).
  destruct Htail as (seen & files & Htail). split; [intros Hne; split|intros Hne].
  - eapply distinct_pair; [exact H|set_solver|done..].
  - eapply distinct_pair; [exact H|set_solver|done..].
  - eapply distinct_pair; [exact Htail|set_solver|done..].
Qed.
End Distinct.
