(* ===== verification/OAuthSafety.v ===== *)
(** * OAuth: who gets a token, and where a code goes

    Over every execution of a deployment: a request is accepted as a client only after
    the owner's passphrase was presented for that client, and with a token that the
    server drew ([owner_login_required]); a code is sent only to an address that
    registration accepts ([codes_go_to_registered_addresses]); and the store stays
    within its limits ([limits_hold]). *)

From S2P Require Import Prelude Effects GoStrings GoRegexp GoJson GoTime GoReflect GoRecord Sha256 GoPath GoUrl OAuthTypes OAuthStore OAuthProvider OAuthFacts OAuthInv OAuthSystem.

(** ** Strings the server makes *)
Definition token_byte (z : Z) : Prop := plain_byte z /\ z <> 32.
#[local] Abbreviation token_text := (each_byte token_byte).

Lemma token_byte_chr z : 0 <= z < 256 -> token_byte z -> forall s, token_text s -> token_text (String (chr z) s).
Proof. intros Hz Hp s Hs. apply each_byte_cons. by rewrite byte_val_chr. Qed.

Lemma base64_char_token n s : 0 <= n < 64 -> token_text s -> token_text (String (base64_char n) s).
Proof.
  intros Hn Hs. unfold base64_char. repeat case_match; try case_bool_decide;
    try (apply token_byte_chr; [lia|unfold token_byte, plain_byte; lia|done]);
    apply each_byte_cons; (split; [vm_compute; intuition congruence|done]).
Qed.

Lemma base64_groups s : token_text (RawURLEncode s) /\ forall a, token_text (RawURLEncode (String a s)) /\ forall b, token_text (RawURLEncode (String a (String b s))).
Proof.
  induction s as [|c s (IH1 & IH2)].
  - split; [constructor|]. intros a. pose proof (byte_val_range a). split; [|intros b; pose proof (byte_val_range b)]; cbn [RawURLEncode];
      repeat (apply base64_char_token; [Z.to_euclidean_division_equations; lia|]); constructor.
  - split; [apply IH2|]. intros a. split; [apply IH2|]. intros b. pose proof (byte_val_range a). pose proof (byte_val_range b).
    pose proof (byte_val_range c). cbn [RawURLEncode]. repeat (apply base64_char_token; [Z.to_euclidean_division_equations; lia|]). exact IH1.
Qed.

Lemma base64_plain s : plain (RawURLEncode s).
Proof. eapply each_byte_impl; [|apply base64_groups]. by intros z [? _]. Qed.
Lemma base64_visible s : each_byte visible (RawURLEncode s).
Proof. eapply each_byte_impl; [|apply base64_groups]. unfold token_byte, plain_byte, visible. intros z ?. lia. Qed.

Lemma drawn_text {E : Environment} t : drawn_token t -> text t.
Proof. intros [n ->]. unfold drawn. apply plain_text. destruct (random n) as [b|]; [apply base64_plain|constructor]. Qed.

Lemma hex_plain s : plain (EncodeToString s).
Proof.
  induction s as [|c s IH]; [constructor|]. cbn [EncodeToString]. pose proof (byte_val_range c).
  assert (Hd : forall n, 0 <= n < 16 -> plain_byte (byte_val (hex_digit n))).
  { intros n Hn. unfold hex_digit. case_match; rewrite byte_val_chr by lia; unfold plain_byte; lia. }
  apply plain_cons. split; [apply Hd; Z.to_euclidean_division_equations; lia|]. apply plain_cons.
  split; [apply Hd; Z.to_euclidean_division_equations; lia|done].
Qed.

Lemma digest_text t : text (accessTokenDigest t).
Proof. apply plain_text, hex_plain. Qed.

(** ** Registered addresses *)
Definition safe_target (u : URL) : Prop :=
  Host u <> "" /\ (Scheme u = "https" \/ (Scheme u = "http" /\ Hostname u ∈ ["localhost"; "127.0.0.1"; "::1"])).

Lemma validateRedirectURI_spec raw : validateRedirectURI raw = Ok tt ->
  exists u, Parse raw = Some u /\ safe_target u /\ Fragment u = "".
Proof.
  unfold validateRedirectURI. destruct (ContainsByte raw "*"); [done|]. destruct (Parse raw) as [u|]; [|done]. intros H. exists u.
  destruct (_ || _) eqn:Ef; [done|]. apply orb_false_iff in Ef as [Ef%negb_false_iff%bool_decide_eq_true _].
  case_bool_decide as Hh; [done|]. case_bool_decide as Hs; [by split_and!; [|split; [|left]|]|].
  case_bool_decide as Hs2; [|done]. destruct (isLoopbackHost (Hostname u)) eqn:El; [|done]. split_and!; try done. split; [done|]. right. split; [done|].
  unfold isLoopbackHost in El. rewrite !orb_true_iff, !bool_decide_eq_true in El. set_solver.
Qed.

Lemma registration_texts body rq : decode_registration body = Some rq -> Forall text (rq_RedirectURIs rq).
Proof.
  unfold decode_registration. intros ([j rest] & Hr & H)%bind_Some. apply bind_Some in H as (v & Hv & Hof).
  pose proof (decoded_text false _ _ (j, rest) _ _ Hr Hv) as Ht.
  destruct v as [| | | |[|x0 [|x1 [|x2 [|x3 [|? ?]]]]]| |]; try done. cbn [registration_of] in Hof.
  apply bind_Some in Hof as (y0 & _ & Hof). apply bind_Some in Hof as (y1 & H1 & Hof). apply bind_Some in Hof as (y2 & _ & Hof).
  apply bind_Some in Hof as (y3 & _ & [= <-]). cbn. destruct Ht as (_ & Ht & _). cbn in H1. unfold list_of in H1.
  apply fmap_Some in H1 as (sl & Hs & ->). destruct x1 as [| | |[] elems spare| | |]; try done; [|injection Hs as <-; constructor].
  cbn [slice_of] in Hs. apply fmap_Some in Hs as (l & Hl & ->). cbn. cbn [texts] in Ht. rewrite !texts_all in Ht. destruct Ht as [Ht _].
  apply mapM_Some in Hl. apply Forall_forall. intros u [i Hi]%list_elem_of_lookup.
  destruct (Forall2_lookup_r _ _ _ _ _ Hl Hi) as (x & Hx & Ex). rewrite Forall_forall in Ht. specialize (Ht x (list_elem_of_lookup_2 _ _ _ Hx)).
  destruct x; try done. by injection Ex as <-.
Qed.

Lemma redirects_valid uris : validate_redirects uris = Ok tt -> Forall (fun u => validateRedirectURI u = Ok tt) uris.
Proof. induction uris as [|u l IH]; [constructor|]. cbn. intros [? ?]%check_ok. constructor; auto. Qed.

(** ** The owner's logins *)
(** The client for which a request presents the owner's passphrase. *)
Definition owner_login (p : Provider) (j : job) : option string :=
  match j with
  | JHttp path r =>
      if bool_decide (path = pathAuthorize) && (Method r =? "POST") then
        form ← ParseForm r; if Get form "passphrase" =? passphrase p then Some (Get form "client_id") else None
      else None
  | _ => None
  end.

Definition bearer (r : Request) : string := TrimSpace (drop_bytes 7 (Authorization r)).

Section Grants.
Context {E : Environment} (p : Provider) (C : string -> Prop).
Context (issuer_text : text (issuer p)) (resource_text : text (resource p)).

Definition client_entry (id : string) (c : clientReg) : Prop :=
  client_text id c /\ Forall (fun u => validateRedirectURI u = Ok tt) (cr_redirectURIs c).
Definition code_entry (code : string) (k : authCode) : Prop :=
  C (ac_clientID k) /\ text (ac_clientID k) /\ text (ac_scope k) /\ text (ac_resource k).
Definition access_entry (d : string) (g : accessGrant) : Prop :=
  access_text d g /\ C (ag_clientID g) /\ exists n, d = accessTokenDigest (drawn n).
Definition refresh_entry (t : string) (g : refreshGrant) : Prop := refresh_text t g /\ C (rg_clientID g).

#[local] Abbreviation safe := (psafe client_entry code_entry access_entry refresh_entry).

Definition allowed (j : job) (r : reply) : Prop :=
  match r with
  | PrincipalIs (Some id) => exists client req, j = JPrincipal req /\ id = "oauth-client:" +:+ client /\ C client /\
      exists n, accessTokenDigest (bearer req) = accessTokenDigest (drawn n)
  | Answer (Redirect _ u) => safe_target u
  | _ => True
  end.

Lemma new_access_entry t client res scope now : drawn_token t -> C client -> text client -> text res -> text scope ->
  access_entry (accessTokenDigest t) {| ag_clientID := client; ag_resource := res; ag_scope := scope; ag_expiresAt := now |}.
Proof. intros [n ->] ? ? ? ?. split_and!; [|done|by exists n]. split_and!; try done. apply digest_text. Qed.
Lemma new_refresh_entry t client res scope now : drawn_token t -> C client -> text client -> text res -> text scope ->
  refresh_entry t {| rg_clientID := client; rg_scope := scope; rg_resource := res; rg_expiresAt := now |}.
Proof. intros Ht%drawn_text ? ? ? ?. by split_and!. Qed.

Lemma validate_safe v (Q : result authorizeParams -> Prop) :
  (forall e, Q (Err e)) ->
  (forall a, text (ap_clientID a) -> ap_clientID a = Get v "client_id" -> validateRedirectURI (ap_redirectURI a) = Ok tt ->
    ap_scope a = "mcp" -> ap_resource a = resource p -> Q (Ok a)) ->
  safe Q (validateAuthorizeRequest p v).
Proof.
  intros HE HO. split; [done|]. cbn [psafe answer_ok]. intros client Hc. destruct client as [c|]; [|done]. destruct (Hc c eq_refl) as [[Hid _] Hv].
  destruct (registeredRedirect c (Get v "redirect_uri")) eqn:Er; [|by apply HE]. cbn [negb reject_if rbind].
  unfold reject_if. repeat (case_bool_decide; cbn [negb rbind]; try apply HE). apply HO; try done. cbn.
  unfold registeredRedirect in Er. apply existsb_exists in Er as (u & Hu & ->%bool_decide_eq_true). rewrite Forall_forall in Hv.
  by apply Hv, list_elem_of_In.
Qed.

Lemma submit_safe form (Q : response -> Prop) : (forall c, Get form "passphrase" = passphrase p -> Get form "client_id" = c -> C c) ->
  (forall csp u, safe_target u -> Q (Redirect csp u)) -> (forall status m, Q (HttpError status m)) -> (forall csp a m st, Q (LoginPage csp a m st)) ->
  safe Q (submitLogin p form).
Proof.
  intros HC H1 H2 H3. unfold submitLogin. apply psafe_bind, validate_safe; [intros e; apply H2|]. intros a Ht Hid Hv Hs Hr.
  split; [done|]. intros throttled _. destruct throttled; [apply H3|]. case_bool_decide as Hpass; cbn [negb]; [|split; [done|]; intros; apply H3].
  split; [done|]. intros _ _. split; [done|]. intros code _. split; [done|]. intros now _. split.
  - cbn. unfold code_entry, code_of. cbn. rewrite Hs, Hr. split_and!; try done. rewrite Hid. by eapply HC.
  - intros [x|e] _; [|apply H2]. unfold redirectWithCode. destruct (validateRedirectURI_spec _ Hv) as (u & -> & Hsafe & _). by apply H1.
Qed.

Lemma issue_safe client res scope ttl (Q : string -> Prop) : C client -> text client -> text res -> text scope ->
  (forall t, drawn_token t \/ t = "" -> Q t) -> safe Q (issueAccessToken client res scope ttl).
Proof.
  intros HC H1 H2 H3 HQ. split; [done|]. cbn [answer_ok]. intros t Ht. case_bool_decide; [by apply HQ; right|]. split; [done|]. intros now _. split.
  - by apply new_access_entry.
  - intros [x|e] _; apply HQ; [by left|by right].
Qed.

Lemma pair_safe client res scope (Q : response -> Prop) : C client -> text client -> text res -> text scope ->
  (forall r, (match r with Redirect _ _ => False | _ => True end) -> Q r) -> safe Q (issueTokenPair client res scope).
Proof.
  intros HC H1 H2 H3 HQ. unfold issueTokenPair. apply psafe_bind, issue_safe; try done. intros t _. case_bool_decide; [by apply HQ|].
  split; [done|]. cbn [answer_ok]. intros refresh Hr. split; [done|]. intros now _. split; [by apply new_refresh_entry|].
  intros [x|e] _; [by apply HQ|]. split; [done|]. intros. by apply HQ.
Qed.

Lemma token_safe r (Q : response -> Prop) : (forall r, (match r with Redirect _ _ => False | _ => True end) -> Q r) -> safe Q (handleToken r).
Proof.
  intros HQ. unfold handleToken. case_bool_decide; cbn [negb]; [|by apply HQ]. destruct (ParseForm r) as [form|]; [|by apply HQ].
  case_bool_decide; [|case_bool_decide; [|by apply HQ]].
  - unfold grantAuthorizationCode. split; [done|]. cbn [answer_ok]. intros [k|] Hk; [|by apply HQ]. destruct (Hk k eq_refl) as (? & ? & ? & ?).
    repeat (case_bool_decide; cbn [negb]; [|by apply HQ]). destruct (verifyPKCE _ _); cbn [negb]; [|by apply HQ]. by apply pair_safe.
  - unfold grantRefreshToken. split; [done|]. cbn [answer_ok]. intros acc Ha. split; [done|]. cbn [answer_ok]. intros new Hn.
    destruct (_ || _); [by apply HQ|]. split; [done|]. intros now _. split; [|intros [[g|]|e] _; by apply HQ].
    intros g [[_ (? & ? & ?)] ?]. split; [by apply new_access_entry|by apply new_refresh_entry].
Qed.

Lemma register_safe r (Q : response -> Prop) : (forall r, (match r with Redirect _ _ => False | _ => True end) -> Q r) -> safe Q (handleRegister r).
Proof.
  intros HQ. unfold handleRegister. case_bool_decide; cbn [negb]; [|by apply HQ]. destruct (decode_registration (Body r)) as [rq|] eqn:Erq; [|by apply HQ].
  apply registration_texts in Erq. destruct (rq_RedirectURIs rq) as [|u l]; [by apply HQ|].
  destruct (validate_redirects (u :: l)) as [[]|e] eqn:Ev; [|by apply HQ]. apply redirects_valid in Ev. split.
  - intros id now Hid%drawn_text. by split_and!.
  - intros [id|e] _; [|destruct (_ <>? _); by apply HQ]. split; [done|]. intros. by apply HQ.
Qed.

Lemma principal_safe r (Q : option string -> Prop) : Q None ->
  (forall client, C client -> (exists n, accessTokenDigest (bearer r) = accessTokenDigest (drawn n)) -> Q (Some ("oauth-client:" +:+ client))) ->
  safe Q (Principal p r).
Proof.
  intros H0 H1. unfold Principal. destruct (negb _); [done|]. split; [done|]. cbn [answer_ok psafe]. intros [g|] Hg; [|done].
  destruct (Hg g eq_refl) as (_ & HC & Hn). destruct (_ || _); [done|]. by apply H1.
Qed.

Lemma complete_safe c code verifier (Q : bool -> Prop) : (forall b, Q b) -> safe Q (Complete p c code verifier).
Proof.
  intros HQ. unfold Complete. destruct (_ || _); [apply HQ|]. split; [done|]. cbn [answer_ok]. intros [k|] Hk; [|apply HQ].
  destruct (Hk k eq_refl) as (HC & Ht & _). destruct (_ || _) eqn:Em; [apply HQ|].
  rewrite !orb_false_iff in Em. destruct Em as ((((<-%negb_false_iff%bool_decide_eq_true & _) & _) & _) & _).
  apply psafe_bind, issue_safe; try done. intros t _. split; [done|]. cbn [answer_ok]. intros refresh Hr.
  destruct (_ || _); [split; [done|]; intros; apply HQ|]. split; [done|]. intros now _. split; [by apply new_refresh_entry|].
  intros [x|e] _; (split; [done|]; intros _ _); [|apply HQ]. split; [done|]. intros. apply HQ.
Qed.

Lemma console_safe (Q : result ConsoleClient -> Prop) : (forall r, Q r) -> safe Q (NewConsoleClient p oauthCallbackPath).
Proof.
  intros HQ. unfold NewConsoleClient. destruct (Parse _) as [u|]; [|apply HQ]. destruct (_ || _); [apply HQ|].
  destruct (validateRedirectURI _) as [[]|e] eqn:Ev; [|apply HQ]. split.
  - intros now. split_and!; [|by constructor]. split.
    + apply text_app; [done|]. apply plain_text, base64_plain.
    + constructor; [|constructor]. apply text_app; [done|]. vm_compute. reflexivity.
  - intros r _. apply HQ.
Qed.

Lemma serve_safe j : (forall c, owner_login p j = Some c -> C c) -> safe (allowed j) (serve p j).
Proof.
  intros HC. assert (Hplain : forall j r, (match r with Redirect _ _ => False | _ => True end) -> safe (allowed j) (Ret (Answer r))) by (by intros ? []).
  destruct j as [path r|r|c code verifier|]; cbn [serve].
  - unfold RegisterRoutes. destruct (_ || _); [by apply psafe_bind; cbn [psafe handleProtectedResourceMetadata handleAuthServerMetadata]; destruct (Method r <>? "GET")|]. destruct (_ || _); [by apply psafe_bind; cbn [psafe handleProtectedResourceMetadata handleAuthServerMetadata]; destruct (Method r <>? "GET")|].
    case_bool_decide; [by apply psafe_bind, register_safe; intros ? ?; apply Hplain|]. case_bool_decide as Hpath; [|].
    + apply psafe_bind. unfold handleAuthorize. destruct (bool_decide_reflect (Method r = "GET")) as [|_].
      { apply psafe_bind, validate_safe; done. }
      destruct (bool_decide_reflect (Method r = "POST")) as [Hm|_]; [|done]. destruct (ParseForm r) as [form|] eqn:Ef; [|done].
      apply submit_safe; try done. intros c Hp Hc. apply HC. unfold owner_login. rewrite !bool_decide_true by done. cbn [andb]. rewrite Ef.
      cbn [base.mbind option_bind]. by rewrite bool_decide_true, Hc by done.
    + case_bool_decide; [by apply psafe_bind, token_safe; intros ? ?; apply Hplain|done].
  - apply psafe_bind, principal_safe; [done|]. intros client Hc Hn. by exists client, r.
  - by apply psafe_bind, complete_safe.
  - by apply psafe_bind, console_safe.
Qed.
End Grants.

(** ** Over every execution *)
Section Executions.
Context {E : Environment} (tree : FS) (identity : string -> option Z) (cfg : Config).

(** Nothing at the paths of the stores. *)
Definition no_stores (d : gmap string string) : Prop :=
  d !! p_client (paths cfg) = None /\ d !! p_access (paths cfg) = None /\ d !! p_refresh (paths cfg) = None.

Lemma no_stores_files d PC PA PR : no_stores d -> files_ok (paths cfg) PC PA PR d.
Proof. intros (H1 & H2 & H3). split; intros *; intros _; congruence. Qed.

(** The clients for which the owner logged in. *)
Definition approved (evs : list event) (c : string) : Prop :=
  exists pid rid j, Arrive pid rid j ∈ evs /\ owner_login (provider cfg) j = Some c.

Lemma execution_ok_for (C : string -> Prop) d evs : paths_distinct (paths cfg) -> no_stores d -> text (issuer (provider cfg)) -> text (resource (provider cfg)) ->
  (forall c, approved evs c -> C c) ->
  sys_ok cfg client_entry (code_entry C) (access_entry C) (refresh_entry C) (allowed C) (runs tree identity cfg (initial d) evs).
Proof.
  intros HP Hd Hi Hr HC. apply runs_ok; try done.
  - by intros id c [? _].
  - by intros id c [? _].
  - by intros id c [? _].
  - apply initial_ok. by apply no_stores_files.
  - apply Forall_forall. intros [| |pid rid j|] Hin; try done. apply serve_safe; try done. intros c Hc. apply HC. by exists pid, rid, j.
Qed.

(** C7 The owner's passphrase is the only way in. In any execution of any number of
    processes that share their store files (starting without such files), whatever
    requests arrive, however their steps interleave, whichever processes stop or restart
    and whatever the file system refuses: if a request to the MCP endpoint is
    accepted as the client [client], then some earlier authorization request presented
    the owner's passphrase for that very client, and the bearer token of the accepted
    request has the SHA-256 digest of a token that the server drew from its random
    source. *)
Theorem owner_login_required d evs pid rid r id :
  paths_distinct (paths cfg) -> no_stores d -> text (issuer (provider cfg)) -> text (resource (provider cfg)) ->
  replied (runs tree identity cfg (initial d) evs) pid rid (JPrincipal r) (PrincipalIs (Some id)) ->
  exists client, id = "oauth-client:" +:+ client /\ approved evs client /\
    exists n, accessTokenDigest (bearer r) = accessTokenDigest (drawn n).
Proof.
  intros HP Hd Hi Hr Hrep. pose proof (execution_ok_for (approved evs) d evs HP Hd Hi Hr (fun _ h => h)) as Hok.
  destruct (replied_ok _ _ _ _ _ _ _ _ _ _ _ Hok Hrep) as (client & req & [= <-] & -> & HC & Hn). eauto.
Qed.

(** C24 A code never leaves for an address that registration would refuse. In any
    execution as above, whenever an authorization request is answered with a redirect
    (which carries the code), its target has a host and is reached over https, or over
    http on this machine. *)
Theorem codes_go_to_registered_addresses d evs pid rid j csp u :
  paths_distinct (paths cfg) -> no_stores d -> text (issuer (provider cfg)) -> text (resource (provider cfg)) ->
  replied (runs tree identity cfg (initial d) evs) pid rid j (Answer (Redirect csp u)) -> safe_target u.
Proof.
  intros HP Hd Hi Hr Hrep. pose proof (execution_ok_for (approved evs) d evs HP Hd Hi Hr (fun _ h => h)) as Hok. exact (replied_ok _ _ _ _ _ _ _ _ _ _ _ Hok Hrep).
Qed.

(** C26 The limits of the store hold in every state of every execution: no process keeps
    more than 100 registered clients or more than 1024 access grants in memory, the
    loads of files and the rotations included. *)
Theorem limits_hold d evs pid pr :
  paths_distinct (paths cfg) -> no_stores d -> text (issuer (provider cfg)) -> text (resource (provider cfg)) ->
  sy_procs (runs tree identity cfg (initial d) evs) !! pid = Some pr ->
  (size (clients (pr_store pr)) <= 100)%nat /\ (size (access (pr_store pr)) <= 1024)%nat.
Proof.
  intros HP Hd Hi Hr Hpr. destruct (so_procs _ _ _ _ _ _ _ (execution_ok_for (approved evs) d evs HP Hd Hi Hr (fun _ h => h)) pid pr Hpr) as (_ & _ & [_ _ _ _ ? ?] & _). done.
Qed.
End Executions.
