(* ===== verification/OAuthSingle.v ===== *)
(** * OAuth: codes and refresh tokens are used once

    What each method does to the codes in memory and to the refresh tokens in the file,
    and from it the counts over every execution: a code is redeemed no more often than
    it was put in, a refresh token no more often than it was issued, across processes,
    faults and restarts.  The console's revocation of a refresh token is the one method
    that breaks the second, since it neither locks nor reloads the file. *)

From S2P Require Import Prelude GoStrings GoPath GoRegexp Sha256 GoJson GoTime GoReflect GoRecord Effects GoUrl OAuthTypes OAuthStore OAuthProvider OAuthFacts OAuthInv OAuthSystem OAuthSafety.

(** ** What a method leaves alone *)
Section Frames.
Context (I : World -> Prop) (R : World -> World -> Prop) (Rrefl : forall w, R w w) (Rtrans : forall a b c, R a b -> R b c -> R a c).

Definition frame {A} (m : M World A) : Prop :=
  forall w, I w -> wp m (fun _ w' => I w' /\ R w w') (fun _ w' => I w' /\ R w w') w.

Lemma frame_bind {A B} (m : M World A) (k : A -> M World B) : frame m -> (forall a, frame (k a)) -> frame (mbind m k).
Proof.
  intros Hm Hk w Hw. apply wp_bind. eapply wp_mono; [by apply Hm| |done]. intros a w1 [H1 R1].
  eapply wp_mono; [by apply Hk|..]; intros ? w2 [H2 R2]; split; eauto.
Qed.
Lemma frame_ret {A} (a : A) : frame (mret a).
Proof. intros w Hw. by apply wp_ret. Qed.
Lemma frame_fail {A} e : frame (mfail (A := A) e).
Proof. intros w Hw. by apply wp_fail. Qed.
Lemma frame_guard c e : frame (mguard c e).
Proof. intros w Hw. by apply wp_guard. Qed.
Lemma frame_lift {A} (r : result A) : frame (mlift r).
Proof. intros w Hw. by apply wp_lift. Qed.
Lemma frame_self : frame self.
Proof. intros w Hw. by apply wp_self. Qed.
Lemma frame_read path : frame (ReadFile path).
Proof. intros w Hw. by apply wp_read. Qed.
Lemma frame_try {A} (m : M World A) : frame m -> frame (mtry m).
Proof. intros Hm w Hw. apply wp_try. eapply wp_mono; [by apply Hm|done|done]. Qed.
Lemma frame_on_error {A} (m : M World A) undo : frame m -> frame undo -> frame (on_error m undo).
Proof.
  intros Hm Hu. apply frame_bind; [by apply frame_try|]. intros [a|e]; [apply frame_ret|]. apply frame_bind; [done|]. intros. apply frame_fail.
Qed.
Lemma frame_lock {A} path (m : M World A) : frame m -> frame (withAccessStoreFileLock path m).
Proof. intros Hm w Hw. apply wp_lock; [by apply Hm|done]. Qed.
Lemma frame_modify f : (forall w, I w -> I (with_store (f (store w)) w) /\ R w (with_store (f (store w)) w)) -> frame (modify f).
Proof. intros Hf w Hw. apply wp_modify. auto. Qed.
End Frames.

(** ** Codes *)
Section Codes.
Context {E : Environment}.
Definition same_codes (w w' : World) : Prop := codes (store w') = codes (store w).
#[local] Abbreviation keeps := (frame (fun _ => True) same_codes).

Lemma same_codes_refl w : same_codes w w.
Proof. reflexivity. Qed.
Lemma keeps_Now : keeps Now.
Proof. intros w Hw. by apply wp_Now. Qed.
Lemma keeps_rand : keeps randToken.
Proof. intros w Hw. by apply wp_rand. Qed.
Lemma keeps_write path body : keeps (writeFileAtomic0600 path body).
Proof. intros w Hw. by apply wp_write. Qed.
Lemma keeps_bind {A B} (m : M World A) (k : A -> M World B) : keeps m -> (forall a, keeps (k a)) -> keeps (mbind m k).
Proof. apply frame_bind. intros a b c. unfold same_codes. congruence. Qed.
Lemma keeps_on_error {A} (m : M World A) undo : keeps m -> keeps undo -> keeps (on_error m undo).
Proof. apply frame_on_error; [done|]. intros a b c. unfold same_codes. congruence. Qed.

Ltac keep_with tac :=
  repeat first
    [ progress intros | apply keeps_write | tac
    | apply keeps_on_error | apply frame_try | (apply frame_lock; [exact same_codes_refl|]) | (match goal with |- frame _ _ (match ?o with _ => _ end) => destruct o end)
    | apply keeps_Now | apply keeps_rand
    | (apply frame_ret; exact same_codes_refl) | (apply frame_fail; exact same_codes_refl) | (apply frame_guard; exact same_codes_refl)
    | (apply frame_lift; exact same_codes_refl) | (apply frame_self; exact same_codes_refl)
    | (apply frame_read; exact same_codes_refl) | (apply frame_modify; done) | apply keeps_bind ].
Ltac keep := keep_with fail.

Lemma keeps_persistClients : keeps persistClientsLocked.
Proof. unfold persistClientsLocked. keep. Qed.
Lemma keeps_persistRefresh : keeps persistRefreshLocked.
Proof. unfold persistRefreshLocked. keep. Qed.
Lemma keeps_persistAccess : keeps persistAccessLocked.
Proof. unfold persistAccessLocked, pruneAccessLocked. keep. Qed.
Lemma keeps_loadRefresh : keeps loadRefreshLocked.
Proof. unfold loadRefreshLocked. keep. Qed.
Lemma keeps_loadAccess : keeps loadAccessLocked.
Proof. unfold loadAccessLocked. keep. Qed.

(** What a call does to the codes. *)
Definition codes_effect {A} (c : call A) (m m' : gmap string authCode) : A -> Prop :=
  match c with
  | CPutCode code k => fun r => match r with Ok _ => m' = <[code := k]> m | Err _ => m' = m end
  | CConsumeCode code => fun o => match o with Some k => m !! code = Some k /\ m' = delete code m | None => m' ⊆ m end
  | _ => fun _ => m' = m
  end.

Ltac keep_all :=
  keep_with ltac:(first [apply keeps_persistClients | apply keeps_persistRefresh | apply keeps_persistAccess | apply keeps_loadRefresh | apply keeps_loadAccess]).

Lemma keeps_enableClients path : keeps (enableClientPersistence path).
Proof. unfold enableClientPersistence, loadClientsLocked. keep. Qed.
Lemma keeps_enableAccess path : keeps (enableAccessPersistence path).
Proof. unfold enableAccessPersistence. keep_all. Qed.
Lemma keeps_enableRefresh path : keeps (enableRefreshPersistence path).
Proof. unfold enableRefreshPersistence. keep_all. Qed.

Lemma putCode_effect code k w :
  wp (putCode code k) (fun _ w' => codes (store w') = <[code := k]> (codes (store w))) (fun _ w' => codes (store w') = codes (store w)) w.
Proof.
  unfold putCode. apply wp_bind, wp_self, wp_bind.
  match goal with |- wp ?m _ _ _ => assert (Hk : keeps m) by keep_all end.
  eapply wp_mono; [by apply Hk| |by intros e w' []]. intros a w' [_ Hw']. apply wp_modify. cbn. by rewrite Hw'.
Qed.

Lemma consumeCode_effect code w :
  wp (consumeCode code) (fun o w' => codes_effect (CConsumeCode code) (codes (store w)) (codes (store w')) o) (fun _ _ => False) w.
Proof.
  unfold consumeCode. cbn [codes_effect]. wp_step; [by apply wp_ret|]. do 2 wp_step. destruct (codes (store w) !! code) as [k|] eqn:Ek; [|by apply wp_ret].
  do 2 wp_step. do 2 wp_step. wp_step; apply wp_ret; [apply delete_subseteq|done].
Qed.

Lemma exec_codes {A} (c : call A) w : wp (exec c) (fun a w' => codes_effect c (codes (store w)) (codes (store w')) a) (fun _ _ => True) w.
Proof.
  assert (Hframe : keeps (exec c) -> (forall a m, codes_effect c m m a) ->
    wp (exec c) (fun a w' => codes_effect c (codes (store w)) (codes (store w')) a) (fun _ _ => True) w).
  { intros Hk Hc. eapply wp_mono; [by apply Hk| |done]. intros a w' [_ Hs]. rewrite Hs. apply Hc. }
  destruct c; try (apply Hframe; [|done]; cbn [exec];
    unfold registerClient, getClient, ensureFixedClient, passphraseThrottled, recordPassphraseFailure, resetPassphraseFailures, pruneFailuresLocked,
      add_failure, putAccess, getAccess, revokeAccess, putRefresh, consumeRefresh, rotateRefresh, rotateLocked, persistRotation, restore, revokeRefresh,
      reloadAccess, reloadRefresh, pruneAccessLocked, set_access, drop_access, set_refresh, drop_refresh; keep_all).
  - cbn [exec]. apply wp_try. eapply wp_mono; [apply putCode_effect|done|done].
  - eapply wp_mono; [apply consumeCode_effect|done|done].
Qed.
End Codes.

(** ** Counting *)
(** The entries of a process's log that satisfy [f]. *)
Definition count (pid : nat) (f : logged -> bool) (log : list (nat * logged)) : nat :=
  length (filter (fun e => e.1 = pid /\ f e.2 = true) log).
Definition count_all (f : logged -> bool) (log : list (nat * logged)) : nat := length (filter (fun e => f e.2 = true) log).

#[global] Arguments count : simpl never.
#[global] Arguments count_all : simpl never.

Definition is_ok_unit (r : result unit) : bool := is_ok r.
Definition code_issued (code : string) (e : logged) : bool :=
  match e with
  | Logged c a =>
      match c in call A return A -> bool with
      | CPutCode x _ => fun r => (x =? code) && is_ok_unit r
      | _ => fun _ => false
      end a
  end.
Definition code_redeemed (code : string) (e : logged) : bool :=
  match e with
  | Logged c a =>
      match c in call A return A -> bool with
      | CConsumeCode x => fun o => (x =? code) && bool_decide (is_Some o)
      | _ => fun _ => false
      end a
  end.

Definition rotated (r : result (option refreshGrant)) : bool := match r with Ok (Some _) => true | _ => false end.
Definition token_issued (token : string) (e : logged) : bool :=
  match e with
  | Logged c a =>
      match c in call A return A -> bool with
      | CPutRefresh x _ => fun r => (x =? token) && is_ok_unit r
      | CRotateRefresh _ x _ _ => fun r => (x =? token) && rotated r
      | _ => fun _ => false
      end a
  end.
Definition token_redeemed (token : string) (e : logged) : bool :=
  match e with
  | Logged c a =>
      match c in call A return A -> bool with
      | CConsumeRefresh x => fun r => (x =? token) && rotated r
      | CRotateRefresh x _ _ _ => fun r => (x =? token) && rotated r
      | _ => fun _ => false
      end a
  end.

Definition b2n (b : bool) : nat := if b then 1 else 0.

Lemma count_cons pid f q e log : count pid f ((q, e) :: log) = (b2n (bool_decide (q = pid) && f e) + count pid f log)%nat.
Proof.
  unfold count. rewrite filter_cons. cbn [fst snd]. destruct (decide (q = pid)) as [->|Hne].
  - rewrite bool_decide_true by done. destruct (f e) eqn:Ef; [rewrite decide_True by done|rewrite decide_False by naive_solver]; done.
  - rewrite bool_decide_false by done. rewrite decide_False by naive_solver. done.
Qed.
Lemma count_all_cons f q e log : count_all f ((q, e) :: log) = (b2n (f e) + count_all f log)%nat.
Proof.
  unfold count_all. rewrite filter_cons. cbn [snd]. destruct (f e) eqn:Ef; [rewrite decide_True by done|rewrite decide_False by naive_solver]; done.
Qed.

Section SingleUse.
Context {E : Environment} (tree : FS) (identity : string -> option Z) (cfg : Config).
#[local] Abbreviation stepped := (step tree identity cfg).

(** *** Codes *)
Definition holds_code (code : string) (σ : system) (pid : nat) : bool :=
  match sy_procs σ !! pid with Some pr => bool_decide (is_Some (codes (pr_store pr) !! code)) | None => false end.
Definition code_balance (code : string) (pid : nat) (σ : system) : Prop :=
  (count pid (code_redeemed code) (sy_log σ) + b2n (holds_code code σ pid) <= count pid (code_issued code) (sy_log σ))%nat.

Lemma code_entry_balance {A} (c : call A) (a : A) code m m' : codes_effect c m m' a ->
  (b2n (code_redeemed code (Logged c a)) + b2n (bool_decide (is_Some (m' !! code))) <=
   b2n (code_issued code (Logged c a)) + b2n (bool_decide (is_Some (m !! code))))%nat.
Proof.
  intros He. destruct c; cbn [codes_effect code_redeemed code_issued b2n] in *; try (rewrite He; lia).
  - destruct a as [x|e]; cbn [is_ok_unit is_ok]; rewrite ?andb_true_r, ?andb_false_r; subst m'; [|lia].
    destruct (decide (code0 = code)) as [->|Hne]; [rewrite lookup_insert_eq; cbn; rewrite !bool_decide_true by done; cbn; lia|].
    rewrite lookup_insert_ne by done. rewrite (bool_decide_false (code0 = code)) by done. cbn. lia.
  - destruct a as [k|]; [destruct He as [Hk ->]|].
    + rewrite (bool_decide_true (is_Some (Some k))) by done. rewrite andb_true_r. destruct (decide (code0 = code)) as [->|Hne].
      * rewrite lookup_delete_eq, Hk. rewrite !bool_decide_true, bool_decide_false by (done || by intros []). cbn. lia.
      * rewrite lookup_delete_ne, (bool_decide_false (code0 = code)) by done. cbn. lia.
    + rewrite (bool_decide_false (is_Some None)) by (by intros []). rewrite andb_false_r. cbn.
      case_bool_decide as H1; [|cbn; lia]. case_bool_decide as H2; [cbn; lia|]. destruct H1 as [k H1].
      rewrite map_subseteq_spec in He. apply He in H1. destruct H2. by eexists.
Qed.

Lemma start_codes w : wp (NewProvider tree identity cfg) (fun _ w' => codes (store w') = ∅) (fun _ _ => True) w.
Proof.
  unfold NewProvider. do 6 (do 2 wp_step; [|done]). do 2 wp_step.
  assert (Hset : forall path f, (forall x, frame (fun _ => True) same_codes (f x)) -> frame (fun _ => True) same_codes (when_set path f)).
  { intros path f Hf. unfold when_set. destruct (TrimSpace path =? ""); [by apply frame_ret|done]. }
  match goal with |- wp ?m _ _ ?w => assert (Hk : frame (fun _ => True) same_codes m) end.
  { apply keeps_bind; [apply Hset, keeps_enableClients|intros _]. apply keeps_bind; [apply Hset, keeps_enableAccess|intros _].
    apply keeps_bind; [apply Hset, keeps_enableRefresh|intros _]. by apply frame_ret. }
  eapply wp_mono; [by apply Hk| |done]. intros p w' [_ Hs]. unfold same_codes in Hs. by rewrite Hs.
Qed.

Lemma code_step code pid σ ev : code_balance code pid σ -> code_balance code pid (stepped σ ev).
Proof.
  unfold code_balance. intros Hb. assert (Hle : (count pid (code_redeemed code) (sy_log σ) <= count pid (code_issued code) (sy_log σ))%nat) by lia.
  destruct ev as [q faults|q|q rid j|q rid faults]; cbn [step].
  - destruct (run _ _ _) as [[p|e] w] eqn:Er; cbn; unfold holds_code in *; cbn.
    + apply (wp_run _ _ _ _ _ _ _ (start_codes _)) in Er. destruct (decide (q = pid)) as [->|Hne].
      * rewrite lookup_insert_eq. cbn. rewrite Er, lookup_empty, bool_decide_false by (by intros []). cbn. lia.
      * by rewrite lookup_insert_ne by done.
    + destruct (decide (q = pid)) as [->|Hne]; [rewrite lookup_delete_eq; cbn; lia|by rewrite lookup_delete_ne by done].
  - cbn. unfold holds_code in *. cbn. destruct (decide (q = pid)) as [->|Hne]; [rewrite lookup_delete_eq; cbn; lia|by rewrite lookup_delete_ne by done].
  - destruct (sy_procs σ !! q) as [pr|] eqn:Epr; [|done]. unfold holds_code in *. cbn. destruct (decide (q = pid)) as [->|Hne].
    + rewrite lookup_insert_eq. cbn. by rewrite Epr in Hb.
    + by rewrite lookup_insert_ne by done.
  - destruct (sy_procs σ !! q) as [pr|] eqn:Epr; [|done]. destruct (pr_requests pr !! rid) as [[j [r|A c k]]|]; try done.
    destruct (run _ _ _) as [[a|e] w] eqn:Er; [|done]. apply (wp_run _ _ _ _ _ _ _ (exec_codes c _)) in Er. cbn [sy_log after].
    rewrite !count_cons. unfold holds_code in *. cbn [sy_procs after]. destruct (decide (q = pid)) as [->|Hne].
    + rewrite lookup_insert_eq, !bool_decide_true by done. cbn [andb pr_store]. rewrite Epr in Hb.
      pose proof (code_entry_balance c a code _ _ Er) as He. cbn [world store] in He. lia.
    + rewrite lookup_insert_ne by done. rewrite !(bool_decide_false (q = pid)) by done. cbn. lia.
Qed.

Lemma code_runs code pid evs σ : code_balance code pid σ -> code_balance code pid (runs tree identity cfg σ evs).
Proof. unfold runs. revert σ. induction evs as [|ev evs IH]; intros σ H; [done|]. cbn. by apply IH, code_step. Qed.

(** C9 An authorization code is redeemed at most once. In every execution (any
    interleaving of requests and processes, restarts and faults), the number of times a
    process hands out the grant of a code is at most the number of times it stored
    that code; in particular a code stored once is redeemed at most once, however many
    requests race for it, and never by another process or after a restart. *)
Theorem code_single_use code pid d evs :
  let log := sy_log (runs tree identity cfg (initial d) evs) in
  (count pid (code_redeemed code) log <= count pid (code_issued code) log)%nat.
Proof.
  intros log. assert (H : code_balance code pid (initial d)) by apply Nat.le_refl.
  apply (code_runs code pid evs) in H. unfold code_balance in H. fold log in H. lia.
Qed.
End SingleUse.

(** * Refresh tokens across processes *)
(** ** The tokens of a file *)
Definition tokens_in (body : string) : gset string :=
  match UnmarshalLoose c_refresh_file body with
  | Some doc => list_to_set (rs_Token <$> range (rf_Refresh doc))
  | None => ∅
  end.
Definition tokens (file : option string) : gset string := match file with Some body => tokens_in body | None => ∅ end.

Lemma loaded_token now body m t g : refresh_of_text now body = Some m -> m !! t = Some g -> t ∈ tokens_in body.
Proof.
  unfold refresh_of_text, tokens_in. intros (doc & -> & H)%bind_Some Hg. destruct (_ <>? _); [done|]. injection H as <-.
  apply load_refresh_from in Hg as [Hg|(r & Hr & <- & _)]; [by rewrite lookup_empty in Hg|].
  apply elem_of_list_to_set, list_elem_of_fmap. eauto.
Qed.

Lemma written_tokens m : map_Forall refresh_text m -> encodable (c_to c_refresh_file (refresh_file m)) = true ->
  tokens_in (MarshalIndent c_refresh_file (refresh_file m)) = dom m.
Proof.
  intros Hm He. unfold tokens_in. rewrite refresh_file_decodes by done. apply set_eq. intros t. cbn. rewrite elem_of_list_to_set, list_elem_of_fmap, elem_of_dom. split.
  - intros (r & -> & Hr%refresh_record_of). by eexists.
  - intros [g Hg]. exists (refresh_record (t, g)). split; [done|]. apply refresh_record_of. cbn. rewrite Hg. by destruct g.
Qed.

Section File.
Context {E : Environment} (P : Paths) (distinct : paths_distinct P) (persisted : p_refresh P <> "").
Implicit Types (w : World).

(** The file is absent only while the memory is empty; every entry is text. *)
Record ready w : Prop := {
  rd_paths : paths_of P (store w);
  rd_memory : map_Forall refresh_text (refresh (store w));
  rd_file : forall body now m, disk w !! p_refresh P = Some body -> refresh_of_text now body = Some m -> map_Forall refresh_text m;
  rd_absent : disk w !! p_refresh P = None -> refresh (store w) = ∅ }.

Definition file_of w : gset string := tokens (disk w !! p_refresh P).

(** *** Methods that leave the tokens alone *)
Definition same_refresh w w' : Prop := refresh (store w') = refresh (store w) /\ disk w' !! p_refresh P = disk w !! p_refresh P.
#[local] Abbreviation leaves := (frame (fun w => paths_of P (store w)) same_refresh).

Lemma same_refresh_refl w : same_refresh w w.
Proof. done. Qed.
Lemma same_refresh_trans a b c : same_refresh a b -> same_refresh b c -> same_refresh a c.
Proof. unfold same_refresh. intros [? ?] [? ?]. split; congruence. Qed.

Lemma leaves_bind {A B} (m : M World A) (k : A -> M World B) : leaves m -> (forall a, leaves (k a)) -> leaves (mbind m k).
Proof. apply frame_bind, same_refresh_trans. Qed.
Lemma leaves_on_error {A} (m : M World A) undo : leaves m -> leaves undo -> leaves (on_error m undo).
Proof. apply frame_on_error; [done|apply same_refresh_trans]. Qed.
Lemma leaves_Now : leaves Now.
Proof. intros w Hw. by apply wp_Now. Qed.
Lemma leaves_rand : leaves randToken.
Proof. intros w Hw. by apply wp_rand. Qed.

Lemma leaves_persistClients : leaves persistClientsLocked.
Proof.
  intros w Hw. apply wp_persistClients; [done| |done]. intros Hne _. pose proof Hw as (Ec & _). rewrite Ec in *. split; [done|]. split; [done|].
  cbn. rewrite lookup_insert_ne; [done|]. by apply distinct.
Qed.
Lemma leaves_persistAccess : leaves persistAccessLocked.
Proof.
  intros w Hw. apply wp_persistAccess; [done| |done]. intros Hne _. pose proof Hw as (_ & Ea & _). rewrite Ea in *. split; [done|]. split; [done|].
  cbn. rewrite lookup_insert_ne; [done|]. by apply distinct.
Qed.

Ltac leave_with tac :=
  repeat lazymatch goal with
  | |- forall _, _ => intros
  | |- frame _ _ persistClientsLocked => apply leaves_persistClients
  | |- frame _ _ persistAccessLocked => apply leaves_persistAccess
  | |- frame _ _ (mbind _ _) => apply leaves_bind
  | |- frame _ _ (on_error _ _) => apply leaves_on_error
  | |- frame _ _ (mtry _) => apply frame_try
  | |- frame _ _ (withAccessStoreFileLock _ _) => apply frame_lock; [exact same_refresh_refl|]
  | |- frame _ _ (match ?o with _ => _ end) => destruct o
  | |- frame _ _ Now => apply leaves_Now
  | |- frame _ _ randToken => apply leaves_rand
  | |- frame _ _ (mret _) => apply frame_ret; exact same_refresh_refl
  | |- frame _ _ (mfail _) => apply frame_fail; exact same_refresh_refl
  | |- frame _ _ (mguard _ _) => apply frame_guard; exact same_refresh_refl
  | |- frame _ _ (mlift _) => apply frame_lift; exact same_refresh_refl
  | |- frame _ _ self => apply frame_self; exact same_refresh_refl
  | |- frame _ _ (ReadFile _) => apply frame_read; exact same_refresh_refl
  | |- frame _ _ (modify _) => apply frame_modify; done
  | |- _ => tac
  end.
Ltac leave := leave_with fail.

Lemma leaves_loadAccess : leaves loadAccessLocked.
Proof. unfold loadAccessLocked. leave. Qed.
Lemma leaves_reloadAccess : leaves reloadAccess.
Proof. unfold reloadAccess. leave_with ltac:(apply leaves_loadAccess). Qed.

(** *** The file lock, the reload and the write *)
Lemma ready_same w w' : ready w -> paths_of P (store w') -> same_refresh w w' -> ready w'.
Proof.
  intros [H1 H2 H3 H4] Hp [Hr Hd]. split; rewrite ?Hr, ?Hd; done.
Qed.

Lemma reload_tokens w (Q : unit -> World -> Prop) X : ready w ->
  (forall w', ready w' -> disk w' = disk w -> access (store w') = access (store w) -> dom (refresh (store w')) ⊆ file_of w -> Q tt w') -> (forall e, X e w) -> wp reloadRefresh Q X w.
Proof.
  intros Hw HQ HX. pose proof Hw as [(? & ? & Ep) Hm Hf Ha]. apply wp_reloadRefresh; [| |done].
  - rewrite Ep. intros [He0|Hn]; [by destruct persisted|]. apply HQ; [done|done|done|]. rewrite Ha by done. rewrite dom_empty_L. set_solver.
  - rewrite Ep. intros _ body m Hb Hl. apply HQ; [|done|done|].
    + split; [done|by eapply Hf|exact Hf|]. cbn. congruence.
    + cbn. intros t [g Hg]%elem_of_dom. unfold file_of, tokens. rewrite Hb. by eapply loaded_token.
Qed.

Lemma persist_tokens w (Q : unit -> World -> Prop) X : paths_of P (store w) -> map_Forall refresh_text (refresh (store w)) ->
  (forall w', paths_of P (store w') -> store w' = store w -> file_of w' = dom (refresh (store w)) -> disk w' !! p_refresh P <> None ->
    ready w' -> Q tt w') ->
  (forall e, X e w) -> wp persistRefreshLocked Q X w.
Proof.
  intros Hp Hm HQ HX. pose proof Hp as (? & ? & Ep). apply wp_persistRefresh; rewrite Ep; [done| |done]. intros _ He.
  assert (Hl : disk (with_disk (<[p_refresh P := MarshalIndent c_refresh_file (refresh_file (refresh (store w)))]> (disk w)) w) !! p_refresh P =
    Some (MarshalIndent c_refresh_file (refresh_file (refresh (store w))))) by (cbn [disk with_disk]; apply lookup_insert_eq).
  pose proof (fun now m => persisted_refresh refresh_text (fun _ _ h => h) _ now m Hm He) as Hback.
  pose proof (written_tokens _ Hm He) as Htok. revert Hl Hback Htok. generalize (MarshalIndent c_refresh_file (refresh_file (refresh (store w)))).
  intros body Hl Hback Htok. apply HQ; [exact Hp|reflexivity|unfold file_of; by rewrite Hl|by rewrite Hl|].
  split; [exact Hp|exact Hm| |by rewrite Hl]. intros b now m. rewrite Hl. intros [= <-]. apply Hback.
Qed.

(** ** The effect of a call *)
Definition refresh_effect {A} (c : call A) (T T' : gset string) : A -> Prop :=
  match c with
  | CPutRefresh x _ => fun r => match r with Ok _ => T' ⊆ {[x]} ∪ T | Err _ => T' ⊆ T end
  | CConsumeRefresh x => fun r => if rotated r then x ∈ T /\ T' ⊆ T ∖ {[x]} else T' ⊆ T
  | CRotateRefresh old new _ _ => fun r => if rotated r then old ∈ T /\ old <> new /\ T' ⊆ {[new]} ∪ T ∖ {[old]} else T' ⊆ T
  | _ => fun _ => T' = T
  end.

(** A file stays, and is absent only while nothing is in memory. *)
Definition still_ready w w' : Prop := disk w' !! p_refresh P = None -> disk w !! p_refresh P = None /\ refresh (store w') = ∅.

Lemma putRefresh_tokens x g w : ready w -> refresh_text x g ->
  wp (putRefresh x g) (fun _ w' => file_of w' ⊆ {[x]} ∪ file_of w /\ still_ready w w') (fun _ w' => file_of w' ⊆ file_of w /\ still_ready w w') w.
Proof.
  intros Hw Hg. assert (Hsame : file_of w ⊆ file_of w /\ still_ready w w) by (split; [done|]; intros Hn; split; [done|by apply (rd_absent _ Hw)]).
  unfold putRefresh. do 2 wp_step. wp_step; [|done]. wp_step. apply reload_tokens; [done| |done]. intros w1 Hw1 Hd1 _ Hsub.
  do 2 wp_step. wp_step. apply persist_tokens.
  - apply Hw1.
  - apply map_Forall_insert_2; [done|apply Hw1].
  - intros w2 _ Hs Hf Hne _. rewrite Hf. cbn. rewrite dom_insert_L. split; [set_solver|]. intros Hn. by destruct Hne.
  - intros e. wp_step. cbn. split; [unfold file_of; cbn; by rewrite Hd1|]. intros Hn. cbn in Hn. rewrite Hd1 in Hn. split; [done|]. cbn.
    rewrite (rd_absent _ Hw1) by (by rewrite Hd1). by rewrite delete_insert_eq, delete_empty.
Qed.

Lemma consumeRefresh_tokens x w : ready w ->
  wp (consumeRefresh x) (fun o w' => refresh_effect (CConsumeRefresh x) (file_of w) (file_of w') (Ok o) /\ still_ready w w')
    (fun _ w' => file_of w' ⊆ file_of w /\ still_ready w w') w.
Proof.
  intros Hw. assert (Hsame : file_of w ⊆ file_of w /\ still_ready w w) by (split; [done|]; intros Hn; split; [done|by apply (rd_absent _ Hw)]).
  unfold consumeRefresh. wp_step; [by apply wp_ret|]. do 2 wp_step. wp_step; [|done]. wp_step. apply reload_tokens; [done| |done]. intros w1 Hw1 Hd1 _ Hsub.
  assert (Hsame1 : file_of w1 = file_of w) by (unfold file_of; by rewrite Hd1).
  do 2 wp_step. destruct (refresh (store w1) !! x) as [g|] eqn:Eg.
  - assert (Hx : x ∈ file_of w) by (apply Hsub, elem_of_dom; eauto).
    assert (Hne1 : disk w1 !! p_refresh P <> None) by (intros Hn; apply (rd_absent _ Hw1) in Hn; by rewrite Hn, lookup_empty in Eg).
    do 2 wp_step. wp_step. wp_step. apply persist_tokens; [apply Hw1|apply map_Forall_delete, Hw1| |].
    + intros w2 _ Hs Hf Hne _. do 2 wp_step. cbn in Hf. rewrite dom_delete_L in Hf.
      wp_step; apply wp_ret; (split; [|by intros Hn; destruct Hne]); cbn [refresh_effect rotated]; change (file_of (tick w2)) with (file_of w2); set_solver.
    + intros e. wp_step. split; [change (file_of w1 ⊆ file_of w); by rewrite Hsame1|]. intros Hn. by destruct Hne1.
  - apply wp_ret. cbn [refresh_effect rotated]. rewrite Hsame1. split; [done|]. intros Hn. rewrite Hd1 in Hn. split; [done|]. apply (rd_absent _ Hw1). by rewrite Hd1.
Qed.

Lemma rotateRefresh_tokens old new acc now w : ready w -> (forall g, refresh_text old g -> refresh_text new (rotated_refresh g now)) ->
  wp (rotateRefresh old new acc now) (fun o w' => refresh_effect (CRotateRefresh old new acc now) (file_of w) (file_of w') (Ok o) /\ still_ready w w')
    (fun _ w' => file_of w' ⊆ file_of w /\ still_ready w w') w.
Proof.
  intros Hw Hnew. assert (Hsame : forall w1, ready w1 -> disk w1 !! p_refresh P = disk w !! p_refresh P -> file_of w1 ⊆ file_of w /\ still_ready w w1).
  { intros w1 Hw1 Hd. unfold file_of. rewrite Hd. split; [done|]. intros Hn. rewrite Hd in Hn. split; [done|]. apply (rd_absent _ Hw1). by rewrite Hd. }
  unfold rotateRefresh. wp_step; [apply wp_ret; cbn [refresh_effect rotated]; auto|]. do 2 wp_step. wp_step; [|by apply Hsame]. wp_step; [|by apply Hsame].
  unfold rotateLocked. wp_step. eapply wp_mono; [apply leaves_reloadAccess, Hw| |].
  2: { intros e w1 [Hp1 Hs1]. apply Hsame; [by eapply ready_same|apply Hs1]. }
  intros _ w1 [Hp1 Hs1]. assert (Hw1 : ready w1) by (by eapply ready_same). wp_step. apply reload_tokens; [done| |intros e; apply Hsame; [done|apply Hs1]].
  intros w2 Hw2 Hd2 _ Hsub. assert (Hd2' : disk w2 !! p_refresh P = disk w !! p_refresh P) by (rewrite Hd2; apply Hs1).
  assert (Hf2 : file_of w1 = file_of w) by (unfold file_of; by rewrite (proj2 Hs1)). rewrite Hf2 in Hsub.
  do 2 wp_step. destruct (refresh (store w2) !! old) as [g|] eqn:Eg; [|apply wp_ret; cbn [refresh_effect rotated]; by apply Hsame].
  assert (Hx : old ∈ file_of w) by (apply Hsub, elem_of_dom; eauto).
  assert (Hne2 : disk w2 !! p_refresh P <> None) by (intros Hn; apply (rd_absent _ Hw2) in Hn; by rewrite Hn, lookup_empty in Eg).
  assert (Hfail : forall w', disk w' !! p_refresh P = disk w2 !! p_refresh P -> file_of w' ⊆ file_of w /\ still_ready w w').
  { intros w' Hd. split; [unfold file_of; by rewrite Hd, Hd2'|]. intros Hn. by rewrite Hd in Hn. }
  wp_step.
  - do 2 wp_step. wp_step. wp_step. apply persist_tokens; [apply Hw2|apply map_Forall_delete, Hw2| |].
    + intros w3 _ Hs Hf Hne _. apply wp_ret. cbn [refresh_effect rotated]. cbn in Hf. rewrite dom_delete_L in Hf. split; [set_solver|]. by intros Hn; destruct Hne.
    + intros e. wp_step. by apply Hfail.
  - do 2 wp_step; [|by apply Hfail]. apply bool_decide_eq_false in H. assert (Hdiff : old <> new) by (intros <-; apply H; eauto).
    do 2 wp_step. do 2 wp_step. do 2 wp_step; [|by apply Hfail]. do 2 wp_step; [|by apply Hfail]. do 2 wp_step. do 2 wp_step. do 2 wp_step.
    wp_step. unfold persistRotation. wp_step. wp_step.
    match goal with |- wp _ _ _ ?w => set (w3 := w) end.
    assert (Hp3 : paths_of P (store w3)) by apply Hw2.
    assert (Hm3 : map_Forall refresh_text (refresh (store w3))).
    { cbn. apply map_Forall_insert_2; [apply Hnew; by apply (rd_memory _ Hw2)|apply map_Forall_delete, Hw2]. }
    eapply wp_mono; [by apply leaves_persistAccess| |].
    + intros _ w4 [Hp4 [Hr4 Hd4]]. wp_step. apply persist_tokens; [done|by rewrite Hr4| |].
      * intros w5 _ Hs Hf Hne _. apply wp_ret. cbn [refresh_effect rotated]. rewrite Hr4 in Hf. cbn in Hf. rewrite dom_insert_L, dom_delete_L in Hf.
        rewrite Hf. split; [|by intros Hn; destruct Hne]. split_and!; [exact Hx|exact Hdiff|]. clear -Hsub. set_solver.
      * intros e. do 2 wp_step. eapply wp_mono; [apply leaves_persistAccess, Hp4|..]; intros ? w6 [_ [_ Hd6]]; apply Hfail; rewrite Hd6; exact Hd4.
    + intros e w4 [Hp4 [Hr4 Hd4]]. wp_step. apply Hfail. exact Hd4.
Qed.

(** Every call but the console's revocation. *)
Definition no_revocation {A} (c : call A) : Prop := match c with CRevokeRefresh _ => False | _ => True end.
Definition refresh_args {A} (c : call A) : Prop :=
  match c with
  | CPutRefresh x g => refresh_text x g
  | CRotateRefresh old new _ now => forall g, refresh_text old g -> refresh_text new (rotated_refresh g now)
  | _ => True
  end.

Lemma exec_tokens {A} (c : call A) w : ready w -> refresh_args c -> no_revocation c ->
  wp (exec c) (fun a w' => refresh_effect c (file_of w) (file_of w') a /\ still_ready w w') (fun _ _ => True) w.
Proof.
  intros Hw Hargs Hrev.
  assert (Hframe : leaves (exec c) -> (forall a T, refresh_effect c T T a) ->
    wp (exec c) (fun a w' => refresh_effect c (file_of w) (file_of w') a /\ still_ready w w') (fun _ _ => True) w).
  { intros Hk Hc. eapply wp_mono; [apply Hk, Hw| |done]. intros a w' [_ [Hr Hd]]. unfold file_of. rewrite Hd. split; [apply Hc|].
    intros Hn. rewrite Hd in Hn. split; [done|]. rewrite Hr. by apply (rd_absent _ Hw). }
  destruct c; try (apply Hframe; [|done]; cbn [exec];
    unfold registerClient, getClient, ensureFixedClient, putCode, consumeCode, passphraseThrottled, recordPassphraseFailure, resetPassphraseFailures,
      pruneFailuresLocked, add_failure, putAccess, getAccess, revokeAccess, pruneAccessLocked, set_access, drop_access;
    leave_with ltac:(first [apply leaves_reloadAccess | apply leaves_loadAccess])); try done; cbn [exec].
  - apply wp_try. eapply wp_mono; [by apply putRefresh_tokens|done|done].
  - apply wp_try. eapply wp_mono; [by apply consumeRefresh_tokens|done|done].
  - apply wp_try. eapply wp_mono; [by apply rotateRefresh_tokens|done|done].
Qed.
End File.

(** ** Over every execution *)
Section Executions.
Context {E : Environment} (tree : FS) (identity : string -> option Z) (cfg : Config).
Context (distinct : paths_distinct (paths cfg)) (persisted : p_refresh (paths cfg) <> "").
#[local] Abbreviation refresh_path := (p_refresh (paths cfg)).

Definition token_balance (token : string) (σ : system) : Prop :=
  (count_all (token_redeemed token) (sy_log σ) + b2n (bool_decide (token ∈ tokens (sy_disk σ !! refresh_path))) <= count_all (token_issued token) (sy_log σ))%nat.
Definition absent_empty (σ : system) : Prop :=
  sy_disk σ !! refresh_path = None -> forall pid pr, sy_procs σ !! pid = Some pr -> refresh (pr_store pr) = ∅.

(** The log entry of a revocation by the console. *)
Definition revocation (e : logged) : bool :=
  match e with Logged c _ => match c with CRevokeRefresh _ => true | _ => false end end.

Lemma token_entry_balance {A} (c : call A) (a : A) token (T T' : gset string) : refresh_effect c T T' a ->
  (b2n (token_redeemed token (Logged c a)) + b2n (bool_decide (token ∈ T')) <= b2n (token_issued token (Logged c a)) + b2n (bool_decide (token ∈ T)))%nat.
Proof.
  assert (Hmono : (token ∈ T' -> token ∈ T) -> (b2n (bool_decide (token ∈ T')) <= b2n (bool_decide (token ∈ T)))%nat).
  { intros H. case_bool_decide as H1; [|cbn; lia]. by rewrite bool_decide_true by auto. }
  intros He. destruct c; cbn [refresh_effect token_redeemed token_issued b2n] in *; try (rewrite He; lia).
  - destruct a as [x|e]; cbn [is_ok_unit is_ok]; rewrite ?andb_true_r, ?andb_false_r; cbn [b2n]; [|by apply Hmono, elem_of_subseteq].
    destruct (bool_decide_reflect (token0 = token)) as [->|Hne]; cbn [b2n]; [destruct (bool_decide (token ∈ T')); cbn; lia|].
    case_bool_decide as H1; [|cbn; lia]. rewrite bool_decide_true by set_solver. done.
  - destruct (rotated a) eqn:Er; rewrite ?andb_true_r, ?andb_false_r; cbn [b2n]; [|by apply Hmono, elem_of_subseteq]. destruct He as [Hx Hs].
    destruct (bool_decide_reflect (token0 = token)) as [->|Hne]; cbn [b2n].
    + rewrite (bool_decide_false (token ∈ T')) by set_solver. rewrite bool_decide_true by done. cbn. lia.
    + apply Hmono. set_solver.
  - destruct (rotated a) eqn:Er; rewrite ?andb_true_r, ?andb_false_r; cbn [b2n]; [|by apply Hmono, elem_of_subseteq]. destruct He as (Hx & Hd & Hs).
    destruct (bool_decide_reflect (newToken = token)) as [->|Hne]; cbn [b2n].
    + rewrite (bool_decide_false (oldToken = token)) by done. cbn [b2n]. destruct (bool_decide (token ∈ T')); cbn; lia.
    + destruct (bool_decide_reflect (oldToken = token)) as [->|Hne2]; cbn [b2n]; [|apply Hmono; clear -Hs Hne; set_solver].
      rewrite (bool_decide_false (token ∈ T')) by set_solver. rewrite bool_decide_true by done. cbn. lia.
Qed.

(** A new process has in memory what the file holds. *)
Lemma start_refresh w : wp (NewProvider tree identity cfg) (fun _ w' =>
    match disk w !! refresh_path with
    | None => refresh (store w') = ∅
    | Some body => exists n, refresh_of_text (clock n) body = Some (refresh (store w'))
    end) (fun _ _ => True) w.
Proof.
  set (same := fun a b : World => refresh (store b) = refresh (store a) /\ disk b = disk a).
  assert (Hrefl : forall a, same a a) by done.
  assert (Htrans : forall a b c, same a b -> same b c -> same a c) by (unfold same; intros ? ? ? [? ?] [? ?]; split; congruence).
  assert (HC : frame (fun _ => True) same (when_set (ClientStorePath cfg) enableClientPersistence)).
  { unfold when_set. destruct (TrimSpace _ =? ""); [by apply frame_ret|]. unfold enableClientPersistence. apply frame_bind; [done|by apply frame_lift|].
    intros path. apply frame_bind; [done|by apply frame_modify|]. intros _ w0 _. by apply wp_loadClients. }
  assert (HA : frame (fun _ => True) same (when_set (AccessStorePath cfg) enableAccessPersistence)).
  { unfold when_set. destruct (TrimSpace _ =? ""); [by apply frame_ret|]. unfold enableAccessPersistence. apply frame_bind; [done|by apply frame_lift|].
    intros path. apply frame_bind; [done|by apply frame_modify|]. intros _. apply frame_lock; [done|]. intros w0 _. by apply wp_loadAccess. }
  unfold NewProvider. do 6 (do 2 wp_step; [|done]). do 2 wp_step. wp_step. eapply wp_mono; [by apply HC| |done]. intros _ w1 [_ [Hr1 Hd1]].
  wp_step. eapply wp_mono; [by apply HA| |done]. intros _ w2 [_ [Hr2 Hd2]]. wp_step. cbn in Hr1, Hd1. rewrite Hr1 in Hr2. rewrite Hd1 in Hd2.
  assert (Hpath : refresh_path = Clean (RefreshStorePath cfg) /\ TrimSpace (RefreshStorePath cfg) <> "").
  { unfold paths, enabled_path in persisted |- *. cbn [p_refresh] in *. destruct (bool_decide_reflect (TrimSpace (RefreshStorePath cfg) = "")); [by destruct persisted|done]. }
  destruct Hpath as [Hpath Hts]. unfold when_set. rewrite (bool_decide_false (TrimSpace (RefreshStorePath cfg) = "")) by done.
  unfold enableRefreshPersistence. do 2 wp_step; [|done]. match goal with H : store_path _ = Ok _ |- _ => apply store_path_ok in H as [-> _] end.
  do 2 wp_step. cbn in Hd2. apply wp_loadRefresh; cbn [disk store with_store with_refreshStorePath refreshStorePath]; rewrite ?Hd2, <- ?Hpath; [intros ->; by apply wp_ret| |done].
  intros body m -> Hm. apply wp_ret. cbn in Hm. eauto.
Qed.

Lemma ready_world σ pid pr : sys_ok cfg client_entry (code_entry (fun _ => True)) (access_entry (fun _ => True)) (refresh_entry (fun _ => True))
    (allowed (fun _ => True)) σ -> absent_empty σ -> sy_procs σ !! pid = Some pr -> ready (paths cfg) (world σ (pr_store pr)).
Proof.
  intros Hs Ha Hpr. destruct (so_procs _ _ _ _ _ _ _ Hs pid pr Hpr) as (_ & Hp & [_ _ _ HR _ _] & _). split; [done| | |].
  - intros t g Hg. by apply HR.
  - intros body now m Hb Hm t g Hg. by apply (fo_refresh _ _ _ _ _ (so_files _ _ _ _ _ _ _ Hs) body now m persisted Hb Hm).
  - intros Hn. by eapply Ha.
Qed.

Lemma token_step token σ ev :
  sys_ok cfg client_entry (code_entry (fun _ => True)) (access_entry (fun _ => True)) (refresh_entry (fun _ => True)) (allowed (fun _ => True)) σ ->
  Forall (fun e => revocation e.2 = false) (sy_log (step tree identity cfg σ ev)) ->
  token_balance token σ /\ absent_empty σ -> token_balance token (step tree identity cfg σ ev) /\ absent_empty (step tree identity cfg σ ev).
Proof.
  intros Hs Hlog [Hb Ha]. destruct ev as [q faults|q|q rid j|q rid faults]; cbn [step] in *.
  - pose proof (start_ok tree identity cfg client_entry (code_entry (fun _ => True)) (access_entry (fun _ => True)) (refresh_entry (fun _ => True))
      (world σ newTokenStore) (so_files _ _ _ _ _ _ _ Hs)) as Hok. pose proof (start_refresh (world σ newTokenStore)) as Hr.
    destruct (run _ _ _) as [[p|e] w] eqn:Er; apply (wp_run _ _ _ _ _ _ _ Hok) in Er as Ho; apply (wp_run _ _ _ _ _ _ _ Hr) in Er; cbn in *.
    + destruct Ho as (_ & _ & _ & Hd). split; [unfold token_balance in *; cbn; by rewrite Hd|]. intros Hn pid pr Hpr. cbn in Hn, Hpr. rewrite Hd in Hn.
      apply lookup_insert_Some in Hpr as [[_ <-]|[_ Hpr]]; [by rewrite Hn in Er|by eapply Ha].
    + split; [unfold token_balance in *; cbn; by rewrite Ho|]. intros Hn pid pr Hpr. cbn in Hn, Hpr. rewrite Ho in Hn.
      apply lookup_delete_Some in Hpr as [_ Hpr]. by eapply Ha.
  - split; [done|]. intros Hn pid pr Hpr. cbn in Hpr. apply lookup_delete_Some in Hpr as [_ Hpr]. by eapply Ha.
  - destruct (sy_procs σ !! q) as [pr|] eqn:Epr; [|done]. split; [done|]. intros Hn pid pr' Hpr. cbn in Hpr.
    apply lookup_insert_Some in Hpr as [[_ <-]|[_ Hpr]]; [cbn|]; by eapply Ha.
  - destruct (sy_procs σ !! q) as [pr|] eqn:Epr; [|done]. pose proof (ready_world σ q pr Hs Ha Epr) as Hready.
    destruct (so_procs _ _ _ _ _ _ _ Hs q pr Epr) as (_ & _ & _ & Hreq). destruct (pr_requests pr !! rid) as [[j [r|A c k]]|] eqn:Ereq; try done.
    destruct (Hreq _ _ Ereq) as [Hc _]. destruct (run _ _ _) as [[a|e] w] eqn:Er; [|done]. cbn [sy_log after] in *.
    apply Forall_cons in Hlog as [Hrev _]. cbn [snd] in Hrev.
    assert (Hargs : refresh_args c) by (destruct c; try done; [apply Hc|intros g Hg; destruct (Hc g) as [_ [? _]]; [by split|done]]).
    assert (Hnr : no_revocation c) by (by destruct c).
    apply (wp_run _ _ _ _ _ _ _ (exec_tokens (paths cfg) distinct persisted c _ Hready Hargs Hnr)) in Er. destruct Er as [He Hst]. split.
    + unfold token_balance in *. cbn [sy_log sy_disk after]. rewrite !count_all_cons.
      pose proof (token_entry_balance c a token _ _ He) as Hx. unfold file_of in Hx. cbn [world disk] in Hx. lia.
    + intros Hn pid pr' Hpr. destruct (Hst Hn) as [Hn0 Hempty]. cbn in Hpr. apply lookup_insert_Some in Hpr as [[_ <-]|[_ Hpr]]; [done|by eapply Ha].
Qed.

Lemma log_suffix σ ev : exists l, sy_log (step tree identity cfg σ ev) = l ++ sy_log σ.
Proof.
  destruct ev as [q faults|q|q rid j|q rid faults]; cbn [step]; repeat case_match; cbn; try (by exists []); by eexists [_].
Qed.

(** C8 A refresh token is redeemed at most once. In every execution of processes that
    share a refresh store file (which does not exist at first), over any interleaving
    of requests, restarts and failures of the file system, and as long as the console
    revokes no refresh token: the number of successful redemptions of a token, in all
    processes together, is at most the number of times it was issued. Two processes
    never both exchange the same token, and a restart never revives one. *)
Theorem refresh_single_use token d evs :
  no_stores cfg d -> text (issuer (provider cfg)) -> text (resource (provider cfg)) ->
  let log := sy_log (runs tree identity cfg (initial d) evs) in
  Forall (fun e => revocation e.2 = false) log ->
  (count_all (token_redeemed token) log <= count_all (token_issued token) log)%nat.
Proof.
  intros Hd Hi Hr log Hlog. assert (H : token_balance token (runs tree identity cfg (initial d) evs) /\ absent_empty (runs tree identity cfg (initial d) evs)).
  { unfold log in Hlog. clear log. induction evs as [|ev evs IH] using rev_ind.
    - split; [|by intros _ pid pr]. unfold token_balance, runs. cbn [fold_left initial sy_log sy_disk]. destruct Hd as (_ & _ & ->). apply Nat.le_refl.
    - unfold runs in *. rewrite fold_left_app in *. cbn [fold_left] in *. apply token_step.
      + exact (execution_ok_for tree identity cfg (fun _ => True) d evs distinct Hd Hi Hr (fun _ _ => I)).
      + exact Hlog.
      + apply IH. destruct (log_suffix (fold_left (step tree identity cfg) evs (initial d)) ev) as [l El]. rewrite El in Hlog. by apply Forall_app in Hlog as [_ ?]. }
  destruct H as [H _]. unfold token_balance in H. fold log in H. lia.
Qed.
End Executions.
