(* ===== verification/OAuthThrottle.v ===== *)
(** * OAuth: the passphrase throttle

    What the throttle promises when logins do not overlap: of any six wrong guesses in a
    row, the last comes at least a minute after the first, whichever clients they were
    made for and whatever else the process does in between.  Overlapping logins escape
    it, since the check and the recording are two separate methods. *)

From S2P Require Import Prelude Effects GoStrings GoRegexp GoJson GoTime GoReflect GoRecord Sha256 GoPath GoUrl OAuthTypes OAuthStore OAuthProvider OAuthFacts OAuthInv OAuthSystem OAuthSafety OAuthSingle.

#[local] Abbreviation global := passphraseGlobalKey.

Section Throttle.
Context {E : Environment}.

(** ** The global bucket *)
(** The wrong guesses so far, oldest first: the bucket keeps the recent ones, those it
    dropped are a window older than some reading of the clock, and any guess is a window
    later than the fifth before it. *)
Record bucket_ok (guesses : list time) (w : World) : Prop := {
  bk_recent : exists k, failures (store w) global = drop k guesses /\
    forall t, t ∈ take k guesses -> exists n, (n < ticks w)%nat /\ passphraseWindow <= TimeSub (clock n) t;
  bk_past : forall t, t ∈ guesses -> exists n, (n < ticks w)%nat /\ t = clock n;
  bk_sorted : forall i a b, guesses !! i = Some a -> guesses !! S i = Some b -> a <= b;
  bk_spaced : forall i a b, guesses !! i = Some a -> guesses !! (i + maxPassphraseFailures)%nat = Some b -> passphraseWindow <= TimeSub b a;
  bk_key : clients (store w) !! global = None }.

Definition no_global (w : World) : Prop := clients (store w) !! global = None.
Definition bucket_same (w w' : World) : Prop := failures (store w') global = failures (store w) global /\ (ticks w <= ticks w')%nat.

Lemma bucket_frame guesses w w' : bucket_ok guesses w -> no_global w' -> bucket_same w w' -> bucket_ok guesses w'.
Proof.
  intros [(k & Hk & Hold) Hp Ho Hs _] Hc [Hf Ht]. split; [|intros t (n & ? & ?)%Hp; exists n; split; [lia|done]|done|done|done].
  exists k. rewrite Hf. split; [done|]. intros t (n & ? & ?)%Hold. exists n. split; [lia|done].
Qed.

(** What [recent] keeps of a sorted list is a suffix of it. *)
Lemma filter_all (Q : time -> Prop) `{!forall t, Decision (Q t)} l : Forall Q l -> filter Q l = l.
Proof. induction 1 as [|t l Ht _ IH]; [done|]. by rewrite filter_cons_True, IH. Qed.

Lemma recent_suffix now l : (forall i a b, l !! i = Some a -> l !! S i = Some b -> a <= b) ->
  exists k, recent passphraseWindow now l = drop k l /\ forall t, t ∈ take k l -> passphraseWindow <= TimeSub now t.
Proof.
  unfold recent. induction l as [|a l IH]; intros Hsorted.
  - exists 0%nat. split; [done|]. intros t Ht. by apply elem_of_nil in Ht.
  - destruct IH as (k & Hk & Hold); [intros i x y Hx Hy; by apply (Hsorted (S i) x y)|].
    destruct (decide (TimeSub now a < passphraseWindow)) as [Hlt|Hge].
    + exists 0%nat. split; [|intros t Ht; by apply elem_of_nil in Ht]. cbn [drop]. apply filter_all.
      clear -Hsorted Hlt. constructor; [done|]. revert a Hlt Hsorted. induction l as [|b l IH]; intros a Hlt Hs; [constructor|].
      assert (a <= b) by (by apply (Hs 0%nat)). assert (Hb : TimeSub now b < passphraseWindow) by (unfold TimeSub in *; lia).
      constructor; [done|]. apply (IH b Hb). intros i x y Hx Hy. by apply (Hs (S i) x y).
    + exists (S k). rewrite filter_cons_False by done. cbn [drop take]. split; [done|]. intros t [->|Ht]%elem_of_cons; [lia|by apply Hold].
Qed.

Lemma failures_insert id l s : failures (with_failTimes (<[id := l]> (failTimes s)) s) global = if bool_decide (id = global) then l else failures s global.
Proof. unfold failures. cbn. case_bool_decide as H; [by rewrite H, lookup_insert_eq|by rewrite lookup_insert_ne]. Qed.
Lemma failures_delete id s : failures (with_failTimes (delete id (failTimes s)) s) global = if bool_decide (id = global) then [] else failures s global.
Proof. unfold failures. cbn. case_bool_decide as H; [by rewrite H, lookup_delete_eq|by rewrite lookup_delete_ne]. Qed.

Lemma pruned_failures now id s : failures (with_failTimes (match recent passphraseWindow now (failures s id) with
    | [] => delete id (failTimes s) | _ :: _ => <[id := recent passphraseWindow now (failures s id)]> (failTimes s) end) s) global =
  if bool_decide (id = global) then recent passphraseWindow now (failures s global) else failures s global.
Proof.
  destruct (recent passphraseWindow now (failures s id)) as [|t l] eqn:Er; [rewrite failures_delete|rewrite failures_insert];
    case_bool_decide as H; [subst|done|subst|done]; by rewrite Er.
Qed.

Lemma bucket_prune guesses id w (Q : unit -> World -> Prop) X : bucket_ok guesses w ->
  (forall w', bucket_ok guesses w' -> clients (store w') = clients (store w) -> (ticks w < ticks w')%nat ->
     (id <> global -> failures (store w') global = failures (store w) global) ->
     (length (failures (store w') global) <= length (failures (store w) global))%nat -> Q tt w') ->
  wp (pruneFailuresLocked id) Q X w.
Proof.
  intros Hw HQ. unfold pruneFailuresLocked. do 2 wp_step. wp_step. set (now := clock (ticks w)).
  assert (Hf := pruned_failures now id (store w)).
  match goal with |- Q tt ?w' => assert (Hf' : failures (store w') global = if bool_decide (id = global) then recent passphraseWindow now (failures (store w) global) else failures (store w) global) by exact Hf;
    assert (Hc : clients (store w') = clients (store w)) by done; assert (Ht : ticks w' = S (ticks w)) by done; generalize dependent w' end.
  intros w' Hf' Hc Ht. apply HQ; [|done|lia|intros Hne; by rewrite bool_decide_false in Hf' by done|].
  - destruct (decide (id = global)) as [->|Hne].
    + rewrite bool_decide_true in Hf' by done. destruct Hw as [(k & Hk & Hold) Hp Ho Hs Hg].
      destruct (recent_suffix now (drop k guesses)) as (k' & Hr & Hold').
      { intros i a b Ha Hb. rewrite lookup_drop in Ha, Hb. apply (Ho (k + i)%nat); [done|]. by rewrite <- Nat.add_succ_r. }
      split; [|intros t (n & ? & ?)%Hp; exists n; split; [lia|done]|done|done|by rewrite Hc].
      exists (k + k')%nat. rewrite Hf', Hk, Hr, drop_drop. split; [done|]. intros t Ht'. rewrite <- take_take_drop in Ht'.
      apply elem_of_app in Ht' as [(n & ? & ?)%Hold|Ht']; [exists n; split; [lia|done]|]. exists (ticks w). split; [lia|]. by apply Hold'.
    + rewrite bool_decide_false in Hf' by done. eapply bucket_frame; [done|unfold no_global; rewrite Hc; apply Hw|]. split; [done|lia].
  - rewrite Hf'. case_bool_decide; [|done]. apply length_filter.
Qed.

Lemma throttled_bucket guesses id w : bucket_ok guesses w ->
  wp (passphraseThrottled id) (fun b w' => bucket_ok guesses w' /\ clients (store w') = clients (store w) /\
    (b = false -> (length (failures (store w') global) < maxPassphraseFailures)%nat)) (fun _ _ => False) w.
Proof.
  intros Hw. unfold passphraseThrottled. apply wp_bind. eapply bucket_prune; [exact Hw|]. intros w1 Hw1 Hc1 _ _ _.
  apply wp_bind. eapply bucket_prune; [exact Hw1|]. intros w2 Hw2 Hc2 _ _ _. do 2 wp_step. apply wp_ret. split_and!; [done|congruence|].
  intros [_ H]%orb_false_iff. by apply Nat.leb_gt in H.
Qed.

(** *** A wrong guess is recorded *)
Section Clock.
Context (monotone : forall n m, (n <= m)%nat -> clock n <= clock m).

(** While fewer than five recent guesses are in the bucket, the fifth before is old. *)
Lemma old_enough guesses w n i a : bucket_ok guesses w -> (length (failures (store w) global) < maxPassphraseFailures)%nat -> (ticks w <= n)%nat ->
  guesses !! i = Some a -> (i + maxPassphraseFailures = length guesses)%nat -> passphraseWindow <= TimeSub (clock n) a.
Proof.
  intros [(k & Hk & Hold) _ _ _ _] Hlen Hn Ha Hi. rewrite Hk, length_drop in Hlen.
  destruct (Hold a) as (m & Hm & Hw).
  - apply list_elem_of_lookup. exists i. rewrite lookup_take_lt; [done|]. unfold maxPassphraseFailures in *. lia.
  - etrans; [exact Hw|]. assert (clock m <= clock n) by (apply monotone; lia). unfold TimeSub. lia.
Qed.

Lemma bucket_add guesses w w' : bucket_ok guesses w -> (length (failures (store w) global) < maxPassphraseFailures)%nat -> no_global w' ->
  failures (store w') global = failures (store w) global ++ [clock (ticks w)] -> ticks w' = S (ticks w) -> bucket_ok (guesses ++ [clock (ticks w)]) w'.
Proof.
  intros Hw Hlen Hc Hf Ht. pose proof Hw as [(k & Hk & Hold) Hp Ho Hs _]. unfold time in *.
  assert (Hkl : (k <= length guesses)%nat \/ (length guesses < k)%nat) by lia.
  assert (Hk' : exists k', (k' <= length guesses)%nat /\ drop k guesses = drop k' guesses /\ take k guesses = take k' guesses).
  { destruct Hkl as [|Hlt]; [by exists k|]. exists (length guesses). rewrite !drop_ge, !take_ge by lia. done. }
  clear Hkl. destruct Hk' as (k' & Hk' & Ed & Et). rewrite Ed in Hk. rewrite Et in Hold. split.
  - exists k'. rewrite Hf, Hk, drop_app_le by done. split; [done|]. rewrite take_app_le by done. intros t (n & ? & ?)%Hold. exists n. split; [lia|done].
  - intros t [(n & ? & ?)%Hp| ->%list_elem_of_singleton]%elem_of_app; [exists n; split; [lia|done]|exists (ticks w); split; [lia|done]].
  - intros i a b Ha Hb. unfold time in *. apply lookup_app_Some in Hb as [Hb|[Hge Hb]].
    + assert (Hl : (S i < length guesses)%nat) by exact (lookup_lt_Some _ _ _ Hb). rewrite lookup_app_l in Ha by lia. by eapply Ho.
    + apply list_lookup_singleton_Some in Hb as [Hi <-]. rewrite lookup_app_l in Ha by lia.
      destruct (Hp a (list_elem_of_lookup_2 _ _ _ Ha)) as (n & Hn & ->). apply monotone. lia.
  - intros i a b Ha Hb. unfold time in *. apply lookup_app_Some in Hb as [Hb|[Hge Hb]].
    + assert (Hl : (i + maxPassphraseFailures < length guesses)%nat) by exact (lookup_lt_Some _ _ _ Hb). rewrite lookup_app_l in Ha by lia. by eapply Hs.
    + apply list_lookup_singleton_Some in Hb as [Hi <-]. rewrite lookup_app_l in Ha by (unfold maxPassphraseFailures in *; lia).
      eapply old_enough; [exact Hw|done|lia|exact Ha|unfold time; lia].
  - exact Hc.
Qed.

Lemma record_bucket guesses id w : bucket_ok guesses w -> (length (failures (store w) global) < maxPassphraseFailures)%nat -> id <> global ->
  wp (recordPassphraseFailure id) (fun _ w' => (1 <= ticks w')%nat /\ bucket_ok (guesses ++ [clock (ticks w' - 1)]) w') (fun _ _ => False) w.
Proof.
  intros Hw Hlen Hid. unfold recordPassphraseFailure. apply wp_bind. eapply bucket_prune; [exact Hw|]. intros w1 Hw1 _ _ _ Hl1.
  apply wp_bind. eapply bucket_prune; [exact Hw1|]. intros w2 Hw2 _ _ _ Hl2. wp_step. unfold add_failure at 1. do 2 wp_step. wp_step.
  match goal with |- wp _ _ _ ?w => set (w3 := w) end. assert (Hw3 : bucket_ok guesses w3).
  { eapply bucket_frame; [exact Hw2|apply (bk_key _ _ Hw2)|]. split; [|cbn; lia]. unfold w3. cbn [store with_store].
    rewrite (failures_insert id _ (store w2)). by rewrite bool_decide_false. }
  assert (Hf3 : failures (store w3) global = failures (store w2) global).
  { unfold w3. cbn [store with_store]. rewrite (failures_insert id _ (store w2)). by rewrite bool_decide_false. }
  clearbody w3. unfold add_failure. do 2 wp_step. wp_step. split; [cbn; lia|].
  match goal with |- bucket_ok _ ?w => assert (Ht : ticks w = S (ticks w3)) by done; assert (Hc : no_global w) by (apply (bk_key _ _ Hw3));
    assert (Hf : failures (store w) global = failures (store w3) global ++ [clock (ticks w3)]) end.
  { cbn [store with_store]. rewrite (failures_insert global _ (store w3)). by rewrite bool_decide_true. }
  rewrite Ht. replace (S (ticks w3) - 1)%nat with (ticks w3) by lia. apply bucket_add; try done. rewrite Hf3. lia.
Qed.

(** ** The other methods *)
(** Calls that do not record a guess, nor name the bucket as a client. *)
Definition harmless {A} (c : call A) : Prop :=
  match c with
  | CRecordFailure _ => False
  | CResetFailures id | CEnsureFixed id _ => id <> global
  | _ => True
  end.

#[local] Abbreviation spares := (frame no_global bucket_same).
Lemma bucket_same_refl w : bucket_same w w.
Proof. split; [done|lia]. Qed.
Lemma bucket_same_trans a b c : bucket_same a b -> bucket_same b c -> bucket_same a c.
Proof. intros [? ?] [? ?]. split; [congruence|lia]. Qed.
Lemma spares_bind {A B} (m : M World A) (k : A -> M World B) : spares m -> (forall a, spares (k a)) -> spares (mbind m k).
Proof. apply frame_bind, bucket_same_trans. Qed.
Lemma spares_on_error {A} (m : M World A) undo : spares m -> spares undo -> spares (on_error m undo).
Proof. apply frame_on_error; [apply bucket_same_refl|apply bucket_same_trans]. Qed.
Lemma spares_Now : spares Now.
Proof. intros w Hw. apply wp_Now. split; [done|]. split; [done|cbn; lia]. Qed.
Lemma spares_rand : spares randToken.
Proof. intros w Hw. apply wp_rand. split; [done|]. split; [done|cbn; lia]. Qed.
Lemma spares_write path body : spares (writeFileAtomic0600 path body).
Proof. intros w Hw. apply wp_write; [|intros e]; (split; [done|split; [done|apply Nat.le_refl]]). Qed.
Lemma spares_modify f : (forall s, clients s !! global = None -> clients (f s) !! global = None /\ failures (f s) global = failures s global) ->
  spares (modify f).
Proof. intros Hf. apply frame_modify. intros w Hw. destruct (Hf (store w) Hw) as [Hc Hg]. split; [done|]. split; [done|cbn; lia]. Qed.

Lemma spares_self {A} (k : tokenStore -> M World A) : (forall s, clients s !! global = None -> spares (k s)) -> spares (mbind self k).
Proof. intros Hk w Hw. apply wp_bind, wp_self. by apply Hk. Qed.

Ltac spare_with tac :=
  repeat lazymatch goal with
  | |- forall _, _ => intros
  | |- frame _ _ (writeFileAtomic0600 _ _) => apply spares_write
  | |- frame _ _ (mbind self _) => apply spares_self
  | |- frame _ _ (mbind _ _) => apply spares_bind
  | |- frame _ _ (on_error _ _) => apply spares_on_error
  | |- frame _ _ (mtry _) => apply frame_try
  | |- frame _ _ (withAccessStoreFileLock _ _) => apply frame_lock; [exact bucket_same_refl|]
  | |- frame _ _ (match ?o with _ => _ end) => destruct o eqn:?
  | |- frame _ _ Now => apply spares_Now
  | |- frame _ _ randToken => apply spares_rand
  | |- frame _ _ (mret _) => apply frame_ret; exact bucket_same_refl
  | |- frame _ _ (mfail _) => apply frame_fail; exact bucket_same_refl
  | |- frame _ _ (mguard _ _) => apply frame_guard; exact bucket_same_refl
  | |- frame _ _ (mlift _) => apply frame_lift; exact bucket_same_refl
  | |- frame _ _ self => apply frame_self; exact bucket_same_refl
  | |- frame _ _ (ReadFile _) => apply frame_read; exact bucket_same_refl
  | |- frame _ _ (modify _) => apply spares_modify; intros ? ?; try done
  | |- _ => tac
  end.
Ltac spare := spare_with fail.

Lemma spares_persistClients : spares persistClientsLocked.
Proof. unfold persistClientsLocked, marshal_indent. spare. Qed.
Lemma spares_persistRefresh : spares persistRefreshLocked.
Proof. unfold persistRefreshLocked, marshal_indent. spare. Qed.
Lemma spares_persistAccess : spares persistAccessLocked.
Proof. unfold persistAccessLocked, pruneAccessLocked, marshal_indent. spare. Qed.
Lemma spares_loadRefresh : spares loadRefreshLocked.
Proof. unfold loadRefreshLocked. spare. Qed.
Lemma spares_loadAccess : spares loadAccessLocked.
Proof. unfold loadAccessLocked. spare. Qed.

Ltac spare_all :=
  spare_with ltac:(first [apply spares_persistClients | apply spares_persistRefresh | apply spares_persistAccess | apply spares_loadRefresh | apply spares_loadAccess]).

Lemma drawn_not_global n : drawn n <> global.
Proof.
  unfold drawn. destruct (random n) as [b|]; [|done]. intros H. apply (f_equal String.length) in H.
  destruct b as [|x [|y [|z b]]]; cbn in H; lia.
Qed.

Lemma failures_filter gone s : gone global = false ->
  failures (with_failTimes (filter (fun e => gone e.1 = false) (failTimes s)) s) global = failures s global.
Proof.
  intros Hg. unfold failures. cbn. f_equal. destruct (failTimes s !! global) as [l|] eqn:El.
  - by apply map_lookup_filter_Some.
  - apply map_lookup_filter_None. by left.
Qed.

Lemma failures_clients m s : failures (with_clients m s) global = failures s global.
Proof. done. Qed.
Lemma insert_not_global {A} (m : gmap string A) id x : m !! global = None -> id <> global -> <[id := x]> m !! global = None.
Proof. intros Hm Hid. by rewrite lookup_insert_ne. Qed.
Lemma delete_global {A} (m : gmap string A) id : m !! global = None -> delete id m !! global = None.
Proof. intros Hm. apply lookup_delete_None. by right. Qed.

Lemma drop_stale_spares now s : clients s !! global = None -> clients (drop_stale now s) !! global = None /\ failures (drop_stale now s) global = failures s global.
Proof.
  intros Hs. split.
  - cbn. apply map_lookup_filter_None. by left.
  - unfold drop_stale. rewrite (failures_filter (fun id => match clients s !! id with Some c => stale now c | None => false end) (with_clients _ s)); [done|].
    by rewrite Hs.
Qed.

Lemma spares_register uris : spares (registerClient uris).
Proof.
  unfold registerClient. apply spares_bind; [apply spares_Now|]. intros now. apply spares_bind; [apply spares_modify, drop_stale_spares|].
  intros _. apply spares_bind; [by apply spares_modify|]. intros _. apply spares_self. intros s _. apply spares_bind; [by apply frame_guard|].
  intros _. intros w Hw. apply wp_bind, wp_rand. assert (Hid := drawn_not_global (draws w)). revert Hid. generalize (drawn (draws w)). intros id Hid.
  assert (Hk : spares (
    do! modify (fun s => with_clients (<[id := {| cr_redirectURIs := uris; cr_createdAt := now; cr_activated := false |}]> (clients s)) s) in
    do! on_error persistClientsLocked (modify (fun s => with_clients (delete id (clients s)) s)) in
    do! modify (fun s => with_regTimes (regTimes s ++ [now]) s) in
    mret id)).
  { spare_with ltac:(apply spares_persistClients); [by split; [apply insert_not_global|]|by split; [apply delete_global|]]. }
  eapply wp_mono; [by apply Hk|..]; intros ? w' [? [? ?]]; (split; [done|]); (split; [done|]); cbn in *; lia.
Qed.

Lemma spares_getClient id : spares (getClient id).
Proof.
  unfold getClient. destruct (id =? ""); [by apply frame_ret|]. apply spares_self. intros s Hs. destruct (clients s !! id) as [c|] eqn:Ec; [|by apply frame_ret].
  assert (Hid : id <> global) by (intros ->; congruence).
  spare_with ltac:(apply spares_persistClients). split; [by apply delete_global|]. cbn [with_failTimes with_clients failTimes].
  match goal with |- failures ?s' global = _ => change s' with (with_failTimes (delete id (failTimes (with_clients (delete id (clients s0)) s0))) (with_clients (delete id (clients s0)) s0)) end.
  rewrite failures_delete. by rewrite bool_decide_false.
Qed.

Lemma harmless_spares {A} (c : call A) : harmless c -> (match c with CThrottled _ => False | _ => True end) -> spares (exec c).
Proof.
  intros Hc Ht. destruct c; try done; cbn [exec harmless] in *;
    unfold ensureFixedClient, putCode, consumeCode, resetPassphraseFailures, putAccess, getAccess, revokeAccess, putRefresh, consumeRefresh,
      rotateRefresh, rotateLocked, persistRotation, restore, revokeRefresh, reloadAccess, reloadRefresh, pruneAccessLocked, set_access, drop_access,
      set_refresh, drop_refresh; spare_all.
  - apply spares_register.
  - apply spares_getClient.
  - by split; [apply insert_not_global|].
  - by split; [apply delete_global|].
  - split; [|done]. apply insert_not_global; [done|]. intros Eg. congruence.
  - split; [|done]. apply insert_not_global; [done|]. intros Eg. congruence.
  - split; [done|]. rewrite failures_delete. by rewrite bool_decide_false.
Qed.

Lemma harmless_bucket {A} (c : call A) guesses w : harmless c -> bucket_ok guesses w -> wp (exec c) (fun _ w' => bucket_ok guesses w') (fun _ w' => bucket_ok guesses w') w.
Proof.
  intros Hc Hw. assert (Hcase : (match c with CThrottled _ => False | _ => True end) \/ ~ (match c with CThrottled _ => False | _ => True end)) by (destruct c; tauto).
  destruct Hcase as [Ht|Ht].
  - eapply wp_mono; [apply (harmless_spares c Hc Ht), Hw|..]; intros ? w' [? ?]; by eapply bucket_frame.
  - destruct c; try (by destruct Ht). eapply wp_mono; [by apply throttled_bucket|by intros ? ? (? & ? & ?)|done].
Qed.

(** ** A login, on its own *)
Definition wrong_guess (r : response) : bool := match r with LoginPage _ _ _ status => status =? 401 | _ => false end.

Lemma getClient_found id w : wp (getClient id) (fun o _ => is_Some o -> is_Some (clients (store w) !! id)) (fun _ _ => True) w.
Proof.
  unfold getClient. wp_step; [by apply wp_ret; intros []|]. do 2 wp_step. destruct (clients (store w) !! id) as [c|]; [|by apply wp_ret].
  intros fs. repeat case_match; try done; by intros _.
Qed.

Lemma login_bucket p form guesses w : bucket_ok guesses w ->
  wp (alone (submitLogin p form)) (fun r w' => (1 <= ticks w')%nat /\ bucket_ok (guesses ++ if wrong_guess r then [clock (ticks w' - 1)] else []) w' \/
    wrong_guess r = false /\ bucket_ok guesses w') (fun _ w' => bucket_ok guesses w') w.
Proof.
  intros Hw. unfold submitLogin, validateAuthorizeRequest. cbn [pbind alone]. wp_step.
  eapply wp_mono; [apply wp_and; [apply (harmless_bucket (CGetClient (Get form "client_id")) guesses w); done|apply getClient_found]| |by intros e w' [? _]].
  intros [c|] w1 [Hw1 Hfound]; [|apply wp_ret; right; done].
  assert (Hid : Get form "client_id" <> global) by (intros Eg; destruct (Hfound ltac:(eauto)) as [x Hx]; rewrite Eg, (bk_key _ _ Hw) in Hx; done).
  match goal with |- wp (alone (match ?r with _ => _ end)) _ _ _ => destruct r as [a|e] eqn:Ea end; [|apply wp_ret; right; done].
  assert (Hai : ap_clientID a = Get form "client_id") by (rewrite !check_ok in Ea; destruct Ea as (_ & _ & _ & _ & _ & _ & [= <-]); done).
  cbn [alone exec]. wp_step. rewrite Hai. eapply wp_mono; [by apply throttled_bucket| |done]. intros [] w2 (Hw2 & _ & Hlen); [apply wp_ret; right; done|].
  specialize (Hlen eq_refl). destruct (Get form "passphrase" <>? passphrase p).
  - cbn [alone exec]. wp_step. eapply wp_mono; [by apply record_bucket| |done]. intros _ w3 [? ?]. apply wp_ret. left. done.
  - cbn [alone].
    assert (Hcall : forall A (c : call A) (k : A -> M World response) Q, harmless c -> forall w, bucket_ok guesses w ->
      (forall a w', bucket_ok guesses w' -> wp (k a) Q (fun _ w' => bucket_ok guesses w') w') -> wp (let! a := exec c in k a) Q (fun _ w' => bucket_ok guesses w') w).
    { intros A c0 k Q Hc w0 Hw0 Hk. apply wp_bind. eapply wp_mono; [by apply harmless_bucket|auto|done]. }
    apply Hcall; [done|done|]. intros _ w3 Hw3. apply Hcall; [done|done|]. intros code w4 Hw4. apply Hcall; [done|done|]. intros now w5 Hw5.
    apply Hcall; [done|done|]. intros [x|e] w6 Hw6; apply wp_ret; right; (split; [|done]); [|done]. unfold redirectWithCode. by destruct (Parse _).
Qed.

(** A process whose logins do not overlap, and the wrong guesses it answered, with the
    time each was recorded. *)
Inductive session (p : Provider) : list time -> World -> Prop :=
| session_new w : failTimes (store w) = ∅ -> no_global w -> session p [] w
| session_login guesses w form fs r w' : session p guesses w -> run (alone (submitLogin p form)) w fs = (Ok r, w') ->
    session p (guesses ++ if wrong_guess r then [clock (ticks w' - 1)] else []) w'
| session_call {A} (c : call A) guesses w fs a w' : session p guesses w -> harmless c -> run (exec c) w fs = (Ok a, w') -> session p guesses w'.

Lemma session_bucket p guesses w : session p guesses w -> bucket_ok guesses w.
Proof.
  induction 1 as [w Hf Hg|guesses w form fs r w' _ IH Hr|A c guesses w fs a w' _ IH Hc Hr].
  - split; try done.
    + exists 0%nat. split; [|intros t Ht; by apply elem_of_nil in Ht]. unfold failures. by rewrite Hf, lookup_empty.
    + intros t Ht. by apply elem_of_nil in Ht.
  - apply (wp_run _ _ _ _ _ _ _ (login_bucket p form guesses w IH)) in Hr. destruct Hr as [[_ ?]|[-> ?]]; [done|]. by rewrite app_nil_r.
  - by apply (wp_run _ _ _ _ _ _ _ (harmless_bucket c guesses w Hc IH)) in Hr.
Qed.
End Clock.

(** C22 The passphrase throttle bounds guessing. In a process whose logins do not overlap,
    with a clock that does not go back: of any six wrong guesses in a row that the
    process answers (those it refuses as too many not counted), for whatever clients
    they were made and whatever other methods run in between, the sixth is recorded at
    least one minute after the first. *)
Theorem guesses_throttled p guesses w i a b : (forall n m, (n <= m)%nat -> clock n <= clock m) -> session p guesses w ->
  guesses !! i = Some a -> guesses !! (i + maxPassphraseFailures)%nat = Some b -> Minute <= TimeSub b a.
Proof. intros Hm Hs. exact (bk_spaced _ _ (session_bucket Hm p guesses w Hs) i a b). Qed.
End Throttle.
