(* ===== verification/OAuthTokens.v ===== *)
(** * OAuth: what an exchange checks, and what a rotation leaves

    The token endpoint over every answer of the store ([token_exchange_checks]); a
    rotation of a refresh token, over every fault of the file system
    ([rotation_all_or_nothing]); what a restart brings back ([refresh_survives_restart]);
    and what a revocation, which takes no lock and reads no file, writes
    ([revokeRefresh_overwrites]).  Last, the other direction of [OAuthSafety]: a login with
    the right passphrase succeeds ([login_grants_access]). *)

From S2P Require Import Prelude GoStrings GoPath GoRegexp Sha256 GoJson GoTime GoReflect GoRecord Effects GoUrl OAuthTypes OAuthStore OAuthProvider OAuthFacts OAuthInv OAuthSystem OAuthSafety OAuthSingle OAuthThrottle.

(** ** Behaviours *)
(** The calls of a program, the answers they got, and its result. *)
Fixpoint behaves {R} (p : prog R) (l : list logged) (r : R) : Prop :=
  match p with
  | Ret r' => l = [] /\ r = r'
  | Do c k => exists a l', l = Logged c a :: l' /\ behaves (k a) l' r
  end.

Lemma behaves_bind {A B} (p : prog A) (f : A -> prog B) l r : behaves (pbind p f) l r ->
  exists a l1 l2, l = l1 ++ l2 /\ behaves p l1 a /\ behaves (f a) l2 r.
Proof.
  revert l. induction p as [a|T c k IH]; intros l H; cbn in H.
  - by exists a, [], l.
  - destruct H as (a & l' & -> & H). apply IH in H as (x & l1 & l2 & -> & H1 & H2). exists x, (Logged c a :: l1), l2.
    split_and!; [done|by exists a, l1|done].
Qed.

(** One construct of the behaviour in [H]. *)
Ltac behave H :=
  lazymatch type of H with
  | behaves (Ret _) _ _ => destruct H as [-> H]
  | behaves (Do _ _) _ _ => let a := fresh "a" in let l := fresh "l" in destruct H as (a & l & -> & H)
  | behaves (if ?b then _ else _) _ _ => let E := fresh "E" in destruct b eqn:E
  | behaves (match ?x with _ => _ end) _ _ => destruct x
  end.

(** The grants a token pair stands for, as the store's methods logged them. *)
Definition grants_logged (l : list logged) (acc ref client res scope : string) : Prop :=
  (exists t, Logged (CPutAccess acc {| ag_clientID := client; ag_resource := res; ag_scope := scope; ag_expiresAt := t |}) (Ok tt) ∈ l) /\
  (exists t, Logged (CPutRefresh ref {| rg_clientID := client; rg_scope := scope; rg_resource := res; rg_expiresAt := t |}) (Ok tt) ∈ l).

Lemma issued_access client res scope ttl l t : behaves (issueAccessToken client res scope ttl) l t -> t <> "" ->
  exists x, Logged (CPutAccess t {| ag_clientID := client; ag_resource := res; ag_scope := scope; ag_expiresAt := x |}) (Ok tt) ∈ l.
Proof.
  intros H Hne. unfold issueAccessToken in H. do 2 behave H; behave H; [by subst|]. behave H. destruct a1 as [[]|e]; behave H; [|by subst].
  subst t. eexists. right. right. left.
Qed.

Lemma issued_pair client res scope l acc ref sc ttl : behaves (issueTokenPair client res scope) l (TokenPair acc ref sc ttl) ->
  sc = scope /\ ttl = expires_in /\ grants_logged l acc ref client res scope.
Proof.
  intros H. unfold issueTokenPair in H. apply behaves_bind in H as (t & l1 & l2 & -> & H1 & H). behave H; [by behave H|].
  apply bool_decide_eq_false in E. do 3 behave H. destruct a1 as [[]|e]; [|by do 2 behave H]. behave H. injection H as -> -> -> ->.
  split_and!; [done|done|]. apply issued_access in H1 as [x Hx]; [|done]. split.
  - exists x. apply elem_of_app. by left.
  - eexists. apply elem_of_app. right. right. right. left.
Qed.

Lemma code_exchange form l acc ref sc ttl : behaves (grantAuthorizationCode form) l (TokenPair acc ref sc ttl) ->
  exists k l', l = Logged (CConsumeCode (Get form "code")) (Some k) :: l' /\
    Get form "client_id" = ac_clientID k /\ Get form "redirect_uri" = ac_redirectURI k /\ Get form "resource" = ac_resource k /\
    Get form "code_verifier" <> "" /\ RawURLEncode (Sum256 (Get form "code_verifier")) = ac_codeChallenge k /\
    sc = ac_scope k /\ ttl = expires_in /\ grants_logged l' acc ref (ac_clientID k) (ac_resource k) (ac_scope k).
Proof.
  intros H. unfold grantAuthorizationCode in H. behave H. destruct a as [k|]; [|by behave H]. behave H; [by behave H|]. behave H; [by behave H|].
  behave H; [by behave H|]. behave H; [by behave H|]. apply issued_pair in H as (-> & -> & H). exists k, l0.
  apply negb_false_iff, bool_decide_eq_true in E, E0, E1. apply negb_false_iff in E2. unfold verifyPKCE in E2.
  destruct (bool_decide_reflect (Get form "code_verifier" = "")); [done|]. cbn [orb] in E2. destruct (_ =? "") in E2; [done|].
  apply bool_decide_eq_true in E2. by split_and!.
Qed.

Lemma refresh_exchange form l acc ref sc ttl : behaves (grantRefreshToken form) l (TokenPair acc ref sc ttl) ->
  exists g now, Logged (CRotateRefresh (Get form "refresh_token") ref acc now) (Ok (Some g)) ∈ l /\ sc = rg_scope g /\ ttl = expires_in.
Proof.
  intros H. unfold grantRefreshToken in H. do 2 behave H. behave H; [by behave H|]. do 2 behave H. destruct a2 as [[g|]|e]; behave H; try done.
  injection H as -> -> -> ->. exists g, a1. split_and!; [|done|done]. right. right. right. left.
Qed.

(** C21 What the token endpoint checks. Whatever the store answers and whatever runs in
    between, when the token endpoint answers a request with a pair of tokens, the form it was sent
    asked for one of two grants.  With [authorization_code], the code of the form was
    redeemed from the store, the form names the client, the redirect address and the
    resource that code was issued for, and its verifier is not empty and has the code's
    challenge as its SHA-256; both tokens were then stored for that client, resource
    and scope.  With [refresh_token], the store rotated the form's token into the new
    one and the answer's scope is the old grant's. *)
Theorem token_exchange_checks r l acc ref scope ttl : behaves (handleToken r) l (TokenPair acc ref scope ttl) ->
  exists form, ParseForm r = Some form /\ Method r = "POST" /\ ttl = 3600 /\
    ((Get form "grant_type" = "authorization_code" /\ exists k l', l = Logged (CConsumeCode (Get form "code")) (Some k) :: l' /\
       Get form "client_id" = ac_clientID k /\ Get form "redirect_uri" = ac_redirectURI k /\ Get form "resource" = ac_resource k /\
       Get form "code_verifier" <> "" /\ RawURLEncode (Sum256 (Get form "code_verifier")) = ac_codeChallenge k /\
       scope = ac_scope k /\ grants_logged l' acc ref (ac_clientID k) (ac_resource k) (ac_scope k)) \/
     (Get form "grant_type" = "refresh_token" /\ exists g now,
       Logged (CRotateRefresh (Get form "refresh_token") ref acc now) (Ok (Some g)) ∈ l /\ scope = rg_scope g)).
Proof.
  intros H. unfold handleToken in H. behave H; [by behave H|]. apply negb_false_iff, bool_decide_eq_true in E.
  destruct (ParseForm r) as [form|]; [|by behave H]. exists form. split_and!; [done|done|..].
  all: behave H; [apply bool_decide_eq_true in E0; apply code_exchange in H as (k & l' & -> & ? & ? & ? & ? & ? & -> & -> & ?)|
    behave H; [apply bool_decide_eq_true in E1; apply refresh_exchange in H as (g & now & ? & -> & ->)|by behave H]]; try done.
  - left. split; [done|]. exists k, l'. by split_and!.
  - right. eauto.
Qed.

(** ** A rotation *)
Section Rotation.
Context {E : Environment} (P : Paths) (distinct : paths_distinct P) (persisted : p_refresh P <> "").
Implicit Types (w : World).

(** What a memory and its two files hold after a rotation of [old] into [new]. *)
Record rotation (old new acc : string) (now : time) (g : refreshGrant) (w w' : World) : Prop := {
  ro_from : exists body n m, disk w !! p_refresh P = Some body /\ refresh_of_text (clock n) body = Some m /\ m !! old = Some g /\
    m !! new = None /\ refresh (store w') =
      <[new := {| rg_clientID := rg_clientID g; rg_scope := rg_scope g; rg_resource := rg_resource g; rg_expiresAt := TimeAdd now refreshTokenTTL |}]> (delete old m);
  ro_live : After now (rg_expiresAt g) = false;
  ro_refresh_file : disk w' !! p_refresh P = Some (MarshalIndent c_refresh_file (refresh_file (refresh (store w'))));
  ro_access : access (store w') !! accessTokenDigest acc =
      Some {| ag_clientID := rg_clientID g; ag_resource := rg_resource g; ag_scope := rg_scope g; ag_expiresAt := TimeAdd now accessTokenTTL |} \/
    exists n, After (clock n) (TimeAdd now accessTokenTTL) = true;
  ro_access_file : p_access P <> "" -> disk w' !! p_access P = Some (MarshalIndent c_access_file (access_file (access (store w')))) }.

(** No grant was rotated: the file is as it was, or its grant for [old] had expired. *)
Definition unrotated (old : string) (now : time) (w w' : World) : Prop :=
  disk w' !! p_refresh P = disk w !! p_refresh P \/
  exists body n m g, disk w !! p_refresh P = Some body /\ refresh_of_text (clock n) body = Some m /\ m !! old = Some g /\ After now (rg_expiresAt g) = true.

(** The two writes of a rotation, and what is undone when one fails. *)
Lemma persistRotation_spec before w (Q : unit -> World -> Prop) X : paths_of P (store w) ->
  (forall w', refresh (store w') = refresh (store w) ->
     (forall d g, access (store w) !! d = Some g -> access (store w') !! d = Some g \/ exists n, After (clock n) (ag_expiresAt g) = true) ->
     disk w' !! p_refresh P = Some (MarshalIndent c_refresh_file (refresh_file (refresh (store w')))) ->
     (p_access P <> "" -> disk w' !! p_access P = Some (MarshalIndent c_access_file (access_file (access (store w'))))) -> Q tt w') ->
  (forall e w', disk w' !! p_refresh P = disk w !! p_refresh P -> refresh (store w') = refresh before -> X e w') ->
  wp (persistRotation before) Q X w.
Proof.
  intros Hp HQ HX. pose proof Hp as (Hpc & Hpa & Hpr). unfold persistRotation. wp_step. wp_step.
  assert (Hother : p_access P <> "" -> p_access P <> p_refresh P) by (intros; by apply distinct).
  apply wp_persistAccess; rewrite Hpa.
  - intros Hnone. wp_step. apply wp_persistRefresh; rewrite Hpr; [done| |].
    + intros _ _. apply HQ; [done|by intros; left|apply lookup_insert_eq|done].
    + intros _ e. do 2 wp_step. apply wp_persistAccess; cbn [accessStorePath store restore with_store with_refresh with_access]; rewrite Hpa; try done. intros _. by apply HX.
  - intros Hne _. wp_step. apply wp_persistRefresh; cbn [refreshStorePath store with_store with_disk with_access]; rewrite Hpr; [done| |].
    + intros _ _. apply HQ; [done| | |].
      * cbn. intros d g Hg. destruct (After (clock (ticks w)) (ag_expiresAt g)) eqn:Ea; [right; eauto|left]. by apply map_lookup_filter_Some.
      * apply lookup_insert_eq.
      * intros _. cbn [disk with_disk]. rewrite lookup_insert_ne by (apply not_eq_sym; auto). apply lookup_insert_eq.
    + intros _ e. do 2 wp_step. apply wp_persistAccess; cbn [accessStorePath store with_store with_disk with_refresh with_access tick]; rewrite Hpa; [done|..].
      * intros _ _. apply HX; [|done]. cbn [disk with_disk with_store tick]. rewrite !lookup_insert_ne by auto. done.
      * intros _ e'. apply HX; [|done]. cbn [disk with_disk with_store tick]. rewrite lookup_insert_ne by auto. done.
  - intros Hne e. wp_step. apply HX; done.
Qed.

Lemma reload_exact w (Q : unit -> World -> Prop) X : ready P w ->
  (disk w !! p_refresh P = None -> Q tt w) ->
  (forall body m w', disk w !! p_refresh P = Some body -> refresh_of_text (clock (ticks w)) body = Some m -> w' = with_store (with_refresh m (store w)) (tick w) -> Q tt w') ->
  (forall e, X e w) -> wp reloadRefresh Q X w.
Proof.
  intros [(_ & _ & Hpr) _ _ _] H1 H2 H3. apply wp_reloadRefresh; rewrite Hpr; [intros [?|?]; [done|auto]|eauto|done].
Qed.

(** C20 A rotation happens whole or not at all, as the refresh file shows it.  From any
    world whose memory matches the configured paths and over every fault of the file system
    ([wp] gives what holds after a success and after an error): when [rotateRefresh] fails, the refresh file is
    what it was, so the client can present its old token again.  When it finds no grant to
    rotate, the file is what it was or the grant in it had expired.  When it succeeds, the
    old token was in the file and had not expired, the new one was not; the file now
    holds what it held, less the old token and with the new one, which
    has the same client, scope and resource and expires [refreshTokenTTL] after [now]; and the
    grant of the access token, of that client, resource and scope, is in memory (unless it has
    already expired), and the file of access grants holds the grants in memory. *)
Theorem rotation_all_or_nothing old new acc now w : ready P w ->
  wp (rotateRefresh old new acc now)
    (fun o w' => match o with Some g => rotation old new acc now g w w' | None => unrotated old now w w' end)
    (fun _ w' => disk w' !! p_refresh P = disk w !! p_refresh P) w.
Proof.
  intros Hw. unfold rotateRefresh. wp_step; [by apply wp_ret; left|]. do 2 wp_step. do 2 (wp_step; [|done]). unfold rotateLocked. wp_step.
  eapply wp_mono; [apply leaves_reloadAccess, Hw| |by intros e w1 [_ [_ ?]]]. intros _ w1 [Hp1 Hs1]. assert (Hw1 : ready P w1) by (by eapply ready_same).
  destruct Hs1 as [_ Hd1]. wp_step. apply reload_exact; [done| | |done].
  - intros Hn. do 2 wp_step. rewrite (rd_absent _ _ Hw1) by done. rewrite lookup_empty. by apply wp_ret; left.
  - intros body m w2 Hb Hm ->. do 2 wp_step. cbn [store with_store with_refresh refresh]. destruct (m !! old) as [g|] eqn:Eg; [|by apply wp_ret; left].
    wp_step.
    + do 2 wp_step. wp_step. wp_step. assert (Hu : forall w3, unrotated old now w w3).
      { intros w3. right. exists body, (ticks w1), m, g. rewrite <- Hd1. by split_and!. }
      apply wp_persistRefresh; [intros; by apply wp_ret..|intros _ e; by wp_step].
    + do 2 wp_step; [|done]. do 3 wp_step. wp_step. do 2 wp_step; [|done]. do 2 wp_step; [|done]. do 6 wp_step. wp_step.
      apply persistRotation_spec; [apply Hp1| |by intros e w3 ? _; etrans].
      intros w3 Hr' Ha' Hf' Hfa'. apply wp_ret. split; [|done|done| |done].
      * exists body, (ticks w1), m. rewrite <- Hd1. split_and!; [done|done|done| |done]. apply eq_None_not_Some. by apply bool_decide_eq_false in H.
      * specialize (Ha' (accessTokenDigest acc) (rotated_access g now)). apply Ha'. cbn. apply lookup_insert_eq.
Qed.
End Rotation.

(** ** Restart and revocation *)
Section Restart.
Context {E : Environment} (tree : FS) (identity : string -> option Z) (cfg : Config).
Context (distinct : paths_distinct (paths cfg)) (persisted : p_refresh (paths cfg) <> "").

(** The grants a process can still use. *)
Definition unexpired (now : time) (m : gmap string refreshGrant) : gmap string refreshGrant :=
  filter (fun e => e.1 <> "" /\ After now (rg_expiresAt e.2) = false) m.

(** C25 A restart loses no refresh grant and invents none. Once [putRefresh] has
    succeeded, whatever faults it met, the grant is in memory, and any process that
    then starts from the same disk has in memory exactly the grants the first one had, every
    field the same, less those that had expired when it read the file. *)
Theorem refresh_survives_restart token g w : ready (paths cfg) w -> refresh_text token g ->
  wp (putRefresh token g) (fun _ w1 => refresh (store w1) !! token = Some g /\
      forall w2, disk w2 = disk w1 ->
      wp (NewProvider tree identity cfg) (fun _ w3 => exists n, refresh (store w3) = unexpired (clock n) (refresh (store w1))) (fun _ _ => True) w2)
    (fun _ _ => True) w.
Proof.
  intros Hw Hg. unfold putRefresh. do 2 wp_step. wp_step; [|done]. wp_step. apply (reload_tokens (paths cfg) distinct persisted); [done| |done]. intros w1 Hw1 _ _ _.
  do 2 wp_step. wp_step. assert (Hp := rd_paths _ _ Hw1). destruct Hp as (Hc & Ha & Hr).
  assert (Hm : map_Forall refresh_text (<[token := g]> (refresh (store w1)))) by (apply map_Forall_insert_2; [done|apply Hw1]).
  apply wp_persistRefresh; cbn [refreshStorePath store with_store with_refresh refresh]; rewrite Hr; [done| |intros; by wp_step].
  intros _ He. split; [apply lookup_insert_eq|]. intros w2 Hd. eapply wp_mono; [by apply start_refresh| |done]. intros p w3.
  rewrite Hd. cbn [disk with_disk]. rewrite lookup_insert_eq. intros [n Hn]. exists n. rewrite refresh_restored in Hn by done. by injection Hn as <-.
Qed.

(** A revocation writes what its process has in memory, whatever the file held. *)
Lemma persist_faultless w : refreshStorePath (store w) <> "" -> encodable (c_to c_refresh_file (refresh_file (refresh (store w)))) = true ->
  persistRefreshLocked w [] = (Ok tt, with_disk (<[refreshStorePath (store w) := MarshalIndent c_refresh_file (refresh_file (refresh (store w)))]> (disk w)) w, []).
Proof.
  intros Hp He. unfold persistRefreshLocked. change ((if refreshStorePath (store w) =? "" then mret tt else
    let! body := marshal_indent c_refresh_file (refresh_file (refresh (store w))) in writeFileAtomic0600 (refreshStorePath (store w)) body) w [] = (Ok tt, with_disk
      (<[refreshStorePath (store w) := MarshalIndent c_refresh_file (refresh_file (refresh (store w)))]> (disk w)) w, [])).
  rewrite bool_decide_false by done. unfold marshal_indent. rewrite He. reflexivity.
Qed.

Lemma revokeRefresh_overwrites token w : ready (paths cfg) w -> token <> "" ->
  encodable (c_to c_refresh_file (refresh_file (delete token (refresh (store w))))) = true ->
  exists w', run (revokeRefresh token) w [] = (Ok tt, w') /\ file_of (paths cfg) w' = dom (refresh (store w)) ∖ {[token]}.
Proof.
  intros [(Hc & Ha & Hr) Hm Hf Habs] Hne He. unfold revokeRefresh, run. rewrite bool_decide_false by done.
  set (w1 := with_store (with_refresh (delete token (refresh (store w))) (store w)) w).
  eexists. unfold mbind at 1. change (drop_refresh token w []) with (@Ok unit tt, w1, @nil bool). unfold mbind at 1, mtry.
  rewrite (persist_faultless w1); [|by cbn; rewrite Hr|done]. split; [reflexivity|].
  unfold file_of. cbn -[MarshalIndent refresh_file]. rewrite Hr, lookup_insert_eq. cbn [tokens].
  rewrite written_tokens; [by rewrite dom_delete_L|by apply map_Forall_delete|done].
Qed.

(** A token that another process has redeemed since, and which is therefore no longer
    in the file, is put back by the revocation of any other token, as long as
    the revoking process still has it in memory. *)
Theorem revocation_revives token other w : ready (paths cfg) w -> token <> "" -> other <> token ->
  encodable (c_to c_refresh_file (refresh_file (delete token (refresh (store w))))) = true ->
  other ∈ dom (refresh (store w)) -> other ∉ file_of (paths cfg) w ->
  exists w', run (revokeRefresh token) w [] = (Ok tt, w') /\ other ∈ file_of (paths cfg) w'.
Proof.
  intros Hw Hne Ho He Hin _. destruct (revokeRefresh_overwrites token w Hw Hne He) as (w' & Hr & Hf). exists w'. split; [done|]. rewrite Hf. set_solver.
Qed.
End Restart.

(** * The login works *)
Definition memory_only (s : tokenStore) : Prop := clientStorePath s = "" /\ accessStorePath s = "" /\ refreshStorePath s = "".

(** A request for a code that [validateAuthorizeRequest] accepts, and its parameters. *)
Record good_request (p : Provider) (client : clientReg) (form : Values) (verifier : string) : Prop := {
  gr_redirect : registeredRedirect client (Get form "redirect_uri") = true;
  gr_type : Get form "response_type" = "code";
  gr_verifier : verifier <> "";
  gr_challenge : Get form "code_challenge" = RawURLEncode (Sum256 verifier);
  gr_method : Get form "code_challenge_method" = "S256";
  gr_resource : Get form "resource" = resource p;
  gr_scope : Get form "scope" = "mcp" }.
Definition request_params (form : Values) : authorizeParams :=
  {| ap_clientID := Get form "client_id"; ap_redirectURI := Get form "redirect_uri"; ap_codeChallenge := Get form "code_challenge";
     ap_state := Get form "state"; ap_scope := Get form "scope"; ap_resource := Get form "resource" |}.

(** The client's request for its tokens. *)
Record good_exchange (p : Provider) (form : Values) (verifier code : string) (r : Request) (tform : Values) : Prop := {
  ge_method : Method r = "POST";
  ge_form : ParseForm r = Some tform;
  ge_type : Get tform "grant_type" = "authorization_code";
  ge_code : Get tform "code" = code;
  ge_client : Get tform "client_id" = Get form "client_id";
  ge_redirect : Get tform "redirect_uri" = Get form "redirect_uri";
  ge_resource : Get tform "resource" = resource p;
  ge_verifier : Get tform "code_verifier" = verifier }.

Lemma putCode_memory code c w (Q : unit -> World -> Prop) X : memory_only (store w) ->
  (forall w', memory_only (store w') -> access (store w') = access (store w) -> codes (store w') = <[code := c]> (codes (store w)) -> Q tt w') ->
  wp (putCode code c) Q X w.
Proof.
  intros Hp HQ. pose proof Hp as (Hp1 & _ & _). unfold putCode. wp_step. wp_step. wp_step. destruct (clients (store w) !! ac_clientID c) as [x|].
  - wp_step; [wp_step; wp_step; by apply HQ|]. wp_step. wp_step. wp_step. apply wp_persistClients; try done. intros _. wp_step. by apply HQ.
  - wp_step. wp_step. by apply HQ.
Qed.

Section Flow.
Context {E : Environment} (p : Provider) (client : clientReg) (form : Values) (verifier : string).
Context (steady : forall n m, After (clock n) (TimeAdd (clock m) authCodeTTL) = false).
Context (random_works : forall n, drawn n <> "").
Context (valid : good_request p client form verifier).
#[local] Abbreviation id := (Get form "client_id").
Context (fresh : cr_activated client = true \/ forall n, TimeSub (clock n) (cr_createdAt client) < unactivatedClientTTL).

Lemma getClient_returns w (Q : option clientReg -> World -> Prop) X : id <> "" -> clients (store w) !! id = Some client ->
  (forall w', store w' = store w -> Q (Some client) w') -> wp (getClient id) Q X w.
Proof.
  intros Hid Hc HQ. unfold getClient. rewrite bool_decide_false by done. do 2 wp_step. rewrite Hc. wp_step; [by wp_step; apply HQ|].
  do 2 wp_step. destruct fresh as [Hf|Hf]; [congruence|]. specialize (Hf (ticks w)). wp_step; [apply Z.leb_le in Heqb0; lia|]. wp_step. by apply HQ.
Qed.

(** *** The throttle lets a first login through *)
Lemma prune_shrinks key w (Q : unit -> World -> Prop) X :
  (forall w' f, store w' = with_failTimes f (store w) -> (forall x, length (failures (store w') x) <= length (failures (store w) x))%nat -> Q tt w') ->
  wp (pruneFailuresLocked key) Q X w.
Proof.
  intros HQ. unfold pruneFailuresLocked. do 2 wp_step. wp_step. eapply HQ; [reflexivity|]. intros x. cbn [store with_store with_failTimes].
  assert (Hlen : (length (recent passphraseWindow (clock (ticks w)) (failures (store w) key)) <= length (failures (store w) key))%nat) by apply length_filter.
  revert Hlen. cbn [tick store]. generalize (recent passphraseWindow (clock (ticks w)) (failures (store w) key)). intros kept Hlen.
  unfold failures at 1. cbn [failTimes with_failTimes]. destruct (decide (key = x)) as [->|Hne].
  - destruct kept as [|t l]; [rewrite lookup_delete_eq|rewrite lookup_insert_eq]; cbn in *; lia.
  - destruct kept as [|t l]; [rewrite lookup_delete_ne|rewrite lookup_insert_ne]; done.
Qed.

Lemma not_throttled key w (Q : bool -> World -> Prop) X :
  (length (failures (store w) key) < maxPassphraseFailures)%nat -> (length (failures (store w) passphraseGlobalKey) < maxPassphraseFailures)%nat ->
  (forall w' f, store w' = with_failTimes f (store w) -> Q false w') -> wp (passphraseThrottled key) Q X w.
Proof.
  intros H1 H2 HQ. unfold passphraseThrottled. wp_step. apply prune_shrinks. intros w1 f1 E1 L1. wp_step. apply prune_shrinks. intros w2 f2 E2 L2.
  do 2 wp_step. wp_step. pose proof (L1 key). pose proof (L1 passphraseGlobalKey). pose proof (L2 key). pose proof (L2 passphraseGlobalKey).
  rewrite !(proj2 (Nat.leb_gt _ _)) by lia. eapply HQ. by rewrite E2, ?E1.
Qed.

(** *** The owner logs in *)
Lemma challenge_nonempty : RawURLEncode (Sum256 verifier) <> "".
Proof. assert (Hl := length_Sum256 verifier). destruct (Sum256 verifier) as [|x s]; [done|]. by destruct s as [|y [|z s]]. Qed.

Lemma login_works w (Q : response -> World -> Prop) X : memory_only (store w) -> id <> "" -> clients (store w) !! id = Some client ->
  (length (failures (store w) id) < maxPassphraseFailures)%nat -> (length (failures (store w) passphraseGlobalKey) < maxPassphraseFailures)%nat ->
  Get form "passphrase" = passphrase p ->
  (forall w' n m, memory_only (store w') -> access (store w') = access (store w) ->
     codes (store w') !! drawn n = Some (code_of (request_params form) (clock m)) -> Q (redirectWithCode (request_params form) (drawn n)) w') ->
  wp (alone (submitLogin p form)) Q X w.
Proof.
  intros (Hp1 & Hp2 & Hp3) Hid Hc Hf Hg Hpass HQ. unfold submitLogin, validateAuthorizeRequest. cbn [pbind alone exec]. wp_step.
  apply getClient_returns; [done|done|]. intros w1 E1. destruct valid as [Hr Ht Hv Hch Hm Hres Hs].
  match goal with |- wp (alone (match ?r with _ => _ end)) _ _ _ => assert (Hok : r = Ok (request_params form)) end.
  { rewrite !check_ok, !reject_if_ok, Hr. split_and!; [done|..|done]; rewrite ?negb_false_iff;
      first [by apply bool_decide_eq_true|apply bool_decide_eq_false; rewrite Hch; apply challenge_nonempty]. }
  rewrite Hok. cbn [alone exec]. wp_step. cbn [request_params ap_clientID]. apply not_throttled; rewrite ?E1; [done|done|]. intros w2 f E2.
  rewrite Hpass, bool_decide_true by done. cbn [negb alone exec]. wp_step. unfold resetPassphraseFailures. wp_step. do 2 wp_step. do 2 wp_step.
  wp_step. wp_step. apply putCode_memory; [cbn; by rewrite E2, ?E1|]. intros w3 Hw3 Ha3 Hc3. cbn [alone]. wp_step. eapply HQ; [done|rewrite Ha3; cbn; by rewrite E2, ?E1|].
  rewrite Hc3. apply lookup_insert_eq.
Qed.

(** *** The client exchanges its code *)
Lemma putAccess_memory t g w (Q : unit -> World -> Prop) X : memory_only (store w) -> t <> "" -> (size (access (store w)) < maxAccessGrants)%nat ->
  (forall w', memory_only (store w') -> access (store w') !! accessTokenDigest t = Some g -> Q tt w') -> wp (putAccess t g) Q X w.
Proof.
  intros (Hp1 & Hp2 & Hp3) Ht Hsize HQ. unfold putAccess. wp_step. wp_step; [|by rewrite bool_decide_false in H by done]. wp_step. wp_step.
  rewrite Hp2. wp_step; [|done]. wp_step. apply wp_reloadAccess; rewrite Hp2; try done. intros _. do 2 wp_step. do 2 wp_step. do 2 wp_step. wp_step. wp_step.
  - wp_step. wp_step. wp_step. apply wp_persistAccess; cbn [store accessStorePath with_store with_access tick]; rewrite Hp2; try done. intros _. apply HQ; [done|].
    apply lookup_insert_eq.
  - exfalso. apply andb_true_iff in H0 as [_ H0%Nat.leb_le]. cbn in H0.
    assert (Hle := map_size_filter (fun e => After (clock (ticks w)) (ag_expiresAt e.2) = false) (access (store w))). lia.
Qed.

Lemma putRefresh_memory t g w (Q : unit -> World -> Prop) X : memory_only (store w) ->
  (forall w', memory_only (store w') -> access (store w') = access (store w) -> Q tt w') -> wp (putRefresh t g) Q X w.
Proof.
  intros (Hp1 & Hp2 & Hp3) HQ. unfold putRefresh. do 2 wp_step. rewrite Hp3. wp_step; [|done]. wp_step.
  apply wp_reloadRefresh; rewrite Hp3; try done. intros _. do 2 wp_step. wp_step.
  apply wp_persistRefresh; cbn [store refreshStorePath with_store with_refresh]; rewrite Hp3; try done. intros _. by apply HQ.
Qed.

Lemma verifier_accepted : verifyPKCE verifier (RawURLEncode (Sum256 verifier)) = true.
Proof.
  unfold verifyPKCE. rewrite (bool_decide_false (verifier = "")) by apply valid. rewrite (bool_decide_false (_ = "")) by apply challenge_nonempty.
  by rewrite bool_decide_true.
Qed.

Lemma exchange_works w n m r tform (Q : response -> World -> Prop) X : memory_only (store w) -> (size (access (store w)) < maxAccessGrants)%nat ->
  codes (store w) !! drawn n = Some (code_of (request_params form) (clock m)) -> good_exchange p form verifier (drawn n) r tform ->
  (forall w' i j ref, access (store w') !! accessTokenDigest (drawn i) =
       Some {| ag_clientID := id; ag_resource := resource p; ag_scope := "mcp"; ag_expiresAt := TimeAdd (clock j) accessTokenTTL |} ->
     memory_only (store w') -> Q (TokenPair (drawn i) ref "mcp" expires_in) w') ->
  wp (alone (handleToken r)) Q X w.
Proof.
  intros Hp Hsize Hcode [Hm Hform Ht Hc Hid Hred Hres Hver] HQ. destruct valid as [_ _ Hv Hch _ Hres' Hs].
  unfold handleToken. rewrite Hm, Hform, Ht, !(bool_decide_true (_ = _)) by done. cbn [negb]. unfold grantAuthorizationCode.
  cbn [alone exec]. wp_step. unfold consumeCode. rewrite Hc, bool_decide_false by done. do 2 wp_step. rewrite Hcode. do 2 wp_step. do 2 wp_step.
  cbn [code_of ac_expiresAt]. rewrite steady. wp_step.
  cbn [code_of request_params ac_clientID ac_redirectURI ac_resource ac_scope ac_codeChallenge ap_clientID ap_redirectURI ap_resource ap_scope ap_codeChallenge].
  rewrite Hid, Hred, Hres, Hres', Hver, Hs, Hch, !(bool_decide_true (_ = _)) by done.
  rewrite verifier_accepted. cbn [negb]. unfold issueTokenPair, issueAccessToken. cbn [pbind alone exec]. do 2 wp_step.
  rewrite (bool_decide_false (drawn _ = "")) by done. cbn [pbind alone exec]. do 2 wp_step. do 2 wp_step. apply putAccess_memory; [done|done|done|].
  intros w1 Hp1 Ha1. cbn [pbind alone exec]. rewrite (bool_decide_false (drawn _ = "")) by done. cbn [alone exec]. do 2 wp_step. do 2 wp_step. do 2 wp_step.
  apply putRefresh_memory; [done|]. intros w2 Hp2 Ha2. cbn [alone]. wp_step. eapply HQ; [|done]. rewrite Ha2. exact Ha1.
Qed.

(** *** The token is accepted *)
Lemma access_works w i j r (Q : option string -> World -> Prop) X : memory_only (store w) -> TrimSpace id <> "" -> Authorization r = "Bearer " +:+ drawn i ->
  access (store w) !! accessTokenDigest (drawn i) =
    Some {| ag_clientID := id; ag_resource := resource p; ag_scope := "mcp"; ag_expiresAt := TimeAdd (clock j) accessTokenTTL |} ->
  (forall w', Q (Some ("oauth-client:" +:+ id)) w') -> wp (alone (Principal p r)) Q X w.
Proof.
  intros (_ & Hp2 & _) Hid Hr Ha HQ. unfold Principal. rewrite Hr, HasPrefix_app. cbn [negb alone exec].
  assert (Hb : TrimSpace (drop_bytes 7 ("Bearer " +:+ drawn i)) = drawn i).
  { change (drop_bytes 7 ("Bearer " +:+ drawn i)) with (drawn i). apply TrimSpace_visible. unfold drawn. destruct (random i); [apply base64_visible|constructor]. }
  rewrite Hb. wp_step. unfold getAccess. rewrite bool_decide_false by done. do 2 wp_step. wp_step. wp_step. rewrite Hp2. wp_step; [|done]. wp_step.
  rewrite bool_decide_true by done. cbn [negb andb]. wp_step. do 2 wp_step. rewrite Ha. do 2 wp_step. cbn [ag_expiresAt].
  assert (Hn : After (clock (ticks w)) (TimeAdd (clock j) accessTokenTTL) = false).
  { specialize (steady (ticks w) j). revert steady. unfold After, TimeAdd, accessTokenTTL, authCodeTTL, Hour, Minute, Second. rewrite !Z.ltb_ge. lia. }
  rewrite Hn. wp_step. wp_step. cbn [alone]. wp_step. cbn [ag_resource ag_clientID]. rewrite bool_decide_true, bool_decide_false by done. apply HQ.
Qed.

(** C23 The login works, under these conditions: the process keeps its grants in memory
    only (no store files are configured) and answers each request without another one in
    between, its random source works, all readings of the clock are within the minute a
    code lives, the client is registered and does not expire meanwhile, its request is
    well formed, neither it nor the deployment as a whole is locked out by wrong guesses,
    and there is room for one more access grant.  Then, when the owner gives the right
    passphrase, the answer carries a code; when the client presents that code with its
    verifier, the answer is a pair of tokens with the scope asked for; and a request that
    bears the access token is accepted as that client.  None of the three can fail. *)
Theorem login_grants_access w : memory_only (store w) -> TrimSpace id <> "" -> clients (store w) !! id = Some client ->
  (length (failures (store w) id) < maxPassphraseFailures)%nat -> (length (failures (store w) passphraseGlobalKey) < maxPassphraseFailures)%nat ->
  (size (access (store w)) < maxAccessGrants)%nat -> Get form "passphrase" = passphrase p ->
  wp (alone (submitLogin p form)) (fun answer w1 => exists code, answer = redirectWithCode (request_params form) code /\
    forall r tform, good_exchange p form verifier code r tform ->
    wp (alone (handleToken r)) (fun answer w2 => exists acc ref, answer = TokenPair acc ref "mcp" 3600 /\
      forall r', Authorization r' = "Bearer " +:+ acc ->
      wp (alone (Principal p r')) (fun principal _ => principal = Some ("oauth-client:" +:+ id)) (fun _ _ => False) w2)
    (fun _ _ => False) w1) (fun _ _ => False) w.
Proof.
  intros Hp Hid Hc Hf Hg Hsize Hpass. assert (Hne : id <> "") by (by intros Eid; rewrite Eid in Hid).
  apply login_works; try done. intros w1 n m Hp1 Ha1 Hcode. eexists. split; [done|]. intros r tform Hx.
  eapply exchange_works; [done|by rewrite Ha1|exact Hcode|exact Hx|]. intros w2 i j ref Ha2 Hp2. exists (drawn i), ref. split; [done|]. intros r' Hr'.
  by eapply access_works.
Qed.
End Flow.
