(* ===== verification/OAuthExamples.v ===== *)
(** * OAuth: the properties at concrete deployments

    A deployment with a constant clock and a counter for its random source, a login
    followed through it, and the cases in which the code does less than its comments say. *)

From S2P Require Import Prelude Effects GoStrings GoRegexp GoJson GoTime GoReflect GoRecord Sha256 GoPath GoUrl OAuthTypes OAuthStore OAuthProvider OAuthFacts OAuthInv OAuthSystem OAuthSafety OAuthSingle OAuthThrottle OAuthTokens.

(** ** A deployment *)
Definition still : Environment := {| clock := fun _ => 1000 * Second; random := fun n => Some (String (chr (Z.of_nat n)) "ab") |}.
Definition memory_cfg : Config :=
  {| Issuer := "https://a"; Resource := "https://a/mcp"; Passphrase := "open"; ClientStorePath := ""; AccessStorePath := ""; RefreshStorePath := "" |}.
Definition file_cfg : Config :=
  {| Issuer := "https://a"; Resource := "https://a/mcp"; Passphrase := "open"; ClientStorePath := ""; AccessStorePath := ""; RefreshStorePath := "/r" |}.
Definition no_links : FS := ∅.
Definition no_files : string -> option Z := fun _ => None.

Definition post (body : string) : Request := {| Method := "POST"; URLQuery := ""; ContentType := MediaForm; Body := body; Authorization := "" |}.
Definition json_body : string := "{'redirect_uris':['https://c/']}".
Definition quoted : string := String.string_of_list_ascii (map (fun c => if (byte_val c =? 39) then chr 34 else c) (String.list_ascii_of_string json_body)).
Definition login_with (pass : string) : string :=
  "client_id=AGFi&redirect_uri=https://c/&response_type=code&code_challenge=" +:+ RawURLEncode (Sum256 "v") +:+
  "&code_challenge_method=S256&resource=https://a/mcp&scope=mcp&passphrase=" +:+ pass.
Definition login_body : string := login_with "open".
Definition token_body : string :=
  "grant_type=authorization_code&code=AWFi&client_id=AGFi&redirect_uri=https://c/&resource=https://a/mcp&code_verifier=v".
Definition with_token (token : string) : Request :=
  {| Method := "POST"; URLQuery := ""; ContentType := MediaForm; Body := ""; Authorization := "Bearer " +:+ token |}.

Definition login_events : list event :=
  [Start 0 []; Arrive 0 0 (JHttp pathRegister (post quoted)); Run 0 0 []; Run 0 0 [];
   Arrive 0 1 (JHttp pathAuthorize (post login_body)); Run 0 1 []; Run 0 1 []; Run 0 1 []; Run 0 1 []; Run 0 1 []; Run 0 1 []].
Definition exchange_events : list event :=
  login_events ++ [Arrive 0 2 (JHttp pathToken (post token_body)); Run 0 2 []; Run 0 2 []; Run 0 2 []; Run 0 2 []; Run 0 2 []; Run 0 2 []; Run 0 2 [];
   Arrive 0 3 (JPrincipal (with_token "AmFi")); Run 0 3 []].
#[local] Existing Instance still.
Definition answered (σ : system) (pid rid : nat) : option (job * reply) :=
  pr ← sy_procs σ !! pid; match pr_requests pr !! rid with Some (j, Ret r) => Some (j, r) | _ => None end.
Lemma answered_replied σ pid rid j r : answered σ pid rid = Some (j, r) -> replied σ pid rid j r.
Proof.
  unfold answered, replied. intros (pr & Hpr & H)%bind_Some. exists pr. split; [done|]. destruct (pr_requests pr !! rid) as [[j' [r'|A c k]]|]; try done.
  by injection H as -> ->.
Qed.

(** ** Logins *)
Lemma memory_distinct : paths_distinct (paths memory_cfg).
Proof. by split. Qed.
Lemma memory_no_stores : no_stores memory_cfg ∅.
Proof. by split_and!; rewrite lookup_empty. Qed.

Lemma owner_login_required_witness :
  replied (runs no_links no_files memory_cfg (initial ∅) exchange_events) 0 3 (JPrincipal (with_token "AmFi")) (PrincipalIs (Some "oauth-client:AGFi")) /\
  exists client, "oauth-client:AGFi" = "oauth-client:" +:+ client /\ approved memory_cfg exchange_events client /\
    exists n, accessTokenDigest (bearer (with_token "AmFi")) = accessTokenDigest (drawn n).
Proof.
  assert (H : replied (runs no_links no_files memory_cfg (initial ∅) exchange_events) 0 3 (JPrincipal (with_token "AmFi")) (PrincipalIs (Some "oauth-client:AGFi")))
    by (apply answered_replied; vm_compute; reflexivity).
  split; [exact H|]. apply (owner_login_required no_links no_files memory_cfg ∅ exchange_events 0 3 (with_token "AmFi") "oauth-client:AGFi");
    [apply memory_distinct|apply memory_no_stores|vm_compute; reflexivity|vm_compute; reflexivity|exact H].
Defined.

Definition target : URL :=
  {| Scheme := "https"; Opaque := ""; User := None; Host := "c"; Path := "/"; ForceQuery := false; RawQuery := "code=AWFi"; Fragment := "" |}.
Definition login_csp : string := "default-src 'none'; style-src 'self'; form-action 'self' https://c; frame-ancestors 'none'; base-uri 'none'".

Lemma codes_go_to_registered_addresses_witness : safe_target target.
Proof.
  apply (codes_go_to_registered_addresses no_links no_files memory_cfg ∅ login_events 0 1 (JHttp pathAuthorize (post login_body)) login_csp target);
    [apply memory_distinct|apply memory_no_stores|vm_compute; reflexivity|vm_compute; reflexivity|apply answered_replied; vm_compute; reflexivity].
Defined.

Lemma limits_hold_witness : exists pr, sy_procs (runs no_links no_files memory_cfg (initial ∅) [Start 0 []]) !! 0%nat = Some pr /\
  (size (clients (pr_store pr)) <= maxClients)%nat /\ (size (access (pr_store pr)) <= maxAccessGrants)%nat.
Proof.
  destruct (sy_procs (runs no_links no_files memory_cfg (initial ∅) [Start 0 []]) !! 0%nat) as [pr|] eqn:Epr; [|vm_compute in Epr; discriminate Epr].
  exists pr. split; [reflexivity|]. apply (limits_hold no_links no_files memory_cfg ∅ [Start 0 []] 0 pr);
    [apply memory_distinct|apply memory_no_stores|vm_compute; reflexivity|vm_compute; reflexivity|exact Epr].
Defined.

(** ** Refresh tokens *)
(** Two processes that share the refresh file race to redeem a token that neither has. *)
Definition refresh_body : string := "grant_type=refresh_token&refresh_token=x".
Definition refresh_events : list event :=
  [Start 0 []; Start 1 []; Arrive 0 0 (JHttp pathToken (post refresh_body)); Arrive 1 0 (JHttp pathToken (post refresh_body));
   Run 0 0 []; Run 1 0 []; Run 0 0 []; Run 1 0 []; Run 0 0 []; Run 1 0 []; Run 1 0 []; Run 0 0 []].
Lemma file_distinct : paths_distinct (paths file_cfg).
Proof. by split. Qed.
Lemma file_no_stores : no_stores file_cfg ∅.
Proof. by split_and!; rewrite lookup_empty. Qed.

Lemma log_checked (log : list (nat * logged)) : forallb (fun e => negb (revocation e.2)) log = true -> Forall (fun e => revocation e.2 = false) log.
Proof. intros H. apply Forall_forall. intros e He%list_elem_of_In. rewrite forallb_forall in H. by apply negb_true_iff, H. Qed.

Lemma refresh_single_use_witness :
  let log := sy_log (runs no_links no_files file_cfg (initial ∅) refresh_events) in
  length log = 8%nat /\ (count_all (token_redeemed "x") log <= count_all (token_issued "x") log)%nat.
Proof.
  split; [vm_compute; reflexivity|]. apply (refresh_single_use no_links no_files file_cfg file_distinct);
    [vm_compute; discriminate|apply file_no_stores|vm_compute; reflexivity|vm_compute; reflexivity|].
  apply log_checked. vm_compute. reflexivity.
Defined.

(** A world with the memory and the file of one token. *)
Definition old_grant : refreshGrant := {| rg_clientID := "c"; rg_scope := "mcp"; rg_resource := "https://a/mcp"; rg_expiresAt := 2000 * Second |}.
Definition one_token : gmap string refreshGrant := {["old" := old_grant]}.
Definition token_store : tokenStore := with_refresh one_token (with_refreshStorePath "/r" newTokenStore).
Definition token_world : World :=
  {| disk := {["/r" := MarshalIndent c_refresh_file (refresh_file one_token)]}; ticks := 0; draws := 0; store := token_store |}.
Lemma one_token_text : map_Forall refresh_text one_token.
Proof. apply map_Forall_singleton. by split_and!. Qed.

Lemma token_world_ready : ready (paths file_cfg) token_world.
Proof.
  assert (Hback : forall now m, refresh_of_text now (MarshalIndent c_refresh_file (refresh_file one_token)) = Some m -> map_Forall refresh_text m).
  { intros now m. rewrite refresh_restored; [|apply one_token_text|vm_compute; reflexivity]. intros H. apply Some_inj in H as <-. intros t g [Hg _]%map_lookup_filter_Some. by apply one_token_text. }
  unfold token_world. revert Hback. generalize (MarshalIndent c_refresh_file (refresh_file one_token)). intros file Hback.
  split; [by split_and!|apply one_token_text| |]; cbn [disk]; change (p_refresh (paths file_cfg)) with "/r"; rewrite lookup_singleton_eq; [|done].
  intros body now m H. apply Some_inj in H as <-. apply Hback.
Qed.

Lemma rotation_all_or_nothing_witness :
  wp (rotateRefresh "old" "new" "acc" (1000 * Second))
    (fun o w' => match o with Some g => rotation (paths file_cfg) "old" "new" "acc" (1000 * Second) g token_world w' | None => unrotated (paths file_cfg) "old" (1000 * Second) token_world w' end)
    (fun _ w' => disk w' !! "/r" = disk token_world !! "/r") token_world.
Proof.
  apply (rotation_all_or_nothing (paths file_cfg) file_distinct); [vm_compute; discriminate|apply token_world_ready].
Defined.

Lemma refresh_survives_restart_witness :
  wp (putRefresh "new" old_grant) (fun _ w1 => refresh (store w1) !! "new" = Some old_grant /\
      forall w2, disk w2 = disk w1 ->
      wp (NewProvider no_links no_files file_cfg) (fun _ w3 => exists n, refresh (store w3) = unexpired (clock n) (refresh (store w1))) (fun _ _ => True) w2)
    (fun _ _ => True) token_world.
Proof.
  apply (refresh_survives_restart no_links no_files file_cfg file_distinct); [vm_compute; discriminate|apply token_world_ready|by split_and!].
Defined.

(** ** Exchanges *)
Definition stored_code : authCode :=
  {| ac_clientID := "AGFi"; ac_redirectURI := "https://c/"; ac_codeChallenge := RawURLEncode (Sum256 "v"); ac_scope := "mcp"; ac_resource := "https://a/mcp";
     ac_expiresAt := 2000 * Second |}.
Definition pair_access : accessGrant := {| ag_clientID := "AGFi"; ag_resource := "https://a/mcp"; ag_scope := "mcp"; ag_expiresAt := 4600 * Second |}.
Definition pair_refresh : refreshGrant :=
  {| rg_clientID := "AGFi"; rg_scope := "mcp"; rg_resource := "https://a/mcp"; rg_expiresAt := TimeAdd (1000 * Second) refreshTokenTTL |}.
Definition exchange_log : list logged :=
  [Logged (CConsumeCode "AWFi") (Some stored_code); Logged CRand "t"; Logged CNow (1000 * Second); Logged (CPutAccess "t" pair_access) (Ok tt);
   Logged CRand "u"; Logged CNow (1000 * Second); Logged (CPutRefresh "u" pair_refresh) (Ok tt)].

Lemma exchange_behaves : behaves (handleToken (post token_body)) exchange_log (TokenPair "t" "u" "mcp" 3600).
Proof.
  assert (Hform : ParseForm (post token_body) = Some (ParseQuery token_body).1) by reflexivity.
  unfold handleToken. rewrite Hform. cbn [post Method]. rewrite bool_decide_true by done. cbn [negb].
  rewrite bool_decide_true by (vm_compute; reflexivity). unfold grantAuthorizationCode, exchange_log.
  replace (Get (ParseQuery token_body).1 "code") with "AWFi" by (vm_compute; reflexivity).
  eexists _, _. split; [reflexivity|]. cbn [stored_code ac_clientID ac_redirectURI ac_resource ac_codeChallenge].
  rewrite !(bool_decide_true (_ = _)) by (vm_compute; reflexivity). cbn [negb].
  replace (verifyPKCE _ _) with true by (vm_compute; reflexivity). cbn [negb].
  do 6 (eexists _, _; split; [reflexivity|]). by split.
Qed.

Lemma token_exchange_checks_witness : exists form, ParseForm (post token_body) = Some form /\ Method (post token_body) = "POST" /\ 3600 = 3600 /\
  ((Get form "grant_type" = "authorization_code" /\ exists k l', exchange_log = Logged (CConsumeCode (Get form "code")) (Some k) :: l' /\
     Get form "client_id" = ac_clientID k /\ Get form "redirect_uri" = ac_redirectURI k /\ Get form "resource" = ac_resource k /\
     Get form "code_verifier" <> "" /\ RawURLEncode (Sum256 (Get form "code_verifier")) = ac_codeChallenge k /\
     "mcp" = ac_scope k /\ grants_logged l' "t" "u" (ac_clientID k) (ac_resource k) (ac_scope k)) \/
   (Get form "grant_type" = "refresh_token" /\ exists g now,
     Logged (CRotateRefresh (Get form "refresh_token") "u" "t" now) (Ok (Some g)) ∈ exchange_log /\ "mcp" = rg_scope g)).
Proof. exact (token_exchange_checks (post token_body) exchange_log "t" "u" "mcp" 3600 exchange_behaves). Defined.

(** ** The flow *)
Definition flow_provider : Provider := provider memory_cfg.
Definition flow_client : clientReg := {| cr_redirectURIs := ["https://c/"]; cr_createdAt := 1000 * Second; cr_activated := true |}.
Definition flow_form : Values := (ParseQuery login_body).1.
Definition flow_world : World :=
  {| disk := ∅; ticks := 0; draws := 0; store := with_clients {["AGFi" := flow_client]} newTokenStore |}.

Lemma login_grants_access_witness :
  wp (alone (submitLogin flow_provider flow_form)) (fun answer w1 => exists code, answer = redirectWithCode (request_params flow_form) code /\
    forall r tform, good_exchange flow_provider flow_form "v" code r tform ->
    wp (alone (handleToken r)) (fun answer w2 => exists acc ref, answer = TokenPair acc ref "mcp" 3600 /\
      forall r', Authorization r' = "Bearer " +:+ acc ->
      wp (alone (Principal flow_provider r')) (fun principal _ => principal = Some ("oauth-client:" +:+ Get flow_form "client_id")) (fun _ _ => False) w2)
    (fun _ _ => False) w1) (fun _ _ => False) flow_world.
Proof.
  apply (login_grants_access flow_provider flow_client flow_form "v").
  - intros n m. reflexivity.
  - intros n. discriminate.
  - split; try (vm_compute; reflexivity). discriminate.
  - left. reflexivity.
  - by split_and!.
  - vm_compute. discriminate.
  - vm_compute. reflexivity.
  - vm_compute. lia.
  - vm_compute. lia.
  - vm_compute. lia.
  - vm_compute. reflexivity.
Defined.

(** ** Guesses *)
(** A clock that moves 20 seconds between readings, and guesses one after the other. *)
Definition slow : Environment := {| clock := fun n => 20 * Second * Z.of_nat n; random := fun _ => Some "abc" |}.
Definition wrong_form : Values := (ParseQuery (login_with "shut")).1.

Definition guess (s : list time * World) : list time * World :=
  match run (@alone slow _ (@submitLogin flow_provider wrong_form)) s.2 [] with
  | (Ok r, w) => (s.1 ++ (if wrong_guess r then [@clock slow (ticks w - 1)] else []), w)
  | (Err _, _) => s
  end.
Definition guesses_after (n : nat) : list time * World := Nat.iter n guess ([], flow_world).

Lemma guess_session s : @session slow flow_provider s.1 s.2 -> @session slow flow_provider (guess s).1 (guess s).2.
Proof.
  intros Hs. unfold guess. destruct (run (@alone slow _ (@submitLogin flow_provider wrong_form)) s.2 []) as [[r|e] w] eqn:Er; [|exact Hs].
  exact (@session_login slow flow_provider s.1 s.2 wrong_form [] r w Hs Er).
Qed.
Lemma guessing n : @session slow flow_provider (guesses_after n).1 (guesses_after n).2.
Proof. unfold guesses_after. induction n as [|n IH]; [by apply session_new|]. exact (guess_session _ IH). Qed.

Lemma guesses_throttled_witness : exists a b, (guesses_after 6).1 !! 0%nat = Some a /\ (guesses_after 6).1 !! (0 + maxPassphraseFailures)%nat = Some b /\
  Minute <= TimeSub b a.
Proof.
  destruct ((guesses_after 6).1 !! 0%nat) as [a|] eqn:Ea; [|vm_compute in Ea; discriminate Ea].
  destruct ((guesses_after 6).1 !! (0 + maxPassphraseFailures)%nat) as [b|] eqn:Eb; [|vm_compute in Eb; discriminate Eb].
  exists a, b. split; [reflexivity|]. split; [reflexivity|].
  apply (@guesses_throttled slow flow_provider (guesses_after 6).1 (guesses_after 6).2 0 a b); [|apply guessing|exact Ea|exact Eb].
  intros n m Hnm. apply (Z.mul_le_mono_nonneg_l (Z.of_nat n) (Z.of_nat m) (20 * Second)); [vm_compute; discriminate|lia].
Defined.

(** ** Where the code does less *)
(** Six wrong guesses whose requests overlap are all answered: each is checked before any
    is recorded, and the clock does not move. *)
Definition wrong_login : job := JHttp pathAuthorize (post (login_with "shut")).
Definition race_events : list event :=
  [Start 0 []; Arrive 0 0 (JHttp pathRegister (post quoted)); Run 0 0 []; Run 0 0 []] ++ map (fun i => Arrive 0 i wrong_login) (seq 1 6) ++
  map (fun i => Run 0 i []) (seq 1 6) ++ map (fun i => Run 0 i []) (seq 1 6) ++ map (fun i => Run 0 i []) (seq 1 6).
Definition refused (σ : system) (rid : nat) : bool :=
  match answered σ 0 rid with Some (_, Answer r) => wrong_guess r | _ => false end.

Theorem throttle_race : map (refused (runs no_links no_files memory_cfg (initial ∅) race_events)) (seq 1 6) = repeat true 6.
Proof. vm_compute. reflexivity. Qed.

(** Two stores whose paths pass the check and are one file once enabled. *)
Definition spaced_cfg : Config :=
  {| Issuer := "https://a"; Resource := "https://a/mcp"; Passphrase := "open"; ClientStorePath := ""; AccessStorePath := "/s "; RefreshStorePath := "/s /." |}.
Theorem spaced_paths_accepted :
  validateDistinctStorePaths no_links no_files [ClientStorePath spaced_cfg; AccessStorePath spaced_cfg; RefreshStorePath spaced_cfg] = Ok tt /\
  p_access (paths spaced_cfg) = "/s " /\ p_refresh (paths spaced_cfg) = "/s ".
Proof. by vm_compute. Qed.
